(* ===== verification/_CoqProject ===== *)
-Q . S2P
Prelude.v
GoLib.v
Sha1.v
GoTime.v
Resp.v
RespFacts.v
Classify.v
ClassifyFacts.v
Policy.v
PolicyFacts.v
Stores.v
Guard.v
GuardScope.v
GuardCheck.v
GuardFrames.v
GuardFacts.v
GuardSlices.v
GuardLedger.v
GuardTheorems.v
GuardState.v
GuardCounters.v
GuardTrash.v
GuardCommit.v
TxnUnit.v
Ancestry.v
AncestryFacts.v
AncestryTheorems.v
AncestryRace.v
LeaseStore.v
Leases.v
LeaseFacts.v
LeaseInv.v
LeaseLoad.v
LeaseTheorems.v
LeaseCmd.v
LeaseCmdFacts.v
Place.v
PlaceFacts.v
PlaceInv.v
PlaceTheorems.v
PlaceExamples.v
Grants.v
GrantsFacts.v
SmartView.v
SmartViewFacts.v
Decide.v
DecideFacts.v
DecideWorld.v
DecidePlan.v
Sha256.v
Auth.v
AuthFacts.v
Accounting.v
Conn.v
ConnDecide.v
ConnWorld.v
ConnFacts.v
ConnInv.v
ConnReplies.v
ConnOrder.v
ConnOutcomes.v
ConnDB.v
ConnRuns.v
ConnTheorems.v
RedisRanges.v
RangeFacts.v
RedisSessions.v
RedisSessionFacts.v
Singleton.v
SingletonFacts.v
PreAuth.v
SidePool.v
Json.v
AuditRecord.v
AuditRead.v
AuditWriter.v
AuditChain.v
AuditAccount.v
AuditInv.v
AuditLog.v
