(* ===== verification/Prelude.v ===== *)
(** * Verification of the JuiceMount Redis proxy and its audit log

    JuiceMount lets several Macs, render machines and a Manager mount one
    JuiceFS volume whose metadata is in Redis.  src/internal/respproxy is a
    proxy in front of that Redis.  It authenticates each client, reads its
    commands, and decides for every command or MULTI/EXEC transaction (a
    "unit") whether it may run: which keys a principal may write, in which
    folders a person may write, and that only the holder of a project's lease
    writes in that project.  This library models the path of a write through
    the proxy, from bytes to the final outcome, and proves that the decisions
    hold what they promise.  src/internal/auditlog is the log in which the
    proxy and the Manager record what was done: a chain of hashed lines in
    segment files, with one writer and readers that check it.  The library
    models the writer down to the bytes of its files, and the readers.

    ** The parts, in the order a write meets them

    - RESP codec, resp.go: [Resp], theorems in [RespFacts].  Readers and writers
      of the Redis protocol on byte strings, with the buffer size of the reader
      as a parameter.
    - Authentication, auth.go: [Auth], with SHA-256 in [Sha256]; theorems in
      [AuthFacts].  The throttle, the cache of verified passwords, reloads of the
      principal table and the sessions they revoke.
    - Classification, classify.go: [Classify] with [Sha1]; [ClassifyFacts].  What
      a command is, the keys it names, and the JuiceFS shape of a key.
    - Units and refusals, policy.go: [Policy], [PolicyFacts].
    - Guard, guard.go: [Guard] (data, classes, counters), [GuardScope] (slice
      references), [GuardCheck] (the gates and Check), [Stores] (the interfaces of
      its stores as classes with laws and their in-memory instances), [GoTime]
      (names of hourly trash directories).  Theorems: [GuardFrames], [GuardFacts],
      [GuardSlices], [GuardLedger], [GuardTheorems], [GuardState],
      [GuardCounters], [GuardTrash], [GuardCommit].
    - Accounting values, accounting.go: [Accounting].
    - Facts and placement of a unit, txnunit.go: [TxnUnit] is analyzeUnit,
      [Place] is placeUnit, loop by loop.  Theorems: [PlaceFacts], [PlaceInv],
      [PlaceTheorems], [PlaceExamples].
    - Directory resolver, ancestry.go and projcache.go: [Ancestry].  Theorems:
      [AncestryFacts], [AncestryTheorems], [AncestryRace].
    - Person grants, grants.go: [Grants], [GrantsFacts].
    - Smart-folder views, smartview.go: [SmartView], [SmartViewFacts].
    - Lease table, leases.go: [LeaseStore] is the Redis keys and the Lua scripts,
      [Leases] the table in memory.  Theorems: [LeaseFacts], [LeaseInv],
      [LeaseLoad], [LeaseTheorems].
    - Lease commands, leasecmd.go: [LeaseCmd], [LeaseCmdFacts].
    - Decide, decide.go: [Decide].  Theorems: [DecideFacts] (one unit),
      [DecideWorld] (units, lease commands and Redis together), [DecidePlan]
      (what a plan covers).
    - Client connections, proxy.go: [Conn] is the command handlers, the queue
      of replies and the reply goroutine; [ConnDecide] the stages of a decision
      with the policy as a class; [ConnWorld] the connection together with
      Redis and the rest of the proxy.  A handler is a list of operations, and
      the steps of the command goroutine are these operations.  Theorems:
      [ConnFacts], [ConnInv] (mediation), [ConnReplies] and [ConnOrder] (order
      of replies), [ConnOutcomes], [ConnDB], [ConnRuns] (a Redis small enough
      to run) and [ConnTheorems].
    - The rest of proxy.go.  [Singleton], [SingletonFacts]: the key that lets
      one proxy at a time serve, with the fence.  [PreAuth]: the limits on
      connections before AUTH.  [RedisRanges], [RangeFacts]: who slice ids and
      inode numbers were allocated to, with the Lua scripts on their sorted
      sets.  [RedisSessions], [RedisSessionFacts]: owners of sessions and used
      bits; the session store is an instance of the guard's interface.
      [SidePool]: the proxy's own connections.

    ** The audit log

    - A line, auditlog.go: [AuditRecord], with encoding/json in [Json].
    - The readers, read.go: [AuditRead].  Verify, VerifyAnchors, Follow and the
      checks of retention records, over the lines of the segments.
    - The writer, auditlog.go and maintain.go: [AuditWriter].  Append,
      AppendDurable and Sync; writeBatch, rotate, reopen, recover and retain;
      and the steps of the writer goroutine ([astep]), one per critical section
      and per file operation, between which callers append and the process may
      end.
    - Theorems: [AuditChain] (lines, the chain, the files), [AuditAccount]
      (records are taken, written or lost once; what is acknowledged has its
      line), [AuditInv] (the invariant of writer and files, [Inv_reach]) and
      [AuditLog] (what the log promises).

    [GoLib] is what the code uses of Go's strings, strconv and slices; this
    file has the monads, the proof rules and the tactics the others share.

    ** How the code is modelled

    Definitions keep the names of the source; each source struct is a record,
    each enumeration an inductive type.  Bytes and strings are [string], integers
    are [Z] with [u64] and [i64] where the code wraps.  Code that fails returns
    a [result]; code that changes memory runs in [SM], where the memory survives
    an error as the heap survives an early return; a Go panic is a value too.
    Texts that are only logged, statistics and test hooks are left out.

    What is not the proxy's own code is an argument: [side] answers the reads
    the proxy makes of the volume, [net] says for each call whether its reply
    was lost before or after the script ran, [clock] gives the instants, [perm]
    the order in which Go iterates over a map or Redis lists a hash, [scan] the
    pages of SCAN, [argon] is argon2; [checkReplacements]
    and [auditStart] are what replacement.go and audit.go answer.  Redis behind
    a connection is the class [Server], with its documented behaviour in
    [ServerLaws].  Theorems hold for all of them, or for
    those with a named property (a clock that does not run backwards, side
    reads that agree with the tree), and each such theorem has a witness.

    Concurrency is explicit.  A critical section of the code is one step, and
    the steps of different goroutines interleave freely: side reads against
    commits in [AncestryRace], units against lease commands, sweeps, flushes
    and Redis in [DecideWorld], AUTHs against reloads in [AuthFacts], the two
    goroutines of a connection and Redis in [ConnWorld].  The
    project fences and the topology lock are the side conditions of the steps.

    ** What is shown

    - Who is connected: a live connection belongs to a principal of the table
      in force, and got there with a password argon2 accepts; guesses that
      follow one another are throttled, guesses side by side are not.
    - What a unit may contain: every command and key of an admitted unit is one
      its principal may use; slice references are conserved; sessions, counters
      and the trash stay within their bounds; Commit settles the stores.
    - Where it may write: the plan of a unit names every project it writes in
      ([DecidePlan]); the trash is entered and left only by moving; new inodes
      have numbers of the writer; a person stays inside the folders granted;
      the one exception for the Manager is exactly an rmdir of an empty view.
    - Who may write there: a unit that Redis may still run holds the lease of
      every project of its plan, at the epoch it was admitted under, in every
      interleaving; a refused unit takes no lease; Decide ends; leases move
      along [lease_spec], epochs fence their holders, a restart recovers them.
    - What reaches Redis: in every interleaving Redis runs only commands that
      need no decision and whole bodies of admitted units, each once, in the
      database it was decided for; the client gets the replies of its commands
      in order; Done is told the truth, once.  These hold for clients that send
      MULTI and DISCARD without arguments and no pub/sub command ([clientOK]);
      what happens without the first restriction is proved as well.
    - One proxy at a time: a proxy that lets a write through owns the key, and
      none does after another one did.  The owners the stores in Redis name
      are the principals the ids were allocated to.
    - Where directories are: the resolver gives the place the tree has, and no
      race puts a stale parent in its cache.
    - What goes over the wire: round trips of commands, keys and refusals.
    - The audit log: it passes its own check after every run, with partial
      writes, recoveries, rotations, retention and restarts; what AppendDurable
      reports is in it; refusals and losses are counted exactly; and an anchor
      fixes every line before it.  [Calm] names the three rare events the first
      of these excludes, and for two of them the failure is proved.
    - Where the code fails: panics on crafted commands, an overflow of slice
      decrements, a checkout that never ends, a rollback that ends a checkout,
      attributes of the root that no grant covers, a directory in the trash
      that keeps its project, a MULTI with an argument that switches the
      gates off, a Done that is not called, a restart that breaks the chain of
      the audit log.

    ** Bounds and fuel

    [maxWalk] is the 4096 parents the code walks; [reaches] in the theorems on
    success is that same bound.  [loadLeases] takes the number of SCAN pages as
    fuel and the theorem on restarts gives enough of it.  Decide's loop needs no
    more than [decideFuel] steps, which is proved.  Readers in [Resp] take fuel
    in the length of their input, and run out on none.  [FormatUint] prints at
    most 20 digits, [Fields] and [Split] at most one part more than the string
    has bytes.  Epochs of reloads are 64-bit, and the theorem on sessions asks
    for fewer than 2^64 reloads.  Ids in the Lua scripts are below 2^53, where
    their doubles are exact.  The audit log has fewer than 2^64 records and
    losses ([sane]).  The JSON reader's fuel is the nesting limit of Go, 10000,
    and the length of the text.  The lifetime of the singleton key is at least
    26 ms, so that its fifth outweighs a clock of Redis that is 20% fast.

    ** Not modelled

    Of the proxy: sockets, timers and the polling of the mode, parsing of
    principals.json, the background scan of
    bootstrap.go, loadSmartViews, the birth and replacement records with their
    Lua scripts, reloading of files, the records the proxy makes for the audit
    log and the statistics.  Of the audit log: queries, the health file, and
    other processes that change the directory while the writer runs.  The
    world of [DecideWorld] is enforce mode: in observe mode a refused unit is
    sent as well.  Outside the proxy: the NFS server, the metadata mirror, the
    app and its bridge, the Manager, the farm, and JuiceFS itself, which are
    separate programs; the manifest lists them with the reason for each. *)

From Stdlib Require Export ZArith Lia Ascii.
From stdpp Require Export base tactics list strings gmap.

#[global] Open Scope Z_scope.

(** ** Results and the state/error monad

    Go code that returns an error, refuses a unit or panics is a [result].
    Code that also mutates memory which outlives a refusal (the guard's rate
    windows, a unit's [Writes]) runs in [SM]: the state survives an [Err],
    exactly as Go's heap survives an early return. *)
Inductive result (E A : Type) : Type :=
  | Ok (a : A)
  | Err (e : E).
Arguments Ok {_ _} _.
Arguments Err {_ _} _.

#[global] Instance result_ret {E} : MRet (result E) := fun A a => Ok a.
#[global] Instance result_bind {E} : MBind (result E) := fun A B f m =>
  match m with Ok a => f a | Err e => Err e end.
#[global] Instance result_fmap {E} : FMap (result E) := fun A B f m =>
  match m with Ok a => Ok (f a) | Err e => Err e end.

Definition SM (S E A : Type) : Type := S -> result E A * S.

#[global] Instance SM_ret {S E} : MRet (SM S E) := fun A a s => (Ok a, s).
#[global] Instance SM_bind {S E} : MBind (SM S E) := fun A B f m s =>
  match m s with
  | (Ok a, s1) => f a s1
  | (Err e, s1) => (Err e, s1)
  end.

Definition sm_get {S E} : SM S E S := fun s => (Ok s, s).
Definition sm_put {S E} (s : S) : SM S E unit := fun _ => (Ok tt, s).
Definition sm_modify {S E} (f : S -> S) : SM S E unit := fun s => (Ok tt, f s).
Definition sm_err {S E A} (e : E) : SM S E A := fun s => (Err e, s).
Definition sm_lift {S E A} (r : result E A) : SM S E A := fun s => (r, s).

(** [for _, x := range l { body }] with early return on [Err]. *)
Fixpoint mfor {S E A} (l : list A) (body : A -> SM S E unit) : SM S E unit :=
  match l with
  | [] => mret tt
  | x :: l' => body x ≫= fun _ => mfor l' body
  end.

(** [for i, x := range l]: the body also receives the index. *)
Fixpoint mfori {S E A} (i : nat) (l : list A) (body : nat -> A -> SM S E unit) : SM S E unit :=
  match l with
  | [] => mret tt
  | x :: l' => body i x ≫= fun _ => mfori (Datatypes.S i) l' body
  end.

(** The same loop with an accumulator. *)
Fixpoint mfold {S E A B} (f : B -> A -> SM S E B) (b : B) (l : list A) : SM S E B :=
  match l with
  | [] => mret b
  | x :: l' => f b x ≫= fun b' => mfold f b' l'
  end.

(** The pure loop: fold an accumulator with early return. *)
Fixpoint rfold {E A B} (f : B -> A -> result E B) (b : B) (l : list A) : result E B :=
  match l with
  | [] => Ok b
  | x :: l' => b' ← f b x; rfold f b' l'
  end.

Section monad_lemmas.
Context {S E : Type}.

Lemma sm_bind_Ok {A B} (m : SM S E A) (f : A -> SM S E B) s b s' :
  (m ≫= f) s = (Ok b, s') ->
  exists a s1, m s = (Ok a, s1) /\ f a s1 = (Ok b, s').
Proof.
  unfold mbind, SM_bind. destruct (m s) as [[a|e] s1] eqn:Hm; [|congruence].
  intros H. eauto.
Qed.

Lemma result_bind_Ok {A B} (m : result E A) (f : A -> result E B) b :
  (m ≫= f) = Ok b -> exists a, m = Ok a /\ f a = Ok b.
Proof. destruct m; cbn; intros H; [eauto | discriminate]. Qed.

(** Hoare-style rule: an invariant kept by every iteration of a loop that
    runs to its end holds at the end, indexed by the part already done. *)
Lemma mfor_invariant {A} (P : list A -> S -> Prop) (l : list A) (body : A -> SM S E unit) done s s' :
  P done s ->
  (forall d x s1 s2, P d s1 -> x ∈ l -> body x s1 = (Ok tt, s2) -> P (d ++ [x]) s2) ->
  mfor l body s = (Ok tt, s') ->
  P (done ++ l) s'.
Proof.
  revert done s. induction l as [|x l IH]; intros done s HP Hstep Hrun; cbn in Hrun.
  - injection Hrun as <-. by rewrite app_nil_r.
  - apply sm_bind_Ok in Hrun as (u & s1 & Hx & Hrest). destruct u.
    replace (done ++ x :: l) with ((done ++ [x]) ++ l) by (by rewrite <- app_assoc).
    eapply IH; [ | | exact Hrest].
    + eapply Hstep; [done | apply list_elem_of_here | done].
    + intros d y s2 s3 HP' Hy. eapply Hstep; [done | by apply list_elem_of_further].
Qed.

(** What one iteration establishes about its element, and later iterations
    keep, holds of every element. *)
Lemma mfor_forall {A} (Q : A -> S -> Prop) (l : list A) (body : A -> SM S E unit) s s' :
  (forall x s1 s2, x ∈ l -> body x s1 = (Ok tt, s2) -> Q x s2) ->
  (forall x y s1 s2, Q x s1 -> y ∈ l -> body y s1 = (Ok tt, s2) -> Q x s2) ->
  mfor l body s = (Ok tt, s') ->
  forall x, x ∈ l -> Q x s'.
Proof.
  intros Hnew Hkeep Hrun.
  assert (HP : forall x, x ∈ ([] ++ l) -> Q x s').
  { eapply (mfor_invariant (fun d s => forall x, x ∈ d -> Q x s) l body [] s s');
      [set_solver | | exact Hrun].
    intros d x s1 s2 HP Hx Hb y Hy.
    apply elem_of_app in Hy as [Hy|Hy]; [by eauto|].
    apply list_elem_of_singleton in Hy as ->. eauto. }
  exact HP.
Qed.

Lemma rfold_invariant {A B} (P : list A -> B -> Prop) (f : B -> A -> result E B) (l : list A) done b b' :
  P done b ->
  (forall d x b1 b2, P d b1 -> x ∈ l -> f b1 x = Ok b2 -> P (d ++ [x]) b2) ->
  rfold f b l = Ok b' ->
  P (done ++ l) b'.
Proof.
  revert done b. induction l as [|x l IH]; intros done b HP Hstep Hrun; cbn in Hrun.
  - injection Hrun as <-. by rewrite app_nil_r.
  - apply result_bind_Ok in Hrun as (b1 & Hx & Hrest).
    replace (done ++ x :: l) with ((done ++ [x]) ++ l) by (by rewrite <- app_assoc).
    eapply IH; [ | | exact Hrest].
    + eapply Hstep; [done | apply list_elem_of_here | done].
    + intros d y b2 b3 HP' Hy. eapply Hstep; [done | by apply list_elem_of_further].
Qed.

End monad_lemmas.

(** ** Weakest preconditions

    [wp m Q R s]: running [m] in [s] ends in [Q] if it returns and in [R] if
    it fails.  The rules below are stated as implications so that proofs go
    through a program in its own order. *)
Definition wp {S E A} (m : SM S E A) (Q : A -> S -> Prop) (R : E -> S -> Prop) (s : S) : Prop :=
  match m s with
  | (Ok a, s') => Q a s'
  | (Err e, s') => R e s'
  end.

Section wp_rules.
Context {S E : Type}.
Implicit Types (R : E -> S -> Prop).

Lemma wp_run {A} (m : SM S E A) Q R s a s' : wp m Q R s -> m s = (Ok a, s') -> Q a s'.
Proof. unfold wp. intros H E1. by rewrite E1 in H. Qed.
Lemma wp_run_err {A} (m : SM S E A) Q R s e s' : wp m Q R s -> m s = (Err e, s') -> R e s'.
Proof. unfold wp. intros H E1. by rewrite E1 in H. Qed.
Lemma wp_ret {A} (a : A) (Q : A -> S -> Prop) R s : Q a s -> wp (mret a) Q R s.
Proof. done. Qed.
Lemma wp_bind {A B} (m : SM S E A) (f : A -> SM S E B) Q R s :
  wp m (fun a s1 => wp (f a) Q R s1) R s -> wp (m ≫= f) Q R s.
Proof. unfold wp, mbind, SM_bind. by destruct (m s) as [[a|e] s1]. Qed.
Lemma wp_get (Q : S -> S -> Prop) R s : Q s s -> wp sm_get Q R s.
Proof. done. Qed.
Lemma wp_modify f (Q : unit -> S -> Prop) R s : Q tt (f s) -> wp (sm_modify f) Q R s.
Proof. done. Qed.
Lemma wp_err {A} e (Q : A -> S -> Prop) R s : R e s -> wp (sm_err e) Q R s.
Proof. done. Qed.
Lemma wp_lift {A} (r : result E A) (Q : A -> S -> Prop) R s :
  (forall a, r = Ok a -> Q a s) -> (forall e, r = Err e -> R e s) -> wp (sm_lift r) Q R s.
Proof. unfold wp, sm_lift. destruct r; auto. Qed.
Lemma wp_mono {A} (m : SM S E A) (Q Q' : A -> S -> Prop) R R' s :
  wp m Q R s -> (forall a s', Q a s' -> Q' a s') -> (forall e s', R e s' -> R' e s') -> wp m Q' R' s.
Proof. unfold wp. destruct (m s) as [[a|e] s1]; auto. Qed.
Lemma wp_and {A} (m : SM S E A) (Q Q' : A -> S -> Prop) R R' s :
  wp m Q R s -> wp m Q' R' s -> wp m (fun a s' => Q a s' /\ Q' a s') (fun e s' => R e s' /\ R' e s') s.
Proof. unfold wp. destruct (m s) as [[a|e] s1]; auto. Qed.

(** A loop keeps [P], indexed by the elements already visited. *)
Lemma wp_mfor {A} (P : list A -> S -> Prop) (l : list A) (body : A -> SM S E unit) (Q : unit -> S -> Prop) R s :
  P [] s ->
  (forall d x t s1, l = d ++ x :: t -> P d s1 -> wp (body x) (fun _ s2 => P (d ++ [x]) s2) R s1) ->
  (forall s', P l s' -> Q tt s') ->
  wp (mfor l body) Q R s.
Proof.
  intros H0 Hstep HQ.
  enough (G : forall t d s1, l = d ++ t -> P d s1 -> wp (mfor t body) Q R s1) by (by eapply (G l [])).
  induction t as [|x t IH]; intros d s1 Hl Hd.
  - apply wp_ret, HQ. rewrite Hl, app_nil_r. done.
  - cbn [mfor]. apply wp_bind. eapply wp_mono; [by eapply Hstep| |auto].
    intros [] s2 H2. eapply IH; [|done]. by rewrite Hl, <- app_assoc.
Qed.

Lemma wp_mfori {A} (P : list A -> S -> Prop) (l : list A) (body : nat -> A -> SM S E unit) (Q : unit -> S -> Prop) R s :
  P [] s ->
  (forall d x t s1, l = d ++ x :: t -> P d s1 -> wp (body (length d) x) (fun _ s2 => P (d ++ [x]) s2) R s1) ->
  (forall s', P l s' -> Q tt s') ->
  wp (mfori 0 l body) Q R s.
Proof.
  intros H0 Hstep HQ.
  enough (G : forall t d s1, l = d ++ t -> P d s1 -> wp (mfori (length d) t body) Q R s1) by (by eapply (G l [])).
  induction t as [|x t IH]; intros d s1 Hl Hd.
  - apply wp_ret, HQ. rewrite Hl, app_nil_r. done.
  - cbn [mfori]. apply wp_bind. eapply wp_mono; [by eapply Hstep| |auto].
    intros [] s2 H2. replace (Datatypes.S (length d)) with (length (d ++ [x])) by (rewrite length_app; cbn; lia).
    eapply IH; [|done]. by rewrite Hl, <- app_assoc.
Qed.

Lemma wp_mfold {A B} (P : list A -> B -> S -> Prop) (f : B -> A -> SM S E B) (l : list A) b (Q : B -> S -> Prop) R s :
  P [] b s ->
  (forall d x t b1 s1, l = d ++ x :: t -> P d b1 s1 -> wp (f b1 x) (fun b2 s2 => P (d ++ [x]) b2 s2) R s1) ->
  (forall b' s', P l b' s' -> Q b' s') ->
  wp (mfold f b l) Q R s.
Proof.
  intros H0 Hstep HQ.
  enough (G : forall t d b1 s1, l = d ++ t -> P d b1 s1 -> wp (mfold f b1 t) Q R s1) by (by eapply (G l [])).
  induction t as [|x t IH]; intros d b1 s1 Hl Hd.
  - apply wp_ret, HQ. rewrite Hl, app_nil_r. done.
  - cbn [mfold]. apply wp_bind. eapply wp_mono; [by eapply Hstep| |auto].
    intros b2 s2 H2. eapply IH; [|done]. by rewrite Hl, <- app_assoc.
Qed.
End wp_rules.

(** ** Frames

    [keeps V m]: whether it returns or fails, [m] leaves the part [V] of the
    state unchanged.  Frame facts are proved by [keeps_tac] from the shape of
    the program and the [frame] hint database. *)
Definition keeps {S E A X} (V : S -> X) (m : SM S E A) : Prop := forall s, V (snd (m s)) = V s.

Section keeps_rules.
Context {S E X : Type} (V : S -> X).

Lemma keeps_run {A} (m : SM S E A) s r s' : keeps V m -> m s = (r, s') -> V s' = V s.
Proof. intros H E1. specialize (H s). by rewrite E1 in H. Qed.
Lemma keeps_ret {A} (a : A) : keeps V (mret (M := SM S E) a).
Proof. done. Qed.
Lemma keeps_err {A} e : keeps V (sm_err (S := S) (E := E) (A := A) e).
Proof. done. Qed.
Lemma keeps_lift {A} (r : result E A) : keeps V (sm_lift r).
Proof. done. Qed.
Lemma keeps_get : keeps V (sm_get (S := S) (E := E)).
Proof. done. Qed.
Lemma keeps_modify f : (forall s, V (f s) = V s) -> keeps V (sm_modify (S := S) (E := E) f).
Proof. intros H s. apply H. Qed.
Lemma keeps_bind {A B} (m : SM S E A) (f : A -> SM S E B) :
  keeps V m -> (forall a, keeps V (f a)) -> keeps V (m ≫= f).
Proof.
  intros Hm Hf s. unfold mbind, SM_bind. specialize (Hm s).
  destruct (m s) as [[a|e] s1]; [|done]. cbn in Hm. by rewrite (Hf a s1).
Qed.
Lemma keeps_mfor {A} (l : list A) (body : A -> SM S E unit) :
  (forall x, keeps V (body x)) -> keeps V (mfor l body).
Proof. intros H. induction l; cbn; [apply keeps_ret|]. by apply keeps_bind. Qed.
Lemma keeps_mfori {A} i (l : list A) (body : nat -> A -> SM S E unit) :
  (forall i x, keeps V (body i x)) -> keeps V (mfori i l body).
Proof. intros H. revert i. induction l; intros i; cbn; [apply keeps_ret|]. by apply keeps_bind. Qed.
Lemma keeps_mfold {A B} (f : B -> A -> SM S E B) b (l : list A) :
  (forall b x, keeps V (f b x)) -> keeps V (mfold f b l).
Proof. intros H. revert b. induction l; intros b; cbn; [apply keeps_ret|]. by apply keeps_bind. Qed.
(** Each iteration of a successful loop ran, in a state with the same [V]. *)
Lemma mfold_each {A B} (f : B -> A -> SM S E B) (l : list A) : forall b s b' s',
  (forall b x, keeps V (f b x)) -> mfold f b l s = (Ok b', s') ->
  forall x, x ∈ l -> exists b1 b2 s1 s2, f b1 x s1 = (Ok b2, s2) /\ V s1 = V s.
Proof.
  induction l as [|y l IH]; intros b s b' s' Hk Hr x Hx; [by apply elem_of_nil in Hx|].
  cbn in Hr. unfold mbind, SM_bind in Hr. destruct (f b y s) as [[b1|e] s1] eqn:Ef; [|done].
  apply elem_of_cons in Hx as [->|Hx]; [by exists b, b1, s, s1|].
  destruct (IH _ _ _ _ Hk Hr x Hx) as (b2 & b3 & s2 & s3 & H1 & H2). exists b2, b3, s2, s3. split; [done|].
  rewrite H2. exact (keeps_run _ _ _ _ (Hk b y) Ef).
Qed.
End keeps_rules.

Create HintDb frame.
#[export] Hint Resolve keeps_ret keeps_err keeps_lift keeps_get : frame.

Ltac keeps_step :=
  first
  [ solve [eauto with frame]
  | apply keeps_bind; [|intros ?]
  | apply keeps_mfor; intros ?
  | apply keeps_mfori; intros ? ?
  | apply keeps_mfold; intros ? ?
  | apply keeps_modify; intros ?
  | match goal with |- keeps _ (match ?x with _ => _ end) => destruct x end
  | match goal with |- keeps _ (let '_ := ?x in _) => destruct x end
  | reflexivity ].
Ltac keeps_tac := repeat keeps_step.

(** [stable I m]: whether it returns or fails, [m] keeps [I]. *)
Definition stable {S E A} (I : S -> Prop) (m : SM S E A) : Prop := forall s, I s -> I (snd (m s)).

Section stable_rules.
Context {S E : Type} (I : S -> Prop).
Lemma stable_keeps {A X} (V : S -> X) (m : SM S E A) : (forall s s', V s' = V s -> I s -> I s') -> keeps V m -> stable I m.
Proof. intros HV Hk s Hs. eapply HV; [apply Hk|done]. Qed.
Lemma stable_bind {A B} (m : SM S E A) (f : A -> SM S E B) : stable I m -> (forall a, stable I (f a)) -> stable I (m ≫= f).
Proof.
  intros Hm Hf s Hs. unfold mbind, SM_bind. specialize (Hm s Hs). destruct (m s) as [[a|e] s1]; [by apply Hf|done].
Qed.
Lemma stable_ret {A} (a : A) : stable I (mret (M := SM S E) a).
Proof. by intros s. Qed.
Lemma stable_mfold {A B} (f : B -> A -> SM S E B) b (l : list A) : (forall b x, stable I (f b x)) -> stable I (mfold f b l).
Proof. intros Hf. revert b. induction l; intros b; cbn; [apply stable_ret|]. by apply stable_bind. Qed.
End stable_rules.

(** A loop that ran to its end, under an invariant [I]: what an iteration
    establishes of its element, and later ones keep, holds of every element. *)
Section each_rules.
Context {S E A : Type} (I : S -> Prop).
Lemma mfori_each (Q : nat -> A -> S -> Prop) (body : nat -> A -> SM S E unit) (l : list A) : forall k s s',
  I s ->
  (forall i x s1 s2, I s1 -> l !! i = Some x -> body (k + i)%nat x s1 = (Ok tt, s2) -> I s2 /\ Q (k + i)%nat x s2) ->
  (forall i x j y s1 s2, Q i x s1 -> I s1 -> body j y s1 = (Ok tt, s2) -> Q i x s2) ->
  mfori k l body s = (Ok tt, s') -> I s' /\ forall i x, l !! i = Some x -> Q (k + i)%nat x s'.
Proof.
  induction l as [|x l IH]; intros k s s' HI Hnew Hkeep Hr; cbn [mfori] in Hr; [by injection Hr as <-|].
  apply sm_bind_Ok in Hr as ([] & s1 & Hx & Hr).
  destruct (Hnew 0%nat x s s1 HI eq_refl) as [HI1 HQ1]; [by rewrite Nat.add_0_r|].
  enough (G : (I s' /\ forall i y, l !! i = Some y -> Q (Datatypes.S k + i)%nat y s') /\ Q (k + 0)%nat x s').
  { destruct G as [[G1 G2] G3]. split; [done|]. intros [|i] y Hy; [by injection Hy as <-|].
    rewrite Nat.add_succ_r. by apply G2. }
  split.
  - eapply IH; [exact HI1| |exact Hkeep|exact Hr]. intros i y s2 s3 H2 Hy Hb. replace (Datatypes.S k + i)%nat with (k + Datatypes.S i)%nat in * by lia.
    exact (Hnew (Datatypes.S i) y s2 s3 H2 Hy Hb).
  - assert (HQ : I s1 /\ Q (k + 0)%nat x s1) by done. clear -Hnew Hkeep Hr HQ.
    assert (HJ : forall i y s2 s3, I s2 -> l !! i = Some y -> body (Datatypes.S k + i)%nat y s2 = (Ok tt, s3) -> I s3).
    { intros i y s2 s3 H2 Hy Hb. replace (Datatypes.S k + i)%nat with (k + Datatypes.S i)%nat in Hb by lia.
      exact (proj1 (Hnew (Datatypes.S i) y s2 s3 H2 Hy Hb)). }
    clear Hnew. revert HQ HJ Hr. generalize (k + 0)%nat as i0. generalize (Datatypes.S k) as m. revert s1.
    induction l as [|y l IH]; intros s1 m i0 [H1 H2] HJ Hr; cbn [mfori] in Hr; [by injection Hr as <-|].
    apply sm_bind_Ok in Hr as ([] & s2 & Hy & Hr). eapply IH; [|intros i z s3 s4 H3 Hz Hb|exact Hr].
    + split; [|by eapply Hkeep]. eapply (HJ 0%nat y s1); [done..|]. by rewrite Nat.add_0_r.
    + eapply (HJ (Datatypes.S i) z s3); [done..|]. by rewrite Nat.add_succ_r.
Qed.

Lemma mfor_mfori (body : A -> SM S E unit) (l : list A) : forall k s, mfor l body s = mfori k l (fun _ => body) s.
Proof.
  induction l as [|x l IH]; intros k s; [done|]. cbn. unfold mbind, SM_bind. destruct (body x s) as [[]s1]; [apply IH|done].
Qed.

Lemma mfor_each (Q : A -> S -> Prop) (body : A -> SM S E unit) (l : list A) s s' :
  I s ->
  (forall x s1 s2, I s1 -> x ∈ l -> body x s1 = (Ok tt, s2) -> I s2 /\ Q x s2) ->
  (forall x y s1 s2, Q x s1 -> I s1 -> body y s1 = (Ok tt, s2) -> Q x s2) ->
  mfor l body s = (Ok tt, s') -> I s' /\ forall x, x ∈ l -> Q x s'.
Proof.
  intros HI Hnew Hkeep Hr. rewrite (mfor_mfori body l 0 s) in Hr.
  destruct (mfori_each (fun _ => Q) (fun _ => body) l 0 s s') as [H1 H2]; [done| |by eauto|done|].
  - intros i x s1 s2 H1 Hx. apply Hnew; [done|]. by eapply list_elem_of_lookup_2.
  - split; [done|]. intros x [i Hx]%list_elem_of_lookup. by eapply H2.
Qed.
End each_rules.

(** [yields Q m]: whatever [m] returns satisfies [Q]. *)
Definition yields {S E A} (Q : A -> Prop) (m : SM S E A) : Prop := forall s a s', m s = (Ok a, s') -> Q a.

Section yields_rules.
Context {S E : Type}.
Lemma yields_ret {A} (Q : A -> Prop) a : Q a -> yields Q (mret (M := SM S E) a).
Proof. by intros HQ s b s' [= <- _]. Qed.
Lemma yields_err {A} (Q : A -> Prop) e : yields Q (sm_err (S := S) (E := E) (A := A) e).
Proof. by intros s b s' [=]. Qed.
Lemma yields_bind {A B} (P : A -> Prop) (Q : B -> Prop) (m : SM S E A) f :
  yields P m -> (forall a, P a -> yields Q (f a)) -> yields Q (m ≫= f).
Proof.
  intros Hm Hf s b s' Hr. unfold mbind, SM_bind in Hr. destruct (m s) as [[a|] s1] eqn:E1; [|done].
  by eapply Hf; [eapply Hm|].
Qed.
Lemma yields_any {A} (m : SM S E A) : yields (fun _ => True) m.
Proof. done. Qed.
Lemma yields_mfold {A B} (Q : B -> Prop) (f : B -> A -> SM S E B) (l : list A) b :
  Q b -> (forall b x, Q b -> yields Q (f b x)) -> yields Q (mfold f b l).
Proof.
  intros Hb Hf. revert b Hb. induction l as [|x l IH]; intros b Hb; [by apply yields_ret|].
  cbn. eapply yields_bind; [by apply Hf|]. intros b'. apply IH.
Qed.
End yields_rules.

(** Decompose a successful monadic run into its steps. *)
Ltac sm_inv :=
  repeat match goal with
  | H : (_ ≫= _) _ = (Ok _, _) |- _ => apply sm_bind_Ok in H as (? & ? & ? & H)
  | H : (_ ≫= _) = Ok _ |- _ => apply result_bind_Ok in H as (? & ? & H)
  | H : mret _ _ = (Ok _, _) |- _ => unfold mret, SM_ret in H; simplify_eq
  | H : sm_get _ = (Ok _, _) |- _ => unfold sm_get in H; simplify_eq
  | H : sm_put _ _ = (Ok _, _) |- _ => unfold sm_put in H; simplify_eq
  | H : sm_modify _ _ = (Ok _, _) |- _ => unfold sm_modify in H; simplify_eq
  | H : sm_err _ _ = (Ok _, _) |- _ => unfold sm_err in H; discriminate H
  | H : sm_lift _ _ = (Ok _, _) |- _ => unfold sm_lift in H
  | H : unit |- _ => destruct H
  end.

(** ** Machine integers

    A Go [uint64] is a [Z] in [0, 2^64); an [int64] a [Z] in [-2^63, 2^63).
    Arithmetic that can leave the range goes through these wraps. *)
Definition u64 (z : Z) : Z := z mod 2^64.
Definition i64 (z : Z) : Z := (z + 2^63) mod 2^64 - 2^63.
Definition max_i64 : Z := 2^63 - 1.
Definition min_i64 : Z := - 2^63.
Definition is_u64 (z : Z) : Prop := 0 <= z < 2^64.
Definition is_i64 (z : Z) : Prop := - 2^63 <= z < 2^63.

Lemma u64_id z : is_u64 z -> u64 z = z.
Proof. unfold is_u64, u64. intros. apply Z.mod_small. lia. Qed.
Lemma i64_id z : is_i64 z -> i64 z = z.
Proof. unfold is_i64, i64. intros. rewrite Z.mod_small; lia. Qed.
Lemma i64_add_l a b : i64 (i64 a + b) = i64 (a + b).
Proof. unfold i64. replace ((a + 2 ^ 63) mod 2 ^ 64 - 2 ^ 63 + b + 2 ^ 63) with ((a + 2 ^ 63) mod 2 ^ 64 + b) by lia.
  rewrite Zplus_mod_idemp_l. do 2 f_equal. lia. Qed.
Lemma i64_add_r a b : i64 (a + i64 b) = i64 (a + b).
Proof. rewrite Z.add_comm, i64_add_l. f_equal. lia. Qed.
Lemma i64_range z : is_i64 (i64 z).
Proof. unfold is_i64, i64. pose proof (Z.mod_pos_bound (z + 2^63) (2^64) eq_refl). lia. Qed.
Lemma u64_range z : is_u64 (u64 z).
Proof. unfold is_u64, u64. apply Z.mod_pos_bound. reflexivity. Qed.

(** ** Byte strings

    A Go [string] or [[]byte] is a Stdlib [string]: a list of 8-bit
    characters. [a =s b] is Go's [==] on them. *)
Declare Scope go_scope.
Notation "a =s b" := (String.eqb a b) (at level 70, no associativity) : go_scope.
#[global] Open Scope go_scope.
#[global] Arguments String.append : simpl nomatch.

Lemma eqs_true (a b : string) : (a =s b) = true <-> a = b.
Proof. apply String.eqb_eq. Qed.
Lemma eqs_false (a b : string) : (a =s b) = false <-> a <> b.
Proof. apply String.eqb_neq. Qed.
Lemma eqs_refl (a : string) : (a =s a) = true.
Proof. apply String.eqb_refl. Qed.

Create HintDb proxy.
#[export] Hint Resolve u64_range i64_range : proxy.

(** Case on every [match]/[if] scrutinee of a hypothesis. *)
Ltac to_prop :=
  repeat match goal with
  | H : (_ =s _) = true |- _ => apply eqs_true in H
  | H : (_ =s _) = false |- _ => apply eqs_false in H
  | H : Ascii.eqb _ _ = true |- _ => apply Ascii.eqb_eq in H
  | H : Ascii.eqb _ _ = false |- _ => apply Ascii.eqb_neq in H
  | H : (_ && _)%bool = true |- _ => apply andb_prop in H as [? ?]
  | H : (_ || _)%bool = false |- _ => apply orb_false_elim in H as [? ?]
  | H : negb _ = true |- _ => apply negb_true_iff in H
  | H : negb _ = false |- _ => apply negb_false_iff in H
  | H : (_ =? _)%Z = true |- _ => apply Z.eqb_eq in H
  | H : (_ =? _)%Z = false |- _ => apply Z.eqb_neq in H
  | H : (_ <=? _)%Z = true |- _ => apply Z.leb_le in H
  | H : (_ <=? _)%Z = false |- _ => apply Z.leb_gt in H
  | H : (_ <? _)%Z = true |- _ => apply Z.ltb_lt in H
  | H : (_ <? _)%Z = false |- _ => apply Z.ltb_ge in H
  | H : bool_decide _ = true |- _ => apply bool_decide_eq_true in H
  | H : bool_decide _ = false |- _ => apply bool_decide_eq_false in H
  end.

Ltac split_in H :=
  repeat match type of H with
  | context [match ?x with _ => _ end] => let E := fresh "E" in destruct x eqn:E; cbn in H; try discriminate H
  end.
