(* ===== verification/GoLib.v ===== *)
(** * The Go standard library the proxy uses

    [strings], [bytes], [strconv] and slice indexing, on byte strings.  Only
    what internal/respproxy calls is modelled, and each function is total and
    executable.  Slicing out of range is a Go panic, so it returns an
    [option]; callers turn [None] into a panic value.

    Go's [strings.ToUpper] / [ToLower] are Unicode-aware.  A rune outside
    ASCII whose mapping is ASCII changes what the proxy compares: U+0131
    upper-cases to "I" and U+017F to "S"; U+0130 lower-cases to "i" and U+212A
    to "k".  Those four are modelled exactly.  Every other non-ASCII rune maps
    to a non-ASCII rune (or U+FFFD), whose bytes are all >= 0x80; it is left
    in place here, since no constant the proxy compares with has such a
    byte. *)

From S2P Require Import Prelude.

(** ** Bytes *)
Definition bval (c : ascii) : Z := Z.of_N (N_of_ascii c).
Definition byte_of (z : Z) : ascii := ascii_of_N (Z.to_N (z mod 256)).

Definition CR : ascii := "013".
Definition LF : ascii := "010".
Definition CRLF : string := String CR (String LF "").

Definition slen (s : string) : Z := Z.of_nat (String.length s).

(** ** Slices *)
Fixpoint stake (n : nat) (s : string) : string :=
  match n, s with
  | S n', String c s' => String c (stake n' s')
  | _, _ => ""
  end.

Fixpoint sdrop (n : nat) (s : string) : string :=
  match n, s with
  | S n', String _ s' => sdrop n' s'
  | _, _ => s
  end.

#[global] Arguments stake !n !s : simpl nomatch.
#[global] Arguments sdrop !n !s : simpl nomatch.

(** [s[a:b]] for [a <= b <= len(s)]. *)
Definition sub (s : string) (a b : nat) : string := stake (b - a) (sdrop a s).

(** [b[i]]; [None] is an index-out-of-range panic. *)
Fixpoint byte_at (s : string) (i : nat) : option ascii :=
  match s, i with
  | "", _ => None
  | String c _, O => Some c
  | String _ s', S i' => byte_at s' i'
  end.

(** [args[n:]] on a slice of arguments; [None] is a slice-bounds panic. *)
Definition args_from (n : nat) (args : list string) : option (list string) :=
  if Nat.leb n (length args) then Some (drop n args) else None.

(** ** strings, bytes *)
Fixpoint cut_prefix (p s : string) : option string :=
  match p, s with
  | "", _ => Some s
  | String a p', String b s' => if Ascii.eqb a b then cut_prefix p' s' else None
  | _, _ => None
  end.

Definition HasPrefix (s p : string) : bool :=
  match cut_prefix p s with Some _ => true | None => false end.

(** [strings.TrimPrefix]. *)
Definition TrimPrefix (s p : string) : string :=
  match cut_prefix p s with Some r => r | None => s end.

Fixpoint IndexByte (s : string) (c : ascii) : option nat :=
  match s with
  | "" => None
  | String b s' => if Ascii.eqb b c then Some O else S <$> IndexByte s' c
  end.

Fixpoint Contains (s sub : string) : bool :=
  HasPrefix s sub || match s with "" => false | String _ s' => Contains s' sub end.

Definition is_lower (c : ascii) : bool := (97 <=? bval c) && (bval c <=? 122).
Definition is_upper (c : ascii) : bool := (65 <=? bval c) && (bval c <=? 90).
Definition up_ascii (c : ascii) : ascii := if is_lower c then byte_of (bval c - 32) else c.
Definition low_ascii (c : ascii) : ascii := if is_upper c then byte_of (bval c + 32) else c.

Fixpoint ToUpper (s : string) : string :=
  match s with
  | "" => ""
  | String c s' =>
      match s' with
      | String d s'' =>
          if (bval c =? 0xC4) && (bval d =? 0xB1) then String "I" (ToUpper s'')
          else if (bval c =? 0xC5) && (bval d =? 0xBF) then String "S" (ToUpper s'')
          else String (up_ascii c) (ToUpper s')
      | "" => String (up_ascii c) ""
      end
  end.

Fixpoint ToLower (s : string) : string :=
  match s with
  | "" => ""
  | String c s' =>
      match s' with
      | String d s'' =>
          if (bval c =? 0xC4) && (bval d =? 0xB0) then String "i" (ToLower s'')
          else match s'' with
               | String e s3 =>
                   if (bval c =? 0xE2) && (bval d =? 0x84) && (bval e =? 0xAA)
                   then String "k" (ToLower s3)
                   else String (low_ascii c) (ToLower s')
               | "" => String (low_ascii c) (ToLower s')
               end
      | "" => String (low_ascii c) ""
      end
  end.

(** [strings.EqualFold(s, t)] against an ASCII constant [t] without the
    letters K and S, whose fold orbits are the only ones that leave ASCII. *)
Fixpoint EqualFold (s t : string) : bool :=
  match s, t with
  | "", "" => true
  | String a s', String b t' => Ascii.eqb (up_ascii a) (up_ascii b) && EqualFold s' t'
  | _, _ => false
  end.

(** [strings.SplitN(s, sep, n)] for a one-byte separator and [n >= 1]. *)
Fixpoint SplitN (s : string) (sep : ascii) (n : nat) : list string :=
  match n with
  | O => []
  | S O => [s]
  | S n' =>
      match IndexByte s sep with
      | None => [s]
      | Some i => stake i s :: SplitN (sdrop (S i) s) sep n'
      end
  end.

(** [strings.Split(s, sep)]: a split never makes more than len+1 parts. *)
Definition Split (s : string) (sep : ascii) : list string :=
  SplitN s sep (S (S (String.length s))).

(** ASCII white space, as [strings.Fields] and [strings.TrimSpace] see it. *)
Definition is_space (c : ascii) : bool :=
  let v := bval c in ((9 <=? v) && (v <=? 13)) || (v =? 32).

Fixpoint map_bytes (f : ascii -> ascii) (s : string) : string :=
  match s with "" => "" | String c s' => String (f c) (map_bytes f s') end.

(** [strings.TrimSpace]: the UTF-8 encodings of the runes unicode.IsSpace
    accepts, cut from both ends. *)
Definition space_encodings : list string :=
  let two a b := String (byte_of a) (String (byte_of b) "") in
  let three a b c := String (byte_of a) (String (byte_of b) (String (byte_of c) "")) in
  ((fun z => String (byte_of z) "") <$> [9; 10; 11; 12; 13; 32]) ++
  [two 0xC2 0x85; two 0xC2 0xA0; three 0xE1 0x9A 0x80] ++
  ((fun z => three 0xE2 0x80 z) <$> [0x80; 0x81; 0x82; 0x83; 0x84; 0x85; 0x86; 0x87; 0x88; 0x89; 0x8A; 0xA8; 0xA9; 0xAF]) ++
  [three 0xE2 0x81 0x9F; three 0xE3 0x80 0x80].

Fixpoint trimLeft (fuel : nat) (encs : list string) (s : string) : string :=
  match fuel with
  | O => s
  | S f =>
      match filter (fun e => HasPrefix s e = true) encs with
      | e :: _ => trimLeft f encs (sdrop (String.length e) s)
      | [] => s
      end
  end.

Fixpoint srev (s acc : string) : string :=
  match s with "" => acc | String c s' => srev s' (String c acc) end.

Definition TrimSpace (s : string) : string :=
  let l := trimLeft (String.length s) space_encodings s in
  let r := srev l "" in
  srev (trimLeft (String.length r) ((fun e => srev e "") <$> space_encodings) r) "".

(** [strings.Fields]. *)
Fixpoint fieldsGo (fuel : nat) (s cur : string) : list string :=
  let flush := if cur =s "" then [] else [srev cur ""] in
  match fuel with
  | O => flush
  | S f =>
      match s with
      | "" => flush
      | String c s' =>
          match filter (fun e => HasPrefix s e = true) space_encodings with
          | e :: _ => flush ++ fieldsGo f (sdrop (String.length e) s) ""
          | [] => fieldsGo f s' (String c cur)
          end
      end
  end.

Definition Fields (s : string) : list string := fieldsGo (S (String.length s)) s "".

(** [strings.ContainsAny(s, chars)] for ASCII [chars]. *)
Fixpoint ContainsAny (s chars : string) : bool :=
  match s with
  | "" => false
  | String c s' => match IndexByte chars c with Some _ => true | None => ContainsAny s' chars end
  end.

(** [strings.ReplaceAll(s, old, new)] for a non-empty [old]: left to right,
    without overlaps; every step consumes at least one byte. *)
Fixpoint replaceAll (fuel : nat) (s old new : string) : string :=
  match fuel with
  | O => s
  | S f =>
      match cut_prefix old s with
      | Some r => new +:+ replaceAll f r old new
      | None => match s with "" => "" | String c s' => String c (replaceAll f s' old new) end
      end
  end.

Definition ReplaceAll (s old new : string) : string := replaceAll (S (String.length s)) s old new.

(** ** strconv *)
Definition digit_char (d : Z) : ascii := byte_of (48 + d).
Definition char_digit (c : ascii) : option Z :=
  if (48 <=? bval c) && (bval c <=? 57) then Some (bval c - 48) else None.

Fixpoint parse_dec (acc : Z) (s : string) : option Z :=
  match s with
  | "" => Some acc
  | String c s' => d ← char_digit c; parse_dec (acc * 10 + d) s'
  end.

(** [strconv.ParseUint(s, 10, 64)]; [None] is any error. *)
Definition ParseUint (s : string) : option Z :=
  match s with
  | "" => None
  | _ => v ← parse_dec 0 s; if v <? 2^64 then Some v else None
  end.

(** [strconv.ParseInt(s, 10, 64)]: the value Go returns, and whether the
    error is nil.  A syntax error returns 0, a range error the nearest bound. *)
Definition ParseInt (s : string) : Z * bool :=
  let (neg, d) := match s with
                  | String "+" r => (false, r)
                  | String "-" r => (true, r)
                  | _ => (false, s)
                  end in
  match d with
  | "" => (0, false)
  | _ =>
      match parse_dec 0 d with
      | None => (0, false)
      | Some v =>
          if neg then if 2^63 <? v then (- 2^63, false) else (- v, true)
          else if 2^63 <=? v then (2^63 - 1, false) else (v, true)
      end
  end.

Fixpoint fmt_go (fuel : nat) (n : Z) (acc : string) : string :=
  match fuel with
  | O => acc
  | S f =>
      let acc' := String (digit_char (n mod 10)) acc in
      if n <? 10 then acc' else fmt_go f (n / 10) acc'
  end.

(** [strconv.FormatUint(n, 10)]: 20 digits hold every uint64. *)
Definition FormatUint (n : Z) : string := fmt_go 20 n "".

(** [strconv.FormatInt(n, 10)] and [strconv.Itoa]. *)
Definition FormatInt (n : Z) : string :=
  if n <? 0 then String "-" (FormatUint (- n)) else FormatUint n.

#[global] Arguments FormatUint : simpl never.
#[global] Arguments FormatInt : simpl never.
#[global] Arguments slen : simpl never.
#[global] Arguments CRLF : simpl never.

(** ** Big-endian integers *)
Fixpoint be_fold (acc : Z) (s : string) : Z :=
  match s with "" => acc | String c s' => be_fold (acc * 256 + bval c) s' end.

(** ** Lemmas *)

Lemma bval_range c : 0 <= bval c < 256.
Proof. unfold bval. pose proof (N_ascii_bounded c). lia. Qed.

Lemma bval_byte_of z : 0 <= z < 256 -> bval (byte_of z) = z.
Proof.
  intros H. unfold bval, byte_of. rewrite Z.mod_small by lia.
  rewrite N_ascii_embedding by lia. lia.
Qed.

Lemma byte_of_bval c : byte_of (bval c) = c.
Proof.
  unfold byte_of. rewrite Z.mod_small by apply bval_range.
  unfold bval. rewrite N2Z.id. apply ascii_N_embedding.
Qed.

Lemma char_digit_char d : 0 <= d < 10 -> char_digit (digit_char d) = Some d.
Proof.
  intros H. unfold char_digit, digit_char. rewrite bval_byte_of by lia.
  destruct (48 <=? 48 + d) eqn:E1, (48 + d <=? 57) eqn:E2; to_prop; try lia.
  cbn. f_equal. lia.
Qed.

Lemma char_digit_inv c d : char_digit c = Some d -> 0 <= d < 10 /\ digit_char d = c.
Proof.
  unfold char_digit, digit_char. intros H. split_in H. to_prop. simplify_eq.
  split; [lia|]. replace (48 + (bval c - 48)) with (bval c) by lia. apply byte_of_bval.
Qed.

Lemma sapp_nil_r (s : string) : s +:+ "" = s.
Proof. induction s; cbn; congruence. Qed.

Lemma sapp_assoc (a b c : string) : (a +:+ b) +:+ c = a +:+ (b +:+ c).
Proof. induction a; cbn; congruence. Qed.

Lemma slength_app (a b : string) : String.length (a +:+ b) = (String.length a + String.length b)%nat.
Proof. induction a; cbn; congruence. Qed.

Lemma length_CRLF : String.length CRLF = 2%nat.
Proof. reflexivity. Qed.

Lemma slen_app a b : slen (a +:+ b) = slen a + slen b.
Proof. unfold slen. rewrite slength_app. lia. Qed.

Lemma slen_nonneg s : 0 <= slen s.
Proof. unfold slen. lia. Qed.

Lemma stake_app (a b : string) : stake (String.length a) (a +:+ b) = a.
Proof. induction a; cbn; [by destruct b | congruence]. Qed.

Lemma sdrop_app (a b : string) : sdrop (String.length a) (a +:+ b) = b.
Proof. induction a; cbn; [by destruct b | congruence]. Qed.

Lemma stake_sdrop n (s : string) : stake n s +:+ sdrop n s = s.
Proof. revert s. induction n; intros [|c s]; cbn; [done|done|done|]. by rewrite IHn. Qed.

Lemma length_sdrop n (s : string) : String.length (sdrop n s) = (String.length s - n)%nat.
Proof. revert s. induction n; intros [|c s]; cbn; auto. Qed.

Lemma length_stake n (s : string) : String.length (stake n s) = Nat.min n (String.length s).
Proof. revert s. induction n; intros [|c s]; cbn; auto. Qed.

Lemma cut_prefix_app p s : cut_prefix p (p +:+ s) = Some s.
Proof. induction p; cbn; [done|]. by rewrite Ascii.eqb_refl. Qed.

Lemma cut_prefix_Some p s r : cut_prefix p s = Some r <-> s = p +:+ r.
Proof.
  split; [|intros ->; apply cut_prefix_app].
  revert s. induction p as [|a p IH]; intros s H; cbn in *; [congruence|].
  destruct s as [|b s]; [discriminate|].
  destruct (Ascii.eqb_spec a b); [|discriminate]. subst. f_equal. auto.
Qed.

Lemma HasPrefix_true s p : HasPrefix s p = true <-> exists r, s = p +:+ r.
Proof.
  unfold HasPrefix. destruct (cut_prefix p s) eqn:E.
  - apply cut_prefix_Some in E. naive_solver.
  - split; [discriminate|]. intros [r Hr]. apply cut_prefix_Some in Hr. congruence.
Qed.

Lemma HasPrefix_app p r : HasPrefix (p +:+ r) p = true.
Proof. apply HasPrefix_true. eauto. Qed.

Lemma IndexByte_Some s c i :
  IndexByte s c = Some i -> s = stake i s +:+ String c (sdrop (S i) s).
Proof.
  revert i. induction s as [|b s IH]; intros i H; cbn in H; [discriminate|].
  destruct (Ascii.eqb_spec b c); [simplify_eq; by destruct s|].
  destruct (IndexByte s c) as [j|] eqn:E; cbn in H; [|discriminate]. simplify_eq. cbn.
  f_equal. by apply IH.
Qed.

Lemma IndexByte_length s c i : IndexByte s c = Some i -> (i < String.length s)%nat.
Proof.
  revert i. induction s as [|b s IH]; intros i H; cbn in H; [discriminate|].
  destruct (Ascii.eqb b c); simplify_eq; cbn; [lia|].
  destruct (IndexByte s c) eqn:E; cbn in H; simplify_eq. specialize (IH _ eq_refl). lia.
Qed.

(** A prefix without the byte is skipped. *)
Lemma IndexByte_app_skip a b c :
  IndexByte a c = None -> IndexByte (a +:+ String c b) c = Some (String.length a).
Proof.
  induction a as [|x a IH]; cbn; [by rewrite Ascii.eqb_refl|].
  destruct (Ascii.eqb x c); [discriminate|].
  destruct (IndexByte a c); [discriminate|]. intros _. by rewrite IH.
Qed.

Lemma IndexByte_None_app a b c :
  IndexByte (a +:+ b) c = None <-> IndexByte a c = None /\ IndexByte b c = None.
Proof.
  induction a as [|x a IH]; cbn; [tauto|].
  destruct (Ascii.eqb x c); [intuition congruence|].
  destruct (IndexByte (a +:+ b) c), (IndexByte a c); cbn in *; intuition congruence.
Qed.

(** *** Decimal round trips *)

Lemma parse_dec_app acc a b :
  parse_dec acc (a +:+ b) = (v ← parse_dec acc a; parse_dec v b).
Proof.
  revert acc. induction a as [|c a IH]; intros acc; cbn; [done|].
  destruct (char_digit c); cbn; [apply IH | done].
Qed.

Lemma parse_dec_fmt_go fuel n acc :
  0 <= n < 10 ^ Z.of_nat fuel -> parse_dec 0 (fmt_go fuel n acc) = parse_dec n acc.
Proof.
  revert n acc. induction fuel as [|f IH]; intros n acc H.
  - cbn in *. replace n with 0 by lia. done.
  - cbn [fmt_go]. pose proof (Z.mod_pos_bound n 10 eq_refl).
    destruct (Z.ltb_spec n 10).
    + cbn. rewrite char_digit_char by lia. cbn. f_equal. rewrite Z.mod_small; lia.
    + rewrite IH.
      * cbn. rewrite char_digit_char by lia. cbn. f_equal.
        pose proof (Z.div_mod n 10). lia.
      * rewrite Nat2Z.inj_succ, Z.pow_succ_r in H by lia.
        split; [apply Z.div_pos; lia|]. apply Z.div_lt_upper_bound; lia.
Qed.

Lemma fmt_go_nonempty fuel n acc : (fuel > 0)%nat -> fmt_go fuel n acc <> "".
Proof.
  revert n acc. induction fuel as [|f IH]; intros n acc H; [lia|].
  cbn [fmt_go]. destruct (n <? 10); [done|].
  destruct f; [done|]. apply IH. lia.
Qed.

Lemma FormatUint_nonempty n : FormatUint n <> "".
Proof. apply fmt_go_nonempty. lia. Qed.

Lemma parse_FormatUint n : 0 <= n < 10^20 -> parse_dec 0 (FormatUint n) = Some n.
Proof. intros H. unfold FormatUint. rewrite parse_dec_fmt_go; [done|]. lia. Qed.

Lemma ParseUint_FormatUint n : is_u64 n -> ParseUint (FormatUint n) = Some n.
Proof.
  unfold is_u64. intros H. unfold ParseUint.
  destruct (FormatUint n) eqn:E; [by apply FormatUint_nonempty in E|].
  rewrite <- E, parse_FormatUint by lia. cbn. destruct (Z.ltb_spec n (2^64)); [done|lia].
Qed.

(** Every character of a formatted number is a digit. *)
Fixpoint all_digits (s : string) : bool :=
  match s with
  | "" => true
  | String c s' => match char_digit c with Some _ => all_digits s' | None => false end
  end.

Lemma all_digits_fmt_go fuel n acc :
  0 <= n -> all_digits acc = true -> all_digits (fmt_go fuel n acc) = true.
Proof.
  revert n acc. induction fuel as [|f IH]; intros n acc Hn H; cbn [fmt_go]; [done|].
  pose proof (Z.mod_pos_bound n 10 eq_refl).
  assert (all_digits (String (digit_char (n mod 10)) acc) = true)
    by (cbn; rewrite char_digit_char by lia; done).
  destruct (n <? 10); [done|]. apply IH; [apply Z.div_pos; lia | done].
Qed.

Lemma all_digits_FormatUint n : 0 <= n -> all_digits (FormatUint n) = true.
Proof. intros. by apply all_digits_fmt_go. Qed.

Lemma all_digits_IndexByte s c :
  char_digit c = None -> all_digits s = true -> IndexByte s c = None.
Proof.
  intros Hc. induction s as [|b s IH]; cbn; [done|].
  destruct (char_digit b) eqn:E; [|discriminate]. intros H.
  destruct (Ascii.eqb_spec b c); [congruence|]. by rewrite IH.
Qed.

(** *** Canonical decimals

    A digit string without a leading zero is the one [FormatUint] prints, so
    a canonical numeral names exactly one number and one key. *)
Lemma string_snoc_ind (P : string -> Prop) :
  P "" -> (forall s c, P s -> P (s +:+ String c "")) -> forall s, P s.
Proof.
  intros H0 Hs s.
  enough (HP : forall p, P p -> P (p +:+ s)) by exact (HP "" H0).
  induction s as [|c s IH]; intros p Hp; [by rewrite sapp_nil_r|].
  replace (p +:+ String c s) with ((p +:+ String c "") +:+ s) by (by rewrite sapp_assoc).
  auto.
Qed.

Definition canonical (s : string) : Prop :=
  match s with
  | "" => False
  | String c r => char_digit c <> Some 0 \/ r = ""
  end.

Lemma parse_dec_lower acc s v : 0 <= acc -> parse_dec acc s = Some v -> acc <= v.
Proof.
  revert acc. induction s as [|c s IH]; intros acc Ha H; cbn in H; [simplify_eq; lia|].
  destruct (char_digit c) as [d|] eqn:Ed; cbn in H; [|discriminate].
  apply char_digit_inv in Ed as [? _]. apply IH in H; lia.
Qed.

Lemma parse_dec_canonical_pos s v :
  canonical s -> (1 < String.length s)%nat -> parse_dec 0 s = Some v -> 1 <= v.
Proof.
  destruct s as [|c [|c' r]]; cbn; [lia|lia|]. intros [Hc|Hc] _ H; [|discriminate].
  destruct (char_digit c) as [d|] eqn:Ed; cbn in H; [|discriminate].
  pose proof (char_digit_inv _ _ Ed) as [Hd _].
  assert (d <> 0) by congruence.
  apply (parse_dec_lower _ (String c' r)) in H; lia.
Qed.

Lemma fmt_go_canonical s : forall fuel n acc,
  canonical s -> parse_dec 0 s = Some n -> (String.length s <= fuel)%nat ->
  fmt_go fuel n acc = s +:+ acc.
Proof.
  induction s as [|s c IH] using string_snoc_ind; intros fuel n acc Hc Hp Hl; [done|].
  rewrite slength_app in Hl. cbn in Hl. destruct fuel as [|f]; [lia|].
  rewrite parse_dec_app in Hp. destruct (parse_dec 0 s) as [v|] eqn:Hv; cbn in Hp; [|discriminate].
  destruct (char_digit c) as [d|] eqn:Ed; cbn in Hp; [|discriminate]. simplify_eq.
  apply char_digit_inv in Ed as [Hd <-]. cbn [fmt_go].
  destruct s as [|a s].
  - cbn in Hv. simplify_eq. destruct (Z.ltb_spec (0 * 10 + d) 10); [|lia].
    rewrite Z.mod_small by lia. by replace (0 * 10 + d) with d by lia.
  - assert (Hcs : canonical (String a s)).
    { cbn in Hc |- *. destruct Hc as [Hc|Hc]; [by left | destruct s; discriminate Hc]. }
    assert (1 <= v).
    { destruct s; [|apply (parse_dec_canonical_pos (String a (String a0 s))); cbn; auto with lia].
      cbn in Hc, Hv. destruct (char_digit a) as [d0|] eqn:Ea; cbn in Hv; [|discriminate].
      pose proof (char_digit_inv _ _ Ea) as [? _]. destruct Hc as [Hc|Hc]; [|discriminate].
      assert (d0 <> 0) by congruence. simplify_eq. lia. }
    destruct (Z.ltb_spec (v * 10 + d) 10); [lia|].
    replace ((v * 10 + d) / 10) with v by (apply Z.div_unique with d; lia).
    replace ((v * 10 + d) mod 10) with d by (apply Z.mod_unique with v; lia).
    rewrite IH; [by rewrite sapp_assoc | done | done | lia].
Qed.

Lemma FormatUint_canonical s n :
  canonical s -> parse_dec 0 s = Some n -> (String.length s <= 20)%nat -> s = FormatUint n.
Proof.
  intros Hc Hp Hl. unfold FormatUint. rewrite (fmt_go_canonical s 20 n ""); [|done..].
  by rewrite sapp_nil_r.
Qed.

Lemma canonical_fmt_go fuel n acc :
  0 <= n < 10 ^ Z.of_nat fuel -> (fuel > 0)%nat -> (n <> 0 \/ acc = "") ->
  canonical (fmt_go fuel n acc).
Proof.
  revert n acc. induction fuel as [|f IH]; intros n acc H Hf Hn; [lia|].
  cbn [fmt_go]. pose proof (Z.mod_pos_bound n 10 eq_refl). destruct (Z.ltb_spec n 10).
  - cbn. rewrite char_digit_char by lia. rewrite Z.mod_small by lia.
    destruct Hn; [left; congruence | by right].
  - rewrite Nat2Z.inj_succ, Z.pow_succ_r in H by lia.
    assert (1 <= n / 10) by (apply Z.div_le_lower_bound; lia).
    apply IH; [split; [lia|]; apply Z.div_lt_upper_bound; lia | | left; lia].
    destruct f; [cbn in H; lia | lia].
Qed.

Lemma canonical_FormatUint n : is_u64 n -> canonical (FormatUint n).
Proof.
  unfold is_u64. intros H. apply canonical_fmt_go; [lia | lia | by right].
Qed.

Lemma length_fmt_go fuel n acc :
  (String.length (fmt_go fuel n acc) <= fuel + String.length acc)%nat.
Proof.
  revert n acc. induction fuel as [|f IH]; intros n acc; cbn [fmt_go]; [lia|].
  destruct (n <? 10); [cbn; lia|]. etrans; [apply IH|]. cbn. lia.
Qed.

Lemma length_FormatUint n : (String.length (FormatUint n) <= 20)%nat.
Proof. unfold FormatUint. pose proof (length_fmt_go 20 n ""). cbn [String.length] in *. lia. Qed.

Lemma length_fmt_go_lt k fuel n acc :
  (0 < k)%nat -> 0 <= n < 10 ^ Z.of_nat k ->
  (String.length (fmt_go fuel n acc) <= k + String.length acc)%nat.
Proof.
  revert fuel n acc. induction k as [|k IH]; intros fuel n acc Hk Hn; [lia|].
  destruct fuel as [|f]; cbn [fmt_go]; [lia|]. destruct (Z.ltb_spec n 10); [cbn; lia|].
  rewrite Nat2Z.inj_succ, Z.pow_succ_r in Hn by lia.
  destruct k as [|k]; [cbn in Hn; lia|]. etrans; [apply IH; [lia|]|cbn; lia].
  split; [apply Z.div_pos; lia | apply Z.div_lt_upper_bound; lia].
Qed.

Lemma length_FormatUint_lt k n :
  (0 < k)%nat -> 0 <= n < 10 ^ Z.of_nat k -> (String.length (FormatUint n) <= k)%nat.
Proof.
  intros Hk Hn. unfold FormatUint. pose proof (length_fmt_go_lt k 20 n "" Hk Hn).
  cbn [String.length] in *. lia.
Qed.

Lemma FormatUint_inj a b : is_u64 a -> is_u64 b -> FormatUint a = FormatUint b -> a = b.
Proof.
  intros Ha Hb H. pose proof (ParseUint_FormatUint a Ha) as H1.
  rewrite H, (ParseUint_FormatUint b Hb) in H1. congruence.
Qed.

(** *** ParseInt of a formatted int64 *)
Lemma digit_head n : is_u64 n ->
  exists c r, FormatUint n = String c r /\ is_Some (char_digit c).
Proof.
  intros H. assert (0 <= n) as Hn by (unfold is_u64 in H; lia).
  pose proof (all_digits_FormatUint n Hn) as Hd.
  destruct (FormatUint n) as [|c r] eqn:E; [by apply FormatUint_nonempty in E|].
  exists c, r. split; [done|]. cbn in Hd. destruct (char_digit c); [eauto|discriminate].
Qed.

Lemma ParseInt_digits s c r v :
  s = String c r -> is_Some (char_digit c) -> parse_dec 0 s = Some v -> v < 2^63 ->
  ParseInt s = (v, true).
Proof.
  intros -> [d Hd] Hv Hlt. unfold ParseInt.
  assert (c <> "+"%char /\ c <> "-"%char) as [Hp Hm].
  { split; intros ->; vm_compute in Hd; discriminate Hd. }
  assert (E : match String c r with
              | String "+" r => (false, r) | String "-" r => (true, r) | _ => (false, String c r) end
              = (false, String c r)).
  { destruct c as [[] [] [] [] [] [] [] []]; try reflexivity; vm_compute in Hd; discriminate Hd. }
  rewrite E, Hv. destruct (Z.leb_spec (2^63) v); [lia|done].
Qed.

Lemma ParseInt_range s v ok : ParseInt s = (v, ok) -> is_i64 v.
Proof.
  unfold ParseInt, is_i64. intros H.
  destruct (match s with String "+" r => (false, r) | String "-" r => (true, r) | _ => (false, s) end) as [neg d].
  destruct d as [|c d]; [simplify_eq; lia|].
  destruct (parse_dec 0 (String c d)) as [w|] eqn:E; [|simplify_eq; lia].
  apply parse_dec_lower in E; [|lia]. destruct neg;
    [destruct (Z.ltb_spec (2^63) w)|destruct (Z.leb_spec (2^63) w)]; simplify_eq; lia.
Qed.

Lemma ParseInt_FormatInt n : is_i64 n -> ParseInt (FormatInt n) = (n, true).
Proof.
  unfold is_i64. intros H. unfold FormatInt. destruct (Z.ltb_spec n 0).
  - unfold ParseInt. rewrite parse_FormatUint by lia.
    destruct (FormatUint (- n)) eqn:E; [by apply FormatUint_nonempty in E|].
    destruct (Z.ltb_spec (2^63) (- n)); [lia|]. f_equal; lia.
  - destruct (digit_head n ltac:(unfold is_u64; lia)) as (c & r & E & Hc).
    apply (ParseInt_digits _ c r); [done | done | apply parse_FormatUint; lia | lia].
Qed.

Lemma ParseInt_FormatUint n : 0 <= n < 2^63 -> ParseInt (FormatUint n) = (n, true).
Proof.
  intros H. pose proof (ParseInt_FormatInt n ltac:(unfold is_i64; lia)) as E.
  unfold FormatInt in E. destruct (Z.ltb_spec n 0); [lia|done].
Qed.

#[export] Hint Resolve ParseInt_FormatInt ParseInt_FormatUint ParseUint_FormatUint : proxy.

Lemma byte_at_app a c b : byte_at (a +:+ String c b) (String.length a) = Some c.
Proof. induction a; cbn; auto. Qed.

Lemma byte_at_app_S a c d b : byte_at (a +:+ String c (String d b)) (String.length a + 1) = Some d.
Proof. induction a; cbn; auto. Qed.

Lemma stake_app_ge n a b :
  (String.length a <= n)%nat -> stake n (a +:+ b) = a +:+ stake (n - String.length a) b.
Proof.
  revert n. induction a as [|c a IH]; intros n H; cbn in *; [by rewrite Nat.sub_0_r|].
  destruct n; [lia|]. cbn. by rewrite IH by lia.
Qed.

Lemma sapp_inj_l a b c : a +:+ b = a +:+ c -> b = c.
Proof. induction a; cbn; intros H; simplify_eq; auto. Qed.

Lemma sapp_length_inj a b c d :
  String.length a = String.length c -> a +:+ b = c +:+ d -> a = c /\ b = d.
Proof.
  revert c. induction a as [|x a IH]; intros [|y c] Hl H; cbn in *; try lia; [done|].
  simplify_eq. destruct (IH c) as [-> ->]; auto.
Qed.

Lemma string_snoc_case s : s = "" \/ exists r c, s = r +:+ String c "".
Proof. induction s using string_snoc_ind; [by left | right; eauto]. Qed.

(** ** Strided loops over arguments

    [for i := k; i < len(args); i += 2] visits [evens (drop k args)];
    [for i := k; i+1 < len(args); i += 2] with [args[i+1]] visits
    [odds (drop k args)]. *)
Fixpoint evens {A} (l : list A) : list A :=
  match l with
  | [] => []
  | [x] => [x]
  | x :: _ :: l' => x :: evens l'
  end.

Definition odds {A} (l : list A) : list A := evens (drop 1 l).

Lemma evens_elem {A} (l : list A) x : x ∈ evens l -> x ∈ l.
Proof.
  enough (H : forall n (l : list A), (length l <= n)%nat -> x ∈ evens l -> x ∈ l) by eauto.
  clear l. induction n as [|n IH]; intros [|a [|b l]] Hl; cbn in *; try done; try lia.
  rewrite !elem_of_cons. intros [->|H]; [by left|]. right; right. apply IH; [lia|done].
Qed.

#[global] Arguments cut_prefix !p !s : simpl nomatch.

Lemma be_fold_range s acc : 0 <= acc -> 0 <= be_fold acc s < (acc + 1) * 256 ^ Z.of_nat (String.length s).
Proof.
  revert acc. induction s as [|c s IH]; intros acc Ha; cbn [be_fold String.length]; [change (256 ^ Z.of_nat 0) with 1; lia|].
  pose proof (bval_range c). specialize (IH (acc * 256 + bval c) ltac:(lia)).
  rewrite Nat2Z.inj_succ, Z.pow_succ_r by lia.
  assert (0 < 256 ^ Z.of_nat (String.length s)) by (apply Z.pow_pos_nonneg; lia). nia.
Qed.

Lemma be_fold_u64 s : (String.length s <= 8)%nat -> is_u64 (be_fold 0 s).
Proof.
  intros Hl. pose proof (be_fold_range s 0 ltac:(lia)) as Hb. unfold is_u64.
  assert (256 ^ Z.of_nat (String.length s) <= 256 ^ 8) by (apply Z.pow_le_mono_r; lia).
  change (256 ^ 8) with (2 ^ 64) in *. lia.
Qed.

(** ** Big-endian encoders, for concrete values *)
Fixpoint be_bytes (k : nat) (z : Z) : string :=
  match k with
  | O => ""
  | Datatypes.S k' => be_bytes k' (z / 256) +:+ String (ascii_of_N (Z.to_N (z mod 256))) ""
  end.
