(* ===== verification/Sha1.v ===== *)
(** * SHA-1 (Go's crypto/sha1 and encoding/hex)

    The proxy pins Lua bodies by the SHA-1 of their bytes (classify.go
    [ScriptSHA]).  This is FIPS 180-4 SHA-1 on byte strings, executable, with
    32-bit words as [Z] and their wrap-around written out. *)

From S2P Require Import Prelude GoLib.

Definition w32 (z : Z) : Z := z mod 2^32.
Definition rotl (n x : Z) : Z := w32 (Z.lor (Z.shiftl x n) (Z.shiftr x (32 - n))).

Fixpoint bytes_of (s : string) : list Z :=
  match s with "" => [] | String c s' => bval c :: bytes_of s' end.

(** 0x80, zeros, and the bit length as a big-endian 64-bit number. *)
Definition pad (m : list Z) : list Z :=
  let n := Z.of_nat (length m) in
  let zeros := Z.to_nat ((55 - n) mod 64) in
  m ++ [0x80] ++ replicate zeros 0 ++
  ((fun i => (n * 8 / 2 ^ (8 * i)) mod 256) <$> [7; 6; 5; 4; 3; 2; 1; 0]).

Fixpoint words (l : list Z) : list Z :=
  match l with
  | a :: b :: c :: d :: l' => (a * 2^24 + b * 2^16 + c * 2^8 + d) :: words l'
  | _ => []
  end.

(** The schedule, newest word first. *)
Fixpoint extend (n : nat) (w : list Z) : list Z :=
  match n with
  | O => w
  | S n' =>
      let at_ k := default 0 (w !! k) in
      extend n' (rotl 1 (Z.lxor (Z.lxor (at_ 2%nat) (at_ 7%nat)) (Z.lxor (at_ 13%nat) (at_ 15%nat))) :: w)
  end.

Record regs : Type := mkRegs { ra : Z; rb : Z; rc : Z; rd : Z; re : Z }.

Definition round (t : nat) (r : regs) (w : Z) : regs :=
  let '(mkRegs a b c d e) := r in
  let (f, k) :=
    if Nat.ltb t 20 then (Z.lor (Z.land b c) (Z.land (w32 (Z.lnot b)) d), 0x5A827999)
    else if Nat.ltb t 40 then (Z.lxor (Z.lxor b c) d, 0x6ED9EBA1)
    else if Nat.ltb t 60 then (Z.lor (Z.lor (Z.land b c) (Z.land b d)) (Z.land c d), 0x8F1BBCDC)
    else (Z.lxor (Z.lxor b c) d, 0xCA62C1D6) in
  mkRegs (w32 (rotl 5 a + f + e + k + w)) a (rotl 30 b) c d.

Fixpoint rounds (t : nat) (ws : list Z) (r : regs) : regs :=
  match ws with [] => r | w :: ws' => rounds (S t) ws' (round t r w) end.

Definition block (r : regs) (ws : list Z) : regs :=
  let s := rounds 0 (reverse (extend 64 (reverse ws))) r in
  mkRegs (w32 (ra r + ra s)) (w32 (rb r + rb s)) (w32 (rc r + rc s))
         (w32 (rd r + rd s)) (w32 (re r + re s)).

Fixpoint blocks (fuel : nat) (ws : list Z) (r : regs) : regs :=
  match fuel with
  | O => r
  | S f => match ws with [] => r | _ => blocks f (drop 16 ws) (block r (take 16 ws)) end
  end.

Definition sha1 (m : string) : regs :=
  let ws := words (pad (bytes_of m)) in
  blocks (length ws) ws (mkRegs 0x67452301 0xEFCDAB89 0x98BADCFE 0x10325476 0xC3D2E1F0).

Definition hex_digit (d : Z) : ascii := if d <? 10 then byte_of (48 + d) else byte_of (87 + d).

Fixpoint hex_word (n : nat) (w : Z) (acc : string) : string :=
  match n with
  | O => acc
  | S n' => hex_word n' (w / 16) (String (hex_digit (w mod 16)) acc)
  end.

(** [hex.EncodeToString(sum[:])]. *)
Definition sha1_hex (m : string) : string :=
  let r := sha1 m in
  hex_word 8 (ra r) (hex_word 8 (rb r) (hex_word 8 (rc r) (hex_word 8 (rd r) (hex_word 8 (re r) "")))).

(** The FIPS 180 test vectors. *)
Example sha1_empty : sha1_hex "" = "da39a3ee5e6b4b0d3255bfef95601890afd80709".
Proof. vm_compute. reflexivity. Qed.
Example sha1_abc : sha1_hex "abc" = "a9993e364706816aba3e25717850c26c9cd0d89d".
Proof. vm_compute. reflexivity. Qed.
Example sha1_two_blocks :
  sha1_hex "abcdbcdecdefdefgefghfghighijhijkijkljklmklmnlmnomnopnopq" = "84983e441c3bd26ebaae4aa1f95129e5e54670f1".
Proof. vm_compute. reflexivity. Qed.
