(* ===== verification/GoTime.v ===== *)
(** * Go's [time.Parse] for the layout "2006-01-02-15"

    The trash root names its hourly directories with this layout.
    [parseHour s] is the Unix time of the hour [s] names when
    [time.Parse(layout, s)] succeeds and formatting the result gives [s]
    back: exactly YYYY-MM-DD-HH with a date of the proleptic Gregorian
    calendar. *)

From S2P Require Import Prelude GoLib.

Definition is_leap (y : Z) : bool :=
  ((y mod 4 =? 0) && negb (y mod 100 =? 0)) || (y mod 400 =? 0).

Definition days_in (m y : Z) : Z :=
  if m =? 2 then if is_leap y then 29 else 28
  else if (m =? 4) || (m =? 6) || (m =? 9) || (m =? 11) then 30
  else 31.

(** Days of the Gregorian calendar before year [y] (from year 0). *)
Definition days_before_year (y : Z) : Z :=
  y * 365 + (y + 3) / 4 - (y + 99) / 100 + (y + 399) / 400.

Fixpoint days_before_month (n : nat) (y : Z) : Z :=
  match n with
  | O => 0
  | S n' => days_before_month n' y + days_in (Z.of_nat n) y
  end.

(** Days since 1970-01-01. *)
Definition civil_days (y m d : Z) : Z :=
  days_before_year y - days_before_year 1970 + days_before_month (Z.to_nat (m - 1)) y + (d - 1).

(** Exactly [n] decimal digits. *)
Definition fixed_digits (n : nat) (s : string) : option Z :=
  if Nat.eqb (String.length s) n && all_digits s then parse_dec 0 s else None.

Definition parseHour (s : string) : option Z :=
  match Split s "-" with
  | [ys; ms; ds; hs] =>
      y ← fixed_digits 4 ys; m ← fixed_digits 2 ms; d ← fixed_digits 2 ds; h ← fixed_digits 2 hs;
      if (1 <=? m) && (m <=? 12) && (1 <=? d) && (d <=? days_in m y) && (h <=? 23)
      then Some ((civil_days y m d * 24 + h) * 3600) else None
  | _ => None
  end.

Example parseHour_epoch : parseHour "1970-01-01-00" = Some 0.
Proof. reflexivity. Qed.
Example parseHour_2024 : parseHour "2024-02-29-13" = Some 1709211600.
Proof. vm_compute. reflexivity. Qed.
Example parseHour_2026 : parseHour "2026-11-15-23" = Some 1794783600.
Proof. vm_compute. reflexivity. Qed.
Example parseHour_bad : parseHour "2023-02-29-13" = None /\ parseHour "2023-2-09-13" = None /\ parseHour "2023-02-09-24" = None.
Proof. vm_compute. auto. Qed.
