(* ===== verification/Resp.v ===== *)
(** * The RESP codec (internal/respproxy/resp.go)

    Client commands are read with [ReadCommandLimits], replies are copied
    frame by frame with [CopyFrame] and, on the proxy's own connections, parsed
    with [ReadValue].  A [bufio.Reader] over a connection is the string of
    bytes not consumed yet together with the size [B] of its buffer: what
    [ReadSlice] returns depends on nothing else.  A run that reaches the end of
    the string sees [io.EOF].

    Recursion over nested frames uses fuel; [CopyFrame] and [ReadValue] start
    with one more than the number of unread bytes, and the termination theorems
    show that this is always enough. *)

From S2P Require Import Prelude GoLib.

(** Errors of the readers.  [ErrMakeslice] is the run-time panic of a [make]
    with a negative capacity; [ErrFuel] marks a model that ran out of fuel. *)
Inductive rerr : Type :=
  | ErrProtocol
  | ErrEOF
  | ErrUnexpectedEOF
  | ErrMakeslice
  | ErrFuel.

Definition maxBulk : Z := 512 * 2^20.
Definition maxReplyElems : Z := 2^20.

Record Limits : Type := mkLimits {
  MaxArgs : Z;
  MaxBulk : Z;
  MaxTotal : Z;
}.

Definition PreAuthLimits : Limits := mkLimits 10 (16 * 2^10) (16 * 2^10).
Definition AuthLimits : Limits := mkLimits (2^20) (16 * 2^20) (64 * 2^20).

Definition parseInt (b : string) : result rerr Z :=
  let (n, ok) := ParseInt b in if ok then Ok n else Err ErrProtocol.

Section reader.
Context (B : nat).

(** [bufio.Reader.ReadSlice('\n')]: a line, a full buffer without a newline,
    or the end of the stream. *)
Inductive slice_read : Type :=
  | SliceLine (line rest : string)
  | SliceFull (buf rest : string)
  | SliceEOF.

Definition ReadSlice (inp : string) : slice_read :=
  match IndexByte (stake B inp) LF with
  | Some i => SliceLine (stake (S i) inp) (sdrop (S i) inp)
  | None =>
      if Nat.leb B (String.length inp) then SliceFull (stake B inp) (sdrop B inp) else SliceEOF
  end.

(** The check on a complete line, and the line without its CRLF. *)
Definition chop (line : string) : result rerr string :=
  let n := String.length line in
  if (Nat.ltb n 2) || negb (match byte_at line (n - 2) with Some c => Ascii.eqb c CR | None => false end)
  then Err ErrProtocol
  else Ok (stake (n - 2) line).

Fixpoint readLong (fuel : nat) (buf inp : string) : result rerr (string * string) :=
  match fuel with
  | O => Err ErrFuel
  | S f =>
      if 64 * 2^10 <? slen buf then Err ErrProtocol
      else match ReadSlice inp with
           | SliceEOF => Err ErrEOF
           | SliceFull c rest => readLong f (buf +:+ c) rest
           | SliceLine l rest => x ← chop (buf +:+ l); Ok (x, rest)
           end
  end.

Definition readLine (inp : string) : result rerr (string * string) :=
  match ReadSlice inp with
  | SliceEOF => Err ErrEOF
  | SliceLine l rest => x ← chop l; Ok (x, rest)
  | SliceFull buf rest => readLong (S (String.length rest)) buf rest
  end.

(** [io.ReadFull] of [n > 0] bytes. *)
Definition ReadFull (n : Z) (inp : string) : result rerr (string * string) :=
  if slen inp <? n
  then Err (match inp with "" => ErrEOF | _ => ErrUnexpectedEOF end)
  else Ok (stake (Z.to_nat n) inp, sdrop (Z.to_nat n) inp).

Definition bulkChunk : Z := 64 * 2^10.

Fixpoint readBulkLoop (fuel : nat) (l : Z) (b inp : string) : result rerr (string * string) :=
  match fuel with
  | O => Err ErrFuel
  | S f =>
      if slen b <? l + 2 then
        let need := Z.min (l + 2 - slen b) bulkChunk in
        '(x, rest) ← ReadFull need inp;
        readBulkLoop f l (b +:+ x) rest
      else Ok (b, inp)
  end.

Definition readBulk (l : Z) (inp : string) : result rerr (string * string) :=
  '(b, rest) ← readBulkLoop (S (S (String.length inp))) l "" inp;
  match byte_at b (Z.to_nat l), byte_at b (Z.to_nat l + 1) with
  | Some c, Some d =>
      if Ascii.eqb c CR && Ascii.eqb d LF then Ok (stake (Z.to_nat l) b, rest) else Err ErrProtocol
  | _, _ => Err ErrProtocol
  end.

Definition is_blank (c : ascii) : bool := Ascii.eqb c " " || Ascii.eqb c "009".

(** [splitInline]: [start] is the index of the token being read, if any. *)
Fixpoint splitInlineGo (line rest : string) (i : nat) (start : option nat) : list string :=
  match rest with
  | "" => match start with Some s => [sdrop s line] | None => [] end
  | String c rest' =>
      if is_blank c then
        match start with
        | Some s => sub line s i :: splitInlineGo line rest' (S i) None
        | None => splitInlineGo line rest' (S i) None
        end
      else splitInlineGo line rest' (S i) (match start with Some s => Some s | None => Some i end)
  end.

Definition splitInline (line : string) : list string := splitInlineGo line line 0 None.

(** The argument loop of [ReadCommandLimits]: [n] arguments are still to be
    read, [total] bytes were declared so far. *)
Fixpoint readArgs (lim : Limits) (n : nat) (total : Z) (inp : string) : result rerr (list string * string) :=
  match n with
  | O => Ok ([], inp)
  | S n' =>
      '(hdr, r1) ← readLine inp;
      match hdr with
      | String "$" d =>
          let (l, ok) := ParseInt d in
          if negb ok || (l <? 0) || (MaxBulk lim <? l) then Err ErrProtocol
          else if MaxTotal lim <? total + l then Err ErrProtocol
          else '(b, r2) ← readBulk l r1;
               '(args, r3) ← readArgs lim n' (total + l) r2;
               Ok (b :: args, r3)
      | _ => Err ErrProtocol
      end
  end.

(** One client command; an empty list is a line to ignore. *)
Definition ReadCommandLimits (lim : Limits) (inp : string) : result rerr (list string * string) :=
  '(line, r) ← readLine inp;
  match line with
  | "" => Ok ([], r)
  | String "*" d =>
      n ← parseInt d;
      if n <=? 0 then Ok ([], r)
      else if MaxArgs lim <? n then Err ErrProtocol
      else readArgs lim (Z.to_nat n) 0 r
  | _ =>
      if MaxTotal lim <? slen line then Err ErrProtocol
      else let args := splitInline line in
           if MaxArgs lim <? Z.of_nat (length args) then Err ErrProtocol else Ok (args, r)
  end.

Definition ReadCommand : string -> result rerr (list string * string) := ReadCommandLimits AuthLimits.

End reader.

Definition bulk (a : string) : string := "$" +:+ FormatInt (slen a) +:+ CRLF +:+ a +:+ CRLF.

Fixpoint bulks (args : list string) : string :=
  match args with [] => "" | a :: args' => bulk a +:+ bulks args' end.

Definition WriteCommand (args : list string) : string :=
  "*" +:+ FormatInt (Z.of_nat (length args)) +:+ CRLF +:+ bulks args.

(** ** Replies *)

Record FrameInfo : Type := mkFrameInfo { FType : ascii; FNull : bool }.

Definition IsError (f : FrameInfo) : bool := Ascii.eqb (FType f) "-" || Ascii.eqb (FType f) "!".

(** The three families of reply types of [CopyFrame]'s switch. *)
Inductive frame_kind : Type := FLine | FBulk | FAgg | FOther.

Definition kind_of (t : ascii) : frame_kind :=
  match t with
  | "+" | "-" | ":" | "," | "_" | "#" | "(" => FLine
  | "$" | "!" | "=" => FBulk
  | "*" | "~" | ">" | "%" | "|" => FAgg
  | _ => FOther
  end%char.

Definition is_pair_type (t : ascii) : bool := Ascii.eqb t "%" || Ascii.eqb t "|".

Section frames.
Context (B : nat).

(** [io.CopyN]: a short stream is [io.EOF]. *)
Definition CopyN (n : Z) (inp : string) : result rerr (string * string) :=
  if slen inp <? n then Err ErrEOF
  else Ok (stake (Z.to_nat n) inp, sdrop (Z.to_nat n) inp).

(** The [for i := 0; i < n; i++] loop over the [k] elements still to copy. *)
Fixpoint copyElems (frame : string -> result rerr (FrameInfo * string * string))
    (g : nat) (k : Z) (r : string) : result rerr (string * string) :=
  if k <=? 0 then Ok ("", r)
  else match g with
       | O => Err ErrFuel
       | S g' =>
           '(_, o1, r1) ← frame r;
           '(o2, r2) ← copyElems frame g' (k - 1) r1;
           Ok (o1 +:+ o2, r2)
       end.

(** One logical reply: what it is, the bytes written to the client, and the
    bytes left unread. *)
Fixpoint copyFrame (fuel : nat) (inp : string) : result rerr (FrameInfo * string * string) :=
  match fuel with
  | O => Err ErrFuel
  | S f =>
      '(line, r) ← readLine B inp;
      match line with
      | "" => Err ErrProtocol
      | String t body =>
          let info := mkFrameInfo t (Ascii.eqb t "_") in
          let hdr := line +:+ CRLF in
          match kind_of t with
          | FLine => Ok (info, hdr, r)
          | FBulk =>
              n ← parseInt body;
              if n <? 0 then Ok (mkFrameInfo t true, hdr, r)
              else if maxBulk <? n then Err ErrProtocol
              else '(x, r') ← CopyN (n + 2) r; Ok (info, hdr +:+ x, r')
          | FAgg =>
              n ← parseInt body;
              if n <? 0 then Ok (mkFrameInfo t true, hdr, r)
              else
                let n := if is_pair_type t then i64 (n * 2) else n in
                '(o, r') ← copyElems (copyFrame f) (S (String.length r)) n r;
                if Ascii.eqb t "|" then
                  '(info2, o2, r2) ← copyFrame f r'; Ok (info2, hdr +:+ o +:+ o2, r2)
                else Ok (info, hdr +:+ o, r')
          | FOther => Err ErrProtocol
          end
      end
  end.

Definition CopyFrame (inp : string) : result rerr (FrameInfo * string * string) :=
  copyFrame (S (String.length inp)) inp.

End frames.

(** One parsed reply. *)
#[warnings="-register-all"]
Inductive Value : Type := mkValue {
  VType : ascii;
  VStr : string;
  VInt : Z;
  VElems : list Value;
  VNull : bool;
}.

(** [Value.Err]: the error text of a '-' or '!' reply. *)
Definition ValueErr (v : Value) : option string :=
  if Ascii.eqb (VType v) "-" || Ascii.eqb (VType v) "!" then Some (VStr v) else None.

Section values.
Context (B : nat).

Fixpoint readElems (value : string -> result rerr (Value * string)) (k : nat) (r : string)
    : result rerr (list Value * string) :=
  match k with
  | O => Ok ([], r)
  | S k' =>
      '(e, r1) ← value r;
      '(es, r2) ← readElems value k' r1;
      Ok (e :: es, r2)
  end.

Fixpoint readValue (fuel : nat) (inp : string) : result rerr (Value * string) :=
  match fuel with
  | O => Err ErrFuel
  | S f =>
      '(line, r) ← readLine B inp;
      match line with
      | "" => Err ErrProtocol
      | String t body =>
          match kind_of t with
          | FLine =>
              if Ascii.eqb t "_" then Ok (mkValue t "" 0 [] true, r)
              else if Ascii.eqb t ":" then n ← parseInt body; Ok (mkValue t "" n [] false, r)
              else Ok (mkValue t body 0 [] false, r)
          | FBulk =>
              n ← parseInt body;
              if n <? 0 then Ok (mkValue t "" 0 [] true, r)
              else if maxBulk <? n then Err ErrProtocol
              else '(b, r') ← ReadFull (n + 2) r;
                   Ok (mkValue t (stake (Z.to_nat n) b) 0 [] false, r')
          | FAgg =>
              n ← parseInt body;
              if n <? 0 then Ok (mkValue t "" 0 [] true, r)
              else
                let n := if is_pair_type t then i64 (n * 2) else n in
                if maxReplyElems <? n then Err ErrProtocol
                else if Z.min n 1024 <? 0 then Err ErrMakeslice
                else
                  '(es, r') ← readElems (readValue f) (Z.to_nat n) r;
                  if Ascii.eqb t "|" then readValue f r'
                  else Ok (mkValue t "" 0 es false, r')
          | FOther => Err ErrProtocol
          end
      end
  end.

Definition ReadValue (inp : string) : result rerr (Value * string) :=
  readValue (S (String.length inp)) inp.

End values.

Definition encodeAll (enc : Value -> option string) : list Value -> option string :=
  fix go (l : list Value) : option string :=
    match l with
    | [] => Some ""
    | e :: l' => a ← enc e; b ← go l'; Some (a +:+ b)
    end.

(** [EncodeValue]: [None] is the "encode type" error. *)
Fixpoint EncodeValue (v : Value) : option string :=
  match v with
  | mkValue t s i es null =>
      if null then
        if Ascii.eqb t "_" then Some ("_" +:+ CRLF) else Some (String t ("-1" +:+ CRLF))
      else
        match kind_of t with
        | FLine =>
            if Ascii.eqb t "_" then None
            else if Ascii.eqb t ":" then Some (String t (FormatInt i +:+ CRLF))
            else Some (String t (s +:+ CRLF))
        | FBulk => Some (String t (FormatInt (slen s) +:+ CRLF +:+ s +:+ CRLF))
        | FAgg =>
            if Ascii.eqb t "|" then None
            else
              let n := Z.of_nat (length es) in
              let n := if Ascii.eqb t "%" then n / 2 else n in
              body ← encodeAll EncodeValue es;
              Some (String t (FormatInt n +:+ CRLF +:+ body))
        | FOther => None
        end
  end.

#[global] Arguments readLine : simpl never.
#[global] Arguments readBulk : simpl never.
#[global] Arguments ReadFull : simpl never.
#[global] Arguments CopyN : simpl never.
#[global] Arguments parseInt : simpl never.
#[global] Arguments ParseInt : simpl never.
#[global] Arguments i64 : simpl never.
#[global] Arguments kind_of : simpl nomatch.
#[global] Arguments splitInline : simpl never.
