(* ===== verification/RespFacts.v ===== *)
(** * Theorems about the RESP codec

    Round trips between the writers and the readers, transparency of the reply
    copier, agreement of the copier with the parser, termination, and the size
    limits a command is held to before anything is allocated for it. *)

From S2P Require Import Prelude GoLib Resp.

Section lines.
Context (B : nat).

Lemma ReadSlice_line l rest :
  IndexByte l LF = None -> (String.length l < B)%nat ->
  ReadSlice B (l +:+ String LF rest) = SliceLine (l +:+ String LF "") rest.
Proof.
  intros Hl HB. unfold ReadSlice. rewrite stake_app_ge by lia.
  destruct (B - String.length l)%nat as [|k] eqn:Ek; [lia|].
  change (stake (S k) (String LF rest)) with (String LF (stake k rest)).
  rewrite IndexByte_app_skip by done. cbv beta iota.
  replace (S (String.length l)) with (String.length (l +:+ String LF ""))
    by (rewrite slength_app; cbn; lia).
  replace (l +:+ String LF rest) with ((l +:+ String LF "") +:+ rest) by (by rewrite sapp_assoc).
  by rewrite stake_app, sdrop_app.
Qed.

Lemma ReadSlice_Line_inv inp line rest :
  ReadSlice B inp = SliceLine line rest ->
  inp = line +:+ rest /\ exists x, line = x +:+ String LF "".
Proof.
  unfold ReadSlice. intros H. destruct (IndexByte (stake B inp) LF) as [i|] eqn:E; [|by split_in H].
  simplify_eq. split; [by rewrite stake_sdrop|].
  pose proof (IndexByte_length _ _ _ E) as Hi. rewrite length_stake in Hi.
  apply IndexByte_Some in E. exists (stake i (stake B inp)).
  assert (Hs : inp = (stake i (stake B inp) +:+ String LF "") +:+ (sdrop (S i) (stake B inp) +:+ sdrop B inp)).
  { rewrite <- (stake_sdrop B inp) at 1. rewrite E at 1. by rewrite !sapp_assoc. }
  rewrite Hs at 1.
  replace (S i) with (String.length (stake i (stake B inp) +:+ String LF "")).
  - by rewrite stake_app.
  - rewrite slength_app, !length_stake. cbn. lia.
Qed.

Lemma ReadSlice_Full_inv inp buf rest :
  ReadSlice B inp = SliceFull buf rest -> inp = buf +:+ rest /\ String.length buf = B.
Proof.
  unfold ReadSlice. intros H. split_in H. simplify_eq.
  split; [by rewrite stake_sdrop|]. rewrite length_stake.
  match goal with E : Nat.leb _ _ = true |- _ => apply Nat.leb_le in E end. lia.
Qed.

Lemma chop_crlf l : chop (l +:+ CRLF) = Ok l.
Proof.
  unfold chop. rewrite slength_app, length_CRLF.
  replace (String.length l + 2 - 2)%nat with (String.length l) by lia.
  replace (Nat.ltb (String.length l + 2) 2) with false by (symmetry; apply Nat.ltb_ge; lia).
  unfold CRLF. rewrite byte_at_app. cbn. by rewrite stake_app.
Qed.

Lemma chop_inv x l : chop (x +:+ String LF "") = Ok l -> x +:+ String LF "" = l +:+ CRLF.
Proof.
  destruct (string_snoc_case x) as [->|(y & c & ->)]; [by vm_compute|].
  unfold chop. intros H. rewrite !slength_app in H. cbn [String.length] in H.
  replace (String.length y + 1 + 1 - 2)%nat with (String.length y) in H by lia.
  rewrite sapp_assoc in *. cbn in *. rewrite byte_at_app in H.
  split_in H. to_prop. simplify_eq. by rewrite stake_app.
Qed.

Lemma readLine_ok l rest :
  IndexByte l LF = None -> (String.length l + 2 <= B)%nat ->
  readLine B (l +:+ CRLF +:+ rest) = Ok (l, rest).
Proof.
  intros Hl HB. unfold readLine.
  replace (l +:+ CRLF +:+ rest) with ((l +:+ String CR "") +:+ String LF rest)
    by (by rewrite sapp_assoc).
  rewrite ReadSlice_line; [ | | rewrite slength_app; cbn; lia].
  - rewrite sapp_assoc. change (String CR "" +:+ String LF "") with CRLF. by rewrite chop_crlf.
  - apply IndexByte_None_app. split; [done | by vm_compute].
Qed.

Lemma readLong_inv fuel buf inp l rest :
  readLong B fuel buf inp = Ok (l, rest) -> buf +:+ inp = l +:+ CRLF +:+ rest.
Proof.
  revert buf inp. induction fuel as [|f IH]; intros buf inp H; cbn in H; [discriminate|].
  destruct (64 * 2^10 <? slen buf); [discriminate|].
  destruct (ReadSlice B inp) as [line r|c r|] eqn:E; [| |discriminate].
  - apply ReadSlice_Line_inv in E as [-> [x ->]].
    apply result_bind_Ok in H as (y & Hc & H). simplify_eq.
    rewrite <- sapp_assoc in Hc. apply chop_inv in Hc.
    rewrite <- (sapp_assoc l), <- Hc. by rewrite !sapp_assoc.
  - apply ReadSlice_Full_inv in E as [-> _]. apply IH in H. by rewrite <- sapp_assoc.
Qed.

Lemma readLine_inv inp l rest :
  readLine B inp = Ok (l, rest) -> inp = l +:+ CRLF +:+ rest.
Proof.
  unfold readLine. destruct (ReadSlice B inp) as [line r|c r|] eqn:E; intros H; [| |discriminate].
  - apply ReadSlice_Line_inv in E as [-> [x ->]].
    apply result_bind_Ok in H as (y & Hc & H). simplify_eq.
    apply chop_inv in Hc. rewrite Hc. by rewrite sapp_assoc.
  - apply ReadSlice_Full_inv in E as [-> _]. by apply readLong_inv in H.
Qed.

Lemma readLong_fuel fuel buf inp :
  (0 < B)%nat -> (String.length inp < fuel)%nat -> readLong B fuel buf inp <> Err ErrFuel.
Proof.
  intros HB. revert buf inp. induction fuel as [|f IH]; intros buf inp Hl; [lia|]. cbn.
  destruct (64 * 2^10 <? slen buf); [done|].
  destruct (ReadSlice B inp) as [line r|c r|] eqn:E; [| |done].
  - unfold chop. by case_match.
  - apply ReadSlice_Full_inv in E as [-> Hc]. apply IH. rewrite slength_app in Hl. lia.
Qed.

Lemma readLine_fuel inp : (0 < B)%nat -> readLine B inp <> Err ErrFuel.
Proof.
  intros HB. unfold readLine. destruct (ReadSlice B inp); [ | apply readLong_fuel; lia | done].
  unfold chop. by case_match.
Qed.

(** Every line consumes at least its CRLF. *)
Lemma readLine_length inp l rest :
  readLine B inp = Ok (l, rest) ->
  String.length inp = (String.length l + 2 + String.length rest)%nat.
Proof. intros H. apply readLine_inv in H as ->. rewrite !slength_app, length_CRLF. lia. Qed.

End lines.

Lemma ReadFull_ok x rest : ReadFull (slen x) (x +:+ rest) = Ok (x, rest).
Proof.
  unfold ReadFull. rewrite slen_app. pose proof (slen_nonneg rest).
  destruct (Z.ltb_spec (slen x + slen rest) (slen x)); [lia|].
  unfold slen. by rewrite Nat2Z.id, stake_app, sdrop_app.
Qed.

Lemma take_inv n (inp x rest : string) :
  0 <= n <= slen inp -> (x, rest) = (stake (Z.to_nat n) inp, sdrop (Z.to_nat n) inp) ->
  inp = x +:+ rest /\ slen x = n.
Proof.
  intros Hn H. simplify_eq. split; [by rewrite stake_sdrop|].
  unfold slen in *. rewrite length_stake. lia.
Qed.

Lemma ReadFull_inv n inp x rest :
  0 <= n -> ReadFull n inp = Ok (x, rest) -> inp = x +:+ rest /\ slen x = n.
Proof.
  unfold ReadFull. intros Hn H. destruct (Z.ltb_spec (slen inp) n); [discriminate|].
  injection H as H1 H2. apply take_inv; [lia | congruence].
Qed.

Lemma CopyN_inv n inp x rest :
  0 <= n -> CopyN n inp = Ok (x, rest) -> inp = x +:+ rest /\ slen x = n.
Proof.
  unfold CopyN. intros Hn H. destruct (Z.ltb_spec (slen inp) n); [discriminate|].
  injection H as H1 H2. apply take_inv; [lia | congruence].
Qed.

Lemma readBulkLoop_ok fuel l b inp whole rest :
  b +:+ inp = whole +:+ rest -> slen whole = l + 2 -> slen b <= l + 2 -> 0 <= l ->
  l + 2 - slen b < Z.of_nat fuel ->
  readBulkLoop fuel l b inp = Ok (whole, rest).
Proof.
  revert b inp. induction fuel as [|f IH]; intros b inp Heq Hw Hb Hl Hf; [lia|]. cbn.
  destruct (Z.ltb_spec (slen b) (l + 2)) as [Hlt|Hge].
  - set (need := Z.min (l + 2 - slen b) bulkChunk).
    assert (Hneed : 0 < need <= l + 2 - slen b) by (unfold need, bulkChunk; lia).
    assert (Hlen : slen b + slen inp = slen whole + slen rest)
      by (by rewrite <- !slen_app, Heq).
    pose proof (slen_nonneg rest).
    assert (Hsplit : inp = stake (Z.to_nat need) inp +:+ sdrop (Z.to_nat need) inp)
      by (by rewrite stake_sdrop).
    assert (Hx : slen (stake (Z.to_nat need) inp) = need)
      by (unfold slen in *; rewrite length_stake; lia).
    unfold ReadFull. destruct (Z.ltb_spec (slen inp) need); [lia|]. cbn.
    apply IH; [ | done | rewrite slen_app; lia | done | rewrite slen_app; lia].
    by rewrite sapp_assoc, stake_sdrop.
  - apply sapp_length_inj in Heq as [-> ->]; [done|]. unfold slen in *. lia.
Qed.

Lemma readBulk_ok a rest :
  readBulk (slen a) (a +:+ CRLF +:+ rest) = Ok (a, rest).
Proof.
  unfold readBulk. rewrite <- sapp_assoc.
  rewrite (readBulkLoop_ok _ (slen a) "" _ (a +:+ CRLF) rest).
  - cbn. unfold slen, CRLF. rewrite Nat2Z.id, byte_at_app, byte_at_app_S. cbn.
    by rewrite stake_app.
  - done.
  - by rewrite slen_app.
  - pose proof (slen_nonneg a). change (slen "") with 0. lia.
  - apply slen_nonneg.
  - rewrite !slength_app, length_CRLF. change (slen "") with 0. unfold slen. lia.
Qed.

(** ** Commands *)

Fixpoint total (args : list string) : Z :=
  match args with [] => 0 | a :: args' => slen a + total args' end.

Lemma total_nonneg args : 0 <= total args.
Proof. induction args as [|a args IH]; cbn; [lia|]. pose proof (slen_nonneg a). lia. Qed.

Lemma FormatUint_noLF n : 0 <= n -> IndexByte (FormatUint n) LF = None.
Proof. intros. apply all_digits_IndexByte; [by vm_compute | by apply all_digits_FormatUint]. Qed.

Lemma FormatInt_noLF n : IndexByte (FormatInt n) LF = None.
Proof.
  unfold FormatInt. destruct (Z.ltb_spec n 0); [|apply FormatUint_noLF; lia].
  cbn. by rewrite FormatUint_noLF by lia.
Qed.

Lemma length_FormatInt n : (String.length (FormatInt n) <= 21)%nat.
Proof.
  unfold FormatInt. destruct (n <? 0); cbn.
  - pose proof (length_FormatUint (- n)). lia.
  - pose proof (length_FormatUint n). lia.
Qed.

(** A header line: one type byte and a decimal. *)
Lemma readLine_header B t n rest :
  t <> LF -> (24 <= B)%nat ->
  readLine B (String t (FormatInt n +:+ CRLF +:+ rest)) = Ok (String t (FormatInt n), rest).
Proof.
  intros Ht HB. change (String t (FormatInt n +:+ CRLF +:+ rest))
    with (String t (FormatInt n) +:+ CRLF +:+ rest).
  apply readLine_ok.
  - cbn. destruct (Ascii.eqb_spec t LF); [done|]. by rewrite FormatInt_noLF.
  - cbn. pose proof (length_FormatInt n). lia.
Qed.

Lemma readArgs_ok B lim args tot rest :
  (24 <= B)%nat -> MaxBulk lim < 2^63 ->
  Forall (fun a => slen a <= MaxBulk lim) args -> tot + total args <= MaxTotal lim ->
  readArgs B lim (length args) tot (bulks args +:+ rest) = Ok (args, rest).
Proof.
  intros HB HM. revert tot. induction args as [|a args IH]; intros tot Hall Htot; [done|].
  inversion Hall; subst. pose proof (slen_nonneg a). pose proof (total_nonneg args).
  cbn [length bulks readArgs total] in *. unfold bulk. rewrite !sapp_assoc. cbn [String.append].
  rewrite readLine_header by done. cbn.
  rewrite ParseInt_FormatInt by (unfold is_i64; lia). cbn.
  destruct (Z.ltb_spec (slen a) 0); [lia|]. destruct (Z.ltb_spec (MaxBulk lim) (slen a)); [lia|].
  destruct (Z.ltb_spec (MaxTotal lim) (tot + slen a)); [lia|]. cbn.
  rewrite readBulk_ok. cbn. rewrite IH; [done | done | lia].
Qed.

Lemma ReadCommand_WriteCommand B lim args rest :
  (24 <= B)%nat -> MaxBulk lim < 2^63 -> MaxArgs lim < 2^63 ->
  Z.of_nat (length args) <= MaxArgs lim ->
  Forall (fun a => slen a <= MaxBulk lim) args -> total args <= MaxTotal lim ->
  ReadCommandLimits B lim (WriteCommand args +:+ rest) = Ok (args, rest).
Proof.
  intros HB HM HA Hn Hall Htot. unfold ReadCommandLimits, WriteCommand.
  rewrite !sapp_assoc. cbn [String.append]. rewrite readLine_header by done. cbn.
  unfold parseInt. rewrite ParseInt_FormatInt by (unfold is_i64; lia). cbn.
  destruct (Z.leb_spec (Z.of_nat (length args)) 0).
  - destruct args; cbn in *; [done|lia].
  - destruct (Z.ltb_spec (MaxArgs lim) (Z.of_nat (length args))); [lia|].
    rewrite Nat2Z.id. apply readArgs_ok; auto; lia.
Qed.

Lemma readBulkLoop_inv fuel l b inp whole rest :
  readBulkLoop fuel l b inp = Ok (whole, rest) -> slen b <= l + 2 ->
  b +:+ inp = whole +:+ rest /\ slen whole = l + 2.
Proof.
  revert b inp. induction fuel as [|f IH]; intros b inp H Hb; cbn in H; [discriminate|].
  destruct (Z.ltb_spec (slen b) (l + 2)).
  - apply result_bind_Ok in H as ([x r] & Hr & H).
    apply ReadFull_inv in Hr as [-> Hx]; [|unfold bulkChunk; lia].
    apply IH in H as [H1 H2]; [|rewrite slen_app; lia].
    split; [|done]. by rewrite <- H1, sapp_assoc.
  - simplify_eq. split; [done|lia].
Qed.

Lemma readBulk_inv l inp b rest :
  0 <= l -> readBulk l inp = Ok (b, rest) -> inp = b +:+ CRLF +:+ rest /\ slen b = l.
Proof.
  unfold readBulk. intros Hl H. apply result_bind_Ok in H as ([w r] & Hw & H).
  apply readBulkLoop_inv in Hw as [Heq Hlen]; [|change (slen "") with 0; lia]. cbn in Heq. subst inp.
  assert (exists x y, w = x +:+ y /\ String.length x = Z.to_nat l) as (x & y & -> & Hx).
  { exists (stake (Z.to_nat l) w), (sdrop (Z.to_nat l) w). rewrite stake_sdrop, length_stake.
    split; [done|]. unfold slen in *. lia. }
  unfold slen in Hlen. rewrite slength_app in Hlen.
  destruct y as [|c [|d [|? ?]]]; cbn in Hlen; try lia.
  rewrite <- Hx, byte_at_app, byte_at_app_S, stake_app in H.
  split_in H. to_prop. simplify_eq. rewrite sapp_assoc. split; [done|]. unfold slen. lia.
Qed.

Lemma splitInlineGo_total line pre rest start :
  line = pre +:+ rest ->
  match start with Some s => (s <= String.length pre)%nat | None => True end ->
  total (splitInlineGo line rest (String.length pre) start) <=
    slen rest + match start with Some s => Z.of_nat (String.length pre - s) | None => 0 end.
Proof.
  revert pre start. induction rest as [|c rest IH]; intros pre start -> Hs; cbn [splitInlineGo].
  - rewrite sapp_nil_r. destruct start as [s|]; cbn; [|done].
    unfold slen. rewrite length_sdrop. cbn. lia.
  - assert (Hpre : pre +:+ String c rest = (pre +:+ String c "") +:+ rest) by (by rewrite sapp_assoc).
    assert (Hlen : String.length (pre +:+ String c "") = S (String.length pre))
      by (rewrite slength_app; cbn; lia).
    assert (Hc : slen (String c rest) = 1 + slen rest) by (unfold slen; cbn [String.length]; lia).
    pose proof (IH (pre +:+ String c "")) as IH'. rewrite Hlen in IH'. rewrite Hc.
    destruct (is_blank c); [destruct start as [s|]|].
    + cbn. specialize (IH' None Hpre I). cbn in IH'.
      unfold sub, slen at 1. rewrite length_stake. lia.
    + specialize (IH' None Hpre I). cbn in IH'. lia.
    + destruct start as [s|].
      * specialize (IH' (Some s) Hpre). cbn beta iota in IH'. lia.
      * specialize (IH' (Some (String.length pre)) Hpre). cbn beta iota in IH'. lia.
Qed.

Lemma splitInline_total line : total (splitInline line) <= slen line.
Proof. pose proof (splitInlineGo_total line "" line None eq_refl I). cbn in H. unfold splitInline. lia. Qed.

Lemma readArgs_limits B lim n tot inp args rest :
  tot <= MaxTotal lim -> readArgs B lim n tot inp = Ok (args, rest) ->
  length args = n /\ tot + total args <= MaxTotal lim /\ Forall (fun a => slen a <= MaxBulk lim) args.
Proof.
  revert tot inp args. induction n as [|n IH]; intros tot inp args Ht H; cbn in H.
  - simplify_eq. cbn. split_and!; [done | lia | constructor].
  - apply result_bind_Ok in H as ([hdr r1] & _ & H). destruct hdr as [|c d]; [discriminate|].
    destruct (Ascii.eqb_spec c "$") as [->|Hc];
      [|by destruct c as [[] [] [] [] [] [] [] []]; try done].
    destruct (ParseInt d) as [l ok]. split_in H. to_prop.
    apply result_bind_Ok in H as ([b r2] & Hb & H).
    apply readBulk_inv in Hb as [_ Hb]; [|lia].
    apply result_bind_Ok in H as ([args' r3] & Hr & H). simplify_eq. cbn.
    apply IH in Hr as (-> & ? & ?); [|lia]. split_and!; [done | lia | by constructor].
Qed.

Lemma ReadCommandLimits_bounds B lim inp args rest :
  0 <= MaxArgs lim -> 0 <= MaxTotal lim ->
  ReadCommandLimits B lim inp = Ok (args, rest) ->
  Z.of_nat (length args) <= MaxArgs lim /\ total args <= MaxTotal lim.
Proof.
  intros HA HT H. unfold ReadCommandLimits in H.
  apply result_bind_Ok in H as ([line r] & _ & H).
  destruct line as [|c d]; [by simplify_eq|].
  destruct (Ascii.eqb_spec c "*") as [->|Hc].
  - apply result_bind_Ok in H as (n & _ & H). split_in H; [by simplify_eq|].
    to_prop. apply readArgs_limits in H as (-> & ? & _); lia.
  - assert (Hi : (if MaxTotal lim <? slen (String c d) then Err ErrProtocol
                  else let args := splitInline (String c d) in
                       if MaxArgs lim <? Z.of_nat (length args) then Err ErrProtocol else Ok (args, r))
                 = @Ok rerr _ (args, rest)).
    { rewrite <- H. destruct c as [[] [] [] [] [] [] [] []]; try done. }
    clear H. cbn zeta in Hi. split_in Hi. to_prop. simplify_eq.
    pose proof (splitInline_total (String c d)). lia.
Qed.

(** ** Reply frames *)

Lemma copyElems_inv frame g k r o r' :
  (forall inp info out rest, frame inp = Ok (info, out, rest) -> inp = out +:+ rest) ->
  copyElems frame g k r = Ok (o, r') -> r = o +:+ r'.
Proof.
  intros Hf. revert k r o r'. induction g as [|g IH]; intros k r o r' H; cbn in H.
  - split_in H. by simplify_eq.
  - destruct (k <=? 0); [by simplify_eq|].
    apply result_bind_Ok in H as ([[i1 o1] r1] & H1 & H).
    apply result_bind_Ok in H as ([o2 r2] & H2 & H). simplify_eq.
    apply Hf in H1 as ->. apply IH in H2 as ->. by rewrite sapp_assoc.
Qed.

Lemma copyFrame_inv B fuel inp info out rest :
  copyFrame B fuel inp = Ok (info, out, rest) -> inp = out +:+ rest /\ out <> "".
Proof.
  revert inp info out rest. induction fuel as [|f IH]; intros inp info out rest H; cbn [copyFrame] in H; [discriminate|].
  apply result_bind_Ok in H as ([line r] & Hl & H). apply readLine_inv in Hl as ->.
  destruct line as [|t body]; [discriminate|]. destruct (kind_of t).
  - simplify_eq. split; [by cbn; rewrite ?sapp_assoc | done].
  - apply result_bind_Ok in H as (n & _ & H). split_in H.
    + simplify_eq. split; [by cbn; rewrite ?sapp_assoc | done].
    + apply result_bind_Ok in H as ([x r'] & Hx & H). to_prop.
      apply CopyN_inv in Hx as [-> _]; [|lia]. simplify_eq.
      split; [by cbn; rewrite !sapp_assoc | done].
  - apply result_bind_Ok in H as (n & _ & H). destruct (n <? 0).
    { simplify_eq. split; [by cbn; rewrite ?sapp_assoc | done]. }
    apply result_bind_Ok in H as ([o r'] & Ho & H).
    apply copyElems_inv in Ho as ->; [|intros ???? H'; by apply IH in H' as []].
    destruct (Ascii.eqb t "|");
      [apply result_bind_Ok in H as ([[i2 o2] r2] & H2 & H); apply IH in H2 as [-> _]|];
      simplify_eq; (split; [by cbn; rewrite !sapp_assoc | done]).
  - discriminate.
Qed.

Lemma parseInt_fuel b : parseInt b <> Err ErrFuel.
Proof. unfold parseInt. destruct (ParseInt b) as [n []]; done. Qed.

Lemma CopyN_fuel n inp : CopyN n inp <> Err ErrFuel.
Proof. unfold CopyN. by case_match. Qed.

Lemma ReadFull_fuel n inp : ReadFull n inp <> Err ErrFuel.
Proof. unfold ReadFull. case_match; [by destruct inp | done]. Qed.

Lemma bind_fuel {A C} (m : result rerr A) (k : A -> result rerr C) :
  m <> Err ErrFuel -> (forall a, m = Ok a -> k a <> Err ErrFuel) -> (m ≫= k) <> Err ErrFuel.
Proof. destruct m; cbn; intros Hm Hk; [by apply Hk | congruence]. Qed.

Lemma copyElems_fuel frame g k r :
  (forall inp, (String.length inp < g)%nat -> frame inp <> Err ErrFuel) ->
  (forall inp info out rest, frame inp = Ok (info, out, rest) -> inp = out +:+ rest /\ out <> "") ->
  (String.length r < g)%nat -> copyElems frame g k r <> Err ErrFuel.
Proof.
  intros Hf Hc. revert k r.
  enough (Hg : forall h k r, (String.length r < h)%nat -> (h <= g)%nat ->
    copyElems frame h k r <> Err ErrFuel) by eauto.
  induction h as [|h IH]; intros k r Hr Hh; [lia|]. cbn. destruct (k <=? 0); [done|].
  apply bind_fuel; [apply Hf; lia|]. intros [[i1 o1] r1] H1.
  apply Hc in H1 as [-> Ho]. rewrite slength_app in Hr.
  apply bind_fuel; [|by intros []]. apply IH; [|lia].
  destruct o1; [done|]. cbn in Hr. lia.
Qed.

Lemma copyFrame_fuel B fuel inp :
  (0 < B)%nat -> (String.length inp < fuel)%nat -> copyFrame B fuel inp <> Err ErrFuel.
Proof.
  intros HB. revert inp. induction fuel as [|f IH]; intros inp Hl; [lia|]. cbn [copyFrame].
  apply bind_fuel; [by apply readLine_fuel|]. intros [line r] Hr.
  pose proof (readLine_length _ _ _ _ Hr) as Hlen.
  destruct line as [|t body]; [done|]. cbn in Hlen. destruct (kind_of t); [done | | | done].
  - apply bind_fuel; [apply parseInt_fuel|]. intros n _. repeat case_match; try done.
    apply bind_fuel; [apply CopyN_fuel | by intros []].
  - apply bind_fuel; [apply parseInt_fuel|]. intros n _. case_match; [done|].
    apply bind_fuel.
    { apply copyElems_fuel; [intros; apply IH; lia | intros ????; apply copyFrame_inv | lia]. }
    intros [o r'] Ho. apply copyElems_inv in Ho; [|intros ???? H'; by apply copyFrame_inv in H' as []].
    subst r. rewrite slength_app in Hlen. case_match; [|done].
    apply bind_fuel; [apply IH; lia | by intros [[]]].
Qed.

(** *** The parser *)

Lemma readElems_suffix value k r es r' :
  (forall inp v rest, value inp = Ok (v, rest) -> exists c, inp = c +:+ rest /\ c <> "") ->
  readElems value k r = Ok (es, r') -> exists c, r = c +:+ r'.
Proof.
  intros Hv. revert r es. induction k as [|k IH]; intros r es H; cbn in H.
  - simplify_eq. by exists "".
  - apply result_bind_Ok in H as ([e r1] & H1 & H). apply Hv in H1 as (c1 & -> & _).
    apply result_bind_Ok in H as ([es' r2] & H2 & H). simplify_eq.
    apply IH in H2 as (c2 & ->). exists (c1 +:+ c2). by rewrite sapp_assoc.
Qed.

Lemma readValue_suffix B fuel inp v rest :
  readValue B fuel inp = Ok (v, rest) -> exists c, inp = c +:+ rest /\ c <> "".
Proof.
  revert inp v rest. induction fuel as [|f IH]; intros inp v rest H; cbn [readValue] in H; [discriminate|].
  apply result_bind_Ok in H as ([line r] & Hl & H). apply readLine_inv in Hl as ->.
  destruct line as [|t body]; [discriminate|].
  assert (Hhdr : exists c, String t body +:+ CRLF +:+ r = c +:+ r /\ c <> "")
    by (exists (String t body +:+ CRLF); split; [by cbn; rewrite ?sapp_assoc | done]).
  destruct (kind_of t); [| | |discriminate].
  - split_in H; [| apply result_bind_Ok in H as (n & _ & H) |]; by simplify_eq.
  - apply result_bind_Ok in H as (n & _ & H). split_in H; [by simplify_eq|]. to_prop.
    apply result_bind_Ok in H as ([b r'] & Hb & H). apply ReadFull_inv in Hb as [-> _]; [|lia].
    simplify_eq. exists (String t body +:+ CRLF +:+ b). split; [by cbn; rewrite !sapp_assoc | done].
  - apply result_bind_Ok in H as (n & _ & H). destruct (n <? 0); [by simplify_eq|].
    do 2 (case_match; [discriminate|]).
    apply result_bind_Ok in H as ([es r'] & He & H). apply readElems_suffix in He as [c ->]; [|done].
    case_match.
    + apply IH in H as (c2 & -> & _). exists (String t body +:+ CRLF +:+ c +:+ c2).
      split; [by cbn; rewrite !sapp_assoc | done].
    + simplify_eq. exists (String t body +:+ CRLF +:+ c). split; [by cbn; rewrite !sapp_assoc | done].
Qed.

Lemma readElems_fuel value g k r :
  (forall inp, (String.length inp < g)%nat -> value inp <> Err ErrFuel) ->
  (forall inp v rest, value inp = Ok (v, rest) -> exists c, inp = c +:+ rest /\ c <> "") ->
  (String.length r < g)%nat -> readElems value k r <> Err ErrFuel.
Proof.
  intros Hf Hv. revert r. induction k as [|k IH]; intros r Hr; [done|]. cbn.
  apply bind_fuel; [by apply Hf|]. intros [e r1] H1. apply Hv in H1 as (c & -> & Hc).
  rewrite slength_app in Hr. apply bind_fuel; [|by intros []]. apply IH. lia.
Qed.

Lemma readValue_fuel B fuel inp :
  (0 < B)%nat -> (String.length inp < fuel)%nat -> readValue B fuel inp <> Err ErrFuel.
Proof.
  intros HB. revert inp. induction fuel as [|f IH]; intros inp Hl; [lia|]. cbn [readValue].
  apply bind_fuel; [by apply readLine_fuel|]. intros [line r] Hr.
  pose proof (readLine_length _ _ _ _ Hr) as Hlen.
  destruct line as [|t body]; [done|]. cbn in Hlen. destruct (kind_of t); [ | | | done].
  - repeat case_match; try done. apply bind_fuel; [apply parseInt_fuel | done].
  - apply bind_fuel; [apply parseInt_fuel|]. intros n _. repeat case_match; try done.
    apply bind_fuel; [apply ReadFull_fuel | by intros []].
  - apply bind_fuel; [apply parseInt_fuel|]. intros n _. destruct (n <? 0); [done|].
    generalize (if is_pair_type t then i64 (n * 2) else n). intros m. do 2 (case_match; [done|]).
    apply bind_fuel.
    { apply (readElems_fuel _ f); [intros; apply IH; lia | intros ???; apply readValue_suffix | lia]. }
    intros [es r'] He. apply readElems_suffix in He as [c ->]; [|intros ???; apply readValue_suffix].
    rewrite slength_app in Hlen. case_match; [apply IH; lia | done].
Qed.

(** *** The copier and the parser consume the same bytes *)

Lemma copyElems_readElems frame value g k r es r' :
  (forall inp v rest, value inp = Ok (v, rest) -> exists c, inp = c +:+ rest /\ c <> "") ->
  (forall inp v rest, (String.length inp < g)%nat -> value inp = Ok (v, rest) ->
     exists info out, frame inp = Ok (info, out, rest)) ->
  (String.length r < g)%nat -> readElems value k r = Ok (es, r') ->
  exists o, copyElems frame g (Z.of_nat k) r = Ok (o, r').
Proof.
  intros Hs Hv.
  enough (Hg : forall k h r es, (String.length r < h)%nat -> (h <= g)%nat ->
    readElems value k r = Ok (es, r') -> exists o, copyElems frame h (Z.of_nat k) r = Ok (o, r')) by eauto.
  clear k r es. induction k as [|k IH]; intros h r es Hr Hh H; cbn [readElems] in H.
  - simplify_eq. exists "". by destruct h.
  - apply result_bind_Ok in H as ([e r1] & H1 & H).
    apply result_bind_Ok in H as ([es' r2] & H2 & H). simplify_eq.
    destruct (Hv r e r1) as (info & o1 & Ho1); [lia | done |].
    apply Hs in H1 as (c & -> & Hc). rewrite slength_app in Hr.
    destruct h as [|h]; [lia|].
    destruct (IH h r1 es') as [o2 Ho2]; [destruct c; cbn in *; [done|lia] | lia | done |].
    exists (o1 +:+ o2). cbn [copyElems]. destruct (Z.leb_spec (Z.of_nat (S k)) 0); [lia|].
    rewrite Ho1. cbn. replace (Z.of_nat (S k) - 1) with (Z.of_nat k) by lia. by rewrite Ho2.
Qed.

Lemma copyFrame_readValue B f f' inp v rest :
  (String.length inp < f')%nat -> readValue B f inp = Ok (v, rest) ->
  exists out, copyFrame B f' inp = Ok (mkFrameInfo (VType v) (VNull v), out, rest).
Proof.
  revert f' inp v rest. induction f as [|f IH]; intros f' inp v rest Hl H; cbn [readValue] in H; [discriminate|].
  destruct f' as [|f']; [lia|]. cbn [copyFrame].
  apply result_bind_Ok in H as ([line r] & Hr & H). rewrite Hr. cbn [mbind result_bind].
  pose proof (readLine_length _ _ _ _ Hr) as Hlen.
  destruct line as [|t body]; [discriminate|]. cbn in Hlen. destruct (kind_of t) eqn:Ek; [| | |discriminate].
  - destruct (Ascii.eqb_spec t "_") as [->|_]; [by simplify_eq; eauto|].
    destruct (Ascii.eqb_spec t ":") as [->|_]; [|by simplify_eq; eauto].
    apply result_bind_Ok in H as (n & _ & H). by simplify_eq; eauto.
  - assert (Ascii.eqb t "_" = false) as -> by (by destruct (Ascii.eqb_spec t "_") as [->|]).
    apply result_bind_Ok in H as (n & -> & H). cbn [mbind result_bind].
    destruct (n <? 0) eqn:En; [by simplify_eq; eauto|].
    destruct (maxBulk <? n); [discriminate|]. to_prop.
    apply result_bind_Ok in H as ([b r'] & Hb & H). simplify_eq.
    apply ReadFull_inv in Hb as [-> Hb]; [|lia].
    exists ((String t body +:+ CRLF) +:+ b). unfold CopyN. rewrite slen_app.
    pose proof (slen_nonneg rest). destruct (Z.ltb_spec (slen b + slen rest) (n + 2)); [lia|].
    rewrite <- Hb. unfold slen. by rewrite Nat2Z.id, stake_app, sdrop_app.
  - assert (Ascii.eqb t "_" = false) as -> by (by destruct (Ascii.eqb_spec t "_") as [->|]).
    apply result_bind_Ok in H as (n & -> & H). cbn [mbind result_bind].
    destruct (n <? 0) eqn:En; [by simplify_eq; eauto|].
    revert H. generalize (if is_pair_type t then i64 (n * 2) else n). intros m H.
    destruct (maxReplyElems <? m); [discriminate|].
    destruct (Z.min m 1024 <? 0) eqn:Em; [discriminate|]. to_prop.
    apply result_bind_Ok in H as ([es r'] & He & H).
    pose proof (readElems_suffix _ _ _ _ _ ltac:(intros ???; apply readValue_suffix) He) as [c Hc].
    destruct (copyElems_readElems (copyFrame B f') (readValue B f) (S (String.length r)) (Z.to_nat m) r es r')
      as [o Ho]; [intros ???; apply readValue_suffix | | lia | done |].
    { intros inp' v' rest' Hi Hv. destruct (IH f' inp' v' rest') as [o Ho]; [lia | done | eauto]. }
    rewrite Z2Nat.id in Ho by lia. rewrite Ho. cbn [mbind result_bind].
    destruct (Ascii.eqb t "|"); [|by simplify_eq; eauto].
    destruct (IH f' r' v rest) as [o2 Ho2]; [subst r; rewrite slength_app in Hlen; lia | done |].
    rewrite Ho2. cbn. eauto.
Qed.

(** *** Encoding *)

Definition allP (P : Value -> Prop) : list Value -> Prop :=
  fix go (l : list Value) : Prop := match l with [] => True | e :: l' => P e /\ go l' end.

(** The values [EncodeValue] and [ReadValue] are inverse on: fields a type
    does not carry are zero, lines have no newline and fit the read buffer. *)
Fixpoint wf_value (B : nat) (v : Value) : Prop :=
  match v with
  | mkValue t s i es null =>
      if null then s = "" /\ i = 0 /\ es = [] /\ (t = "_"%char \/ kind_of t = FBulk \/ kind_of t = FAgg)
      else match kind_of t with
           | FLine =>
               es = [] /\
               if Ascii.eqb t ":" then s = "" /\ is_i64 i
               else t <> "_"%char /\ i = 0 /\ IndexByte s LF = None /\ (String.length s + 3 <= B)%nat
           | FBulk => i = 0 /\ es = [] /\ slen s <= maxBulk
           | FAgg =>
               t <> "|"%char /\ s = "" /\ i = 0 /\ Z.of_nat (length es) <= maxReplyElems /\
               (t = "%"%char -> exists k, length es = (2 * k)%nat) /\ allP (wf_value B) es
           | FOther => False
           end
  end.

Lemma Value_nested_ind (P : Value -> Prop) :
  (forall t s i es null, Forall P es -> P (mkValue t s i es null)) -> forall v, P v.
Proof.
  intros H. fix IH 1. intros [t s i es null]. apply H.
  induction es as [|e es IHes]; constructor; [apply IH | exact IHes].
Qed.

Lemma kind_not_LF t : kind_of t <> FOther -> t <> LF.
Proof. intros H ->. by apply H. Qed.

Lemma readElems_encodeAll (value : string -> result rerr (Value * string)) es s rest g :
  (forall e se rest', e ∈ es -> EncodeValue e = Some se -> (String.length se + String.length rest' < g)%nat ->
     value (se +:+ rest') = Ok (e, rest')) ->
  encodeAll EncodeValue es = Some s -> (String.length s + String.length rest < g)%nat ->
  readElems value (length es) (s +:+ rest) = Ok (es, rest).
Proof.
  revert s rest. induction es as [|e es IH]; intros s rest Hv Hs Hg; cbn in Hs; [by simplify_eq|].
  destruct (EncodeValue e) as [a|] eqn:Ea; cbn in Hs; [|discriminate].
  destruct (encodeAll EncodeValue es) as [b|] eqn:Eb; cbn in Hs; [|discriminate]. simplify_eq.
  rewrite slength_app in Hg. rewrite sapp_assoc. cbn [length readElems].
  rewrite (Hv e a); [|apply list_elem_of_here | done | rewrite slength_app; lia]. cbn [mbind result_bind].
  rewrite IH; [done | | done | lia].
  intros e' se rest' He. apply Hv. by apply list_elem_of_further.
Qed.

Lemma allP_Forall P es : allP P es <-> Forall P es.
Proof. induction es; cbn; rewrite ?Forall_cons; intuition. Qed.

Lemma encodeAll_is_Some es :
  Forall (fun e => is_Some (EncodeValue e)) es -> is_Some (encodeAll EncodeValue es).
Proof.
  induction 1 as [|e es [a Ha] _ [b Hb]]; cbn; [eauto|]. rewrite Ha. cbn. rewrite Hb. cbn. eauto.
Qed.

Lemma EncodeValue_is_Some B v : wf_value B v -> is_Some (EncodeValue v).
Proof.
  induction v as [t s i es null IH] using Value_nested_ind. cbn [wf_value EncodeValue].
  destruct null; [destruct (Ascii.eqb t "_"); eauto|].
  destruct (kind_of t) eqn:Ek; [ | eauto | | done].
  - intros [_ H]. destruct (Ascii.eqb_spec t "_") as [->|]; [by destruct H|].
    destruct (Ascii.eqb t ":"); eauto.
  - intros (Ht & _ & _ & _ & _ & Hall). destruct (Ascii.eqb_spec t "|"); [done|].
    destruct (encodeAll_is_Some es) as [b Hb]; [|rewrite Hb; cbn; eauto].
    apply allP_Forall in Hall. rewrite Forall_forall in *. naive_solver.
Qed.

(** One lemma per family of frames, for any fuel that is left. *)
Section encode.
Context (B : nat) (HB : (24 <= B)%nat).

Lemma readValue_null t rest f :
  t = "_"%char \/ kind_of t = FBulk \/ kind_of t = FAgg ->
  readValue B (S f) ((if Ascii.eqb t "_" then "_" +:+ CRLF else String t ("-1" +:+ CRLF)) +:+ rest)
  = Ok (mkValue t "" 0 [] true, rest).
Proof.
  intros Ht. cbn [readValue]. destruct (Ascii.eqb_spec t "_") as [->|Hn].
  - rewrite sapp_assoc. rewrite readLine_ok by (done || cbn; lia). done.
  - change (String t ("-1" +:+ CRLF) +:+ rest) with (String t (FormatInt (-1) +:+ CRLF +:+ rest)).
    assert (kind_of t = FBulk \/ kind_of t = FAgg) as Hk by tauto.
    rewrite readLine_header; [|apply kind_not_LF; intuition congruence | done].
    cbn [mbind result_bind]. destruct Hk as [-> | ->]; done.
Qed.

Lemma readValue_line t s rest f :
  kind_of t = FLine -> t <> "_"%char -> t <> ":"%char ->
  IndexByte s LF = None -> (String.length s + 3 <= B)%nat ->
  readValue B (S f) (String t (s +:+ CRLF) +:+ rest) = Ok (mkValue t s 0 [] false, rest).
Proof.
  intros Ek Hu Hc Hs Hl.
  change (String t (s +:+ CRLF) +:+ rest) with ((String t s +:+ CRLF) +:+ rest). rewrite sapp_assoc.
  cbn [readValue]. rewrite readLine_ok; [ | | cbn; lia].
  - cbn [mbind result_bind]. rewrite Ek.
    destruct (Ascii.eqb_spec t "_"); [done|]. by destruct (Ascii.eqb_spec t ":").
  - cbn. destruct (Ascii.eqb_spec t LF); [by subst | by rewrite Hs].
Qed.

Lemma readValue_int i rest f :
  is_i64 i -> readValue B (S f) (String ":" (FormatInt i +:+ CRLF) +:+ rest) = Ok (mkValue ":" "" i [] false, rest).
Proof.
  intros Hi. change (String ":" (FormatInt i +:+ CRLF) +:+ rest)
    with (String ":" ((FormatInt i +:+ CRLF) +:+ rest)). rewrite sapp_assoc. cbn [readValue].
  rewrite readLine_header by done. cbn [mbind result_bind]. unfold parseInt.
  by rewrite ParseInt_FormatInt by done.
Qed.

Lemma readValue_bulk t s rest f :
  kind_of t = FBulk -> slen s <= maxBulk ->
  readValue B (S f) (String t (FormatInt (slen s) +:+ CRLF +:+ s +:+ CRLF) +:+ rest)
  = Ok (mkValue t s 0 [] false, rest).
Proof.
  intros Ek Hs. cbn [String.append readValue]. rewrite !sapp_assoc.
  rewrite readLine_header; [|apply kind_not_LF; congruence | done]. cbn [mbind result_bind].
  rewrite Ek. unfold parseInt. pose proof (slen_nonneg s).
  rewrite ParseInt_FormatInt by (unfold is_i64, maxBulk in *; lia). cbn [mbind result_bind].
  destruct (Z.ltb_spec (slen s) 0); [lia|]. destruct (Z.ltb_spec maxBulk (slen s)); [lia|].
  rewrite <- sapp_assoc. replace (slen s + 2) with (slen (s +:+ CRLF)) by (by rewrite slen_app).
  rewrite ReadFull_ok. cbn [mbind result_bind]. unfold slen. by rewrite Nat2Z.id, stake_app.
Qed.

(** The number a header carries, doubled back for a map. *)
Lemma header_count t (k : nat) :
  Z.of_nat k <= maxReplyElems -> t <> "|"%char -> (t = "%"%char -> exists j, k = (2 * j)%nat) ->
  let n := if Ascii.eqb t "%" then Z.of_nat k / 2 else Z.of_nat k in
  0 <= n <= 2^20 /\ (if is_pair_type t then i64 (n * 2) else n) = Z.of_nat k.
Proof.
  unfold maxReplyElems, is_pair_type. intros Hk Ht Hev. cbn zeta.
  destruct (Ascii.eqb_spec t "%") as [->|]; [|by destruct (Ascii.eqb_spec t "|"); [|split; [lia|]]].
  destruct (Hev eq_refl) as [j ->]. cbn [orb].
  replace (Z.of_nat (2 * j) / 2) with (Z.of_nat j) by (apply Z.div_unique with 0; lia).
  split; [lia|]. rewrite i64_id; unfold is_i64; lia.
Qed.

Lemma readValue_agg t es b rest f :
  kind_of t = FAgg -> t <> "|"%char -> Z.of_nat (length es) <= maxReplyElems ->
  (t = "%"%char -> exists k, length es = (2 * k)%nat) ->
  readElems (readValue B f) (length es) (b +:+ rest) = Ok (es, rest) ->
  readValue B (S f) (String t (FormatInt (if Ascii.eqb t "%" then Z.of_nat (length es) / 2
                                          else Z.of_nat (length es)) +:+ CRLF +:+ b) +:+ rest)
  = Ok (mkValue t "" 0 es false, rest).
Proof.
  intros Ek Ht Hn Hev Hes. destruct (header_count t (length es) Hn Ht Hev) as [Hrange Hdbl].
  cbn [String.append readValue]. rewrite !sapp_assoc.
  rewrite readLine_header; [|apply kind_not_LF; congruence | done]. cbn [mbind result_bind].
  rewrite Ek. unfold parseInt. rewrite ParseInt_FormatInt by (unfold is_i64; lia). cbn [mbind result_bind].
  destruct (Z.ltb_spec (if Ascii.eqb t "%" then Z.of_nat (length es) / 2 else Z.of_nat (length es)) 0); [lia|].
  rewrite Hdbl. destruct (Z.ltb_spec maxReplyElems (Z.of_nat (length es))); [lia|].
  destruct (Z.ltb_spec (Z.min (Z.of_nat (length es)) 1024) 0); [lia|]. rewrite Nat2Z.id, Hes.
  cbn [mbind result_bind]. by destruct (Ascii.eqb_spec t "|").
Qed.

Lemma readValue_EncodeValue v :
  wf_value B v ->
  forall s rest f, EncodeValue v = Some s -> (String.length s + String.length rest < f)%nat ->
  readValue B f (s +:+ rest) = Ok (v, rest).
Proof.
  induction v as [t s i es null IH] using Value_nested_ind.
  intros Hwf out rest f He Hf. destruct f as [|f]; [lia|].
  cbn [wf_value EncodeValue] in Hwf, He. destruct null.
  { destruct Hwf as (-> & -> & -> & Ht). pose proof (readValue_null t rest f Ht) as Hr.
    destruct (Ascii.eqb t "_"); simplify_eq; exact Hr. }
  destruct (kind_of t) eqn:Ek; [ | | | done].
  - destruct Hwf as [-> Hwf]. destruct (Ascii.eqb_spec t ":") as [->|Hn].
    + destruct Hwf as [-> Hi]. cbn in He. simplify_eq. by apply readValue_int.
    + destruct Hwf as (Hu & -> & Hs & Hl). destruct (Ascii.eqb_spec t "_"); [done|]. simplify_eq.
      by apply readValue_line.
  - destruct Hwf as (-> & -> & Hs). simplify_eq. by apply readValue_bulk.
  - destruct Hwf as (Ht & -> & -> & Hn & Hev & Hall). destruct (Ascii.eqb_spec t "|"); [done|].
    destruct (encodeAll EncodeValue es) as [b|] eqn:Eb; cbn in He; [|discriminate]. simplify_eq.
    apply readValue_agg; [done..|].
    apply (readElems_encodeAll _ es b rest f); [ | done | cbn in Hf; rewrite !slength_app in Hf; lia].
    intros e se rest' He Hse Hlt. rewrite Forall_forall in IH. apply IH; auto.
    apply allP_Forall in Hall. rewrite Forall_forall in Hall. auto.
Qed.

End encode.

(** ** Properties *)

(** C35: a command written with [WriteCommand] and read back under limits it
    respects is the same argument list, and exactly its bytes are consumed
    whatever follows on the stream. *)
Theorem command_roundtrip (B : nat) (lim : Limits) (args : list string) (rest : string) :
  (24 <= B)%nat -> MaxBulk lim < 2^63 -> MaxArgs lim < 2^63 ->
  Z.of_nat (length args) <= MaxArgs lim ->
  Forall (fun a => slen a <= MaxBulk lim) args -> total args <= MaxTotal lim ->
  ReadCommandLimits B lim (WriteCommand args +:+ rest) = Ok (args, rest).
Proof. apply ReadCommand_WriteCommand. Qed.

Lemma command_roundtrip_witness :
  ReadCommandLimits 4096 PreAuthLimits (WriteCommand ["AUTH"; "mac1"; "a b"] +:+ "*1") =
  Ok (["AUTH"; "mac1"; "a b"], "*1").
Proof.
  apply (command_roundtrip 4096 PreAuthLimits ["AUTH"; "mac1"; "a b"] "*1");
    [lia | vm_compute; done | vm_compute; done | vm_compute; done | | vm_compute; done].
  repeat constructor; vm_compute; done.
Defined.

(** Whatever bytes a client sends, a command that is accepted has at most
    [MaxArgs] arguments and at most [MaxTotal] argument bytes: the limits hold
    for RESP arrays and for inline commands alike. *)
Theorem command_limits (B : nat) (lim : Limits) (inp rest : string) (args : list string) :
  0 <= MaxArgs lim -> 0 <= MaxTotal lim ->
  ReadCommandLimits B lim inp = Ok (args, rest) ->
  Z.of_nat (length args) <= MaxArgs lim /\ total args <= MaxTotal lim.
Proof. apply ReadCommandLimits_bounds. Qed.

Lemma command_limits_witness :
  Z.of_nat (length ["PING"; "x"]) <= 10 /\ total ["PING"; "x"] <= 16384.
Proof.
  apply (command_limits 4096 PreAuthLimits (" PING  x" +:+ CRLF +:+ "tail") "tail" ["PING"; "x"]);
    [vm_compute; done | vm_compute; done | vm_compute; reflexivity].
Defined.

(** [CopyFrame] is transparent: when it reports a reply, what it wrote to
    the client followed by what it left unread is exactly the upstream byte
    stream, and it consumed at least one byte. *)
Theorem copy_frame_transparent (B : nat) (inp out rest : string) (info : FrameInfo) :
  CopyFrame B inp = Ok (info, out, rest) -> out +:+ rest = inp /\ out <> "".
Proof. intros H. apply copyFrame_inv in H as [-> ?]. auto. Qed.

Lemma copy_frame_transparent_witness :
  (("*1" +:+ CRLF +:+ ":7" +:+ CRLF) +:+ "+OK" = "*1" +:+ CRLF +:+ ":7" +:+ CRLF +:+ "+OK") /\
  "*1" +:+ CRLF +:+ ":7" +:+ CRLF <> "".
Proof.
  apply (copy_frame_transparent 64 ("*1" +:+ CRLF +:+ ":7" +:+ CRLF +:+ "+OK")
           ("*1" +:+ CRLF +:+ ":7" +:+ CRLF) "+OK" (mkFrameInfo "*" false)).
  vm_compute. reflexivity.
Defined.

(** Reading replies terminates: on every input, with any non-empty
    buffer, the copier and the parser come to a frame or to a real stream
    error, never to the end of the model's fuel. *)
Theorem reply_readers_terminate (B : nat) (inp : string) :
  (0 < B)%nat -> CopyFrame B inp <> Err ErrFuel /\ ReadValue B inp <> Err ErrFuel.
Proof. intros HB. split; [apply copyFrame_fuel | apply readValue_fuel]; lia. Qed.

Lemma reply_readers_terminate_witness :
  CopyFrame 64 ("*9" +:+ CRLF) <> Err ErrFuel /\ ReadValue 64 ("*9" +:+ CRLF) <> Err ErrFuel.
Proof. apply (reply_readers_terminate 64 ("*9" +:+ CRLF)). lia. Defined.

(** The copier and the parser agree: whenever [ReadValue] parses a reply,
    [CopyFrame] on the same stream stops at the same byte and reports the same
    type and nullness.  The proxy relies on this when it tees a reply through
    both. *)
Theorem copy_agrees_with_parse (B : nat) (inp rest : string) (v : Value) :
  ReadValue B inp = Ok (v, rest) ->
  exists out, CopyFrame B inp = Ok (mkFrameInfo (VType v) (VNull v), out, rest).
Proof. intros H. eapply copyFrame_readValue; [|exact H]. lia. Qed.

Lemma copy_agrees_with_parse_witness :
  exists out, CopyFrame 64 ("|1" +:+ CRLF +:+ "+k" +:+ CRLF +:+ ":1" +:+ CRLF +:+ "$-1" +:+ CRLF +:+ "x")
              = Ok (mkFrameInfo "$" true, out, "x").
Proof.
  apply (copy_agrees_with_parse 64 _ "x" (mkValue "$" "" 0 [] true)). vm_compute. reflexivity.
Defined.

(** [EncodeValue] and [ReadValue] are inverse on well-formed values: every
    such value has an encoding, and parsing it in front of any suffix gives the
    value back and leaves the suffix. *)
Theorem value_roundtrip (B : nat) (v : Value) (rest : string) :
  (24 <= B)%nat -> wf_value B v ->
  exists s, EncodeValue v = Some s /\ ReadValue B (s +:+ rest) = Ok (v, rest).
Proof.
  intros HB Hwf. destruct (EncodeValue_is_Some B v Hwf) as [s Hs]. exists s. split; [done|].
  apply readValue_EncodeValue; [done | done | done | rewrite slength_app; lia].
Qed.

Lemma value_roundtrip_witness :
  exists s, EncodeValue (mkValue "%" "" 0 [mkValue "+" "k" 0 [] false; mkValue ":" "" (-3) [] false] false) = Some s /\
    ReadValue 64 (s +:+ "z") =
    Ok (mkValue "%" "" 0 [mkValue "+" "k" 0 [] false; mkValue ":" "" (-3) [] false] false, "z").
Proof.
  apply (value_roundtrip 64); [lia|]. cbn. unfold is_i64, maxReplyElems.
  split_and!; try done; try lia. intros _. by exists 1%nat.
Defined.

(** A map or attribute header of 2^62 or more elements wraps the doubled
    count to a negative number, passes the [maxReplyElems] check and makes
    [ReadValue] panic in [make] instead of returning a protocol error. *)
Theorem read_value_wrapped_header (B : nat) (t : ascii) (n : Z) (rest : string) :
  (24 <= B)%nat -> t = "%"%char \/ t = "|"%char -> 2^62 <= n < 2^63 ->
  ReadValue B (String t (FormatInt n +:+ CRLF +:+ rest)) = Err ErrMakeslice.
Proof.
  intros HB Ht Hn. unfold ReadValue. cbn [readValue].
  rewrite readLine_header by (done || (destruct Ht; subst; done)). cbn [mbind result_bind].
  unfold parseInt. rewrite ParseInt_FormatInt by (unfold is_i64; lia).
  assert (Hw : i64 (n * 2) = n * 2 - 2^64).
  { unfold i64. replace (n * 2 + 2^63) with (n * 2 - 2^63 + 1 * 2^64) by lia.
    rewrite Z.mod_add, Z.mod_small; lia. }
  assert (kind_of t = FAgg /\ is_pair_type t = true) as [-> ->] by (by destruct Ht; subst).
  cbn [mbind result_bind]. destruct (Z.ltb_spec n 0); [lia|]. rewrite Hw.
  destruct (Z.ltb_spec maxReplyElems (n * 2 - 2^64)); [unfold maxReplyElems in *; lia|].
  by destruct (Z.ltb_spec (Z.min (n * 2 - 2^64) 1024) 0); [|lia].
Qed.

Lemma read_value_wrapped_header_witness :
  ReadValue 64 (String "%" (FormatInt 4611686018427387904 +:+ CRLF +:+ "")) = Err ErrMakeslice.
Proof. apply (read_value_wrapped_header 64); [lia | by left | lia]. Defined.
