(* ===== verification/Classify.v ===== *)
(** * Command and key classification (internal/respproxy/classify.go)

    What the proxy thinks a command is: its class, the keys it touches and
    the JuiceFS shape of each key.  Every later gate reads only this, so the
    theorems here say when the classification is unambiguous.

    A Go slice expression out of range is a run-time panic that nothing
    recovers, and it ends the process; functions that can reach one return an
    [option], [None] being the panic. *)

From S2P Require Import Prelude GoLib Sha1.

Inductive Class : Type :=
  | ClassRead | ClassWrite | ClassTxn | ClassConn | ClassPubSub | ClassPublish
  | ClassScript | ClassAdmin | ClassAdminW | ClassForbidden | ClassLocal | ClassUnknown.

#[export] Instance Class_eq_dec : EqDecision Class.
Proof. solve_decision. Defined.

(** Key positions in argv: [last < 0] counts from the end, [step = 0] is no
    key. *)
Record keySpec : Type := mkSpec { ks_first : nat; ks_last : Z; ks_step : nat }.

Definition k1 : keySpec := mkSpec 1 1 1.
Definition kAll : keySpec := mkSpec 1 (-1) 1.
Definition kPair : keySpec := mkSpec 1 (-1) 2.
Definition k12 : keySpec := mkSpec 1 2 1.
Definition kBlock : keySpec := mkSpec 1 (-2) 1.
Definition kNone : keySpec := mkSpec 0 0 0.

(** A Go map literal with string keys. *)
Fixpoint assoc {A} (k : string) (l : list (string * A)) : option A :=
  match l with
  | [] => None
  | (k', v) :: l' => if k =s k' then Some v else assoc k l'
  end.

Definition commands : list (string * (Class * keySpec)) :=
  [("GET", (ClassRead, k1)); ("MGET", (ClassRead, kAll)); ("EXISTS", (ClassRead, kAll));
   ("TYPE", (ClassRead, k1)); ("TTL", (ClassRead, k1)); ("PTTL", (ClassRead, k1));
   ("EXPIRETIME", (ClassRead, k1)); ("PEXPIRETIME", (ClassRead, k1)); ("STRLEN", (ClassRead, k1));
   ("GETRANGE", (ClassRead, k1)); ("SUBSTR", (ClassRead, k1)); ("HGET", (ClassRead, k1));
   ("HMGET", (ClassRead, k1)); ("HGETALL", (ClassRead, k1)); ("HEXISTS", (ClassRead, k1));
   ("HKEYS", (ClassRead, k1)); ("HVALS", (ClassRead, k1)); ("HLEN", (ClassRead, k1));
   ("HSCAN", (ClassRead, k1)); ("HSTRLEN", (ClassRead, k1)); ("HRANDFIELD", (ClassRead, k1));
   ("HTTL", (ClassRead, k1)); ("HPTTL", (ClassRead, k1)); ("LRANGE", (ClassRead, k1));
   ("LLEN", (ClassRead, k1)); ("LINDEX", (ClassRead, k1)); ("LPOS", (ClassRead, k1));
   ("SMEMBERS", (ClassRead, k1)); ("SISMEMBER", (ClassRead, k1)); ("SMISMEMBER", (ClassRead, k1));
   ("SCARD", (ClassRead, k1)); ("SSCAN", (ClassRead, k1)); ("SRANDMEMBER", (ClassRead, k1));
   ("SINTER", (ClassRead, kAll)); ("SUNION", (ClassRead, kAll)); ("SDIFF", (ClassRead, kAll));
   ("ZRANGE", (ClassRead, k1)); ("ZRANGEBYSCORE", (ClassRead, k1)); ("ZREVRANGE", (ClassRead, k1));
   ("ZREVRANGEBYSCORE", (ClassRead, k1)); ("ZSCORE", (ClassRead, k1)); ("ZMSCORE", (ClassRead, k1));
   ("ZCARD", (ClassRead, k1)); ("ZCOUNT", (ClassRead, k1)); ("ZSCAN", (ClassRead, k1));
   ("ZRANK", (ClassRead, k1)); ("ZREVRANK", (ClassRead, k1)); ("ZRANGEBYLEX", (ClassRead, k1));
   ("ZLEXCOUNT", (ClassRead, k1)); ("SCAN", (ClassRead, kNone)); ("KEYS", (ClassRead, kNone));
   ("RANDOMKEY", (ClassRead, kNone)); ("DUMP", (ClassRead, k1)); ("OBJECT", (ClassRead, kNone));
   ("MEMORY", (ClassRead, kNone)); ("DBSIZE", (ClassAdmin, kNone)); ("LASTSAVE", (ClassAdmin, kNone));
   ("ROLE", (ClassAdmin, kNone)); ("WAIT", (ClassAdmin, kNone)); ("WAITAOF", (ClassAdmin, kNone));
   ("LOLWUT", (ClassAdmin, kNone)); ("SET", (ClassWrite, k1)); ("SETNX", (ClassWrite, k1));
   ("SETEX", (ClassWrite, k1)); ("PSETEX", (ClassWrite, k1)); ("MSET", (ClassWrite, kPair));
   ("MSETNX", (ClassWrite, kPair)); ("GETSET", (ClassWrite, k1)); ("GETDEL", (ClassWrite, k1));
   ("GETEX", (ClassWrite, k1)); ("APPEND", (ClassWrite, k1)); ("SETRANGE", (ClassWrite, k1));
   ("INCR", (ClassWrite, k1)); ("INCRBY", (ClassWrite, k1)); ("DECR", (ClassWrite, k1));
   ("DECRBY", (ClassWrite, k1)); ("INCRBYFLOAT", (ClassWrite, k1)); ("DEL", (ClassWrite, kAll));
   ("UNLINK", (ClassWrite, kAll)); ("EXPIRE", (ClassWrite, k1)); ("PEXPIRE", (ClassWrite, k1));
   ("EXPIREAT", (ClassWrite, k1)); ("PEXPIREAT", (ClassWrite, k1)); ("PERSIST", (ClassWrite, k1));
   ("RENAME", (ClassWrite, k12)); ("RENAMENX", (ClassWrite, k12)); ("COPY", (ClassWrite, k12));
   ("HSET", (ClassWrite, k1)); ("HSETNX", (ClassWrite, k1)); ("HMSET", (ClassWrite, k1));
   ("HDEL", (ClassWrite, k1)); ("HINCRBY", (ClassWrite, k1)); ("HINCRBYFLOAT", (ClassWrite, k1));
   ("HEXPIRE", (ClassWrite, k1)); ("HPEXPIRE", (ClassWrite, k1)); ("HPERSIST", (ClassWrite, k1));
   ("RPUSH", (ClassWrite, k1)); ("LPUSH", (ClassWrite, k1)); ("RPUSHX", (ClassWrite, k1));
   ("LPUSHX", (ClassWrite, k1)); ("LTRIM", (ClassWrite, k1)); ("LPOP", (ClassWrite, k1));
   ("RPOP", (ClassWrite, k1)); ("LSET", (ClassWrite, k1)); ("LREM", (ClassWrite, k1));
   ("LINSERT", (ClassWrite, k1)); ("LMOVE", (ClassWrite, k12)); ("RPOPLPUSH", (ClassWrite, k12));
   ("BLMOVE", (ClassWrite, k12)); ("BRPOPLPUSH", (ClassWrite, k12)); ("BLPOP", (ClassWrite, kBlock));
   ("BRPOP", (ClassWrite, kBlock)); ("SADD", (ClassWrite, k1)); ("SREM", (ClassWrite, k1));
   ("SPOP", (ClassWrite, k1)); ("SMOVE", (ClassWrite, k12)); ("ZADD", (ClassWrite, k1));
   ("ZREM", (ClassWrite, k1)); ("ZINCRBY", (ClassWrite, k1)); ("ZREMRANGEBYSCORE", (ClassWrite, k1));
   ("ZREMRANGEBYRANK", (ClassWrite, k1)); ("ZREMRANGEBYLEX", (ClassWrite, k1));
   ("ZPOPMIN", (ClassWrite, k1)); ("ZPOPMAX", (ClassWrite, k1)); ("BZPOPMIN", (ClassWrite, kBlock));
   ("BZPOPMAX", (ClassWrite, kBlock)); ("FLUSHDB", (ClassAdminW, kNone)); ("FLUSHALL", (ClassAdminW, kNone));
   ("RESTORE", (ClassAdminW, kNone)); ("MIGRATE", (ClassAdminW, kNone)); ("MOVE", (ClassAdminW, kNone));
   ("SWAPDB", (ClassAdminW, kNone)); ("DEBUG", (ClassAdminW, kNone)); ("SHUTDOWN", (ClassAdminW, kNone));
   ("ACL", (ClassAdminW, kNone)); ("SAVE", (ClassAdminW, kNone)); ("BGSAVE", (ClassAdminW, kNone));
   ("BGREWRITEAOF", (ClassAdminW, kNone)); ("REPLICAOF", (ClassAdminW, kNone));
   ("SLAVEOF", (ClassAdminW, kNone)); ("MODULE", (ClassAdminW, kNone)); ("FUNCTION", (ClassAdminW, kNone));
   ("FCALL", (ClassAdminW, kNone)); ("FCALL_RO", (ClassAdminW, kNone)); ("SORT", (ClassAdminW, kNone));
   ("SORT_RO", (ClassRead, k1)); ("SLOWLOG", (ClassAdminW, kNone)); ("LATENCY", (ClassAdminW, kNone));
   ("FAILOVER", (ClassAdminW, kNone)); ("SUNIONSTORE", (ClassAdminW, kNone));
   ("SINTERSTORE", (ClassAdminW, kNone)); ("SDIFFSTORE", (ClassAdminW, kNone));
   ("ZUNIONSTORE", (ClassAdminW, kNone)); ("ZINTERSTORE", (ClassAdminW, kNone));
   ("ZDIFFSTORE", (ClassAdminW, kNone)); ("ZRANGESTORE", (ClassAdminW, kNone));
   ("GEOADD", (ClassAdminW, kNone)); ("PFADD", (ClassAdminW, kNone)); ("XADD", (ClassAdminW, kNone));
   ("BITOP", (ClassAdminW, kNone)); ("SETBIT", (ClassAdminW, kNone)); ("MULTI", (ClassTxn, kNone));
   ("EXEC", (ClassTxn, kNone)); ("DISCARD", (ClassTxn, kNone)); ("WATCH", (ClassTxn, kAll));
   ("UNWATCH", (ClassTxn, kNone)); ("HELLO", (ClassConn, kNone)); ("AUTH", (ClassConn, kNone));
   ("SELECT", (ClassConn, kNone)); ("CLIENT", (ClassConn, kNone)); ("PING", (ClassConn, kNone));
   ("ECHO", (ClassConn, kNone)); ("QUIT", (ClassConn, kNone)); ("COMMAND", (ClassConn, kNone));
   ("READONLY", (ClassConn, kNone)); ("READWRITE", (ClassConn, kNone)); ("TIME", (ClassConn, kNone));
   ("RESET", (ClassForbidden, kNone)); ("MONITOR", (ClassForbidden, kNone));
   ("SYNC", (ClassForbidden, kNone)); ("PSYNC", (ClassForbidden, kNone));
   ("REPLCONF", (ClassForbidden, kNone)); ("SUBSCRIBE", (ClassPubSub, kNone));
   ("PSUBSCRIBE", (ClassPubSub, kNone)); ("UNSUBSCRIBE", (ClassPubSub, kNone));
   ("PUNSUBSCRIBE", (ClassPubSub, kNone)); ("SSUBSCRIBE", (ClassPubSub, kNone));
   ("SUNSUBSCRIBE", (ClassPubSub, kNone)); ("PUBSUB", (ClassRead, kNone));
   ("PUBLISH", (ClassPublish, kNone)); ("SPUBLISH", (ClassPublish, kNone));
   ("EVALSHA", (ClassScript, kNone)); ("EVAL", (ClassScript, kNone)); ("EVALSHA_RO", (ClassScript, kNone));
   ("EVAL_RO", (ClassScript, kNone)); ("INFO", (ClassAdmin, kNone)); ("CLUSTER", (ClassAdmin, kNone))].

(** SHA-1 of every Lua body a non-server principal may run. *)
Definition AllowedScripts : list (string * string) :=
  [("8526c64984678fc27f67f44755c8ba7dcdf7ea60", "juicefs scriptLookup (third_party/juicefs/pkg/meta/lua_scripts.go)");
   ("0547fa97c6a6bebfe522a4137b43f2d50eb9216a", "juicefs scriptResolve (third_party/juicefs/pkg/meta/lua_scripts.go)");
   ("92d41a73b32a68ac03c1f7ce2910ed9a4ea2813c", "metadata luaScanBatch (metadata/redis.go)");
   ("1767fecff3ce885cc018ce3379c55a434f577aa1", "metadata parentReadProofLua (metadata/parent_read_proof.lua)");
   ("79760dcca4c279536b7667347e86d589d2903917", "cache boundMappingLua (cache/volume.go)");
   ("70871faf1a8e776fa9dd0d48552178f9aa5c5384", "cache boundMappingAttrLua (cache/volume.go)");
   ("116ebec64bd055ba335345057adcf93bdfe298b9", "cache boundedPrepareMappingAttrLua (cache/volume.go)");
   ("251df9c21a32cbd8e343158f9a65c863357fac06", "cache ReadVolumeBinding inline script (cache/volume.go)")].

Definition script_allowed (sha : string) : bool :=
  match assoc sha AllowedScripts with Some d => negb (d =s "") | None => false end.

Definition ScriptSHA (body : string) : string := sha1_hex body.

(** [None] is the source's [("", false)]: not a subcommand-sensitive name. *)
Definition classifySub (name : string) (args : list string) : option Class :=
  if negb (bool_decide (name ∈ ["CONFIG"; "SCRIPT"; "CLIENT"])) then None
  else match args with
  | _ :: a1 :: _ =>
      let sub := ToUpper a1 in
      if name =s "CONFIG" then
        if sub =s "GET" then Some ClassAdmin else Some ClassAdminW
      else if name =s "SCRIPT" then
        if sub =s "EXISTS" then Some ClassAdmin
        else if sub =s "LOAD" then
          match args with
          | [_; _; a2] => if script_allowed (ScriptSHA a2) then Some ClassAdmin else Some ClassScript
          | _ => Some ClassScript
          end
        else Some ClassAdminW
      else if name =s "CLIENT" then
        if bool_decide (sub ∈ ["SETINFO"; "SETNAME"; "GETNAME"; "ID"; "INFO"; "LIST"; "GETREDIR";
                               "TRACKINGINFO"; "MAINT_NOTIFICATIONS"]) then Some ClassConn
        else if bool_decide (sub ∈ ["REPLY"; "TRACKING"; "CACHING"]) then Some ClassForbidden
        else Some ClassAdminW
      else None
  | _ => Some ClassUnknown
  end.

(** ** Key shapes *)
Definition ShapeInode : string := "i<ino>".
Definition ShapeDentry : string := "d<ino>".
Definition ShapeParent : string := "p<ino>".
Definition ShapeXattr : string := "x<ino>".
Definition ShapeSymlink : string := "s<ino>".
Definition ShapeChunk : string := "c<ino>_<idx>".
Definition ShapeFlock : string := "lockf<ino>".
Definition ShapePlock : string := "lockp<ino>".
Definition ShapeLocked : string := "locked<sid>".
Definition ShapeSession : string := "session<sid>".
Definition ShapeUnknown : string := "UNKNOWN".
Definition ShapePresence : string := "jum:presence:<host>".
Definition ShapeLinkBench : string := "jm:link-bench:<nonce>".
Definition ShapeFarm : string := "juicefarm:*".
Definition ShapeJMFarm : string := "jmfarm:*".
Definition ShapeJMCtl : string := "jmctl:*".
Definition ShapeLease : string := "jmlease:*".
Definition ShapeChannel : string := "juicemount:metadata".

(** [meta.TrashInode]. *)
Definition TrashInode : Z := 0x7FFFFFFF10000000.

Definition globalKeys : list (string * string) :=
  [("setting", "admin"); ("acl", "admin");
   ("nextinode", "counter"); ("nextchunk", "counter"); ("nextsession", "counter");
   ("nextTrash", "counter"); ("usedSpace", "counter"); ("totalInodes", "counter");
   ("lastCleanupSessions", "counter");
   ("lastCleanupFiles", "bgmark"); ("lastCleanupTrash", "bgmark"); ("nextCleanupSlices", "bgmark");
   ("dirDataLength", "dirstat"); ("dirUsedSpace", "dirstat"); ("dirUsedInodes", "dirstat");
   ("dirQuotaUsedSpace", "dirstat"); ("dirQuotaUsedInodes", "dirstat");
   ("dirQuota", "quota");
   ("delfiles", "gc"); ("sliceRef", "gc"); ("delSlices", "gc"); ("detachedNodes", "gc");
   ("allSessions", "session"); ("sessionInfos", "session"); ("sessions", "session")].

Record KeyRef : Type := mkKeyRef {
  Shape : string; Group : string; Ino : Z; HasIno : bool; Trash : bool; Sid : Z; Suffix : string }.

#[export] Instance KeyRef_eq_dec : EqDecision KeyRef.
Proof. solve_decision. Defined.

Definition keyOf (shape group : string) : KeyRef := mkKeyRef shape group 0 false false 0 "".
Definition keySuffix (shape group suffix : string) : KeyRef := mkKeyRef shape group 0 false false 0 suffix.
Definition keyIno (shape group : string) (n : Z) : KeyRef :=
  mkKeyRef shape group n true (TrashInode <=? n) 0 "".
Definition keySid (shape : string) (n : Z) : KeyRef := mkKeyRef shape "session" 0 false false n "".
Definition unknownKey : KeyRef := keyOf ShapeUnknown "unknown".

(** A canonical unsigned decimal: digits only, no leading zero but "0". *)
Definition digits (b : string) : option Z :=
  match b with
  | "" => None
  | String c b' =>
      if (20 <? slen b) || ((1 <? slen b) && Ascii.eqb c "0") then None
      else if all_digits b then ParseUint b else None
  end.

(** Redis's [string2ll]. *)
Definition RedisInt (b : string) : option Z :=
  if (slen b =? 0) || (20 <? slen b) then None
  else if b =s "0" then Some 0
  else
    let neg := match b with String c _ => Ascii.eqb c "-" | "" => false end in
    let d := if neg then sdrop 1 b else b in
    match d with
    | "" => None
    | String c _ =>
        if (bval c <? 49) || (57 <? bval c) then None
        else if negb (all_digits d) then None
        else v ← ParseUint d;
          if neg then if 2^63 <? v then None else Some (i64 (- i64 v))
          else if 2^63 - 1 <? v then None else Some (i64 v)
    end.

(** The [ino] closure of [ParseKey]. *)
Definition inoRef (shape group rest : string) : option KeyRef :=
  keyIno shape group <$> digits rest.

(** The namespaced keys: the first [switch] of [ParseKey]. *)
Definition parseNamespace (k : string) : option KeyRef :=
  match cut_prefix "jum:presence:" k with
  | Some (String c r) => Some (keySuffix ShapePresence "presence" (String c r))
  | _ =>
  match cut_prefix "jm:link-bench:" k with
  | Some (String c r) => Some (keySuffix ShapeLinkBench "linkbench" (String c r))
  | _ =>
  match cut_prefix "juicefarm:" k with
  | Some r => Some (keySuffix ShapeFarm "farm" r)
  | None =>
  match cut_prefix "jmfarm:" k with
  | Some r => Some (keySuffix ShapeJMFarm "farm" r)
  | None =>
  match cut_prefix "jmctl:" k with
  | Some r => Some (keySuffix ShapeJMCtl "farm" r)
  | None =>
  match cut_prefix "jmlease:" k with
  | Some r => Some (keySuffix ShapeLease "lease" r)
  | None => if k =s "juicemount:metadata" then Some (keyOf ShapeChannel "channel") else None
  end end end end end end.

(** The lock and session keys: the second [switch]; a prefix whose rest is
    not a number falls through to the one-letter shapes. *)
Definition parseLockSession (k : string) : option KeyRef :=
  match cut_prefix "lockf" k with
  | Some r => inoRef ShapeFlock "inode" r
  | None =>
  match cut_prefix "lockp" k with
  | Some r => inoRef ShapePlock "inode" r
  | None =>
  match cut_prefix "locked" k with
  | Some r => keySid ShapeLocked <$> digits r
  | None =>
  match cut_prefix "session" k with
  | Some r => keySid ShapeSession <$> digits r
  | None => None
  end end end end.

(** The one-letter shapes: the last [switch]. *)
Definition parseLetter (k : string) : option KeyRef :=
  match k with
  | String c (String r0 r as rest) =>
      if Ascii.eqb c "i" then inoRef ShapeInode "inode" rest
      else if Ascii.eqb c "d" then inoRef ShapeDentry "dentry" rest
      else if Ascii.eqb c "p" then inoRef ShapeParent "inode" rest
      else if Ascii.eqb c "x" then inoRef ShapeXattr "inode" rest
      else if Ascii.eqb c "s" then inoRef ShapeSymlink "inode" rest
      else if Ascii.eqb c "c" then
        match IndexByte rest "_" with
        | Some (S _ as u) =>
            match digits (sdrop (S u) rest) with
            | Some _ => inoRef ShapeChunk "inode" (stake u rest)
            | None => None
            end
        | _ => None
        end
      else None
  | _ => None
  end.

Definition ParseKey (k : string) : KeyRef :=
  match assoc k globalKeys with
  | Some g => keyOf k g
  | None =>
  match parseNamespace k with
  | Some r => r
  | None =>
  match parseLockSession k with
  | Some r => r
  | None => default unknownKey (parseLetter k)
  end end end.

Definition LeaseNeed (r : KeyRef) : string :=
  if Trash r then "trash namespace (ns:trash; inode >= TrashInode)"
  else if Group r =s "inode" then "inode->namespace map (ancestry)"
  else if Group r =s "dentry" then "dir inode->namespace map (ancestry of parent dir)"
  else if Group r =s "counter" then "global counter (no namespace; allow-list)"
  else if Group r =s "dirstat" then "dir-stat hash; field=dir inode -> namespace map"
  else if Group r =s "quota" then "quota limit: HSET admin-only; HDEL with rmdir (project)"
  else if Group r =s "gc" then "deferred delete / slice refs: txn anchors, else bg-only"
  else if Group r =s "bgmark" then "background-job bookkeeping: bg-only"
  else if Group r =s "session" then "session-scoped (per principal)"
  else if Group r =s "admin" then "admin-only (format/config/acl)"
  else if Group r =s "presence" then "own host only"
  else if Group r =s "linkbench" then "allow-list with expiry <= 60s"
  else if Group r =s "farm" then "farm/manager only"
  else if Group r =s "lease" then "proxy-owned lease table: admin only"
  else if Group r =s "channel" then "pub/sub channel: PUBLISH only"
  else "UNKNOWN".

(** ** Commands *)
Record Command : Type := mkCommand {
  Name : string; CClass : Class; Keys : list KeyRef; Raw : list string; Script : string }.

(** [for i := first; i <= last && i < len(args); i += step]. *)
Fixpoint keyLoop (fuel : nat) (i : nat) (last : Z) (step : nat) (args : list string) : list string :=
  match fuel with
  | O => []
  | S f =>
      if Z.of_nat i <=? last then
        match args !! i with
        | Some a => a :: keyLoop f (i + step) last step args
        | None => []
        end
      else []
  end.

Definition keyArgs (ks : keySpec) (args : list string) : list string :=
  match ks_step ks with
  | O => []
  | S _ =>
      let n := Z.of_nat (length args) in
      let last := if ks_last ks <? 0 then n + ks_last ks else ks_last ks in
      keyLoop (S (length args)) (ks_first ks) last (ks_step ks) args
  end.

Definition scriptKey (k : string) : KeyRef :=
  let ref := ParseKey k in
  if Shape ref =s ShapeUnknown then keyOf "script-arg" "script-arg" else ref.

(** [args[3 : 3+nk]] with [3+nk] an [int]: [None] is the slice-bounds panic. *)
Definition slice3 (args : list string) (hi : Z) : option (list string) :=
  if (3 <=? hi) && (hi <=? Z.of_nat (length args))
  then Some (take (Z.to_nat hi - 3) (drop 3 args)) else None.

Definition classifyScript (name : string) (args : list string) : option (Class * list KeyRef * list string * string) :=
  match args with
  | _ :: a1 :: a2 :: _ =>
      let sha := if HasPrefix name "EVALSHA" then ToLower a1 else ScriptSHA a1 in
      if negb (script_allowed sha) then Some (ClassScript, [], [], "")
      else
        let (nk, ok) := ParseInt a2 in
        if negb ok || (nk <? 0) || (Z.of_nat (length args) <? i64 (3 + nk))
        then Some (ClassScript, [], [], "")
        else raw ← slice3 args (i64 (3 + nk)); Some (ClassRead, map scriptKey raw, raw, sha)
  | _ => Some (ClassScript, [], [], "")
  end.

Definition Classify (args : list string) : option Command :=
  match args with
  | [] => Some (mkCommand "" ClassUnknown [] [] "")
  | a0 :: _ =>
      let name := ToUpper a0 in
      if HasPrefix name "JM." then Some (mkCommand name ClassLocal [] [] "")
      else match classifySub name args with
      | Some cl => Some (mkCommand name cl [] [] "")
      | None =>
      match assoc name commands with
      | None => Some (mkCommand name ClassUnknown [] [] "")
      | Some (cl, ks) =>
          if decide (cl = ClassScript) then
            '(cl', keys, raw, sc) ← classifyScript name args;
            Some (mkCommand name cl' keys raw sc)
          else
            let raw := keyArgs ks args in
            Some (mkCommand name cl (ParseKey <$> raw) raw "")
      end end
  end.

(** The index of the first ZADD argument that is not an option. *)
Fixpoint zaddOpts (args : list string) : list string :=
  match args with
  | a :: args' =>
      if bool_decide (ToUpper a ∈ ["NX"; "XX"; "GT"; "LT"; "CH"; "INCR"]) then zaddOpts args' else args
  | [] => []
  end.

(** The [add] closure of [sessionIDs], on each argument visited. *)
Definition addIDs (l : list string) : list Z := omap (M := list) digits l.

(** The session ids a write on a session-group key touches; [None] is the
    slice-bounds panic of [args[2:]]. *)
Definition sessionIDs (name : string) (key : KeyRef) (args : list string) : option (list Z) :=
  if (Shape key =s ShapeSession) || (Shape key =s ShapeLocked) then Some [Sid key]
  else if name =s "ZADD" then Some (addIDs (odds (zaddOpts (drop 2 args))))
  else if bool_decide (name ∈ ["ZREM"; "HDEL"; "SREM"]) then option_map addIDs (args_from 2 args)
  else if bool_decide (name ∈ ["HSET"; "HMSET"]) then Some (addIDs (evens (drop 2 args)))
  else if bool_decide (name ∈ ["HSETNX"; "HINCRBY"]) then Some (addIDs (take 1 (drop 2 args)))
  else Some [].

(** ** JuiceFS values *)

(** Attr.Parent of a marshalled attr: bytes 63..70, big-endian. *)
Definition attrParent (v : string) : option Z :=
  if negb (slen v =? 72) && negb (slen v =? 80) then None else Some (be_fold 0 (sub v 63 71)).

Definition entryInode (v : string) : option Z :=
  if negb (slen v =? 9) then None else Some (be_fold 0 (sub v 1 9)).

Definition entryType (v : string) : option Z :=
  if negb (slen v =? 9) then None else bval <$> byte_at v 0.
