(* ===== verification/ClassifyFacts.v ===== *)
(** * Theorems on classification

    - [digits] and [RedisInt] accept exactly the canonical decimals;
    - [ParseKey] is exactly the inverse of the key printer [key_names], so two
      different Redis keys never stand for the same JuiceFS record;
    - the key positions of every [keySpec];
    - when [Classify] panics, and which scripts it lets through as reads. *)

From S2P Require Import Prelude GoLib Sha1 Classify.

(** ** Canonical decimals *)
Lemma digits_FormatUint n : is_u64 n -> digits (FormatUint n) = Some n.
Proof.
  intros H. assert (0 <= n) as Hn by (unfold is_u64 in H; lia).
  pose proof (all_digits_FormatUint n Hn) as Hd. pose proof (canonical_FormatUint n H) as Hc.
  pose proof (length_FormatUint n) as Hl. pose proof (ParseUint_FormatUint n H) as Hp.
  unfold digits. destruct (FormatUint n) as [|c r] eqn:E; [done|]. cbn [canonical] in Hc.
  unfold slen. destruct (Z.ltb_spec 20 (Z.of_nat (String.length (String c r)))); [lia|].
  assert ((1 <? Z.of_nat (String.length (String c r))) && Ascii.eqb c "0" = false) as ->.
  { destruct (Ascii.eqb_spec c "0") as [->|_]; [|by rewrite andb_false_r].
    destruct Hc as [Hc| ->]; [by vm_compute in Hc|done]. }
  cbn [orb]. by rewrite Hd.
Qed.

Lemma ParseUint_Some s v : ParseUint s = Some v -> parse_dec 0 s = Some v /\ is_u64 v.
Proof.
  unfold ParseUint. intros H. destruct s as [|c s]; [done|].
  destruct (parse_dec 0 (String c s)) as [w|] eqn:E; cbn [mbind option_bind] in H; [|done].
  destruct (Z.ltb_spec w (2^64)); simplify_eq.
  split; [done|]. apply parse_dec_lower in E; unfold is_u64; lia.
Qed.

Lemma digits_Some b n : digits b = Some n -> is_u64 n /\ b = FormatUint n.
Proof.
  unfold digits. intros H. destruct b as [|c r]; [done|].
  destruct ((20 <? slen (String c r)) || _) eqn:E; [done|]. apply orb_false_iff in E as [E1 E2].
  destruct (all_digits (String c r)); [|done]. apply ParseUint_Some in H as [Hp Hu].
  split; [done|]. unfold slen in *. apply FormatUint_canonical; [|done|to_prop; lia].
  cbn [canonical]. destruct r as [|c' r]; [by right|left]. intros Hc.
  apply char_digit_inv in Hc as [_ <-]. apply andb_false_iff in E2 as [E2|E2]; [|done].
  apply Z.ltb_ge in E2. cbn [String.length] in E2. lia.
Qed.

Lemma digits_iff b n : digits b = Some n <-> is_u64 n /\ b = FormatUint n.
Proof. split; [apply digits_Some|]. intros [H ->]. by apply digits_FormatUint. Qed.

#[export] Hint Resolve digits_FormatUint : proxy.

(** A positive number prints with a first digit from 1 to 9. *)
Lemma FormatUint_pos n : 0 < n < 2^64 -> exists c r, FormatUint n = String c r /\
  49 <= bval c <= 57 /\ all_digits (String c r) = true /\ ParseUint (String c r) = Some n.
Proof.
  intros Hm. assert (is_u64 n) as Hu by (unfold is_u64; lia).
  destruct (digit_head n Hu) as (c & r & E & [d Hd]). exists c, r. split; [done|].
  rewrite <- E, all_digits_FormatUint, ParseUint_FormatUint by (done || lia). split; [|done].
  pose proof (canonical_FormatUint n Hu) as Hc. rewrite E in Hc. cbn [canonical] in Hc.
  pose proof (parse_FormatUint n ltac:(lia)) as Hp. rewrite E in Hp.
  pose proof (char_digit_inv _ _ Hd) as [Hr Hdc].
  assert (d <> 0).
  { intros ->. destruct Hc as [Hc| ->]; [done|]. cbn in Hp. rewrite Hd in Hp. cbn in Hp.
    simplify_eq. lia. }
  rewrite <- Hdc.
  assert (d = 1 \/ d = 2 \/ d = 3 \/ d = 4 \/ d = 5 \/ d = 6 \/ d = 7 \/ d = 8 \/ d = 9) as Hcase by lia.
  repeat destruct Hcase as [->|Hcase]; subst; vm_compute; split; discriminate.
Qed.

Lemma RedisInt_body c r (neg : bool) v :
  49 <= bval c <= 57 -> all_digits (String c r) = true -> ParseUint (String c r) = Some v ->
  (String.length (String c r) <= 19)%nat -> v <= (if neg then 2^63 else 2^63 - 1) ->
  RedisInt (if neg then String "-" (String c r) else String c r) = Some (if neg then i64 (- i64 v) else i64 v).
Proof.
  intros Hc Hd Hp Hl Hv. unfold RedisInt.
  assert (E0 : Ascii.eqb c "-" = false).
  { destruct (Ascii.eqb_spec c "-") as [->|_]; [|done]. vm_compute in Hc. by destruct Hc as [[] _]. }
  set (b := if neg then _ else _).
  assert (1 <= slen b <= 20) as Hb by (destruct neg; subst b; unfold slen; cbn [String.length] in *; lia).
  destruct (Z.eqb_spec (slen b) 0); [lia|]. destruct (Z.ltb_spec 20 (slen b)); [lia|]. cbn [orb].
  assert ((b =s "0") = false) as ->.
  { apply eqs_false. subst b. destruct neg; [done|]. intros [= -> ->]. vm_compute in Hc. by destruct Hc as [[] _]. }
  subst b. destruct neg; [change (Ascii.eqb "-" "-") with true | rewrite E0]; cbn [sdrop];
    (destruct (Z.ltb_spec (bval c) 49); [lia|]); (destruct (Z.ltb_spec 57 (bval c)); [lia|]);
    cbn [orb]; rewrite Hd, Hp; cbn [negb mbind option_bind].
  - destruct (Z.ltb_spec (2^63) v); [lia|done].
  - destruct (Z.ltb_spec (2^63 - 1) v); [lia|done].
Qed.

Lemma RedisInt_FormatInt n : is_i64 n -> RedisInt (FormatInt n) = Some n.
Proof.
  unfold is_i64. intros Hn. unfold FormatInt. destruct (Z.ltb_spec n 0).
  - destruct (FormatUint_pos (- n) ltac:(lia)) as (c & r & E & Hc & Hd & Hp). rewrite E.
    pose proof (length_FormatUint_lt 19 (- n) ltac:(lia) ltac:(lia)) as Hl. rewrite E in Hl.
    rewrite (RedisInt_body c r true (- n)) by (done || lia). f_equal.
    destruct (decide (n = - 2^63)) as [->|]; [done|].
    rewrite !i64_id; unfold is_i64; rewrite ?i64_id; unfold is_i64; lia.
  - destruct (decide (n = 0)) as [->|]; [done|].
    destruct (FormatUint_pos n ltac:(lia)) as (c & r & E & Hc & Hd & Hp). rewrite E.
    pose proof (length_FormatUint_lt 19 n ltac:(lia) ltac:(lia)) as Hl. rewrite E in Hl.
    rewrite (RedisInt_body c r false n) by (done || lia). f_equal.
    rewrite i64_id; unfold is_i64; lia.
Qed.

Lemma RedisInt_Some b n : RedisInt b = Some n -> is_i64 n /\ b = FormatInt n.
Proof.
  unfold RedisInt. intros H. destruct ((slen b =? 0) || (20 <? slen b)) eqn:E; [done|].
  destruct (b =s "0") eqn:E0; [apply eqs_true in E0 as ->; by simplify_eq|].
  set (neg := match b with String c _ => Ascii.eqb c "-" | "" => false end) in *.
  assert (Hb : b = if neg then String "-" (sdrop 1 b) else b).
  { subst neg. destruct b as [|c b']; [done|]. destruct (Ascii.eqb_spec c "-") as [->|_]; done. }
  destruct (if neg then sdrop 1 b else b) as [|c r] eqn:Ed; [done|].
  destruct ((bval c <? 49) || (57 <? bval c)) eqn:Er; [done|].
  destruct (all_digits (String c r)); [|done]. cbn [negb] in H.
  destruct (ParseUint (String c r)) as [v|] eqn:Ep; [|done]. cbn [mbind option_bind] in H.
  apply ParseUint_Some in Ep as [Hp Hu]. apply orb_false_iff in E as [_ E].
  assert (HF : String c r = FormatUint v).
  { apply FormatUint_canonical; [|done|].
    - left. intros Hc. apply char_digit_inv in Hc as [_ <-]. by vm_compute in Er.
    - assert (String.length (String c r) <= String.length b)%nat.
      { rewrite <- Ed. destruct neg; [rewrite length_sdrop|]; lia. }
      unfold slen in E. apply Z.ltb_ge in E. lia. }
  assert (1 <= v).
  { destruct (decide (v = 0)) as [->|]; [|unfold is_u64 in Hu; lia].
    change (FormatUint 0) with "0" in HF. by simplify_eq. }
  unfold is_u64 in Hu. unfold FormatInt.
  destruct neg; [destruct (Z.ltb_spec (2^63) v)|destruct (Z.ltb_spec (2^63 - 1) v)]; simplify_eq.
  - assert (i64 (- i64 v) = - v) as ->.
    { destruct (decide (v = 2^63)) as [->|]; [done|].
      rewrite !i64_id; unfold is_i64; rewrite ?i64_id; unfold is_i64; lia. }
    destruct (Z.ltb_spec (- v) 0); [|lia]. rewrite Z.opp_involutive.
    split; [unfold is_i64; lia | congruence].
  - rewrite i64_id by (unfold is_i64; lia). destruct (Z.ltb_spec v 0); [lia|].
    split; [unfold is_i64; lia | congruence].
Qed.

(** [RedisInt] accepts exactly the decimals Redis's own integer parser
    accepts: the canonical text of an int64 and nothing else, with its value. *)
Theorem redis_int_exact b n : RedisInt b = Some n <-> is_i64 n /\ b = FormatInt n.
Proof. split; [apply RedisInt_Some|]. intros [H ->]. by apply RedisInt_FormatInt. Qed.

(** ** Keys

    [key_names k r]: [k] is the Redis key JuiceFS (or a proxy component)
    builds for the record [r].  Written from the naming rules, with no
    reference to the parser. *)
Definition inoShapes : list (string * (string * string)) :=
  [("i", (ShapeInode, "inode")); ("d", (ShapeDentry, "dentry")); ("p", (ShapeParent, "inode"));
   ("x", (ShapeXattr, "inode")); ("s", (ShapeSymlink, "inode"));
   ("lockf", (ShapeFlock, "inode")); ("lockp", (ShapePlock, "inode"))].

Definition sidShapes : list (string * string) :=
  [("locked", ShapeLocked); ("session", ShapeSession)].

Definition nsShapes : list (string * (string * string)) :=
  [("juicefarm:", (ShapeFarm, "farm")); ("jmfarm:", (ShapeJMFarm, "farm"));
   ("jmctl:", (ShapeJMCtl, "farm")); ("jmlease:", (ShapeLease, "lease"))].

Definition ns1Shapes : list (string * (string * string)) :=
  [("jum:presence:", (ShapePresence, "presence")); ("jm:link-bench:", (ShapeLinkBench, "linkbench"))].

Inductive key_names : string -> KeyRef -> Prop :=
  | kn_global k g : assoc k globalKeys = Some g -> key_names k (keyOf k g)
  | kn_channel : key_names "juicemount:metadata" (keyOf ShapeChannel "channel")
  | kn_ns p sh g r : (p, (sh, g)) ∈ nsShapes -> key_names (p +:+ r) (keySuffix sh g r)
  | kn_ns1 p sh g r : (p, (sh, g)) ∈ ns1Shapes -> r <> "" -> key_names (p +:+ r) (keySuffix sh g r)
  | kn_ino p sh g n : (p, (sh, g)) ∈ inoShapes -> is_u64 n ->
      key_names (p +:+ FormatUint n) (keyIno sh g n)
  | kn_chunk n j : is_u64 n -> is_u64 j ->
      key_names ("c" +:+ FormatUint n +:+ "_" +:+ FormatUint j) (keyIno ShapeChunk "inode" n)
  | kn_sid p sh n : (p, sh) ∈ sidShapes -> is_u64 n -> key_names (p +:+ FormatUint n) (keySid sh n).

Ltac in_list := solve [repeat (apply elem_of_cons; first [left; reflexivity | right])].
Ltac elem_inv H :=
  repeat (apply elem_of_cons in H as [H|H]); [simplify_eq.. | by apply elem_of_nil in H].

Lemma inoRef_Some sh g r k : inoRef sh g r = Some k -> exists n, is_u64 n /\ r = FormatUint n /\ k = keyIno sh g n.
Proof.
  unfold inoRef. destruct (digits r) as [n|] eqn:E; [|done]. intros [= <-].
  apply digits_Some in E as [? ->]. eauto.
Qed.

Lemma inoRef_FormatUint sh g n : is_u64 n -> inoRef sh g (FormatUint n) = Some (keyIno sh g n).
Proof. intros H. unfold inoRef. by rewrite digits_FormatUint. Qed.

(** Soundness of each stage of the parser. *)
Lemma names_ns k p sh g r : cut_prefix p k = Some r -> (p, (sh, g)) ∈ nsShapes -> key_names k (keySuffix sh g r).
Proof. intros E%cut_prefix_Some Hp. subst. by apply kn_ns. Qed.

Lemma names_ns1 k p sh g c r : cut_prefix p k = Some (String c r) -> (p, (sh, g)) ∈ ns1Shapes ->
  key_names k (keySuffix sh g (String c r)).
Proof. intros E%cut_prefix_Some Hp. subst. by apply kn_ns1. Qed.

Lemma names_ino k p sh g r x : cut_prefix p k = Some r -> (p, (sh, g)) ∈ inoShapes ->
  inoRef sh g r = Some x -> key_names k x.
Proof.
  intros E%cut_prefix_Some Hp (n & Hn & Er & Ex)%inoRef_Some. rewrite E, Er, Ex. by apply kn_ino.
Qed.

Lemma names_sid k p sh r x : cut_prefix p k = Some r -> (p, sh) ∈ sidShapes ->
  keySid sh <$> digits r = Some x -> key_names k x.
Proof.
  intros E%cut_prefix_Some Hp H. destruct (digits r) as [n|] eqn:Ed; [|done]. cbn in H. injection H as <-.
  apply digits_Some in Ed as [Hn Er]. rewrite E, Er. by apply kn_sid.
Qed.

(** The tail of [parseNamespace] after its two non-empty namespaces. *)
Lemma parseNs_sound k r :
  match cut_prefix "juicefarm:" k with
  | Some s => Some (keySuffix ShapeFarm "farm" s)
  | None =>
  match cut_prefix "jmfarm:" k with
  | Some s => Some (keySuffix ShapeJMFarm "farm" s)
  | None =>
  match cut_prefix "jmctl:" k with
  | Some s => Some (keySuffix ShapeJMCtl "farm" s)
  | None =>
  match cut_prefix "jmlease:" k with
  | Some s => Some (keySuffix ShapeLease "lease" s)
  | None => if k =s "juicemount:metadata" then Some (keyOf ShapeChannel "channel") else None
  end end end end = Some r -> key_names k r.
Proof.
  intros H.
  destruct (cut_prefix "juicefarm:" k) eqn:E1; [injection H as <-; eapply names_ns; [done|in_list]|].
  destruct (cut_prefix "jmfarm:" k) eqn:E2; [injection H as <-; eapply names_ns; [done|in_list]|].
  destruct (cut_prefix "jmctl:" k) eqn:E3; [injection H as <-; eapply names_ns; [done|in_list]|].
  destruct (cut_prefix "jmlease:" k) eqn:E4; [injection H as <-; eapply names_ns; [done|in_list]|].
  destruct (k =s "juicemount:metadata") eqn:Ek; [|done]. apply eqs_true in Ek as ->.
  injection H as <-. apply kn_channel.
Qed.

Lemma parseNamespace_sound k r : parseNamespace k = Some r -> key_names k r.
Proof.
  unfold parseNamespace. intros H.
  destruct (cut_prefix "jum:presence:" k) as [[|c s]|] eqn:E1;
    [|injection H as <-; eapply names_ns1; [done|in_list] |];
  (destruct (cut_prefix "jm:link-bench:" k) as [[|c2 s2]|] eqn:E2;
    [|injection H as <-; eapply names_ns1; [done|in_list] |]).
  all: clear E1 E2; by apply parseNs_sound.
Qed.

Lemma parseLockSession_sound k r : parseLockSession k = Some r -> key_names k r.
Proof.
  unfold parseLockSession. intros H.
  destruct (cut_prefix "lockf" k) eqn:E1; [eapply names_ino; [done|in_list|done]|].
  destruct (cut_prefix "lockp" k) eqn:E2; [eapply names_ino; [done|in_list|done]|].
  destruct (cut_prefix "locked" k) eqn:E3; [eapply names_sid; [done|in_list|done]|].
  destruct (cut_prefix "session" k) eqn:E4; [eapply names_sid; [done|in_list|done]|done].
Qed.

Lemma parseLetter_sound k r : parseLetter k = Some r -> key_names k r.
Proof.
  unfold parseLetter. intros H. destruct k as [|c [|r0 rest]]; [done..|].
  set (t := String r0 rest) in *.
  repeat (match type of H with (if Ascii.eqb c ?x then _ else _) = _ =>
    destruct (Ascii.eqb_spec c x) as [->|_];
      [try (eapply (names_ino _ (String x "")); [reflexivity|in_list|exact H])|] end); [|done].
  destruct (IndexByte t "_") as [[|u]|] eqn:E; [done| |done].
  destruct (digits (sdrop (S (S u)) t)) as [j|] eqn:Ej; [|done].
  apply inoRef_Some in H as (n & Hn & En & ->). apply digits_Some in Ej as [Hj Ej].
  rewrite (IndexByte_Some _ _ _ E), En, Ej. by apply (kn_chunk n j).
Qed.

Lemma ParseKey_sound k : ParseKey k = unknownKey \/ key_names k (ParseKey k).
Proof.
  unfold ParseKey. destruct (assoc k globalKeys) eqn:E; [right; by constructor|].
  destruct (parseNamespace k) eqn:E1; [right; by apply parseNamespace_sound|].
  destruct (parseLockSession k) eqn:E2; [right; by apply parseLockSession_sound|].
  destruct (parseLetter k) eqn:E3; [right; by apply parseLetter_sound | by left].
Qed.

(** Completeness: no earlier stage of the parser captures a printed key. *)
Lemma assoc_None_forall {A} (f : string -> bool) (l : list (string * A)) k :
  forallb (fun kv => f (fst kv)) l = true -> f k = false -> assoc k l = None.
Proof.
  induction l as [|[k' v] l IH]; [done|]. cbn. intros [H1 H2]%andb_true_iff Hk.
  destruct (k =s k') eqn:E; [apply eqs_true in E; congruence|auto].
Qed.

Lemma assoc_prefix_None p r :
  forallb (fun kv => negb (HasPrefix (fst kv) p)) globalKeys = true ->
  assoc (p +:+ r) globalKeys = None.
Proof.
  intros H. apply (assoc_None_forall (fun k => negb (HasPrefix k p))); [done|].
  unfold HasPrefix. by rewrite cut_prefix_app.
Qed.

Lemma assoc_digits_None p n :
  is_u64 n ->
  forallb (fun kv => match cut_prefix p (fst kv) with
                     | Some r => negb (bool_decide (is_Some (digits r))) | None => true end) globalKeys = true ->
  assoc (p +:+ FormatUint n) globalKeys = None.
Proof.
  intros Hn H. apply (assoc_None_forall (fun k => match cut_prefix p k with
    | Some r => negb (bool_decide (is_Some (digits r))) | None => true end)); [done|].
  rewrite cut_prefix_app, digits_FormatUint by done. done.
Qed.

Lemma cut_prefix_nil s : cut_prefix "" s = Some s.
Proof. reflexivity. Qed.

(** A digit is none of the letters the parser tests after a one-letter key. *)
Lemma FormatUint_not_e n x : is_u64 n -> char_digit x = None -> forall p, cut_prefix (String x p) (FormatUint n) = None.
Proof.
  intros Hn Hx p. destruct (digit_head n Hn) as (c & r & -> & [d Hc]). unfold cut_prefix.
  destruct (Ascii.eqb_spec x c) as [->|_]; [congruence|done].
Qed.

Lemma parseLetter_app x n : is_u64 n ->
  parseLetter (String x (FormatUint n)) =
  match IndexByte (FormatUint n) "_" with
  | None => if Ascii.eqb x "i" then Some (keyIno ShapeInode "inode" n)
            else if Ascii.eqb x "d" then Some (keyIno ShapeDentry "dentry" n)
            else if Ascii.eqb x "p" then Some (keyIno ShapeParent "inode" n)
            else if Ascii.eqb x "x" then Some (keyIno ShapeXattr "inode" n)
            else if Ascii.eqb x "s" then Some (keyIno ShapeSymlink "inode" n)
            else None
  | Some _ => None
  end.
Proof.
  intros Hn. pose proof (all_digits_FormatUint n ltac:(unfold is_u64 in Hn; lia)) as Hd.
  assert (Hi : IndexByte (FormatUint n) "_" = None) by (by apply all_digits_IndexByte).
  rewrite Hi. unfold parseLetter.
  destruct (FormatUint n) as [|c r] eqn:E; [by apply FormatUint_nonempty in E|].
  rewrite <- E, !inoRef_FormatUint, E, Hi by done. by destruct (Ascii.eqb x "c").
Qed.

Lemma ParseKey_ino p sh g n : (p, (sh, g)) ∈ inoShapes -> is_u64 n ->
  ParseKey (p +:+ FormatUint n) = keyIno sh g n.
Proof.
  intros Hp Hn. unfold ParseKey.
  pose proof (all_digits_IndexByte (FormatUint n) "_" eq_refl
    (all_digits_FormatUint n ltac:(unfold is_u64 in Hn; lia))) as Hi.
  elem_inv Hp; rewrite assoc_digits_None by (done || reflexivity); unfold parseNamespace, parseLockSession;
    cbn -[parseLetter inoRef]; rewrite ?FormatUint_not_e, ?cut_prefix_nil by done; rewrite ?inoRef_FormatUint by done;
    first [reflexivity | by rewrite parseLetter_app, Hi by done].
Qed.

Lemma ParseKey_sid p sh n : (p, sh) ∈ sidShapes -> is_u64 n -> ParseKey (p +:+ FormatUint n) = keySid sh n.
Proof.
  intros Hp Hn. unfold ParseKey.
  elem_inv Hp; rewrite assoc_digits_None by (done || reflexivity); unfold parseNamespace, parseLockSession;
    cbn -[parseLetter digits]; by rewrite cut_prefix_nil, digits_FormatUint.
Qed.

Lemma ParseKey_chunk n j : is_u64 n -> is_u64 j ->
  ParseKey ("c" +:+ FormatUint n +:+ "_" +:+ FormatUint j) = keyIno ShapeChunk "inode" n.
Proof.
  intros Hn Hj. unfold ParseKey. rewrite assoc_prefix_None by reflexivity.
  pose proof (all_digits_IndexByte (FormatUint n) "_" eq_refl
    (all_digits_FormatUint n ltac:(unfold is_u64 in Hn; lia))) as Hi.
  cbn [parseNamespace parseLockSession]. unfold parseNamespace, parseLockSession. cbn.
  unfold parseLetter. set (rest := FormatUint n +:+ String "_" (FormatUint j)).
  assert (HI : IndexByte rest "_" = Some (String.length (FormatUint n))) by (by apply IndexByte_app_skip).
  assert (Hs : stake (String.length (FormatUint n)) rest = FormatUint n) by (apply stake_app).
  assert (Hr : sdrop (S (String.length (FormatUint n))) rest = FormatUint j).
  { replace (S (String.length (FormatUint n))) with (String.length (FormatUint n) + 1)%nat by lia.
    subst rest. clear. induction (FormatUint n); [done|cbn; done]. }
  destruct rest as [|r0 r] eqn:E; [by destruct (FormatUint n)|].
  cbn -[IndexByte digits inoRef stake sdrop]. rewrite HI. destruct (String.length (FormatUint n)) eqn:El.
  { destruct (FormatUint n) eqn:En; [by apply FormatUint_nonempty in En|done]. }
  rewrite Hr, Hs, digits_FormatUint, inoRef_FormatUint by done. done.
Qed.

Lemma ParseKey_complete k r : key_names k r -> ParseKey k = r.
Proof.
  intros H. destruct H as [k g H| |p sh g r Hp|p sh g r Hp Hr|p sh g n Hp Hn|n j Hn Hj|p sh n Hp Hn].
  - unfold ParseKey. by rewrite H.
  - reflexivity.
  - unfold ParseKey. elem_inv Hp; (rewrite assoc_prefix_None by reflexivity); reflexivity.
  - unfold ParseKey. destruct r as [|c r]; [done|].
    elem_inv Hp; (rewrite assoc_prefix_None by reflexivity); reflexivity.
  - by apply ParseKey_ino.
  - by apply ParseKey_chunk.
  - by apply ParseKey_sid.
Qed.

Lemma key_names_known k r : key_names k r -> r <> unknownKey.
Proof.
  intros H. destruct H as [k g H| |p sh g r Hp|p sh g r Hp Hr|p sh g n Hp Hn|n j Hn Hj|p sh n Hp Hn];
    [|done|elem_inv Hp; done|elem_inv Hp; done|elem_inv Hp; done|done|elem_inv Hp; done].
  intros E. assert (k = ShapeUnknown) as -> by (by injection E). by vm_compute in H.
Qed.

(** C36: [ParseKey] is exact.  It names the record whose printed key is [k],
    and answers "unknown" exactly for the keys no component prints: a sign, a
    leading zero, an overflow or a trailing byte is never taken for the record
    it resembles. *)
Theorem parse_key_exact k r :
  (ParseKey k = r /\ r <> unknownKey) <-> key_names k r.
Proof.
  split.
  - intros [<- Hr]. by destruct (ParseKey_sound k).
  - intros H. split; [by apply ParseKey_complete | by eapply key_names_known].
Qed.

(** ** Key positions *)
Lemma keyLoop_all args i fuel :
  (length args < i + fuel)%nat ->
  keyLoop fuel i (Z.of_nat (length args) + -1) 1 args = drop i args.
Proof.
  revert i. induction fuel as [|f IH]; intros i Hf; cbn [keyLoop]; [by rewrite drop_ge by lia|].
  destruct (args !! i) as [a|] eqn:E.
  - pose proof (lookup_lt_Some _ _ _ E). destruct (Z.leb_spec (Z.of_nat i) (Z.of_nat (length args) + -1)); [|lia].
    rewrite (drop_S _ _ _ E), IH by lia. by replace (i + 1)%nat with (S i) by lia.
  - apply lookup_ge_None in E. rewrite drop_ge by done. by destruct (_ <=? _).
Qed.

Lemma keyLoop_block args i fuel :
  (length args < i + fuel)%nat ->
  keyLoop fuel i (Z.of_nat (length args) + -2) 1 args = drop i (take (length args - 1) args).
Proof.
  revert i. induction fuel as [|f IH]; intros i Hf; cbn [keyLoop].
  { rewrite drop_ge; [done|]. rewrite length_take. lia. }
  destruct (Z.leb_spec (Z.of_nat i) (Z.of_nat (length args) + -2)).
  - destruct (lookup_lt_is_Some_2 args i ltac:(lia)) as [a E]. rewrite E.
    rewrite (drop_S (take _ args) a i), IH by (lia || by rewrite lookup_take_lt by lia).
    by replace (i + 1)%nat with (S i) by lia.
  - rewrite drop_ge; [done|]. rewrite length_take. lia.
Qed.

Lemma keyLoop_pair args i fuel :
  (length args < i + fuel)%nat ->
  keyLoop fuel i (Z.of_nat (length args) + -1) 2 args = evens (drop i args).
Proof.
  revert i. induction fuel as [|f IH]; intros i Hf; cbn [keyLoop]; [by rewrite drop_ge by lia|].
  destruct (args !! i) as [a|] eqn:E.
  - pose proof (lookup_lt_Some _ _ _ E). destruct (Z.leb_spec (Z.of_nat i) (Z.of_nat (length args) + -1)); [|lia].
    rewrite IH by lia. rewrite (drop_S _ _ _ E). replace (i + 2)%nat with (S (S i)) by lia.
    destruct (args !! S i) as [b|] eqn:E2; [by rewrite (drop_S _ _ _ E2)|].
    apply lookup_ge_None in E2. by rewrite !drop_ge by lia.
  - apply lookup_ge_None in E. rewrite drop_ge by done. by destruct (_ <=? _).
Qed.

(** The keys the classifier extracts are the ones Redis's own key
    specification gives: the first argument, every argument, every other one
    (MSET), the first two (RENAME, COPY, ...), or all but the timeout (BLPOP).
    No key argument is skipped. *)
Theorem key_positions name args :
  keyArgs k1 (name :: args) = take 1 args /\
  keyArgs kAll (name :: args) = args /\
  keyArgs kPair (name :: args) = evens args /\
  keyArgs k12 (name :: args) = take 2 args /\
  keyArgs kBlock (name :: args) = take (length args - 1) args /\
  keyArgs kNone (name :: args) = [].
Proof.
  unfold keyArgs. split_and!; cbn [k1 kAll kPair k12 kBlock kNone ks_step ks_last ks_first].
  - destruct args as [|a [|b args]]; reflexivity.
  - change (-1 <? 0) with true. cbv beta iota zeta. by rewrite keyLoop_all by lia.
  - change (-1 <? 0) with true. cbv beta iota zeta. by rewrite keyLoop_pair by lia.
  - destruct args as [|a [|b [|c args]]]; reflexivity.
  - change (-2 <? 0) with true. cbv beta iota zeta. rewrite keyLoop_block by lia.
    destruct args as [|a args]; [done|]. cbn. by rewrite Nat.sub_0_r.
  - done.
Qed.

(** ** Scripts and the panic *)
Definition evalNames : list string := ["EVALSHA"; "EVAL"; "EVALSHA_RO"; "EVAL_RO"].

(** The identity Redis runs: the given SHA for EVALSHA, the body's otherwise. *)
Definition script_id (name a1 : string) : string :=
  if HasPrefix name "EVALSHA" then ToLower a1 else ScriptSHA a1.

Lemma commands_script name ks :
  assoc name commands = Some (ClassScript, ks) <-> name ∈ evalNames /\ ks = kNone.
Proof.
  split.
  - assert (H : Forall (fun e => fst (snd e) = ClassScript -> fst e ∈ evalNames /\ snd (snd e) = kNone) commands).
    { repeat constructor; cbn; try discriminate; intros _; (split; [|reflexivity]); in_list. }
    clear -H. revert H. generalize commands. intros l Hl. induction Hl as [|[k [c s]] l Hx _ IH]; cbn; [done|].
    destruct (name =s k) eqn:E; [|done]. apply eqs_true in E as ->. intros [= -> ->]. by apply Hx.
  - intros [H ->]. elem_inv H; reflexivity.
Qed.

Lemma classify_script args0 a0 :
  let name := ToUpper a0 in name ∈ evalNames ->
  Classify (a0 :: args0) =
    '(cl, keys, raw, sc) ← classifyScript name (a0 :: args0); Some (mkCommand name cl keys raw sc).
Proof.
  intros name Hn. unfold Classify. fold name.
  pose proof (proj2 (commands_script name kNone) (conj Hn eq_refl)) as Hc.
  assert (HasPrefix name "JM." = false) as -> by (clearbody name; elem_inv Hn; reflexivity).
  assert (classifySub name (a0 :: args0) = None) as ->.
  { unfold classifySub. clearbody name. elem_inv Hn; reflexivity. }
  rewrite Hc. by destruct (decide (ClassScript = ClassScript)).
Qed.

Lemma classify_not_script args0 a0 :
  ToUpper a0 ∉ evalNames -> is_Some (Classify (a0 :: args0)).
Proof.
  intros Hn. unfold Classify. destruct (HasPrefix _ _); [eauto|]. destruct (classifySub _ _); [eauto|].
  destruct (assoc (ToUpper a0) commands) as [[cl ks]|] eqn:E; [|eauto].
  destruct (decide (cl = ClassScript)) as [->|]; [|eauto]. apply commands_script in E as [? _]. done.
Qed.

Lemma i64_3_wraps nk : is_i64 nk -> 0 <= nk ->
  if decide (max_i64 - 3 < nk) then i64 (3 + nk) < 0 else i64 (3 + nk) = 3 + nk.
Proof.
  unfold is_i64, max_i64. intros H H0. destruct (decide _).
  - unfold i64. replace (3 + nk + 2^63) with (3 + nk - 2^63 + 1 * 2^64) by lia.
    rewrite Z_mod_plus_full, Z.mod_small by lia. lia.
  - apply i64_id. unfold is_i64. lia.
Qed.

Lemma classifyScript_cases name a0 a1 a2 rest :
  let args := a0 :: a1 :: a2 :: rest in
  (classifyScript name args = Some (ClassScript, [], [], "")) \/
  (script_allowed (script_id name a1) = true /\ exists nk, ParseInt a2 = (nk, true) /\ 0 <= nk /\
    if decide (max_i64 - 3 < nk) then classifyScript name args = None
    else (Z.to_nat nk <= length rest)%nat /\
         classifyScript name args = Some (ClassRead, map scriptKey (take (Z.to_nat nk) rest),
                                          take (Z.to_nat nk) rest, script_id name a1)).
Proof.
  intros args. unfold classifyScript, args. fold (script_id name a1).
  destruct (script_allowed (script_id name a1)); [|by left]. cbn [negb].
  destruct (ParseInt a2) as [nk ok] eqn:E.
  pose proof (ParseInt_range _ _ _ E) as Hr. destruct ok; [|by left]. cbn [negb orb].
  destruct (Z.ltb_spec nk 0); [by left|]. cbn [orb].
  pose proof (i64_3_wraps nk Hr ltac:(lia)) as Hw.
  destruct (Z.ltb_spec (Z.of_nat (length (a0 :: a1 :: a2 :: rest))) (i64 (3 + nk))); [by left|].
  right. split; [done|]. exists nk. split; [done|]. split; [done|].
  unfold slice3. destruct (decide (max_i64 - 3 < nk)).
  - destruct (Z.leb_spec 3 (i64 (3 + nk))); [lia|done].
  - rewrite Hw in *. cbn [length] in *.
    destruct (Z.leb_spec 3 (3 + nk)); [|lia]. destruct (Z.leb_spec (3 + nk) (Z.of_nat (S (S (S (length rest)))))); [|lia].
    cbn [andb mbind option_bind]. split; [lia|]. replace (Z.to_nat (3 + nk) - 3)%nat with (Z.to_nat nk) by lia. done.
Qed.

(** C37: classification panics for exactly one family of commands: an
    EVAL-family call of an allow-listed script whose key count is within 3 of
    the largest int, where [3+nk] wraps around and the slice bound is
    negative.  [Classify] runs before authentication, so the three-argument
    command that triggers it needs no credentials. *)
Theorem classify_panics_iff args :
  Classify args = None <->
  exists a0 a1 a2 rest nk, args = a0 :: a1 :: a2 :: rest /\ ToUpper a0 ∈ evalNames /\
    script_allowed (script_id (ToUpper a0) a1) = true /\ ParseInt a2 = (nk, true) /\ max_i64 - 3 < nk.
Proof.
  split.
  - intros H. destruct args as [|a0 args]; [done|].
    destruct (decide (ToUpper a0 ∈ evalNames)) as [Hn|Hn]; [|by destruct (classify_not_script args a0 Hn) as [? ?]; congruence].
    rewrite classify_script in H by done. destruct args as [|a1 [|a2 rest]]; [done..|].
    destruct (classifyScript_cases (ToUpper a0) a0 a1 a2 rest) as [E|(Ha & nk & Hp & H0 & E)]; [by rewrite E in H|].
    destruct (decide (max_i64 - 3 < nk)); [naive_solver|]. destruct E as [_ E]. by rewrite E in H.
  - intros (a0 & a1 & a2 & rest & nk & -> & Hn & Ha & Hp & Hk). rewrite classify_script by done.
    destruct (classifyScript_cases (ToUpper a0) a0 a1 a2 rest) as [E|(_ & nk' & Hp' & H0 & E)].
    + exfalso. revert E. unfold classifyScript. fold (script_id (ToUpper a0) a1). rewrite Ha, Hp. cbn [negb orb].
      pose proof (ParseInt_range _ _ _ Hp) as Hr. assert (0 <= nk) by (unfold max_i64 in Hk; lia).
      pose proof (i64_3_wraps nk Hr ltac:(lia)) as Hw. rewrite decide_True in Hw by done.
      destruct (Z.ltb_spec nk 0); [lia|]. cbn [length orb].
      destruct (Z.ltb_spec (Z.of_nat (S (S (S (length rest))))) (i64 (3 + nk))); [lia|].
      unfold slice3. destruct (Z.leb_spec 3 (i64 (3 + nk))); [lia|]. done.
    + assert (nk' = nk) as -> by congruence. rewrite decide_True in E by done. by rewrite E.
Qed.

(** An EVAL-family command leaves class "script" only for a body on the
    allow-list, and then it is a read whose reported keys are exactly its
    KEYS: the first [nk] arguments after the count. *)
Theorem script_reads_are_pinned a0 a1 a2 rest c :
  Classify (a0 :: a1 :: a2 :: rest) = Some c -> ToUpper a0 ∈ evalNames ->
  (CClass c = ClassScript /\ Keys c = []) \/
  (CClass c = ClassRead /\ script_allowed (script_id (ToUpper a0) a1) = true /\
   Script c = script_id (ToUpper a0) a1 /\
   exists nk, ParseInt a2 = (nk, true) /\ 0 <= nk <= Z.of_nat (length rest) /\ Raw c = take (Z.to_nat nk) rest).
Proof.
  intros H Hn. rewrite classify_script in H by done.
  destruct (classifyScript_cases (ToUpper a0) a0 a1 a2 rest) as [E|(Ha & nk & Hp & H0 & E)].
  - rewrite E in H. cbn in H. simplify_eq. by left.
  - destruct (decide (max_i64 - 3 < nk)); [by rewrite E in H|]. destruct E as [Hl E].
    rewrite E in H. cbn in H. simplify_eq. right. split_and!; [done..|]. exists nk. split_and!; [done|lia|lia|done].
Qed.

Lemma script_reads_are_pinned_witness :
  exists c, Classify ["evalsha"; "8526C64984678fc27f67f44755c8ba7dcdf7ea60"; "1"; "d1"; "x"] = Some c /\ CClass c = ClassRead.
Proof.
  eexists. split; [vm_compute; reflexivity|].
  match goal with |- CClass ?c = _ =>
    destruct (script_reads_are_pinned "evalsha" "8526C64984678fc27f67f44755c8ba7dcdf7ea60" "1" ["d1"; "x"] c
      ltac:(vm_compute; reflexivity) ltac:(apply elem_of_cons; left; vm_compute; reflexivity)) as [[H _]|[H _]] end.
  - vm_compute in H. discriminate H.
  - exact H.
Defined.
