(* ===== verification/Policy.v ===== *)
(** * The seam between the gates and the lease engine (internal/respproxy/policy.go)

    Principals, decision units, refusals and their wire form.  A [Unit]'s
    closures ([inodeOwner], [inodeMark], [upstreamID], [beforeSide]) are kept
    as fields holding what they return.  [Denial.Detail], which is only
    logged, is left out. *)

From S2P Require Import Prelude GoLib Resp Classify.

Inductive Kind : Type := KindMac | KindFarm | KindManager | KindBG | KindWebDAV | KindAdmin.
#[export] Instance Kind_eq_dec : EqDecision Kind.
Proof. solve_decision. Defined.

Record Principal : Type := mkPrincipal { PName : string; PKind : Kind; PHost : string }.

Definition host (p : Principal) : string := if PHost p =s "" then PName p else PHost p.

(** The guard's class for one written key (guard.go). *)
Inductive KeyClass : Type :=
  | KCCounter | KCSession | KCPresence | KCLinkBench | KCTrashCreate | KCOwnRecord
  | KCBG | KCFarm | KCAdmin | KCProject | KCChannel | KCUnknown.
#[export] Instance KeyClass_eq_dec : EqDecision KeyClass.
Proof. solve_decision. Defined.

Inductive UnitKind : Type := UnitBare | UnitTxn.
#[export] Instance UnitKind_eq_dec : EqDecision UnitKind.
Proof. solve_decision. Defined.

Record Cmd : Type := mkCmd { Args : list string; Info : Command }.

Record KeyWrite : Type := mkKeyWrite { KWCmd : nat; KWKey : KeyRef; KWRaw : string; KWClass : KeyClass }.

Inductive Mode : Type := ModePassthrough | ModeObserve | ModeEnforce.
#[export] Instance Mode_eq_dec : EqDecision Mode.
Proof. solve_decision. Defined.

(** The person a Mac belongs to (grants.go). *)
Record Person : Type := mkPerson { PersonID : string; PersonName : string; Scoped : bool; Grants : list string }.

(** A failed read of a store or of Redis; its text is only logged. *)
Inductive ioerr : Type := IOErr.

Record Unit : Type := mkUnit {
  UKind : UnitKind;
  DB : Z;
  Cmds : list Cmd;
  Watched : list string;
  Writes : list KeyWrite;
  Project : list KeyWrite;
  RefInodes : list Z;
  UPerson : option Person;
  TrashAlloc : Z;
  inodeOwner : option (Z -> result ioerr (option string));
  inodeMark : option (result ioerr Z);
  upstreamID : Z;
  beforeSide : option (result ioerr unit);
  rewrite_ : option (list string);
  UMode : Mode;
  ConnID : Z;
  UpstreamNameOf : string;
  unassigned : bool;
}.

Definition set_Writes (u : Unit) (ws : list KeyWrite) : Unit :=
  mkUnit (UKind u) (DB u) (Cmds u) (Watched u) ws (Project u) (RefInodes u) (UPerson u) (TrashAlloc u)
    (inodeOwner u) (inodeMark u) (upstreamID u) (beforeSide u) (rewrite_ u) (UMode u) (ConnID u)
    (UpstreamNameOf u) (unassigned u).
Definition set_Project (u : Unit) (ws : list KeyWrite) : Unit :=
  mkUnit (UKind u) (DB u) (Cmds u) (Watched u) (Writes u) ws (RefInodes u) (UPerson u) (TrashAlloc u)
    (inodeOwner u) (inodeMark u) (upstreamID u) (beforeSide u) (rewrite_ u) (UMode u) (ConnID u)
    (UpstreamNameOf u) (unassigned u).
Definition set_RefInodes (u : Unit) (ns : list Z) : Unit :=
  mkUnit (UKind u) (DB u) (Cmds u) (Watched u) (Writes u) (Project u) ns (UPerson u) (TrashAlloc u)
    (inodeOwner u) (inodeMark u) (upstreamID u) (beforeSide u) (rewrite_ u) (UMode u) (ConnID u)
    (UpstreamNameOf u) (unassigned u).
Definition set_rewrite (u : Unit) (r : list string) : Unit :=
  mkUnit (UKind u) (DB u) (Cmds u) (Watched u) (Writes u) (Project u) (RefInodes u) (UPerson u) (TrashAlloc u)
    (inodeOwner u) (inodeMark u) (upstreamID u) (beforeSide u) (Some r) (UMode u) (ConnID u)
    (UpstreamNameOf u) (unassigned u).

(** ** Refusals *)
Inductive Reason : Type :=
  | ReasonLeaseHeld | ReasonAdminOnly | ReasonBGOnly | ReasonFarmOnly | ReasonUnknownKey
  | ReasonPrincipalReadonly | ReasonXProject | ReasonAuthRequired | ReasonProxyFenced
  | ReasonNotGranted | ReasonAuditUnavailable.
#[export] Instance Reason_eq_dec : EqDecision Reason.
Proof. solve_decision. Defined.

Definition reason_text (r : Reason) : string :=
  match r with
  | ReasonLeaseHeld => "LEASE_HELD"
  | ReasonAdminOnly => "ADMIN_ONLY"
  | ReasonBGOnly => "BG_ONLY"
  | ReasonFarmOnly => "FARM_ONLY"
  | ReasonUnknownKey => "UNKNOWN_KEY"
  | ReasonPrincipalReadonly => "PRINCIPAL_READONLY"
  | ReasonXProject => "XPROJECT"
  | ReasonAuthRequired => "AUTH_REQUIRED"
  | ReasonProxyFenced => "PROXY_FENCED"
  | ReasonNotGranted => "NOT_GRANTED"
  | ReasonAuditUnavailable => "AUDIT_UNAVAILABLE"
  end.

Definition enforcedInEveryMode (r : Reason) : bool :=
  bool_decide (r = ReasonNotGranted) || bool_decide (r = ReasonAuditUnavailable).

Record Denial : Type := mkDenial { DReason : Reason; DProj : Z; DHolder : string; DHost : string; DEpoch : Z }.

Definition deny (r : Reason) : Denial := mkDenial r 0 "" "" 0.

Record Outcome : Type := mkOutcome { Forwarded : bool; Committed : bool; Lost : bool; OConnID : Z }.

Definition ParseMode (s : string) : option Mode :=
  let m := ToLower (TrimSpace s) in
  if m =s "passthrough" then Some ModePassthrough
  else if m =s "observe" then Some ModeObserve
  else if m =s "enforce" then Some ModeEnforce
  else None.

Definition denyToken : string := "JMDENY".

(** One printable token, at most 128 bytes. *)
Definition sanitizeToken (s : string) : string :=
  if s =s "" then "-"
  else
    let b := map_bytes (fun c => if (bval c <=? 32) || (0x7f <=? bval c) then "_"%char else c) s in
    if 128 <? slen b then stake 128 b else b.

(** The loop of [Error]: it replaces until the text is free of the token. *)
Fixpoint scrub (fuel : nat) (msg : string) : option string :=
  match fuel with
  | O => None
  | S f => if Contains msg "EXECABORT" then scrub f (ReplaceAll msg "EXECABORT" "EXEC_ABORT") else Some msg
  end.

Definition errorText (d : Denial) : string :=
  denyToken +:+ " " +:+ sanitizeToken (reason_text (DReason d)) +:+ " proj=" +:+ FormatUint (DProj d) +:+
  " holder=" +:+ sanitizeToken (DHolder d) +:+ "@" +:+ sanitizeToken (DHost d) +:+ " epoch=" +:+ FormatUint (DEpoch d).

(** [None] would be a loop that has not finished; [denial_reply_is_one_frame]
    shows that two rounds are always enough. *)
Definition Error (d : Denial) : option string := scrub 2 (errorText d).

Definition Reply (d : Denial) : option string := (fun e => "-" +:+ e +:+ CRLF) <$> Error d.
