(* ===== verification/PolicyFacts.v ===== *)
(** * Theorems on refusals: a refusal is exactly one RESP error frame, with no
    text of a hostile name able to add a frame or a retryable token. *)

From S2P Require Import Prelude GoLib Resp RespFacts Classify Policy.

(** ** Byte classes *)
Fixpoint all_bytes (f : ascii -> bool) (s : string) : bool :=
  match s with "" => true | String c s' => f c && all_bytes f s' end.

Lemma all_bytes_app f a b : all_bytes f (a +:+ b) = all_bytes f a && all_bytes f b.
Proof. induction a as [|c a IH]; cbn; [done|]. by rewrite IH, andb_assoc. Qed.

Lemma all_bytes_stake f n s : all_bytes f s = true -> all_bytes f (stake n s) = true.
Proof.
  revert s. induction n as [|n IH]; intros [|c s]; cbn; try done.
  intros [Hc Hs]%andb_true_iff. by rewrite Hc, IH.
Qed.

Lemma all_bytes_map f g s : (forall c, f (g c) = true) -> all_bytes f (map_bytes g s) = true.
Proof. intros H. induction s as [|c s IH]; cbn; [done|]. by rewrite H. Qed.

Lemma all_bytes_digits f s : (forall c, is_Some (char_digit c) -> f c = true) ->
  all_digits s = true -> all_bytes f s = true.
Proof.
  intros H. induction s as [|c s IH]; cbn; [done|]. destruct (char_digit c) eqn:E; [|done].
  intros Hs. rewrite H by (rewrite E; eauto). by rewrite IH.
Qed.

Lemma all_bytes_IndexByte f s c : f c = false -> all_bytes f s = true -> IndexByte s c = None.
Proof.
  intros Hc. induction s as [|a s IH]; cbn; [done|]. intros [Ha Hs]%andb_true_iff.
  destruct (Ascii.eqb_spec a c) as [->|_]; [congruence|]. by rewrite IH.
Qed.

(** One byte of a token line: printable ASCII or a space. *)
Definition printable (c : ascii) : bool := (32 <=? bval c) && (bval c <? 127).

Lemma printable_digit c : is_Some (char_digit c) -> printable c = true.
Proof.
  intros [d H]. apply char_digit_inv in H as [Hd <-].
  assert (d = 0 \/ d = 1 \/ d = 2 \/ d = 3 \/ d = 4 \/ d = 5 \/ d = 6 \/ d = 7 \/ d = 8 \/ d = 9) as Hc by lia.
  repeat destruct Hc as [->|Hc]; subst; reflexivity.
Qed.

Lemma FormatUint_printable n : is_u64 n -> all_bytes printable (FormatUint n) = true.
Proof.
  intros H. apply all_bytes_digits; [apply printable_digit|]. apply all_digits_FormatUint. unfold is_u64 in H. lia.
Qed.

Lemma sanitize_printable s : all_bytes printable (sanitizeToken s) = true.
Proof.
  unfold sanitizeToken. destruct (s =s ""); [done|].
  set (b := map_bytes _ s). assert (Hb : all_bytes printable b = true).
  { apply all_bytes_map. intros c. destruct ((bval c <=? 32) || (0x7f <=? bval c)) eqn:E; [done|].
    apply orb_false_iff in E as [E1 E2]. unfold printable.
    destruct (Z.leb_spec 32 (bval c)), (Z.ltb_spec (bval c) 127); to_prop; try done; lia. }
  destruct (128 <? slen b); [by apply all_bytes_stake | done].
Qed.

Lemma length_map_bytes f s : String.length (map_bytes f s) = String.length s.
Proof. induction s; cbn; congruence. Qed.

Lemma length_sanitize s : (String.length (sanitizeToken s) <= 128)%nat.
Proof.
  unfold sanitizeToken. destruct (s =s ""); [cbn; lia|]. set (b := map_bytes _ s).
  destruct (Z.ltb_spec 128 (slen b)); [rewrite length_stake; lia|]. unfold slen in *. lia.
Qed.

(** ** ReplaceAll *)
Lemma replaceAll_bytes f fuel s old new :
  all_bytes f new = true -> all_bytes f s = true -> all_bytes f (replaceAll fuel s old new) = true.
Proof.
  intros Hn. revert s. induction fuel as [|n IH]; intros s Hs; cbn [replaceAll]; [done|].
  destruct (cut_prefix old s) as [r|] eqn:E.
  - apply cut_prefix_Some in E. subst. rewrite all_bytes_app in Hs. apply andb_true_iff in Hs as [_ Hr].
    by rewrite all_bytes_app, Hn, IH.
  - destruct s as [|c s]; [done|]. cbn in *. apply andb_true_iff in Hs as [Hc Hs]. by rewrite Hc, IH.
Qed.

Definition tok : string := "EXECABORT".
Definition tok' : string := "EXEC_ABORT".

Lemma replaceAll_length fuel s :
  (9 * String.length (replaceAll fuel s tok tok') <= 10 * String.length s)%nat.
Proof.
  revert s. induction fuel as [|n IH]; intros s; cbn [replaceAll]; [lia|].
  destruct (cut_prefix tok s) as [r|] eqn:E.
  - apply cut_prefix_Some in E. subst. rewrite !slength_app. specialize (IH r).
    change (String.length tok) with 9%nat. change (String.length tok') with 10%nat. lia.
  - destruct s as [|c s]; cbn [String.length]; [lia|]. specialize (IH s). lia.
Qed.

(** [t] and every non-empty suffix of it starts no replacement. *)
Fixpoint no_start (t : string) : Prop :=
  match t with
  | "" => True
  | String a t' => (forall r, cut_prefix t (tok' +:+ r) = None) /\ no_start t'
  end.

Lemma replaceAll_keeps t fuel s r :
  no_start t -> cut_prefix t (replaceAll fuel s tok tok') = Some r -> exists r', s = t +:+ r'.
Proof.
  revert fuel s. induction t as [|a t IH]; intros fuel s Ht H; [by exists s|].
  destruct Ht as [Hst Ht]. destruct fuel as [|n]; cbn [replaceAll] in H; [apply cut_prefix_Some in H; eauto|].
  destruct (cut_prefix tok s) as [q|] eqn:E; [by rewrite Hst in H|].
  destruct s as [|c s]; [done|]. apply cut_prefix_Some in H. cbn in H. injection H as -> H.
  destruct (IH n s Ht) as [r' ->]; [by apply cut_prefix_Some|]. by exists r'.
Qed.

Lemma replaceAll_clean fuel s : (String.length s < fuel)%nat -> Contains (replaceAll fuel s tok tok') tok = false.
Proof.
  revert s. induction fuel as [|n IH]; intros s Hl; [lia|]. cbn [replaceAll].
  destruct (cut_prefix tok s) as [r|] eqn:E.
  - apply cut_prefix_Some in E. subst. rewrite slength_app in Hl. change (String.length tok) with 9%nat in Hl.
    specialize (IH r ltac:(lia)). cbn [tok' String.append Contains]. rewrite IH. reflexivity.
  - destruct s as [|c s]; [done|]. cbn [Contains]. rewrite (IH s) by (cbn in Hl; lia). rewrite orb_false_r.
    unfold HasPrefix. destruct (cut_prefix tok (String c (replaceAll n s tok tok'))) as [q|] eqn:Eq; [exfalso|done].
    apply cut_prefix_Some in Eq. cbn in Eq. injection Eq as -> Eq.
    destruct (replaceAll_keeps "XECABORT" n s q) as [r' ->]; [ |by apply cut_prefix_Some | by cbn in E].
    cbn. repeat split; intros r; reflexivity.
Qed.

Lemma ReplaceAll_clean s : Contains (ReplaceAll s tok tok') tok = false.
Proof. apply replaceAll_clean. lia. Qed.

Lemma scrub_two msg : exists e, scrub 2 msg = Some e /\ Contains e tok = false /\ (e = msg \/ e = ReplaceAll msg tok tok').
Proof.
  cbn [scrub]. fold tok tok'. destruct (Contains msg tok) eqn:E; [|eauto].
  rewrite ReplaceAll_clean. eexists. split; [done|]. split; [apply ReplaceAll_clean|by right].
Qed.

(** ** The reply *)
Lemma errorText_printable d : is_u64 (DProj d) -> is_u64 (DEpoch d) -> all_bytes printable (errorText d) = true.
Proof.
  intros H1 H2. unfold errorText, denyToken.
  repeat rewrite all_bytes_app. by rewrite !sanitize_printable, !FormatUint_printable.
Qed.

Lemma length_errorText d : (String.length (errorText d) <= 480)%nat.
Proof.
  unfold errorText, denyToken. rewrite !slength_app.
  pose proof (length_sanitize (reason_text (DReason d))). pose proof (length_sanitize (DHolder d)).
  pose proof (length_sanitize (DHost d)). pose proof (length_FormatUint (DProj d)).
  pose proof (length_FormatUint (DEpoch d)). cbn [String.length]. lia.
Qed.

Lemma Error_ok d : is_u64 (DProj d) -> is_u64 (DEpoch d) ->
  exists e, Error d = Some e /\ Contains e tok = false /\ all_bytes printable e = true /\ (String.length e <= 600)%nat.
Proof.
  intros H1 H2. unfold Error. destruct (scrub_two (errorText d)) as (e & He & Hc & Hd).
  exists e. split; [done|]. split; [done|].
  pose proof (errorText_printable d H1 H2) as Hp. pose proof (length_errorText d) as Hl.
  destruct Hd as [->| ->]; [split; [done|lia]|]. split.
  - by apply replaceAll_bytes.
  - pose proof (replaceAll_length (S (String.length (errorText d))) (errorText d)). unfold ReplaceAll. lia.
Qed.

Lemma CopyFrame_error B e rest :
  all_bytes printable e = true -> (String.length e + 3 <= B)%nat ->
  CopyFrame B ("-" +:+ e +:+ CRLF +:+ rest) = Ok (mkFrameInfo "-" false, "-" +:+ e +:+ CRLF, rest).
Proof.
  intros Hp Hl. unfold CopyFrame. cbn [copyFrame].
  replace ("-" +:+ e +:+ CRLF +:+ rest) with ((String "-" e) +:+ CRLF +:+ rest) by reflexivity.
  rewrite readLine_ok; [reflexivity | | cbn; lia].
  by apply (all_bytes_IndexByte printable).
Qed.

(** Every refusal is sent as exactly one RESP error frame.  Rendering
    always finishes, the text has no token go-redis or juicefs retries, and a
    client that reads replies frame by frame consumes precisely the refusal,
    whatever the principal and host are called and whatever follows it. *)
Theorem denial_reply_is_one_frame B d rest :
  (1024 <= B)%nat -> is_u64 (DProj d) -> is_u64 (DEpoch d) ->
  exists e, Error d = Some e /\ Reply d = Some ("-" +:+ e +:+ CRLF) /\
    Contains e "EXECABORT" = false /\
    CopyFrame B ("-" +:+ e +:+ CRLF +:+ rest) = Ok (mkFrameInfo "-" false, "-" +:+ e +:+ CRLF, rest).
Proof.
  intros HB H1 H2. destruct (Error_ok d H1 H2) as (e & He & Hc & Hp & Hl). exists e.
  split; [done|]. split; [unfold Reply; by rewrite He|]. split; [done|].
  apply CopyFrame_error; [done|lia].
Qed.

(** A host name that tries to smuggle a frame and a retryable token. *)
Lemma denial_reply_is_one_frame_witness :
  exists e, Error (mkDenial ReasonLeaseHeld 42 ("eve" +:+ CRLF +:+ "+OK" +:+ CRLF) "EXECABORT" 7) = Some e /\
            Contains e "EXECABORT" = false.
Proof.
  destruct (denial_reply_is_one_frame 4096 (mkDenial ReasonLeaseHeld 42 ("eve" +:+ CRLF +:+ "+OK" +:+ CRLF) "EXECABORT" 7) "")
    as (e & He & _ & Hc & _); [lia | cbv; split; congruence | cbv; split; congruence |].
  exists e. split; [exact He | exact Hc].
Defined.
