(* ===== verification/Stores.v ===== *)
(** * The guard's stores (internal/respproxy/guard.go)

    [SessionStore], [IDOwners] and [SliceStore] are the guard's interfaces.
    Each is a class of operations with a class of laws: what the guard's and
    the proxy's theorems rely on.  The in-memory stores of the source are the
    instances. *)

From S2P Require Import Prelude GoLib Policy.

(** Which principal a juicefs session id was allocated to. *)
Class SessionStore (S : Type) : Type := {
  sessOwner : S -> Z -> result ioerr (option string);
  sessClaim : S -> Z -> string -> result ioerr string * S;
  sessRelease : S -> list Z -> result ioerr unit * S;
}.

(** [Claim] is HSETNX: the first claim of an id wins and later ones learn
    who holds it. *)
Class SessionStoreLaws (S : Type) `{SessionStore S} : Prop := {
  claim_owns s sid o o' s' : sessClaim s sid o = (Ok o', s') -> sessOwner s' sid = Ok (Some o');
  claim_new s sid o o' s' : sessClaim s sid o = (Ok o', s') -> sessOwner s sid = Ok None -> o' = o;
  claim_kept s sid o o' s' x : sessClaim s sid o = (Ok o', s') -> sessOwner s sid = Ok (Some x) -> o' = x;
  claim_frame s sid o r s' sid' : sessClaim s sid o = (r, s') -> sid' <> sid -> sessOwner s' sid' = sessOwner s sid';
  release_gone s sids s' sid : sessRelease s sids = (Ok tt, s') -> sid ∈ sids -> sessOwner s' sid = Ok None;
  release_frame s sids r s' sid : sessRelease s sids = (r, s') -> sid ∉ sids -> sessOwner s' sid = sessOwner s sid;
}.

(** Which principal an allocator handed each id to. *)
Class IDOwners (T : Type) : Type := {
  idOwner : T -> Z -> result ioerr (option string);
  idRecord : T -> Z -> Z -> string -> result ioerr unit * T;
}.

(** Allocators hand out ranges that nobody owns yet. *)
Class IDOwnersLaws (T : Type) `{IDOwners T} : Prop := {
  record_owns t lo hi o t' id : (forall x, lo <= x <= hi -> idOwner t x = Ok None) ->
    idRecord t lo hi o = (Ok tt, t') -> lo <= id <= hi -> idOwner t' id = Ok (Some o);
  record_kept t lo hi o t' id x : (forall y, lo <= y <= hi -> idOwner t y = Ok None) ->
    idRecord t lo hi o = (Ok tt, t') -> idOwner t id = Ok (Some x) -> idOwner t' id = Ok (Some x);
  record_frame t lo hi o r t' id : idRecord t lo hi o = (r, t') -> ~ (lo <= id <= hi) -> idOwner t' id = idOwner t id;
}.

(** Slice ids also have a persisted "used" bit. *)
Class SliceStore (T : Type) : Type := {
  slice_owners :: IDOwners T;
  sliceUsed : T -> Z -> result ioerr bool;
  sliceMarkUsed : T -> list Z -> bool -> result ioerr unit * T;
}.

Class SliceStoreLaws (T : Type) `{SliceStore T} : Prop := {
  mark_used t ids b t' id : sliceMarkUsed t ids b = (Ok tt, t') -> id ∈ ids -> sliceUsed t' id = Ok true;
  mark_frame t ids b r t' id : sliceMarkUsed t ids b = (r, t') -> id ∉ ids -> sliceUsed t' id = sliceUsed t id;
  mark_owner t ids b r t' id : sliceMarkUsed t ids b = (r, t') -> idOwner t' id = idOwner t id;
}.

(** Where slice [id]'s used bit lives: one bitmap per 2^20 ids. *)
Definition UsedBitKey (id : Z) : string := "jmlease:v1:sused:" +:+ FormatUint (Z.shiftr id 20).
Definition UsedBitOffset (id : Z) : Z := Z.land id (2^20 - 1).

(** ** The in-memory stores *)
Module MemSessionStore.
Abbreviation t := (gmap Z string) (only parsing).
Definition SidOwner (s : t) (sid : Z) : result ioerr (option string) := Ok (s !! sid).
Definition Claim (s : t) (sid : Z) (owner : string) : result ioerr string * t :=
  match s !! sid with
  | Some o => (Ok o, s)
  | None => (Ok owner, <[sid := owner]> s)
  end.
Definition Release (s : t) (sids : list Z) : result ioerr unit * t :=
  (Ok tt, foldl (fun m sid => delete sid m) s sids).
End MemSessionStore.

Lemma lookup_foldl_delete {A} (sids : list Z) (m : gmap Z A) sid :
  foldl (fun m sid => delete sid m) m sids !! sid = if decide (sid ∈ sids) then None else m !! sid.
Proof.
  revert m. induction sids as [|x sids IH]; intros m; cbn; [by rewrite decide_False by set_solver|].
  rewrite IH. destruct (decide (sid ∈ sids)), (decide (sid ∈ x :: sids)); try done; try set_solver.
  - assert (sid = x) as -> by set_solver. by rewrite lookup_delete_eq.
  - by rewrite lookup_delete_ne by set_solver.
Qed.

#[export] Instance mem_session_store : SessionStore MemSessionStore.t := {
  sessOwner := MemSessionStore.SidOwner;
  sessClaim := MemSessionStore.Claim;
  sessRelease := MemSessionStore.Release;
}.

#[export] Instance mem_session_store_laws : SessionStoreLaws MemSessionStore.t.
Proof.
  split; cbn; unfold MemSessionStore.SidOwner, MemSessionStore.Claim, MemSessionStore.Release; intros.
  - destruct (s !! sid) eqn:E; simplify_eq; f_equal; [done|]. by rewrite lookup_insert_eq.
  - destruct (s !! sid) eqn:E; simplify_eq; done.
  - destruct (s !! sid) eqn:E; simplify_eq; done.
  - destruct (s !! sid) eqn:E; simplify_eq; [done|]. by rewrite lookup_insert_ne.
  - simplify_eq. by rewrite lookup_foldl_delete, decide_True.
  - simplify_eq. by rewrite lookup_foldl_delete, decide_False.
Qed.

Record sliceRange : Type := mkRange { sr_lo : Z; sr_hi : Z; sr_owner : string }.

Module MemSliceStore.
Record t : Type := mk { ranges : list sliceRange; used : gmap Z bool }.
Definition Used (s : t) (id : Z) : result ioerr bool := Ok (default false (used s !! id)).
Definition MarkUsed (s : t) (ids : list Z) (persist : bool) : result ioerr unit * t :=
  (Ok tt, mk (ranges s) (foldl (fun m id => <[id := true]> m) (used s) ids)).
Fixpoint findRange (rs : list sliceRange) (id : Z) : option string :=
  match rs with
  | [] => None
  | r :: rs' => if (sr_lo r <=? id) && (id <=? sr_hi r) then Some (sr_owner r) else findRange rs' id
  end.
Definition IdOwner (s : t) (id : Z) : result ioerr (option string) := Ok (findRange (ranges s) id).
Definition Record_ (s : t) (lo hi : Z) (owner : string) : result ioerr unit * t :=
  (Ok tt, mk (ranges s ++ [mkRange lo hi owner]) (used s)).
Definition empty : t := mk [] ∅.
End MemSliceStore.

Lemma findRange_app rs rs' id :
  MemSliceStore.findRange (rs ++ rs') id =
  match MemSliceStore.findRange rs id with Some o => Some o | None => MemSliceStore.findRange rs' id end.
Proof. induction rs as [|r rs IH]; cbn; [done|]. by destruct (_ && _). Qed.

Lemma lookup_foldl_true (ids : list Z) (m : gmap Z bool) id :
  foldl (fun m id => <[id := true]> m) m ids !! id = if decide (id ∈ ids) then Some true else m !! id.
Proof.
  revert m. induction ids as [|x ids IH]; intros m; cbn; [by rewrite decide_False by set_solver|].
  rewrite IH. destruct (decide (id ∈ ids)), (decide (id ∈ x :: ids)); try done; try set_solver.
  - assert (id = x) as -> by set_solver. by rewrite lookup_insert_eq.
  - by rewrite lookup_insert_ne by set_solver.
Qed.

#[export] Instance mem_id_owners : IDOwners MemSliceStore.t := {
  idOwner := MemSliceStore.IdOwner;
  idRecord := MemSliceStore.Record_;
}.

#[export] Instance mem_slice_store : SliceStore MemSliceStore.t := {
  slice_owners := mem_id_owners;
  sliceUsed := MemSliceStore.Used;
  sliceMarkUsed := MemSliceStore.MarkUsed;
}.

#[export] Instance mem_id_owners_laws : IDOwnersLaws MemSliceStore.t.
Proof.
  split; cbn; unfold MemSliceStore.IdOwner, MemSliceStore.Record_; intros * H1; [intros H2 H3|intros H2 H3|intros H2]; simplify_eq; cbn;
    rewrite findRange_app; cbn [MemSliceStore.findRange sr_lo sr_hi sr_owner].
  - specialize (H1 id H3). injection H1 as ->. destruct (Z.leb_spec lo id), (Z.leb_spec id hi); try lia. done.
  - by match goal with H : MemSliceStore.findRange _ _ = Some _ |- _ => rewrite H end.
  - destruct (MemSliceStore.findRange (MemSliceStore.ranges t) id); [done|].
    destruct (Z.leb_spec lo id), (Z.leb_spec id hi); try lia; done.
Qed.

#[export] Instance mem_slice_store_laws : SliceStoreLaws MemSliceStore.t.
Proof.
  split; cbn; unfold MemSliceStore.IdOwner, MemSliceStore.MarkUsed, MemSliceStore.Used; intros; simplify_eq; cbn.
  - by rewrite lookup_foldl_true, decide_True.
  - by rewrite lookup_foldl_true, decide_False.
  - done.
Qed.
