(* ===== verification/Guard.v ===== *)
(** * The guard (internal/respproxy/guard.go): data, classes and counters

    The guard runs the command gate (step 1) and the key-class gate (step 2)
    on every unit.  Its operations run in the state/error monad over
    [CheckState]: the guard's memory, the unit (whose [Writes], [Project],
    [RefInodes] and [rewrite] it fills), the slice scope of the unit, and the
    number of clock readings made so far.  A refusal is [Denied], a Go
    run-time panic is [Panic]; either leaves the state as it was at that
    point.

    The stores are class instances and the side connection, the chunk reader
    and the counter reader are functions, [None] standing for a nil
    interface.  Reads made while one unit is checked see one state of those
    stores.  Go's map iteration order is the parameter [perm]. *)

From S2P Require Import Prelude GoLib GoTime Resp Classify Policy Stores.

Definition baseClass (k : KeyRef) (cmd : string) : KeyClass :=
  let g := Group k in
  if g =s "counter" then KCCounter
  else if g =s "session" then KCSession
  else if g =s "presence" then KCPresence
  else if g =s "linkbench" then KCLinkBench
  else if g =s "farm" then KCFarm
  else if (g =s "lease") || (g =s "admin") then KCAdmin
  else if g =s "bgmark" then KCBG
  else if g =s "gc" then KCBG
  else if g =s "quota" then if cmd =s "HDEL" then KCProject else KCAdmin
  else if g =s "dirstat" then
    if bool_decide (cmd ∈ ["HINCRBY"; "HINCRBYFLOAT"; "HSET"; "HSETNX"; "HMSET"; "HDEL"]) then KCProject else KCAdmin
  else if (g =s "inode") || (g =s "dentry") then KCProject
  else if g =s "channel" then KCChannel
  else KCUnknown.

Definition KeyClassOf (key : string) : KeyClass := baseClass (ParseKey key) "SET".

(** ** Memory *)
Record zeroRef : Type := mkZeroRef { zr_owner : string; zr_ino : Z }.
Record counterCache : Type := mkCC { cc_at : Z; cc_val : Z; cc_pending : Z }.
Record rateWindow : Type := mkRW { rw_start : Z; rw_net : Z }.

Definition ChunkReader : Type := Z -> string -> result ioerr (list string).
Definition CounterReader : Type := Z -> string -> result ioerr Z.
Definition sideDoer : Type := Z -> list string -> result ioerr Value.

Record Guard (S T : Type) : Type := mkGuard {
  sessions : S;
  slices : T;
  chunks : option ChunkReader;
  counters : option CounterReader;
  side : option sideDoer;
  zeroRefs : gmap string zeroRef;
  pendingDel : gmap string string;
  dropped : gmap string string;
  ctrCache : gmap string counterCache;
  rate : gmap string rateWindow;
}.
Arguments mkGuard {S T}.
Arguments sessions {S T}. Arguments slices {S T}. Arguments chunks {S T}. Arguments counters {S T}.
Arguments side {S T}. Arguments zeroRefs {S T}. Arguments pendingDel {S T}. Arguments dropped {S T}.
Arguments ctrCache {S T}. Arguments rate {S T}.

Definition set_sessions {S T} (g : Guard S T) (x : S) : Guard S T :=
  mkGuard x (slices g) (chunks g) (counters g) (side g) (zeroRefs g) (pendingDel g) (dropped g) (ctrCache g) (rate g).
Definition set_slices {S T} (g : Guard S T) (x : T) : Guard S T :=
  mkGuard (sessions g) x (chunks g) (counters g) (side g) (zeroRefs g) (pendingDel g) (dropped g) (ctrCache g) (rate g).
Definition set_zeroRefs {S T} (g : Guard S T) x : Guard S T :=
  mkGuard (sessions g) (slices g) (chunks g) (counters g) (side g) x (pendingDel g) (dropped g) (ctrCache g) (rate g).
Definition set_pendingDel {S T} (g : Guard S T) x : Guard S T :=
  mkGuard (sessions g) (slices g) (chunks g) (counters g) (side g) (zeroRefs g) x (dropped g) (ctrCache g) (rate g).
Definition set_dropped {S T} (g : Guard S T) x : Guard S T :=
  mkGuard (sessions g) (slices g) (chunks g) (counters g) (side g) (zeroRefs g) (pendingDel g) x (ctrCache g) (rate g).
Definition set_ctrCache {S T} (g : Guard S T) x : Guard S T :=
  mkGuard (sessions g) (slices g) (chunks g) (counters g) (side g) (zeroRefs g) (pendingDel g) (dropped g) x (rate g).
Definition set_rate {S T} (g : Guard S T) x : Guard S T :=
  mkGuard (sessions g) (slices g) (chunks g) (counters g) (side g) (zeroRefs g) (pendingDel g) (dropped g) (ctrCache g) x.

(** State learned from a unit, applied by [Commit] once it is admitted. *)
Record guardEffect : Type := mkEffect {
  zeroKey : string; zeroAdd : bool; zero : zeroRef;
  release : list Z;
  effUsed : list Z; usedPersist : bool;
  dropDone : list string;
  delKey : string; delAdd : bool; delOwn : string;
}.
Definition noZero : zeroRef := mkZeroRef "" 0.
Definition effZero (f : string) (ino : Z) : guardEffect := mkEffect f true (mkZeroRef "" ino) [] [] false [] "" false "".
Definition effZeroDone (f : string) : guardEffect := mkEffect f false noZero [] [] false [] "" false "".
Definition effRelease (sids : list Z) : guardEffect := mkEffect "" false noZero sids [] false [] "" false "".
Definition effUse (ids : list Z) (persist : bool) : guardEffect := mkEffect "" false noZero [] ids persist [] "" false "".
Definition effDropped (fs : list string) : guardEffect := mkEffect "" false noZero [] [] false fs "" false "".
Definition effDel (m : string) (add : bool) : guardEffect := mkEffect "" false noZero [] [] false [] m add "".
Definition set_delOwn (n : string) (e : guardEffect) : guardEffect :=
  mkEffect (zeroKey e) (zeroAdd e) (zero e) (release e) (effUsed e) (usedPersist e) (dropDone e) (delKey e) (delAdd e) n.
Definition set_zeroOwner (n : string) (e : guardEffect) : guardEffect :=
  if zeroAdd e
  then mkEffect (zeroKey e) (zeroAdd e) (mkZeroRef n (zr_ino (zero e))) (release e) (effUsed e) (usedPersist e) (dropDone e) (delKey e) (delAdd e) (delOwn e)
  else e.

(** ** Slice scopes *)
Record trimOp : Type := mkTrim { t_del : bool; t_start : Z; t_stop : Z }.

Record sliceScope : Type := mkScope {
  touched : gset Z;
  pushed : gmap string Z;
  pushedID : gmap Z Z;
  inc : gmap string Z;
  dec : gmap string Z;
  rewritten : gmap string trimOp;
  removed : gmap string Z;
  removedIn : gmap string string;
  firstUse : list Z;
  sc_read : bool;
  readErr : option Denial;
  badNumber : option Denial;
}.
Definition emptyScope : sliceScope := mkScope ∅ ∅ ∅ ∅ ∅ ∅ ∅ ∅ [] false None None.

Definition sc_touch (sc : sliceScope) (n : Z) : sliceScope :=
  mkScope ({[n]} ∪ touched sc) (pushed sc) (pushedID sc) (inc sc) (dec sc) (rewritten sc) (removed sc) (removedIn sc) (firstUse sc) (sc_read sc) (readErr sc) (badNumber sc).
Definition sc_push (sc : sliceScope) (f : string) (id ino : Z) : sliceScope :=
  mkScope (touched sc) (<[f := ino]> (pushed sc)) (<[id := ino]> (pushedID sc)) (inc sc) (dec sc) (rewritten sc) (removed sc) (removedIn sc) (firstUse sc) (sc_read sc) (readErr sc) (badNumber sc).
Definition sc_set_inc (sc : sliceScope) x : sliceScope :=
  mkScope (touched sc) (pushed sc) (pushedID sc) x (dec sc) (rewritten sc) (removed sc) (removedIn sc) (firstUse sc) (sc_read sc) (readErr sc) (badNumber sc).
Definition sc_set_dec (sc : sliceScope) x : sliceScope :=
  mkScope (touched sc) (pushed sc) (pushedID sc) (inc sc) x (rewritten sc) (removed sc) (removedIn sc) (firstUse sc) (sc_read sc) (readErr sc) (badNumber sc).
Definition sc_set_rewritten (sc : sliceScope) x : sliceScope :=
  mkScope (touched sc) (pushed sc) (pushedID sc) (inc sc) (dec sc) x (removed sc) (removedIn sc) (firstUse sc) (sc_read sc) (readErr sc) (badNumber sc).
Definition sc_set_removed (sc : sliceScope) x y : sliceScope :=
  mkScope (touched sc) (pushed sc) (pushedID sc) (inc sc) (dec sc) (rewritten sc) x y (firstUse sc) (sc_read sc) (readErr sc) (badNumber sc).
Definition sc_use (sc : sliceScope) (id : Z) : sliceScope :=
  mkScope (touched sc) (pushed sc) (pushedID sc) (inc sc) (dec sc) (rewritten sc) (removed sc) (removedIn sc) (firstUse sc ++ [id]) (sc_read sc) (readErr sc) (badNumber sc).
Definition sc_start_read (sc : sliceScope) : sliceScope :=
  mkScope (touched sc) (pushed sc) (pushedID sc) (inc sc) (dec sc) (rewritten sc) ∅ ∅ (firstUse sc) true (readErr sc) (badNumber sc).
Definition sc_set_readErr (sc : sliceScope) (d : Denial) : sliceScope :=
  mkScope (touched sc) (pushed sc) (pushedID sc) (inc sc) (dec sc) (rewritten sc) (removed sc) (removedIn sc) (firstUse sc) (sc_read sc) (Some d) (badNumber sc).
Definition sc_set_bad (sc : sliceScope) (d : Denial) : sliceScope :=
  mkScope (touched sc) (pushed sc) (pushedID sc) (inc sc) (dec sc) (rewritten sc) (removed sc) (removedIn sc) (firstUse sc) (sc_read sc) (readErr sc) (Some d).

(** [m[k] += n] on a map[string]int64. *)
Definition addi64 (m : gmap string Z) (k : string) (n : Z) : gmap string Z :=
  <[k := i64 (default 0 (m !! k) + n)]> m.

(** juicefs's sliceRef field, and the marshalled chunk element. *)
Definition sliceKeyOf (id size : Z) : string := "k" +:+ FormatUint id +:+ "_" +:+ FormatUint size.

#[global] Arguments sliceKeyOf : simpl never.

Definition be32u (b : string) : Z := be_fold 0 (stake 4 b).
Definition be64u (b : string) : Z := be_fold 0 (stake 8 b).

Definition chunkElem (v : string) : option (Z * Z) :=
  if negb (slen v =? 24) then None else Some (be64u (sub v 4 12), be32u (sub v 12 16)).

(** ** The check's state and monad *)
Inductive exc : Type := Denied (d : Denial) | Panic.

Record CheckState (S T : Type) : Type := mkCS { cs_g : Guard S T; cs_u : Unit; cs_sc : sliceScope; cs_tick : nat }.
Arguments mkCS {S T}. Arguments cs_g {S T}. Arguments cs_u {S T}. Arguments cs_sc {S T}. Arguments cs_tick {S T}.

Definition upd_g {S T} (f : Guard S T -> Guard S T) (s : CheckState S T) : CheckState S T :=
  mkCS (f (cs_g s)) (cs_u s) (cs_sc s) (cs_tick s).
Definition upd_u {S T} (f : Unit -> Unit) (s : CheckState S T) : CheckState S T :=
  mkCS (cs_g s) (f (cs_u s)) (cs_sc s) (cs_tick s).
Definition upd_sc {S T} (f : sliceScope -> sliceScope) (s : CheckState S T) : CheckState S T :=
  mkCS (cs_g s) (cs_u s) (f (cs_sc s)) (cs_tick s).
Definition upd_tick {S T} (s : CheckState S T) : CheckState S T :=
  mkCS (cs_g s) (cs_u s) (cs_sc s) (Datatypes.S (cs_tick s)).

Definition nilCmd : Cmd := mkCmd [] (mkCommand "" ClassUnknown [] [] "").

(** [u.Cmds[i]]. *)
Definition cmd_at (u : Unit) (i : nat) : Cmd := default nilCmd (Cmds u !! i).
Definition cname (c : Cmd) : string := Name (Info c).
Definition wcmd (u : Unit) (w : KeyWrite) : Cmd := cmd_at u (KWCmd w).

(** [u.Writes[i].Class = cl]. *)
Definition set_class (i : nat) (cl : KeyClass) (u : Unit) : Unit :=
  set_Writes u (alter (fun w => mkKeyWrite (KWCmd w) (KWKey w) (KWRaw w) cl) i (Writes u)).

Definition isHSet (name : string) : bool := (name =s "HSET") || (name =s "HSETNX") || (name =s "HMSET").

(** Bare commands that need no gate (step 0). *)
Definition needsGate (c : Command) : bool :=
  match CClass c with
  | ClassRead | ClassTxn | ClassPubSub | ClassConn => false
  | ClassAdmin => Name c =s "CONFIG"
  | _ => true
  end.

Definition serverPrincipal (p : Principal) : bool :=
  match PKind p with KindFarm | KindManager | KindAdmin => true | _ => false end.

Definition is_admin (p : Principal) : bool := bool_decide (PKind p = KindAdmin).
Definition is_bg (p : Principal) : bool := bool_decide (PKind p = KindBG).

(** ** Counters *)
Definition maxAlloc (k : string) : option Z :=
  if k =s "nextinode" then Some (2^10)
  else if k =s "nextchunk" then Some (2^12)
  else if k =s "nextsession" then Some 16
  else if k =s "nextTrash" then Some 1
  else None.

Definition maxUsedSpaceDelta : Z := 2^40.
Definition maxTotalInodesDelta : Z := 1.
Definition counterLimit : Z := 2^60.
Definition rateWindowLen : Z := 60 * 10^9.
Definition counterRefresh : Z := 10^9.

Definition rateBounds (k : string) : option (Z * Z) :=
  if k =s "usedSpace" then Some (- (64 * 2^40), 2^40)
  else if k =s "totalInodes" then Some (-10000000, 1000000)
  else None.

Definition counterDelta (c : Cmd) : option Z :=
  let name := cname c in
  if name =s "INCR" then Some 1
  else if name =s "DECR" then Some (-1)
  else if (name =s "INCRBY") || (name =s "DECRBY") then
    match Args c with
    | [_; _; a2] =>
        n ← RedisInt a2;
        if (name =s "DECRBY") && (n =? min_i64) then None
        else Some (if name =s "DECRBY" then - n else n)
    | _ => None
    end
  else None.

(** The allocator a bare unit advances and by how much; 0 is none. *)
Definition Allocation (u : Unit) : string * Z :=
  match UKind u, Cmds u with
  | UnitBare, [c] =>
      match Keys (Info c) with
      | [k] =>
          let k := Shape k in
          if bool_decide (k ∈ ["nextsession"; "nextchunk"; "nextTrash"]) then
            match counterDelta c, maxAlloc k with
            | Some d, Some m => if (0 <? d) && (d <=? m) then (k, d) else ("", 0)
            | _, _ => ("", 0)
            end
          else if k =s "nextinode" then
            match counterDelta c, maxAlloc k with
            | Some d, Some m => if d =? m then (k, d) else ("", 0)
            | _, _ => ("", 0)
            end
          else ("", 0)
      | _ => ("", 0)
      end
  | _, _ => ("", 0)
  end.
