(* ===== verification/GuardScope.v ===== *)
(** * The slice scope of a unit (internal/respproxy/guard.go)

    What one unit says about slices: which it pushes into which chunk, how
    many references it adds ([inc]), asks to drop ([dec]) and actually removes
    from WATCHed chunks it rewrites ([removed]).  Every push must be a first
    link of the principal's own slice, or be paid by an increment or by a
    removed copy; every decrement must be paid by what is left. *)

From S2P Require Import Prelude GoLib GoTime Resp Classify Policy Stores Guard.

Section scope.
Context {S T : Type} `{SessionStore S} `{SliceStore T}.
(** Go's unspecified map iteration order. *)
Context (perm : forall A : Type, list A -> list A).

Abbreviation M := (SM (CheckState S T) exc).

Definition refuse {A} (r : Reason) : M A := sm_err (Denied (deny r)).
Definition panic {A} : M A := sm_err Panic.
Definition get_g : M (Guard S T) := fun s => (Ok (cs_g s), s).
Definition get_u : M Unit := fun s => (Ok (cs_u s), s).
Definition get_sc : M sliceScope := fun s => (Ok (cs_sc s), s).
Definition mod_g (f : Guard S T -> Guard S T) : M unit := sm_modify (upd_g f).
Definition mod_u (f : Unit -> Unit) : M unit := sm_modify (upd_u f).
Definition mod_sc (f : sliceScope -> sliceScope) : M unit := sm_modify (upd_sc f).

(** A fallible store read: its error refuses the unit. *)
Definition orRefuse {A} (r : Reason) (x : result ioerr A) : M A :=
  match x with Ok a => mret a | Err _ => refuse r end.

(** [c.Args[2:]]. *)
Definition args2 (c : Cmd) : M (list string) :=
  match args_from 2 (Args c) with Some l => mret l | None => panic end.

Record sliceField : Type := mkField { sf_raw : string; sf_id : Z }.

Definition sliceFieldOf (s : string) : option sliceField :=
  if (slen s <? 4) || negb (match s with String c _ => Ascii.eqb c "k" | "" => false end) then None
  else match IndexByte s "_" with
       | Some (Datatypes.S (Datatypes.S _) as u) =>
           match digits (sub s 1 u), digits (sdrop (Datatypes.S u) s) with
           | Some id, Some _ => Some (mkField s id)
           | _, _ => None
           end
       | _ => None
       end.

(** [nil, false] is [None]. *)
Definition sliceRefFields (c : Cmd) : M (option (list sliceField)) :=
  let name := cname c in
  let n := length (Args c) in
  if (name =s "HSET") || (name =s "HMSET") then
    mret (if Nat.ltb n 4 || negb (Nat.even n) then None else mapM sliceFieldOf (evens (drop 2 (Args c))))
  else if (name =s "HINCRBY") || (name =s "HSETNX") then
    mret (if negb (Nat.eqb n 4) then None else mapM sliceFieldOf (take 1 (drop 2 (Args c))))
  else if name =s "HDEL" then
    raws ← args2 c; mret (mapM sliceFieldOf raws)
  else mret None.

Definition delSliceField (s : string) : option Z :=
  match IndexByte s "_" with
  | Some (Datatypes.S _ as u) =>
      match digits (stake u s), digits (sdrop (Datatypes.S u) s) with
      | Some id, Some _ => Some id
      | _, _ => None
      end
  | _ => None
  end.

(** The inode of a delfiles ("<ino>:<len>") or detachedNodes member. *)
Definition memberIno (r : string) : option Z :=
  match IndexByte r ":" with
  | Some (Datatypes.S _ as i) =>
      match digits (sdrop (Datatypes.S i) r) with
      | Some _ => digits (stake i r)
      | None => None
      end
  | _ => digits r
  end.

Definition cleanupMembers (c : Cmd) : M (option (list Z)) :=
  let name := cname c in
  let n := length (Args c) in
  if name =s "ZADD" then
    mret (if Nat.ltb n 4 || negb (Nat.even n) then None
          else match mapM RedisInt (evens (drop 2 (Args c))) with
               | Some _ => mapM memberIno (odds (drop 2 (Args c)))
               | None => None
               end)
  else if name =s "ZREM" then raws ← args2 c; mret (mapM memberIno raws)
  else mret None.

(** One write of [newSliceScope]'s loop; [firstWrite] is the set of chunk
    keys already written. *)
Definition scopeWrite (u : Unit) (acc : sliceScope * gset string) (w : KeyWrite) : M (sliceScope * gset string) :=
  let '(sc, firstWrite) := acc in
  let c := wcmd u w in
  let name := cname c in
  sc ← (if (Shape (KWKey w) =s "sliceRef") && (name =s "HINCRBY") && Nat.eqb (length (Args c)) 4 then
          match RedisInt (default "" (Args c !! 3%nat)) with
          | None => mret (sc_set_bad sc (deny ReasonUnknownKey))
          | Some n =>
              if 0 <? n then
                fs ← sliceRefFields c;
                mret (match fs with
                      | Some fs => foldl (fun sc f => sc_set_inc sc (addi64 (inc sc) (sf_raw f) n)) sc fs
                      | None => sc
                      end)
              else mret sc
          end
        else mret sc);
  if (Group (KWKey w) =s "gc") || negb (HasIno (KWKey w)) then mret (sc, firstWrite)
  else
    let sc := sc_touch sc (Ino (KWKey w)) in
    if negb (Shape (KWKey w) =s ShapeChunk) then mret (sc, firstWrite)
    else
      let raw := KWRaw w in
      let watched := bool_decide (raw ∈ Watched u) in
      let firstWrite' := {[raw]} ∪ firstWrite in
      mret (
        if decide (raw ∈ firstWrite) then
          (if bool_decide (is_Some (rewritten sc !! raw)) && negb (name =s "RPUSH") && negb (name =s "LPUSH")
           then sc_set_rewritten sc (delete raw (rewritten sc)) else sc, firstWrite')
        else if name =s "LTRIM" then
          match Args c with
          | [_; _; a2; a3] =>
              match RedisInt a2, RedisInt a3 with
              | Some st, Some sp =>
                  (if watched then sc_set_rewritten sc (<[raw := mkTrim false st sp]> (rewritten sc)) else sc, firstWrite')
              | _, _ => (sc_set_bad sc (deny ReasonUnknownKey), firstWrite')
              end
          | _ => (sc_set_bad sc (deny ReasonUnknownKey), firstWrite')
          end
        else if negb watched then (sc, firstWrite')
        else if (name =s "DEL") || (name =s "UNLINK")
        then (sc_set_rewritten sc (<[raw := mkTrim true 0 0]> (rewritten sc)), firstWrite')
        else (sc, firstWrite')).

Definition newSliceScope (u : Unit) : M sliceScope :=
  '(sc, _) ← mfold (scopeWrite u) (emptyScope, ∅) (Writes u); mret sc.

(** Which indices LTRIM keeps, as Redis clamps them. *)
Definition trim_keeps (op : trimOp) (n i : Z) : bool :=
  if t_del op then false
  else
    let s := if t_start op <? 0 then t_start op + n else t_start op in
    let e := if t_stop op <? 0 then t_stop op + n else t_stop op in
    let s := if s <? 0 then 0 else s in
    (s <=? i) && (i <=? e).

(** The elements of a chunk list, with their indices, that the trim drops. *)
Fixpoint countRemoved (op : trimOp) (key : string) (n i : Z) (elems : list string)
    (acc : gmap string Z * gmap string string) : gmap string Z * gmap string string :=
  match elems with
  | [] => acc
  | el :: elems' =>
      let acc' :=
        if trim_keeps op n i then acc
        else match chunkElem el with
             | Some (id, size) =>
                 if id =? 0 then acc
                 else let f := sliceKeyOf id size in (addi64 (fst acc) f 1, <[f := key]> (snd acc))
             | None => acc
             end in
      countRemoved op key n (i + 1) elems' acc'
  end.

Definition readFail : M unit :=
  mod_sc (fun sc => sc_set_readErr sc (deny ReasonBGOnly)) ≫= fun _ => refuse ReasonBGOnly.

(** Load every rewritten chunk once and count the copies its LTRIM/DEL
    removes. *)
Definition sideRead : M unit :=
  sc ← get_sc;
  match readErr sc with
  | Some d => sm_err (Denied d)
  | None =>
      if sc_read sc then mret tt
      else
        mod_sc sc_start_read ≫= fun _ =>
        u ← get_u; g ← get_g;
        (match beforeSide u with
         | Some (Err _) => if decide (rewritten sc = ∅) then mret tt else readFail
         | _ => mret tt
         end) ≫= fun _ =>
        match chunks g with
        | None => mret tt
        | Some read =>
            mfor (perm _ (map_to_list (rewritten sc))) (fun '(key, op) =>
              match read (DB u) key with
              | Err _ => readFail
              | Ok elems =>
                  mod_sc (fun sc =>
                    let '(r, rin) := countRemoved op key (Z.of_nat (length elems)) 0 elems (removed sc, removedIn sc) in
                    sc_set_removed sc r rin)
              end)
        end
  end.

(** Rule (a): the first link of a slice allocated to [p], only in a txn. *)
Definition firstLink (p : Principal) (thisUnit : gset Z) (id : Z) : M bool :=
  u ← get_u; g ← get_g;
  if bool_decide (UKind u = UnitTxn) && bool_decide (id ∉ thisUnit) then
    owner ← orRefuse ReasonBGOnly (idOwner (slices g) id);
    if bool_decide (owner = Some (PName p)) then
      used ← orRefuse ReasonBGOnly (sliceUsed (slices g) id);
      if used : bool then mret false
      else mod_sc (fun sc => sc_use sc id) ≫= fun _ => mret true
    else mret false
  else mret false.

(** One pushed element: paid by (a), (b) an increment or (c) a removed copy
    of the same field from the same chunk. *)
Definition pushElem (p : Principal) (w : KeyWrite) (thisUnit : gset Z) (v : string) : M (gset Z) :=
  match chunkElem v with
  | None => refuse ReasonUnknownKey
  | Some (id, size) =>
      if id =? 0 then mret thisUnit
      else
        let f := sliceKeyOf id size in
        a ← firstLink p thisUnit id;
        sc ← get_sc;
        paid ← (if a : bool then mret true
                else if 0 <? default 0 (inc sc !! f)
                then mod_sc (fun sc => sc_set_inc sc (addi64 (inc sc) f (-1))) ≫= fun _ => mret true
                else
                  sideRead ≫= fun _ =>
                  sc ← get_sc;
                  if (0 <? default 0 (removed sc !! f)) && bool_decide (removedIn sc !! f = Some (KWRaw w))
                  then mod_sc (fun sc => sc_set_removed sc (addi64 (removed sc) f (-1)) (removedIn sc)) ≫= fun _ => mret true
                  else mret false);
        if paid : bool then
          mod_sc (fun sc => sc_push sc f id (Ino (KWKey w))) ≫= fun _ => mret ({[id]} ∪ thisUnit)
        else refuse ReasonAdminOnly
  end.

Definition pushWrite (p : Principal) (u : Unit) (thisUnit : gset Z) (w : KeyWrite) : M (gset Z) :=
  if negb (Shape (KWKey w) =s ShapeChunk) then mret thisUnit
  else
    let c := wcmd u w in
    let name := cname c in
    if bool_decide (name ∈ ["RPUSH"; "LPUSH"; "RPUSHX"; "LPUSHX"]) then
      vs ← args2 c; mfold (pushElem p w) thisUnit vs
    else if bool_decide (name ∈ ["LTRIM"; "DEL"; "UNLINK"]) then mret thisUnit
    else refuse ReasonAdminOnly.

Definition validatePushes (p : Principal) : M unit :=
  sc ← get_sc;
  match badNumber sc with
  | Some d => sm_err (Denied d)
  | None => u ← get_u; mfold (pushWrite p u) ∅ (Writes u) ≫= fun _ => mret tt
  end.

(** Charge [n] decrements of field [f]; the inode its slice belongs to. *)
Definition payDecrement (f : string) (n : Z) : M Z :=
  sideRead ≫= fun _ =>
  sc ← get_sc;
  let avail := i64 (default 0 (removed sc !! f) + default 0 (inc sc !! f)) in
  if avail <? n then refuse ReasonBGOnly
  else match removedIn sc !! f with
       | Some key => mret (Ino (ParseKey key))
       | None =>
           match pushed sc !! f with
           | Some ino => mret ino
           | None => refuse ReasonBGOnly
           end
       end.

Definition resolve (f : string) : M Z :=
  sc ← get_sc;
  match pushed sc !! f with
  | Some ino => mret ino
  | None =>
      sideRead ≫= fun _ =>
      sc ← get_sc;
      match removedIn sc !! f with
      | Some key => mret (Ino (ParseKey key))
      | None => refuse ReasonBGOnly
      end
  end.

(** The 12-byte (id,size) records of a delSlices value. *)
Fixpoint records12 (fuel : nat) (v : string) : list string :=
  match fuel with
  | O => []
  | Datatypes.S f => match v with "" => [] | _ => stake 12 v :: records12 f (sdrop 12 v) end
  end.

(** One field of a sliceRef write in [anchorCleanup]. *)
Definition anchorField (c : Cmd) (acc : gset Z * list guardEffect) (f : sliceField) : M (gset Z * list guardEffect) :=
  let '(refs, eff) := acc in
  let a3 := default "" (Args c !! 3%nat) in
  if (cname c =s "HSET") && Nat.eqb (length (Args c)) 4 && (a3 =s "0") then
    sc ← get_sc;
    match pushed sc !! sf_raw f with
    | None => refuse ReasonBGOnly
    | Some ino => mret ({[ino]} ∪ refs, eff ++ [effZero (sf_raw f) ino])
    end
  else if cname c =s "HINCRBY" then
    match RedisInt a3 with
    | None => refuse ReasonBGOnly
    | Some n =>
        if (n =? 0) || (n =? min_i64) then refuse ReasonBGOnly
        else if n <? 0 then
          mod_sc (fun sc => sc_set_dec sc (addi64 (dec sc) (sf_raw f) (- n))) ≫= fun _ => mret (refs, eff)
        else ino ← resolve (sf_raw f); mret ({[ino]} ∪ refs, eff)
    end
  else refuse ReasonBGOnly.

(** One write of [anchorCleanup]'s loop. *)
Definition anchorWrite (acc : gset Z * list guardEffect) (iw : nat * KeyWrite) : M (gset Z * list guardEffect) :=
  let '(i, w) := iw in
  let '(refs, eff) := acc in
  if negb (Group (KWKey w) =s "gc") then mret acc
  else
    u ← get_u;
    let c := wcmd u w in
    let sh := Shape (KWKey w) in
    acc' ← (
      if (sh =s "delfiles") || (sh =s "detachedNodes") then
        members ← cleanupMembers c;
        match members with
        | None | Some [] => refuse ReasonBGOnly
        | Some ms =>
            sc ← get_sc;
            if bool_decide (Forall (fun ino => ino ∈ touched sc) ms) then
              mret (list_to_set ms ∪ refs,
                    eff ++ (if (sh =s "delfiles") && (cname c =s "ZADD")
                            then (fun m => effDel m true) <$> evens (drop 3 (Args c)) else []))
            else refuse ReasonBGOnly
        end
      else if sh =s "sliceRef" then
        fields ← sliceRefFields c;
        match fields with
        | None | Some [] => refuse ReasonBGOnly
        | Some fs => mfold (anchorField c) (refs, eff) fs
        end
      else if sh =s "delSlices" then
        match Args c with
        | [_; _; a2; a3] =>
            if negb (cname c =s "HSET") then refuse ReasonBGOnly
            else match delSliceField a2 with
            | None => refuse ReasonBGOnly
            | Some id =>
                if (slen a3 =? 0) || negb (slen a3 mod 12 =? 0) then refuse ReasonBGOnly
                else
                  sc ← get_sc;
                  match pushedID sc !! id with
                  | None => refuse ReasonBGOnly
                  | Some ino =>
                      mod_sc (fun sc => foldl (fun sc r => sc_set_dec sc
                        (addi64 (dec sc) (sliceKeyOf (be64u (sub r 0 8)) (be32u (sub r 8 12))) 1)) sc
                        (records12 (String.length a3) a3)) ≫= fun _ =>
                      mret ({[ino]} ∪ refs, eff)
                  end
            end
        | _ => refuse ReasonBGOnly
        end
      else refuse ReasonBGOnly);
    mod_u (set_class i KCProject) ≫= fun _ => mret acc'.

Definition anchorCleanup : M (list guardEffect) :=
  u ← get_u;
  '(refs, eff) ← mfold anchorWrite (∅, []) (imap pair (Writes u));
  sc ← get_sc;
  refs ← mfold (fun refs '(f, n) => ino ← payDecrement f n; mret ({[ino]} ∪ refs)) refs (perm _ (map_to_list (dec sc)));
  mod_u (fun u => set_RefInodes u (RefInodes u ++ perm _ (elements refs))) ≫= fun _ =>
  mret eff.

(** A gc-only txn that drops zero references [p] recorded itself. *)
Definition ownZeroWrite (p : Principal) (eff : list guardEffect) (iw : nat * KeyWrite) : M (list guardEffect) :=
  let '(i, w) := iw in
  u ← get_u;
  let c := wcmd u w in
  if negb (Shape (KWKey w) =s "sliceRef") || negb (cname c =s "HDEL") || Nat.ltb (length (Args c)) 3
  then refuse ReasonBGOnly
  else
    fs ← args2 c;
    eff ← mfold (fun eff f =>
      g ← get_g;
      match zeroRefs g !! f with
      | None => refuse ReasonBGOnly
      | Some z =>
          if negb (zr_owner z =s PName p) then refuse ReasonBGOnly
          else mod_u (fun u => set_RefInodes u (RefInodes u ++ [zr_ino z])) ≫= fun _ => mret (eff ++ [effZeroDone f])
      end) eff fs;
    mod_u (set_class i KCProject) ≫= fun _ => mret eff.

Definition ownZeroRefDrop (p : Principal) : M (list guardEffect) :=
  u ← get_u; mfold (ownZeroWrite p) [] (imap pair (Writes u)).

(** The script the proxy runs in place of a bare HDEL sliceRef. *)
Definition nl : string := String LF "".
Definition SliceDropScript : string :=
  "local n = 0" +:+ nl +:+
  "for _, f in ipairs(ARGV) do" +:+ nl +:+
  "  local v = tonumber(redis.call('HGET', KEYS[1], f))" +:+ nl +:+
  "  if v ~= nil and v <= 0 then n = n + redis.call('HDEL', KEYS[1], f) end" +:+ nl +:+
  "end" +:+ nl +:+
  "return n".

Definition ownSliceDrop (p : Principal) : M (list guardEffect) :=
  u ← get_u; g ← get_g;
  let c := cmd_at u 0 in
  fs ← sliceRefFields c;
  match fs with
  | None | Some [] => refuse ReasonBGOnly
  | Some fs =>
      mfor fs (fun f =>
        if bool_decide (default "" (dropped g !! sf_raw f) = PName p) then mret tt
        else
          owner ← orRefuse ReasonBGOnly (idOwner (slices g) (sf_id f));
          if bool_decide (owner = Some (PName p)) then mret tt else refuse ReasonBGOnly) ≫= fun _ =>
      mod_u (fun u => set_rewrite u (["EVAL"; SliceDropScript; "1"; "sliceRef"] ++ (sf_raw <$> fs))) ≫= fun _ =>
      mret [effDropped (sf_raw <$> fs)]
  end.

Definition ownDelfilesDrop (p : Principal) (c : Cmd) : M (list guardEffect) :=
  if Nat.ltb (length (Args c)) 3 then refuse ReasonBGOnly
  else
    ms ← args2 c; g ← get_g;
    mfor ms (fun m => if bool_decide (default "" (pendingDel g !! m) = PName p) then mret tt else refuse ReasonBGOnly) ≫= fun _ =>
    mret ((fun m => effDel m false) <$> ms).

(** [NoteDropped]: [p]'s committed txn took field [f] below zero. *)
Definition NoteDropped (p : Principal) (f : string) (g : Guard S T) : Guard S T :=
  let m := if 1000000 <? Z.of_nat (size (dropped g)) then ∅ else dropped g in
  set_dropped g (<[f := PName p]> m).

End scope.
