(* ===== verification/GuardCheck.v ===== *)
(** * The gates and [Check] (internal/respproxy/guard.go)

    [Check] is the composition, in the source's order, of the command gate,
    the refinement of trash classes, the own-record drops, the slice
    validation and cleanup anchoring, and the key-class gate. *)

From S2P Require Import Prelude GoLib GoTime Resp Classify Policy Stores Guard GuardScope.

(** A JuiceFS attr: its type and Attr.Parent (txnunit.go). *)
Record attrInfo : Type := mkAttr { a_typ : Z; a_parent : Z }.

Definition parseAttr (v : string) : option attrInfo :=
  p ← attrParent v;
  b ← byte_at v 1;
  Some (mkAttr (Z.shiftr (bval b) 4) p).

Definition typeFile : Z := 1.
Definition typeDir : Z := 2.
Definition isTrashIno (n : Z) : bool := TrashInode <=? n.

(** Arguments Redis parses with string2ll. *)
Definition integerIdx (name : string) : list nat :=
  if bool_decide (name ∈ ["INCRBY"; "DECRBY"; "EXPIRE"; "PEXPIRE"; "EXPIREAT"; "PEXPIREAT"; "SETEX"; "PSETEX"]) then [2%nat]
  else if name =s "HINCRBY" then [3%nat]
  else if name =s "LTRIM" then [2%nat; 3%nat]
  else [].

Definition integerArgsOK (c : Cmd) : bool :=
  forallb (fun i => match Args c !! i with
                    | Some a => bool_decide (is_Some (RedisInt a))
                    | None => false
                    end) (integerIdx (cname c)).

(** [args[3:]] panics on a shorter command: [None]. *)
Definition hasDBOption (args : list string) : option bool :=
  existsb (fun a => EqualFold a "DB") <$> args_from 3 args.

Definition configSecrets : list string := ["pass"; "user"; "acl"; "tls"; "auth"; "dir"; "dbfilename"; "logfile"].

Definition safeConfigGet (args : list string) : bool :=
  match args with
  | _ :: a1 :: (_ :: _ as params) =>
      EqualFold a1 "GET" &&
      forallb (fun a => let s := ToLower a in
                        negb (ContainsAny s "*?[") && forallb (fun bad => negb (Contains s bad)) configSecrets) params
  | _ => false
  end.

(** SET with EX <= 60 or PX <= 60000, or the DEL cleanup: the options from
    the first recognised pair on. *)
Fixpoint linkBenchOpts (args : list string) : bool :=
  match args with
  | a :: (b :: _) as rest =>
      match RedisInt b with
      | Some n =>
          if 0 <? n then
            if ToUpper a =s "EX" then n <=? 60
            else if ToUpper a =s "PX" then n <=? 60000
            else linkBenchOpts rest
          else linkBenchOpts rest
      | None => linkBenchOpts rest
      end
  | _ => false
  end.

Definition linkBenchOK (c : Cmd) : bool :=
  if (cname c =s "DEL") || (cname c =s "UNLINK") then true
  else if cname c =s "SET" then linkBenchOpts (drop 3 (Args c))
  else false.

(** Is set member [m] written by the unit as juicefs writes it alongside the
    SADD?  The inode, if so. *)
Definition sessionMemberWritten (u : Unit) (shape m : string) : option Z :=
  if shape =s ShapeSession then
    match digits m with
    | None => None
    | Some n =>
        if isTrashIno n then None
        else if existsb (fun x => (Shape (KWKey x) =s ShapeInode) && (Ino (KWKey x) =? n) && (cname (wcmd u x) =s "SET")) (Writes u)
        then Some n else None
    end
  else
    let k := ParseKey m in
    if (negb (Shape k =s ShapeFlock) && negb (Shape k =s ShapePlock)) || Trash k then None
    else if existsb (fun x => (KWRaw x =s m) && (cname (wcmd u x) =s "HSET")) (Writes u) then Some (Ino k)
    else None.

(** ** Refinement of trash classes (step 2a) *)
Definition nonTrashDentry (u : Unit) : bool :=
  existsb (fun w => (Shape (KWKey w) =s ShapeDentry) && negb (Trash (KWKey w))) (Writes u).

Definition trashRootHSet (u : Unit) : bool :=
  existsb (fun w => (Shape (KWKey w) =s ShapeDentry) && Trash (KWKey w) && (Ino (KWKey w) =? TrashInode) &&
                    isHSet (cname (wcmd u w))) (Writes u).

Definition refineClass (u : Unit) (trusted : bool) (hourly : Z) (w : KeyWrite) : KeyClass :=
  let k := KWKey w in
  let name := cname (wcmd u w) in
  let root := (Shape k =s ShapeDentry) && (Ino k =? TrashInode) in
  if negb (Trash k) || (negb (Group k =s "inode") && negb (Group k =s "dentry")) then KWClass w
  else if nonTrashDentry u && root then KCBG
  else if nonTrashDentry u && bool_decide (UKind u = UnitTxn) then KCProject
  else if bool_decide (UKind u = UnitBare) && (name =s "SETNX") && (Shape k =s ShapeInode) && (Ino k =? TrashInode)
  then KCTrashCreate
  else if trusted && bool_decide (UKind u = UnitTxn) && trashRootHSet u &&
          ((root && isHSet name) || ((Shape k =s ShapeInode) && ((name =s "SET") || (name =s "SETNX"))))
  then KCTrashCreate
  else if negb (hourly =? 0) && (root || ((Shape k =s ShapeInode) && (Ino k =? hourly))) then KCTrashCreate
  else KCBG.

Definition refineWrites (trusted : bool) (hourly : Z) (u : Unit) : Unit :=
  set_Writes u ((fun w => mkKeyWrite (KWCmd w) (KWKey w) (KWRaw w) (refineClass u trusted hourly w)) <$> Writes u).

Section check.
Context {S T : Type} `{SessionStore S} `{SliceStore T}.
Context (perm : forall A : Type, list A -> list A).
(** The proxy's clock, in nanoseconds, at each reading. *)
Context (clock : nat -> Z).

Abbreviation M := (SM (CheckState S T) exc).

Definition time_now : M Z := fun s => (Ok (clock (cs_tick s)), upd_tick s).

(** Admit delta [n] of counter [key] within [p]'s rate bound and the
    absolute limit, and charge it. *)
Definition refreshCounter (db : Z) (key : string) (now : Z) : M unit :=
  g ← get_g;
  match counters g with
  | None => mret tt
  | Some read =>
      let stale := match ctrCache g !! key with
                   | None => true
                   | Some cc => counterRefresh <? now - cc_at cc
                   end in
      if stale then
        match read db key with
        | Err _ => refuse ReasonBGOnly
        | Ok v => mod_g (fun g => set_ctrCache g (<[key := mkCC now v 0]> (ctrCache g)))
        end
      else mret tt
  end.

(** The principal's current window, opened if it has none or it is over. *)
Definition openWindow (rk : string) (now : Z) : M rateWindow :=
  g ← get_g;
  let fresh :=
    let m := if 100000 <? Z.of_nat (size (rate g)) then ∅ else rate g in
    mod_g (fun g => set_rate g (<[rk := mkRW now 0]> m)) ≫= fun _ => mret (mkRW now 0) in
  match rate g !! rk with
  | None => fresh
  | Some rw => if rateWindowLen <=? now - rw_start rw then fresh else mret rw
  end.

Definition counterCeiling (db : Z) (p : Principal) (key : string) (n : Z) : M unit :=
  now ← time_now;
  refreshCounter db key now ≫= fun _ =>
  let rk := PName p +:+ "|" +:+ key in
  rw ← openWindow rk now;
  let next := i64 (rw_net rw + n) in
  let over := match rateBounds key with
              | Some (lo, hi) => negb (is_bg p) && ((next <? lo) || (hi <? next))
              | None => false
              end in
  if over then refuse ReasonAdminOnly
  else
    g ← get_g;
    (match ctrCache g !! key with
     | None => mret tt
     | Some cc =>
         let proj := i64 (cc_val cc + cc_pending cc) in
         if ((0 <? n) && (counterLimit - n <? proj)) || ((n <? 0) && (proj <? - counterLimit - n))
         then refuse ReasonAdminOnly
         else mod_g (fun g => set_ctrCache g (<[key := mkCC (cc_at cc) (cc_val cc) (i64 (cc_pending cc + n))]> (ctrCache g)))
     end) ≫= fun _ =>
    mod_g (fun g => set_rate g (<[rk := mkRW (rw_start rw) next]> (rate g))).

Definition counterGate (p : Principal) (u : Unit) (c : Cmd) (w : KeyWrite) : M unit :=
  let name := Shape (KWKey w) in
  if HasPrefix name "next" then
    match counterDelta c with
    | None => refuse ReasonAdminOnly
    | Some n =>
        if n <=? 0 then refuse ReasonAdminOnly
        else if match maxAlloc name with Some m => m <? n | None => false end then refuse ReasonAdminOnly
        else if ((name =s "nextsession") || (name =s "nextchunk")) && bool_decide (UKind u <> UnitBare) then refuse ReasonAdminOnly
        else if (name =s "nextinode") && negb (is_bg p) && (bool_decide (UKind u <> UnitBare) || negb (n =? 2^10)) then refuse ReasonAdminOnly
        else if (name =s "nextchunk") && negb (n =? 2^12) then refuse ReasonAdminOnly
        else mret tt
    end
  else if name =s "lastCleanupSessions" then
    if bool_decide (cname c ∈ ["SET"; "SETNX"; "GETSET"]) then mret tt else refuse ReasonAdminOnly
  else
    if bool_decide (UKind u <> UnitTxn) && negb (is_bg p) then refuse ReasonBGOnly
    else match counterDelta c with
    | None => refuse ReasonAdminOnly
    | Some n =>
        let lim := if name =s "totalInodes" then maxTotalInodesDelta else maxUsedSpaceDelta in
        if (lim <? n) || (n <? - lim) then refuse ReasonAdminOnly
        else counterCeiling (DB u) p name n
    end.

(** Redis's clock (TIME, seconds). *)
Definition redisNow (g : Guard S T) (db : Z) : result ioerr Z :=
  match side g with
  | None => Err IOErr
  | Some do =>
      v ← do db ["TIME"];
      if bool_decide (is_Some (ValueErr v)) then Err IOErr
      else match VElems v with
           | [e0; _] => let (n, ok) := ParseInt (VStr e0) in if ok then Ok n else Err IOErr
           | _ => Err IOErr
           end
  end.

(** Has Redis flagged the unit's own upstream connection with "d"? *)
Definition watchDirty (g : Guard S T) (u : Unit) : result ioerr bool :=
  if upstreamID u =? 0 then Err IOErr
  else
    let id := FormatUint (upstreamID u) in
    match side g with
    | None => Err IOErr
    | Some do =>
        v ← do (DB u) ["CLIENT"; "LIST"; "ID"; id];
        if bool_decide (is_Some (ValueErr v)) then Err IOErr
        else
          let listed := filter (fun fs => head fs = Some ("id=" +:+ id)) (Fields <$> Split (VStr v) LF) in
          match listed with
          | [] => Err IOErr
          | fs :: _ =>
              match omap (cut_prefix "flags=") fs with
              | [] => Err IOErr
              | flags :: _ => Ok (Contains flags "d")
              end
          end
    end.

(** The single write to the trash root: its field, hour and new inode. *)
Definition hourlyRoot (u : Unit) (acc : option (string * Z * Z) * Z) (w : KeyWrite) : M (option (string * Z * Z) * Z) :=
  if negb (Shape (KWKey w) =s ShapeDentry) || negb (Ino (KWKey w) =? TrashInode) then mret acc
  else
    let c := wcmd u w in
    match Args c with
    | [_; _; field; v] =>
        if negb (cname c =s "HSET") && negb (cname c =s "HSETNX") then refuse ReasonBGOnly
        else match parseHour field with
        | None => refuse ReasonBGOnly
        | Some hourAt =>
            match entryInode v with
            | None => refuse ReasonBGOnly
            | Some ino =>
                if negb (bool_decide (entryType v = Some typeDir)) || (ino <=? TrashInode) then refuse ReasonBGOnly
                else mret (Some (field, hourAt, ino), snd acc + 1)
            end
        end
    | _ => refuse ReasonBGOnly
    end.

(** Every write of the new inode's own keys: exactly its SET as a directory
    under the trash root. *)
Definition hourlyAttr (u : Unit) (hourly : Z) (attrs : Z) (w : KeyWrite) : M Z :=
  if negb (HasIno (KWKey w)) || negb (Ino (KWKey w) =? hourly) then mret attrs
  else
    let c := wcmd u w in
    match Args c with
    | [_; _; v] =>
        if negb (Shape (KWKey w) =s ShapeInode) || negb (cname c =s "SET") then refuse ReasonBGOnly
        else match parseAttr v with
        | None => refuse ReasonBGOnly
        | Some a => if (a_typ a =? typeDir) && (a_parent a =? TrashInode) then mret (attrs + 1) else refuse ReasonBGOnly
        end
    | _ => refuse ReasonBGOnly
    end.

(** checkTrash's mknod of a new hourly directory; the inode created. *)
Definition hourlyTrashCreate : M Z :=
  u ← get_u; g ← get_g;
  '(found, roots) ← mfold (hourlyRoot u) (None, 0) (Writes u);
  if negb (roots =? 1) then refuse ReasonBGOnly
  else match found with
  | None => refuse ReasonBGOnly
  | Some (field, hourAt, hourly) =>
      if (TrashAlloc u =? 0) || negb (u64 (hourly - TrashInode) =? TrashAlloc u) then refuse ReasonBGOnly
      else
        attrs ← mfold (hourlyAttr u hourly) 0 (Writes u);
        if negb (attrs =? 1) then refuse ReasonBGOnly
        else
          now ← orRefuse ReasonBGOnly (redisNow g (DB u));
          if negb (now - 3600 <? hourAt + 3600) || (now + 3600 <? hourAt) then refuse ReasonBGOnly
          else
            let root := "d" +:+ FormatUint TrashInode in
            match beforeSide u, side g with
            | Some before, Some do =>
                if negb (bool_decide (root ∈ Watched u)) then refuse ReasonBGOnly
                else
                  orRefuse ReasonBGOnly before ≫= fun _ =>
                  v ← orRefuse ReasonBGOnly (do (DB u) ["HEXISTS"; root; field]);
                  if bool_decide (is_Some (ValueErr v)) || negb (Ascii.eqb (VType v) ":") then refuse ReasonBGOnly
                  else if VInt v =? 0 then mret hourly
                  else match watchDirty g u with
                       | Ok true => mret hourly
                       | _ => refuse ReasonBGOnly
                       end
            | _, _ => refuse ReasonBGOnly
            end
  end.

(** ** Sessions *)
Definition sessionSetGate (u : Unit) (c : Cmd) (w : KeyWrite) : M unit :=
  if cname c =s "SREM" then mret tt
  else if negb (cname c =s "SADD") then refuse ReasonBGOnly
  else if bool_decide (UKind u <> UnitTxn) || Nat.ltb (length (Args c)) 3 then refuse ReasonBGOnly
  else
    ms ← args2 c;
    mfor ms (fun m =>
      match sessionMemberWritten u (Shape (KWKey w)) m with
      | None => refuse ReasonBGOnly
      | Some n =>
          if Shape (KWKey w) =s ShapeSession
          then mod_u (fun u => set_RefInodes u (RefInodes u ++ [n])) else mret tt
      end).

Definition heartbeatGate (u : Unit) (c : Cmd) (w : KeyWrite) : M unit :=
  if negb (Shape (KWKey w) =s "allSessions") || bool_decide (UKind u <> UnitBare) then refuse ReasonBGOnly
  else match Args c with
  | [_; _; a2; a3] =>
      match RedisInt a2 with
      | None => refuse ReasonBGOnly
      | Some score =>
          g ← get_g;
          let late := match redisNow g (DB u) with Ok now => score <=? now | Err _ => false end in
          if late then refuse ReasonBGOnly
          else mod_u (fun u => set_rewrite u ["ZADD"; KWRaw w; "GT"; a2; a3])
      end
  | _ => refuse ReasonBGOnly
  end.

Definition sessionGate (p : Principal) (u : Unit) (c : Cmd) (w : KeyWrite) : M (list guardEffect) :=
  let name := cname c in
  match sessionIDs name (KWKey w) (Args c) with
  | None => panic
  | Some sids =>
      let effects :=
        if (Shape (KWKey w) =s "allSessions") && (name =s "ZREM") && negb (bool_decide (sids = []))
        then [effRelease sids] else [] in
      if is_admin p || is_bg p then mret effects
      else
        let global := negb (Shape (KWKey w) =s ShapeSession) && negb (Shape (KWKey w) =s ShapeLocked) in
        if global && negb (bool_decide (name ∈ ["ZADD"; "ZREM"; "HSET"; "HMSET"; "HSETNX"; "HDEL"; "HINCRBY"]))
        then refuse ReasonBGOnly
        else if bool_decide (sids = []) then refuse ReasonBGOnly
        else
          g ← get_g;
          mfor sids (fun sid =>
            match sessOwner (sessions g) sid with
            | Ok (Some owner) => if owner =s PName p then mret tt else refuse ReasonBGOnly
            | _ => refuse ReasonBGOnly
            end) ≫= fun _ =>
          (if negb global then sessionSetGate u c w
           else if name =s "ZADD" then heartbeatGate u c w
           else mret tt) ≫= fun _ =>
          mret effects
  end.

(** ** The stages of [Check] *)
Definition resetUnit (u : Unit) : Unit := set_RefInodes (set_Project (set_Writes u []) []) [].

(** Step 1, one command: refuse it, skip it, or list its keys. *)
Definition commandGate (p : Principal) (i : nat) (c : Cmd) : M unit :=
  let admin := is_admin p in
  let name := cname c in
  match CClass (Info c) with
  | ClassRead | ClassTxn | ClassPubSub | ClassConn => mret tt
  | ClassAdmin => if (name =s "CONFIG") && negb admin && negb (safeConfigGet (Args c)) then refuse ReasonAdminOnly else mret tt
  | ClassForbidden => refuse ReasonAdminOnly
  | ClassAdminW | ClassUnknown => if negb admin then refuse ReasonAdminOnly else mret tt
  | ClassScript => if negb (serverPrincipal p) then refuse ReasonAdminOnly else mret tt
  | ClassLocal => refuse ReasonUnknownKey
  | ClassPublish => if admin || bool_decide (Args c !! 1%nat = Some ShapeChannel) then mret tt else refuse ReasonAdminOnly
  | ClassWrite =>
      copies ← (if (name =s "COPY") && negb admin
                then match hasDBOption (Args c) with Some b => mret b | None => panic end
                else mret false);
      if copies : bool then refuse ReasonAdminOnly
      else if negb admin && negb (integerArgsOK c) then refuse ReasonUnknownKey
      else mod_u (fun u => set_Writes u (Writes u ++
             zip_with (fun k raw => mkKeyWrite i k raw (baseClass k name)) (Keys (Info c)) (Raw (Info c))))
  end.

(** Step 2a: for a principal other than admin and bg, a txn that writes the
    trash root without a non-trash dentry must be the hourly mknod. *)
Definition trashStage (p : Principal) : M unit :=
  u ← get_u;
  let trusted := is_admin p || is_bg p in
  hourly ← (if bool_decide (UKind u = UnitTxn) && negb (nonTrashDentry u) && trashRootHSet u && negb trusted then
              if bool_decide (PKind p = KindWebDAV) then refuse ReasonPrincipalReadonly else hourlyTrashCreate
            else mret 0);
  mod_u (refineWrites trusted hourly).

(** The single bare write of cleanup record [shape] with command [name]. *)
Definition bareRecord (p : Principal) (u : Unit) (shape name : string) : bool :=
  bool_decide (UKind u = UnitBare) && negb (is_admin p) && negb (is_bg p) &&
  match Writes u with
  | [w] => (Shape (KWKey w) =s shape) && (cname (cmd_at u 0) =s name)
  | _ => false
  end.

(** The compaction rollback of the principal's own never-linked slice. *)
Definition rollbackDrop (p : Principal) (u : Unit) : M (list guardEffect) :=
  let c := cmd_at u 0 in
  g ← get_g;
  fs ← sliceRefFields c;
  match fs, Args c with
  | Some [f], [_; _; _; a3] =>
      if negb (a3 =s "-1") then refuse ReasonBGOnly
      else
        owner ← orRefuse ReasonBGOnly (idOwner (slices g) (sf_id f));
        used ← orRefuse ReasonBGOnly (sliceUsed (slices g) (sf_id f));
        if negb (bool_decide (owner = Some (PName p))) || used : bool then refuse ReasonBGOnly
        else mret [effUse [sf_id f] true]
  | _, _ => refuse ReasonBGOnly
  end.

Definition ownRecordStage (p : Principal) : M (list guardEffect) :=
  u ← get_u;
  let own (m : M (list guardEffect)) : M (list guardEffect) :=
    e ← m; mod_u (set_class 0 KCOwnRecord) ≫= fun _ => mret e in
  e1 ← (if bareRecord p u "sliceRef" "HDEL" then own (ownSliceDrop p) else mret []);
  e2 ← (if bareRecord p u "sliceRef" "HINCRBY" then own (rollbackDrop p u) else mret []);
  e3 ← (if bareRecord p u "delfiles" "ZREM" then own (ownDelfilesDrop p (cmd_at u 0)) else mret []);
  mret (e1 ++ e2 ++ e3).

(** Slices and cleanup records of a principal other than admin and bg. *)
Definition sliceStage (p : Principal) (hasProject : bool) (effects : list guardEffect) : M (list guardEffect) :=
  u ← get_u;
  let hasGC := existsb (fun w => Group (KWKey w) =s "gc") (Writes u) in
  if is_admin p || is_bg p then mret effects
  else
    sc ← newSliceScope u;
    mod_sc (fun _ => sc) ≫= fun _ =>
    validatePushes perm p ≫= fun _ =>
    effects ← (if hasGC && bool_decide (UKind u = UnitTxn) then
                 e ← (if hasProject then anchorCleanup perm else ownZeroRefDrop p);
                 mret ((fun x => set_zeroOwner (PName p) (set_delOwn (PName p) x)) <$> e)
               else mret effects);
    sc ← get_sc;
    mret (match firstUse sc with [] => effects | ids => effects ++ [effUse ids false] end).

(** Step 2b, one write. *)
Definition keyGate (p : Principal) (effects : list guardEffect) (w : KeyWrite) : M (list guardEffect) :=
  u ← get_u;
  let admin := is_admin p in
  let webdav := bool_decide (PKind p = KindWebDAV) in
  let c := wcmd u w in
  match KWClass w with
  | KCOwnRecord => mret effects
  | KCTrashCreate => if webdav then refuse ReasonPrincipalReadonly else mret effects
  | KCCounter => if admin then mret effects else counterGate p u c w ≫= fun _ => mret effects
  | KCSession => e ← sessionGate p u c w; mret (effects ++ e)
  | KCPresence => if negb admin && negb (Suffix (KWKey w) =s host p) then refuse ReasonAdminOnly else mret effects
  | KCLinkBench => if negb admin && negb (linkBenchOK c) then refuse ReasonUnknownKey else mret effects
  | KCBG => if negb admin && negb (is_bg p) then refuse ReasonBGOnly else mret effects
  | KCFarm => if negb admin && negb (bool_decide (PKind p = KindFarm)) && negb (bool_decide (PKind p = KindManager))
              then refuse ReasonFarmOnly else mret effects
  | KCAdmin => if negb admin then refuse ReasonAdminOnly else mret effects
  | KCProject => if webdav then refuse ReasonPrincipalReadonly
                 else mod_u (fun u => set_Project u (Project u ++ [w])) ≫= fun _ => mret effects
  | KCChannel | KCUnknown => if negb admin then refuse ReasonUnknownKey else mret effects
  end.

Definition Check (p : Principal) : M (list guardEffect) :=
  mod_u resetUnit ≫= fun _ =>
  u ← get_u;
  mfori 0 (Cmds u) (commandGate p) ≫= fun _ =>
  trashStage p ≫= fun _ =>
  u ← get_u;
  let hasProject := existsb (fun w => bool_decide (KWClass w = KCProject)) (Writes u) in
  e ← ownRecordStage p;
  e ← sliceStage p hasProject e;
  u ← get_u;
  mfold (keyGate p) e (Writes u).

(** ** Commit *)
Definition commitZero (g : Guard S T) (e : guardEffect) : Guard S T :=
  if zeroKey e =s "" then g
  else if zeroAdd e then set_zeroRefs g (<[zeroKey e := zero e]> (zeroRefs g))
  else set_zeroRefs g (delete (zeroKey e) (zeroRefs g)).

Definition commitDel (g : Guard S T) (e : guardEffect) : Guard S T :=
  if delKey e =s "" then g
  else if delAdd e then
    let m := if 1000000 <? Z.of_nat (size (pendingDel g)) then ∅ else pendingDel g in
    set_pendingDel g (<[delKey e := delOwn e]> m)
  else set_pendingDel g (delete (delKey e) (pendingDel g)).

Definition commitMem (g : Guard S T) (e : guardEffect) : Guard S T :=
  let g := commitDel (commitZero g e) e in
  set_dropped g (foldl (fun m f => delete f m) (dropped g) (dropDone e)).

Definition commitUsed (g : Guard S T) (e : guardEffect) : Guard S T :=
  match effUsed e with
  | [] => g
  | ids => set_slices g (snd (sliceMarkUsed (slices g) ids (usedPersist e)))
  end.

Definition Commit (effects : list guardEffect) (g : Guard S T) : Guard S T :=
  match effects with
  | [] => g
  | _ =>
      let g := if 100000 <? Z.of_nat (size (zeroRefs g)) then set_zeroRefs g ∅ else g in
      let g := foldl commitMem g effects in
      let g := foldl commitUsed g effects in
      match mjoin (release <$> effects) with
      | [] => g
      | rel => set_sessions g (snd (sessRelease (sessions g) rel))
      end
  end.

(** A fresh state for checking unit [u]. *)
Definition startCheck (g : Guard S T) (u : Unit) (tick : nat) : CheckState S T := mkCS g u emptyScope tick.

End check.
