(* ===== verification/GuardFrames.v ===== *)
(** * What each stage of the guard's check leaves alone

    [core] is the part of a unit no stage may change (the commands, the
    kind, the database, the watched keys, ...); [wkeys] are the written keys
    without their classes. *)

From S2P Require Import Prelude GoLib GoTime Resp Classify Policy Stores Guard GuardScope GuardCheck.

Definition core (u : Unit) : Unit :=
  mkUnit (UKind u) (DB u) (Cmds u) (Watched u) [] [] [] (UPerson u) (TrashAlloc u)
    (inodeOwner u) (inodeMark u) (upstreamID u) (beforeSide u) None (UMode u) (ConnID u)
    (UpstreamNameOf u) (unassigned u).

Definition wkey (w : KeyWrite) : nat * KeyRef * string := (KWCmd w, KWKey w, KWRaw w).
Definition wkeys (u : Unit) : list (nat * KeyRef * string) := wkey <$> Writes u.

Lemma core_Cmds u u' : core u = core u' -> Cmds u = Cmds u'.
Proof. intros E. exact (f_equal Cmds E). Qed.
Lemma core_UKind u u' : core u = core u' -> UKind u = UKind u'.
Proof. intros E. exact (f_equal UKind E). Qed.
Lemma core_Watched u u' : core u = core u' -> Watched u = Watched u'.
Proof. intros E. exact (f_equal Watched E). Qed.

Lemma wkeys_set_class i cl u : wkeys (set_class i cl u) = wkeys u.
Proof.
  unfold wkeys, set_class. cbn. generalize (Writes u). intros l. revert i.
  induction l as [|x l IH]; intros [|i]; cbn; [done..|]. by rewrite IH.
Qed.

Section frames.
Context {S T : Type} `{SessionStore S} `{SliceStore T}.
Context (perm : forall A : Type, list A -> list A) (clock : nat -> Z).

(** Everything but the slice scope and the clock. *)
Definition VGU (s : CheckState S T) : Guard S T * Unit := (cs_g s, cs_u s).
(** The guard and the fixed parts of the unit. *)
Definition VFix (s : CheckState S T) : Guard S T * Unit * list (nat * KeyRef * string) * list KeyWrite :=
  (cs_g s, core (cs_u s), wkeys (cs_u s), Project (cs_u s)).

Lemma keeps_refuse {A X} (V : CheckState S T -> X) r : keeps V (refuse (S := S) (T := T) (A := A) r).
Proof. done. Qed.
Lemma keeps_panic {A X} (V : CheckState S T -> X) : keeps V (panic (S := S) (T := T) (A := A)).
Proof. done. Qed.
Lemma keeps_get_g {X} (V : CheckState S T -> X) : keeps V (get_g (S := S) (T := T)).
Proof. done. Qed.
Lemma keeps_get_u {X} (V : CheckState S T -> X) : keeps V (get_u (S := S) (T := T)).
Proof. done. Qed.
Lemma keeps_get_sc {X} (V : CheckState S T -> X) : keeps V (get_sc (S := S) (T := T)).
Proof. done. Qed.
Lemma keeps_orRefuse {A X} (V : CheckState S T -> X) r (x : result ioerr A) : keeps V (orRefuse (S := S) (T := T) r x).
Proof. by destruct x. Qed.
Lemma keeps_args2 {X} (V : CheckState S T -> X) c : keeps V (args2 (S := S) (T := T) c).
Proof. unfold args2. by destruct (args_from _ _). Qed.
Lemma keeps_mod_sc_VGU f : keeps VGU (mod_sc (S := S) (T := T) f).
Proof. done. Qed.
Lemma keeps_mod_sc_VFix f : keeps VFix (mod_sc (S := S) (T := T) f).
Proof. done. Qed.
Lemma keeps_VGU_VFix {A} (m : SM (CheckState S T) exc A) : keeps VGU m -> keeps VFix m.
Proof. intros Hm s. specialize (Hm s). unfold VGU, VFix in *. by injection Hm as -> ->. Qed.
End frames.

#[export] Hint Resolve keeps_refuse keeps_panic keeps_get_g keeps_get_u keeps_get_sc keeps_orRefuse keeps_args2
  keeps_mod_sc_VGU keeps_mod_sc_VFix : frame.

Section stages.
Context {S T : Type} `{SessionStore S} `{SliceStore T}.
Context (perm : forall A : Type, list A -> list A) (clock : nat -> Z).

Lemma keeps_sliceRefFields {X} (V : CheckState S T -> X) c : keeps V (sliceRefFields (S := S) (T := T) c).
Proof. unfold sliceRefFields. keeps_tac. Qed.
Lemma keeps_cleanupMembers {X} (V : CheckState S T -> X) c : keeps V (cleanupMembers (S := S) (T := T) c).
Proof. unfold cleanupMembers. keeps_tac. Qed.
#[local] Hint Resolve keeps_sliceRefFields keeps_cleanupMembers : frame.

Lemma keeps_newSliceScope {X} (V : CheckState S T -> X) u : keeps V (newSliceScope (S := S) (T := T) u).
Proof. unfold newSliceScope, scopeWrite. keeps_tac. Qed.
Lemma keeps_readFail : keeps VGU (readFail (S := S) (T := T)).
Proof. unfold readFail. keeps_tac. Qed.
#[local] Hint Resolve keeps_newSliceScope keeps_readFail : frame.
Lemma keeps_sideRead : keeps VGU (sideRead (S := S) (T := T) perm).
Proof. unfold sideRead. keeps_tac. Qed.
#[local] Hint Resolve keeps_sideRead : frame.
Lemma keeps_firstLink p tu id : keeps VGU (firstLink (S := S) (T := T) p tu id).
Proof. unfold firstLink. keeps_tac. Qed.
#[local] Hint Resolve keeps_firstLink : frame.
Lemma keeps_validatePushes p : keeps VGU (validatePushes (S := S) (T := T) perm p).
Proof. unfold validatePushes, pushWrite, pushElem. keeps_tac. Qed.
Lemma keeps_payDecrement f n : keeps VGU (payDecrement (S := S) (T := T) perm f n).
Proof. unfold payDecrement. keeps_tac. Qed.
Lemma keeps_resolve f : keeps VGU (resolve (S := S) (T := T) perm f).
Proof. unfold resolve. keeps_tac. Qed.
Lemma keeps_hourlyTrashCreate {X} (V : CheckState S T -> X) : keeps V (hourlyTrashCreate (S := S) (T := T)).
Proof. unfold hourlyTrashCreate, hourlyRoot, hourlyAttr. keeps_tac. Qed.

Lemma keeps_set_class i cl : keeps VFix (mod_u (S := S) (T := T) (set_class i cl)).
Proof.
  intros s. unfold VFix. cbn [mod_u sm_modify snd upd_u cs_g cs_u].
  rewrite wkeys_set_class. reflexivity.
Qed.
Lemma keeps_refs f : keeps VFix (mod_u (S := S) (T := T) (fun u => set_RefInodes u (f u))).
Proof. done. Qed.
Lemma keeps_rewrite f : keeps VFix (mod_u (S := S) (T := T) (fun u => set_rewrite u (f u))).
Proof. done. Qed.
#[local] Hint Resolve keeps_set_class keeps_refs keeps_rewrite : frame.
#[local] Hint Resolve keeps_VGU_VFix keeps_payDecrement keeps_resolve : frame.

Lemma keeps_anchorCleanup : keeps VFix (anchorCleanup (S := S) (T := T) perm).
Proof. unfold anchorCleanup, anchorWrite, anchorField. keeps_tac. Qed.
Lemma keeps_ownZeroRefDrop p : keeps VFix (ownZeroRefDrop (S := S) (T := T) p).
Proof. unfold ownZeroRefDrop, ownZeroWrite. keeps_tac. Qed.
Lemma keeps_ownSliceDrop p : keeps VFix (ownSliceDrop (S := S) (T := T) p).
Proof. unfold ownSliceDrop. keeps_tac. Qed.
Lemma keeps_ownDelfilesDrop {X} (V : CheckState S T -> X) p c : keeps V (ownDelfilesDrop (S := S) (T := T) p c).
Proof. unfold ownDelfilesDrop. keeps_tac. Qed.
Lemma keeps_rollbackDrop {X} (V : CheckState S T -> X) p u : keeps V (rollbackDrop (S := S) (T := T) p u).
Proof. unfold rollbackDrop. keeps_tac. Qed.
#[local] Hint Resolve keeps_anchorCleanup keeps_ownZeroRefDrop keeps_ownSliceDrop keeps_ownDelfilesDrop keeps_rollbackDrop
  keeps_validatePushes : frame.

Lemma keeps_ownRecordStage p : keeps VFix (ownRecordStage (S := S) (T := T) p).
Proof. unfold ownRecordStage. keeps_tac. Qed.
Lemma keeps_sliceStage p b e : keeps VFix (sliceStage (S := S) (T := T) perm p b e).
Proof. unfold sliceStage. keeps_tac. Qed.
End stages.

#[export] Hint Resolve keeps_sliceRefFields keeps_cleanupMembers keeps_newSliceScope keeps_readFail keeps_sideRead
  keeps_firstLink keeps_validatePushes keeps_payDecrement keeps_resolve keeps_hourlyTrashCreate
  keeps_set_class keeps_refs keeps_rewrite keeps_VGU_VFix keeps_anchorCleanup keeps_ownZeroRefDrop
  keeps_ownSliceDrop keeps_ownDelfilesDrop keeps_rollbackDrop keeps_ownRecordStage keeps_sliceStage : frame.
