(* ===== verification/GuardFacts.v ===== *)
(** * Authorisation theorems of the guard

    What an admitted unit can contain, by principal.  [Check] is decomposed
    into its stages ([check_stages]); each stage's effect on the classes of
    the written keys is a lemma, and the theorems are stated on the raw keys
    and groups of the unit, not on the guard's own classes. *)

From S2P Require Import Prelude GoLib GoTime Resp Classify ClassifyFacts Policy Stores Guard GuardScope GuardCheck GuardFrames.

(** ** Specification *)
Definition is_admin_kind (p : Principal) : Prop := PKind p = KindAdmin.

(** What each class of command requires of the principal. *)
Definition command_allowed (p : Principal) (c : Cmd) : Prop :=
  match CClass (Info c) with
  | ClassRead | ClassTxn | ClassPubSub | ClassConn => True
  | ClassForbidden | ClassLocal => False
  | ClassAdminW | ClassUnknown => PKind p = KindAdmin
  | ClassScript => PKind p = KindAdmin \/ PKind p = KindFarm \/ PKind p = KindManager
  | ClassPublish => PKind p = KindAdmin \/ Args c !! 1%nat = Some "juicemount:metadata"
  | ClassAdmin => cname c = "CONFIG" -> PKind p = KindAdmin \/ safeConfigGet (Args c) = true
  | ClassWrite => PKind p = KindAdmin \/
      (integerArgsOK c = true /\ (cname c = "COPY" -> hasDBOption (Args c) = Some false))
  end.

(** The writes of one command: its keys, with their context-free class. *)
Definition cmd_writes (i : nat) (c : Cmd) : list KeyWrite :=
  if decide (CClass (Info c) = ClassWrite)
  then zip_with (fun k raw => mkKeyWrite i k raw (baseClass k (cname c))) (Keys (Info c)) (Raw (Info c))
  else [].

(** Units as the proxy builds them: every command is classified by [Classify]. *)
Definition wf_unit (u : Unit) : Prop := Forall (fun c => Classify (Args c) = Some (Info c)) (Cmds u).

(** What each group of keys requires of the principal and the command. *)
Definition write_allowed (p : Principal) (c : Cmd) (k : KeyRef) : Prop :=
  PKind p = KindAdmin \/
  (Group k <> "admin" /\ Group k <> "lease" /\ Group k <> "unknown" /\ Group k <> "channel" /\
   (Group k = "farm" -> PKind p = KindFarm \/ PKind p = KindManager) /\
   (Group k = "bgmark" -> PKind p = KindBG) /\
   (Group k = "presence" -> Suffix k = host p) /\
   (Group k = "linkbench" -> linkBenchOK c = true) /\
   (Group k = "quota" -> cname c = "HDEL") /\
   (Group k = "dirstat" -> cname c ∈ ["HINCRBY"; "HINCRBYFLOAT"; "HSET"; "HSETNX"; "HMSET"; "HDEL"]) /\
   (PKind p = KindWebDAV -> Group k ∉ ["inode"; "dentry"; "dirstat"; "quota"; "bgmark"; "farm"])).

(** ** The command gate *)
Lemma set_Writes_same u : set_Writes u (Writes u) = u.
Proof. by destruct u. Qed.

Section facts.
Context {S T : Type} `{SessionStore S} `{SliceStore T}.
Context (perm : forall A : Type, list A -> list A) (clock : nat -> Z).
Implicit Types (s : CheckState S T).

Definition addWrites (ws : list KeyWrite) s : CheckState S T := upd_u (fun u => set_Writes u (Writes u ++ ws)) s.

Lemma addWrites_nil s : addWrites [] s = s.
Proof. destruct s as [g u sc k]. unfold addWrites, upd_u. cbn. by rewrite app_nil_r, set_Writes_same. Qed.

Lemma is_admin_true p : is_admin p = true <-> PKind p = KindAdmin.
Proof. apply bool_decide_eq_true. Qed.
Lemma is_admin_false p : is_admin p = false <-> PKind p <> KindAdmin.
Proof. apply bool_decide_eq_false. Qed.
Lemma serverPrincipal_true p : serverPrincipal p = true -> PKind p = KindAdmin \/ PKind p = KindFarm \/ PKind p = KindManager.
Proof. unfold serverPrincipal. destruct (PKind p); naive_solver. Qed.

Lemma commandGate_spec p i c s s' :
  commandGate p i c s = (Ok tt, s') -> command_allowed p c /\ s' = addWrites (cmd_writes i c) s.
Proof.
  unfold commandGate, command_allowed, cmd_writes, refuse, panic. intros Hr.
  destruct (CClass (Info c)) eqn:Ec; try discriminate Hr;
    (try (rewrite decide_False by done; rewrite addWrites_nil)).
  - injection Hr as <-. done.
  - rewrite decide_True by done. apply sm_bind_Ok in Hr as (copies & s1 & Hc & Hr).
    assert (s1 = s /\ (PKind p = KindAdmin \/ (cname c = "COPY" -> hasDBOption (Args c) = Some copies))) as [-> Hcopy].
    { destruct (cname c =s "COPY") eqn:En, (is_admin p) eqn:Ea; cbn in Hc;
        try (injection Hc as <- <-; to_prop; split; [done|]; first [by left; apply is_admin_true | by right]).
      destruct (hasDBOption (Args c)) eqn:Eh; [|discriminate Hc]. injection Hc as <- <-. split; [done|by right]. }
    destruct copies; [discriminate Hr|].
    destruct (negb (is_admin p) && negb (integerArgsOK c)) eqn:Ei; [discriminate Hr|].
    injection Hr as <-. split; [|done].
    destruct (is_admin p) eqn:Ea; [left; by apply is_admin_true|]. apply is_admin_false in Ea. cbn in Ei. to_prop.
    right. split; [done|]. by destruct Hcopy.
  - injection Hr as <-. done.
  - injection Hr as <-. done.
  - injection Hr as <-. done.
  - destruct (is_admin p) eqn:Ea; cbn [orb] in Hr; [injection Hr as <-; split; [left; by apply is_admin_true|done]|].
    destruct (bool_decide _) eqn:Eb; [|discriminate Hr]. injection Hr as <-. to_prop. split; [by right|done].
  - destruct (serverPrincipal p) eqn:Es; [|discriminate Hr]. injection Hr as <-. split; [by apply serverPrincipal_true|done].
  - destruct (cname c =s "CONFIG") eqn:En, (is_admin p) eqn:Ea, (safeConfigGet (Args c)) eqn:Eg; cbn in Hr;
      try discriminate Hr; injection Hr as <-; (split; [|done]); intros Hn; to_prop; try done; try (by right);
      left; by apply is_admin_true.
  - destruct (is_admin p) eqn:Ea; [|discriminate Hr]. injection Hr as <-. split; [by apply is_admin_true|done].
  - destruct (is_admin p) eqn:Ea; [|discriminate Hr]. injection Hr as <-. split; [by apply is_admin_true|done].
Qed.

Fixpoint all_writes (i : nat) (cs : list Cmd) : list KeyWrite :=
  match cs with [] => [] | c :: cs' => cmd_writes i c ++ all_writes (Datatypes.S i) cs' end.

Lemma addWrites_app a b s : addWrites b (addWrites a s) = addWrites (a ++ b) s.
Proof. destruct s as [g u sc k]. unfold addWrites, upd_u. cbn. by rewrite app_assoc. Qed.

Lemma commandGates_spec p cs i s s' :
  mfori i cs (commandGate p) s = (Ok tt, s') ->
  Forall (command_allowed p) cs /\ s' = addWrites (all_writes i cs) s.
Proof.
  revert i s. induction cs as [|c cs IH]; intros i s Hr; cbn [mfori all_writes] in *.
  - injection Hr as <-. by rewrite addWrites_nil.
  - apply sm_bind_Ok in Hr as ([] & s1 & Hc & Hr). apply commandGate_spec in Hc as [Ha ->].
    apply IH in Hr as [Hf ->]. rewrite addWrites_app. split; [by constructor|done].
Qed.

(** ** The stages *)
Lemma trashStage_spec p s s' :
  trashStage p s = (Ok tt, s') ->
  exists hourly, s' = upd_u (refineWrites (is_admin p || is_bg p) hourly) s /\
    (hourly <> 0 -> hourlyTrashCreate s = (Ok hourly, s) /\ PKind p <> KindWebDAV).
Proof.
  unfold trashStage. intros Hr. apply sm_bind_Ok in Hr as (u & s0 & Hu & Hr). injection Hu as <- <-.
  apply sm_bind_Ok in Hr as (hourly & s1 & Hh & Hr). injection Hr as <-. exists hourly.
  destruct (bool_decide (UKind (cs_u s) = UnitTxn) && _ && _ && _); [|injection Hh as <- <-; done].
  destruct (bool_decide (PKind p = KindWebDAV)) eqn:Ew; [discriminate Hh|]. to_prop.
  pose proof (keeps_run (fun s => s) _ _ _ _ (keeps_hourlyTrashCreate _) Hh) as Hs. cbn in Hs. subst s1. split; [done|]. by intros _.
Qed.

(** Classes change only for cleanup records. *)
Definition reclassed (w w' : KeyWrite) : Prop :=
  wkey w = wkey w' /\
  (KWClass w' = KWClass w \/
   ((Group (KWKey w) = "gc" \/ Shape (KWKey w) = "sliceRef" \/ Shape (KWKey w) = "delfiles") /\
    (KWClass w' = KCProject \/ KWClass w' = KCOwnRecord))).

Lemma reclassed_refl w : reclassed w w.
Proof. split; auto. Qed.

Lemma reclassed_trans a b c : reclassed a b -> reclassed b c -> reclassed a c.
Proof.
  intros [H1 H2] [H3 H4]. assert (KWKey a = KWKey b) as Ek by (by injection H1).
  split; [congruence|]. rewrite Ek in *. destruct H4 as [H4|H4]; [rewrite H4|]; tauto.
Qed.

#[export] Instance reclassed_preorder : PreOrder reclassed.
Proof. split; [exact reclassed_refl | exact reclassed_trans]. Qed.

Lemma Forall2_reclassed_refl l : Forall2 reclassed l l.
Proof. apply Forall_Forall2_diag, Forall_true. apply reclassed_refl. Qed.

Lemma reclassed_set_class u i cl w :
  Writes u !! i = Some w ->
  (Group (KWKey w) = "gc" \/ Shape (KWKey w) = "sliceRef" \/ Shape (KWKey w) = "delfiles") ->
  cl = KCProject \/ cl = KCOwnRecord ->
  Forall2 reclassed (Writes u) (Writes (set_class i cl u)).
Proof.
  unfold set_class. cbn. generalize (Writes u). intros l. revert i.
  induction l as [|x l IH]; intros [|i] Hi Hg Hc; cbn in *; [done..| |].
  - simplify_eq. constructor; [|apply Forall2_reclassed_refl]. split; [done|]. right. split; [done|]. by destruct Hc as [->| ->]; [left|right].
  - constructor; [apply reclassed_refl|]. by apply IH.
Qed.

(** The classes of the unit's writes, compared with a list fixed earlier. *)
Definition classes_from (W : list KeyWrite) s : Prop := Forall2 reclassed W (Writes (cs_u s)).

Lemma classes_from_eq W s s' : classes_from W s -> cs_u s' = cs_u s -> classes_from W s'.
Proof. unfold classes_from. by intros ? ->. Qed.

Lemma classes_from_set W s i w cl :
  classes_from W s -> W !! i = Some w ->
  (Group (KWKey w) = "gc" \/ Shape (KWKey w) = "sliceRef" \/ Shape (KWKey w) = "delfiles") ->
  cl = KCProject \/ cl = KCOwnRecord ->
  classes_from W (upd_u (set_class i cl) s).
Proof.
  unfold classes_from. cbn [upd_u cs_u]. intros HW Hi Hg Hc.
  destruct (Forall2_lookup_l _ _ _ _ _ HW Hi) as (w' & Hi' & [Hk _]).
  assert (KWKey w = KWKey w') as Ek by (by injection Hk). rewrite Ek in Hg.
  etransitivity; [exact HW|]. by eapply reclassed_set_class.
Qed.

Lemma imap_pair_lookup (d t : list (nat * KeyWrite)) (L : list KeyWrite) i w :
  imap pair L = d ++ (i, w) :: t -> L !! i = Some w.
Proof.
  intros E. assert (imap pair L !! length d = Some (i, w)) as El.
  { rewrite E, lookup_app_r, Nat.sub_diag by lia. done. }
  rewrite list_lookup_imap in El. destruct (L !! length d) eqn:E1; [|done]. cbn in El. by simplify_eq.
Qed.

Lemma keeps_unit {A} (m : SM (CheckState S T) exc A) s r s' : keeps VGU m -> m s = (r, s') -> cs_u s' = cs_u s /\ cs_g s' = cs_g s.
Proof. intros Hk Hm. pose proof (keeps_run VGU m s r s' Hk Hm) as E. unfold VGU in E. by injection E as -> ->. Qed.

(** A run that keeps guard and unit, then marks write [i] as project-scoped. *)
Lemma mark_project {A} (m : SM (CheckState S T) exc A) W s i w a s' :
  keeps VGU m -> classes_from W s -> W !! i = Some w ->
  (Group (KWKey w) = "gc" \/ Shape (KWKey w) = "sliceRef" \/ Shape (KWKey w) = "delfiles") ->
  (acc' ← m; mod_u (set_class i KCProject) ≫= fun _ => mret acc') s = (Ok a, s') -> classes_from W s'.
Proof.
  intros Hk HW Hi Hg Hr. apply sm_bind_Ok in Hr as (a' & s1 & Hm & Hr).
  apply sm_bind_Ok in Hr as ([] & s2 & Hu & Hr). injection Hu as <-. injection Hr as <- <-.
  apply (classes_from_set W _ i w); [|done|done|by left]. eapply classes_from_eq; [done|].
  by eapply keeps_unit.
Qed.

Lemma anchorWrite_classes W acc i w acc' s s' :
  classes_from W s -> W !! i = Some w ->
  anchorWrite perm acc (i, w) s = (Ok acc', s') -> classes_from W s'.
Proof.
  intros HW Hi Hr. unfold anchorWrite in Hr. destruct acc as [refs eff].
  destruct (Group (KWKey w) =s "gc") eqn:Eg; cbn [negb] in Hr; [|by injection Hr as <- <-]. apply eqs_true in Eg.
  apply sm_bind_Ok in Hr as (u & s1 & Hu & Hr). injection Hu as <- <-.
  eapply mark_project; [|exact HW|exact Hi|by left|exact Hr].
  unfold anchorField. keeps_tac.
Qed.

Lemma mfold_classes {B} (f : B -> nat * KeyWrite -> SM (CheckState S T) exc B) W b s b' s' :
  (forall b i w b' s s', classes_from W s -> W !! i = Some w -> f b (i, w) s = (Ok b', s') -> classes_from W s') ->
  classes_from W s -> mfold f b (imap pair W) s = (Ok b', s') -> classes_from W s'.
Proof.
  intros Hf HW Hr.
  refine (wp_run _ (fun _ s' => classes_from W s') (fun _ _ => True) _ _ _ _ Hr).
  apply (wp_mfold (fun _ _ s => classes_from W s)); [done| |done].
  intros d [i w] t b1 s1 Hl H1. unfold wp. destruct (f b1 (i, w) s1) as [[b2|e] s2] eqn:E; [|done].
  eapply Hf; [done| |done]. by eapply imap_pair_lookup.
Qed.

Lemma anchorCleanup_classes s eff s' :
  anchorCleanup perm s = (Ok eff, s') -> classes_from (Writes (cs_u s)) s'.
Proof.
  unfold anchorCleanup. intros Hr. apply sm_bind_Ok in Hr as (u & s0 & Hu & Hr). injection Hu as <- <-.
  apply sm_bind_Ok in Hr as ([refs e] & s1 & Hw & Hr).
  assert (classes_from (Writes (cs_u s)) s1) as H1.
  { eapply mfold_classes; [|apply Forall2_reclassed_refl|exact Hw]. intros. by eapply anchorWrite_classes. }
  apply sm_bind_Ok in Hr as (sc & s2 & Hs & Hr). injection Hs as <- <-.
  apply sm_bind_Ok in Hr as (refs' & s3 & Hp & Hr).
  apply sm_bind_Ok in Hr as ([] & s4 & Hu & Hr). injection Hu as <-. injection Hr as <- <-.
  unfold classes_from. cbn. eapply classes_from_eq in H1; [exact H1|].
  eapply keeps_unit; [|exact Hp]. keeps_tac.
Qed.

Lemma ownZeroWrite_classes p W e i w e' s s' :
  classes_from W s -> W !! i = Some w -> ownZeroWrite p e (i, w) s = (Ok e', s') -> classes_from W s'.
Proof.
  intros HW Hi Hr. unfold ownZeroWrite in Hr. apply sm_bind_Ok in Hr as (u & s0 & Hu & Hr). injection Hu as <- <-.
  destruct (negb (Shape (KWKey w) =s "sliceRef") || negb (cname (wcmd (cs_u s) w) =s "HDEL") || _) eqn:E; [discriminate Hr|].
  to_prop. apply sm_bind_Ok in Hr as (fs & s1 & Hf & Hr). apply sm_bind_Ok in Hr as (e1 & s2 & Hm & Hr).
  apply sm_bind_Ok in Hr as ([] & s3 & Hu & Hr). injection Hu as <-. injection Hr as <- <-.
  apply (classes_from_set W _ i w); [|done|by right; left|by left].
  apply (keeps_run cs_u) in Hf; [|keeps_tac].
  assert (Writes (cs_u s2) = Writes (cs_u s1)) as Hw.
  { refine (keeps_run (fun s => Writes (cs_u s)) _ _ _ _ _ Hm). keeps_tac. }
  unfold classes_from in *. by rewrite Hw, Hf.
Qed.

Lemma sliceStage_classes p hp e e' s s' :
  sliceStage perm p hp e s = (Ok e', s') -> classes_from (Writes (cs_u s)) s'.
Proof.
  unfold sliceStage. intros Hr. apply sm_bind_Ok in Hr as (u & s0 & Hu & Hr). injection Hu as <- <-.
  destruct (is_admin p || is_bg p); [injection Hr as <- <-; apply Forall2_reclassed_refl|].
  apply sm_bind_Ok in Hr as (sc & s1 & Hs & Hr). apply (keeps_run cs_u) in Hs; [|keeps_tac].
  apply sm_bind_Ok in Hr as ([] & s2 & Hm & Hr). injection Hm as <-.
  apply sm_bind_Ok in Hr as ([] & s3 & Hv & Hr). apply (keeps_unit _ _ _ _ (keeps_validatePushes _ _)) in Hv as [Hv _].
  cbn in Hv. apply sm_bind_Ok in Hr as (e1 & s4 & Hg & Hr). apply sm_bind_Ok in Hr as (sc' & s5 & Hs' & Hr).
  injection Hs' as <- <-. injection Hr as <- <-.
  rewrite Hs in Hv. rewrite <- Hv. destruct (_ && _); [|injection Hg as <- <-; apply Forall2_reclassed_refl].
  apply sm_bind_Ok in Hg as (e2 & s6 & Hg & Hr). injection Hr as <- <-.
  destruct hp; [by eapply anchorCleanup_classes|]. unfold ownZeroRefDrop in Hg.
  apply sm_bind_Ok in Hg as (u & s7 & Hu & Hg). injection Hu as <- <-.
  eapply mfold_classes; [|apply Forall2_reclassed_refl|exact Hg]. intros. by eapply ownZeroWrite_classes.
Qed.

Lemma own_classes p (m : SM (CheckState S T) exc (list guardEffect)) u shape name e' s s' :
  (forall s r s', m s = (r, s') -> Writes (cs_u s') = Writes (cs_u s)) ->
  bareRecord p u shape name = true -> (shape = "sliceRef" \/ shape = "delfiles") ->
  classes_from (Writes u) s ->
  (x ← m; mod_u (set_class 0 KCOwnRecord) ≫= fun _ => mret x) s = (Ok e', s') ->
  classes_from (Writes u) s'.
Proof.
  intros Hw Hb Hsh HW Hr. apply sm_bind_Ok in Hr as (x & s1 & Hm & Hr).
  apply sm_bind_Ok in Hr as ([] & s2 & Hu & Hr). injection Hu as <-. injection Hr as <- <-.
  unfold bareRecord in Hb. destruct (Writes u) as [|w [|? ?]] eqn:EW;
    [by rewrite !andb_false_r in Hb| |by rewrite !andb_false_r in Hb].
  to_prop. apply (classes_from_set _ _ 0 w); [|done| |by right].
  - unfold classes_from in *. by rewrite (Hw _ _ _ Hm).
  - right. match goal with Hx : Shape _ = _ |- _ => rewrite Hx end. tauto.
Qed.

Lemma ownRecordStage_classes p e s s' :
  ownRecordStage p s = (Ok e, s') -> classes_from (Writes (cs_u s)) s'.
Proof.
  unfold ownRecordStage. intros Hr. apply sm_bind_Ok in Hr as (u & s0 & Hu & Hr). injection Hu as <- <-.
  assert (Hstep : forall (m : SM (CheckState S T) exc (list guardEffect)) shape name y sa sb,
    (forall s r s', m s = (r, s') -> Writes (cs_u s') = Writes (cs_u s)) ->
    (shape = "sliceRef" \/ shape = "delfiles") -> classes_from (Writes (cs_u s)) sa ->
    (if bareRecord p (cs_u s) shape name then x ← m; mod_u (set_class 0 KCOwnRecord) ≫= fun _ => mret x else mret []) sa = (Ok y, sb) ->
    classes_from (Writes (cs_u s)) sb).
  { intros m shape name y sa sb Hw Hsh HW Hm. destruct (bareRecord p (cs_u s) shape name) eqn:Eb; [|by injection Hm as <- <-].
    by eapply (own_classes p m). }
  apply sm_bind_Ok in Hr as (e1 & s1 & H1 & Hr). apply sm_bind_Ok in Hr as (e2 & s2 & H2 & Hr).
  apply sm_bind_Ok in Hr as (e3 & s3 & H3 & Hr). injection Hr as <- <-.
  eapply Hstep in H1; [| | by left | apply Forall2_reclassed_refl].
  eapply Hstep in H2; [| | by left | exact H1].
  eapply Hstep in H3; [| | by right | exact H2]. exact H3.
  all: intros sa r sb Hm; refine (keeps_run (fun s => Writes (cs_u s)) _ _ _ _ _ Hm).
  all: unfold ownSliceDrop, ownDelfilesDrop, rollbackDrop; keeps_tac.
Qed.

(** ** The key gate *)
Definition class_allowed (p : Principal) (u : Unit) (w : KeyWrite) : Prop :=
  match KWClass w with
  | KCOwnRecord | KCCounter | KCSession => True
  | KCTrashCreate | KCProject => PKind p <> KindWebDAV
  | KCPresence => PKind p = KindAdmin \/ Suffix (KWKey w) = host p
  | KCLinkBench => PKind p = KindAdmin \/ linkBenchOK (wcmd u w) = true
  | KCBG => PKind p = KindAdmin \/ PKind p = KindBG
  | KCFarm => PKind p = KindAdmin \/ PKind p = KindFarm \/ PKind p = KindManager
  | KCAdmin | KCChannel | KCUnknown => PKind p = KindAdmin
  end.

Definition VW s : Unit * list KeyWrite := (core (cs_u s), Writes (cs_u s)).
Definition VWP s : Unit * list KeyWrite * list KeyWrite := (core (cs_u s), Writes (cs_u s), Project (cs_u s)).

Lemma VWP_eq s s' : VWP s' = VWP s -> VW s' = VW s /\ Project (cs_u s') = Project (cs_u s).
Proof. intros E. split; [exact (f_equal fst E) | exact (f_equal snd E)]. Qed.

Lemma keeps_mod_g_VWP f : keeps VWP (mod_g (S := S) (T := T) f).
Proof. done. Qed.
Lemma keeps_time_now_VWP : keeps VWP (time_now (S := S) (T := T) clock).
Proof. done. Qed.
#[local] Hint Resolve keeps_mod_g_VWP keeps_time_now_VWP : frame.

Lemma keeps_counterGate p u c w : keeps VWP (counterGate (S := S) (T := T) clock p u c w).
Proof. unfold counterGate, counterCeiling, refreshCounter, openWindow. keeps_tac. Qed.

Lemma keeps_sessionGate p u c w : keeps VWP (sessionGate (S := S) (T := T) p u c w).
Proof. unfold sessionGate, sessionSetGate, heartbeatGate. keeps_tac. Qed.

Lemma is_bg_true p : is_bg p = true <-> PKind p = KindBG.
Proof. apply bool_decide_eq_true. Qed.

Lemma keyGate_spec p e w e' s s' :
  keyGate clock p e w s = (Ok e', s') ->
  class_allowed p (cs_u s) w /\ VW s' = VW s /\
  Project (cs_u s') = Project (cs_u s) ++ (if decide (KWClass w = KCProject) then [w] else []).
Proof.
  unfold keyGate, class_allowed. intros Hr. apply sm_bind_Ok in Hr as (u & s0 & Hu & Hr). injection Hu as <- <-.
  destruct (KWClass w) eqn:Ec; try (rewrite decide_False by done; rewrite app_nil_r).
  - destruct (is_admin p); [by injection Hr as <- <-|]. apply sm_bind_Ok in Hr as ([] & s1 & Hc & Hr).
    injection Hr as <- <-. apply (keeps_run VWP) in Hc; [|apply keeps_counterGate]. by apply VWP_eq in Hc.
  - apply sm_bind_Ok in Hr as (x & s1 & Hc & Hr). injection Hr as <- <-.
    apply (keeps_run VWP) in Hc; [|apply keeps_sessionGate]. by apply VWP_eq in Hc.
  - destruct (is_admin p) eqn:Ea, (Suffix (KWKey w) =s host p) eqn:Eh; cbn in Hr; try discriminate Hr;
      injection Hr as <- <-; to_prop; (split; [|done]); first [by right | left; by apply is_admin_true].
  - destruct (is_admin p) eqn:Ea, (linkBenchOK (wcmd (cs_u s) w)) eqn:Eh; cbn in Hr; try discriminate Hr;
      injection Hr as <- <-; to_prop; (split; [|done]); first [by right | left; by apply is_admin_true].
  - destruct (bool_decide (PKind p = KindWebDAV)) eqn:Ew; [discriminate Hr|]. injection Hr as <- <-. by to_prop.
  - by injection Hr as <- <-.
  - destruct (is_admin p) eqn:Ea, (is_bg p) eqn:Eb; cbn in Hr; try discriminate Hr;
      injection Hr as <- <-; (split; [|done]); first [left; by apply is_admin_true | right; by apply is_bg_true].
  - destruct (is_admin p) eqn:Ea; [injection Hr as <- <-; split; [left; by apply is_admin_true|done]|].
    cbn [negb andb] in Hr.
    destruct (bool_decide (PKind p = KindFarm)) eqn:E1, (bool_decide (PKind p = KindManager)) eqn:E2; cbn in Hr; try discriminate Hr;
      injection Hr as <- <-; to_prop; tauto.
  - destruct (is_admin p) eqn:Ea; [|discriminate Hr]. injection Hr as <- <-. split; [by apply is_admin_true|done].
  - destruct (bool_decide (PKind p = KindWebDAV)) eqn:Ew; [discriminate Hr|]. to_prop.
    apply sm_bind_Ok in Hr as ([] & s1 & Hu & Hr). injection Hu as <-. injection Hr as <- <-.
    rewrite decide_True by done. done.
  - destruct (is_admin p) eqn:Ea; [|discriminate Hr]. injection Hr as <- <-. split; [by apply is_admin_true|done].
  - destruct (is_admin p) eqn:Ea; [|discriminate Hr]. injection Hr as <- <-. split; [by apply is_admin_true|done].
Qed.

Lemma class_allowed_core p u u' w : core u = core u' -> class_allowed p u w -> class_allowed p u' w.
Proof.
  intros Hc. unfold class_allowed, wcmd, cmd_at. by rewrite (core_Cmds _ _ Hc).
Qed.

Lemma keyGates_spec p ws e e' s s' :
  mfold (keyGate clock p) e ws s = (Ok e', s') ->
  Forall (class_allowed p (cs_u s)) ws /\ VW s' = VW s /\
  Project (cs_u s') = Project (cs_u s) ++ filter (fun w => KWClass w = KCProject) ws.
Proof.
  revert e s. induction ws as [|w ws IH]; intros e s Hr; cbn [mfold] in Hr.
  - injection Hr as <- <-. by rewrite app_nil_r.
  - apply sm_bind_Ok in Hr as (e1 & s1 & Hk & Hr). apply keyGate_spec in Hk as (Ha & Hv & Hp).
    apply IH in Hr as (Hf & Hv' & Hp'). rewrite Hv' , Hv. split; [|split; [done|]].
    + constructor; [done|]. eapply Forall_impl; [exact Hf|]. intros x. apply class_allowed_core. exact (f_equal fst Hv).
    + rewrite Hp', Hp, filter_cons, <- app_assoc. destruct (decide (KWClass w = KCProject)); done.
Qed.

(** ** Where a written key's class comes from *)
Lemma classify_write_keys args c :
  Classify args = Some c -> CClass c = ClassWrite -> Keys c = ParseKey <$> Raw c.
Proof.
  unfold Classify. intros Hc Hw. destruct args as [|a0 args]; [by simplify_eq|].
  destruct (HasPrefix (ToUpper a0) "JM."); [by simplify_eq|].
  destruct (classifySub (ToUpper a0) (a0 :: args)); [by simplify_eq|].
  destruct (assoc (ToUpper a0) commands) as [[cl ks]|]; [|by simplify_eq].
  destruct (decide (cl = ClassScript)); [|by simplify_eq].
  destruct args as [|a1 [|a2 rest]]; [by cbn in Hc; simplify_eq..|].
  destruct (classifyScript_cases (ToUpper a0) a0 a1 a2 rest) as [E|(Ha & nk & Hp & H1 & E)].
  - rewrite E in Hc. cbn in Hc. by simplify_eq.
  - destruct (decide (max_i64 - 3 < nk)); [by rewrite E in Hc|]. destruct E as [_ E]. rewrite E in Hc. cbn in Hc. by simplify_eq.
Qed.

Lemma all_writes_elem i cs w :
  w ∈ all_writes i cs -> exists j c, cs !! j = Some c /\ KWCmd w = (i + j)%nat /\ CClass (Info c) = ClassWrite /\
    KWClass w = baseClass (KWKey w) (cname c) /\ (KWKey w, KWRaw w) ∈ zip (Keys (Info c)) (Raw (Info c)).
Proof.
  revert i. induction cs as [|c cs IH]; intros i Hw; cbn [all_writes] in Hw; [by apply elem_of_nil in Hw|].
  apply elem_of_app in Hw as [Hw|Hw].
  - exists 0%nat, c. unfold cmd_writes in Hw. destruct (decide (CClass (Info c) = ClassWrite)); [|by apply elem_of_nil in Hw].
    apply elem_of_lookup_zip_with in Hw as (j & k & raw & -> & Hk & Hr). cbn. rewrite Nat.add_0_r. split_and!; [done..|].
    apply elem_of_lookup_zip_with. eauto 10.
  - apply IH in Hw as (j & c' & Hj & Hi & Hrest). exists (Datatypes.S j), c'. split; [done|]. split; [lia|done].
Qed.

Lemma all_writes_wf i cs w :
  Forall (fun c => Classify (Args c) = Some (Info c)) cs -> w ∈ all_writes i cs -> KWKey w = ParseKey (KWRaw w).
Proof.
  intros Hwf Hw. apply all_writes_elem in Hw as (j & c & Hj & _ & Hc & _ & Hz).
  rewrite Forall_lookup in Hwf. specialize (Hwf _ _ Hj). cbn in Hwf.
  rewrite (classify_write_keys _ _ Hwf Hc) in Hz. apply elem_of_lookup_zip_with in Hz as (n & k & raw & Hkr & Hk & Hr).
  rewrite list_lookup_fmap, Hr in Hk. cbn in Hk. congruence.
Qed.

Lemma parse_shape_gc k :
  Shape (ParseKey k) = "sliceRef" \/ Shape (ParseKey k) = "delfiles" -> Group (ParseKey k) = "gc".
Proof.
  destruct (ParseKey_sound k) as [->|Hk]; [naive_solver|]. revert Hk. generalize (ParseKey k). intros r Hk Hs.
  destruct Hk as [k' g Hg| |p sh g r Hp|p sh g r Hp Hr|p sh g n Hp Hn|n j Hn Hj|p sh n Hp Hn]; cbn in *;
    try (by destruct Hs); try (elem_inv Hp; by destruct Hs).
  destruct Hs as [->| ->]; vm_compute in Hg; congruence.
Qed.

(** The stages of an admitted check, and the written keys they end with. *)
Lemma check_stages p s eff s' :
  Check perm clock p s = (Ok eff, s') ->
  let u := cs_u s in
  Forall (command_allowed p) (Cmds u) /\
  core (cs_u s') = core u /\
  Project (cs_u s') = filter (fun w => KWClass w = KCProject) (Writes (cs_u s')) /\
  Forall (class_allowed p (cs_u s')) (Writes (cs_u s')) /\
  exists hourly,
    (hourly <> 0 -> fst (hourlyTrashCreate (addWrites (all_writes 0 (Cmds u)) (upd_u resetUnit s))) = Ok hourly) /\
    Forall2 reclassed ((fun w => mkKeyWrite (KWCmd w) (KWKey w) (KWRaw w)
       (refineClass (set_Writes (resetUnit u) (all_writes 0 (Cmds u))) (is_admin p || is_bg p) hourly w)) <$> all_writes 0 (Cmds u))
    (Writes (cs_u s')).
Proof.
  intros Hr u. unfold Check in Hr. apply sm_bind_Ok in Hr as ([] & s0 & Hu & Hr). injection Hu as <-.
  apply sm_bind_Ok in Hr as (u1 & s1 & Hu & Hr). injection Hu as <- <-.
  apply sm_bind_Ok in Hr as ([] & s2 & Hc & Hr). apply commandGates_spec in Hc as [Hall ->].
  apply sm_bind_Ok in Hr as ([] & s3 & Ht & Hr). apply trashStage_spec in Ht as (hourly & -> & Hh).
  apply sm_bind_Ok in Hr as (u2 & s4 & Hu & Hr). injection Hu as <- <-.
  apply sm_bind_Ok in Hr as (e1 & s5 & Ho & Hr). apply sm_bind_Ok in Hr as (e2 & s6 & Hs & Hr).
  apply sm_bind_Ok in Hr as (u3 & s7 & Hu & Hr). injection Hu as <- <-.
  pose proof (ownRecordStage_classes _ _ _ _ Ho) as Ho'. pose proof (sliceStage_classes _ _ _ _ _ _ Hs) as Hs'.
  apply (keeps_run VFix) in Ho; [|keeps_tac]. apply (keeps_run VFix) in Hs; [|keeps_tac].
  apply keyGates_spec in Hr as (Hk & Hv & Hp). rewrite Ho in Hs.
  assert (core (cs_u s6) = core u) as Hcore by exact (f_equal (fun x => snd (fst (fst x))) Hs).
  assert (Project (cs_u s6) = []) as Hproj by exact (f_equal snd Hs).
  assert (core (cs_u s') = core (cs_u s6)) as Hcore' by exact (f_equal fst Hv).
  assert (Writes (cs_u s') = Writes (cs_u s6)) as HW by exact (f_equal snd Hv).
  split; [exact Hall|]. split; [congruence|]. split; [by rewrite Hp, Hproj, HW|]. split.
  - rewrite HW. eapply Forall_impl; [exact Hk|]. intros w. apply class_allowed_core. congruence.
  - exists hourly. split; [intros Hn; destruct (Hh Hn) as [E _]; exact (f_equal fst E)|]. rewrite HW. unfold classes_from in *. etransitivity; [|exact Hs']. exact Ho'.
Qed.

Definition groups : list string :=
  ["admin"; "counter"; "bgmark"; "dirstat"; "quota"; "gc"; "session"; "presence"; "linkbench"; "farm"; "lease";
   "channel"; "inode"; "dentry"; "unknown"].

Lemma assoc_elem {A} k (l : list (string * A)) v : assoc k l = Some v -> (k, v) ∈ l.
Proof.
  induction l as [|[k' v'] l IH]; cbn; [done|]. destruct (k =s k') eqn:E; intros Ha.
  - apply eqs_true in E as ->. simplify_eq. apply elem_of_cons. by left.
  - apply elem_of_cons. right. auto.
Qed.

Lemma parse_group k : Group (ParseKey k) ∈ groups.
Proof.
  destruct (ParseKey_sound k) as [->|Hk]; [cbn; unfold groups; in_list|]. revert Hk. generalize (ParseKey k). intros r Hk.
  destruct Hk as [k' g Hg| |p sh g r Hp|p sh g r Hp Hr|p sh g n Hp Hn|n j Hn Hj|p sh n Hp Hn]; cbn; unfold groups;
    try (elem_inv Hp; in_list); try in_list.
  apply assoc_elem in Hg. elem_inv Hg; in_list.
Qed.

Lemma refineClass_cases u tr hourly w :
  refineClass u tr hourly w = KWClass w \/
  ((Group (KWKey w) = "inode" \/ Group (KWKey w) = "dentry") /\
   refineClass u tr hourly w ∈ [KCBG; KCProject; KCTrashCreate]).
Proof.
  unfold refineClass. destruct (negb (Trash (KWKey w)) || _) eqn:E; [by left|right].
  apply orb_false_iff in E as [_ E]. split.
  - apply andb_false_iff in E as [E|E]; to_prop; auto.
  - repeat case_match; in_list.
Qed.

(** The class an admitted write ends with, by the group of its key. *)
Lemma final_class p s eff s' w :
  wf_unit (cs_u s) -> Check perm clock p s = (Ok eff, s') -> w ∈ Writes (cs_u s') ->
  KWKey w = ParseKey (KWRaw w) /\ class_allowed p (cs_u s') w /\
  CClass (Info (wcmd (cs_u s') w)) = ClassWrite /\
  (KWClass w = baseClass (KWKey w) (cname (wcmd (cs_u s') w)) \/
   ((Group (KWKey w) = "inode" \/ Group (KWKey w) = "dentry") /\ KWClass w ∈ [KCBG; KCProject; KCTrashCreate]) \/
   (Group (KWKey w) = "gc" /\ KWClass w ∈ [KCProject; KCOwnRecord])).
Proof.
  intros Hwf Hr Hw. apply check_stages in Hr as (_ & Hcore & _ & Hcls & hourly & _ & Hre).
  rewrite Forall_forall in Hcls. pose proof (Hcls w Hw) as Hc.
  apply list_elem_of_lookup in Hw as [i Hi].
  destruct (Forall2_lookup_r _ _ _ _ _ Hre Hi) as (w2 & H2 & Hk & Hcl).
  rewrite list_lookup_fmap in H2. destruct (all_writes 0 (Cmds (cs_u s)) !! i) as [w1|] eqn:H1; [|done].
  cbn in H2. injection H2 as <-. unfold wkey in Hk. cbn in Hk. injection Hk as Hk1 Hk2 Hk3.
  apply list_elem_of_lookup_2 in H1. pose proof (all_writes_wf _ _ _ Hwf H1) as Hpk.
  apply all_writes_elem in H1 as (j & c & Hj & Hji & Hcw & Hb & _). cbn in Hji.
  assert (wcmd (cs_u s') w = c) as Hwc.
  { unfold wcmd, cmd_at. rewrite <- Hk1, Hji, (core_Cmds _ _ Hcore), Hj. done. }
  rewrite Hwc, <- Hk2, <- Hk3. split; [done|]. split; [done|]. split; [done|].
  cbn [KWKey KWClass] in Hcl. destruct Hcl as [Hcl|[Hgc Hcl]].
  - rewrite Hcl. match goal with |- context [refineClass ?u ?t ?h ?w] => destruct (refineClass_cases u t h w) as [Hrc|Hrc] end;
      [left; congruence | right; left; done].
  - right; right. split; [|destruct Hcl as [->| ->]; in_list].
    destruct Hgc as [Hgc|Hgc]; [done|]. rewrite Hpk in *. by apply parse_shape_gc.
Qed.

Lemma final_write_allowed p s eff s' w :
  wf_unit (cs_u s) -> Check perm clock p s = (Ok eff, s') -> w ∈ Writes (cs_u s') ->
  write_allowed p (wcmd (cs_u s') w) (KWKey w).
Proof.
  intros Hwf Hr Hw. destruct (final_class p s eff s' w Hwf Hr Hw) as (Hk & Hc & _ & Hcl).
  destruct (decide (PKind p = KindAdmin)) as [Ha|Ha]; [by left|right].
  pose proof (parse_group (KWRaw w)) as Hg. rewrite <- Hk in Hg.
  set (k := KWKey w) in *. set (c := wcmd (cs_u s') w) in *.
  unfold groups in Hg. repeat (apply elem_of_cons in Hg as [Hg|Hg]); [..|by apply elem_of_nil in Hg].
  all: destruct Hcl as [Hcl|[[[Hx|Hx] Hcl]|[Hx Hcl]]]; try (rewrite Hg in Hx; discriminate Hx).
  all: unfold class_allowed in Hc; try (unfold baseClass in Hcl; rewrite Hg in Hcl; cbn in Hcl).
  all: repeat match type of Hcl with
    | _ = (if ?b then _ else _) => destruct b eqn:Hn; to_prop
    | _ ∈ _ => apply elem_of_cons in Hcl as [Hcl|Hcl]
    | _ ∈ [] => by apply elem_of_nil in Hcl
    end.
  all: rewrite Hcl in Hc; try (by exfalso; apply Ha).
  all: rewrite Hg; split_and!; intros; try discriminate; try tauto; try done.
  all: intros Hin; repeat (apply elem_of_cons in Hin as [Hin|Hin]; [try discriminate Hin|]);
    try (by apply elem_of_nil in Hin); try tauto; repeat destruct Hc as [Hc|Hc]; congruence.
Qed.
End facts.
