(* ===== verification/GuardSlices.v ===== *)
(** * Slice reference accounting

    The conservation law behind [validatePushes] and [anchorCleanup]: in a
    unit the guard admits, for every sliceRef field, the references the unit
    asks to drop plus the copies it pushes are at most the increments it makes
    plus the copies its LTRIM/DEL removes, plus one if the slice is linked for
    the first time by the principal it was allocated to. *)

From S2P Require Import Prelude GoLib GoTime Resp Classify ClassifyFacts Policy Stores Guard GuardScope GuardCheck GuardFrames.

Definition at0 (m : gmap string Z) (f : string) : Z := default 0 (m !! f).

Lemma at0_addi64 m k n f : at0 (addi64 m k n) f = if decide (f = k) then i64 (at0 m k + n) else at0 m f.
Proof.
  unfold at0, addi64. destruct (decide (f = k)) as [->|Hn]; [by rewrite lookup_insert_eq|].
  by rewrite lookup_insert_ne.
Qed.

(** Maps of int64 values. *)
Definition i64_map (m : gmap string Z) : Prop := forall f, is_i64 (at0 m f).

Lemma i64_map_empty : i64_map ∅.
Proof. intros f. unfold at0. rewrite lookup_empty. cbv. split; congruence. Qed.

Lemma i64_map_add m k n : i64_map m -> i64_map (addi64 m k n).
Proof. intros Hm f. rewrite at0_addi64. destruct (decide (f = k)); [apply i64_range|apply Hm]. Qed.

(** ** Counting pushes *)
Definition elemField (v : string) : option (Z * string) :=
  match chunkElem v with
  | Some (id, size) => if id =? 0 then None else Some (id, sliceKeyOf id size)
  | None => None
  end.

(** Copies of field [f] among pushed elements. *)
Definition pushCount (f : string) (vs : list string) : Z :=
  Z.of_nat (length (filter (fun v => (snd <$> elemField v) = Some f) vs)).

Lemma pushCount_app f a b : pushCount f (a ++ b) = pushCount f a + pushCount f b.
Proof. unfold pushCount. rewrite filter_app, length_app. lia. Qed.

Lemma pushCount_one f v : pushCount f [v] = if decide ((snd <$> elemField v) = Some f) then 1 else 0.
Proof. unfold pushCount. rewrite filter_cons. by destruct (decide _). Qed.

Lemma pushCount_nonneg f vs : 0 <= pushCount f vs.
Proof. unfold pushCount. lia. Qed.

Definition pushNames : list string := ["RPUSH"; "LPUSH"; "RPUSHX"; "LPUSHX"].

(** The elements a write pushes into a chunk list. *)
Definition pushedBy (u : Unit) (w : KeyWrite) : list string :=
  if (Shape (KWKey w) =s ShapeChunk) && bool_decide (cname (wcmd u w) ∈ pushNames)
  then drop 2 (Args (wcmd u w)) else [].

Definition pushedElems (u : Unit) (ws : list KeyWrite) : list string := mjoin (pushedBy u <$> ws).

Lemma pushedElems_app u a b : pushedElems u (a ++ b) = pushedElems u a ++ pushedElems u b.
Proof. unfold pushedElems. by rewrite fmap_app, join_app. Qed.

(** The field names its slice. *)
Lemma sliceKeyOf_inj id id' size size' :
  is_u64 id -> is_u64 id' -> sliceKeyOf id size = sliceKeyOf id' size' -> id = id'.
Proof.
  intros H1 H2. unfold sliceKeyOf. intros E. injection E as E.
  assert (forall n r, is_u64 n -> IndexByte (FormatUint n +:+ String "_" r) "_" = Some (String.length (FormatUint n))) as Hi.
  { intros n r Hn. apply IndexByte_app_skip, all_digits_IndexByte; [done|]. apply all_digits_FormatUint. unfold is_u64 in Hn. lia. }
  pose proof (Hi id (FormatUint size) H1) as Ha. cbn in E. rewrite E, (Hi id' _ H2) in Ha. injection Ha as Ha.
  apply FormatUint_inj; [done..|]. rewrite <- (stake_app (FormatUint id) (String "_" (FormatUint size))).
  rewrite E, <- Ha. apply stake_app.
Qed.

Lemma elemField_u64 v id f : elemField v = Some (id, f) -> is_u64 id /\ exists size, f = sliceKeyOf id size.
Proof.
  unfold elemField, chunkElem. destruct (negb (slen v =? 24)); [done|]. destruct (_ =? 0); [done|].
  intros [= <- <-]. split; [|by eexists]. apply be_fold_u64. rewrite length_stake. lia.
Qed.

Section slices.
Context {S T : Type} `{SessionStore S} `{SliceStore T}.
Context (perm : forall A : Type, list A -> list A).
Implicit Types (s : CheckState S T) (sc : sliceScope).

(** ** What the side read counts *)
Definition countKey (read : ChunkReader) (db : Z) (acc : option (gmap string Z * gmap string string)) (ko : string * trimOp)
    : option (gmap string Z * gmap string string) :=
  acc ← acc;
  match read db (fst ko) with
  | Ok elems => Some (countRemoved (snd ko) (fst ko) (Z.of_nat (length elems)) 0 elems acc)
  | Err _ => None
  end.

(** The copies each field loses from the chunks in [rw]; [None] if a chunk
    cannot be read. *)
Definition allRemoved (g : Guard S T) (db : Z) (rw : gmap string trimOp) : option (gmap string Z * gmap string string) :=
  match chunks g with
  | None => Some (∅, ∅)
  | Some read => foldl (countKey read db) (Some (∅, ∅)) (perm _ (map_to_list rw))
  end.

Lemma countRemoved_i64 op key n i elems acc :
  i64_map (fst acc) -> i64_map (fst (countRemoved op key n i elems acc)).
Proof.
  revert i acc. induction elems as [|el elems IH]; intros i acc Ha; cbn [countRemoved]; [done|].
  apply IH. destruct (trim_keeps op n i); [done|]. destruct (chunkElem el) as [[id size]|]; [|done].
  destruct (id =? 0); [done|]. by apply i64_map_add.
Qed.

(** Running the loop of [sideRead] is folding [countKey]. *)
Definition readBody (read : ChunkReader) (db : Z) (ko : string * trimOp) : SM (CheckState S T) exc unit :=
  let '(key, op) := ko in
  match read db key with
  | Err _ => readFail
  | Ok elems =>
      mod_sc (fun sc =>
        let '(r, rin) := countRemoved op key (Z.of_nat (length elems)) 0 elems (removed sc, removedIn sc) in
        sc_set_removed sc r rin)
  end.

Lemma sc_set_removed_twice sc a b c d : sc_set_removed (sc_set_removed sc a b) c d = sc_set_removed sc c d.
Proof. done. Qed.

Lemma foldl_countKey_None read db l : foldl (countKey read db) None l = None.
Proof. by induction l. Qed.

Lemma readBody_loop read db l s s' :
  mfor l (readBody read db) s = (Ok tt, s') ->
  exists r rin, foldl (countKey read db) (Some (removed (cs_sc s), removedIn (cs_sc s))) l = Some (r, rin) /\
    s' = upd_sc (fun sc => sc_set_removed sc r rin) s.
Proof.
  revert s. induction l as [|[key op] l IH]; intros s Hr; cbn [mfor] in Hr.
  - injection Hr as <-. exists (removed (cs_sc s)), (removedIn (cs_sc s)). split; [done|]. by destruct s as [? ? [] ?].
  - apply sm_bind_Ok in Hr as ([] & s1 & Hb & Hr). unfold readBody in Hb.
    destruct (read db key) as [elems|] eqn:Ek; [|unfold readFail in Hb; by apply sm_bind_Ok in Hb as (? & ? & _ & ?)].
    injection Hb as <-. apply IH in Hr as (r & rin & Hf & ->). cbn [foldl]. unfold countKey at 2. cbn. rewrite Ek.
    destruct (countRemoved op key (Z.of_nat (length elems)) 0 elems (removed (cs_sc s), removedIn (cs_sc s))) as [r1 rin1] eqn:E1.
    cbn in Hf. rewrite E1 in Hf. cbn in Hf. exists r, rin. split; [done|].
    unfold upd_sc. cbn [cs_g cs_u cs_sc cs_tick]. rewrite E1. done.
Qed.

(** The scope after the chunks were read. *)
Definition readScope sc (r : gmap string Z) (rin : gmap string string) : sliceScope :=
  sc_set_removed (sc_start_read sc) r rin.

Lemma sideRead_spec s s' :
  sideRead perm s = (Ok tt, s') ->
  readErr (cs_sc s) = None /\
  ((sc_read (cs_sc s) = true /\ s' = s) \/
   (sc_read (cs_sc s) = false /\
    exists r rin, allRemoved (cs_g s) (DB (cs_u s)) (rewritten (cs_sc s)) = Some (r, rin) /\
      s' = upd_sc (fun sc => readScope sc r rin) s)).
Proof.
  unfold sideRead. intros Hr. apply sm_bind_Ok in Hr as (sc & s0 & Hs & Hr). injection Hs as <- <-.
  destruct (readErr (cs_sc s)) eqn:Er; [discriminate Hr|]. split; [done|].
  destruct (sc_read (cs_sc s)) eqn:Es; [left; by injection Hr as <-|right; split; [done|]].
  apply sm_bind_Ok in Hr as ([] & s1 & Hm & Hr). injection Hm as <-.
  apply sm_bind_Ok in Hr as (u & s2 & Hu & Hr). injection Hu as <- <-.
  apply sm_bind_Ok in Hr as (g & s3 & Hg & Hr). injection Hg as <- <-.
  apply sm_bind_Ok in Hr as ([] & s4 & Hb & Hr). cbn [upd_sc cs_u cs_g] in *.
  assert (s4 = upd_sc sc_start_read s) as ->.
  { destruct (beforeSide (cs_u s)) as [[[]|[]]|]; [by injection Hb as <-| |by injection Hb as <-].
    destruct (decide _); [by injection Hb as <-|]. unfold readFail in Hb. by apply sm_bind_Ok in Hb as (? & ? & _ & ?). }
  unfold allRemoved. destruct (chunks (cs_g s)) as [read|]; [|injection Hr as <-; by exists ∅, ∅].
  apply readBody_loop in Hr as (r & rin & Hf & ->). cbn in Hf. by exists r, rin.
Qed.

Lemma allRemoved_i64 g db rw r rin : allRemoved g db rw = Some (r, rin) -> i64_map r.
Proof.
  unfold allRemoved. destruct (chunks g) as [read|]; [|intros; simplify_eq; apply i64_map_empty].
  generalize (perm _ (map_to_list rw)). intros l.
  assert (G : forall l acc, i64_map (fst acc) -> foldl (countKey read db) (Some acc) l = Some (r, rin) -> i64_map r);
    [|apply G, i64_map_empty].
  clear l. induction l as [|ko l IH]; intros acc Ha Hf; cbn [foldl] in Hf; [by simplify_eq|].
  unfold countKey at 2 in Hf. cbn in Hf. destruct (read db (fst ko)) as [elems|]; [|by rewrite foldl_countKey_None in Hf].
  eapply IH; [|exact Hf]. by apply countRemoved_i64.
Qed.

(** ** The potential of a scope *)
Definition rem0 (g : Guard S T) (db : Z) (rw : gmap string trimOp) (f : string) : Z :=
  match allRemoved g db rw with Some (r, _) => at0 r f | None => 0 end.

(** What is left to pay with, for field [f]. *)
Definition phi (g : Guard S T) (db : Z) sc (f : string) : Z :=
  at0 (inc sc) f + (if sc_read sc then at0 (removed sc) f else rem0 g db (rewritten sc) f).

(** Slice [id] may be linked for the first time by [p]. *)
Definition linkable (g : Guard S T) (p : Principal) (id : Z) : Prop :=
  idOwner (slices g) id = Ok (Some (PName p)) /\ sliceUsed (slices g) id = Ok false.

Definition first1 sc (id : Z) : Z := if decide (id ∈ firstUse sc) then 1 else 0.

Record push_inv (g : Guard S T) (db : Z) (p : Principal) (sc0 : sliceScope) (vs : list string) (tu : gset Z) sc : Prop := {
  pi_rw : rewritten sc = rewritten sc0;
  pi_inc : i64_map (inc sc);
  pi_rem : sc_read sc = true -> i64_map (removed sc);
  pi_inc0 : forall f, 0 <= at0 (inc sc) f;
  pi_rem0 : sc_read sc = true -> forall f, 0 <= at0 (removed sc) f;
  pi_nodup : NoDup (firstUse sc);
  pi_first : forall id, id ∈ firstUse sc -> id ∈ tu /\ linkable g p id;
  pi_phi : forall id size, is_u64 id ->
    phi g db sc (sliceKeyOf id size) + pushCount (sliceKeyOf id size) vs <= phi g db sc0 (sliceKeyOf id size) + first1 sc id;
}.

(** No reference is counted beyond int64. *)
Definition rem_fits (g : Guard S T) (db : Z) (rw : gmap string trimOp) : Prop := forall f, 0 <= rem0 g db rw f.

Lemma sideRead_inv g db p sc0 vs tu s s' :
  cs_g s = g -> DB (cs_u s) = db -> rem_fits g db (rewritten sc0) ->
  push_inv g db p sc0 vs tu (cs_sc s) -> sideRead perm s = (Ok tt, s') ->
  cs_g s' = g /\ cs_u s' = cs_u s /\ push_inv g db p sc0 vs tu (cs_sc s') /\ sc_read (cs_sc s') = true /\
  dec (cs_sc s') = dec (cs_sc s) /\ firstUse (cs_sc s') = firstUse (cs_sc s) /\
  (forall f, phi g db (cs_sc s') f = phi g db (cs_sc s) f).
Proof.
  intros Hg Hu Hfit Hi Hr. apply sideRead_spec in Hr as [_ [[Hs ->]|(Hs & r & rin & Ha & ->)]]; [done|].
  destruct Hi. rewrite Hg, Hu, pi_rw0 in Ha.
  assert (Hrem : forall f, rem0 g db (rewritten sc0) f = at0 r f) by (intros f; unfold rem0; by rewrite Ha).
  split; [done|]. split; [done|]. split.
  2: { split_and!; try done. intros f. unfold phi. cbn. by rewrite Hs, pi_rw0, Hrem. }
  constructor; cbn; try done.
  - intros _. by eapply allRemoved_i64.
  - intros _ f. rewrite <- Hrem. apply Hfit.
  - intros id size Hid. specialize (pi_phi0 id size Hid). unfold phi in *. cbn. rewrite Hs in pi_phi0.
    rewrite ?pi_rw0, ?Hrem in *. exact pi_phi0.
Qed.

Lemma i64_pred x : is_i64 x -> 0 < x -> i64 (x + -1) = x - 1.
Proof. intros Hx H1. rewrite i64_id; [lia|]. unfold is_i64 in *. lia. Qed.

Lemma phi_same g db sc sc' f :
  inc sc' = inc sc -> sc_read sc' = sc_read sc -> removed sc' = removed sc -> rewritten sc' = rewritten sc ->
  phi g db sc' f = phi g db sc f.
Proof. unfold phi. by intros -> -> -> ->. Qed.

Lemma first1_mono sc sc' id : (id ∈ firstUse sc -> id ∈ firstUse sc') -> first1 sc id <= first1 sc' id.
Proof. intros Hm. unfold first1. repeat case_decide; try lia. tauto. Qed.

(** Paying one copy of [f] from the potential keeps the invariant. *)
Lemma push_inv_paid g db p sc0 vs tu sc sc' v id f ino :
  push_inv g db p sc0 vs tu sc -> elemField v = Some (id, f) ->
  firstUse sc' = firstUse sc -> rewritten sc' = rewritten sc -> sc_read sc' = sc_read sc ->
  i64_map (inc sc') -> (sc_read sc = true -> i64_map (removed sc')) ->
  (forall x, 0 <= at0 (inc sc') x) -> (sc_read sc = true -> forall x, 0 <= at0 (removed sc') x) ->
  (forall x, phi g db sc' x + (if decide (x = f) then 1 else 0) <= phi g db sc x) ->
  push_inv g db p sc0 (vs ++ [v]) ({[id]} ∪ tu) (sc_push sc' f id ino).
Proof.
  intros Hi Hv Hf Hrw Hre Hin Hrm Hin0 Hrm0 Hphi. destruct Hi. constructor; cbn; try congruence; try done.
  - intros E. apply Hrm. congruence.
  - intros E. apply Hrm0. congruence.
  - rewrite Hf. intros x Hx. destruct (pi_first0 x Hx). split; [set_solver|done].
  - intros x size Hx. specialize (pi_phi0 x size Hx). set (k := sliceKeyOf x size) in *. specialize (Hphi k).
    rewrite pushCount_app, pushCount_one, Hv. cbn [fmap option_fmap option_map snd].
    rewrite (phi_same g db sc') by done.
    assert (first1 (sc_push sc' f id ino) x = first1 sc x) as -> by (unfold first1; cbn; by rewrite Hf).
    destruct (decide (Some f = Some k)) as [E|E]; [injection E as E; subst f|];
      destruct (decide (k = _)); try congruence; lia.
Qed.

(** Linking a slice for the first time. *)
Lemma push_inv_first g db p sc0 vs tu sc v id f ino :
  push_inv g db p sc0 vs tu sc -> elemField v = Some (id, f) -> id ∉ tu -> linkable g p id ->
  push_inv g db p sc0 (vs ++ [v]) ({[id]} ∪ tu) (sc_push (sc_use sc id) f id ino).
Proof.
  intros Hi Hv Ht Hl. destruct Hi. constructor; cbn; try done.
  - apply NoDup_app. split; [done|]. split; [|apply NoDup_singleton]. intros x Hx Hx'.
    apply list_elem_of_singleton in Hx' as ->. by apply Ht, pi_first0.
  - intros x Hx. apply elem_of_app in Hx as [Hx|Hx]; [destruct (pi_first0 x Hx); split; [set_solver|done]|].
    apply list_elem_of_singleton in Hx as ->. split; [set_solver|done].
  - intros x size Hx. specialize (pi_phi0 x size Hx). set (k := sliceKeyOf x size) in *.
    rewrite pushCount_app, pushCount_one, Hv. cbn [fmap option_fmap option_map snd].
    rewrite (phi_same g db sc) by done.
    assert (first1 sc x <= first1 (sc_push (sc_use sc id) f id ino) x).
    { apply first1_mono. cbn. intros ?. apply elem_of_app. by left. }
    destruct (decide (Some f = Some k)) as [E|E]; [|lia]. injection E as E.
    destruct (elemField_u64 _ _ _ Hv) as (Hid & size' & Ef). assert (x = id) as ->.
    { eapply (sliceKeyOf_inj _ _ size size'); [done..|]. subst k. congruence. }
    assert (first1 sc id = 0) as Ez. { unfold first1. rewrite decide_False; [done|]. intros Hin. by apply Ht, pi_first0. }
    assert (first1 (sc_push (sc_use sc id) f id ino) id = 1).
    { unfold first1. cbn. rewrite decide_True; [done|]. apply elem_of_app. right. by apply list_elem_of_singleton. }
    lia.
Qed.

Lemma push_inv_hole g db p sc0 vs tu sc v :
  elemField v = None -> push_inv g db p sc0 vs tu sc -> push_inv g db p sc0 (vs ++ [v]) tu sc.
Proof.
  intros Hv Hi. destruct Hi. constructor; try done. intros x size Hx. specialize (pi_phi0 x size Hx).
  rewrite pushCount_app, pushCount_one, Hv, decide_False by done. lia.
Qed.

Lemma orRefuse_Ok {A} r (x : result ioerr A) a s s' : orRefuse r x s = (Ok a, s') -> x = Ok a /\ s' = s.
Proof. destruct x; intros Hx; [by injection Hx as <- <- | discriminate Hx]. Qed.

Lemma firstLink_spec p tu id b s s' :
  firstLink p tu id s = (Ok b, s') ->
  (b = true /\ s' = upd_sc (fun sc => sc_use sc id) s /\ (id ∉ tu) /\ linkable (cs_g s) p id /\ UKind (cs_u s) = UnitTxn) \/
  (b = false /\ s' = s).
Proof.
  unfold firstLink. intros Hr. apply sm_bind_Ok in Hr as (u & s0 & Hu & Hr). injection Hu as <- <-.
  apply sm_bind_Ok in Hr as (g & s0 & Hg & Hr). injection Hg as <- <-.
  destruct (bool_decide _ && bool_decide _) eqn:E; [|injection Hr as <- <-; by right]. to_prop.
  apply sm_bind_Ok in Hr as (o & s1 & Ho & Hr). apply orRefuse_Ok in Ho as [Ho ->].
  destruct (bool_decide (o = Some (PName p))) eqn:Eo; [|injection Hr as <- <-; by right]. to_prop. subst o.
  apply sm_bind_Ok in Hr as (b' & s1 & Hb & Hr). apply orRefuse_Ok in Hb as [Hb ->].
  destruct b'; [injection Hr as <- <-; by right|]. apply sm_bind_Ok in Hr as ([] & s1 & Hm & Hr).
  injection Hm as <-. injection Hr as <- <-. left. done.
Qed.

Lemma pushElem_inv g u p sc0 w vs tu v tu' s s' :
  cs_g s = g -> cs_u s = u -> rem_fits g (DB u) (rewritten sc0) ->
  push_inv g (DB u) p sc0 vs tu (cs_sc s) -> pushElem perm p w tu v s = (Ok tu', s') ->
  cs_g s' = g /\ cs_u s' = u /\ push_inv g (DB u) p sc0 (vs ++ [v]) tu' (cs_sc s').
Proof.
  intros Hg Hu Hfit Hi Hr. unfold pushElem in Hr. destruct (chunkElem v) as [[id size]|] eqn:Ev; [|discriminate Hr].
  destruct (id =? 0) eqn:E0.
  { injection Hr as <- <-. split; [done|]. split; [done|]. apply push_inv_hole; [|done]. unfold elemField. by rewrite Ev, E0. }
  assert (Hv : elemField v = Some (id, sliceKeyOf id size)) by (unfold elemField; by rewrite Ev, E0).
  set (f := sliceKeyOf id size) in *.
  apply sm_bind_Ok in Hr as (a & s1 & Ha & Hr). apply firstLink_spec in Ha as [(-> & -> & Ht & Hl & _)|(-> & ->)].
  { apply sm_bind_Ok in Hr as (sc & s1 & Hs & Hr). injection Hs as <- <-.
    apply sm_bind_Ok in Hr as (paid & s2 & Hp & Hr). injection Hp as <- <-.
    apply sm_bind_Ok in Hr as ([] & s3 & Hm & Hr). injection Hm as <-. injection Hr as <- <-.
    subst g u. split; [done|]. split; [done|]. by apply push_inv_first. }
  apply sm_bind_Ok in Hr as (sc & s1 & Hs & Hr). injection Hs as <- <-.
  apply sm_bind_Ok in Hr as (paid & s2 & Hp & Hr). destruct paid; [|discriminate Hr].
  apply sm_bind_Ok in Hr as ([] & s3 & Hm & Hr). injection Hm as <-. injection Hr as <- <-. cbn [upd_sc cs_g cs_u cs_sc].
  destruct (0 <? default 0 (inc (cs_sc s) !! f)) eqn:Ei.
  - apply sm_bind_Ok in Hp as ([] & s4 & Hm & Hp). injection Hm as <-. injection Hp as <-. cbn. split; [done|]. split; [done|].
    fold (at0 (inc (cs_sc s)) f) in Ei. to_prop. pose proof (pi_inc _ _ _ _ _ _ _ Hi) as Hin. pose proof (pi_inc0 _ _ _ _ _ _ _ Hi) as Hin0.
    eapply push_inv_paid; try done; cbn; [by apply i64_map_add|by destruct Hi| |by destruct Hi|].
    + intros x. rewrite at0_addi64. destruct (decide (x = f)) as [->|]; [|done]. rewrite i64_pred; [lia|apply Hin|done].
    + intros x. unfold phi. cbn. rewrite at0_addi64. destruct (decide (x = f)) as [->|]; [|lia].
      rewrite i64_pred; [lia|apply Hin|done].
  - apply sm_bind_Ok in Hp as ([] & s4 & Hsr & Hp).
    apply (sideRead_inv g (DB u) p sc0 vs tu) in Hsr as (Hg4 & Hu4 & Hi4 & Hrd & _); [|congruence..].
    apply sm_bind_Ok in Hp as (sc4 & s5 & Hs & Hp). injection Hs as <- <-.
    destruct ((0 <? _) && _) eqn:Er; [|discriminate Hp]. fold (at0 (removed (cs_sc s4)) f) in Er. to_prop.
    apply sm_bind_Ok in Hp as ([] & s6 & Hm & Hp). injection Hm as <-. injection Hp as <-. cbn. split; [done|]. split; [congruence|].
    pose proof (pi_rem _ _ _ _ _ _ _ Hi4 Hrd) as Hrem. pose proof (pi_rem0 _ _ _ _ _ _ _ Hi4 Hrd) as Hrem0.
    eapply push_inv_paid; try done; cbn; [by destruct Hi4|intros _; by apply i64_map_add|by destruct Hi4| |].
    + intros _ x. rewrite at0_addi64. destruct (decide (x = f)) as [->|]; [|apply Hrem0]. rewrite i64_pred; [lia|apply Hrem|done].
    + intros x. unfold phi. cbn. rewrite Hrd, at0_addi64. destruct (decide (x = f)) as [->|]; [|lia].
      rewrite i64_pred; [lia|apply Hrem|done].
Qed.

Lemma args2_Ok c l s s' : args2 c s = (Ok l, s') -> l = drop 2 (Args c) /\ s' = s.
Proof. unfold args2, args_from. destruct (Nat.leb _ _); intros Hx; [by injection Hx as <- <- | discriminate Hx]. Qed.

Lemma pushWrite_inv g u p sc0 w vs tu tu' s s' :
  cs_g s = g -> cs_u s = u -> rem_fits g (DB u) (rewritten sc0) ->
  push_inv g (DB u) p sc0 vs tu (cs_sc s) -> pushWrite perm p u tu w s = (Ok tu', s') ->
  cs_g s' = g /\ cs_u s' = u /\ push_inv g (DB u) p sc0 (vs ++ pushedBy u w) tu' (cs_sc s').
Proof.
  intros Hg Hu Hfit Hi Hr. unfold pushWrite in Hr. unfold pushedBy, pushNames.
  destruct (Shape (KWKey w) =s ShapeChunk); cbn [negb andb] in *; [|injection Hr as <- <-; by rewrite app_nil_r].
  destruct (bool_decide (cname (wcmd u w) ∈ ["RPUSH"; "LPUSH"; "RPUSHX"; "LPUSHX"])).
  - apply sm_bind_Ok in Hr as (l & s1 & Hl & Hr). apply args2_Ok in Hl as [-> ->].
    refine (wp_run _ (fun tu' s' => cs_g s' = g /\ cs_u s' = u /\ push_inv g (DB u) p sc0 (vs ++ drop 2 (Args (wcmd u w))) tu' (cs_sc s'))
      (fun _ _ => True) _ _ _ _ Hr).
    apply (wp_mfold (fun d tu s => cs_g s = g /\ cs_u s = u /\ push_inv g (DB u) p sc0 (vs ++ d) tu (cs_sc s)));
      [by rewrite app_nil_r| |done].
    intros d v t tu1 s1 _ (Hg1 & Hu1 & Hi1). unfold wp. destruct (pushElem perm p w tu1 v s1) as [[tu2|] s2] eqn:E; [|done].
    rewrite app_assoc. by eapply pushElem_inv.
  - destruct (bool_decide (_ ∈ ["LTRIM"; _; _])); [|discriminate Hr]. injection Hr as <- <-. by rewrite app_nil_r.
Qed.

Lemma push_inv_start g db p sc0 :
  i64_map (inc sc0) -> (forall f, 0 <= at0 (inc sc0) f) -> sc_read sc0 = false -> firstUse sc0 = [] ->
  push_inv g db p sc0 [] ∅ sc0.
Proof.
  intros H1 H2 H3 H4. constructor; try done; try congruence.
  - rewrite H4. constructor.
  - rewrite H4. by intros ? ?%elem_of_nil.
  - intros id size _. unfold pushCount, first1. rewrite H4, decide_False by apply not_elem_of_nil. cbn. lia.
Qed.

Lemma validatePushes_inv g u p s s' :
  cs_g s = g -> cs_u s = u -> rem_fits g (DB u) (rewritten (cs_sc s)) ->
  i64_map (inc (cs_sc s)) -> (forall f, 0 <= at0 (inc (cs_sc s)) f) -> sc_read (cs_sc s) = false -> firstUse (cs_sc s) = [] ->
  validatePushes perm p s = (Ok tt, s') ->
  cs_g s' = g /\ cs_u s' = u /\ exists tu, push_inv g (DB u) p (cs_sc s) (pushedElems u (Writes u)) tu (cs_sc s').
Proof.
  intros Hg Hu Hfit Hin Hin0 Hrd Hf Hr. unfold validatePushes in Hr.
  apply sm_bind_Ok in Hr as (sc & s0 & Hs & Hr). injection Hs as <- <-. destruct (badNumber (cs_sc s)); [discriminate Hr|].
  apply sm_bind_Ok in Hr as (u0 & s0 & Hu0 & Hr). injection Hu0 as <- <-. apply sm_bind_Ok in Hr as (tu & s1 & Hm & Hr).
  injection Hr as <-. rewrite Hu in Hm.
  enough (cs_g s1 = g /\ cs_u s1 = u /\ push_inv g (DB u) p (cs_sc s) (pushedElems u (Writes u)) tu (cs_sc s1)) by naive_solver.
  refine (wp_run _ (fun tu s1 => cs_g s1 = g /\ cs_u s1 = u /\ push_inv g (DB u) p (cs_sc s) (pushedElems u (Writes u)) tu (cs_sc s1))
    (fun _ _ => True) _ _ _ _ Hm).
  apply (wp_mfold (fun d tu s1 => cs_g s1 = g /\ cs_u s1 = u /\ push_inv g (DB u) p (cs_sc s) (pushedElems u d) tu (cs_sc s1)));
    [split; [done|]; split; [done|]; by apply push_inv_start| |done].
  intros d w t tu1 s2 _ (Hg1 & Hu1 & Hi1). unfold wp. destruct (pushWrite perm p u tu1 w s2) as [[tu2|] s3] eqn:E; [|done].
  rewrite pushedElems_app. unfold pushedElems at 2. cbn. rewrite app_nil_r. by eapply pushWrite_inv.
Qed.

(** ** Increments and decrements of a unit *)
Definition incOf (u : Unit) (f : string) (w : KeyWrite) : Z :=
  let c := wcmd u w in
  if (Shape (KWKey w) =s "sliceRef") && (cname c =s "HINCRBY") then
    match Args c with
    | [_; _; fld; ns] =>
        match RedisInt ns, sliceFieldOf fld with
        | Some n, Some _ => if (0 <? n) && (fld =s f) then n else 0
        | _, _ => 0
        end
    | _ => 0
    end
  else 0.

Fixpoint sumOf (h : KeyWrite -> Z) (ws : list KeyWrite) : Z :=
  match ws with [] => 0 | w :: ws' => h w + sumOf h ws' end.

Lemma sumOf_app h a b : sumOf h (a ++ b) = sumOf h a + sumOf h b.
Proof. induction a as [|w a IH]; cbn; [done|]. rewrite IH. lia. Qed.

Lemma sumOf_nonneg h ws : (forall w, 0 <= h w) -> 0 <= sumOf h ws.
Proof. intros Hh. induction ws as [|w ws IH]; cbn; [lia|]. specialize (Hh w). lia. Qed.

Lemma incOf_nonneg u f w : 0 <= incOf u f w.
Proof.
  unfold incOf. repeat case_match; to_prop; lia.
Qed.

Lemma sliceFieldOf_raw raw x : sliceFieldOf raw = Some x -> sf_raw x = raw.
Proof. unfold sliceFieldOf. repeat case_match; intros; by simplify_eq. Qed.

(** What the scope of a unit starts with. *)
Record fresh_scope sc : Prop := {
  fs_read : sc_read sc = false;
  fs_first : firstUse sc = [];
  fs_dec : dec sc = ∅;
  fs_i64 : i64_map (inc sc);
}.

Lemma fresh_set_bad sc d : fresh_scope sc -> fresh_scope (sc_set_bad sc d).
Proof. by intros []. Qed.
Lemma fresh_touch sc n : fresh_scope sc -> fresh_scope (sc_touch sc n).
Proof. by intros []. Qed.
Lemma fresh_rewritten sc x : fresh_scope sc -> fresh_scope (sc_set_rewritten sc x).
Proof. by intros []. Qed.

(** The increment part of one write. *)
Lemma scopeInc_spec u w sc sc1 s s1 :
  let c := wcmd u w in
  (if (Shape (KWKey w) =s "sliceRef") && (cname c =s "HINCRBY") && Nat.eqb (length (Args c)) 4 then
     match RedisInt (default "" (Args c !! 3%nat)) with
     | None => mret (sc_set_bad sc (deny ReasonUnknownKey))
     | Some n =>
         if 0 <? n then
           fs ← sliceRefFields c;
           mret (match fs with
                 | Some fs => foldl (fun sc f => sc_set_inc sc (addi64 (inc sc) (sf_raw f) n)) sc fs
                 | None => sc
                 end)
         else mret sc
     end
   else mret sc) s = (Ok sc1, s1) ->
  fresh_scope sc ->
  s1 = s /\ fresh_scope sc1 /\ rewritten sc1 = rewritten sc /\
  forall f, at0 (inc sc1) f = if decide (incOf u f w = 0) then at0 (inc sc) f else i64 (at0 (inc sc) f + incOf u f w).
Proof.
  intros c Hr Hfs. unfold incOf. fold c.
  assert (Hsame : forall f, at0 (inc sc) f = if decide (0 = 0) then at0 (inc sc) f else i64 (at0 (inc sc) f + 0)).
  { intros f. by rewrite decide_True. }
  destruct ((Shape (KWKey w) =s "sliceRef") && (cname c =s "HINCRBY")) eqn:E; cbn [andb] in Hr; [|injection Hr as <- <-; done].
  destruct (Args c) as [|a0 [|a1 [|fld [|ns [|]]]]] eqn:Ea; cbn [length Nat.eqb] in Hr; try (injection Hr as <- <-; done).
  change (default "" ([a0; a1; fld; ns] !! 3%nat)) with ns in Hr. destruct (RedisInt ns) as [n|] eqn:En; [|injection Hr as <- <-; split_and!; try done; by apply fresh_set_bad].
  destruct (0 <? n) eqn:Epos; [|injection Hr as <- <-; by destruct (sliceFieldOf fld)].
  apply sm_bind_Ok in Hr as (fs & s2 & Hf & Hr). injection Hr as <- <-.
  unfold sliceRefFields in Hf. to_prop. rewrite H2, Ea in Hf. cbn in Hf. injection Hf as <- <-.
  destruct (sliceFieldOf fld) as [x|] eqn:Ex; cbn; [|done]. apply sliceFieldOf_raw in Ex. rewrite Ex.
  split; [done|]. split; [by destruct Hfs; constructor; cbn; try done; apply i64_map_add|]. split; [done|].
  intros f. rewrite at0_addi64. destruct (decide (f = fld)) as [->|Hn].
  - rewrite eqs_refl. rewrite decide_False by lia. done.
  - assert ((fld =s f) = false) as -> by (apply eqs_false; congruence). by rewrite decide_True.
Qed.

(** The chunks a unit trims exactly: WATCHed, first written by LTRIM or DEL,
    and only pushed to afterwards. *)
Definition isChunk (w : KeyWrite) : bool :=
  negb ((Group (KWKey w) =s "gc") || negb (HasIno (KWKey w))) && (Shape (KWKey w) =s ShapeChunk).

Definition trimOf (c : Cmd) : option trimOp :=
  if cname c =s "LTRIM" then
    match Args c with
    | [_; _; a2; a3] => match RedisInt a2, RedisInt a3 with Some st, Some sp => Some (mkTrim false st sp) | _, _ => None end
    | _ => None
    end
  else if (cname c =s "DEL") || (cname c =s "UNLINK") then Some (mkTrim true 0 0) else None.

Definition onlyPush (u : Unit) (w : KeyWrite) : bool := (cname (wcmd u w) =s "RPUSH") || (cname (wcmd u w) =s "LPUSH").

Definition chunkWrites (ws : list KeyWrite) (key : string) : list KeyWrite :=
  List.filter (fun w => isChunk w && (KWRaw w =s key)) ws.

Definition firstTrim (u : Unit) (ws : list KeyWrite) (key : string) : option trimOp :=
  match chunkWrites ws key with
  | [] => None
  | w :: rest => if bool_decide (key ∈ Watched u) && forallb (onlyPush u) rest then trimOf (wcmd u w) else None
  end.

Lemma chunkWrites_app a b key : chunkWrites (a ++ b) key = chunkWrites a key ++ chunkWrites b key.
Proof. apply List.filter_app. Qed.

Lemma chunkWrites_other ws w key : isChunk w && (KWRaw w =s key) = false -> chunkWrites (ws ++ [w]) key = chunkWrites ws key.
Proof. intros Hw. rewrite chunkWrites_app. unfold chunkWrites at 2. cbn. by rewrite Hw, app_nil_r. Qed.

Lemma chunkWrites_this ws w : isChunk w = true -> chunkWrites (ws ++ [w]) (KWRaw w) = chunkWrites ws (KWRaw w) ++ [w].
Proof. intros Hw. rewrite chunkWrites_app. unfold chunkWrites at 2. cbn. by rewrite Hw, eqs_refl. Qed.

(** The scope's [rewritten] and first-write set follow [firstTrim]. *)
Definition rewritten_by (u : Unit) (ws : list KeyWrite) sc (fw : gset string) : Prop :=
  forall key, rewritten sc !! key = firstTrim u ws key /\ (key ∈ fw <-> chunkWrites ws key <> []).

Lemma rewritten_by_skip u ws sc sc' fw w :
  isChunk w = false -> rewritten sc' = rewritten sc -> rewritten_by u ws sc fw -> rewritten_by u (ws ++ [w]) sc' fw.
Proof.
  intros Hw Hr Hb key. destruct (Hb key) as [H1 H2]. unfold firstTrim in *.
  rewrite chunkWrites_other by (by rewrite Hw). by rewrite Hr.
Qed.

Lemma rewritten_by_write u ws sc sc' fw w :
  isChunk w = true -> rewritten_by u ws sc fw ->
  (forall key, key <> KWRaw w -> rewritten sc' !! key = rewritten sc !! key) ->
  rewritten sc' !! KWRaw w = firstTrim u (ws ++ [w]) (KWRaw w) ->
  rewritten_by u (ws ++ [w]) sc' ({[KWRaw w]} ∪ fw).
Proof.
  intros Hw Hb Hne Heq key. destruct (Hb key) as [H1 H2]. destruct (decide (key = KWRaw w)) as [->|Hn].
  - split; [done|]. rewrite chunkWrites_this by done. split; [|set_solver]. intros _ E. by apply app_eq_nil in E as [_ [=]].
  - rewrite Hne by done. assert (isChunk w && (KWRaw w =s key) = false) as Ho.
    { apply andb_false_iff. right. apply eqs_false. congruence. }
    unfold firstTrim in *. rewrite chunkWrites_other by done. split; [done|]. rewrite <- H2. set_solver.
Qed.

Lemma firstTrim_snoc_first u ws w :
  isChunk w = true -> chunkWrites ws (KWRaw w) = [] ->
  firstTrim u (ws ++ [w]) (KWRaw w) = if bool_decide (KWRaw w ∈ Watched u) then trimOf (wcmd u w) else None.
Proof. intros Hw He. unfold firstTrim. rewrite chunkWrites_this, He by done. cbn. by rewrite andb_true_r. Qed.

Lemma firstTrim_snoc_more u ws w :
  isChunk w = true -> chunkWrites ws (KWRaw w) <> [] ->
  firstTrim u (ws ++ [w]) (KWRaw w) = if onlyPush u w then firstTrim u ws (KWRaw w) else None.
Proof.
  intros Hw He. unfold firstTrim. rewrite chunkWrites_this by done. destruct (chunkWrites ws (KWRaw w)) as [|w0 rest]; [done|].
  cbn. rewrite forallb_app. cbn. rewrite andb_true_r, andb_assoc. destruct (onlyPush u w).
  - by rewrite andb_true_r.
  - by rewrite andb_false_r.
Qed.

Definition newTrim (u : Unit) (w : KeyWrite) (fw : gset string) sc : sliceScope :=
  let raw := KWRaw w in
  if decide (raw ∈ fw) then
    if bool_decide (is_Some (rewritten sc !! raw)) && negb (onlyPush u w) then sc_set_rewritten sc (delete raw (rewritten sc)) else sc
  else match trimOf (wcmd u w) with
       | Some op => if bool_decide (raw ∈ Watched u) then sc_set_rewritten sc (<[raw := op]> (rewritten sc)) else sc
       | None => sc
       end.

Lemma newTrim_by u ws w fw sc sc' :
  isChunk w = true -> rewritten_by u ws sc fw -> rewritten sc' = rewritten (newTrim u w fw sc) ->
  rewritten_by u (ws ++ [w]) sc' ({[KWRaw w]} ∪ fw).
Proof.
  intros Hw Hb Hr. destruct (Hb (KWRaw w)) as [H1 H2]. apply (rewritten_by_write u ws sc); [done..| |].
  - intros key Hn. rewrite Hr. unfold newTrim. repeat case_match; cbn; rewrite ?lookup_delete_ne, ?lookup_insert_ne by congruence; done.
  - rewrite Hr. unfold newTrim. case_decide as Hfw.
    + rewrite firstTrim_snoc_more by (try done; by apply H2). destruct (onlyPush u w); cbn; [by rewrite andb_false_r|].
      rewrite andb_true_r. case_bool_decide as Hs; cbn; [by rewrite lookup_delete_eq|].
      destruct (rewritten sc !! KWRaw w) eqn:E; [|done]. by destruct Hs.
    + assert (He : chunkWrites ws (KWRaw w) = []) by (destruct (chunkWrites ws (KWRaw w)); [done|]; by destruct Hfw; apply H2).
      rewrite firstTrim_snoc_first by done. assert (Hz : rewritten sc !! KWRaw w = None) by (rewrite H1; unfold firstTrim; by rewrite He).
      destruct (trimOf (wcmd u w)), (bool_decide (KWRaw w ∈ Watched u)); cbn; rewrite ?lookup_insert_eq; done.
Qed.

Lemma scopeWrite_spec u ws sc fw w sc' fw' s s' :
  scopeWrite u (sc, fw) w s = (Ok (sc', fw'), s') -> fresh_scope sc -> rewritten_by u ws sc fw ->
  s' = s /\ fresh_scope sc' /\ rewritten_by u (ws ++ [w]) sc' fw' /\
  forall f, at0 (inc sc') f = if decide (incOf u f w = 0) then at0 (inc sc) f else i64 (at0 (inc sc) f + incOf u f w).
Proof.
  intros Hr Hfs Hrw. unfold scopeWrite in Hr. cbv zeta in Hr. apply sm_bind_Ok in Hr as (sc1 & s1 & H1 & Hr).
  apply scopeInc_spec in H1 as (-> & Hfs1 & Hrw1 & Hinc); [|done].
  assert (Hb : rewritten_by u ws sc1 fw) by (intros key; rewrite Hrw1; apply Hrw).
  destruct ((Group (KWKey w) =s "gc") || negb (HasIno (KWKey w))) eqn:Egc.
  { injection Hr as <- <- <-. split_and!; try done. eapply rewritten_by_skip; [|done..]. unfold isChunk. by rewrite Egc. }
  destruct (Shape (KWKey w) =s ShapeChunk) eqn:Esh; cbn [negb] in Hr.
  2: { injection Hr as <- <- <-. split_and!; try done; [by apply fresh_touch|].
       eapply rewritten_by_skip; [|exact eq_refl|exact Hb]. unfold isChunk. by rewrite Egc, Esh. }
  assert (Hc : isChunk w = true) by (unfold isChunk; by rewrite Egc, Esh).
  set (sc2 := sc_touch sc1 (Ino (KWKey w))) in *.
  assert (Hfs2 : fresh_scope sc2) by (by apply fresh_touch). assert (Hb2 : rewritten_by u ws sc2 fw) by exact Hb.
  unfold mret, SM_ret in Hr. injection Hr as Hr <-.
  assert (Hres : fresh_scope sc' /\ inc sc' = inc sc1 /\ rewritten sc' = rewritten (newTrim u w fw sc2) /\ fw' = {[KWRaw w]} ∪ fw).
  2: { destruct Hres as (? & Hi & Ht & ->). split_and!; try done; [by eapply newTrim_by|]. intros f. rewrite Hi. apply Hinc. }
  unfold newTrim, trimOf, onlyPush. rewrite negb_orb, andb_assoc. change (rewritten sc2) with (rewritten sc1) in Hr |- *.
  repeat match type of Hr with
    | context [match ?x with _ => _ end] => lazymatch x with context [match _ with _ => _ end] => fail | _ => destruct x eqn:? end
    end; injection Hr as <- <-; split_and!; try done; try (by apply fresh_rewritten); try (by apply fresh_set_bad).
  all: repeat match goal with E : negb _ = _ |- _ => apply negb_true_iff in E || apply negb_false_iff in E; rewrite E end; done || by case_match.
Qed.

(** The sums of a unit fit in an int64. *)
Definition incs (u : Unit) (f : string) : Z := sumOf (incOf u f) (Writes u).

Definition trims (u : Unit) (rw : gmap string trimOp) : Prop := forall key, rw !! key = firstTrim u (Writes u) key.

Lemma newSliceScope_spec u sc s s' :
  newSliceScope u s = (Ok sc, s') -> (forall f, incs u f < 2^63) ->
  s' = s /\ fresh_scope sc /\ trims u (rewritten sc) /\ forall f, at0 (inc sc) f = incs u f.
Proof.
  intros Hr Hfit. unfold newSliceScope in Hr. apply sm_bind_Ok in Hr as ([sc1 fw] & s1 & Hm & Hr). injection Hr as <- <-.
  enough (s1 = s /\ fresh_scope sc1 /\ rewritten_by u (Writes u) sc1 fw /\ forall f, at0 (inc sc1) f = incs u f) as (? & ? & Hb & ?).
  { split_and!; try done. intros key. apply Hb. }
  refine (wp_run _ (fun '(sc, fw) s' => s' = s /\ fresh_scope sc /\ rewritten_by u (Writes u) sc fw /\ forall f, at0 (inc sc) f = incs u f)
    (fun _ _ => True) _ _ _ _ Hm).
  apply (wp_mfold (fun d '(sc, fw) s' => s' = s /\ fresh_scope sc /\ rewritten_by u d sc fw /\ forall f, at0 (inc sc) f = sumOf (incOf u f) d)).
  - split; [done|]. split; [constructor; try done; apply i64_map_empty|]. split; [|done]. intros key. split; [done|]. set_solver.
  - intros d w t [sc2 fw2] s2 Hl (-> & Hfs & Hb & Hi). unfold wp.
    destruct (scopeWrite u (sc2, fw2) w s) as [[[sc3 fw3]|] s3] eqn:E; [|done].
    eapply scopeWrite_spec in E as (-> & Hfs3 & Hb3 & Hi3); [|done..]. split_and!; try done. intros f.
    rewrite Hi3, Hi, sumOf_app. cbn. destruct (decide (incOf u f w = 0)) as [->|]; [lia|].
    rewrite i64_id; [lia|]. specialize (Hfit f). unfold incs in Hfit. rewrite Hl, sumOf_app in Hfit. cbn in Hfit.
    pose proof (sumOf_nonneg (incOf u f) d (incOf_nonneg u f)). pose proof (sumOf_nonneg (incOf u f) t (incOf_nonneg u f)).
    pose proof (incOf_nonneg u f w). unfold is_i64. lia.
  - by intros [sc2 fw2] s2.
Qed.

Definition recKey (r : string) : string := sliceKeyOf (be64u (sub r 0 8)) (be32u (sub r 8 12)).

Definition recCount (f v : string) : Z :=
  Z.of_nat (length (filter (fun r => recKey r = f) (records12 (String.length v) v))).

(** The references of [f] one cleanup record asks to drop, now (HINCRBY) or
    later (delSlices). *)
Definition decOf (u : Unit) (f : string) (w : KeyWrite) : Z :=
  let c := wcmd u w in
  if Group (KWKey w) =s "gc" then
    if (Shape (KWKey w) =s "sliceRef") && (cname c =s "HINCRBY") then
      match Args c with
      | [_; _; fld; ns] => match RedisInt ns with Some n => if (n <? 0) && (fld =s f) then - n else 0 | None => 0 end
      | _ => 0
      end
    else if (Shape (KWKey w) =s "delSlices") && (cname c =s "HSET") then
      match Args c with [_; _; _; v] => recCount f v | _ => 0 end
    else 0
  else 0.

Definition decs (u : Unit) (f : string) : Z := sumOf (decOf u f) (Writes u).

Lemma decOf_nonneg u f w : 0 <= decOf u f w.
Proof. unfold decOf, recCount. repeat case_match; to_prop; lia. Qed.

(** State of the cleanup loop: the potential of the scope is fixed and [D]
    counts the decrements requested so far. *)
Record anchor_inv (g : Guard S T) (db : Z) (cmds : list Cmd) (p : Principal) sc0 vs tu sc1 (D : string -> Z) s : Prop := {
  ai_g : cs_g s = g;
  ai_db : DB (cs_u s) = db;
  ai_cmds : Cmds (cs_u s) = cmds;
  ai_push : push_inv g db p sc0 vs tu (cs_sc s);
  ai_phi : forall f, phi g db (cs_sc s) f = phi g db sc1 f;
  ai_first : firstUse (cs_sc s) = firstUse sc1;
  ai_dec : forall f, at0 (dec (cs_sc s)) f = D f;
}.

Section anchor.
Context (g : Guard S T) (db : Z) (cmds : list Cmd) (p : Principal) (sc0 : sliceScope) (vs : list string) (tu : gset Z) (sc1 : sliceScope).
Context (Hrem : rem_fits g db (rewritten sc0)).
Abbreviation AI := (anchor_inv g db cmds p sc0 vs tu sc1).

Lemma AI_ext D D' s : AI D s -> (forall f, D f = D' f) -> AI D' s.
Proof. intros [] HD. constructor; try done. intros f. by rewrite <- HD. Qed.

Lemma AI_unit D s h : AI D s -> (forall u, DB (h u) = DB u /\ Cmds (h u) = Cmds u) -> AI D (upd_u h s).
Proof. intros [] Hh. destruct (Hh (cs_u s)) as [H1 H2]. constructor; cbn; congruence. Qed.

Lemma AI_sideRead D s s' : AI D s -> sideRead perm s = (Ok tt, s') -> AI D s' /\ sc_read (cs_sc s') = true.
Proof.
  intros [] Hr. apply (sideRead_inv g db p sc0 vs tu) in Hr as (? & Hu & ? & ? & Hd & Hf & Hp); [|done..].
  split; [|done]. constructor; try congruence; done.
Qed.

Lemma AI_resolve D f x s s' : AI D s -> resolve perm f s = (Ok x, s') -> AI D s'.
Proof.
  intros HA Hr. unfold resolve in Hr. apply sm_bind_Ok in Hr as (sc & s1 & Hs & Hr). injection Hs as <- <-.
  destruct (pushed (cs_sc s) !! f); [by injection Hr as <- <-|].
  apply sm_bind_Ok in Hr as ([] & s1 & Hsr & Hr). apply (AI_sideRead D) in Hsr as [HA1 _]; [|done].
  apply sm_bind_Ok in Hr as (sc & s2 & Hs & Hr). injection Hs as <- <-.
  destruct (removedIn (cs_sc s1) !! f); [by injection Hr as <- <-|discriminate Hr].
Qed.

Definition add_at (D : string -> Z) (k : string) (n : Z) (f : string) : Z := if decide (f = k) then D k + n else D f.

Lemma AI_dec D k n s : AI D s -> is_i64 (D k + n) -> AI (add_at D k n) (upd_sc (fun sc => sc_set_dec sc (addi64 (dec sc) k n)) s).
Proof.
  intros [] Hf. constructor; cbn; try done.
  - by destruct ai_push0; constructor.
  - intros f. rewrite at0_addi64, ai_dec0. unfold add_at. destruct (decide (f = k)); [by rewrite i64_id|done].
Qed.

Lemma AI_fold_dec l : forall D s, AI D s ->
  (forall f, 0 <= D f) -> (forall f, D f + Z.of_nat (length (filter (fun k => k = f) l)) < 2^63) ->
  AI (fun f => D f + Z.of_nat (length (filter (fun k => k = f) l)))
     (upd_sc (fun sc => foldl (fun sc k => sc_set_dec sc (addi64 (dec sc) k 1)) sc l) s).
Proof.
  induction l as [|k l IH]; intros D s HA Hpos Hfit.
  - eapply AI_ext; [by destruct s|]. intros f. cbn. lia.
  - assert (Hk : is_i64 (D k + 1)).
    { specialize (Hfit k). rewrite filter_cons_True in Hfit by done. cbn in Hfit. specialize (Hpos k). unfold is_i64. lia. }
    eapply AI_ext; [eapply (IH _ (upd_sc (fun sc => sc_set_dec sc (addi64 (dec sc) k 1)) s)); [by apply AI_dec| |]|].
    + intros f. unfold add_at. specialize (Hpos f). destruct (decide _); subst; lia.
    + intros f. specialize (Hfit f). rewrite filter_cons in Hfit. unfold add_at.
      destruct (decide (f = k)), (decide (k = f)); try congruence; subst; cbn in *; lia.
    + intros f. rewrite filter_cons. unfold add_at. destruct (decide (f = k)), (decide (k = f)); try congruence; subst; cbn; lia.
Qed.

Lemma AI_anchorField D c f acc acc' s s' :
  AI D s -> (forall n, cname c = "HINCRBY" -> RedisInt (default "" (Args c !! 3%nat)) = Some n -> n < 0 -> is_i64 (D (sf_raw f) - n)) ->
  anchorField perm c acc f s = (Ok acc', s') ->
  AI (fun x => D x + if (cname c =s "HINCRBY") && (sf_raw f =s x) then
    match RedisInt (default "" (Args c !! 3%nat)) with Some n => if n <? 0 then - n else 0 | None => 0 end else 0) s'.
Proof.
  intros HA Hfit Hr. destruct acc as [refs eff]. unfold anchorField in Hr.
  destruct ((cname c =s "HSET") && Nat.eqb (length (Args c)) 4 && (default "" (Args c !! 3%nat) =s "0")) eqn:Eh.
  { apply sm_bind_Ok in Hr as (sc & s1 & Hs & Hr). injection Hs as <- <-.
    destruct (pushed (cs_sc s) !! sf_raw f); [|discriminate Hr]. injection Hr as <- <-. to_prop.
    eapply AI_ext; [done|]. intros x. replace (cname c =s "HINCRBY") with false; [cbn; lia|]. symmetry. apply eqs_false. congruence. }
  destruct (cname c =s "HINCRBY") eqn:En; [|discriminate Hr]. to_prop.
  destruct (RedisInt _) as [n|]; [|discriminate Hr].
  destruct ((n =? 0) || (n =? min_i64)); [discriminate Hr|]. destruct (n <? 0) eqn:Hn.
  - apply sm_bind_Ok in Hr as ([] & s1 & Hs & Hr). injection Hs as <-. injection Hr as <- <-. to_prop.
    eapply AI_ext; [apply AI_dec; [done|]|].
    + replace (D (sf_raw f) + - n) with (D (sf_raw f) - n) by lia. by apply Hfit.
    + intros x. cbn. unfold add_at. destruct (decide (x = sf_raw f)) as [->|Hx]; [by rewrite eqs_refl|].
      assert ((sf_raw f =s x) = false) as -> by (apply eqs_false; congruence). lia.
  - apply sm_bind_Ok in Hr as (ino & s1 & Hs & Hr). injection Hr as <- <-. apply (AI_resolve D) in Hs; [|done].
    eapply AI_ext; [done|]. intros x. cbn. case_match; lia.
Qed.

Lemma sliceRefFields_pure c s x s' : sliceRefFields c s = (Ok x, s') -> s' = s.
Proof. intros E. exact (keeps_run id _ _ _ _ (keeps_sliceRefFields id c) E). Qed.

Lemma sliceRefFields_incr c s fs s' :
  cname c = "HINCRBY" -> sliceRefFields c s = (Ok (Some fs), s') ->
  exists a0 a1 fld ns x, Args c = [a0; a1; fld; ns] /\ fs = [x] /\ sf_raw x = fld.
Proof.
  intros Hn E. unfold sliceRefFields in E. rewrite Hn in E. cbn in E. injection E as E _.
  destruct (Args c) as [|a0 [|a1 [|fld [|ns [|? ?]]]]]; try discriminate E. cbn in E.
  destruct (sliceFieldOf fld) as [x|] eqn:Ex; [|discriminate E]. injection E as <-.
  apply sliceFieldOf_raw in Ex. by exists a0, a1, fld, ns, x.
Qed.

Lemma AI_anchorFields D c fs acc acc' s s' :
  AI D s -> cname c <> "HINCRBY" -> mfold (anchorField perm c) acc fs s = (Ok acc', s') -> AI D s'.
Proof.
  intros HA Hn. revert acc s HA. induction fs as [|f fs IH]; intros acc s HA Hr; [by injection Hr as <- <-|].
  apply sm_bind_Ok in Hr as (acc1 & s1 & Hf & Hr). eapply IH; [|exact Hr].
  apply (AI_anchorField D) in Hf; [|done|intros; congruence]. eapply AI_ext; [done|]. intros x. cbn.
  apply eqs_false in Hn. rewrite Hn. cbn. lia.
Qed.

Lemma recCount_map f v : Z.of_nat (length (filter (fun k => k = f) (map recKey (records12 (String.length v) v)))) = recCount f v.
Proof.
  unfold recCount. f_equal. induction (records12 _ _) as [|r l IH]; [done|]. rewrite map_cons, !filter_cons.
  destruct (decide (recKey r = f)); cbn; by rewrite IH.
Qed.

Lemma AI_sliceRef D u w fs acc acc' s s1 s' :
  Cmds u = cmds -> AI D s -> (forall f, 0 <= D f) -> (forall f, D f + decOf u f w < 2^63) ->
  Group (KWKey w) = "gc" -> Shape (KWKey w) = "sliceRef" ->
  sliceRefFields (wcmd u w) s = (Ok (Some fs), s1) -> mfold (anchorField perm (wcmd u w)) acc fs s1 = (Ok acc', s') ->
  AI (fun f => D f + decOf u f w) s'.
Proof.
  intros Hc HA Hpos Hfit Hg Hs Hf Hr. pose proof (sliceRefFields_pure _ _ _ _ Hf) as ->.
  destruct (decide (cname (wcmd u w) = "HINCRBY")) as [Hn|Hn].
  2: { apply (AI_anchorFields D) in Hr; [|done..]. eapply AI_ext; [done|]. intros f. unfold decOf. rewrite Hg, Hs.
       apply eqs_false in Hn. rewrite Hn. cbn. lia. }
  destruct (sliceRefFields_incr _ _ _ _ Hn Hf) as (a0 & a1 & fld & ns & x & Ea & -> & Hx).
  assert (Hd : forall f, decOf u f w = match RedisInt ns with Some n => if (n <? 0) && (fld =s f) then - n else 0 | None => 0 end).
  { intros f. unfold decOf. by rewrite Hg, Hs, Hn, Ea. }
  apply sm_bind_Ok in Hr as (acc1 & s2 & Hr & Hret). injection Hret as <- <-.
  apply (AI_anchorField D) in Hr; [|done|].
  - eapply AI_ext; [done|]. intros f. rewrite Hd, Hn, Ea, Hx. cbn. destruct (RedisInt ns) as [n|]; cbn; [|by destruct (fld =s f)].
    by destruct (n <? 0), (fld =s f).
  - intros n _. rewrite Ea, Hx. cbn. intros En Hlt. specialize (Hfit fld). rewrite Hd, En, eqs_refl in Hfit.
    specialize (Hpos fld). apply Z.ltb_lt in Hlt. rewrite Hlt in Hfit. cbn in Hfit. to_prop. unfold is_i64. lia.
Qed.
Lemma AI_delSlices D u w v a0 a1 a2 s :
  AI D s -> (forall f, 0 <= D f) -> (forall f, D f + decOf u f w < 2^63) ->
  Group (KWKey w) = "gc" -> Shape (KWKey w) = "delSlices" -> cname (wcmd u w) = "HSET" -> Args (wcmd u w) = [a0; a1; a2; v] ->
  AI (fun f => D f + decOf u f w) (upd_sc (fun sc => foldl (fun sc r => sc_set_dec sc
    (addi64 (dec sc) (sliceKeyOf (be64u (sub r 0 8)) (be32u (sub r 8 12))) 1)) sc (records12 (String.length v) v)) s).
Proof.
  intros HA Hpos Hfit Hg Hs Hn Ea.
  assert (Hd : forall f, decOf u f w = recCount f v) by (intros f; unfold decOf; by rewrite Hg, Hs, Hn, Ea).
  assert (Hfold : forall sc, foldl (fun sc r => sc_set_dec sc (addi64 (dec sc) (sliceKeyOf (be64u (sub r 0 8)) (be32u (sub r 8 12))) 1))
      sc (records12 (String.length v) v)
    = foldl (fun sc k => sc_set_dec sc (addi64 (dec sc) k 1)) sc (map recKey (records12 (String.length v) v))).
  { intros sc. revert sc. induction (records12 _ _) as [|r l IH]; intros sc; [done|]. cbn. apply IH. }
  unfold upd_sc. rewrite Hfold. eapply AI_ext; [apply (AI_fold_dec (map recKey (records12 (String.length v) v)) D); [done..|]|].
  - intros f. rewrite recCount_map, <- Hd. apply Hfit.
  - intros f. cbn. by rewrite recCount_map, Hd.
Qed.

Lemma AI_anchorWrite D u i w acc acc' s s' :
  Cmds u = cmds -> AI D s -> (forall f, 0 <= D f) -> (forall f, D f + decOf u f w < 2^63) ->
  anchorWrite perm acc (i, w) s = (Ok acc', s') -> AI (fun f => D f + decOf u f w) s'.
Proof.
  intros Hc HA Hpos Hfit Hr. destruct acc as [refs eff]. unfold anchorWrite in Hr.
  destruct (Group (KWKey w) =s "gc") eqn:Eg; cbn [negb] in Hr.
  2: { injection Hr as <- <-. eapply AI_ext; [done|]. intros f. unfold decOf. rewrite Eg. lia. }
  apply eqs_true in Eg. apply sm_bind_Ok in Hr as (u1 & s1 & Hs & Hr). injection Hs as <- <-.
  assert (Hw : wcmd (cs_u s) w = wcmd u w) by (unfold wcmd, cmd_at; destruct HA; by rewrite ai_cmds0, Hc). rewrite Hw in Hr.
  apply sm_bind_Ok in Hr as (acc1 & s1 & Hr & Hm). apply sm_bind_Ok in Hm as ([] & s2 & Hm & Hret).
  injection Hm as <-. injection Hret as <- <-. apply AI_unit; [|done].
  destruct ((Shape (KWKey w) =s "delfiles") || (Shape (KWKey w) =s "detachedNodes")) eqn:E1.
  { apply sm_bind_Ok in Hr as (ms & s2 & Hcm & Hr). pose proof (keeps_run id _ _ _ _ (keeps_cleanupMembers id _) Hcm) as E; cbn in E; subst s2.
    assert (Hsame : s1 = s).
    { destruct ms as [[|m ms]|]; try discriminate Hr. apply sm_bind_Ok in Hr as (sc & s2 & Hs & Hr). injection Hs as <- <-.
      case_bool_decide; [|discriminate Hr]. by injection Hr as _ <-. }
    subst s1. eapply AI_ext; [done|]. intros f. unfold decOf. rewrite Eg.
    apply orb_true_iff in E1 as [E1%eqs_true|E1%eqs_true]; rewrite E1; cbn; lia. }
  destruct (Shape (KWKey w) =s "sliceRef") eqn:E2; [apply eqs_true in E2|].
  { apply sm_bind_Ok in Hr as (fs & s2 & Hf & Hr). destruct fs as [[|f fs]|]; try discriminate Hr.
    by eapply (AI_sliceRef D u w (f :: fs)). }
  destruct (Shape (KWKey w) =s "delSlices") eqn:E3; [apply eqs_true in E3|discriminate Hr].
  destruct (Args (wcmd u w)) as [|a0 [|a1 [|a2 [|v [|]]]]] eqn:Ea; try discriminate Hr.
  destruct (cname (wcmd u w) =s "HSET") eqn:En; cbn [negb] in Hr; [apply eqs_true in En|discriminate Hr].
  destruct (delSliceField a2) as [id|]; [|discriminate Hr].
  destruct ((slen v =? 0) || negb (slen v mod 12 =? 0)); [discriminate Hr|]. apply sm_bind_Ok in Hr as (sc & s2 & Hs & Hr). injection Hs as <- <-.
  destruct (pushedID (cs_sc s) !! id); [|discriminate Hr].
  apply sm_bind_Ok in Hr as ([] & s2 & Hs & Hr). injection Hs as <-. injection Hr as <- <-.
  by eapply AI_delSlices.
Qed.
End anchor.
End slices.
