(* ===== verification/GuardLedger.v ===== *)
(** * The slice reference ledger

    The conservation law of an admitted transaction, stated on the commands
    of the unit and on the chunk lists the guard reads: [decs] and the pushed
    copies are paid by [incs], by the copies the unit's exact trims remove
    ([remCount]) and by first links; and the unit that breaks the law once a
    sum of decrements leaves int64. *)

From S2P Require Import Prelude GoLib GoTime Resp Classify ClassifyFacts Policy Stores Guard GuardScope GuardCheck GuardFrames GuardFacts GuardSlices.

(** ** Copies removed from chunk lists *)
Fixpoint removedElems (op : trimOp) (n i : Z) (elems : list string) : list string :=
  match elems with
  | [] => []
  | el :: elems' => (if trim_keeps op n i then [] else [el]) ++ removedElems op n (i + 1) elems'
  end.

Lemma countRemoved_count op key n i elems acc f :
  i64_map (fst acc) -> 0 <= at0 (fst acc) f -> at0 (fst acc) f + pushCount f (removedElems op n i elems) < 2^63 ->
  at0 (fst (countRemoved op key n i elems acc)) f = at0 (fst acc) f + pushCount f (removedElems op n i elems).
Proof.
  revert i acc. induction elems as [|el elems IH]; intros i acc Hm H0 Hfit; cbn [countRemoved removedElems] in *; [unfold pushCount; cbn; lia|].
  rewrite pushCount_app in *. pose proof (pushCount_nonneg f (removedElems op n (i + 1) elems)) as Hn.
  destruct (trim_keeps op n i); [rewrite IH; [|done|done|]; unfold pushCount in *; cbn in *; lia|].
  rewrite pushCount_one in *. unfold elemField in *. destruct (chunkElem el) as [[id size]|].
  2: { cbn in *. rewrite decide_False in * by done. rewrite IH; [lia|done|done|lia]. }
  destruct (id =? 0); [cbn in *; rewrite decide_False in * by done; rewrite IH; [lia|done|done|lia]|].
  cbn [fmap option_fmap option_map snd] in *. set (k := sliceKeyOf id size) in *.
  match goal with |- context [countRemoved _ _ _ _ _ ?a] => set (acc' := a) end.
  assert (Ha : at0 (fst acc') f = at0 (fst acc) f + if decide (Some k = Some f) then 1 else 0).
  { subst acc'. cbn [fst]. rewrite at0_addi64.
    destruct (decide (f = k)) as [->|]; destruct (decide (Some k = Some _)) as [E|E]; try congruence; [|lia].
    apply i64_id. unfold is_i64. lia. }
  rewrite IH; [rewrite Ha; lia|by apply i64_map_add|rewrite Ha; destruct (decide _); lia|rewrite Ha; lia].
Qed.

Section ledger.
Context {S T : Type} `{SessionStore S} `{SliceStore T}.
Context (perm : forall A : Type, list A -> list A) (Hperm : forall A (l : list A), perm A l ≡ₚ l).
Implicit Types (s : CheckState S T) (sc : sliceScope) (g : Guard S T).

(** Copies of [f] that trimming one chunk removes. *)
Definition remIn (read : ChunkReader) (db : Z) (f : string) (ko : string * trimOp) : Z :=
  match read db (fst ko) with
  | Ok elems => pushCount f (removedElems (snd ko) (Z.of_nat (length elems)) 0 elems)
  | Err _ => 0
  end.

Definition sumZ (l : list Z) : Z := foldr Z.add 0 l.

Lemma sumZ_perm l l' : l ≡ₚ l' -> sumZ l = sumZ l'.
Proof. induction 1; unfold sumZ in *; cbn [foldr]; lia. Qed.

(** Copies of [f] the trims [rw] remove from the chunk lists of the volume. *)
Definition remCount g (db : Z) (rw : gmap string trimOp) (f : string) : Z :=
  match chunks g with
  | None => 0
  | Some read => sumZ (remIn read db f <$> map_to_list rw)
  end.

Lemma remIn_nonneg read db f ko : 0 <= remIn read db f ko.
Proof. unfold remIn. destruct (read db (fst ko)); [apply pushCount_nonneg|lia]. Qed.

Lemma sumZ_nonneg l : Forall (Z.le 0) l -> 0 <= sumZ l.
Proof. induction 1; unfold sumZ in *; cbn [foldr]; lia. Qed.

Lemma remCount_nonneg g db rw f : 0 <= remCount g db rw f.
Proof.
  unfold remCount. destruct (chunks g); [|lia]. apply sumZ_nonneg, Forall_fmap, Forall_true. intros ko. apply remIn_nonneg.
Qed.

Lemma fold_countKey read db f l acc r rin :
  i64_map (fst acc) -> 0 <= at0 (fst acc) f -> at0 (fst acc) f + sumZ (remIn read db f <$> l) < 2^63 ->
  foldl (countKey read db) (Some acc) l = Some (r, rin) -> at0 r f = at0 (fst acc) f + sumZ (remIn read db f <$> l).
Proof.
  revert acc. induction l as [|ko l IH]; intros acc Hm Ha Hfit Hf; [injection Hf as ->; cbn; lia|].
  rewrite fmap_cons in *. cbn [sumZ foldr] in *. change (foldr Z.add 0 ?x) with (sumZ x) in *.
  assert (Hn : 0 <= sumZ (remIn read db f <$> l)) by (apply sumZ_nonneg, Forall_fmap, Forall_true; intros; apply remIn_nonneg).
  cbn [foldl] in Hf. unfold countKey at 2 in Hf. cbn in Hf. unfold remIn at 1 in Hfit. unfold remIn at 1.
  destruct (read db (fst ko)) as [elems|]; [|by rewrite foldl_countKey_None in Hf].
  pose proof (pushCount_nonneg f (removedElems (snd ko) (Z.of_nat (length elems)) 0 elems)) as Hp.
  assert (Hc := countRemoved_count (snd ko) (fst ko) (Z.of_nat (length elems)) 0 elems acc f Hm Ha ltac:(lia)).
  apply IH in Hf; [rewrite Hf, Hc; lia|by apply countRemoved_i64|rewrite Hc; lia|rewrite Hc; lia].
Qed.

Lemma rem0_exact g db rw f :
  remCount g db rw f < 2^63 -> rem0 perm g db rw f <= remCount g db rw f /\ 0 <= rem0 perm g db rw f.
Proof.
  unfold rem0, allRemoved. pose proof (remCount_nonneg g db rw f) as Hn. unfold remCount in *.
  destruct (chunks g) as [read|]; [|done]. intros Hfit.
  assert (Hp : sumZ (remIn read db f <$> map_to_list rw) = sumZ (remIn read db f <$> perm _ (map_to_list rw))).
  { apply sumZ_perm. by rewrite Hperm. }
  rewrite Hp in *. destruct (foldl _ _ _) as [[r rin]|] eqn:Ef; [|lia].
  apply (fold_countKey read db f) in Ef; [|apply i64_map_empty|done|exact Hfit].
  rewrite Ef. unfold at0. cbn [fst]. rewrite lookup_empty. cbn. lia.
Qed.

(** ** The cleanup loop *)
Section cleanup.
Context (g : Guard S T) (db : Z) (cmds : list Cmd) (p : Principal) (sc0 : sliceScope) (vs : list string) (tu : gset Z) (sc1 : sliceScope).
Context (Hrem : rem_fits perm g db (rewritten sc0)).
Abbreviation AI := (anchor_inv perm g db cmds p sc0 vs tu sc1).

Lemma payDecrement_inv D f n ino s s' :
  AI D s -> payDecrement perm f n s = (Ok ino, s') -> AI D s' /\ n <= i64 (phi perm g db sc1 f).
Proof.
  intros HA Hr. unfold payDecrement in Hr. apply sm_bind_Ok in Hr as ([] & s1 & Hsr & Hr).
  apply (AI_sideRead perm g db cmds p sc0 vs tu sc1 Hrem D) in Hsr as [HA1 Hrd]; [|done].
  apply sm_bind_Ok in Hr as (sc & s2 & Hs & Hr). injection Hs as <- <-.
  set (avail := i64 (default 0 (removed (cs_sc s1) !! f) + default 0 (inc (cs_sc s1) !! f))) in Hr.
  destruct (avail <? n) eqn:Ea; [discriminate Hr|]. to_prop.
  assert (avail = i64 (phi perm g db sc1 f)) as Hav.
  { rewrite <- (ai_phi _ _ _ _ _ _ _ _ _ _ _ HA1 f). unfold phi. rewrite Hrd. subst avail. f_equal. unfold at0. lia. }
  split; [|lia]. destruct (removedIn (cs_sc s1) !! f); [by injection Hr as <- <-|].
  destruct (pushed (cs_sc s1) !! f); [by injection Hr as <- <-|discriminate Hr].
Qed.

Lemma payAll_inv D l (refs refs' : gset Z) s s' :
  AI D s -> mfold (fun refs '(f, n) => ino ← payDecrement perm f n; mret ({[ino]} ∪ refs)) refs l s = (Ok refs', s') ->
  AI D s' /\ forall f n, (f, n) ∈ l -> n <= i64 (phi perm g db sc1 f).
Proof.
  revert refs s. induction l as [|[f n] l IH]; intros refs s HA Hr; [injection Hr as <- <-; split; [done|]; by intros ? ? ?%elem_of_nil|].
  apply sm_bind_Ok in Hr as (refs1 & s1 & Hb & Hr). apply sm_bind_Ok in Hb as (ino & s2 & Hp & Hret). injection Hret as <- <-.
  apply (payDecrement_inv D) in Hp as [HA1 Hn]; [|done]. apply IH in Hr as [HA2 Hall]; [|done].
  split; [done|]. intros f' n' [[= -> ->]|Hin]%elem_of_cons; [done|by apply Hall].
Qed.

Lemma anchorWrites_inv u l n D acc acc' s s' :
  Cmds u = cmds -> AI D s -> (forall f, 0 <= D f) -> (forall f, D f + sumOf (decOf u f) l < 2^63) ->
  mfold (anchorWrite perm) acc (imap (fun i w => ((n + i)%nat, w)) l) s = (Ok acc', s') ->
  AI (fun f => D f + sumOf (decOf u f) l) s'.
Proof.
  intros Hc. revert n D acc s. induction l as [|w l IH]; intros n D acc s HA Hpos Hfit Hr.
  - injection Hr as <- <-. eapply AI_ext; [done|]. intros f. cbn. lia.
  - cbn [imap] in Hr. apply sm_bind_Ok in Hr as (acc1 & s1 & Hw & Hr).
    assert (Hsum : forall f, 0 <= sumOf (decOf u f) l) by (intros f; apply sumOf_nonneg, decOf_nonneg).
    apply (AI_anchorWrite perm g db cmds p sc0 vs tu sc1 Hrem D u) in Hw; [|done..|].
    2: { intros f. specialize (Hfit f). specialize (Hsum f). cbn in Hfit. lia. }
    eapply AI_ext; [eapply (IH (Datatypes.S n)); [exact Hw| | |]|].
    + intros f. cbn. specialize (Hpos f). pose proof (decOf_nonneg u f w). lia.
    + intros f. specialize (Hfit f). cbn in *. lia.
    + replace (imap (fun i w => ((Datatypes.S n + i)%nat, w)) l) with (imap ((fun i w => ((n + i)%nat, w)) ∘ Datatypes.S) l); [exact Hr|].
      apply imap_ext. intros i x _. cbn. f_equal. lia.
    + intros f. cbn. lia.
Qed.

Lemma anchorCleanup_pays u e s s' :
  AI (fun _ => 0) s -> cs_u s = u -> Cmds u = cmds -> (forall f, decs u f < 2^63) ->
  anchorCleanup perm s = (Ok e, s') ->
  firstUse (cs_sc s') = firstUse sc1 /\ forall f, decs u f <= Z.max 0 (i64 (phi perm g db sc1 f)).
Proof.
  intros HA Hu Hc Hfit Hr. unfold anchorCleanup in Hr.
  apply sm_bind_Ok in Hr as (u1 & s1 & Hs & Hr). injection Hs as <- <-. rewrite Hu in Hr.
  apply sm_bind_Ok in Hr as ([refs eff] & s1 & Hw & Hr).
  apply (anchorWrites_inv u (Writes u) 0 (fun _ => 0)) in Hw; [|done..].
  apply sm_bind_Ok in Hr as (sc & s2 & Hs & Hr). injection Hs as <- <-.
  apply sm_bind_Ok in Hr as (refs' & s2 & Hp & Hr). apply sm_bind_Ok in Hr as ([] & s3 & Hm & Hr).
  injection Hm as <-. injection Hr as <- <-.
  pose proof (ai_dec _ _ _ _ _ _ _ _ _ _ _ Hw) as Hdec.
  eapply payAll_inv in Hp as [HA2 Hall]; [|exact Hw]. split; [cbn; apply HA2|].
  intros f. specialize (Hdec f). cbv beta in Hdec. rewrite Z.add_0_l in Hdec. unfold decs. rewrite <- Hdec. unfold at0.
  destruct (dec (cs_sc s1) !! f) as [n|] eqn:En; cbn; [|lia].
  assert ((f, n) ∈ perm _ (map_to_list (dec (cs_sc s1)))) as Hin by (rewrite Hperm; by apply elem_of_map_to_list).
  specialize (Hall f n Hin). lia.
Qed.
End cleanup.

Lemma map_snd_imap {A} (l : list A) : map snd (imap pair l) = l.
Proof.
  change (snd <$> imap pair l = l). rewrite fmap_imap. rewrite <- (list_fmap_id l) at 2. rewrite <- imap_const. by apply imap_ext.
Qed.

Lemma sumOf_zero h ws : (forall w, w ∈ ws -> h w = 0) -> sumOf h ws = 0.
Proof.
  induction ws as [|w ws IH]; intros Hz; [done|]. cbn. rewrite (Hz w), IH; [done| |by left].
  intros x Hx. apply Hz. by right.
Qed.

Lemma no_gc_no_decs u f : existsb (fun w => Group (KWKey w) =s "gc") (Writes u) = false -> decs u f = 0.
Proof.
  intros He. apply sumOf_zero. intros w Hw. unfold decOf.
  destruct (Group (KWKey w) =s "gc") eqn:Eg; [|done]. exfalso. rewrite <- not_true_iff_false in He. apply He.
  apply existsb_exists. exists w. split; [by apply list_elem_of_In|done].
Qed.

(** A gc-only transaction holds nothing but HDELs of the principal's zero
    references. *)
Lemma ownZeroRefDrop_no_decs p u e s s' f :
  cs_u s = u -> ownZeroRefDrop p s = (Ok e, s') -> decs u f = 0.
Proof.
  intros Hu Hr. unfold ownZeroRefDrop in Hr. apply sm_bind_Ok in Hr as (u1 & s1 & Hs & Hr). injection Hs as <- <-.
  rewrite Hu in Hr.
  refine (wp_run _ (fun _ _ => decs u f = 0) (fun _ _ => True) _ _ _ _ Hr).
  apply (wp_mfold (fun d _ s => core (cs_u s) = core u /\ sumOf (decOf u f) (map snd d) = 0)).
  - by rewrite Hu.
  - intros d [i w] t acc s2 _ [Hc Hd]. unfold wp. destruct (ownZeroWrite p acc (i, w) s2) as [[e2|] s3] eqn:E; [|done].
    assert (core (cs_u s3) = core (cs_u s2)) as Hc3.
    { assert (VFix s3 = VFix s2) as HV by (eapply keeps_run; [|exact E]; unfold ownZeroWrite; keeps_tac).
      exact (f_equal (fun x => snd (fst (fst x))) HV). }
    split; [congruence|]. rewrite map_app, sumOf_app, Hd. cbn. unfold ownZeroWrite in E.
    apply sm_bind_Ok in E as (u2 & s4 & Hs & E). injection Hs as <- <-.
    assert (wcmd (cs_u s2) w = wcmd u w) as Hw by (unfold wcmd, cmd_at; by rewrite (core_Cmds _ _ Hc)). rewrite Hw in E.
    destruct (_ || _ || _) eqn:Eb; [discriminate E|].
    apply orb_false_iff in Eb as [[E1 E2]%orb_false_iff _]. apply negb_false_iff, eqs_true in E1. apply negb_false_iff, eqs_true in E2.
    unfold decOf. rewrite E1, E2. cbn. by case_match.
  - intros acc s2 [_ Hd]. unfold decs. rewrite <- Hd. f_equal. clear. generalize (Writes u). intros l.
    symmetry. apply map_snd_imap.
Qed.

(** ** The slice stage *)
Definition ledger_fits g (u : Unit) : Prop :=
  (forall f, incs u f < 2^63) /\ (forall f, decs u f < 2^63) /\
  (forall rw f, trims u rw -> remCount g (DB u) rw f < 2^63).

(** The conservation law of the slice references of [u]: [first] are the
    slices the unit links for the first time. *)
Definition conserved g (p : Principal) (u : Unit) (first : list Z) : Prop :=
  NoDup first /\ (forall id, id ∈ first -> linkable g p id) /\
  exists rw, trims u rw /\ forall id size, is_u64 id ->
    let f := sliceKeyOf id size in
    decs u f + pushCount f (pushedElems u (Writes u)) <=
    incs u f + remCount g (DB u) rw f + (if decide (id ∈ first) then 1 else 0).

Lemma push_inv_phi_nonneg g db p sc0 vs tu sc f :
  rem_fits perm g db (rewritten sc0) -> push_inv perm g db p sc0 vs tu sc -> 0 <= phi perm g db sc f.
Proof.
  intros Hr Hi. unfold phi. pose proof (pi_inc0 _ _ _ _ _ _ _ _ Hi f). destruct (sc_read sc) eqn:E.
  - pose proof (pi_rem0 _ _ _ _ _ _ _ _ Hi E f). lia.
  - rewrite (pi_rw _ _ _ _ _ _ _ _ Hi). specialize (Hr f). lia.
Qed.

Lemma i64_le x : 0 <= x -> i64 x <= x.
Proof. intros Hx. unfold i64. pose proof (Z.mod_le (x + 2^63) (2^64)). pose proof (Z.mod_small (x + 2^63) (2^64)).
  destruct (decide (x + 2^63 < 2^64)); lia. Qed.

(** Pushes and payable decrements give the law. *)
Lemma conserved_intro g p u sc0 tu sc :
  ledger_fits g u -> trims u (rewritten sc0) -> sc_read sc0 = false -> (forall f, at0 (inc sc0) f = incs u f) ->
  rem_fits perm g (DB u) (rewritten sc0) ->
  push_inv perm g (DB u) p sc0 (pushedElems u (Writes u)) tu sc ->
  (forall f, decs u f <= Z.max 0 (i64 (phi perm g (DB u) sc f))) ->
  conserved g p u (firstUse sc).
Proof.
  intros (_ & _ & Hfit) Ht Hrd Hinc Hrem Hi Hd. split; [apply Hi|]. split; [intros id Hid; by apply Hi|].
  exists (rewritten sc0). split; [done|]. intros id size Hid f. pose proof (pi_phi _ _ _ _ _ _ _ _ Hi id size Hid) as Hphi.
  fold f in Hphi. pose proof (push_inv_phi_nonneg _ _ _ _ _ _ _ f Hrem Hi) as Hn. specialize (Hd f).
  pose proof (i64_le _ Hn). assert (phi perm g (DB u) sc0 f <= incs u f + remCount g (DB u) (rewritten sc0) f) as H0'.
  { unfold phi. rewrite Hrd, Hinc. destruct (rem0_exact g (DB u) (rewritten sc0) f) as [? _]; [by apply Hfit|lia]. }
  unfold first1 in Hphi. lia.
Qed.

(** Only the cleanup loop counts decrements; only pushes link. *)
Definition VDec s : gmap string Z := dec (cs_sc s).
Definition VSc s : sliceScope := cs_sc s.

Lemma keeps_mod_sc_VDec f : (forall sc, dec (f sc) = dec sc) -> keeps VDec (mod_sc (S := S) (T := T) f).
Proof. intros Hf s. apply Hf. Qed.
Lemma keeps_mod_u_VSc f : keeps VSc (mod_u (S := S) (T := T) f).
Proof. done. Qed.

Ltac dec_tac := repeat (keeps_tac; try (apply keeps_mod_sc_VDec; intros sc'; repeat case_match; done)).

Lemma keeps_readFail_VDec : keeps VDec (readFail (S := S) (T := T)).
Proof. unfold readFail. dec_tac. Qed.
#[local] Hint Resolve keeps_readFail_VDec keeps_mod_u_VSc : frame.

Lemma keeps_sideRead_VDec : keeps VDec (sideRead (S := S) (T := T) perm).
Proof. unfold sideRead. dec_tac. Qed.
#[local] Hint Resolve keeps_sideRead_VDec : frame.

Lemma keeps_validatePushes_VDec p : keeps VDec (validatePushes (S := S) (T := T) perm p).
Proof. unfold validatePushes, pushWrite, pushElem, firstLink. dec_tac. Qed.

Lemma keeps_ownZeroRefDrop_VSc p : keeps VSc (ownZeroRefDrop (S := S) (T := T) p).
Proof. unfold ownZeroRefDrop, ownZeroWrite. keeps_tac. Qed.

Lemma sliceStage_conserved p u hp e e' s s' :
  is_admin p = false -> is_bg p = false -> cs_u s = u -> UKind u = UnitTxn -> ledger_fits (cs_g s) u ->
  sliceStage perm p hp e s = (Ok e', s') ->
  exists first, conserved (cs_g s) p u first /\ forall id, id ∈ first -> exists x, x ∈ e' /\ id ∈ effUsed x.
Proof.
  intros Ha Hb Hu Hk Hfit Hr. unfold sliceStage in Hr. apply sm_bind_Ok in Hr as (u1 & s1 & Hs & Hr). injection Hs as <- <-.
  rewrite Ha, Hb, Hu in Hr. cbn [orb] in Hr. apply sm_bind_Ok in Hr as (sc0 & s1 & Hsc & Hr).
  destruct Hfit as (Hinc & Hdec & Hrc). apply newSliceScope_spec in Hsc as (-> & Hfs & Ht & Hi0); [|done].
  apply sm_bind_Ok in Hr as ([] & s2 & Hm & Hr). injection Hm as <-.
  apply sm_bind_Ok in Hr as ([] & s2 & Hv & Hr). pose proof (keeps_run VDec _ _ _ _ (keeps_validatePushes_VDec p) Hv) as HD.
  assert (Hrem : rem_fits perm (cs_g s) (DB u) (rewritten sc0)) by (intros f; apply rem0_exact, Hrc, Ht).
  apply (validatePushes_inv perm (cs_g s) u) in Hv as (Hg2 & Hu2 & tu & Hpi); [|done|done|done|apply Hfs| |apply Hfs..].
  2: { intros f. cbn. rewrite Hi0. apply sumOf_nonneg, incOf_nonneg. }
  cbn [cs_sc upd_sc] in Hpi. apply sm_bind_Ok in Hr as (e2 & s3 & He & Hr).
  apply sm_bind_Ok in Hr as (sc & s4 & Hs & Hr). injection Hs as <- <-. injection Hr as <- <-.
  exists (firstUse (cs_sc s3)). split.
  2: { intros id Hid. exists (effUse (firstUse (cs_sc s3)) false). split; [|done].
       destruct (firstUse (cs_sc s3)) eqn:E; [by apply elem_of_nil in Hid|]. apply elem_of_app. right. by apply list_elem_of_singleton. }
  assert (Hgoal : firstUse (cs_sc s3) = firstUse (cs_sc s2) /\ forall f, decs u f <= Z.max 0 (i64 (phi perm (cs_g s) (DB u) (cs_sc s2) f))).
  2: { destruct Hgoal as [-> Hd]. eapply conserved_intro; try done. apply Hfs. }
  rewrite Hk, bool_decide_true, andb_true_r in He by done.
  destruct (existsb (fun w => Group (KWKey w) =s "gc") (Writes u)) eqn:Egc.
  2: { injection He as <- <-. split; [done|]. intros f. rewrite no_gc_no_decs by done. lia. }
  apply sm_bind_Ok in He as (e3 & s4 & He & Hret). injection Hret as <- <-. destruct hp.
  - eapply (anchorCleanup_pays (cs_g s) (DB u) (Cmds u) p sc0 (pushedElems u (Writes u)) tu (cs_sc s2)); try done.
    constructor; try done; [by rewrite Hu2..|]. intros f. change (dec (cs_sc s2)) with (VDec s2). rewrite HD.
    change (at0 (dec sc0) f = 0). by rewrite (fs_dec _ Hfs).
  - split; [exact (f_equal firstUse (keeps_run VSc _ _ _ _ (keeps_ownZeroRefDrop_VSc p) He))|].
    intros f. rewrite (ownZeroRefDrop_no_decs p u e3 s2 s4); [lia|done..].
Qed.

(** A bound of the sums that does not look at the field. *)
Definition stepMax (u : Unit) (w : KeyWrite) : Z :=
  match Args (wcmd u w) with
  | [_; _; _; v] => Z.abs (default 0 (RedisInt v)) + Z.of_nat (length (records12 (String.length v) v))
  | _ => 0
  end.

Definition chunkMax g (db : Z) (ko : string * trimOp) : Z :=
  match chunks g with
  | Some read => match read db (fst ko) with Ok elems => Z.of_nat (length elems) | Err _ => 0 end
  | None => 0
  end.

Lemma decOf_le u f w : decOf u f w <= stepMax u w.
Proof.
  unfold decOf, stepMax, recCount. repeat case_match; simplify_eq; cbn; try lia.
  pose proof (length_filter (fun r => recKey r = f) (records12 (String.length s2) s2)). lia.
Qed.

Lemma incOf_le u f w : incOf u f w <= stepMax u w.
Proof. unfold incOf, stepMax. repeat case_match; simplify_eq; cbn in *; try lia. Qed.

Lemma sumOf_le h h' ws : (forall w, h w <= h' w) -> sumOf h ws <= sumOf h' ws.
Proof. intros Hh. induction ws as [|w ws IH]; cbn; [lia|]. specialize (Hh w). lia. Qed.

Lemma pushCount_le f l : pushCount f l <= Z.of_nat (length l).
Proof. unfold pushCount. pose proof (length_filter (fun v => (snd <$> elemField v) = Some f) l). lia. Qed.

Lemma length_removedElems op n i l : (length (removedElems op n i l) <= length l)%nat.
Proof. revert i. induction l as [|x l IH]; intros i; cbn; [done|]. rewrite length_app. specialize (IH (i + 1)). destruct (trim_keeps op n i); cbn; lia. Qed.

Lemma remIn_le g read db f ko : chunks g = Some read -> remIn read db f ko <= chunkMax g db ko.
Proof.
  intros Hg. unfold remIn, chunkMax. rewrite Hg. destruct (read db (fst ko)) as [l|]; [|done].
  pose proof (pushCount_le f (removedElems (snd ko) (Z.of_nat (length l)) 0 l)).
  pose proof (length_removedElems (snd ko) (Z.of_nat (length l)) 0 l). lia.
Qed.

Lemma remCount_le g db rw f : remCount g db rw f <= sumZ (chunkMax g db <$> map_to_list rw).
Proof.
  unfold remCount. destruct (chunks g) as [read|] eqn:E.
  - induction (map_to_list rw) as [|ko l IH]; cbn; [lia|]. pose proof (remIn_le g read db f ko E). unfold sumZ in *. lia.
  - apply sumZ_nonneg, Forall_fmap, Forall_true. intros ko. cbn. unfold chunkMax. by rewrite E.
Qed.

Lemma ledger_fits_intro g u rw :
  sumOf (stepMax u) (Writes u) < 2^63 -> trims u rw -> sumZ (chunkMax g (DB u) <$> map_to_list rw) < 2^63 -> ledger_fits g u.
Proof.
  intros H1 H2 H3. split_and!; intros.
  - unfold incs. pose proof (sumOf_le (incOf u f) (stepMax u) (Writes u) (incOf_le u f)). lia.
  - unfold decs. pose proof (sumOf_le (decOf u f) (stepMax u) (Writes u) (decOf_le u f)). lia.
  - assert (rw0 = rw) as -> by (apply map_eq; intros k; by rewrite (H4 k), (H2 k)). pose proof (remCount_le g (DB u) rw f). lia.
Qed.

(** ** The law depends on the written keys only, not on their classes *)
Definition same_writes (u u' : Unit) : Prop :=
  Cmds u = Cmds u' /\ Watched u = Watched u' /\ DB u = DB u' /\ wkeys u = wkeys u'.

Definition same_key (w w' : KeyWrite) : Prop := wkey w = wkey w'.

Lemma same_key_inv w w' : same_key w w' -> KWCmd w = KWCmd w' /\ KWKey w = KWKey w' /\ KWRaw w = KWRaw w'.
Proof. unfold same_key, wkey. by intros [= -> -> ->]. Qed.

Lemma same_writes_Forall2 u u' : same_writes u u' -> Forall2 same_key (Writes u) (Writes u').
Proof.
  intros (_ & _ & _ & E). unfold wkeys in E. revert E. generalize (Writes u) (Writes u'). intros l.
  induction l as [|w l IH]; intros [|w' l']; cbn; try done. intros [=]. constructor; [|by apply IH].
  unfold same_key, wkey. congruence.
Qed.

Lemma sumOf_same h h' l l' : Forall2 (fun w w' => h w = h' w') l l' -> sumOf h l = sumOf h' l'.
Proof. induction 1; cbn; congruence. Qed.

Section same.
Context (u u' : Unit) (Hs : same_writes u u').

Lemma wcmd_same w w' : same_key w w' -> wcmd u w = wcmd u' w'.
Proof. intros (Hk & _)%same_key_inv. unfold wcmd, cmd_at. destruct Hs as (-> & _). by rewrite Hk. Qed.

Lemma decs_same f : decs u f = decs u' f.
Proof.
  apply sumOf_same. eapply Forall2_impl; [by apply same_writes_Forall2|]. intros w w' Hw.
  unfold decOf. rewrite (wcmd_same _ _ Hw). by destruct (same_key_inv _ _ Hw) as (_ & -> & _).
Qed.

Lemma incs_same f : incs u f = incs u' f.
Proof.
  apply sumOf_same. eapply Forall2_impl; [by apply same_writes_Forall2|]. intros w w' Hw.
  unfold incOf. rewrite (wcmd_same _ _ Hw). by destruct (same_key_inv _ _ Hw) as (_ & -> & _).
Qed.

Lemma pushedElems_same : pushedElems u (Writes u) = pushedElems u' (Writes u').
Proof.
  unfold pushedElems. f_equal. pose proof (same_writes_Forall2 _ _ Hs) as Hf. induction Hf as [|w w' l l' Hw Hf IH]; [done|].
  cbn. f_equal; [|exact IH]. unfold pushedBy. rewrite (wcmd_same _ _ Hw). by destruct (same_key_inv _ _ Hw) as (_ & -> & _).
Qed.

Lemma firstTrim_same key : firstTrim u (Writes u) key = firstTrim u' (Writes u') key.
Proof.
  assert (Hf : Forall2 same_key (chunkWrites (Writes u) key) (chunkWrites (Writes u') key)).
  { pose proof (same_writes_Forall2 _ _ Hs) as Hf. unfold chunkWrites. induction Hf as [|w w' l l' Hw Hf IH]; [constructor|].
    cbn. unfold isChunk. destruct (same_key_inv _ _ Hw) as (_ & -> & ->). case_match; [by constructor|done]. }
  unfold firstTrim. destruct Hf as [|w w' l l' Hw Hf]; [done|]. rewrite (wcmd_same _ _ Hw).
  destruct Hs as (_ & -> & _). replace (forallb (onlyPush u') l') with (forallb (onlyPush u) l); [done|].
  induction Hf as [|x x' l l' Hx Hf IH]; [done|]. cbn. unfold onlyPush at 1 3. by rewrite (wcmd_same _ _ Hx), IH.
Qed.

Lemma trims_same rw : trims u rw -> trims u' rw.
Proof. intros Ht key. by rewrite Ht, firstTrim_same. Qed.
End same.

Lemma same_writes_sym u u' : same_writes u u' -> same_writes u' u.
Proof. intros (? & ? & ? & ?). by split_and!. Qed.

Lemma ledger_fits_same g u u' : same_writes u u' -> ledger_fits g u -> ledger_fits g u'.
Proof.
  intros Hs (H1 & H2 & H3). pose proof (same_writes_sym _ _ Hs) as Hs'. split_and!; intros.
  - by rewrite (incs_same u' u).
  - by rewrite (decs_same u' u).
  - destruct Hs as (_ & _ & <- & _). by apply H3, (trims_same u' u).
Qed.

Lemma conserved_same g p u u' first : same_writes u u' -> conserved g p u first -> conserved g p u' first.
Proof.
  intros Hs (H1 & H2 & rw & Ht & Hl). split_and!; [done..|]. exists rw. split; [by apply (trims_same u u')|].
  intros id size Hid. specialize (Hl id size Hid). cbv zeta in *.
  rewrite <- (decs_same u u'), <- (incs_same u u'), <- (pushedElems_same u u') by done.
  by destruct Hs as (_ & _ & <- & _).
Qed.

(** ** The law at the level of [Check] *)
Context (clock : nat -> Z).

Definition with_writes (u : Unit) : Unit := set_Writes u (all_writes 0 (Cmds u)).

Lemma keyGate_effects p e w e' s s' : keyGate clock p e w s = (Ok e', s') -> e `prefix_of` e'.
Proof.
  intros Hr. unfold keyGate in Hr. apply sm_bind_Ok in Hr as (u & s1 & Hs & Hr). injection Hs as <- <-.
  assert (Hret : forall s1, (mret (M := SM (CheckState S T) exc) e) s1 = (Ok e', s') -> e `prefix_of` e') by (by intros s1 [= -> _]).
  destruct (KWClass w); repeat match type of Hr with (if ?b then _ else _) _ = _ => destruct b end;
    try discriminate Hr; try (by eapply Hret); apply sm_bind_Ok in Hr as (x & s2 & Hx & Hr); try (by eapply Hret).
  injection Hr as <- <-. by apply prefix_app_r.
Qed.

Lemma keyGates_effects p ws : forall e e' s s', mfold (keyGate clock p) e ws s = (Ok e', s') -> e `prefix_of` e'.
Proof.
  induction ws as [|w ws IH]; intros e e' s s' Hr; [by injection Hr as <- <-|].
  apply sm_bind_Ok in Hr as (e1 & s1 & Hk & Hr). etransitivity; [by eapply keyGate_effects|by eapply IH].
Qed.

Lemma core_same_writes u u' : core u = core u' -> wkeys u = wkeys u' -> same_writes u u'.
Proof. intros Hc Hw. split_and!; [exact (f_equal Cmds Hc)|exact (f_equal Watched Hc)|exact (f_equal DB Hc)|done]. Qed.

Lemma wkeys_refine tr h u : wkeys (refineWrites tr h u) = wkeys u.
Proof. unfold wkeys, refineWrites. cbn. rewrite <- list_fmap_compose. done. Qed.

Lemma check_conserved p s eff s' :
  is_admin p = false -> is_bg p = false -> UKind (cs_u s) = UnitTxn -> ledger_fits (cs_g s) (with_writes (cs_u s)) ->
  Check perm clock p s = (Ok eff, s') ->
  exists first, conserved (cs_g s) p (with_writes (cs_u s)) first /\ forall id, id ∈ first -> exists x, x ∈ eff /\ id ∈ effUsed x.
Proof.
  intros Ha Hb Hk Hfit Hr. unfold Check in Hr. apply sm_bind_Ok in Hr as ([] & s0 & Hu & Hr). injection Hu as <-.
  apply sm_bind_Ok in Hr as (u1 & s1 & Hu & Hr). injection Hu as <- <-.
  apply sm_bind_Ok in Hr as ([] & s2 & Hc & Hr). apply commandGates_spec in Hc as [_ ->].
  apply sm_bind_Ok in Hr as ([] & s3 & Ht & Hr). apply trashStage_spec in Ht as (hourly & -> & _).
  apply sm_bind_Ok in Hr as (u2 & s4 & Hu & Hr). injection Hu as <- <-.
  apply sm_bind_Ok in Hr as (e1 & s5 & Ho & Hr). apply sm_bind_Ok in Hr as (e2 & s6 & Hs & Hr).
  apply sm_bind_Ok in Hr as (u3 & s7 & Hu & Hr). injection Hu as <- <-. apply keyGates_effects in Hr.
  apply (keeps_run VFix) in Ho; [|keeps_tac].
  assert (cs_g s5 = cs_g s) as Hg by exact (f_equal (fun x => fst (fst (fst x))) Ho).
  assert (core (cs_u s5) = core (with_writes (cs_u s))) as Hcore by exact (f_equal (fun x => snd (fst (fst x))) Ho).
  assert (wkeys (cs_u s5) = wkeys (with_writes (cs_u s))) as Hw.
  { transitivity (wkeys (refineWrites (is_admin p || is_bg p) hourly (cs_u (addWrites (all_writes 0 (Cmds (cs_u s))) (upd_u resetUnit s)))));
      [exact (f_equal (fun x => snd (fst x)) Ho)|]. by rewrite wkeys_refine. }
  assert (Hsame := core_same_writes _ _ Hcore Hw).
  eapply sliceStage_conserved in Hs as (first & Hcs & He); [|done|done|exact eq_refl| |].
  - exists first. rewrite <- Hg. split; [by apply (conserved_same _ _ (cs_u s5))|].
    intros id Hid. destruct (He id Hid) as (x & Hx & ?). exists x. split; [|done]. destruct Hr as [k ->]. apply elem_of_app. by left.
  - rewrite (core_UKind _ _ Hcore). exact Hk.
  - rewrite Hg. eapply ledger_fits_same; [|exact Hfit]. by apply same_writes_sym.
Qed.

End ledger.
