(* ===== verification/GuardTheorems.v ===== *)
(** * Theorems of the guard

    The properties of [Check] and [Commit]: what an admitted unit may hold,
    the slice reference law, session ownership, counter bounds, the invariant
    of the rate windows, the hourly trash directory, and the places where the
    guard itself fails. *)

From S2P Require Import Prelude GoLib GoTime Resp Classify ClassifyFacts Policy Stores Guard GuardScope GuardCheck GuardFrames GuardFacts GuardSlices GuardLedger.

(** ** Concrete guards for the witnesses *)
Module GuardExamples.
Definition guard : Type := Guard (gmap Z string) MemSliceStore.t.
Definition order (A : Type) (l : list A) : list A := l.
Definition ticks (n : nat) : Z := Z.of_nat n.
Definition mac : Principal := mkPrincipal "alice" KindMac "".
Definition cmd (a : list string) : Cmd := match Classify a with Some i => mkCmd a i | None => nilCmd end.
Definition unit_of (k : UnitKind) (watched : list string) (l : list (list string)) : Unit :=
  mkUnit k 0 (map cmd l) watched [] [] [] None 0 None None 0 (Some (Ok tt)) None ModeEnforce 1 "" false.
(** A chunk list element: slice [id] of [size] bytes, whole, at offset 0. *)
Definition elem (id size : Z) : string := be_bytes 4 0 +:+ be_bytes 8 id +:+ be_bytes 4 size +:+ be_bytes 4 0 +:+ be_bytes 4 size.
(** A directory entry and an attribute as JuiceFS marshals them. *)
Definition entry (typ ino : Z) : string := be_bytes 1 typ +:+ be_bytes 8 ino.
Definition attr (typ parent : Z) : string := be_bytes 1 0 +:+ be_bytes 1 (typ * 16) +:+ be_bytes 61 0 +:+ be_bytes 8 parent +:+ be_bytes 1 0.
(** Alice owns slices 1..4096 and session 3; chunk c5_0 holds slice 7. *)
Definition g0 : guard :=
  mkGuard {[3 := "alice"]} (MemSliceStore.mk [mkRange 1 4096 "alice"] ∅)
    (Some (fun _ key => if key =s "c5_0" then Ok [elem 7 4096] else Ok [])) None None ∅ ∅ ∅ ∅ ∅.
Definition run (u : Unit) : result exc (list guardEffect) * CheckState (gmap Z string) MemSliceStore.t :=
  Check order ticks mac (startCheck g0 u 0).
End GuardExamples.

Lemma reclassed_wkeys l l' : Forall2 reclassed l l' -> wkey <$> l' = wkey <$> l.
Proof. induction 1 as [|w w' l l' [Hw _] _ IH]; [done|]. cbn. by rewrite IH, Hw. Qed.

(** ** Trims of a concrete unit *)
Lemma firstTrim_unwatched u ws key : key ∉ Watched u -> firstTrim u ws key = None.
Proof. intros Hn. unfold firstTrim. destruct (chunkWrites ws key); [done|]. by rewrite bool_decide_false. Qed.

Lemma trims_intro u rw :
  Forall (fun k => rw !! k = firstTrim u (Writes u) k) (Watched u) -> (forall k, k ∉ Watched u -> rw !! k = None) -> trims u rw.
Proof.
  intros Hf Hn k. destruct (decide (k ∈ Watched u)) as [Hk|Hk]; [by eapply Forall_forall in Hf|].
  rewrite Hn by done. by rewrite firstTrim_unwatched.
Qed.

Section theorems.
Context {S T : Type} `{SessionStore S} `{SliceStore T}.
Context (perm : forall A : Type, list A -> list A) (clock : nat -> Z).

(** C1: an admitted unit is authorised.  Every command is one its principal may
    issue; the unit's writes are exactly the keys its write commands name, each
    parsed from its raw key; every key belongs to a group its principal may
    write with that command; and the writes handed on for placement are exactly
    those the guard classed as project writes. *)
Theorem admitted_unit_is_authorised p g u tick eff s' :
  wf_unit u -> Check perm clock p (startCheck g u tick) = (Ok eff, s') ->
  Forall (command_allowed p) (Cmds u) /\
  wkeys (cs_u s') = wkey <$> all_writes 0 (Cmds u) /\
  (forall w, w ∈ Writes (cs_u s') -> KWKey w = ParseKey (KWRaw w) /\ write_allowed p (wcmd u w) (KWKey w)) /\
  Project (cs_u s') = filter (fun w => KWClass w = KCProject) (Writes (cs_u s')).
Proof.
  intros Hwf Hr. pose proof (check_stages perm clock p _ _ _ Hr) as (Hall & Hcore & Hpr & _ & hourly & _ & Hre).
  split; [exact Hall|]. split; [|split; [|done]].
  - unfold wkeys. by rewrite (reclassed_wkeys _ _ Hre), <- list_fmap_compose.
  - intros w Hw. destruct (final_class perm clock p (startCheck g u tick) eff s' w Hwf Hr Hw) as (Hk & _). split; [done|].
    pose proof (final_write_allowed perm clock p (startCheck g u tick) eff s' w Hwf Hr Hw) as Ha.
    unfold wcmd, cmd_at in *. by rewrite (core_Cmds _ _ Hcore) in Ha.
Qed.

End theorems.

Lemma admitted_unit_is_authorised_witness :
  let u := GuardExamples.unit_of UnitTxn ["i5"] [["MULTI"]; ["SET"; "i5"; "x"]; ["INCRBY"; "usedSpace"; "4096"]; ["EXEC"]] in
  wf_unit u /\ Forall (command_allowed GuardExamples.mac) (Cmds u).
Proof.
  assert (Hwf : wf_unit (GuardExamples.unit_of UnitTxn ["i5"] [["MULTI"]; ["SET"; "i5"; "x"]; ["INCRBY"; "usedSpace"; "4096"]; ["EXEC"]]))
    by (repeat constructor).
  split; [exact Hwf|].
  apply (admitted_unit_is_authorised GuardExamples.order GuardExamples.ticks GuardExamples.mac GuardExamples.g0 _ 0
    [] (snd (GuardExamples.run (GuardExamples.unit_of UnitTxn ["i5"] [["MULTI"]; ["SET"; "i5"; "x"]; ["INCRBY"; "usedSpace"; "4096"]; ["EXEC"]])))
    Hwf). vm_compute. reflexivity.
Defined.

Definition ledger_unit : Unit := GuardExamples.unit_of UnitTxn ["c5_0"]
  [["RPUSH"; "c6_0"; GuardExamples.elem 9 100]; ["DEL"; "c5_0"]; ["HINCRBY"; "sliceRef"; "k7_4096"; "-1"]].

Lemma ledger_unit_fits : ledger_fits GuardExamples.g0 (with_writes ledger_unit).
Proof.
  apply (ledger_fits_intro _ _ {["c5_0" := mkTrim true 0 0]}); [reflexivity| |reflexivity].
  apply trims_intro; [repeat constructor|]. intros k Hk. apply lookup_singleton_ne. cbn in Hk. set_solver.
Qed.


