(* ===== verification/GuardState.v ===== *)
(** * Sessions, counters and the guard's own state

    What [Check] enforces key by key: session writes touch only sessions of
    the principal, counter writes stay within their bounds, and the windows
    and caches that enforce the aggregate bounds are an invariant of every
    call, admitted or refused. *)

From S2P Require Import Prelude GoLib GoTime Resp Classify ClassifyFacts Policy Stores Guard GuardScope GuardCheck GuardFrames GuardFacts GuardSlices GuardLedger GuardTheorems.

(** What a counter write requires of a principal other than admin. *)
Definition counter_allowed (p : Principal) (u : Unit) (c : Cmd) (name : string) : Prop :=
  (HasPrefix name "next" = true -> exists n, counterDelta c = Some n /\ 0 < n /\
     (forall m, maxAlloc name = Some m -> n <= m) /\
     (name = "nextsession" -> UKind u = UnitBare) /\
     (name = "nextchunk" -> UKind u = UnitBare /\ n = 2^12) /\
     (name = "nextinode" -> PKind p = KindBG \/ (UKind u = UnitBare /\ n = 2^10))) /\
  (name = "lastCleanupSessions" -> cname c ∈ ["SET"; "SETNX"; "GETSET"]) /\
  (HasPrefix name "next" = false -> name <> "lastCleanupSessions" -> exists n, counterDelta c = Some n /\
     (UKind u = UnitTxn \/ PKind p = KindBG) /\
     Z.abs n <= if name =s "totalInodes" then maxTotalInodesDelta else maxUsedSpaceDelta).

Section state.
Context {S T : Type} `{SessionStore S} `{SliceStore T}.
Context (perm : forall A : Type, list A -> list A) (clock : nat -> Z).
Implicit Types (s : CheckState S T).

(** ** Every final write passed the key gate *)
Definition VGate s : S * T * Unit * list KeyWrite := (sessions (cs_g s), slices (cs_g s), core (cs_u s), Writes (cs_u s)).

Lemma keeps_mod_g_gate f : (forall g, sessions (f g) = sessions g /\ slices (f g) = slices g) -> keeps VGate (mod_g (S := S) (T := T) f).
Proof. intros Hf s. unfold VGate. cbn. by destruct (Hf (cs_g s)) as [-> ->]. Qed.

Lemma keeps_time_now_gate : keeps VGate (time_now (S := S) (T := T) clock).
Proof. done. Qed.
#[local] Hint Resolve keeps_time_now_gate : frame.

Ltac gate_tac := repeat (keeps_tac; try (apply keeps_mod_g_gate; done)).

Lemma keeps_keyGate p e w : keeps VGate (keyGate (S := S) (T := T) clock p e w).
Proof.
  unfold keyGate, counterGate, counterCeiling, refreshCounter, openWindow, sessionGate, sessionSetGate, heartbeatGate. gate_tac.
Qed.

(** ** Sessions *)
Definition owns (g : Guard S T) (p : Principal) (sid : Z) : Prop := sessOwner (sessions g) sid = Ok (Some (PName p)).

Lemma ownersLoop_spec p (g : Guard S T) sids s s' :
  mfor sids (fun sid => match sessOwner (sessions g) sid with
    | Ok (Some owner) => if owner =s PName p then mret tt else refuse ReasonBGOnly
    | _ => refuse ReasonBGOnly end) s = (Ok tt, s') -> Forall (owns g p) sids /\ s' = s.
Proof.
  revert s. induction sids as [|sid sids IH]; intros s Hr; [by injection Hr as <-|].
  apply sm_bind_Ok in Hr as ([] & s1 & Hb & Hr). unfold owns.
  destruct (sessOwner (sessions g) sid) as [[o|]|] eqn:Eo; [|discriminate Hb..].
  destruct (o =s PName p) eqn:En; [|discriminate Hb]. apply eqs_true in En as ->. injection Hb as <-.
  apply IH in Hr as [Hf ->]. split; [|done]. constructor; done.
Qed.

Lemma sessionGate_owned p u c w e s s' :
  is_admin p = false -> is_bg p = false -> sessionGate p u c w s = (Ok e, s') ->
  exists sids, sessionIDs (cname c) (KWKey w) (Args c) = Some sids /\ sids <> [] /\ Forall (owns (cs_g s) p) sids /\
    forall x, x ∈ e -> release x = sids.
Proof.
  intros Ha Hb Hr. unfold sessionGate in Hr. destruct (sessionIDs (cname c) (KWKey w) (Args c)) as [sids|]; [|discriminate Hr].
  rewrite Ha, Hb in Hr. cbn [orb] in Hr. destruct (_ && negb _) in Hr; [discriminate Hr|].
  destruct (bool_decide (sids = [])) eqn:En in Hr; [discriminate Hr|]. to_prop.
  apply sm_bind_Ok in Hr as (g & s1 & Hg & Hr). injection Hg as <- <-.
  apply sm_bind_Ok in Hr as ([] & s2 & Ho & Hr). apply ownersLoop_spec in Ho as [Ho ->].
  apply sm_bind_Ok in Hr as ([] & s3 & _ & Hr). injection Hr as <- _. exists sids. split_and!; try done.
  intros x Hx. case_match; [|by apply elem_of_nil in Hx]. by apply list_elem_of_singleton in Hx as ->.
Qed.

(** Only the session gate releases sessions. *)
Definition quiet (e : list guardEffect) : Prop := Forall (fun x => release x = []) e.

Lemma quiet_app a b : quiet a -> quiet b -> quiet (a ++ b).
Proof. intros. by apply Forall_app. Qed.
Lemma quiet_fmap {A} (h : A -> guardEffect) l : (forall x, release (h x) = []) -> quiet (h <$> l).
Proof. intros Hh. apply Forall_fmap, Forall_true. done. Qed.
Lemma quiet_nil : quiet [].
Proof. constructor. Qed.
Lemma quiet_one x : release x = [] -> quiet [x].
Proof. by repeat constructor. Qed.
#[local] Hint Resolve quiet_app quiet_nil quiet_one quiet_fmap : core.

Ltac yields_step :=
  match goal with
  | |- yields _ (mret _) => apply yields_ret; cbn; eauto
  | |- yields _ (sm_err _) => apply yields_err
  | |- yields _ (refuse _) => apply yields_err
  | |- yields _ panic => apply yields_err
  | |- yields _ (match ?x with _ => _ end) => destruct x
  | |- yields _ (_ ≫= _) => eapply yields_bind; [apply yields_any|intros ? _]
  end.

Lemma anchorField_quiet c acc f : quiet (snd acc) -> yields (fun a => quiet (snd a)) (anchorField (S := S) (T := T) perm c acc f).
Proof. intros Hq. unfold anchorField. destruct acc as [refs eff]. cbn in Hq. repeat yields_step. Qed.

Lemma anchorWrite_quiet acc iw : quiet (snd acc) -> yields (fun a => quiet (snd a)) (anchorWrite (S := S) (T := T) perm acc iw).
Proof.
  intros Hq. unfold anchorWrite. destruct iw as [i w], acc as [refs eff]. cbn in Hq.
  destruct (negb (Group (KWKey w) =s "gc")); [by apply yields_ret|]. eapply yields_bind; [apply yields_any|intros u _].
  eapply (yields_bind (fun a => quiet (snd a))); [|intros a Ha; by repeat yields_step].
  repeat yields_step.
  - apply quiet_app; [done|]. case_match; [by apply quiet_fmap|done].
  - apply yields_mfold; [done|]. intros. by apply anchorField_quiet.
Qed.

Lemma anchorCleanup_quiet : yields quiet (anchorCleanup (S := S) (T := T) perm).
Proof.
  unfold anchorCleanup. eapply yields_bind; [apply yields_any|intros u _].
  eapply (yields_bind (fun a => quiet (snd a))).
  - apply yields_mfold; [by cbn|]. intros. by apply anchorWrite_quiet.
  - intros [refs eff] Hq. repeat yields_step.
Qed.

Lemma ownZeroRefDrop_quiet p : yields quiet (ownZeroRefDrop (S := S) (T := T) p).
Proof.
  unfold ownZeroRefDrop. eapply yields_bind; [apply yields_any|intros u _]. apply yields_mfold; [done|].
  intros e [i w] He. unfold ownZeroWrite. eapply yields_bind; [apply yields_any|intros u' _]. destruct (_ || _); [apply yields_err|].
  eapply yields_bind; [apply yields_any|intros fs _]. eapply (yields_bind quiet); [|intros; by repeat yields_step].
  apply yields_mfold; [done|]. intros. repeat yields_step.
Qed.

Lemma ownRecordStage_quiet p : yields quiet (ownRecordStage (S := S) (T := T) p).
Proof.
  assert (Hif : forall (b : bool) (m : SM (CheckState S T) exc (list guardEffect)), yields quiet m ->
    yields quiet (if b then e ← m; mod_u (set_class 0 KCOwnRecord) ≫= fun _ => mret e else mret [])).
  { intros b m Hm. destruct b; [|by apply yields_ret]. eapply yields_bind; [exact Hm|]. intros. by repeat yields_step. }
  unfold ownRecordStage. eapply yields_bind; [apply yields_any|intros u _]. cbv zeta.
  eapply yields_bind; [apply Hif|intros e1 H1].
  { unfold ownSliceDrop. by repeat yields_step. }
  eapply yields_bind; [apply Hif|intros e2 H2].
  { unfold rollbackDrop. by repeat yields_step. }
  eapply yields_bind; [apply Hif|intros e3 H3].
  { unfold ownDelfilesDrop. by repeat yields_step. }
  apply yields_ret. by repeat apply quiet_app.
Qed.

Lemma sliceStage_quiet p hp e : quiet e -> yields quiet (sliceStage (S := S) (T := T) perm p hp e).
Proof.
  intros He. unfold sliceStage. eapply yields_bind; [apply yields_any|intros u _].
  destruct (is_admin p || is_bg p); [by apply yields_ret|]. do 3 (eapply yields_bind; [apply yields_any|intros ? _]).
  eapply (yields_bind quiet).
  - destruct (_ && _); [|by apply yields_ret]. eapply (yields_bind quiet).
    + destruct hp; [apply anchorCleanup_quiet|apply ownZeroRefDrop_quiet].
    + intros e' Hq. apply yields_ret, Forall_fmap. eapply Forall_impl; [exact Hq|]. intros x Hx. unfold compose, set_zeroOwner. by case_match.
  - intros e' Hq. eapply yields_bind; [apply yields_any|intros sc _]. apply yields_ret.
    destruct (firstUse sc); [done|]. apply quiet_app; [done|]. by apply quiet_one.
Qed.

(** Releases come from ZREMs of the principal's own sessions. *)
Lemma keyGate_releases p e w e' s s' :
  is_admin p = false -> is_bg p = false -> keyGate clock p e w s = (Ok e', s') ->
  (forall x sid, x ∈ e -> sid ∈ release x -> owns (cs_g s) p sid) -> forall x sid, x ∈ e' -> sid ∈ release x -> owns (cs_g s) p sid.
Proof.
  intros Ha Hb Hr He. unfold keyGate in Hr. apply sm_bind_Ok in Hr as (u & s1 & Hs & Hr). injection Hs as <- <-.
  assert (Hret : forall s1, (mret (M := SM (CheckState S T) exc) e) s1 = (Ok e', s') -> e' = e) by (by intros s1 [= -> _]).
  destruct (KWClass w) eqn:Ec.
  2: { apply sm_bind_Ok in Hr as (x & s2 & Hx & Hr). injection Hr as <- <-.
       eapply sessionGate_owned in Hx as (sids & _ & _ & Ho & Hrel); [|done..]. rewrite Forall_forall in Ho.
       intros y sid [Hy|Hy]%elem_of_app Hsid; [by eapply He|]. rewrite (Hrel y Hy) in Hsid. by apply Ho. }
  all: repeat match type of Hr with (if ?b then _ else _) _ = _ => destruct b end;
    try discriminate Hr; try (apply Hret in Hr as ->; exact He); apply sm_bind_Ok in Hr as (x & s2 & Hx & Hr);
    apply Hret in Hr as ->; exact He.
Qed.

Lemma keyGates_releases p ws : forall e e' s s',
  is_admin p = false -> is_bg p = false -> mfold (keyGate clock p) e ws s = (Ok e', s') ->
  (forall x sid, x ∈ e -> sid ∈ release x -> owns (cs_g s) p sid) -> forall x sid, x ∈ e' -> sid ∈ release x -> owns (cs_g s) p sid.
Proof.
  induction ws as [|w ws IH]; intros e e' s s' Ha Hb Hr He; [injection Hr as <- <-; exact He|].
  apply sm_bind_Ok in Hr as (e1 & s1 & Hk & Hr).
  pose proof (f_equal (fun x => fst (fst (fst x))) (keeps_run VGate _ _ _ _ (keeps_keyGate p e w) Hk) : sessions (cs_g s1) = sessions (cs_g s)) as HS.
  pose proof (keyGate_releases p e w e1 s s1 Ha Hb Hk He) as He1.
  intros x sid Hx Hsid. unfold owns. rewrite <- HS.
  apply (IH e1 e' s1 s' Ha Hb Hr) with (x := x); [|done..]. intros y sid' Hy Hs'. unfold owns. rewrite HS. by eapply He1.
Qed.

(** ** [Check] up to the key gate *)
Lemma check_split p s eff s' :
  Check perm clock p s = (Ok eff, s') ->
  exists e1 s1, mfold (keyGate clock p) e1 (Writes (cs_u s1)) s1 = (Ok eff, s') /\ quiet e1 /\
    cs_g s1 = cs_g s /\ core (cs_u s1) = core (cs_u s) /\ Writes (cs_u s') = Writes (cs_u s1).
Proof.
  intros Hr. unfold Check in Hr. apply sm_bind_Ok in Hr as ([] & s0 & Hu & Hr). injection Hu as <-.
  apply sm_bind_Ok in Hr as (u1 & s1 & Hu & Hr). injection Hu as <- <-.
  apply sm_bind_Ok in Hr as ([] & s2 & Hc & Hr). apply commandGates_spec in Hc as [_ ->].
  apply sm_bind_Ok in Hr as ([] & s3 & Ht & Hr). apply trashStage_spec in Ht as (hourly & -> & _).
  apply sm_bind_Ok in Hr as (u2 & s4 & Hu & Hr). injection Hu as <- <-.
  apply sm_bind_Ok in Hr as (e1 & s5 & Ho & Hr). apply sm_bind_Ok in Hr as (e2 & s6 & Hs & Hr).
  apply sm_bind_Ok in Hr as (u3 & s7 & Hu & Hr). injection Hu as <- <-.
  pose proof (ownRecordStage_quiet p _ _ _ Ho) as Hq1. pose proof (sliceStage_quiet p _ e1 Hq1 _ _ _ Hs) as Hq2.
  apply (keeps_run VFix) in Ho; [|keeps_tac]. apply (keeps_run VFix) in Hs; [|keeps_tac]. rewrite Ho in Hs.
  exists e2, s6. split_and!; try done.
  - exact (f_equal (fun x => fst (fst (fst x))) Hs).
  - exact (f_equal (fun x => snd (fst (fst x))) Hs).
  - assert (Hk : keeps VGate (mfold (keyGate clock p) e2 (Writes (cs_u s6)))) by (apply keeps_mfold; intros; apply keeps_keyGate).
    exact (f_equal snd (keeps_run _ _ _ _ _ Hk Hr)).
Qed.

Lemma check_each p s eff s' :
  Check perm clock p s = (Ok eff, s') ->
  forall w, w ∈ Writes (cs_u s') -> exists e1 e2 s1 s2, keyGate clock p e1 w s1 = (Ok e2, s2) /\
    sessions (cs_g s1) = sessions (cs_g s) /\ core (cs_u s1) = core (cs_u s).
Proof.
  intros Hr w Hw. apply check_split in Hr as (e1 & s1 & Hm & _ & Hg & Hcore & HW). rewrite HW in Hw.
  destruct (mfold_each VGate _ _ _ _ _ _ (fun e x => keeps_keyGate p e x) Hm w Hw) as (b1 & b2 & t1 & t2 & H1 & H2).
  exists b1, b2, t1, t2. split; [done|]. split.
  - rewrite <- Hg. exact (f_equal (fun x => fst (fst (fst x))) H2).
  - rewrite <- Hcore. exact (f_equal (fun x => snd (fst x)) H2).
Qed.

(** C9: sessions belong to their principal.  In a unit admitted from a
    principal other than admin and bg, every write of a session key names at
    least one session id and only ids the store says were allocated to that
    principal; and the sessions that Commit releases are its own. *)
Theorem session_writes_are_owned p g u tick eff s' :
  wf_unit u -> PKind p <> KindAdmin -> PKind p <> KindBG ->
  Check perm clock p (startCheck g u tick) = (Ok eff, s') ->
  (forall w, w ∈ Writes (cs_u s') -> Group (KWKey w) = "session" ->
     exists sids, sessionIDs (cname (wcmd u w)) (KWKey w) (Args (wcmd u w)) = Some sids /\ sids <> [] /\ Forall (owns g p) sids) /\
  (forall e sid, e ∈ eff -> sid ∈ release e -> owns g p sid).
Proof.
  intros Hwf Hna Hnb Hr. assert (Ha : is_admin p = false) by (by apply is_admin_false).
  assert (Hb : is_bg p = false) by (by apply bool_decide_eq_false). split.
  - intros w Hw Hgr. destruct (check_each _ _ _ _ Hr w Hw) as (e1 & e2 & s1 & s2 & Hk & Hs & Hc).
    assert (KWClass w = KCSession) as Hcl.
    { destruct (final_class perm clock p (startCheck g u tick) _ _ w Hwf Hr Hw) as (_ & _ & _ & [Hx|[[[Hx|Hx] _]|[Hx _]]]); [|congruence..].
      unfold baseClass in Hx. rewrite Hgr in Hx. exact Hx. }
    unfold keyGate in Hk. rewrite Hcl in Hk. apply sm_bind_Ok in Hk as (u1 & s3 & Hu & Hk). injection Hu as <- <-.
    apply sm_bind_Ok in Hk as (e & s3 & Hsg & _). eapply sessionGate_owned in Hsg as (sids & Hid & Hne & Ho & _); [|done..].
    assert (wcmd (cs_u s1) w = wcmd u w) as Hwc by (unfold wcmd, cmd_at; by rewrite (core_Cmds _ _ Hc)).
    rewrite Hwc in Hid. exists sids. split_and!; [done..|]. eapply Forall_impl; [exact Ho|]. intros sid. unfold owns. by rewrite Hs.
  - intros x sid Hx Hsid. apply check_split in Hr as (e1 & s1 & Hm & Hq & Hg & _). unfold owns.
    change g with (cs_g (startCheck g u tick)). rewrite <- Hg.
    eapply (keyGates_releases p _ e1 eff s1 s' Ha Hb Hm); [|done..].
    intros y sid' Hy Hs'. unfold quiet in Hq. rewrite Forall_forall in Hq. rewrite (Hq y Hy) in Hs'. by apply elem_of_nil in Hs'.
Qed.
End state.

Lemma session_writes_are_owned_witness :
  owns GuardExamples.g0 GuardExamples.mac 3 /\
  exists eff, fst (GuardExamples.run (GuardExamples.unit_of UnitBare [] [["ZREM"; "allSessions"; "3"]])) = Ok eff /\
    forall e sid, e ∈ eff -> sid ∈ release e -> owns GuardExamples.g0 GuardExamples.mac sid.
Proof.
  split; [reflexivity|]. exists [effRelease [3]]. split; [vm_compute; reflexivity|].
  apply (session_writes_are_owned GuardExamples.order GuardExamples.ticks GuardExamples.mac GuardExamples.g0
    (GuardExamples.unit_of UnitBare [] [["ZREM"; "allSessions"; "3"]]) 0 [effRelease [3]]
    (snd (GuardExamples.run (GuardExamples.unit_of UnitBare [] [["ZREM"; "allSessions"; "3"]]))));
    [by repeat constructor|done|done|vm_compute; reflexivity].
Defined.
