(* ===== verification/GuardCounters.v ===== *)
(** * Counters

    Allocators only grow, by juicefs's own batch sizes; usage counters move by
    bounded deltas; and the per-principal windows and the cached counter values
    that bound their sums are kept by every call of [Check], admitted or
    refused. *)

From S2P Require Import Prelude GoLib GoTime Resp Classify ClassifyFacts Policy Stores Guard GuardScope GuardCheck GuardFrames GuardFacts GuardSlices GuardLedger GuardTheorems GuardState.

(** ** Window keys *)
Lemma list_ascii_app a b : String.list_ascii_of_string (a +:+ b) = String.list_ascii_of_string a ++ String.list_ascii_of_string b.
Proof. induction a as [|x a IH]; cbn; [done|]. by rewrite IH. Qed.

Lemma list_ascii_inj a b : String.list_ascii_of_string a = String.list_ascii_of_string b -> a = b.
Proof. intros E. rewrite <- (String.string_of_list_ascii_of_string a), <- (String.string_of_list_ascii_of_string b). by rewrite E. Qed.

Lemma rate_key_inj n n' k k' b b' :
  rateBounds k = Some b -> rateBounds k' = Some b' -> n +:+ "|" +:+ k = n' +:+ "|" +:+ k' -> n = n' /\ k = k'.
Proof.
  intros Hk Hk' E. apply (f_equal String.list_ascii_of_string) in E. rewrite !list_ascii_app in E.
  assert (Hc : forall k b, rateBounds k = Some b -> k = "usedSpace" \/ k = "totalInodes").
  { intros x y. unfold rateBounds. destruct (x =s "usedSpace") eqn:E1; [left; by apply eqs_true|].
    destruct (x =s "totalInodes") eqn:E2; [right; by apply eqs_true|done]. }
  destruct (Hc _ _ Hk) as [-> | ->], (Hc _ _ Hk') as [-> | ->].
  1,4: apply app_inj_2 in E as [E _]; [|done]; split; [by apply list_ascii_inj|done].
  all: exfalso; apply (f_equal last) in E; rewrite !last_app in E; cbn in E; discriminate E.
Qed.

Section counters.
Context {S T : Type} `{SessionStore S} `{SliceStore T}.
Context (perm : forall A : Type, list A -> list A) (clock : nat -> Z).
Implicit Types (s : CheckState S T) (g : Guard S T).

Lemma counterGate_allowed p u c w s s' :
  counterGate clock p u c w s = (Ok tt, s') -> counter_allowed p u c (Shape (KWKey w)).
Proof.
  unfold counterGate, counter_allowed. set (name := Shape (KWKey w)). intros Hr.
  destruct (HasPrefix name "next") eqn:En.
  - split_and!; [intros _|intros ->; discriminate En|discriminate].
    destruct (counterDelta c) as [n|]; [|discriminate Hr]. exists n. split; [done|].
    destruct (n <=? 0) eqn:E0; [discriminate Hr|]. to_prop. split; [lia|].
    destruct (match maxAlloc name with Some m => m <? n | None => false end) eqn:Em; [discriminate Hr|].
    split; [intros m Hm; rewrite Hm in Em; to_prop; lia|].
    destruct (((name =s "nextsession") || (name =s "nextchunk")) && bool_decide (UKind u <> UnitBare)) eqn:E1; [discriminate Hr|].
    destruct ((name =s "nextinode") && negb (is_bg p) && (bool_decide (UKind u <> UnitBare) || negb (n =? 2 ^ 10))) eqn:E2; [discriminate Hr|].
    destruct ((name =s "nextchunk") && negb (n =? 2 ^ 12)) eqn:E3; [discriminate Hr|].
    assert (Hdec : forall k, bool_decide (k <> UnitBare) = false -> k = UnitBare) by (by intros []; cbn).
    split_and!; intros Hn; rewrite Hn in *; cbn in E1, E2, E3.
    + by apply Hdec.
    + split; [by apply Hdec|]. by apply negb_false_iff, Z.eqb_eq in E3.
    + destruct (is_bg p) eqn:Eb; [left; by apply is_bg_true|right]. cbn in E2. apply orb_false_iff in E2 as [E2 E4].
      split; [by apply Hdec|]. by apply negb_false_iff, Z.eqb_eq in E4.
  - split_and!; [discriminate| |intros _ Hnl].
    + intros Hn. rewrite Hn in Hr. cbn in Hr. by case_bool_decide.
    + apply eqs_false in Hnl. rewrite Hnl in Hr. destruct (bool_decide (UKind u <> UnitTxn) && negb (is_bg p)) eqn:E1; [discriminate Hr|].
      destruct (counterDelta c) as [n|]; [|discriminate Hr]. exists n. split; [done|].
      match type of Hr with context [if ?b then refuse _ else _] => destruct b eqn:E2 end; [discriminate Hr|].
      apply orb_false_iff in E2 as [E2 E3]. split.
      * apply andb_false_iff in E1 as [E1|E1]; [left; by destruct (UKind u)|].
        right. apply negb_false_iff in E1. by apply is_bg_true.
      * destruct (name =s "totalInodes"); to_prop; lia.
Qed.

(** ** Windows and caches *)

(** [B] are the names of background principals, whose windows are not bounded. *)
Definition rate_ok (B : string -> Prop) g : Prop := forall name key lo hi rw,
  rate g !! (name +:+ "|" +:+ key) = Some rw -> rateBounds key = Some (lo, hi) -> ~ B name -> lo <= rw_net rw <= hi.

(** What a counter is known to be stays within its value when it was read and
    the absolute limit. *)
Definition ctr_ok g : Prop := forall key cc, ctrCache g !! key = Some cc ->
  is_i64 (cc_val cc) /\ Z.min (cc_val cc) (- counterLimit) <= i64 (cc_val cc + cc_pending cc) <= Z.max (cc_val cc) counterLimit.

Definition readers_ok g : Prop := forall read db key v, counters g = Some read -> read db key = Ok v -> is_i64 v.

Definition counters_inv (B : string -> Prop) s : Prop := rate_ok B (cs_g s) /\ ctr_ok (cs_g s) /\ readers_ok (cs_g s).

Definition VCtr s := (rate (cs_g s), ctrCache (cs_g s), counters (cs_g s)).

Lemma counters_inv_keeps B {A} (m : SM (CheckState S T) exc A) : keeps VCtr m -> stable (counters_inv B) m.
Proof.
  apply stable_keeps. unfold VCtr, counters_inv, rate_ok, ctr_ok, readers_ok. intros s s' [= -> -> ->] HI. exact HI.
Qed.

Lemma refreshCounter_inv B db key now s :
  counters_inv B s -> counters_inv B (snd (refreshCounter db key now s)).
Proof.
  intros (Hr & Hc & Hd). unfold refreshCounter, mbind, SM_bind. cbn. destruct (counters (cs_g s)) as [read|] eqn:Er; [|done].
  case_match; [|done]. destruct (read db key) as [v|] eqn:Ev; [|done]. cbn. split_and!; try done.
  intros key' cc. cbn. destruct (decide (key' = key)) as [->|Hn]; [rewrite lookup_insert_eq|rewrite lookup_insert_ne by done; apply Hc].
  intros [= <-]. cbn. assert (is_i64 v) by (by eapply Hd). split; [done|]. rewrite Z.add_0_r, i64_id by done. lia.
Qed.

Lemma openWindow_inv B rk now s :
  counters_inv B s -> exists rw s', openWindow rk now s = (Ok rw, s') /\ rate (cs_g s') !! rk = Some rw /\ counters_inv B s'.
Proof.
  intros (Hr & Hc & Hd). unfold openWindow.
  set (m := if 100000 <? Z.of_nat (size (rate (cs_g s))) then ∅ else rate (cs_g s)).
  set (s' := upd_g (fun g => set_rate g (<[rk := mkRW now 0]> m)) s).
  assert (Hfresh : rate (cs_g s') !! rk = Some (mkRW now 0) /\ counters_inv B s').
  { split; [cbn; by rewrite lookup_insert_eq|]. split_and!; try done. intros name key lo hi rw Hl Hb HB.
    change (<[rk := mkRW now 0]> m !! (name +:+ "|" +:+ key) = Some rw) in Hl.
    destruct (decide (name +:+ "|" +:+ key = rk)) as [<-|Hn].
    - rewrite lookup_insert_eq in Hl. injection Hl as <-. unfold rateBounds in Hb. repeat case_match; simplify_eq; cbn; lia.
    - rewrite lookup_insert_ne in Hl by congruence. subst m. case_match; [by rewrite lookup_empty in Hl|]. by eapply Hr. }
  unfold mbind, SM_bind, get_g. destruct (rate (cs_g s) !! rk) as [rw|] eqn:E; [|by exists (mkRW now 0), s'].
  destruct (rateWindowLen <=? now - rw_start rw); [by exists (mkRW now 0), s'|]. by exists rw, s.
Qed.

(** The absolute check never projects a counter beyond the limit. *)
Lemma ctr_step cc n :
  is_i64 (cc_val cc) -> Z.min (cc_val cc) (- counterLimit) <= i64 (cc_val cc + cc_pending cc) <= Z.max (cc_val cc) counterLimit ->
  Z.abs n <= 2^40 ->
  (0 <? n) && (counterLimit - n <? i64 (cc_val cc + cc_pending cc)) || (n <? 0) && (i64 (cc_val cc + cc_pending cc) <? - counterLimit - n) = false ->
  Z.min (cc_val cc) (- counterLimit) <= i64 (cc_val cc + i64 (cc_pending cc + n)) <= Z.max (cc_val cc) counterLimit.
Proof.
  intros Hv Hb Hn Hc. rewrite i64_add_r. replace (cc_val cc + (cc_pending cc + n)) with (cc_val cc + cc_pending cc + n) by lia.
  rewrite <- i64_add_l. set (x := i64 (cc_val cc + cc_pending cc)) in *. pose proof (i64_range (cc_val cc + cc_pending cc)) as Hx. fold x in Hx.
  unfold is_i64, counterLimit in *. apply orb_false_iff in Hc as [H1 H2]. apply andb_false_iff in H1, H2. rewrite !Z.ltb_ge in H1, H2.
  rewrite i64_id; unfold is_i64; lia.
Qed.

Lemma counterCeiling_inv B db p key n s :
  (PKind p = KindBG -> B (PName p)) -> rateBounds key <> None -> Z.abs n <= 2^40 ->
  counters_inv B s -> counters_inv B (snd (counterCeiling clock db p key n s)).
Proof.
  intros HB Hkey Hn HI. unfold counterCeiling. unfold mbind, SM_bind. cbn [time_now].
  assert (HI1 : counters_inv B (upd_tick s)) by exact HI. cbn. set (now := clock (cs_tick s)).
  pose proof (refreshCounter_inv B db key now _ HI1) as HI2.
  destruct (refreshCounter db key now (upd_tick s)) as [[[]|e] s2]; cbn in HI2; [|done].
  set (rk := PName p +:+ "|" +:+ key). change (PName p +:+ String "|" key) with rk.
  destruct (openWindow_inv B rk now s2 HI2) as (rw & s3 & -> & Hrk & HI3). set (next := i64 (rw_net rw + n)).
  destruct (match rateBounds key with Some (lo, hi) => negb (is_bg p) && ((next <? lo) || (hi <? next)) | None => false end) eqn:Eo; [done|].
  destruct HI3 as (Hr & Hc & Hd).
  assert (Hrate : forall s4, rate (cs_g s4) = rate (cs_g s3) -> rate_ok B (set_rate (cs_g s4) (<[rk := mkRW (rw_start rw) next]> (rate (cs_g s4))))).
  { intros s4 E name key' lo hi rw' Hl Hb HnB. rewrite E in Hl.
    change (<[rk := mkRW (rw_start rw) next]> (rate (cs_g s3)) !! (name +:+ "|" +:+ key') = Some rw') in Hl.
    destruct (decide (name +:+ "|" +:+ key' = rk)) as [Ek|Hnk]; [|rewrite lookup_insert_ne in Hl by congruence; by eapply Hr].
    rewrite Ek, lookup_insert_eq in Hl. injection Hl as <-. cbn. destruct (rateBounds key) as [[lo' hi']|] eqn:Ekb.
    - destruct (rate_key_inj _ _ _ _ _ _ Hb Ekb Ek) as [-> ->]. rewrite Hb in Ekb. injection Ekb as <- <-.
      destruct (is_bg p) eqn:Ebg; [by destruct HnB; apply HB, is_bg_true|]. cbn in Eo. to_prop. lia.
    - by destruct Hkey. }
  destruct (ctrCache (cs_g s3) !! key) as [cc|] eqn:Ecc; [|split_and!; [by apply Hrate|done|done]].
  destruct (Hc key cc Ecc) as [Hv Hb]. match goal with |- context [if ?b then refuse _ else _] => destruct b eqn:Eb end; [done|].
  cbn. split_and!; [by apply (Hrate (upd_g _ s3))| |done]. intros key' cc'. cbn.
  destruct (decide (key' = key)) as [->|]; [rewrite lookup_insert_eq|rewrite lookup_insert_ne by done; apply Hc].
  intros [= <-]. cbn. split; [done|]. by apply ctr_step.
Qed.

Definition usageNames : list string := ["usedSpace"; "totalInodes"].
Definition counterNames : list string := ["nextinode"; "nextchunk"; "nextsession"; "nextTrash"; "lastCleanupSessions"] ++ usageNames.

Lemma parse_counter k : Group (ParseKey k) = "counter" -> Shape (ParseKey k) ∈ counterNames.
Proof.
  destruct (ParseKey_sound k) as [->|Hk]; [done|]. revert Hk. generalize (ParseKey k). intros r Hk Hg.
  destruct Hk as [k' g Ha| |p sh g r Hp|p sh g r Hp Hr|p sh g n Hp Hn|n j Hn Hj|p sh n Hp Hn]; cbn in Hg |- *; try done;
    try (elem_inv Hp; discriminate Hg).
  subst g. apply assoc_elem in Ha. elem_inv Ha; try discriminate; unfold counterNames, usageNames; cbn; in_list.
Qed.

Lemma counterGate_inv B p u c w s :
  (PKind p = KindBG -> B (PName p)) -> Shape (KWKey w) ∈ counterNames ->
  counters_inv B s -> counters_inv B (snd (counterGate clock p u c w s)).
Proof.
  intros HB Hsh HI. unfold counterGate. destruct (HasPrefix (Shape (KWKey w)) "next") eqn:En; [repeat case_match; done|].
  destruct (Shape (KWKey w) =s "lastCleanupSessions") eqn:El; [repeat case_match; done|].
  destruct (_ && negb _); [done|]. destruct (counterDelta c) as [n|]; [|done].
  match goal with |- context [if ?b then refuse _ else _] => destruct b eqn:E2 end; [done|].
  apply orb_false_iff in E2 as [E2 E3]. apply counterCeiling_inv; [done| | |done].
  - apply eqs_false in El. unfold counterNames, usageNames in Hsh. cbn in Hsh.
    repeat (apply elem_of_cons in Hsh as [Hsh|Hsh]; [rewrite Hsh in *; try done|]). by apply elem_of_nil in Hsh.
  - destruct (Shape (KWKey w) =s "totalInodes"); unfold maxTotalInodesDelta, maxUsedSpaceDelta in *; to_prop; lia.
Qed.

Lemma keyGate_inv B p e w s :
  (PKind p = KindBG -> B (PName p)) -> (KWClass w = KCCounter -> Shape (KWKey w) ∈ counterNames) ->
  counters_inv B s -> counters_inv B (snd (keyGate clock p e w s)).
Proof.
  intros HB Hw HI. destruct (decide (KWClass w = KCCounter)) as [Hc|Hc].
  - unfold keyGate. unfold mbind, SM_bind. cbn. rewrite Hc. destruct (is_admin p); [done|].
    pose proof (counterGate_inv B p (cs_u s) (wcmd (cs_u s) w) w s HB (Hw Hc) HI) as Hg.
    destruct (counterGate clock p (cs_u s) (wcmd (cs_u s) w) w s) as [[[]|e'] s1]; exact Hg.
  - eapply counters_inv_keeps; [|exact HI]. unfold keyGate. apply keeps_bind; [keeps_tac|intros u].
    destruct (KWClass w); try done; unfold sessionGate, sessionSetGate, heartbeatGate; keeps_tac.
Qed.

Lemma snd_bind {A A'} (I : CheckState S T -> Prop) (m : SM (CheckState S T) exc A) (f : A -> SM (CheckState S T) exc A') s :
  I (snd (m s)) -> (forall a s1, m s = (Ok a, s1) -> I s1 -> I (snd (f a s1))) -> I (snd ((m ≫= f) s)).
Proof. unfold mbind, SM_bind. destruct (m s) as [[a|e] s1]; cbn; auto. Qed.

Lemma keeps_VFix_VCtr {A} (m : SM (CheckState S T) exc A) : keeps VFix m -> keeps VCtr m.
Proof. intros Hk s. pose proof (f_equal (fun x => fst (fst (fst x))) (Hk s) : cs_g _ = cs_g _) as E. unfold VCtr. by rewrite E. Qed.

(** Counter class means a counter key, whatever stage reclassified the rest. *)
Lemma stage_counters p u hourly ws w :
  wf_unit u -> Forall2 reclassed ((fun w => mkKeyWrite (KWCmd w) (KWKey w) (KWRaw w)
    (refineClass (set_Writes (resetUnit u) (all_writes 0 (Cmds u))) (is_admin p || is_bg p) hourly w)) <$> all_writes 0 (Cmds u)) ws ->
  w ∈ ws -> KWClass w = KCCounter -> Shape (KWKey w) ∈ counterNames.
Proof.
  intros Hwf Hre Hw Hc. apply list_elem_of_lookup in Hw as [i Hi].
  destruct (Forall2_lookup_r _ _ _ _ _ Hre Hi) as (w2 & H2 & Hk & Hcl).
  rewrite list_lookup_fmap in H2. destruct (all_writes 0 (Cmds u) !! i) as [w1|] eqn:H1; [|done].
  cbn in H2. injection H2 as <-. unfold wkey in Hk. cbn in Hk. injection Hk as Hk1 Hk2 Hk3. rewrite <- Hk2.
  apply list_elem_of_lookup_2 in H1. pose proof (all_writes_wf _ _ _ Hwf H1) as Hpk.
  apply all_writes_elem in H1 as (_ & c & _ & _ & _ & Hb & _). cbn [KWClass] in Hcl.
  destruct Hcl as [Hcl|[_ [Hcl|Hcl]]]; [|congruence..]. rewrite Hc in Hcl.
  match type of Hcl with _ = refineClass ?x ?t ?h ?w => destruct (refineClass_cases x t h w) as [Hrc|[_ Hrc]] end.
  - rewrite Hrc, Hb in Hcl. rewrite Hpk in *. apply parse_counter. clear -Hcl. unfold baseClass in Hcl.
    destruct (Group (ParseKey (KWRaw w1)) =s "counter") eqn:E; [by apply eqs_true|]. repeat case_match; discriminate Hcl.
  - exfalso. rewrite <- Hcl in Hrc. clear -Hrc. elem_inv Hrc.
Qed.

Lemma check_counters_inv B p s :
  wf_unit (cs_u s) -> (PKind p = KindBG -> B (PName p)) -> counters_inv B s -> counters_inv B (snd (Check perm clock p s)).
Proof.
  intros Hwf HB HI. unfold Check. apply snd_bind; [done|]. intros [] s1 E1 HI1. injection E1 as <-.
  apply snd_bind; [done|]. intros u s2 E2 HI2. injection E2 as <- <-.
  apply snd_bind; [apply counters_inv_keeps; [|done]; unfold commandGate; keeps_tac|].
  intros [] s3 E3 HI3. apply commandGates_spec in E3 as [_ ->].
  apply snd_bind; [apply counters_inv_keeps; [|done]; unfold trashStage; keeps_tac|].
  intros [] s4 E4 HI4. apply trashStage_spec in E4 as (hourly & -> & _).
  apply snd_bind; [done|]. intros u s5 E5 HI5. injection E5 as <- <-.
  apply snd_bind; [apply counters_inv_keeps; [|done]; apply keeps_VFix_VCtr; keeps_tac|]. intros e1 s6 E6 HI6.
  apply snd_bind; [apply counters_inv_keeps; [|done]; apply keeps_VFix_VCtr; keeps_tac|]. intros e2 s7 E7 HI7.
  apply snd_bind; [done|]. intros u s8 E8 HI8. injection E8 as <- <-.
  apply ownRecordStage_classes in E6. apply sliceStage_classes in E7. unfold classes_from in *.
  assert (Hre : Forall2 reclassed ((fun w => mkKeyWrite (KWCmd w) (KWKey w) (KWRaw w)
    (refineClass (set_Writes (resetUnit (cs_u s)) (all_writes 0 (Cmds (cs_u s)))) (is_admin p || is_bg p) hourly w)) <$> all_writes 0 (Cmds (cs_u s)))
    (Writes (cs_u s7))) by (etransitivity; [exact E6|exact E7]).
  assert (Hcn : forall w, w ∈ Writes (cs_u s7) -> KWClass w = KCCounter -> Shape (KWKey w) ∈ counterNames)
    by (intros w Hw; by eapply stage_counters).
  clear -HB HI8 Hcn. revert Hcn. generalize (Writes (cs_u s7)). intros ws. revert s7 e2 HI8.
  induction ws as [|w ws IH]; intros s8 e2 HI8 Hcn; [exact HI8|]. cbn [mfold]. apply snd_bind.
  - apply keyGate_inv; [done| |done]. apply Hcn. by left.
  - intros e3 s9 _ HI9. apply IH; [done|]. intros x Hx. apply Hcn. by right.
Qed.

(** The guard's own books stay balanced.  Whatever a unit does, admitted or
    refused, [Check] keeps every rate window of a principal that is not bg
    within the bounds of its counter, and keeps every cached counter, with the
    deltas charged to it since it was read, between the value read and the
    absolute limit; the int64 sums involved wrap nowhere. *)
Theorem check_keeps_counter_bounds B p g u tick :
  wf_unit u -> (PKind p = KindBG -> B (PName p)) -> rate_ok B g -> ctr_ok g -> readers_ok g ->
  let g' := cs_g (snd (Check perm clock p (startCheck g u tick))) in rate_ok B g' /\ ctr_ok g' /\ readers_ok g'.
Proof.
  intros Hwf HB H1 H2 H3. apply (check_counters_inv B p (startCheck g u tick)); [done..|]. by split_and!.
Qed.

(** Counter writes are bounded.  In a unit admitted from a principal other
    than admin, every write of an allocator advances it by a positive amount
    no larger than the batch JuiceFS asks for (nextinode and nextchunk by
    exactly that batch, outside a transaction), the session clean-up mark is
    only set, and a usage counter moves inside a transaction by at most one
    inode or 2^40 bytes. *)
Theorem counter_writes_are_bounded p g u tick eff s' :
  wf_unit u -> PKind p <> KindAdmin -> Check perm clock p (startCheck g u tick) = (Ok eff, s') ->
  forall w, w ∈ Writes (cs_u s') -> Group (KWKey w) = "counter" -> counter_allowed p u (wcmd u w) (Shape (KWKey w)).
Proof.
  intros Hwf Hna Hr w Hw Hgr. apply is_admin_false in Hna.
  destruct (check_each perm clock _ _ _ _ Hr w Hw) as (e1 & e2 & s1 & s2 & Hk & _ & Hc).
  assert (KWClass w = KCCounter) as Hcl.
  { destruct (final_class perm clock p (startCheck g u tick) _ _ w Hwf Hr Hw) as (_ & _ & _ & [Hx|[[[Hx|Hx] _]|[Hx _]]]); [|congruence..].
    unfold baseClass in Hx. rewrite Hgr in Hx. exact Hx. }
  unfold keyGate in Hk. rewrite Hcl in Hk. apply sm_bind_Ok in Hk as (u1 & s3 & Hu & Hk). injection Hu as <- <-.
  rewrite Hna in Hk. apply sm_bind_Ok in Hk as ([] & s3 & Hg & _). apply counterGate_allowed in Hg.
  assert (wcmd (cs_u s1) w = wcmd u w) as Hwc by (unfold wcmd, cmd_at; by rewrite (core_Cmds _ _ Hc)).
  rewrite Hwc in Hg. unfold counter_allowed in *. by rewrite (core_UKind _ _ Hc) in Hg.
Qed.
End counters.

Lemma counter_writes_are_bounded_witness :
  counter_allowed GuardExamples.mac (GuardExamples.unit_of UnitBare [] [["INCRBY"; "nextchunk"; "4096"]])
    (GuardExamples.cmd ["INCRBY"; "nextchunk"; "4096"]) "nextchunk".
Proof.
  apply (counter_writes_are_bounded GuardExamples.order GuardExamples.ticks GuardExamples.mac GuardExamples.g0
    (GuardExamples.unit_of UnitBare [] [["INCRBY"; "nextchunk"; "4096"]]) 0 []
    (snd (GuardExamples.run (GuardExamples.unit_of UnitBare [] [["INCRBY"; "nextchunk"; "4096"]]))))
    with (w := mkKeyWrite 0 (ParseKey "nextchunk") "nextchunk" KCCounter);
    [by repeat constructor|done|vm_compute; reflexivity|vm_compute; left|reflexivity].
Defined.

Definition rate_unit : Unit := GuardExamples.unit_of UnitTxn ["i5"]
  [["SET"; "i5"; "x"]; ["INCRBY"; "usedSpace"; "1099511627776"]; ["INCRBY"; "usedSpace"; "1"]].

Lemma rate_unit_refused :
  (exists d, fst (GuardExamples.run rate_unit) = Err (Denied d)) /\
  rate (cs_g (snd (GuardExamples.run rate_unit))) !! "alice|usedSpace" = Some (mkRW 0 (2^40)).
Proof. split; [eexists|]; vm_compute; reflexivity. Qed.

Lemma check_keeps_counter_bounds_witness :
  rate_ok (fun _ => False)
    (cs_g (snd (Check GuardExamples.order GuardExamples.ticks GuardExamples.mac (startCheck GuardExamples.g0 rate_unit 0)))).
Proof.
  refine (proj1 (check_keeps_counter_bounds GuardExamples.order GuardExamples.ticks (fun _ => False) GuardExamples.mac GuardExamples.g0
    rate_unit 0 _ _ _ _ _)).
  - by repeat constructor.
  - done.
  - intros name key lo hi rw Hl. assert (E : rate GuardExamples.g0 = ∅) by done. by rewrite E, lookup_empty in Hl.
  - intros key cc Hl. cbn in Hl. by rewrite lookup_empty in Hl.
  - intros read db key v Hl. discriminate Hl.
Defined.
