(* ===== verification/GuardTrash.v ===== *)
(** * The trash, panics and Commit

    The one way an ordinary principal may write the trash outside a move:
    creating the hourly directory.  Then the command that panics the guard,
    and what [Commit] leaves in the stores. *)

From S2P Require Import Prelude GoLib GoTime Resp Classify ClassifyFacts Policy Stores Guard GuardScope GuardCheck GuardFrames GuardFacts GuardSlices GuardLedger GuardTheorems GuardState.

(** ** The hourly trash directory *)
Definition isTrashRoot (w : KeyWrite) : bool := (Shape (KWKey w) =s ShapeDentry) && (Ino (KWKey w) =? TrashInode).
Definition writesInode (h : Z) (w : KeyWrite) : bool := HasIno (KWKey w) && (Ino (KWKey w) =? h).

(** The mknod of hourly directory [h]: one entry of the trash root whose name
    is a current hour, one attribute that makes [h] a directory under the
    trash root, [h] freshly allocated for the trash, and the name free. *)
Record hourly_genuine {S T} (g : Guard S T) (u : Unit) (h : Z) : Prop := {
  hg_root : exists w c0 c1 field v hour now,
    List.filter isTrashRoot (Writes u) = [w] /\ Args (wcmd u w) = [c0; c1; field; v] /\
    (cname (wcmd u w) = "HSET" \/ cname (wcmd u w) = "HSETNX") /\
    parseHour field = Some hour /\ entryInode v = Some h /\ entryType v = Some typeDir /\
    redisNow g (DB u) = Ok now /\ now - 7200 < hour <= now + 3600 /\
    exists do, side g = Some do /\
      ((exists r, do (DB u) ["HEXISTS"; "d" +:+ FormatUint TrashInode; field] = Ok r /\ VInt r = 0) \/ watchDirty g u = Ok true);
  hg_attr : exists w c0 c1 v a,
    List.filter (writesInode h) (Writes u) = [w] /\ Args (wcmd u w) = [c0; c1; v] /\ cname (wcmd u w) = "SET" /\
    Shape (KWKey w) = ShapeInode /\ parseAttr v = Some a /\ a_typ a = typeDir /\ a_parent a = TrashInode;
  hg_alloc : TrashAlloc u <> 0 /\ u64 (h - TrashInode) = TrashAlloc u /\ TrashInode < h;
  hg_watch : ("d" +:+ FormatUint TrashInode) ∈ Watched u;
}.

Section trash.
Context {S T : Type} `{SessionStore S} `{SliceStore T}.
Context (perm : forall A : Type, list A -> list A) (clock : nat -> Z).
Implicit Types (s : CheckState S T) (g : Guard S T).

Lemma orRefuse_inv {A} r (x : result ioerr A) a s s' : orRefuse r x s = (Ok a, s') -> x = Ok a /\ s' = s.
Proof. destruct x; intros Hx; [by injection Hx as <- <- | discriminate Hx]. Qed.

(** What one accepted root entry says. *)
Definition root_entry (u : Unit) (w : KeyWrite) (x : string * Z * Z) : Prop :=
  let '(field, hour, h) := x in exists c0 c1 v, Args (wcmd u w) = [c0; c1; field; v] /\
    (cname (wcmd u w) = "HSET" \/ cname (wcmd u w) = "HSETNX") /\
    parseHour field = Some hour /\ entryInode v = Some h /\ entryType v = Some typeDir /\ TrashInode < h.

Lemma hourlyRoot_spec u acc w acc' s s' :
  hourlyRoot u acc w s = (Ok acc', s') ->
  s' = s /\ (if isTrashRoot w then exists x, acc' = (Some x, snd acc + 1) /\ root_entry u w x else acc' = acc).
Proof.
  unfold hourlyRoot, isTrashRoot. rewrite <- negb_andb. destruct (_ && _); cbn [negb]; intros Hr; [|by injection Hr as <- <-].
  destruct (Args (wcmd u w)) as [|c0 [|c1 [|field [|v [|]]]]] eqn:Ea; try discriminate Hr.
  destruct (negb (cname (wcmd u w) =s "HSET") && negb (cname (wcmd u w) =s "HSETNX")) eqn:En; [discriminate Hr|].
  destruct (parseHour field) as [hour|] eqn:Eh; [|discriminate Hr].
  destruct (entryInode v) as [h|] eqn:Ei; [|discriminate Hr].
  destruct (negb (bool_decide (entryType v = Some typeDir)) || (h <=? TrashInode)) eqn:Et; [discriminate Hr|].
  injection Hr as <- <-. split; [done|]. exists (field, hour, h). split; [done|]. exists c0, c1, v.
  apply orb_false_iff in Et as [Et El]. apply negb_false_iff, bool_decide_eq_true in Et. apply Z.leb_gt in El.
  apply andb_false_iff in En. rewrite !negb_false_iff, !eqs_true in En. by split_and!.
Qed.

Lemma hourlyRoots_spec u ws found n s s' :
  mfold (hourlyRoot u) (None, 0) ws s = (Ok (found, n), s') ->
  s' = s /\ n = Z.of_nat (length (List.filter isTrashRoot ws)) /\
  (forall x, found = Some x -> exists w, w ∈ List.filter isTrashRoot ws /\ root_entry u w x).
Proof.
  intros Hr. pose (Q := fun d (acc : option (string * Z * Z) * Z) s2 => s2 = s /\ snd acc = Z.of_nat (length (List.filter isTrashRoot d)) /\
    forall x, fst acc = Some x -> exists w, w ∈ List.filter isTrashRoot d /\ root_entry u w x).
  enough (Q ws (found, n) s') as HQ by exact HQ.
  refine (wp_run _ (fun a s2 => Q ws a s2) (fun _ _ => True) _ _ _ _ Hr). apply (wp_mfold Q); [by split_and!| |done].
  intros d w t acc s2 _ (-> & Hn & Hf). unfold wp. destruct (hourlyRoot u acc w s) as [[acc'|] s3] eqn:E; [|done].
  apply hourlyRoot_spec in E as [-> E]. unfold Q. rewrite List.filter_app. cbn. destruct (isTrashRoot w).
  - destruct E as (x & -> & Hx). split; [done|]. rewrite length_app. cbn. split; [rewrite Hn; lia|].
    intros y [= <-]. exists w. split; [|done]. apply elem_of_app. right. by apply list_elem_of_singleton.
  - subst acc'. by rewrite app_nil_r.
Qed.

Definition attr_entry (u : Unit) (w : KeyWrite) : Prop := exists c0 c1 v a,
  Args (wcmd u w) = [c0; c1; v] /\ cname (wcmd u w) = "SET" /\ Shape (KWKey w) = ShapeInode /\
  parseAttr v = Some a /\ a_typ a = typeDir /\ a_parent a = TrashInode.

Lemma hourlyAttr_spec u h n w n' s s' :
  hourlyAttr u h n w s = (Ok n', s') ->
  s' = s /\ (if writesInode h w then n' = n + 1 /\ attr_entry u w else n' = n).
Proof.
  unfold hourlyAttr, writesInode. rewrite <- negb_andb. destruct (_ && _); cbn [negb]; intros Hr; [|by injection Hr as <- <-].
  destruct (Args (wcmd u w)) as [|c0 [|c1 [|v [|]]]] eqn:Ea; try discriminate Hr.
  destruct (negb (Shape (KWKey w) =s ShapeInode) || negb (cname (wcmd u w) =s "SET")) eqn:En; [discriminate Hr|].
  destruct (parseAttr v) as [a|] eqn:Ep; [|discriminate Hr].
  destruct ((a_typ a =? typeDir) && (a_parent a =? TrashInode)) eqn:Et; [|discriminate Hr].
  injection Hr as <- <-. split; [done|]. split; [done|]. exists c0, c1, v, a.
  apply orb_false_iff in En. rewrite !negb_false_iff, !eqs_true in En. to_prop. naive_solver.
Qed.

Lemma hourlyAttrs_spec u h ws n s s' :
  mfold (hourlyAttr u h) 0 ws s = (Ok n, s') ->
  s' = s /\ n = Z.of_nat (length (List.filter (writesInode h) ws)) /\ forall w, w ∈ List.filter (writesInode h) ws -> attr_entry u w.
Proof.
  intros Hr. pose (Q := fun d (n : Z) s2 => s2 = s /\ n = Z.of_nat (length (List.filter (writesInode h) d)) /\
    forall w, w ∈ List.filter (writesInode h) d -> attr_entry u w).
  refine (wp_run _ (fun a s2 => Q ws a s2) (fun _ _ => True) _ _ _ _ Hr).
  apply (wp_mfold Q); [split_and!; try done; by intros ? ?%elem_of_nil| |done].
  intros d w t acc s2 _ (-> & -> & Hf). unfold wp. destruct (hourlyAttr u h _ w s) as [[acc'|] s3] eqn:E; [|done].
  apply hourlyAttr_spec in E as [-> E]. unfold Q. rewrite List.filter_app. cbn. destruct (writesInode h w).
  - destruct E as [-> Hx]. split; [done|]. rewrite length_app. cbn. split; [lia|].
    intros y [Hy|Hy]%elem_of_app; [by apply Hf|]. by apply list_elem_of_singleton in Hy as ->.
  - subst acc'. by rewrite app_nil_r.
Qed.

Lemma length_one {A} (l : list A) : Z.of_nat (length l) = 1 -> exists x, l = [x].
Proof. destruct l as [|x [|]]; cbn; intros; [lia|by exists x|lia]. Qed.

Lemma hourlyTrashCreate_spec s h s' : hourlyTrashCreate s = (Ok h, s') -> hourly_genuine (cs_g s) (cs_u s) h.
Proof.
  unfold hourlyTrashCreate. intros Hr. apply sm_bind_Ok in Hr as (u & s0 & Hu & Hr). injection Hu as <- <-.
  apply sm_bind_Ok in Hr as (g & s0 & Hg & Hr). injection Hg as <- <-.
  apply sm_bind_Ok in Hr as ([found n] & s1 & Hm & Hr). apply hourlyRoots_spec in Hm as (-> & -> & Hf).
  destruct (negb (_ =? 1)) eqn:E1 in Hr; [discriminate Hr|]. apply negb_false_iff, Z.eqb_eq, length_one in E1 as [w1 E1].
  destruct found as [[[field hour] h']|]; [|discriminate Hr]. destruct (Hf _ eq_refl) as (w & Hw & Hre). rewrite E1 in Hw.
  apply list_elem_of_singleton in Hw as ->. destruct Hre as (c0 & c1 & v & Ha & Hn & Hh & Hi & Ht & Hlt).
  destruct ((TrashAlloc (cs_u s) =? 0) || _) eqn:E2 in Hr; [discriminate Hr|]. apply orb_false_iff in E2 as [E2 E3].
  apply Z.eqb_neq in E2. apply negb_false_iff, Z.eqb_eq in E3.
  apply sm_bind_Ok in Hr as (n & s1 & Hm & Hr). apply hourlyAttrs_spec in Hm as (-> & -> & Hat).
  destruct (negb (_ =? 1)) eqn:E4 in Hr; [discriminate Hr|]. apply negb_false_iff, Z.eqb_eq, length_one in E4 as [w2 E4].
  destruct (Hat w2) as (d0 & d1 & dv & a & Hb); [rewrite E4; by apply list_elem_of_singleton|].
  apply sm_bind_Ok in Hr as (now & s1 & Hm & Hr). apply orRefuse_inv in Hm as [Hnow ->].
  destruct (negb (now - 3600 <? hour + 3600) || (now + 3600 <? hour)) eqn:E5; [discriminate Hr|].
  apply orb_false_iff in E5 as [E5 E6]. apply negb_false_iff, Z.ltb_lt in E5. apply Z.ltb_ge in E6.
  destruct (beforeSide (cs_u s)) as [before|]; [|discriminate Hr]. destruct (side (cs_g s)) as [do|] eqn:Eside; [|discriminate Hr].
  destruct (negb (bool_decide _)) eqn:E7 in Hr; [discriminate Hr|]. apply negb_false_iff, bool_decide_eq_true in E7.
  apply sm_bind_Ok in Hr as ([] & s1 & Hm & Hr). apply orRefuse_inv in Hm as [_ ->].
  apply sm_bind_Ok in Hr as (r & s1 & Hm & Hr). apply orRefuse_inv in Hm as [Hex ->].
  destruct (_ || _) in Hr; [discriminate Hr|].
  assert (h = h' /\ (VInt r = 0 \/ watchDirty (cs_g s) (cs_u s) = Ok true)) as [-> Hfree].
  { destruct (VInt r =? 0) eqn:Ev; [injection Hr as <- _; apply Z.eqb_eq in Ev; auto|].
    destruct (watchDirty (cs_g s) (cs_u s)) as [[]|]; [injection Hr as <- _; auto|discriminate Hr..]. }
  constructor; [| |done|done].
  - exists w1, c0, c1, field, v, hour, now. split_and!; try done; [lia|]. exists do. split; [done|]. destruct Hfree; eauto.
  - exists w2, d0, d1, dv, a. tauto.
Qed.

(** Writing the trash.  In a transaction admitted from a principal other
    than admin and bg that touches no entry outside the trash, every write of
    a trash inode or entry belongs to the genuine creation of one hourly
    directory: it writes the trash root or that directory's own attribute. *)
Theorem trash_writes_are_genuine p g u tick eff s' :
  wf_unit u -> PKind p <> KindAdmin -> PKind p <> KindBG -> UKind u = UnitTxn -> nonTrashDentry (with_writes u) = false ->
  Check perm clock p (startCheck g u tick) = (Ok eff, s') ->
  forall w, w ∈ all_writes 0 (Cmds u) -> Trash (KWKey w) = true -> Group (KWKey w) = "inode" \/ Group (KWKey w) = "dentry" ->
  exists h, hourly_genuine g (with_writes u) h /\
    ((Shape (KWKey w) = ShapeDentry /\ Ino (KWKey w) = TrashInode) \/ (Shape (KWKey w) = ShapeInode /\ Ino (KWKey w) = h)).
Proof.
  intros Hwf Hna Hnb Hk Hnt Hr w Hw Htr Hgr.
  apply check_stages in Hr as (_ & Hcore & _ & Hcls & hourly & Hh & Hre). cbn [startCheck cs_u] in *.
  set (v := set_Writes (resetUnit u) (all_writes 0 (Cmds u))) in *.
  assert (Hv : nonTrashDentry v = false) by exact Hnt.
  assert (Hcl : refineClass v (is_admin p || is_bg p) hourly w <> KCBG).
  { intros Hbg. apply list_elem_of_lookup in Hw as [i Hi].
    assert (Hi2 : ((fun w => mkKeyWrite (KWCmd w) (KWKey w) (KWRaw w) (refineClass v (is_admin p || is_bg p) hourly w))
      <$> all_writes 0 (Cmds u)) !! i = Some (mkKeyWrite (KWCmd w) (KWKey w) (KWRaw w) KCBG)) by (rewrite list_lookup_fmap, Hi; cbn; by rewrite Hbg).
    destruct (Forall2_lookup_l _ _ _ _ _ Hre Hi2) as (w' & Hw' & _ & Hc'). cbn [KWClass KWKey] in Hc'.
    rewrite Forall_forall in Hcls. apply list_elem_of_lookup_2 in Hw'. specialize (Hcls w' Hw'). unfold class_allowed in Hcls.
    destruct Hc' as [Hc'|[[Hc'|[Hc'|Hc']] _]].
    - rewrite Hc' in Hcls. tauto.
    - destruct Hgr; congruence.
    - pose proof (all_writes_wf _ _ _ Hwf (list_elem_of_lookup_2 _ _ _ Hi)) as Hpk. rewrite Hpk in *.
      rewrite (parse_shape_gc (KWRaw w)) in Hgr by tauto. destruct Hgr; done.
    - pose proof (all_writes_wf _ _ _ Hwf (list_elem_of_lookup_2 _ _ _ Hi)) as Hpk. rewrite Hpk in *.
      rewrite (parse_shape_gc (KWRaw w)) in Hgr by tauto. destruct Hgr; done. }
  apply is_admin_false in Hna. assert (Hb : is_bg p = false) by (by apply bool_decide_eq_false).
  unfold refineClass in Hcl. rewrite Htr, Hna, Hb, Hv in Hcl. cbn [negb orb andb] in Hcl.
  assert (negb (Group (KWKey w) =s "inode") && negb (Group (KWKey w) =s "dentry") = false) as Eg
    by (destruct Hgr as [-> | ->]; done). rewrite Eg in Hcl.
  assert (UKind v = UnitTxn) as Hkv by exact Hk. rewrite Hkv in Hcl. rewrite bool_decide_false in Hcl by done. cbn [andb] in Hcl.
  match type of Hcl with (if ?b then _ else _) <> _ => destruct b eqn:Eb; [|done] end.
  apply andb_true_iff in Eb as [E0 Eb]. apply negb_true_iff, Z.eqb_neq in E0. exists hourly. split.
  - specialize (Hh E0). match type of Hh with fst (hourlyTrashCreate ?st) = _ => destruct (hourlyTrashCreate st) as [r s2] eqn:E2 end.
    cbn in Hh. subst r. apply hourlyTrashCreate_spec in E2. destruct E2 as [H1 H2 H3 H4]. constructor; assumption.
  - apply orb_true_iff in Eb as [Eb|Eb]; apply andb_true_iff in Eb as [Ea Eb]; apply eqs_true in Ea; apply Z.eqb_eq in Eb; auto.
Qed.
End trash.

Definition trash_side (db : Z) (args : list string) : result ioerr Value :=
  match args with
  | ["TIME"] => Ok (mkValue "*" "" 0 [mkValue "$" "1709211700" 0 [] false; mkValue "$" "0" 0 [] false] false)
  | "HEXISTS" :: _ => Ok (mkValue ":" "" 0 [] false)
  | _ => Err IOErr
  end.
Definition trash_guard : GuardExamples.guard :=
  mkGuard ∅ MemSliceStore.empty None None (Some trash_side) ∅ ∅ ∅ ∅ ∅.
Definition trash_unit : Unit :=
  let root := "d" +:+ FormatUint TrashInode in
  let h := TrashInode + 1 in
  mkUnit UnitTxn 0 (map GuardExamples.cmd
    [["HSET"; root; "2024-02-29-13"; GuardExamples.entry 2 h]; ["SET"; "i" +:+ FormatUint h; GuardExamples.attr 2 TrashInode]])
    [root] [] [] [] None 1 None None 0 (Some (Ok tt)) None ModeEnforce 1 "" false.

Lemma trash_writes_are_genuine_witness :
  exists w h, w ∈ all_writes 0 (Cmds trash_unit) /\ Ino (KWKey w) = TrashInode + 1 /\ hourly_genuine trash_guard (with_writes trash_unit) h.
Proof.
  destruct (trash_writes_are_genuine GuardExamples.order GuardExamples.ticks GuardExamples.mac trash_guard trash_unit 0 []
    (snd (Check GuardExamples.order GuardExamples.ticks GuardExamples.mac (startCheck trash_guard trash_unit 0))))
    with (w := mkKeyWrite 1 (ParseKey ("i" +:+ FormatUint (TrashInode + 1))) ("i" +:+ FormatUint (TrashInode + 1)) KCProject) as (h & Hg & _);
    [by repeat constructor|done|done|done|by vm_compute|vm_compute; reflexivity|vm_compute; right; left|by vm_compute|left; by vm_compute|].
  eexists _, h. split; [|split; [|exact Hg]]; [vm_compute; right; left|vm_compute; reflexivity].
Defined.
