(* ===== verification/GuardCommit.v ===== *)
(** * Panics and Commit

    The command that panics the guard, and what [Commit] leaves in the stores:
    a slice linked for the first time can never be linked for free again. *)

From S2P Require Import Prelude GoLib GoTime Resp Classify ClassifyFacts Policy Stores Guard GuardScope GuardCheck GuardFrames GuardFacts GuardSlices GuardLedger GuardTheorems.

Section panics.
Context {S T : Type} `{SessionStore S} `{SliceStore T}.
Context (perm : forall A : Type, list A -> list A) (clock : nat -> Z).

(** COPY with fewer than three arguments panics the guard: [hasDBOption]
    slices the arguments from index 3 before anything checked their number.
    Any principal other than admin can send it. *)
Theorem short_copy_panics p (g : Guard S T) u c rest tick :
  PKind p <> KindAdmin -> Cmds u = c :: rest -> CClass (Info c) = ClassWrite -> cname c = "COPY" ->
  (length (Args c) < 3)%nat -> fst (Check perm clock p (startCheck g u tick)) = Err Panic.
Proof.
  intros Hna Hc Hcl Hn Hl. apply is_admin_false in Hna. unfold Check, mbind, SM_bind. cbn.
  rewrite Hc. cbn [mfori]. unfold mbind, SM_bind, commandGate. rewrite Hcl, Hn, Hna. cbn.
  unfold hasDBOption, args_from. destruct (Nat.leb_spec 3 (length (Args c))) as [Hx|_]; [lia|done].
Qed.
End panics.

Lemma short_copy_panics_witness :
  fst (GuardExamples.run (GuardExamples.unit_of UnitBare [] [["copy"; "i5"]])) = Err Panic.
Proof.
  apply (short_copy_panics GuardExamples.order GuardExamples.ticks GuardExamples.mac GuardExamples.g0
    (GuardExamples.unit_of UnitBare [] [["copy"; "i5"]]) (GuardExamples.cmd ["copy"; "i5"]) [] 0);
    [done|reflexivity|reflexivity|reflexivity|apply Nat.ltb_lt; vm_compute; reflexivity].
Defined.

(** ** Commit *)
Section commit.
Context {S T : Type} `{SessionStoreLaws S} `{SliceStoreLaws T}.
Implicit Types (g : Guard S T).

Lemma commitMem_stores g e : sessions (commitMem g e) = sessions g /\ slices (commitMem g e) = slices g.
Proof. unfold commitMem, commitDel, commitZero. repeat case_match; done. Qed.

Lemma commitMems_stores effects g :
  sessions (foldl commitMem g effects) = sessions g /\ slices (foldl commitMem g effects) = slices g.
Proof.
  revert g. induction effects as [|e effects IH]; intros g; [done|]. cbn. destruct (IH (commitMem g e)) as [-> ->]. apply commitMem_stores.
Qed.

(** Marking never fails in this store. *)
Definition marks_ok : Prop := forall (t : T) ids b, fst (sliceMarkUsed t ids b) = Ok tt.

Lemma commitUsed_spec g e id :
  marks_ok -> sessions (commitUsed g e) = sessions g /\ idOwner (slices (commitUsed g e)) id = idOwner (slices g) id /\
  sliceUsed (slices (commitUsed g e)) id = if decide (id ∈ effUsed e) then Ok true else sliceUsed (slices g) id.
Proof.
  intros Hm. unfold commitUsed. destruct (effUsed e) as [|x ids] eqn:E; [by rewrite decide_False by apply not_elem_of_nil|].
  split; [done|]. cbn [set_slices slices]. destruct (sliceMarkUsed (slices g) (x :: ids) (usedPersist e)) as [r t] eqn:Em. cbn [snd].
  specialize (Hm (slices g) (x :: ids) (usedPersist e)). rewrite Em in Hm. cbn in Hm. subst r.
  split; [by eapply mark_owner|]. destruct (decide (id ∈ x :: ids)); [by eapply mark_used|by eapply mark_frame].
Qed.

Lemma commitUseds_spec effects g id :
  marks_ok -> sessions (foldl commitUsed g effects) = sessions g /\
  idOwner (slices (foldl commitUsed g effects)) id = idOwner (slices g) id /\
  sliceUsed (slices (foldl commitUsed g effects)) id =
    if decide (id ∈ mjoin (effUsed <$> effects)) then Ok true else sliceUsed (slices g) id.
Proof.
  intros Hm. revert g. induction effects as [|e effects IH]; intros g; [by rewrite decide_False by apply not_elem_of_nil|].
  cbn. destruct (IH (commitUsed g e)) as (-> & -> & ->). destruct (commitUsed_spec g e id Hm) as (-> & -> & ->). split_and!; try done.
  change (mjoin (effUsed e :: (effUsed <$> effects))) with (effUsed e ++ mjoin (effUsed <$> effects)).
  repeat case_decide; try done; rewrite ?elem_of_app in *; tauto.
Qed.

(** What Commit leaves behind.  The slices the effects mark are used from
    then on and keep their owner, so no principal can link them for free
    again; every other slice is as it was.  When the session store accepts the
    release, the released sessions have no owner and every other session keeps
    its own. *)
Theorem commit_settles_stores g effects :
  marks_ok ->
  let g' := Commit effects g in
  (forall id, idOwner (slices g') id = idOwner (slices g) id /\
     sliceUsed (slices g') id = if decide (id ∈ mjoin (effUsed <$> effects)) then Ok true else sliceUsed (slices g) id) /\
  (forall p id, id ∈ mjoin (effUsed <$> effects) -> ~ linkable g' p id) /\
  (forall sid, sid ∉ mjoin (release <$> effects) -> sessOwner (sessions g') sid = sessOwner (sessions g) sid) /\
  (fst (sessRelease (sessions g) (mjoin (release <$> effects))) = Ok tt ->
   forall sid, sid ∈ mjoin (release <$> effects) -> sessOwner (sessions g') sid = Ok None).
Proof.
  intros Hm g'. assert (Hsl : forall id, idOwner (slices g') id = idOwner (slices g) id /\
     sliceUsed (slices g') id = if decide (id ∈ mjoin (effUsed <$> effects)) then Ok true else sliceUsed (slices g) id).
  { intros id. subst g'. unfold Commit. destruct effects as [|e0 es]; [by rewrite decide_False by apply not_elem_of_nil|].
    set (effects := e0 :: es). set (g1 := if 100000 <? Z.of_nat (size (zeroRefs g)) then set_zeroRefs g ∅ else g).
    assert (slices g1 = slices g) as E1 by (subst g1; by case_match).
    pose proof (commitUseds_spec effects (foldl commitMem g1 effects) id Hm) as (_ & H1' & H2').
    destruct (commitMems_stores effects g1) as [_ Hs]. rewrite Hs, E1 in H1', H2'.
    destruct (mjoin (release <$> effects)); cbn; done. }
  split; [exact Hsl|]. split.
  - intros p id Hid [_ Hu]. destruct (Hsl id) as [_ E]. rewrite decide_True in E by done. congruence.
  - assert (Hse : sessions g' = match mjoin (release <$> effects) with [] => sessions g | rel => snd (sessRelease (sessions g) rel) end).
    { subst g'. unfold Commit. destruct effects as [|e0 es]; [done|].
      set (effects := e0 :: es). set (g1 := if 100000 <? Z.of_nat (size (zeroRefs g)) then set_zeroRefs g ∅ else g).
      assert (sessions g1 = sessions g) as E1 by (subst g1; by case_match).
      pose proof (commitUseds_spec effects (foldl commitMem g1 effects) 0 Hm) as (Hs & _).
      destruct (commitMems_stores effects g1) as [Hs' _]. rewrite Hs', E1 in Hs.
      destruct (mjoin (release <$> effects)); cbn [sessions set_sessions]; [done|]. by rewrite Hs. }
    rewrite Hse. destruct (mjoin (release <$> effects)) as [|x rel] eqn:Er; [split; [done|]; by intros _ sid ?%elem_of_nil|].
    destruct (sessRelease (sessions g) (x :: rel)) as [r s'] eqn:Es. split.
    + intros sid Hn. cbn. by eapply release_frame.
    + cbn. intros -> sid Hin. by eapply release_gone.
Qed.
End commit.

Lemma commit_settles_stores_witness :
  let g' := Commit [effUse [7] false; effRelease [3]] GuardExamples.g0 in
  ~ linkable g' GuardExamples.mac 7 /\ sessOwner (sessions g') 3 = Ok None.
Proof.
  destruct (commit_settles_stores GuardExamples.g0 [effUse [7] false; effRelease [3]]) as (_ & H1 & _ & H2); [done|]. split.
  - apply H1. vm_compute. left.
  - apply H2; [reflexivity|]. vm_compute. left.
Defined.
