(* ===== verification/TxnUnit.v ===== *)
(** * The facts of a unit (internal/respproxy/txnunit.go)

    [analyzeUnit] turns the project writes of a unit into dentry operations,
    written inodes, stored attributes and accounting rows, without reading
    Redis.  A command with a key has at least two arguments, so the slices
    [args[2:]] of the source are [drop 2]. *)

From S2P Require Import Prelude GoLib Resp Classify Policy Guard GuardCheck.

(** A dentry placement a unit writes. *)
Record unitEdge : Type := mkEdge { e_parent : Z; e_child : Z; e_isDir : bool; e_name : string }.

(** One field write on a d<dir> hash. *)
Record dentryOp : Type := mkOp {
  o_dir : Z; o_name : string; o_del : bool; o_val : string; o_ino : Z; o_typ : Z; o_isDir : bool; o_trash : bool;
}.

(** One field of a volume-wide accounting hash. *)
Record statRow : Type := mkRow { r_hash : string; r_dir : Z; r_op : string; r_val : string }.

Definition quotaUsage (r : statRow) : bool := (r_hash r =s "dirQuotaUsedSpace") || (r_hash r =s "dirQuotaUsedInodes").
Definition gc (r : statRow) : bool := (r_hash r =s "delfiles") || (r_hash r =s "detachedNodes").

Record unitFacts : Type := mkFacts {
  dentries : list dentryOp;
  edges : list unitEdge;
  inodes : list Z;
  why : gmap Z string;
  setAttr : gmap Z attrInfo;
  links : gmap Z (list Z);
  trashKey : string;
  dirStat : list Z;
  quota : list Z;
  statRows : list statRow;
  topology : bool;
  unresolvable : list string;
  ftouched : list Z;
}.
Definition noFacts : unitFacts := mkFacts [] [] [] ∅ ∅ ∅ "" [] [] [] false [] [].

(** [args[i], args[i+1]] for i = 0, 2, ... while both exist. *)
Fixpoint pairs {A} (l : list A) : list (A * A) :=
  match l with
  | x :: y :: l' => (x, y) :: pairs l'
  | _ => []
  end.

(** The inode of a field: the digits before the first ':' after the start. *)
Definition fieldIno (b : string) : option Z :=
  digits (match IndexByte b ":" with Some (Datatypes.S _ as i) => stake i b | _ => b end).

(** A logged value, cut at 64 bytes. *)
Definition rowVal (b : string) : string := if 64 <? slen b then stake 64 b +:+ "..." else b.

Definition addRow (key : KeyRef) (op : string) (bv : string * string) : option statRow :=
  n ← fieldIno (fst bv); Some (mkRow (Shape key) n op (snd bv)).

Definition isCleanup (key : KeyRef) : bool := (Shape key =s "delfiles") || (Shape key =s "detachedNodes").
Definition isStat (key : KeyRef) : bool := (Group key =s "dirstat") || (Group key =s "quota").

(** The value an HSET loop pairs with each field: "" for a trailing one. *)
Fixpoint fieldVals (l : list string) : list (string * string) :=
  match l with
  | [] => []
  | [x] => [(x, "")]
  | x :: y :: l' => (x, rowVal y) :: fieldVals l'
  end.

Definition statRowsOf (name : string) (key : KeyRef) (args : list string) : list statRow :=
  if isStat key then
    if bool_decide (name ∈ ["HINCRBY"; "HINCRBYFLOAT"; "HSETNX"]) then
      let op := if name =s "HSETNX" then "set" else "incr" in
      match drop 2 args with
      | a2 :: a3 :: _ => omap (M := list) (addRow key op) [(a2, rowVal a3)]
      | [a2] => omap (M := list) (addRow key op) [(a2, "")]
      | [] => []
      end
    else if (name =s "HSET") || (name =s "HMSET") then omap (M := list) (addRow key "set") (fieldVals (drop 2 args))
    else if name =s "HDEL" then omap (M := list) (addRow key "del") ((fun a => (a, "")) <$> drop 2 args)
    else []
  else if isCleanup key && (name =s "ZADD") then omap (M := list) (addRow key "add") ((fun a => (a, "")) <$> evens (drop 3 args))
  else if isCleanup key && (name =s "ZREM") then omap (M := list) (addRow key "remove") ((fun a => (a, "")) <$> drop 2 args)
  else [].

Definition unitFieldInodes (name : string) (key : KeyRef) (args : list string) : list Z :=
  let ids := omap (M := list) fieldIno in
  if isStat key && bool_decide (name ∈ ["HINCRBY"; "HINCRBYFLOAT"; "HSET"; "HMSET"; "HDEL"; "HSETNX"]) then
    if bool_decide (name ∈ ["HINCRBY"; "HINCRBYFLOAT"; "HSETNX"]) then ids (take 1 (drop 2 args))
    else if (name =s "HSET") || (name =s "HMSET") then ids (evens (drop 2 args))
    else ids (drop 2 args)
  else if isCleanup key && (name =s "ZADD") then ids (evens (drop 3 args))
  else if isCleanup key && (name =s "ZREM") then ids (drop 2 args)
  else if (Shape key =s ShapeLocked) && ((name =s "SADD") || (name =s "SREM")) then ids (drop 2 args)
  else [].

(** A unit of nothing but dir-stat fields. *)
Definition dirStatOnly (f : unitFacts) : bool :=
  bool_decide (dentries f = []) && bool_decide (inodes f = []) && negb (bool_decide (dirStat f = [])) &&
  bool_decide (unresolvable f = []) && (trashKey f =s "").

(** ** Updates of the facts *)
Definition touch (n : Z) (f : unitFacts) : unitFacts :=
  if decide (n ∈ ftouched f) then f
  else mkFacts (dentries f) (edges f) (inodes f) (why f) (setAttr f) (links f) (trashKey f) (dirStat f) (quota f)
    (statRows f) (topology f) (unresolvable f) (ftouched f ++ [n]).
Definition addInode (n : Z) (reason : string) (f : unitFacts) : unitFacts :=
  let f := touch n f in
  if bool_decide (is_Some (why f !! n)) then f
  else mkFacts (dentries f) (edges f) (inodes f ++ [n]) (<[n := reason]> (why f)) (setAttr f) (links f) (trashKey f)
    (dirStat f) (quota f) (statRows f) (topology f) (unresolvable f) (ftouched f).
Definition addUnresolvable (t : string) (f : unitFacts) : unitFacts :=
  mkFacts (dentries f) (edges f) (inodes f) (why f) (setAttr f) (links f) (trashKey f) (dirStat f) (quota f)
    (statRows f) (topology f) (unresolvable f ++ [t]) (ftouched f).
Definition addDentry (op : dentryOp) (f : unitFacts) : unitFacts :=
  mkFacts (dentries f ++ [op]) (edges f) (inodes f) (why f) (setAttr f) (links f) (trashKey f) (dirStat f) (quota f)
    (statRows f) (topology f) (unresolvable f) (ftouched f).
Definition addEdge (e : unitEdge) (f : unitFacts) : unitFacts :=
  mkFacts (dentries f) (edges f ++ [e]) (inodes f) (why f) (setAttr f) (links f) (trashKey f) (dirStat f) (quota f)
    (statRows f) (topology f) (unresolvable f) (ftouched f).
Definition noteTrashKey (t : string) (f : unitFacts) : unitFacts :=
  if trashKey f =s "" then
    mkFacts (dentries f) (edges f) (inodes f) (why f) (setAttr f) (links f) t (dirStat f) (quota f)
      (statRows f) (topology f) (unresolvable f) (ftouched f)
  else f.
Definition putAttr (n : Z) (a : attrInfo) (f : unitFacts) : unitFacts :=
  mkFacts (dentries f) (edges f) (inodes f) (why f) (<[n := a]> (setAttr f)) (links f) (trashKey f) (dirStat f) (quota f)
    (statRows f) (topology f) (unresolvable f) (ftouched f).
Definition addLink (n p : Z) (f : unitFacts) : unitFacts :=
  mkFacts (dentries f) (edges f) (inodes f) (why f) (setAttr f) (<[n := default [] (links f !! n) ++ [p]]> (links f)) (trashKey f)
    (dirStat f) (quota f) (statRows f) (topology f) (unresolvable f) (ftouched f).
Definition addStats (ds qs : list Z) (rows : list statRow) (f : unitFacts) : unitFacts :=
  mkFacts (dentries f) (edges f) (inodes f) (why f) (setAttr f) (links f) (trashKey f) (dirStat f ++ ds) (quota f ++ qs)
    (statRows f ++ rows) (topology f) (unresolvable f) (ftouched f).
Definition setStats (ds : list Z) (rows : list statRow) (f : unitFacts) : unitFacts :=
  mkFacts (dentries f) (edges f) (inodes f) (why f) (setAttr f) (links f) (trashKey f) ds (quota f) rows
    (topology f) (unresolvable f) (ftouched f).
Definition setTopology (b : bool) (f : unitFacts) : unitFacts :=
  mkFacts (dentries f) (edges f) (inodes f) (why f) (setAttr f) (links f) (trashKey f) (dirStat f) (quota f)
    (statRows f) b (unresolvable f) (ftouched f).

(** ** analyzeUnit *)

(** The loop state: the facts, the dentry hashes written, and whether a
    directory entry was set outside the trash. *)
Record scan : Type := mkScan { sf : unitFacts; allDentry : gset Z; dirHSetNonTrash : bool }.
Definition onFacts (g : unitFacts -> unitFacts) (s : scan) : scan := mkScan (g (sf s)) (allDentry s) (dirHSetNonTrash s).

(** One field of an HSET on d<dir>. *)
Definition scanEntry (w : KeyWrite) (reason : string) (s : scan) (fv : string * string) : scan :=
  let dir := Ino (KWKey w) in
  match entryInode (snd fv) with
  | None => onFacts (addUnresolvable (reason +:+ ": unparsable entry")) s
  | Some ino =>
      let typ := default 0 (entryType (snd fv)) in
      let isDir := typ =? typeDir in
      let op := mkOp dir (fst fv) false (snd fv) ino typ isDir (Trash (KWKey w)) in
      let s := onFacts (fun f => touch ino (addEdge (mkEdge dir ino isDir (fst fv)) (addDentry op f))) s in
      mkScan (sf s) (allDentry s) (dirHSetNonTrash s || (isDir && negb (Trash (KWKey w))))
  end.

Definition scanDentry (c : Cmd) (w : KeyWrite) (reason : string) (s : scan) : scan :=
  let dir := Ino (KWKey w) in
  let s := mkScan (touch dir (sf s)) ({[dir]} ∪ allDentry s) (dirHSetNonTrash s) in
  if isHSet (cname c) then foldl (scanEntry w reason) s (pairs (drop 2 (Args c)))
  else if cname c =s "HDEL" then
    onFacts (fun f => foldl (fun f fld => addDentry (mkOp dir fld true "" 0 0 false (Trash (KWKey w))) f) f (drop 2 (Args c))) s
  else onFacts (addUnresolvable reason) s.

Definition scanInode (c : Cmd) (w : KeyWrite) (reason : string) (f : unitFacts) : unitFacts :=
  let n := Ino (KWKey w) in
  if Trash (KWKey w) then noteTrashKey reason f
  else
    let f := addInode n reason f in
    let f := match Args c !! 2%nat with
             | Some v =>
                 if (Shape (KWKey w) =s ShapeInode) && ((cname c =s "SET") || (cname c =s "SETNX")) then
                   match parseAttr v with
                   | Some a => putAttr n a f
                   | None => addUnresolvable (reason +:+ ": unparsable attr") f
                   end
                 else f
             | None => f
             end in
    match Args c !! 2%nat with
    | Some v => if Shape (KWKey w) =s ShapeParent then
                  match digits v with Some p => touch p (addLink n p f) | None => f end
                else f
    | None => f
    end.

(** An inode a cleanup record names. *)
Definition scanRef (reason : string) (f : unitFacts) (n : Z) : unitFacts :=
  if isTrashIno n then noteTrashKey reason f else addInode n reason f.

Definition scanWrite (u : Unit) (s : scan) (w : KeyWrite) : scan :=
  let c := wcmd u w in
  let reason := cname c +:+ " " +:+ KWRaw w in
  let g := Group (KWKey w) in
  if g =s "dentry" then scanDentry c w reason s
  else if g =s "inode" then onFacts (scanInode c w reason) s
  else if (g =s "dirstat") || (g =s "quota") then
    let ns := unitFieldInodes (cname c) (KWKey w) (Args c) in
    onFacts (addStats ns (if g =s "quota" then ns else []) (statRowsOf (cname c) (KWKey w) (Args c))) s
  else if g =s "gc" then
    onFacts (fun f => foldl (scanRef reason) (addStats [] [] (statRowsOf (cname c) (KWKey w) (Args c)) f)
                        (unitFieldInodes (cname c) (KWKey w) (Args c))) s
  else onFacts (addUnresolvable reason) s.

Definition refInodes (u : Unit) : list Z := RefInodes u.

Definition refReason (n : Z) : string :=
  (if isTrashIno n then "cleanup record of trash inode " else "cleanup record references inode ") +:+ FormatUint n.

(** The hourly trash directories this unit creates. *)
Definition createdTrash (u : Unit) : list Z :=
  mjoin ((fun w =>
    if bool_decide (KWClass w <> KCTrashCreate) || negb (Shape (KWKey w) =s ShapeDentry) || negb (isHSet (cname (wcmd u w))) then []
    else omap (M := list) entryInode (evens (drop 3 (Args (wcmd u w))))) <$> Writes u).

Definition analyzeUnit (u : Unit) : unitFacts :=
  let s := foldl (scanWrite u) (mkScan noFacts ∅ false) (Project u) in
  let f := foldl (fun f n => scanRef (refReason n) f n) (sf s) (refInodes u) in
  let f := setTopology (dirHSetNonTrash s && Nat.leb 2 (size (allDentry s))) f in
  let f :=
    match statRows f with
    | [] => f
    | _ =>
        let created := createdTrash u in
        setStats (List.filter (fun d => negb (isTrashIno d && bool_decide (d ∈ created))) (dirStat f))
                 (List.filter (fun r => gc r || negb (isTrashIno (r_dir r) && bool_decide (r_dir r ∈ created))) (statRows f)) f
    end in
  match dentries f, inodes f with
  | [], [] => f
  | _, _ => setStats [] (statRows f) f
  end.
