(* ===== verification/Ancestry.v ===== *)
(** * Directories and their namespaces (internal/respproxy/ancestry.go, projcache.go)

    The proxy's view of the tree: the parent of every directory it knows, a
    bounded cache of file parents, a memo of directory locations with a
    generation, and the tombstones that order cache fills against commits.
    Operations are state-passing over [ancestry]; [side] answers the side
    reads.  The counters kept for statistics are left out. *)

From S2P Require Import Prelude GoLib Resp Classify Policy Guard GuardCheck TxnUnit.

(** ** Locations (projcache.go) *)
Inductive nsKind : Type := nsUnknown | nsRoot | nsProject | nsTrash | nsDerivatives.
#[export] Instance nsKind_eq_dec : EqDecision nsKind.
Proof. solve_decision. Defined.

Record location : Type := mkLoc { l_kind : nsKind; l_proj : Z; l_depth : Z; l_dir : Z }.
#[export] Instance location_eq_dec : EqDecision location.
Proof. solve_decision. Defined.

Definition trashLoc : location := mkLoc nsTrash 0 (-1) 0.

Record memoEnt : Type := mkMemo { m_loc : location; m_gen : Z }.

Definition memoMax : Z := 2 * 2^20.

Record projCache : Type := mkCache { gen : Z; m : gmap Z memoEnt }.
Definition newProjCache : projCache := mkCache 0 ∅.
Definition generation (c : projCache) : Z := gen c.
Definition memo_get (c : projCache) (dir : Z) : option location :=
  match m c !! dir with
  | Some e => if m_gen e =? gen c then Some (m_loc e) else None
  | None => None
  end.
Definition memo_put (c : projCache) (dir : Z) (loc : location) (g : Z) : projCache :=
  if negb (g =? gen c) then c
  else
    let m0 := if memoMax <=? Z.of_nat (size (m c)) then ∅ else m c in
    mkCache (gen c) (<[dir := mkMemo loc g]> m0).
Definition bump (c : projCache) : projCache := mkCache (u64 (gen c + 1)) ∅.

(** ** The file cache *)
Record fileLRU : Type := mkLRU { cap : Z; cur : gmap Z Z; old : gmap Z Z }.
Definition newFileLRU (capacity : Z) : fileLRU := mkLRU (if capacity <? 2 then 2 else capacity) ∅ ∅.
Definition putLocked (l : fileLRU) (n p : Z) : fileLRU :=
  if Z.quot (cap l) 2 <=? Z.of_nat (size (cur l)) then mkLRU (cap l) {[n := p]} (cur l)
  else mkLRU (cap l) (<[n := p]> (cur l)) (old l).
Definition lru_get (l : fileLRU) (n : Z) : option Z * fileLRU :=
  match cur l !! n with
  | Some p => (Some p, l)
  | None => match old l !! n with
            | Some p => (Some p, putLocked l n p)
            | None => (None, l)
            end
  end.
Definition lru_del (n : Z) (l : fileLRU) : fileLRU := mkLRU (cap l) (delete n (cur l)) (delete n (old l)).
Definition lru_len (l : fileLRU) : Z := Z.of_nat (size (cur l)) + Z.of_nat (size (old l)).

(** ** Tombstones *)
Record tombstones : Type := mkTomb { seq : Z; floor : Z; tm : gmap Z Z }.
Definition tombMax : Z := 2^18.
Definition tomb_now (t : tombstones) : Z := seq t.
Definition kill (ns : list Z) (t : tombstones) : tombstones :=
  match ns with
  | [] => t
  | _ =>
      let s := u64 (seq t + 1) in
      let drop := tombMax <? Z.of_nat (size (tm t)) + Z.of_nat (length ns) in
      mkTomb s (if drop then s else floor t) (foldl (fun m n => <[n := s]> m) (if drop then ∅ else tm t) ns)
  end.
Definition fresh (t : tombstones) (n start : Z) : bool :=
  if start <? floor t then false else default 0 (tm t !! n) <=? start.

(** ** The state *)
Definition rootIno : Z := 1.

Record ancestry : Type := mkAnc {
  db : Z; depth : Z;
  dirParent : gmap Z Z;
  names : gmap Z string;
  jmDir : Z; derivRoot : Z;
  files : fileLRU;
  memo : projCache;
  tomb : tombstones;
}.
Definition newAncestry (d dep fileCap : Z) : ancestry :=
  mkAnc d (if dep <? 1 then 2 else dep) {[rootIno := rootIno]} {[rootIno := "/"]} 0 0
    (newFileLRU fileCap) newProjCache (mkTomb 0 0 ∅).
Definition set_dirParent (x : gmap Z Z) (a : ancestry) : ancestry :=
  mkAnc (db a) (depth a) x (names a) (jmDir a) (derivRoot a) (files a) (memo a) (tomb a).
Definition set_files (x : fileLRU) (a : ancestry) : ancestry :=
  mkAnc (db a) (depth a) (dirParent a) (names a) (jmDir a) (derivRoot a) x (memo a) (tomb a).
Definition set_memo (x : projCache) (a : ancestry) : ancestry :=
  mkAnc (db a) (depth a) (dirParent a) (names a) (jmDir a) (derivRoot a) (files a) x (tomb a).
Definition set_tomb (x : tombstones) (a : ancestry) : ancestry :=
  mkAnc (db a) (depth a) (dirParent a) (names a) (jmDir a) (derivRoot a) (files a) (memo a) x.
Definition set_names (x : gmap Z string) (a : ancestry) : ancestry :=
  mkAnc (db a) (depth a) (dirParent a) x (jmDir a) (derivRoot a) (files a) (memo a) (tomb a).
Definition set_jmDir (x : Z) (a : ancestry) : ancestry :=
  mkAnc (db a) (depth a) (dirParent a) (names a) x (derivRoot a) (files a) (memo a) (tomb a).
Definition set_derivRoot (x : Z) (a : ancestry) : ancestry :=
  mkAnc (db a) (depth a) (dirParent a) (names a) (jmDir a) x (files a) (memo a) (tomb a).

Definition cacheDir (d parent start : Z) (a : ancestry) : ancestry :=
  if fresh (tomb a) d start && negb (bool_decide (is_Some (dirParent a !! d)))
  then set_dirParent (<[d := parent]> (dirParent a)) a else a.
Definition cacheFile (n parent start : Z) (a : ancestry) : ancestry :=
  if fresh (tomb a) n start then set_files (putLocked (files a) n parent) a else a.

Definition isDerivRoot (a : ancestry) (d : Z) : bool := negb (derivRoot a =? 0) && (d =? derivRoot a).
Definition projectLoc (a : ancestry) (root dep : Z) : location :=
  mkLoc (if isDerivRoot a root then nsDerivatives else nsProject) root dep 0.
Definition label (a : ancestry) (root : Z) : string := default "" (names a !! root).

Record placement : Type := mkPlacement { p_exists : bool; p_isDir : bool; p_parent : Z; p_parents : list Z }.
Definition noPlacement : placement := mkPlacement false false 0 [].

Section ops.
Context (side : sideDoer).
Abbreviation M := (SM ancestry ioerr).

(** A reply of the side pool, errors included. *)
Definition side_reply (d : Z) (args : list string) : result ioerr Value :=
  v ← side d args;
  if bool_decide (is_Some (ValueErr v)) then Err IOErr else Ok v.

(** GET i<n>; [None]: the key does not exist. *)
Definition getAttr (a : ancestry) (n : Z) : result ioerr (option attrInfo) :=
  v ← side_reply (db a) ["GET"; "i" +:+ FormatUint n];
  if VNull v then Ok None
  else match parseAttr (VStr v) with Some ai => Ok (Some ai) | None => Err IOErr end.

(** HGETALL p<n>: the parents with a positive link count. *)
Definition linkParents (a : ancestry) (n : Z) : result ioerr (list Z) :=
  v ← side_reply (db a) ["HGETALL"; "p" +:+ FormatUint n];
  let out := omap (M := list) (fun fc =>
    p ← digits (VStr (fst fc)); if 0 <? fst (ParseInt (VStr (snd fc))) then Some p else None) (pairs (VElems v)) in
  match out with [] => Err IOErr | _ => Ok out end.

(** HGET d<dir> name; [None]: no such entry. *)
Definition entryAt (a : ancestry) (dir : Z) (name : string) : result ioerr (option (Z * Z)) :=
  v ← side_reply (db a) ["HGET"; "d" +:+ FormatUint dir; name];
  if VNull v then Ok None
  else match entryInode (VStr v), entryType (VStr v) with
       | Some ino, Some typ => Ok (Some (ino, typ))
       | _, _ => Err IOErr
       end.

Definition parentOfDir (d : Z) : M Z :=
  a ← sm_get;
  match dirParent a !! d with
  | Some p => mret p
  | None =>
      let start := tomb_now (tomb a) in
      ai ← sm_lift (getAttr a d);
      match ai with
      | Some ai =>
          if negb (a_typ ai =? typeDir) || (a_parent ai =? 0) then sm_err IOErr
          else sm_modify (cacheDir d (a_parent ai) start) ≫= fun _ => mret (a_parent ai)
      | None => sm_err IOErr
      end
  end.

(** The walk to the root, at most [k] parents up; [chain] is most recent first.
    [None]: the walk left through the trash. *)
Fixpoint walkUp (k : nat) (c : Z) (chain : list Z) : M (option (list Z)) :=
  if c =? rootIno then mret (Some chain)
  else match k with
       | O => sm_err IOErr
       | Datatypes.S k' =>
           p ← parentOfDir c;
           if isTrashIno p then mret None else walkUp k' p (p :: chain)
       end.

Definition maxWalk : nat := Z.to_nat 4096.

Definition putMemo (d : Z) (loc : location) (g : Z) (a : ancestry) : ancestry := set_memo (memo_put (memo a) d loc g) a.

(** Memoise the part of the chain at and below the project root. *)
Definition memoChain (root dep g : Z) (below : list Z) (a : ancestry) : ancestry :=
  foldl (fun a '(i, d) => putMemo d (projectLoc a root (dep - Z.of_nat i)) g a) a (imap pair below).

Definition resolveDir (d : Z) : M location :=
  if isTrashIno d then mret trashLoc
  else if d =? rootIno then mret (mkLoc nsRoot 0 0 rootIno)
  else
    a ← sm_get;
    match memo_get (memo a) d with
    | Some loc => mret loc
    | None =>
        let g := generation (memo a) in
        up ← walkUp maxWalk d [d];
        match up with
        | None => sm_modify (putMemo d trashLoc g) ≫= fun _ => mret trashLoc
        | Some chain =>
            a ← sm_get;
            let dep := Z.of_nat (length chain) - 1 in
            if dep <? depth a then
              let loc := mkLoc nsRoot 0 dep d in
              sm_modify (putMemo d loc g) ≫= fun _ => mret loc
            else
              let root := default 0 (chain !! Z.to_nat (depth a)) in
              sm_modify (memoChain root dep g (take (Z.to_nat (dep - depth a + 1)) (rev chain))) ≫= fun _ =>
              mret (projectLoc a root dep)
        end
    end.

Definition childLocP (dir child : Z) (isDir placed : bool) : M location :=
  lp ← resolveDir dir;
  a ← sm_get;
  match l_kind lp with
  | nsRoot =>
      if isDir && (l_depth lp =? depth a - 1) && negb placed then mret (projectLoc a child (l_depth lp + 1))
      else mret (mkLoc nsRoot 0 (l_depth lp + 1) dir)
  | nsProject | nsDerivatives => mret (mkLoc (l_kind lp) (l_proj lp) (l_depth lp + 1) (l_dir lp))
  | _ => mret lp
  end.

Definition childLoc (dir child : Z) (isDir : bool) : M location := childLocP dir child isDir false.

Definition placementOf (n : Z) : M placement :=
  if n =? rootIno then mret (mkPlacement true true rootIno [])
  else
    a ← sm_get;
    match dirParent a !! n with
    | Some dp => mret (mkPlacement true true dp [dp])
    | None =>
        let '(hit, fs) := lru_get (files a) n in
        sm_modify (set_files fs) ≫= fun _ =>
        match hit with
        | Some p => mret (mkPlacement true false p [p])
        | None =>
            let start := tomb_now (tomb a) in
            ai ← sm_lift (getAttr a n);
            match ai with
            | None => mret noPlacement
            | Some ai =>
                let isDir := a_typ ai =? typeDir in
                if a_parent ai =? 0 then
                  ps ← sm_lift (linkParents a n);
                  mret (mkPlacement true isDir 0 ps)
                else if isDir then
                  sm_modify (cacheDir n (a_parent ai) start) ≫= fun _ => mret (mkPlacement true true (a_parent ai) [a_parent ai])
                else
                  (if isTrashIno (a_parent ai) then mret tt else sm_modify (cacheFile n (a_parent ai) start)) ≫= fun _ =>
                  mret (mkPlacement true false (a_parent ai) [a_parent ai])
            end
        end
    end.

Fixpoint mmap {S E A B} (f : A -> SM S E B) (l : list A) : SM S E (list B) :=
  match l with
  | [] => mret []
  | x :: l' => y ← f x; ys ← mmap f l'; mret (y :: ys)
  end.

Definition locsOf (n : Z) (pl : placement) : M (list location) :=
  mmap (fun p => if isTrashIno p then mret trashLoc
                 else if p_isDir pl then resolveDir n else childLoc p n false) (p_parents pl).

Definition resolveInode (n : Z) : M (list location) :=
  pl ← placementOf n;
  if p_exists pl then locsOf n pl else sm_err IOErr.
End ops.

(** ** Learning *)
Definition learnEdge (acc : ancestry * bool) (e : unitEdge) : ancestry * bool :=
  let '(a, changed) := acc in
  if negb (e_isDir e) then acc
  else
    let a := set_dirParent (<[e_child e := e_parent e]> (dirParent a)) a in
    if (e_name e =s "") || isTrashIno (e_parent e) then (a, changed)
    else
      let a :=
        if e_parent e =? rootIno then
          let a := set_names (<[e_child e := "/" +:+ e_name e]> (names a)) a in
          if e_name e =s ".juicemount" then set_jmDir (e_child e) a else a
        else if negb (label a (e_parent e) =s "") && bool_decide (dirParent a !! e_parent e = Some rootIno) && (2 <=? depth a) then
          set_names (<[e_child e := label a (e_parent e) +:+ "/" +:+ e_name e]> (names a)) a
        else a in
      if negb (jmDir a =? 0) && (e_parent e =? jmDir a) && (e_name e =s "derivatives") && negb (derivRoot a =? e_child e)
      then (set_derivRoot (e_child e) a, true) else (a, changed).

Definition killTouched (f : unitFacts) (a : ancestry) : ancestry :=
  let a := set_tomb (kill (ftouched f) (tomb a)) a in
  set_files (foldl (fun l n => lru_del n l) (files a) (ftouched f)) a.

Definition learnCommitted (f : unitFacts) (a : ancestry) : ancestry :=
  let '(a, derivChanged) := foldl learnEdge (killTouched f a, false) (edges f) in
  if topology f || derivChanged then set_memo (bump (memo a)) a else a.

Definition forget (f : unitFacts) (a : ancestry) : ancestry :=
  let a := killTouched f a in
  let a := set_dirParent (foldl (fun m n => if n =? rootIno then m else delete n m) (dirParent a) (ftouched f)) a in
  set_memo (bump (memo a)) a.

Definition learnBootstrap (es : list unitEdge) (a : ancestry) : ancestry :=
  learnCommitted (mkFacts [] es [] ∅ ∅ ∅ "" [] [] [] false [] []) a.
