(* ===== verification/AncestryFacts.v ===== *)
(** * Theorems of the directory resolver

    The tree is a parent map [T].  [located T a d loc] is where directory [d]
    sits in it, by its path to the root; [coherent T a] says the caches of [a]
    agree with [T].  [resolveDir] computes [located] and keeps the caches
    coherent; commits keep them coherent when they only add directories or
    bump the memo; and racing side reads never put a stale parent in a cache. *)

From S2P Require Import Prelude GoLib Resp Classify Policy Guard GuardCheck TxnUnit Ancestry.

(** ** Paths *)
Section tree.
Context (T : gmap Z Z).

(** [path d l]: [l] is [d], its parent, ..., the root; none of them trash. *)
Inductive path : Z -> list Z -> Prop :=
  | path_root : path rootIno [rootIno]
  | path_step d p l : d <> rootIno -> T !! d = Some p -> isTrashIno p = false -> path p l -> path d (d :: l).

(** [d] has an ancestor whose parent is a trash directory. *)
Inductive in_trash : Z -> Prop :=
  | it_here d p : d <> rootIno -> T !! d = Some p -> isTrashIno p = true -> in_trash d
  | it_up d p : d <> rootIno -> T !! d = Some p -> isTrashIno p = false -> in_trash p -> in_trash d.
End tree.

(** Where directory [d] is: by the depth of its path and the project depth. *)
Definition path_loc (a : ancestry) (d : Z) (l : list Z) : location :=
  let dep := Z.of_nat (length l) - 1 in
  if dep <? depth a then mkLoc nsRoot 0 dep d
  else projectLoc a (default 0 (rev l !! Z.to_nat (depth a))) dep.

Inductive located (T : gmap Z Z) (a : ancestry) (d : Z) : location -> Prop :=
  | loc_trash : isTrashIno d = true -> located T a d trashLoc
  | loc_root : d = rootIno -> located T a d (mkLoc nsRoot 0 0 rootIno)
  | loc_path l : isTrashIno d = false -> d <> rootIno -> path T d l -> located T a d (path_loc a d l)
  | loc_below : isTrashIno d = false -> in_trash T d -> located T a d trashLoc.

Lemma path_fun T d l : path T d l -> forall l', path T d l' -> l = l'.
Proof.
  induction 1 as [|d p l Hn Hd Ht _ IH]; intros l' Hl'; inversion Hl'; subst; try done.
  assert (p = p0) as -> by congruence. f_equal. auto.
Qed.

Lemma path_not_trashed T d l : path T d l -> ~ in_trash T d.
Proof.
  induction 1 as [|d p l Hn Hd Ht _ IH]; intros Hx; inversion Hx; subst; try done; congruence.
Qed.

Lemma located_fun T a d l l' : located T a d l -> located T a d l' -> l = l'.
Proof.
  intros H1 H2. destruct H1 as [H1|H1|p H1 H1' H1''|H1 H1']; destruct H2 as [H2|H2|q H2 H2' H2''|H2 H2']; subst; try done; try congruence.
  - by inversion H2'.
  - by rewrite (path_fun _ _ _ H1'' _ H2'').
  - by destruct (path_not_trashed _ _ _ H1'').
  - by inversion H1'.
  - by destruct (path_not_trashed _ _ _ H2'').
Qed.

Lemma path_mono T T' d l : (forall x p, T !! x = Some p -> T' !! x = Some p) -> path T d l -> path T' d l.
Proof. intros Hm. induction 1; econstructor; eauto. Qed.
Lemma in_trash_mono T T' d : (forall x p, T !! x = Some p -> T' !! x = Some p) -> in_trash T d -> in_trash T' d.
Proof. intros Hm. induction 1; [eapply it_here|eapply it_up]; eauto. Qed.

(** What a location depends on, besides the tree. *)
Definition same_shape (a a' : ancestry) : Prop := depth a' = depth a /\ derivRoot a' = derivRoot a.
Lemma path_loc_shape a a' d l : same_shape a a' -> path_loc a' d l = path_loc a d l.
Proof. intros [H1 H2]. unfold path_loc, projectLoc, isDerivRoot. by rewrite H1, H2. Qed.
Lemma located_mono T T' a a' d loc :
  (forall x p, T !! x = Some p -> T' !! x = Some p) -> same_shape a a' -> located T a d loc -> located T' a' d loc.
Proof.
  intros Hm Hs [H1|H1|l H1 H2 H3|H1 H2].
  - by constructor.
  - by constructor.
  - rewrite <- (path_loc_shape a a') by done. constructor; [done..|]. by eapply path_mono.
  - apply loc_below; [done|]. by eapply in_trash_mono.
Qed.
Lemma located_shape a a' T d loc : same_shape a a' -> located T a d loc -> located T a' d loc.
Proof. by apply located_mono. Qed.

(** ** Coherence *)
Definition memo_ok (T : gmap Z Z) (a : ancestry) : Prop :=
  forall d loc, memo_get (memo a) d = Some loc -> isTrashIno d = false /\ d <> rootIno /\ located T a d loc.
Definition dirs_ok (T : gmap Z Z) (a : ancestry) : Prop :=
  forall d p, d <> rootIno -> dirParent a !! d = Some p -> T !! d = Some p.
Definition coherent (T : gmap Z Z) (a : ancestry) : Prop := 1 <= depth a /\ dirs_ok T a /\ memo_ok T a.

(** Inode numbers are 64-bit. *)
Definition tree_wf (T : gmap Z Z) : Prop := forall d p, T !! d = Some p -> is_u64 p.

(** The volume's own records of directories agree with [T]. *)
Definition side_ok (side : sideDoer) (T : gmap Z Z) (a : ancestry) : Prop :=
  forall d ai, is_u64 d -> d <> rootIno -> getAttr side a d = Ok (Some ai) -> a_typ ai = typeDir -> a_parent ai <> 0 -> T !! d = Some (a_parent ai).

Section resolve.
Context (side : sideDoer) (T : gmap Z Z) (Twf : tree_wf T).

(** Nothing but the caches changes. *)
Definition VShape (a : ancestry) := (db a, depth a, names a, jmDir a, derivRoot a, tomb a).

Lemma cacheDir_shape d p st a : VShape (cacheDir d p st a) = VShape a /\ memo (cacheDir d p st a) = memo a.
Proof. unfold cacheDir. by case_match. Qed.

Lemma side_ok_shape a a' : VShape a' = VShape a -> side_ok side T a -> side_ok side T a'.
Proof.
  intros HV Hs d ai. unfold getAttr. assert (db a' = db a) as -> by exact (f_equal (fun x => fst (fst (fst (fst (fst x))))) HV). apply Hs.
Qed.

Lemma VShape_same a a' : VShape a' = VShape a -> same_shape a a'.
Proof. unfold VShape. intros [= ? ? ? ? ? ?]. done. Qed.

Lemma memo_ok_keep a a' : VShape a' = VShape a -> memo a' = memo a -> memo_ok T a -> memo_ok T a'.
Proof.
  intros HV Hm Hok d loc. rewrite Hm. intros Hg. destruct (Hok d loc Hg) as (? & ? & ?). split_and!; try done.
  eapply located_mono; [done|by apply VShape_same|done].
Qed.

Lemma parentOfDir_spec d a p a' :
  is_u64 d -> d <> rootIno -> coherent T a -> side_ok side T a -> parentOfDir side d a = (Ok p, a') ->
  T !! d = Some p /\ coherent T a' /\ VShape a' = VShape a /\ memo a' = memo a.
Proof.
  intros Hu Hd (H1 & Hdir & Hmemo) Hs Hr. unfold parentOfDir, mbind, SM_bind, sm_get in Hr. cbn in Hr.
  destruct (dirParent a !! d) as [q|] eqn:Eq; [injection Hr as <- <-; split; [by apply Hdir|]; by split_and!|].
  unfold sm_lift in Hr. destruct (getAttr side a d) as [[ai|]|] eqn:Eg; [|discriminate Hr..].
  destruct (negb (a_typ ai =? typeDir) || (a_parent ai =? 0)) eqn:Eb; [discriminate Hr|]. injection Hr as <- <-.
  apply orb_false_iff in Eb as [E1 E2]. apply negb_false_iff, Z.eqb_eq in E1. apply Z.eqb_neq in E2.
  pose proof (Hs d ai Hu Hd Eg E1 E2) as HT. destruct (cacheDir_shape d (a_parent ai) (tomb_now (tomb a)) a) as [HV Hm].
  split_and!; try done. split_and!; [unfold cacheDir; by case_match| |by eapply memo_ok_keep].
  intros x q Hx. unfold cacheDir. case_match; [|by apply Hdir]. cbn. destruct (decide (x = d)) as [->|Hn].
  - rewrite lookup_insert_eq. congruence.
  - rewrite lookup_insert_ne by done. by apply Hdir.
Qed.

(** The walk builds the path of its start, extended by the chain given. *)
Lemma walkUp_spec k : forall c chain r a a',
  is_u64 c -> isTrashIno c = false -> coherent T a -> side_ok side T a -> walkUp side k c (c :: chain) a = (Ok r, a') ->
  coherent T a' /\ VShape a' = VShape a /\ memo a' = memo a /\
  match r with
  | Some full => exists l, path T c l /\ full = rev l ++ chain
  | None => in_trash T c
  end.
Proof.
  induction k as [|k IH]; intros c chain r a a' Hu Hc Hco Hs Hr; cbn [walkUp] in Hr;
    (destruct (c =? rootIno) eqn:Ec; [apply Z.eqb_eq in Ec as ->; injection Hr as <- <-; split_and!; try done;
      exists [rootIno]; split; [constructor|done] |]); [discriminate Hr|].
  apply Z.eqb_neq in Ec. apply sm_bind_Ok in Hr as (p & a1 & Hp & Hr).
  apply parentOfDir_spec in Hp as (HT & Hco1 & HV1 & Hm1); [|done..].
  destruct (isTrashIno p) eqn:Et; [injection Hr as <- <-; split_and!; try done; by eapply it_here|].
  apply IH in Hr as (Hco2 & HV2 & Hm2 & Hres); [|by eapply Twf|done|done|by eapply side_ok_shape].
  split_and!; [done|congruence|congruence|]. destruct r as [full|]; [|by eapply it_up].
  destruct Hres as (l & Hl & ->). exists (c :: l). split; [by eapply path_step|]. cbn. by rewrite <- app_assoc.
Qed.

(** ** Memo entries *)
Lemma path_drop d l i x : path T d l -> l !! i = Some x -> path T x (drop i l).
Proof.
  intros Hp. revert i. induction Hp as [|d p l Hn Hd Ht Hp IH]; intros i Hi.
  - destruct i; [|by rewrite lookup_cons, lookup_nil in Hi]. injection Hi as <-. constructor.
  - destruct i as [|i]; [injection Hi as <-; by econstructor|]. by apply IH.
Qed.

Lemma path_no_trash d l x : isTrashIno d = false -> path T d l -> x ∈ l -> isTrashIno x = false.
Proof.
  intros Hd Hp. revert Hd. induction Hp as [|d p l Hn HT Ht Hp IH]; intros Hd Hx.
  - by apply list_elem_of_singleton in Hx as ->.
  - apply elem_of_cons in Hx as [->|Hx]; [done|]. by apply IH.
Qed.

Lemma path_root_last d l i : path T d l -> l !! i = Some rootIno -> Datatypes.S i = length l.
Proof.
  intros Hp Hi. pose proof (path_drop _ _ _ _ Hp Hi) as Hq. pose proof (path_fun _ _ _ Hq _ (path_root T)) as E.
  apply (f_equal length) in E. rewrite length_drop in E. apply lookup_lt_Some in Hi. cbn in E. lia.
Qed.

Lemma memo_get_put c d loc g x :
  memo_get (memo_put c d loc g) x = if decide (x = d /\ g = gen c) then Some loc
    else if decide (g = gen c /\ memoMax <= Z.of_nat (size (m c))) then None else memo_get c x.
Proof.
  unfold memo_put, memo_get. destruct (Z.eqb_spec g (gen c)) as [Hg|Hg]; cbn [negb].
  2: { rewrite !decide_False by tauto. done. }
  cbn. destruct (decide (x = d)) as [->|Hx].
  - rewrite lookup_insert_eq. cbn. rewrite decide_True by done. by rewrite Hg, Z.eqb_refl.
  - rewrite lookup_insert_ne, decide_False by naive_solver. destruct (Z.leb_spec memoMax (Z.of_nat (size (m c)))).
    + rewrite lookup_empty, decide_True by done. done.
    + rewrite decide_False by lia. done.
Qed.

Lemma putMemo_ok a d loc g :
  coherent T a -> isTrashIno d = false -> d <> rootIno -> located T a d loc -> coherent T (putMemo d loc g a).
Proof.
  intros (H1 & H2 & H3) Hd Hr Hl. split_and!; [done..|]. intros x loc'. cbn. rewrite memo_get_put.
  assert (Hsame : forall y l, located T a y l -> located T (putMemo d loc g a) y l) by (intros; by apply (located_shape a)).
  case_decide as E; [destruct E as [-> _]; intros [= <-]; auto|]. case_decide; [done|].
  intros Hx. destruct (H3 x loc' Hx) as (? & ? & ?). auto.
Qed.

Lemma putMemos_ok l g : forall a,
  coherent T a -> (forall d loc, (d, loc) ∈ l -> isTrashIno d = false /\ d <> rootIno /\ located T a d loc) ->
  coherent T (foldl (fun a '(d, loc) => putMemo d loc g a) a l).
Proof.
  induction l as [|[d loc] l IH]; intros a Hc Hl; [done|]. cbn. apply IH.
  - destruct (Hl d loc) as (? & ? & ?); [by left|]. by apply putMemo_ok.
  - intros x lx Hx. destruct (Hl x lx) as (? & ? & ?); [by right|]. split_and!; try done. by apply (located_shape a).
Qed.

(** Every directory of a path at or below the project root has its root. *)
Lemma path_loc_drop a d l i x :
  1 <= depth a -> path T d l -> l !! i = Some x -> Z.of_nat i <= Z.of_nat (length l) - 1 - depth a ->
  path_loc a x (drop i l) = projectLoc a (default 0 (rev l !! Z.to_nat (depth a))) (Z.of_nat (length l) - 1 - Z.of_nat i).
Proof.
  intros Hdep Hp Hi Hle. unfold path_loc. rewrite length_drop. apply lookup_lt_Some in Hi.
  destruct (Z.ltb_spec (Z.of_nat (length l - i) - 1) (depth a)) as [Hx|Hx]; [lia|].
  assert (rev (drop i l) !! Z.to_nat (depth a) = rev l !! Z.to_nat (depth a)) as ->.
  { rewrite <- (take_drop i l) at 2. rewrite rev_app_distr, lookup_app_l; [done|].
    rewrite length_rev, length_drop. lia. }
  f_equal. lia.
Qed.

Lemma memoChain_foldl root dep g below : forall k a,
  foldl (fun a '(i, d) => putMemo d (projectLoc a root (dep - Z.of_nat i)) g a) a (imap (fun i d => ((k + i)%nat, d)) below) =
  foldl (fun a '(d, loc) => putMemo d loc g a) a (imap (fun i d => (d, projectLoc a root (dep - Z.of_nat (k + i)))) below).
Proof.
  induction below as [|d below IH]; intros k a; [done|]. cbn [imap foldl].
  replace (k + 0)%nat with k by lia.
  assert (Hpl : forall x y, projectLoc (putMemo d (projectLoc a root (dep - Z.of_nat k)) g a) x y = projectLoc a x y) by done.
  transitivity (foldl (fun a '(i, d) => putMemo d (projectLoc a root (dep - Z.of_nat i)) g a)
    (putMemo d (projectLoc a root (dep - Z.of_nat k)) g a) (imap (fun i d => ((Datatypes.S k + i)%nat, d)) below)).
  - f_equal. apply imap_ext. intros i x _. cbn. f_equal. lia.
  - rewrite IH. f_equal. apply imap_ext. intros i x _. cbn. rewrite Hpl. do 3 f_equal. lia.
Qed.

Lemma memoChain_shape root dep g below a : VShape (memoChain root dep g below a) = VShape a.
Proof. unfold memoChain. generalize (imap pair below). intros l. revert a. induction l as [|[i x] l IH]; intros a; [done|]. cbn. by rewrite IH. Qed.

Lemma memoChain_ok a d l g :
  coherent T a -> isTrashIno d = false -> path T d l -> depth a <= Z.of_nat (length l) - 1 ->
  coherent T (memoChain (default 0 (rev l !! Z.to_nat (depth a))) (Z.of_nat (length l) - 1) g
                        (take (Z.to_nat (Z.of_nat (length l) - 1 - depth a + 1)) l) a).
Proof.
  intros Hc Hd Hp Hdep. unfold memoChain. pose proof Hc as (H1 & _). rewrite (memoChain_foldl _ _ _ _ 0).
  apply putMemos_ok; [done|]. intros x loc Hx. apply elem_of_lookup_imap in Hx as (i & y & [= -> ->] & Hi).
  apply lookup_take_Some in Hi as [Hi Hle].
  assert (Hx : isTrashIno y = false) by (eapply path_no_trash; [exact Hd|exact Hp|by eapply list_elem_of_lookup_2]).
  split_and!; [done|intros ->; apply (path_root_last _ _ _ Hp) in Hi; lia|].
  cbn [Nat.add]. rewrite <- (path_loc_drop a d l i y) by (done || lia).
  constructor; [done| |by eapply path_drop].
  intros ->. apply (path_root_last _ _ _ Hp) in Hi. lia.
Qed.

Lemma resolveDir_spec d a loc a' :
  is_u64 d -> coherent T a -> side_ok side T a -> resolveDir side d a = (Ok loc, a') ->
  located T a d loc /\ coherent T a' /\ VShape a' = VShape a.
Proof.
  intros Hu Hc Hs Hr. unfold resolveDir in Hr.
  destruct (isTrashIno d) eqn:Et; [injection Hr as <- <-; split_and!; [by constructor|done..]|].
  destruct (Z.eqb_spec d rootIno) as [->|Hd]; [injection Hr as <- <-; split_and!; [by constructor|done..]|].
  apply sm_bind_Ok in Hr as (? & ? & [= <- <-] & Hr). destruct (memo_get (memo a) d) as [l|] eqn:Em.
  { injection Hr as <- <-. destruct Hc as (? & ? & Hm). by destruct (Hm _ _ Em) as (? & ? & ?). }
  apply sm_bind_Ok in Hr as (up & a1 & Hw & Hr). apply walkUp_spec in Hw as (Hc1 & HV & _ & Hup); [|done..].
  assert (Hsh : same_shape a1 a) by (apply VShape_same in HV as [? ?]; by split).
  destruct up as [chain|].
  - destruct Hup as (l & Hl & ->). rewrite app_nil_r in Hr. apply sm_bind_Ok in Hr as (? & ? & [= <- <-] & Hr).
    assert (Hloc : located T a1 d (path_loc a1 d l)) by by constructor.
    rewrite length_rev, rev_involutive in Hr. unfold path_loc in Hloc. cbv zeta in Hloc.
    destruct (Z.ltb_spec (Z.of_nat (length l) - 1) (depth a1)) as [Hlt|Hge].
    + injection Hr as <- <-. split_and!; [by eapply located_shape|by apply putMemo_ok|done].
    + injection Hr as <- <-. split_and!; [by eapply located_shape|by eapply memoChain_ok|].
      rewrite <- HV. apply memoChain_shape.
  - injection Hr as <- <-. split_and!; [by apply loc_below| |done]. apply putMemo_ok; [done..|]. by apply loc_below.
Qed.

(** *** Failed reads *)
Definition servable (a : ancestry) : Prop := coherent T a /\ side_ok side T a.

Lemma parentOfDir_keeps d a : is_u64 d -> d <> rootIno -> servable a -> servable (snd (parentOfDir side d a)).
Proof.
  intros Hu Hd [Hc Hs]. destruct (parentOfDir side d a) as [[p|] a'] eqn:E.
  - apply parentOfDir_spec in E as (_ & ? & ? & _); [|done..]. split; [done|by eapply side_ok_shape].
  - cbn. enough (a' = a) as -> by done. unfold parentOfDir, mbind, SM_bind, sm_get, sm_lift in E. cbn in E.
    repeat case_match; unfold mret, SM_ret, sm_err, sm_modify in *; by simplify_eq/=.
Qed.

Lemma walkUp_keeps k : forall c chain a, is_u64 c -> servable a -> servable (snd (walkUp side k c chain a)).
Proof.
  induction k as [|k IH]; intros c chain a Hu Ha; cbn [walkUp]; destruct (Z.eqb_spec c rootIno) as [->|Hc]; try done.
  pose proof (parentOfDir_keeps c a Hu Hc Ha) as H. unfold mbind, SM_bind. destruct (parentOfDir side c a) as [[p|] a1] eqn:E; [|done].
  destruct (isTrashIno p); [done|]. apply IH; [|done]. destruct Ha as [? ?]. apply parentOfDir_spec in E as (? & _); [|done..]. by eapply Twf.
Qed.

Lemma resolveDir_keeps d a : is_u64 d -> servable a -> servable (snd (resolveDir side d a)).
Proof.
  intros Hu Ha. destruct (resolveDir side d a) as [[loc|e] a'] eqn:E.
  - destruct Ha as [Hc Hs]. apply resolveDir_spec in E as (_ & ? & ?); [|done..]. split; [done|by eapply side_ok_shape].
  - unfold resolveDir in E. destruct (isTrashIno d); [done|]. destruct (d =? rootIno); [done|].
    unfold mbind at 1, SM_bind at 1, sm_get at 1 in E. destruct (memo_get (memo a) d); [done|]. cbv zeta in E.
    pose proof (walkUp_keeps maxWalk d [d] a Hu Ha) as Hw. unfold mbind at 1, SM_bind at 1 in E.
    destruct (walkUp side maxWalk d [d] a) as [[[chain|]|e'] a1]; [|discriminate E|by simplify_eq/=].
    unfold mbind at 1, SM_bind at 1, sm_get at 1 in E. case_match; discriminate E.
Qed.

(** *** Every directory the volume serves is found *)
Definition serves (a : ancestry) : Prop :=
  forall d p, is_u64 d -> d <> rootIno -> T !! d = Some p ->
  exists ai, getAttr side a d = Ok (Some ai) /\ a_typ ai = typeDir /\ a_parent ai = p /\ p <> 0.

(** [reaches n d]: [n] parents up from [d] is the root or the trash. *)
Inductive reaches : nat -> Z -> Prop :=
  | reach_root : reaches 0 rootIno
  | reach_trash d p : d <> rootIno -> T !! d = Some p -> isTrashIno p = true -> reaches 1 d
  | reach_up n d p : d <> rootIno -> T !! d = Some p -> reaches n p -> reaches (Datatypes.S n) d.

Lemma parentOfDir_ok d p a : is_u64 d -> d <> rootIno -> coherent T a -> serves a -> T !! d = Some p ->
  exists a', parentOfDir side d a = (Ok p, a') /\ VShape a' = VShape a.
Proof.
  intros Hu Hd (_ & H2 & _) Hs Hp. unfold parentOfDir, mbind, SM_bind, sm_get, sm_lift. cbn.
  destruct (dirParent a !! d) as [q|] eqn:E; [apply H2 in E; [|done]; assert (q = p) as -> by congruence; eexists; by split|].
  destruct (Hs d p Hu Hd Hp) as (ai & -> & Ht & <- & H0). cbn. rewrite Ht. apply Z.eqb_neq in H0. rewrite H0. cbn.
  eexists. split; [done|]. by apply cacheDir_shape.
Qed.

Lemma serves_shape a a' : VShape a' = VShape a -> serves a -> serves a'.
Proof.
  intros HV Hs d p. unfold getAttr. assert (db a' = db a) as -> by exact (f_equal (fun x => fst (fst (fst (fst (fst x))))) HV). apply Hs.
Qed.

Lemma walkUp_ok n c : reaches n c -> forall k chain a, (n <= k)%nat -> is_u64 c -> servable a -> serves a ->
  exists r a', walkUp side k c chain a = (Ok r, a').
Proof.
  induction 1 as [|d p Hd Hp Ht|n d p Hd Hp Hr IH]; intros k chain a Hk Hu Ha Hs.
  - destruct k; cbn; eauto.
  - destruct k as [|k]; [lia|]. cbn [walkUp]. apply Z.eqb_neq in Hd as Hd'. rewrite Hd'.
    destruct (parentOfDir_ok d p a Hu Hd (proj1 Ha) Hs Hp) as (a1 & E & _). unfold mbind, SM_bind. rewrite E, Ht. eauto.
  - destruct k as [|k]; [lia|]. cbn [walkUp]. apply Z.eqb_neq in Hd as Hd'. rewrite Hd'.
    pose proof (parentOfDir_keeps d a Hu Hd Ha) as Ha1. destruct (parentOfDir_ok d p a Hu Hd (proj1 Ha) Hs Hp) as (a1 & E & HV).
    unfold mbind, SM_bind. rewrite E in *. destruct (isTrashIno p); [eauto|]. apply IH; [lia|by eapply Twf|done|by eapply serves_shape].
Qed.

Lemma resolveDir_ok n d a : is_u64 d -> reaches n d -> (n <= maxWalk)%nat -> servable a -> serves a ->
  exists loc a', resolveDir side d a = (Ok loc, a').
Proof.
  intros Hu Hr Hn Ha Hs. unfold resolveDir. destruct (isTrashIno d); [unfold mret, SM_ret; eauto|].
  destruct (d =? rootIno); [unfold mret, SM_ret; eauto|].
  destruct (walkUp_ok n d Hr maxWalk [d] a Hn Hu Ha Hs) as (r & a1 & E). unfold mbind, SM_bind, sm_get.
  destruct (memo_get (memo a) d); [unfold mret, SM_ret; eauto|]. cbv zeta. rewrite E. destruct r; [case_match|]; eauto.
Qed.
End resolve.

(** ** Commits *)

(** The tree after a unit with these facts committed. *)
Definition setEdge (T : gmap Z Z) (e : unitEdge) : gmap Z Z := if e_isDir e then <[e_child e := e_parent e]> T else T.
Definition commitT (f : unitFacts) (T : gmap Z Z) : gmap Z Z := foldl setEdge T (edges f).

(** The directories a unit places. *)
Definition kids (f : unitFacts) : list Z := map e_child (List.filter e_isDir (edges f)).

Lemma setEdges_other es : forall T d, d ∉ map e_child (List.filter e_isDir es) -> foldl setEdge T es !! d = T !! d.
Proof.
  induction es as [|e es IH]; intros T d Hd; [done|]. cbn in *. unfold setEdge at 2. destruct (e_isDir e).
  - apply not_elem_of_cons in Hd as [Hne Hd]. rewrite IH by done. by rewrite lookup_insert_ne by done.
  - by apply IH.
Qed.

(** What a fold of edges puts at a child does not depend on the start. *)
Lemma setEdges_kid es : forall T T' d, d ∈ map e_child (List.filter e_isDir es) -> foldl setEdge T es !! d = foldl setEdge T' es !! d.
Proof.
  induction es as [|e es IH]; intros T T' d Hd; [by apply not_elem_of_nil in Hd|]. cbn in *. unfold setEdge at 2 4.
  destruct (e_isDir e); [|by apply IH].
  destruct (decide (d ∈ map e_child (List.filter e_isDir es))) as [Hin|Hout]; [by apply IH|].
  apply elem_of_cons in Hd as [->|Hd]; [|done]. rewrite !setEdges_other by done. by rewrite !lookup_insert_eq.
Qed.

Lemma commitT_other f T d : d ∉ kids f -> commitT f T !! d = T !! d.
Proof. apply setEdges_other. Qed.
Lemma commitT_kid f T T' d : d ∈ kids f -> commitT f T !! d = commitT f T' !! d.
Proof. apply setEdges_kid. Qed.

(** The unit moves no directory: each one it places is new or stays put. *)
Definition grows (f : unitFacts) (T : gmap Z Z) : Prop :=
  Forall (fun e => e_isDir e = true -> T !! e_child e = None \/ T !! e_child e = Some (e_parent e)) (edges f).

Lemma setEdges_grow es : forall T T0 : gmap Z Z, (forall x p, T0 !! x = Some p -> T !! x = Some p) ->
  Forall (fun e => e_isDir e = true -> T0 !! e_child e = None \/ T0 !! e_child e = Some (e_parent e)) es ->
  forall x p, T0 !! x = Some p -> foldl setEdge T es !! x = Some p.
Proof.
  induction es as [|e es IH]; intros T T0 Hm Hg; [done|]. apply Forall_cons in Hg as [He Hg]. cbn. apply IH; [|done].
  intros x p Hx. unfold setEdge. destruct (e_isDir e); [|by apply Hm]. destruct (decide (x = e_child e)) as [->|Hn].
  - rewrite lookup_insert_eq. destruct (He eq_refl) as [H|H]; congruence.
  - rewrite lookup_insert_ne by done. by apply Hm.
Qed.

Lemma learnEdges_spec es : forall a ch,
  let r := foldl learnEdge (a, ch) es in
  dirParent (fst r) = foldl setEdge (dirParent a) es /\ memo (fst r) = memo a /\ depth (fst r) = depth a /\
  tomb (fst r) = tomb a /\ (snd r = false -> derivRoot (fst r) = derivRoot a).
Proof.
  induction es as [|e es IH]; intros a ch; [done|].
  assert (exists a1 ch1, learnEdge (a, ch) e = (a1, ch1) /\ dirParent a1 = setEdge (dirParent a) e /\ memo a1 = memo a /\
    depth a1 = depth a /\ tomb a1 = tomb a /\ (ch1 = false -> derivRoot a1 = derivRoot a) /\ (ch = true -> ch1 = true)) as
    (a1 & ch1 & E & H1 & H2 & H3 & H4 & H5 & H6).
  { unfold learnEdge, setEdge. cbv zeta. repeat case_match; do 2 eexists; split; try reflexivity; split_and!; try done. }
  cbn [foldl]. rewrite E. destruct (IH a1 ch1) as (I1 & I2 & I3 & I4 & I5). split_and!; [by rewrite I1, H1|congruence..|].
  intros Hs. rewrite I5, H5; [done| |done]. destruct ch1; [|done]. exfalso. clear -Hs.
  assert (forall es a, snd (foldl learnEdge (a, true) es) = true) as Ht.
  { clear. induction es as [|e es IH]; intros a; [done|]. cbn [foldl].
    assert (exists a1, learnEdge (a, true) e = (a1, true)) as [a1 ->] by (unfold learnEdge; cbv zeta; repeat case_match; eauto).
    apply IH. }
  rewrite Ht in Hs. done.
Qed.

Lemma learnCommitted_spec f a :
  let a' := learnCommitted f a in
  dirParent a' = foldl setEdge (dirParent a) (edges f) /\ depth a' = depth a /\ tomb a' = kill (ftouched f) (tomb a) /\
  (memo a' = bump (memo a) \/ memo a' = memo a /\ topology f = false /\ derivRoot a' = derivRoot a).
Proof.
  unfold learnCommitted. destruct (learnEdges_spec (edges f) (killTouched f a) false) as (H1 & H2 & H3 & H4 & H5).
  destruct (foldl learnEdge _ _) as [a1 ch]. cbn in *. destruct (topology f || ch) eqn:E; cbn; rewrite ?H2; split_and!; auto.
  right. apply orb_false_iff in E as [-> ->]. by rewrite H5.
Qed.

Lemma memo_get_bump c d : memo_get (bump c) d = None.
Proof. done. Qed.

(** A cache that agrees with the tree still does after both learn the same edges. *)
Lemma setEdges_ok es : forall M T, (forall d p, d <> rootIno -> M !! d = Some p -> T !! d = Some p) ->
  forall d p, d <> rootIno -> foldl setEdge M es !! d = Some p -> foldl setEdge T es !! d = Some p.
Proof.
  intros M T Hm d p Hd. destruct (decide (d ∈ map e_child (List.filter e_isDir es))) as [Hin|Hout].
  - by rewrite (setEdges_kid es M T).
  - rewrite !setEdges_other by done. by apply Hm.
Qed.

Lemma learnCommitted_coherent f a T :
  coherent T a -> (topology f = false -> grows f T) -> coherent (commitT f T) (learnCommitted f a).
Proof.
  intros (H1 & H2 & H3) Hg. destruct (learnCommitted_spec f a) as (E1 & E2 & _ & E4). split_and!.
  - by rewrite E2.
  - intros d p Hd. rewrite E1. by apply setEdges_ok.
  - intros d loc. destruct E4 as [-> | (-> & Ht & Hr)]; [done|]. intros Hx. destruct (H3 d loc Hx) as (? & ? & Hl).
    split_and!; try done. apply (located_mono T _ a); [|done|done]. intros x p. apply setEdges_grow; [done|]. by apply Hg.
Qed.

(** [forget]: right whether or not the unit committed. *)
Lemma forget_dirs ns : forall M d, d <> rootIno ->
  foldl (fun m n => if n =? rootIno then m else delete n m) M ns !! d = (if decide (d ∈ ns) then None else (M : gmap Z Z) !! d).
Proof.
  induction ns as [|n ns IH]; intros M d Hd; cbn [foldl].
  { rewrite decide_False by apply not_elem_of_nil. done. }
  rewrite IH by done. destruct (Z.eqb_spec n rootIno) as [->|Hn].
  - repeat case_decide; set_solver.
  - destruct (decide (d = n)) as [->|Hdn]; [rewrite lookup_delete_eq; repeat case_decide; set_solver|].
    rewrite lookup_delete_ne by done. repeat case_decide; set_solver.
Qed.

Lemma forget_coherent f a T T' :
  coherent T a -> kids f ⊆ ftouched f -> T' = T \/ T' = commitT f T -> coherent T' (forget f a).
Proof.
  intros (H1 & H2 & H3) Hk HT. split_and!; [done| |done].
  intros d p Hd. unfold forget. cbn. rewrite forget_dirs by done. case_decide as E; [done|]. intros Hx. apply H2 in Hx; [|done].
  destruct HT as [-> | ->]; [done|]. rewrite commitT_other; [done|]. set_solver.
Qed.

(** ** The facts of a unit: every child placed is touched *)
Definition kids_touched (f : unitFacts) : Prop := Forall (fun e => e_child e ∈ ftouched f) (edges f).

Lemma kt_touch n f : kids_touched f -> kids_touched (touch n f).
Proof. unfold touch. intros Hf. case_decide; [done|]. eapply Forall_impl; [exact Hf|]. cbn. set_solver. Qed.
Lemma kt_same f f' : edges f' = edges f -> ftouched f' = ftouched f -> kids_touched f -> kids_touched f'.
Proof. unfold kids_touched. by intros -> ->. Qed.
Lemma kt_addInode n r f : kids_touched f -> kids_touched (addInode n r f).
Proof. intros H. apply (kt_touch n) in H. unfold addInode. case_match; [done|]. by eapply kt_same. Qed.
Lemma kt_noteTrashKey t f : kids_touched f -> kids_touched (noteTrashKey t f).
Proof. unfold noteTrashKey. case_match; [|done]. by apply kt_same. Qed.
Lemma kt_edge e op f : kids_touched f -> kids_touched (touch (e_child e) (addEdge e (addDentry op f))).
Proof.
  unfold kids_touched, touch. intros H. case_decide as E; cbn in *; apply Forall_app; (split; [|constructor; [|done]]); try set_solver.
  eapply Forall_impl; [exact H|]. set_solver.
Qed.
Lemma kt_addUnresolvable t f : kids_touched f -> kids_touched (addUnresolvable t f).
Proof. by apply kt_same. Qed.
Lemma kt_addDentry o f : kids_touched f -> kids_touched (addDentry o f).
Proof. by apply kt_same. Qed.
Lemma kt_putAttr n x f : kids_touched f -> kids_touched (putAttr n x f).
Proof. by apply kt_same. Qed.
Lemma kt_addLink n x f : kids_touched f -> kids_touched (addLink n x f).
Proof. by apply kt_same. Qed.
Lemma kt_addStats x y z f : kids_touched f -> kids_touched (addStats x y z f).
Proof. by apply kt_same. Qed.
Lemma kt_setStats x y f : kids_touched f -> kids_touched (setStats x y f).
Proof. by apply kt_same. Qed.
Lemma kt_setTopology x f : kids_touched f -> kids_touched (setTopology x f).
Proof. by apply kt_same. Qed.
Create HintDb facts.
#[export] Hint Resolve kt_touch kt_addInode kt_noteTrashKey kt_edge kt_addUnresolvable kt_addDentry kt_putAttr kt_addLink
  kt_addStats kt_setStats kt_setTopology : facts.

Lemma foldl_inv {A B} (P : A -> Prop) (g : A -> B -> A) l : (forall a b, P a -> P (g a b)) -> forall a, P a -> P (foldl g a l).
Proof. intros Hg. induction l as [|b l IH]; intros a Ha; [done|]. cbn. auto. Qed.

Lemma kt_scanRef r f n : kids_touched f -> kids_touched (scanRef r f n).
Proof. unfold scanRef. case_match; auto with facts. Qed.
Lemma kt_scanInode c w r f : kids_touched f -> kids_touched (scanInode c w r f).
Proof. intros H. unfold scanInode. repeat case_match; auto 6 with facts. Qed.
Lemma kt_scanEntry w r s fv : kids_touched (sf s) -> kids_touched (sf (scanEntry w r s fv)).
Proof.
  intros H. unfold scanEntry. case_match; [|cbn; auto with facts]. cbn.
  by apply (kt_edge (mkEdge (Ino (KWKey w)) z (default 0 (entryType fv.2) =? typeDir) fv.1)).
Qed.
#[export] Hint Resolve kt_scanRef kt_scanInode kt_scanEntry : facts.
Lemma kt_scanDentry c w r s : kids_touched (sf s) -> kids_touched (sf (scanDentry c w r s)).
Proof.
  intros H. unfold scanDentry. repeat case_match; cbn; auto with facts.
  - apply (foldl_inv (fun s => kids_touched (sf s))); cbn; auto with facts.
  - apply foldl_inv; auto with facts.
Qed.
#[export] Hint Resolve kt_scanDentry : facts.
Lemma kt_scanWrite u s w : kids_touched (sf s) -> kids_touched (sf (scanWrite u s w)).
Proof.
  intros H. unfold scanWrite. repeat case_match; cbn; auto with facts. apply foldl_inv; auto with facts.
Qed.

Lemma analyzeUnit_touches u : kids (analyzeUnit u) ⊆ ftouched (analyzeUnit u).
Proof.
  assert (kids_touched (analyzeUnit u)) as H.
  { unfold analyzeUnit. set (s := foldl (scanWrite u) _ _).
    assert (kids_touched (sf s)) as Hs by (apply (foldl_inv (fun s => kids_touched (sf s))); [apply kt_scanWrite|apply Forall_nil_2]).
    set (f := foldl _ (sf s) _). assert (kids_touched f) as Hf by (apply foldl_inv; auto with facts).
    repeat case_match; auto with facts. }
  intros d Hd. apply list_elem_of_In, in_map_iff in Hd as (e & <- & He). apply filter_In in He as [He _].
  apply list_elem_of_In in He. by eapply (proj1 (Forall_forall _ _)) in H.
Qed.
