(* ===== verification/AncestryTheorems.v ===== *)
(** * Claims about the directory resolver

    [history]: sequences of resolutions, commits and lost units, against the
    tree they leave behind.  [race]: side reads in flight while units commit
    and are learnt, in every interleaving. *)

From S2P Require Import Prelude GoLib Resp Classify Policy Guard GuardCheck GuardTheorems TxnUnit Ancestry AncestryFacts.

(** ** Concrete trees *)
Module TreeExamples.
Import GuardExamples.
(** The unit [l] with every written key handed on for placement. *)
Definition placed_unit (l : list (list string)) : Unit :=
  let ws := mjoin (imap (fun i a => match a with
                                     | _ :: k :: _ => [mkKeyWrite i (ParseKey k) k KCProject]
                                     | _ => [] end) l) in
  mkUnit UnitTxn 0 (map cmd l) [] ws ws [] None 0 None None 0 (Some (Ok tt)) None ModeEnforce 1 "" false.
(** A volume that stores these attributes. *)
Definition volume (attrs : list (string * string)) : sideDoer := fun _ args =>
  match args with
  | [_; k] => match list_find (fun kv => fst kv = k) attrs with
              | Some (_, (_, v)) => Ok (mkValue "$" v 0 [] false)
              | None => Ok (mkValue "$" "" 0 [] true)
              end
  | _ => Err IOErr
  end.
(** /top/proj/sub: inodes 2, 3 and 5. *)
Definition tree : gmap Z Z := {[2 := 1; 3 := 2; 5 := 3]}.
Definition attrs : list (string * string) := [("i2", attr 2 1); ("i3", attr 2 2); ("i5", attr 2 3)].
Definition side0 : sideDoer := volume attrs.
Definition a0 : ancestry := newAncestry 0 2 1024.
(** rmdir of /top/proj/sub with the trash on, as JuiceFS writes it. *)
Definition hour : Z := TrashInode + 7.
Definition rmdir : Unit := placed_unit
  [["HDEL"; "d3"; "sub"];
   ["HSET"; "d" +:+ FormatUint hour; "3-5-sub"; entry 2 5];
   ["SET"; "i5"; attr 2 hour]].
End TreeExamples.

(** ** Histories *)
Inductive history (T : gmap Z Z) : ancestry -> Prop :=
  | h_new d dep fileCap : history T (newAncestry d dep fileCap)
  | h_resolve a side d : history T a -> is_u64 d -> tree_wf T -> side_ok side T a -> history T (snd (resolveDir side d a))
  | h_commit T0 a u : history T0 a -> (topology (analyzeUnit u) = false -> grows (analyzeUnit u) T0) ->
      T = commitT (analyzeUnit u) T0 -> history T (learnCommitted (analyzeUnit u) a)
  | h_lost T0 a u : history T0 a -> T = T0 \/ T = commitT (analyzeUnit u) T0 -> history T (forget (analyzeUnit u) a).

Lemma coherent_new T d dep fileCap : coherent T (newAncestry d dep fileCap).
Proof.
  unfold newAncestry. split_and!; cbn.
  - case_match; to_prop; lia.
  - intros x p Hx E. cbn in E. apply lookup_singleton_Some in E as [<- _]. done.
  - done.
Qed.

Lemma history_coherent T a : history T a -> coherent T a.
Proof.
  induction 1 as [T d dep fc|T a side d _ IH Hu Hwf Hs|T T0 a u _ IH Hg ->|T T0 a u _ IH HT].
  - apply coherent_new.
  - by apply (resolveDir_keeps side T Hwf d a Hu).
  - by apply learnCommitted_coherent.
  - eapply forget_coherent; [done|apply analyzeUnit_touches|done].
Qed.


(** C29: a directory at most 4096 parents away from the root or the trash is
    always resolved, when the volume serves the attributes of its directories. *)
Theorem resolve_succeeds T a side n d :
  history T a -> is_u64 d -> tree_wf T -> side_ok side T a -> serves side T a -> reaches T n d -> (n <= 4096)%nat ->
  exists loc a', resolveDir side d a = (Ok loc, a') /\ located T a d loc.
Proof.
  intros Hh Hu Hwf Hs Hserve Hr Hn. apply history_coherent in Hh.
  destruct (resolveDir_ok side T Hwf n d a) as (loc & a' & E); try done.
  exists loc, a'. split; [done|]. by apply (resolveDir_spec side T Hwf d a loc a').
Qed.

(** ** Witnesses *)
Module TreeWitness.
Import GuardExamples TreeExamples.

Lemma volume_reads d a : is_u64 d ->
  getAttr side0 a d = Ok (if d =? 2 then Some (mkAttr typeDir 1) else if d =? 3 then Some (mkAttr typeDir 2)
                          else if d =? 5 then Some (mkAttr typeDir 3) else None).
Proof.
  intros Hd. unfold getAttr, side_reply, side0, volume.
  assert (Hk : forall n, is_u64 n -> "i" +:+ FormatUint n = "i" +:+ FormatUint d <-> n = d).
  { intros n Hn. split; [|by intros ->]. intros [= E]. by apply FormatUint_inj. }
  unfold attrs. cbn [list_find fst].
  destruct (decide ("i2" = "i" +:+ FormatUint d)) as [E|E].
  { apply (Hk 2) in E as <-; [|done]. vm_compute. reflexivity. }
  destruct (decide ("i3" = "i" +:+ FormatUint d)) as [E3|E3].
  { apply (Hk 3) in E3 as <-; [|done]. vm_compute. reflexivity. }
  destruct (decide ("i5" = "i" +:+ FormatUint d)) as [E5|E5].
  { apply (Hk 5) in E5 as <-; [|done]. vm_compute. reflexivity. }
  destruct (Z.eqb_spec d 2) as [->|]; [by destruct E|]. destruct (Z.eqb_spec d 3) as [->|]; [by destruct E3|].
  destruct (Z.eqb_spec d 5) as [->|]; [by destruct E5|]. reflexivity.
Qed.

Lemma side0_ok a : side_ok side0 tree a.
Proof.
  intros d ai Hu Hd. rewrite volume_reads by done. destruct (Z.eqb_spec d 2) as [->|]; [by intros [= <-]|].
  destruct (Z.eqb_spec d 3) as [->|]; [by intros [= <-]|]. by destruct (Z.eqb_spec d 5) as [->|]; [intros [= <-]|].
Qed.

Lemma side0_serves a : serves side0 tree a.
Proof.
  intros d p Hu Hd. rewrite volume_reads by done. unfold tree. rewrite !lookup_insert_Some.
  intros [[<- <-]|(? & [[<- <-]|(? & H)])]; [eexists; split; [reflexivity|done]..|].
  apply lookup_singleton_Some in H as [<- <-]. eexists; split; [reflexivity|done].
Qed.

Lemma tree_ok : tree_wf tree.
Proof.
  intros d p. unfold tree. rewrite !lookup_insert_Some. intros [[_ <-]|(_ & [[_ <-]|(_ & H)])]; [done..|].
  by apply lookup_singleton_Some in H as [_ <-].
Qed.
End TreeWitness.


Lemma resolve_succeeds_witness : exists loc a', resolveDir TreeExamples.side0 5 TreeExamples.a0 = (Ok loc, a') /\
  located TreeExamples.tree TreeExamples.a0 5 loc.
Proof.
  apply (resolve_succeeds TreeExamples.tree TreeExamples.a0 TreeExamples.side0 3 5); [apply h_new|done|apply TreeWitness.tree_ok|
    apply TreeWitness.side0_ok|apply TreeWitness.side0_serves| |apply Nat.leb_le; vm_compute; reflexivity].
  apply (reach_up _ _ 5 3); [done|done|]. apply (reach_up _ _ 3 2); [done|done|]. apply (reach_up _ _ 2 1); [done|done|]. constructor.
Defined.

(** A directory removed into the trash keeps its project in the memo.  The
    unit does not count as a topology change, so the memo is not bumped, and
    after the commit [resolveDir] still answers with the project although the
    tree has the directory in the trash. *)
Theorem trashed_directory_keeps_project side :
  let f := analyzeUnit TreeExamples.rmdir in
  let a := learnCommitted f (snd (resolveDir TreeExamples.side0 5 TreeExamples.a0)) in
  topology f = false /\ located (commitT f TreeExamples.tree) a 5 trashLoc /\
  fst (resolveDir side 5 a) = Ok (mkLoc nsProject 3 3 0).
Proof.
  cbv zeta. split_and!; [vm_compute; reflexivity| |].
  - apply loc_below; [done|]. apply (it_here _ 5 TreeExamples.hour); [done|vm_compute; reflexivity..].
  - set (a := learnCommitted _ _). assert (E : memo_get (memo a) 5 = Some (mkLoc nsProject 3 3 0)) by (vm_compute; reflexivity).
    clearbody a. unfold resolveDir. change (isTrashIno 5) with false. change (5 =? rootIno) with false.
    unfold mbind, SM_bind, sm_get. cbn beta iota. by rewrite E.
Qed.
