(* ===== verification/AncestryRace.v ===== *)
(** * Side reads racing commits (tombstones of internal/respproxy/ancestry.go)

    A side read records the tombstone sequence, reads the parent of a
    directory, and later puts it in the directory cache.  Between those points
    other units commit in Redis, and the proxy learns or forgets them.  [step]
    has every interleaving; two units in flight never place the same
    directory, and the sequence is assumed not to wrap. *)

From S2P Require Import Prelude GoLib Resp Classify Policy Guard GuardCheck TxnUnit Ancestry AncestryFacts GuardTheorems AncestryTheorems.

(** A side read in flight: the directory, the sequence at its start, and what
    Redis answered, once it did. *)
Record inflight : Type := mkRead { rd_dir : Z; rd_start : Z; rd_ans : option Z }.

Record world : Type := mkWorld {
  tree : gmap Z Z;              (* the tree in Redis *)
  anc : ancestry;
  pending : list unitFacts;     (* committed in Redis, not yet learnt *)
  reads : list inflight;
}.

(** The directories some unit in flight places. *)
Definition moving (w : world) (d : Z) : Prop := exists f, f ∈ pending w /\ d ∈ kids f.

Inductive step : world -> world -> Prop :=
  | st_begin T a pd rs d : step (mkWorld T a pd rs) (mkWorld T a pd (mkRead d (tomb_now (tomb a)) None :: rs))
  | st_answer T a pd rs1 rs2 d s p : T !! d = Some p ->
      step (mkWorld T a pd (rs1 ++ mkRead d s None :: rs2)) (mkWorld T a pd (rs1 ++ mkRead d s (Some p) :: rs2))
  | st_fill T a pd rs1 rs2 d s p :
      step (mkWorld T a pd (rs1 ++ mkRead d s (Some p) :: rs2)) (mkWorld T (cacheDir d p s a) pd (rs1 ++ rs2))
  | st_commit T a pd rs u :
      (forall d, d ∈ kids (analyzeUnit u) -> ~ moving (mkWorld T a pd rs) d) ->
      step (mkWorld T a pd rs) (mkWorld (commitT (analyzeUnit u) T) a (analyzeUnit u :: pd) rs)
  | st_learn T a pd1 pd2 rs f : seq (tomb a) + 1 < 2^64 ->
      step (mkWorld T a (pd1 ++ f :: pd2) rs) (mkWorld T (learnCommitted f a) (pd1 ++ pd2) rs)
  | st_lost T a pd1 pd2 rs f : seq (tomb a) + 1 < 2^64 ->
      step (mkWorld T a (pd1 ++ f :: pd2) rs) (mkWorld T (forget f a) (pd1 ++ pd2) rs)
  | st_dropped T a pd rs u : seq (tomb a) + 1 < 2^64 ->
      step (mkWorld T a pd rs) (mkWorld T (forget (analyzeUnit u) a) pd rs).

Inductive steps (w0 : world) : world -> Prop :=
  | run_start : steps w0 w0
  | run_step w w' : steps w0 w -> step w w' -> steps w0 w'.

(** ** Invariant *)
Definition apart (f g : unitFacts) : Prop := forall d, d ∈ kids f -> d ∉ kids g.

Definition read_ok (w : world) (r : inflight) : Prop :=
  rd_start r <= seq (tomb (anc w)) /\
  forall p, rd_ans r = Some p -> fresh (tomb (anc w)) (rd_dir r) (rd_start r) = true ->
  tree w !! rd_dir r = Some p \/ moving w (rd_dir r).

Record race_inv (w : world) : Prop := {
  ri_seq : 0 <= seq (tomb (anc w));
  ri_cache : forall d p, d <> rootIno -> dirParent (anc w) !! d = Some p -> tree w !! d = Some p \/ moving w d;
  ri_reads : Forall (read_ok w) (reads w);
  ri_pending : Forall (fun f => kids f ⊆ ftouched f /\ forall d, d ∈ kids f -> tree w !! d = commitT f ∅ !! d) (pending w);
  ri_disjoint : ForallOrdPairs apart (pending w);
}.

(** ** Tombstones *)
Lemma kill_seq ns t : seq t + 1 < 2^64 -> 0 <= seq t -> seq t <= seq (kill ns t) <= seq t + 1.
Proof. intros H1 H2. destruct ns; cbn; [lia|]. unfold u64. rewrite Z.mod_small; lia. Qed.

Lemma kill_lookup ns s : forall M : gmap Z Z, forall d,
  foldl (fun m n => <[n := s]> m) M ns !! d = if decide (d ∈ ns) then Some s else M !! d.
Proof.
  induction ns as [|n ns IH]; intros M d; cbn [foldl]; [by rewrite decide_False by apply not_elem_of_nil|].
  rewrite IH. destruct (decide (d = n)) as [->|Hn].
  - rewrite lookup_insert_eq. repeat case_decide; set_solver.
  - rewrite lookup_insert_ne by done. repeat case_decide; set_solver.
Qed.

(** A read that may be cached after a kill started after it or missed it. *)
Lemma fresh_kill ns t d s : seq t + 1 < 2^64 -> 0 <= seq t -> s <= seq t ->
  fresh (kill ns t) d s = true -> (d ∉ ns) /\ fresh t d s = true.
Proof.
  intros H1 H2 Hs. destruct ns as [|n ns]; [intros Hf; split; [apply not_elem_of_nil|done]|].
  unfold fresh, kill, u64. rewrite Z.mod_small by lia. cbn [seq floor tm].
  destruct (tombMax <? _); [rewrite (proj2 (Z.ltb_lt s (seq t + 1))) by lia; done|].
  destruct (s <? floor t); [done|]. rewrite kill_lookup. case_decide as E; [|done]. cbn. intros Hf. apply Z.leb_le in Hf. lia.
Qed.

(** ** Units in flight *)
Lemma apart_remove l1 f l2 : ForallOrdPairs apart (l1 ++ f :: l2) ->
  ForallOrdPairs apart (l1 ++ l2) /\ forall g, g ∈ l1 ++ l2 -> apart f g.
Proof.
  induction l1 as [|h l1 IH]; cbn; intros H; inversion H as [|? ? Hh Ht]; subst.
  - split; [done|]. intros g Hg. by eapply (proj1 (Forall_forall _ _)) in Hh.
  - destruct (IH Ht) as [H1 H2]. apply Forall_app in Hh as [Ha Hb]. apply Forall_cons in Hb as [Hf Hb]. split.
    + constructor; [by apply Forall_app|done].
    + intros g Hg. apply elem_of_cons in Hg as [-> | Hg]; [|by apply H2]. intros d Hd Hd'. by apply (Hf d).
Qed.

Lemma moving_remove T a a' l1 f l2 rs rs' d :
  moving (mkWorld T a (l1 ++ f :: l2) rs) d -> d ∉ kids f -> moving (mkWorld T a' (l1 ++ l2) rs') d.
Proof.
  intros (g & Hg & Hd) Hn. exists g. split; [|done]. cbn in *. apply elem_of_app in Hg as [Hg|Hg]; [set_solver|].
  apply elem_of_cons in Hg as [-> | Hg]; [done|set_solver].
Qed.

(** What settling a unit in flight, learnt or forgotten, does to the caches. *)
Lemma settle_inv T a a' l1 f l2 rs :
  race_inv (mkWorld T a (l1 ++ f :: l2) rs) -> seq (tomb a) + 1 < 2^64 -> tomb a' = kill (ftouched f) (tomb a) ->
  (forall d p, d <> rootIno -> dirParent a' !! d = Some p ->
    ((d ∉ kids f) /\ dirParent a !! d = Some p) \/ (d ∈ kids f /\ commitT f ∅ !! d = Some p)) ->
  race_inv (mkWorld T a' (l1 ++ l2) rs).
Proof.
  intros [Hseq Hca Hre Hpe Hdi] Hlt Ht Hd. cbn in *. apply apart_remove in Hdi as [Hdi Hap].
  pose proof Hpe as Hpe'. apply Forall_app in Hpe' as [Hp1 Hp2]. apply Forall_cons in Hp2 as [[Hk HT] Hp2].
  pose proof (kill_seq (ftouched f) (tomb a) Hlt Hseq) as Hs. rewrite <- Ht in Hs.
  constructor; cbn; [lia| | |by apply Forall_app|done].
  - intros d p Hr Hx. destruct (Hd d p Hr Hx) as [[Hn Ho]|[Hin Hc]].
    + destruct (Hca d p Hr Ho) as [|Hm]; [by left|]. right. by eapply moving_remove.
    + left. by rewrite HT.
  - eapply Forall_impl; [exact Hre|]. intros r [Hst Hans]. cbn in *. split; [cbn; lia|]. cbn. intros p Hp Hf. rewrite Ht in Hf.
    apply fresh_kill in Hf as [Hn Hf]; [|lia..]. destruct (Hans p Hp Hf) as [|Hm]; [by left|]. right.
    eapply moving_remove; [done|]. set_solver.
Qed.

Lemma learn_dirs f a d p : dirParent (learnCommitted f a) !! d = Some p ->
  ((d ∉ kids f) /\ dirParent a !! d = Some p) \/ (d ∈ kids f /\ commitT f ∅ !! d = Some p).
Proof.
  destruct (learnCommitted_spec f a) as (E & _). rewrite E. fold (commitT f (dirParent a)). intros Hx.
  destruct (decide (d ∈ kids f)) as [Hin|Hout]; [right|left]; split; try done.
  - by rewrite <- (commitT_kid f (dirParent a)).
  - by rewrite commitT_other in Hx.
Qed.

Lemma forget_lookup f a d p : d <> rootIno -> dirParent (forget f a) !! d = Some p -> (d ∉ ftouched f) /\ dirParent a !! d = Some p.
Proof. intros Hd. unfold forget. cbn. rewrite forget_dirs by done. by case_decide. Qed.

Lemma commit_inv T a pd rs u :
  race_inv (mkWorld T a pd rs) -> (forall d, d ∈ kids (analyzeUnit u) -> ~ moving (mkWorld T a pd rs) d) ->
  race_inv (mkWorld (commitT (analyzeUnit u) T) a (analyzeUnit u :: pd) rs).
Proof.
  intros [Hseq Hca Hre Hpe Hdi] Hu. cbn in *. set (f := analyzeUnit u) in *.
  assert (Hstay : forall d p, T !! d = Some p \/ moving (mkWorld T a pd rs) d ->
    commitT f T !! d = Some p \/ moving (mkWorld (commitT f T) a (f :: pd) rs) d).
  { intros d p Hor. destruct (decide (d ∈ kids f)) as [Hin|Hout]; [right; exists f; split; [by left|done]|].
    destruct Hor as [HT|(g & Hg & Hd)]; [left; by rewrite commitT_other|]. right. exists g. split; [by right|done]. }
  constructor; cbn; try done.
  - intros d p Hr Hx. apply Hstay. by apply Hca.
  - eapply Forall_impl; [exact Hre|]. intros r [Hst Hans]. split; [done|]. cbn in *. intros p Hp Hf. apply Hstay. by apply Hans.
  - constructor; [split; [apply analyzeUnit_touches|]; intros d Hd; by apply commitT_kid|].
    apply Forall_forall. intros g Hg. pose proof (proj1 (Forall_forall _ _) Hpe g Hg) as [Hk HT]. split; [done|].
    intros d Hd. rewrite commitT_other; [by apply HT|]. intros Hin. apply (Hu d Hin). by exists g.
  - constructor; [|done]. apply Forall_forall. intros g Hg d Hd Hd'. apply (Hu d Hd). by exists g.
Qed.

Lemma step_inv w w' : step w w' -> race_inv w -> race_inv w'.
Proof.
  intros [T a pd rs d|T a pd rs1 rs2 d s p HT|T a pd rs1 rs2 d s p|T a pd rs u Hu|T a pd1 pd2 rs f Hs|T a pd1 pd2 rs f Hs|T a pd rs u Hs] Hi;
    pose proof Hi as [Hseq Hca Hre Hpe Hdi]; cbn in *.
  - constructor; try done. constructor; [|done]. split; [done|]. done.
  - constructor; try done. cbn. apply Forall_app in Hre as [H1 H2]. apply Forall_cons in H2 as [[H2 _] H3].
    apply Forall_app. split; [done|]. constructor; [|done]. split; [done|]. intros q [= <-] _. by left.
  - apply Forall_app in Hre as [H1 H2]. apply Forall_cons in H2 as [[H2 Hans] H3].
    assert (HV : tomb (cacheDir d p s a) = tomb a) by (unfold cacheDir; by case_match).
    constructor; cbn; rewrite ?HV; try done.
    + intros x q Hx Hq. unfold cacheDir in Hq. destruct (fresh (tomb a) d s) eqn:Ef; cbn in Hq; [|by apply Hca].
      case_match; [|by apply Hca]. cbn in Hq. destruct (decide (x = d)) as [->|Hn].
      * rewrite lookup_insert_eq in Hq. injection Hq as <-. by apply (Hans p).
      * rewrite lookup_insert_ne in Hq by done. by apply Hca.
    + apply Forall_app. unfold read_ok in *. cbn in *. by rewrite HV.
  - apply commit_inv; done.
  - eapply settle_inv; [done|done|by apply learnCommitted_spec|]. intros x p _. apply learn_dirs.
  - eapply settle_inv; [done|done|done|]. intros x p Hx Hp. apply forget_lookup in Hp as [Hn Hp]; [|done]. left. split; [|done].
    apply Forall_app in Hpe as [_ Hpe]. apply Forall_cons in Hpe as [[Hk _] _]. set_solver.
  - pose proof (kill_seq (ftouched (analyzeUnit u)) (tomb a) Hs Hseq) as Hk. constructor; cbn; try done; [lia| |].
    + intros x p Hx Hp. apply forget_lookup in Hp as [_ Hp]; [|done]. by apply Hca.
    + eapply Forall_impl; [exact Hre|]. intros r [Hst Hans]. split; [cbn in *; lia|]. cbn in *. intros p Hp Hf.
      apply fresh_kill in Hf as [_ Hf]; [|lia..]. by apply (Hans p).
Qed.

Lemma start_inv T d dep fileCap : race_inv (mkWorld T (newAncestry d dep fileCap) [] []).
Proof.
  constructor; cbn; [done| |constructor..]. intros x p Hx Hp. left. by apply (coherent_new T d dep fileCap).
Qed.

Lemma run_inv w0 w : race_inv w0 -> steps w0 w -> race_inv w.
Proof. intros H0. induction 1 as [|w w' _ IH Hs]; [done|]. by eapply step_inv. Qed.


(** A read of /top/proj/sub answered before its move to /top and filled after. *)
Module RaceExample.
Import GuardExamples TreeExamples.
Definition move : Unit := placed_unit [["HDEL"; "d3"; "sub"]; ["HSET"; "d2"; "sub"; entry 2 5]; ["SET"; "i5"; attr 2 2]].
Definition facts : unitFacts := analyzeUnit move.
Definition learnt : ancestry := learnCommitted facts a0.
Definition last : world := mkWorld (commitT facts TreeExamples.tree) (cacheDir 5 3 0 learnt) [] [].
Lemma last_run : steps (mkWorld TreeExamples.tree a0 [] []) last.
Proof.
  eapply run_step; [|apply (st_fill _ learnt [] [] [] 5 0 3)].
  eapply run_step; [|apply (st_learn _ a0 [] [] _ facts); vm_compute; reflexivity].
  eapply run_step; [|apply (st_commit TreeExamples.tree a0 [] _ move); intros d _ (f & Hf & _); by apply not_elem_of_nil in Hf].
  eapply run_step; [|apply (st_answer _ a0 [] [] [] 5 0 3); vm_compute; reflexivity].
  eapply run_step; [constructor|apply (st_begin _ a0 [] [] 5)].
Qed.
End RaceExample.

