(* ===== verification/LeaseStore.v ===== *)
(** * Lease records in Redis (internal/respproxy/leases.go, the scripts)

    Redis is a map of keys to strings and hashes.  The two scripts the engine
    runs are functions on it: they are atomic, and an error reply comes before
    any write.  Epochs are decimal strings there, as in the scripts. *)

From S2P Require Import Prelude GoLib Resp Classify.

(** ** Keys and values *)
Inductive rval : Type := RString (s : string) | RHash (h : gmap string string) | ROther.
Abbreviation redis := (gmap string rval).

Definition LeaseKeyPrefix : string := "jmlease:v1:p:".
Definition EpochKeyPrefix : string := "jmlease:v1:epoch:".
Definition leaseKey (proj : Z) : string := LeaseKeyPrefix +:+ FormatUint proj.
Definition epochKey (proj : Z) : string := EpochKeyPrefix +:+ FormatUint proj.

Definition boolStr (b : bool) : string := if b then "1" else "0".

(** A decimal of an int64 above 0, as Redis INCR leaves it. *)
Definition persistedLeaseEpoch (raw : string) : option Z :=
  let '(n, ok) := ParseInt raw in
  if ok && (0 <? n) && (FormatInt n =s raw) then Some n else None.

(** ** leaseTransitionLua *)
Definition maxEpoch : string := "9223372036854775807".

(** [valid]: the same decimals, without arithmetic. *)
Definition lua_valid (s : string) : bool :=
  match s with
  | "" => false
  | String c r =>
      negb (Ascii.eqb c "0") && all_digits s &&
      ((slen s <? 19) || ((slen s =? 19) && String.leb s maxEpoch))
  end.

Inductive leaseOp : Type := OpGrant | OpRenew | OpEnd.
#[export] Instance leaseOp_eq_dec : EqDecision leaseOp.
Proof. solve_decision. Defined.
Definition isGrant (op : leaseOp) : bool := match op with OpGrant => true | _ => false end.
Definition isRenew (op : leaseOp) : bool := match op with OpRenew => true | _ => false end.

(** ARGV[4..13]: the record to write. *)
Record leaseArgs : Type := mkArgs {
  a_holder : string; a_kind : string; a_host : string; a_mode : string;
  a_granted : string; a_lastWrite : string; a_lastHb : string; a_until : string;
  a_pending : string; a_label : string;
}.

(** Redis INCR of a missing key or a valid counter. *)
Definition incr (counter : option string) : string :=
  FormatInt (fst (ParseInt (default "0" counter)) + 1).

Definition leaseFields (op : leaseOp) (counter : string) (a : leaseArgs) : list (string * string) :=
  [("holder", a_holder a); ("kind", a_kind a); ("host", a_host a); ("epoch", counter); ("mode", a_mode a);
   ("granted_ms", a_granted a); ("last_write_ms", a_lastWrite a); ("last_hb_ms", a_lastHb a);
   ("checkout_until_ms", a_until a); ("pending", a_pending a); ("label", a_label a)] ++
  (if isGrant op then [("e:" +:+ a_holder a, counter)] else []).

Definition hset (h : gmap string string) (fs : list (string * string)) : gmap string string :=
  foldl (fun h fv => <[fst fv := snd fv]> h) h fs.

Definition leaseTransitionLua (k1 k2 : string) (op : leaseOp) (expectedEpoch expectedHolder : string) (a : leaseArgs)
    (r : redis) : result string string * redis :=
  match r !! k1, r !! k2 with
  | (None | Some (RString _)) as c, (None | Some (RHash _)) as hv =>
      let counter := match c with Some (RString s) => Some s | _ => None end in
      let h := match hv with Some (RHash h) => Some h | _ => None end in
      if negb (default true (lua_valid <$> counter)) then (Err "invalid lease counter", r)
      else
        if match h with
           | Some h => negb (default false (lua_valid <$> h !! "epoch")) || negb (bool_decide (h !! "epoch" = counter)) ||
                       bool_decide (h !! "holder" = None)
           | None => false
           end
        then (Err "incoherent lease hash", r)
        else
          let hashEpoch := match h with Some h => default "" (h !! "epoch") | None => "0" end in
          let hashHolder := match h with Some h => default "" (h !! "holder") | None => "" end in
          if negb (expectedEpoch =s hashEpoch) || negb (expectedHolder =s hashHolder) then (Err "lease changed", r)
          else if isGrant op && negb (hashHolder =s "") then (Err "lease held", r)
          else if negb (isGrant op) && (bool_decide (h = None) || (hashHolder =s "")) then (Err "lease not held", r)
          else if negb (isRenew op) && bool_decide (counter = Some maxEpoch) then (Err "lease epoch overflow", r)
          else
            let r' := if negb (isRenew op) then <[k1 := RString (incr counter)]> r else r in
            let counter' := if negb (isRenew op) then incr counter else default "" counter in
            (Ok counter', <[k2 := RHash (hset (default ∅ h) (leaseFields op counter' a))]> r')
  | _, _ => (Err "lease key type mismatch", r)
  end.

(** ** leaseFlushLua: [None] for a Redis error (wrong type) *)
Definition getStr (r : redis) (k : string) : option (option string) :=
  match r !! k with None => Some None | Some (RString s) => Some (Some s) | _ => None end.
Definition hget (r : redis) (k f : string) : option (option string) :=
  match r !! k with None => Some None | Some (RHash h) => Some (h !! f) | _ => None end.

Definition leaseFlushLua (k1 k2 epoch holder lastWrite lastHb pending : string) (r : redis) : result string Z * redis :=
  match getStr r k1, hget r k2 "epoch", hget r k2 "holder" with
  | Some c, Some h, Some hd =>
      if bool_decide (c <> Some epoch) || bool_decide (h <> Some epoch) || bool_decide (hd <> Some holder)
      then (Err "lease flush tenure changed", r)
      else match r !! k2 with
           | Some (RHash h) =>
               (Ok 1, <[k2 := RHash (hset h [("last_write_ms", lastWrite); ("last_hb_ms", lastHb); ("pending", pending)])]> r)
           | _ => (Err "lease flush tenure changed", r)
           end
  | _, _, _ => (Err "WRONGTYPE", r)
  end.

(** ** loadLeaseRecordLua: GET and HGETALL, as one reply; [perm] is the order of a hash *)
Definition bulkOf (s : string) : Value := mkValue "$" s 0 [] false.
Definition loadLeaseRecordLua (perm : forall A : Type, list A -> list A) (k1 k2 : string) (r : redis) : result string Value :=
  match getStr r k1, r !! k2 with
  | Some c, (None | Some (RHash _)) as hv =>
      let h := match hv with Some (RHash h) => h | _ => ∅ end in
      Ok (mkValue "*" "" 0
        [match c with Some s => bulkOf s | None => mkValue "$" "" 0 [] true end;
         mkValue "*" "" 0 (mjoin ((fun fv => [bulkOf (fst fv); bulkOf (snd fv)]) <$> perm _ (map_to_list h))) false] false)
  | _, _ => Err "WRONGTYPE"
  end.

#[global] Arguments leaseFields : simpl never.
#[global] Arguments hset : simpl never.
#[global] Arguments incr : simpl never.
#[global] Arguments persistedLeaseEpoch : simpl never.
