(* ===== verification/Leases.v ===== *)
(** * The lease table (internal/respproxy/leases.go)

    The engine keeps one [lease] per project in memory and its record in
    Redis.  Operations are state-passing over [engine], which holds the table,
    the resolver, the Redis lease keys, and counters of the calls and clock
    readings made so far.  [net n] says what becomes of call [n]: its reply
    may be lost before or after the script ran.  Every operation here runs
    with the fence of its project held for writing, so it is one step.  Log
    entries and the reasons in them are left out. *)

From stdpp Require Import sorting.
From S2P Require Import Prelude GoLib Resp Classify Policy Guard GuardCheck TxnUnit Ancestry LeaseStore.

(** ** Leases *)
Definition LeaseAuto : string := "auto".
Definition LeaseCheckout : string := "checkout".

Record lease : Type := mkLease {
  ls_proj : Z; ls_holder : string; ls_kind : string; ls_host : string; ls_epoch : Z; ls_mode : string;
  ls_grantedMs : Z; ls_lastWriteMs : Z; ls_lastHbMs : Z; ls_checkoutUntilMs : Z; ls_pending : bool; ls_label : string;
  ls_hist : gmap string Z; ls_recent : gmap string Z; ls_dirty : bool; ls_unresolved : bool;
}.
Definition newLease (proj : Z) : lease := mkLease proj "" "" "" 0 "" 0 0 0 0 false "" ∅ ∅ false false.

Definition held (l : lease) : bool := negb (ls_holder l =s "").
Definition liveMs (l : lease) : Z := if ls_lastHbMs l <? ls_lastWriteMs l then ls_lastWriteMs l else ls_lastHbMs l.

Record leaseSnap : Type := mkSnap {
  sn_Proj : Z; sn_Holder : string; sn_Kind : string; sn_Host : string; sn_Epoch : Z; sn_Mode : string;
  sn_GrantedMs : Z; sn_LastWriteMs : Z; sn_LastHbMs : Z; sn_CheckoutUntilMs : Z; sn_Pending : bool; sn_Label : string;
}.
Definition snap (l : lease) : leaseSnap :=
  mkSnap (ls_proj l) (ls_holder l) (ls_kind l) (ls_host l) (ls_epoch l) (ls_mode l) (ls_grantedMs l) (ls_lastWriteMs l)
    (ls_lastHbMs l) (ls_checkoutUntilMs l) (ls_pending l) (ls_label l).
Definition noSnap : leaseSnap := snap (newLease 0).

(** Another principal held the project after [principal]'s last epoch. *)
Definition foreignSince (l : lease) (principal : string) : bool :=
  let mine := default 0 (ls_hist l !! principal) in
  existsb (fun '(q, ep) => negb (q =s principal) && (mine <? ep)) (map_to_list (ls_hist l)).

Definition set_unresolved (b : bool) (l : lease) : lease :=
  mkLease (ls_proj l) (ls_holder l) (ls_kind l) (ls_host l) (ls_epoch l) (ls_mode l) (ls_grantedMs l) (ls_lastWriteMs l)
    (ls_lastHbMs l) (ls_checkoutUntilMs l) (ls_pending l) (ls_label l) (ls_hist l) (ls_recent l) (ls_dirty l) b.
Definition set_dirty (b : bool) (l : lease) : lease :=
  mkLease (ls_proj l) (ls_holder l) (ls_kind l) (ls_host l) (ls_epoch l) (ls_mode l) (ls_grantedMs l) (ls_lastWriteMs l)
    (ls_lastHbMs l) (ls_checkoutUntilMs l) (ls_pending l) (ls_label l) (ls_hist l) (ls_recent l) b (ls_unresolved l).

(** ** Configuration *)
Definition Second : Z := 10^9.
Definition Milliseconds (d : Z) : Z := Z.quot d (10^6).
(** [t.UnixMilli()] of an instant in nanoseconds. *)
Definition ms (t : Z) : Z := t / 10^6.

Record leaseCfg : Type := mkCfg { c_idle : Z; c_orphan : Z; c_checkoutMax : Z; c_depth : Z }.
Definition DefaultProjectDepth : Z := 2.
Definition ProjectDepth (v : string) : Z :=
  let '(n, ok) := ParseInt v in
  if negb ok || (n <=? 0) || (16 <? n) then DefaultProjectDepth else n.
Definition defaultLeaseCfg : leaseCfg :=
  mkCfg (4 * 3600 * Second) (10 * 60 * Second) (72 * 3600 * Second) DefaultProjectDepth.
Definition DirStatGrace : Z := 5 * 60 * Second.

(** One field of jmlease:v1:cfg. *)
Definition cfgField (c : leaseCfg) (fv : string * string) : leaseCfg :=
  let '(n, ok) := ParseInt (snd fv) in
  if negb ok || (n <=? 0) then c
  else if fst fv =s "idle_s" then mkCfg (i64 (n * Second)) (c_orphan c) (c_checkoutMax c) (c_depth c)
  else if fst fv =s "orphan_s" then mkCfg (c_idle c) (i64 (n * Second)) (c_checkoutMax c) (c_depth c)
  else if fst fv =s "checkout_max_s" then mkCfg (c_idle c) (c_orphan c) (i64 (n * Second)) (c_depth c)
  else if fst fv =s "depth" then mkCfg (c_idle c) (c_orphan c) (c_checkoutMax c) (ProjectDepth (snd fv))
  else c.

(** ** The engine *)
Record engine : Type := mkEngine {
  anc : ancestry;
  leases : gmap Z lease;
  lcfg : leaseCfg;
  depthFixed : Z;
  store : redis;
  calls : nat;
  ticks : nat;
}.
Definition set_anc (x : ancestry) (e : engine) : engine := mkEngine x (leases e) (lcfg e) (depthFixed e) (store e) (calls e) (ticks e).
Definition set_leases (x : gmap Z lease) (e : engine) : engine := mkEngine (anc e) x (lcfg e) (depthFixed e) (store e) (calls e) (ticks e).
Definition set_lcfg (x : leaseCfg) (e : engine) : engine := mkEngine (anc e) (leases e) x (depthFixed e) (store e) (calls e) (ticks e).
Definition set_lease (l : lease) (e : engine) : engine := set_leases (<[ls_proj l := l]> (leases e)) e.

(** What becomes of a call: its reply, or an error before or after it ran. *)
Inductive fate : Type := Replied | LostBefore (err : string) | LostAfter (err : string).

Definition KindStr (k : Kind) : string :=
  match k with
  | KindMac => "mac" | KindFarm => "farm" | KindManager => "manager"
  | KindBG => "bg" | KindWebDAV => "webdav" | KindAdmin => "admin"
  end.

(** ** Transitions of one record *)
Definition renewed (now : Z) (mode : string) (ttl checkoutMax : Z) (l : lease) : lease :=
  let until := ms (now + ttl) in
  let limit := ls_grantedMs l + Milliseconds checkoutMax in
  mkLease (ls_proj l) (ls_holder l) (ls_kind l) (ls_host l) (ls_epoch l)
    (if mode =s LeaseCheckout then LeaseCheckout else ls_mode l) (ls_grantedMs l) (ls_lastWriteMs l) (ms now)
    (if mode =s LeaseCheckout then (if limit <? until then limit else until) else ls_checkoutUntilMs l)
    (ls_pending l) (ls_label l) (ls_hist l) (ls_recent l) (ls_dirty l) (ls_unresolved l).

Definition granted (p : Principal) (now : Z) (mode : string) (ttl : Z) (lbl : string) (l : lease) : lease :=
  mkLease (ls_proj l) (PName p) (KindStr (PKind p)) (host p) (ls_epoch l) mode (ms now) (ms now) (ms now)
    (if mode =s LeaseCheckout then ms (now + ttl) else 0) false (if lbl =s "" then ls_label l else lbl)
    (ls_hist l) (delete (PName p) (ls_recent l)) (ls_dirty l) (ls_unresolved l).

Definition ended (now : Z) (l : lease) : lease :=
  mkLease (ls_proj l) "" "" "" (ls_epoch l) "" (ls_grantedMs l) (ls_lastWriteMs l) (ls_lastHbMs l) 0 false (ls_label l)
    (ls_hist l) (<[ls_holder l := ms now]> (ls_recent l)) false (ls_unresolved l).

(** The record a transition settled on: the epoch Redis gave it. *)
Definition settled (ep : Z) (hist : gmap string Z) (l : lease) : lease :=
  mkLease (ls_proj l) (ls_holder l) (ls_kind l) (ls_host l) ep (ls_mode l) (ls_grantedMs l) (ls_lastWriteMs l)
    (ls_lastHbMs l) (ls_checkoutUntilMs l) (ls_pending l) (ls_label l) hist (ls_recent l) (ls_dirty l) false.

Definition wrote (now : Z) (l : lease) : lease :=
  mkLease (ls_proj l) (ls_holder l) (ls_kind l) (ls_host l) (ls_epoch l) (ls_mode l) (ls_grantedMs l) now
    (ls_lastHbMs l) (ls_checkoutUntilMs l) (ls_pending l) (ls_label l) (ls_hist l) (ls_recent l) true (ls_unresolved l).
Definition beat (now : Z) (pending : bool) (l : lease) : lease :=
  mkLease (ls_proj l) (ls_holder l) (ls_kind l) (ls_host l) (ls_epoch l) (ls_mode l) (ls_grantedMs l) (ls_lastWriteMs l)
    now (ls_checkoutUntilMs l) pending (ls_label l) (ls_hist l) (ls_recent l) true (ls_unresolved l).

Definition recordOf (l : lease) : leaseArgs :=
  mkArgs (ls_holder l) (ls_kind l) (ls_host l) (ls_mode l) (FormatInt (ls_grantedMs l)) (FormatInt (ls_lastWriteMs l))
    (FormatInt (ls_lastHbMs l)) (FormatInt (ls_checkoutUntilMs l)) (boolStr (ls_pending l)) (ls_label l).

(** ** Lifetimes *)
Inductive expiry : Type := CheckoutEnded | Orphaned | Idle.
#[export] Instance expiry_eq_dec : EqDecision expiry.
Proof. solve_decision. Defined.

Definition expiryReason (l : lease) (now : Z) (c : leaseCfg) : option expiry :=
  if negb (held l) || ls_unresolved l then None
  else if ls_mode l =s LeaseCheckout then
    if (0 <? ls_checkoutUntilMs l) && (ls_checkoutUntilMs l <=? now) then Some CheckoutEnded else None
  else if Milliseconds (c_orphan c) <=? now - liveMs l then Some Orphaned
  else if (Milliseconds (c_idle c) <=? now - ls_lastWriteMs l) && negb (ls_pending l) then Some Idle
  else None.

Definition expiresMs (c : leaseCfg) (l : lease) : Z :=
  if negb (held l) then 0
  else if ls_mode l =s LeaseCheckout then ls_checkoutUntilMs l
  else liveMs l + Milliseconds (c_orphan c).

Definition snapLe (a b : leaseSnap) : Prop := sn_Proj a <= sn_Proj b.
#[export] Instance snapLe_dec : RelDecision snapLe.
Proof. intros a b. unfold snapLe. apply _. Defined.

(** [sort.Slice] on project numbers, which are distinct. *)
Definition sortZ (l : list Z) : list Z := merge_sort Z.le l.

Section ops.
Context (perm : forall A : Type, list A -> list A) (clock : nat -> Z) (net : nat -> fate).
Abbreviation M := (SM engine string).

Definition now : M Z := fun e =>
  (Ok (clock (ticks e)), mkEngine (anc e) (leases e) (lcfg e) (depthFixed e) (store e) (calls e) (Datatypes.S (ticks e))).

(** A script sent to Redis. *)
Definition call {A} (script : redis -> result string A * redis) : M A := fun e =>
  let sent st := mkEngine (anc e) (leases e) (lcfg e) (depthFixed e) st (Datatypes.S (calls e)) (ticks e) in
  let '(r, st) := script (store e) in
  match net (calls e) with
  | Replied => (r, sent st)
  | LostBefore err => (Err err, sent (store e))
  | LostAfter err => (Err err, sent st)
  end.

Definition put (proj : Z) (l : lease) : M unit := sm_modify (fun e => set_leases (<[proj := l]> (leases e)) e).

Definition leaseLocked (proj : Z) : M lease :=
  e ← sm_get;
  match leases e !! proj with
  | Some l => mret l
  | None => put proj (newLease proj) ≫= fun _ => mret (newLease proj)
  end.

Definition errProtocol : string := "respproxy: protocol error".
Definition errUnresolved (proj : Z) : string := "lease " +:+ FormatUint proj +:+ " transition unresolved".

Definition transition (op : leaseOp) (old next : lease) : M Z :=
  v ← call (leaseTransitionLua (epochKey (ls_proj old)) (leaseKey (ls_proj old)) op (FormatUint (ls_epoch old)) (ls_holder old)
              (recordOf next));
  match persistedLeaseEpoch v with
  | None => sm_err errProtocol
  | Some ep =>
      let ok := match op with
                | OpRenew => ep =? ls_epoch old
                | OpGrant => (ls_epoch old =? 0) || (ep =? u64 (ls_epoch old + 1))
                | OpEnd => ep =? u64 (ls_epoch old + 1)
                end in
      if ok then mret ep else sm_err errProtocol
  end.

Definition grantLocked (p : Principal) (proj : Z) (mode : string) (ttl : Z) : M (leaseSnap * bool) :=
  t ← now;
  l ← leaseLocked proj;
  if ls_unresolved l then sm_err (errUnresolved proj)
  else if held l && negb (ls_holder l =s PName p) then mret (snap l, false)
  else
    e ← sm_get;
    let fs := foreignSince l (PName p) in
    let op := if held l then OpRenew else OpGrant in
    let next := if held l then renewed t mode ttl (c_checkoutMax (lcfg e)) l else granted p t mode ttl (label (anc e) proj) l in
    put proj (set_unresolved true l) ≫= fun _ =>
    ep ← transition op l next;
    let next := settled ep (if held l then ls_hist next else <[PName p := ep]> (ls_hist next)) next in
    put proj next ≫= fun _ => mret (snap next, fs).

Definition endLocked (proj : Z) : M (leaseSnap * Z) :=
  e ← sm_get;
  match leases e !! proj with
  | None => mret (noSnap, 0)
  | Some l =>
      if ls_unresolved l then sm_err (errUnresolved proj)
      else if negb (held l) then mret (noSnap, 0)
      else
        t ← now;
        let next := ended t l in
        put proj (set_unresolved true l) ≫= fun _ =>
        ep ← transition OpEnd l next;
        let next := settled ep (ls_hist next) next in
        put proj next ≫= fun _ => mret (snap l, ep)
  end.

(** A call whose error is only logged. *)
Definition logged {A} (m : M A) : M unit := fun e => (Ok tt, snd (m e)).
Definition attempt {A} (m : M A) : M (result string A) := fun e => (Ok (fst (m e)), snd (m e)).

(** An admitted write of [p] to projects it holds. *)
Definition touchLeases (p : Principal) (projs : list Z) : M unit :=
  t ← now;
  mfor projs (fun pr =>
    e ← sm_get;
    match leases e !! pr with
    | Some l => if negb (ls_unresolved l) && (ls_holder l =s PName p) then put pr (wrote (ms t) l) else mret tt
    | None => mret tt
    end).

(** The loops of [heartbeat] over the table, entry by entry. *)
Definition beats (p : Principal) (t : Z) (pending : gset Z) (l : lease) : lease :=
  if (ls_holder l =s PName p) && negb (ls_unresolved l) then beat t (bool_decide (ls_proj l ∈ pending)) l else l.

Definition heartbeat (p : Principal) (pending : gset Z) : M (list leaseSnap * list Z) :=
  t ← now;
  e ← sm_get;
  let mine := filter (fun kl => ls_holder (snd kl) = PName p) (map_to_list (leases e)) in
  let lost1 := (fun kl => ls_proj (snd kl)) <$> filter (fun kl => ls_unresolved (snd kl) = true) mine in
  let heldNow := (fun kl => beats p (ms t) pending (snd kl)) <$> filter (fun kl => ls_unresolved (snd kl) = false) mine in
  let lost2 := List.filter (fun pr => match leases e !! pr with Some l => negb (ls_holder l =s PName p) | None => true end) (elements pending) in
  sm_modify (fun e => set_leases (beats p (ms t) pending <$> leases e) e) ≫= fun _ =>
  mret (merge_sort snapLe (snap <$> heldNow), sortZ (lost1 ++ lost2)).

(** ** The sweeper and the flusher *)
Definition sweepOne (c : leaseCfg) (pr : Z) : M unit :=
  t ← now;
  e ← sm_get;
  match leases e !! pr with
  | Some l => if bool_decide (is_Some (expiryReason l (ms t) c)) then logged (endLocked pr) else mret tt
  | None => mret tt
  end.

Definition sweep : M unit :=
  e ← sm_get;
  let c := lcfg e in
  t ← now;
  let cands := fst <$> filter (fun kl => is_Some (expiryReason (snd kl) (ms t) c)) (map_to_list (leases e)) in
  mfor (sortZ cands) (sweepOne c).

Definition flushed (r : result string Z) : bool := match r with Ok n => n =? 1 | Err _ => false end.

(** Once Redis answered: a heartbeat meanwhile keeps the lease dirty. *)
Definition flushEnd (pr write hb : Z) (pending ok : bool) : M unit :=
  e ← sm_get;
  match leases e !! pr with
  | None => mret tt
  | Some l =>
      if negb ok then put pr (set_unresolved true l)
      else if (ls_lastWriteMs l =? write) && (ls_lastHbMs l =? hb) && eqb (ls_pending l) pending then put pr (set_dirty false l)
      else mret tt
  end.

Definition flushCall (pr : Z) (l : lease) : M Z :=
  call (leaseFlushLua (epochKey pr) (leaseKey pr) (FormatUint (ls_epoch l)) (ls_holder l)
          (FormatInt (ls_lastWriteMs l)) (FormatInt (ls_lastHbMs l)) (boolStr (ls_pending l))).

Definition flushOne (pr : Z) : M unit :=
  e ← sm_get;
  match leases e !! pr with
  | None => mret tt
  | Some l =>
      if negb (ls_dirty l) || negb (held l) || ls_unresolved l then mret tt
      else
        r ← attempt (flushCall pr l);
        flushEnd pr (ls_lastWriteMs l) (ls_lastHbMs l) (ls_pending l) (flushed r)
  end.

Definition flushDirty : M unit :=
  e ← sm_get;
  let projects := fst <$> filter (fun kl => ls_dirty (snd kl) && held (snd kl) && negb (ls_unresolved (snd kl)) = true)
                                 (map_to_list (leases e)) in
  mfor (sortZ projects) flushOne.

Definition heldWithin (p : Principal) (proj d : Z) : M bool :=
  t ← now;
  e ← sm_get;
  mret match leases e !! proj with
       | None => false
       | Some l =>
           if ls_unresolved l then false
           else if ls_holder l =s PName p then true
           else match ls_recent l !! PName p with Some r => ms t - r <=? Milliseconds d | None => false end
       end.

(** ** Loading *)

(** [loadLeaseRecord]: the fields of the hash, once it agrees with the counter. *)
Definition hashFields (vs : list Value) : option (list (string * string)) :=
  mapM (fun fv => if Ascii.eqb (VType (fst fv)) "$" && negb (VNull (fst fv)) && Ascii.eqb (VType (snd fv)) "$" && negb (VNull (snd fv))
                  then Some (VStr (fst fv), VStr (snd fv)) else None) (pairs vs).

Definition recordEpoch (fs : list (string * string)) : option Z :=
  match filter (fun fv => fst fv = "epoch") fs with
  | [fv] => persistedLeaseEpoch (snd fv)
  | _ => None
  end.

(** Its messages for a missing, malformed or disagreeing record are one here. *)
Definition errRecord (proj : Z) : string := "lease " +:+ FormatUint proj +:+ ": missing or malformed persisted epoch/hash".

Definition loadLeaseRecord (proj : Z) : M (list (string * string)) :=
  v ← call (fun r => (loadLeaseRecordLua perm (epochKey proj) (leaseKey proj) r, r));
  match Ascii.eqb (VType v) "*", VElems v with
  | true, [c; h] =>
      if negb (Ascii.eqb (VType c) "$") || VNull c || negb (Ascii.eqb (VType h) "*") ||
         bool_decide (VElems h = []) || negb (Nat.even (length (VElems h)))
      then sm_err (errRecord proj)
      else
        match persistedLeaseEpoch (VStr c), hashFields (VElems h) with
        | Some counter, Some fs =>
            if bool_decide (recordEpoch fs = Some counter) then mret fs else sm_err (errRecord proj)
        | _, _ => sm_err (errRecord proj)
        end
  | _, _ => sm_err (errRecord proj)
  end.

(** One field of a record. *)
Definition loadField (l : lease) (fv : string * string) : lease :=
  let f := fst fv in let val := snd fv in
  let n := fst (ParseInt val) in
  let '(mkLease proj holder kind hst ep mode gr lw hb cu pend lbl hist recent dirty unres) := l in
  if f =s "holder" then mkLease proj val kind hst ep mode gr lw hb cu pend lbl hist recent dirty unres
  else if f =s "kind" then mkLease proj holder val hst ep mode gr lw hb cu pend lbl hist recent dirty unres
  else if f =s "host" then mkLease proj holder kind val ep mode gr lw hb cu pend lbl hist recent dirty unres
  else if f =s "epoch" then mkLease proj holder kind hst (u64 n) mode gr lw hb cu pend lbl hist recent dirty unres
  else if f =s "mode" then mkLease proj holder kind hst ep val gr lw hb cu pend lbl hist recent dirty unres
  else if f =s "granted_ms" then mkLease proj holder kind hst ep mode n lw hb cu pend lbl hist recent dirty unres
  else if f =s "last_write_ms" then mkLease proj holder kind hst ep mode gr n hb cu pend lbl hist recent dirty unres
  else if f =s "last_hb_ms" then mkLease proj holder kind hst ep mode gr lw n cu pend lbl hist recent dirty unres
  else if f =s "checkout_until_ms" then mkLease proj holder kind hst ep mode gr lw hb n pend lbl hist recent dirty unres
  else if f =s "pending" then mkLease proj holder kind hst ep mode gr lw hb cu (val =s "1") lbl hist recent dirty unres
  else if f =s "label" then mkLease proj holder kind hst ep mode gr lw hb cu pend val hist recent dirty unres
  else if HasPrefix f "e:" then
    mkLease proj holder kind hst ep mode gr lw hb cu pend lbl (<[TrimPrefix f "e:" := u64 n]> hist) recent dirty unres
  else l.

(** Nobody could heartbeat while the proxy was down. *)
Definition wake (startMs : Z) (l : lease) : lease :=
  if held l && (ls_lastHbMs l <? startMs) then
    mkLease (ls_proj l) (ls_holder l) (ls_kind l) (ls_host l) (ls_epoch l) (ls_mode l) (ls_grantedMs l) (ls_lastWriteMs l)
      startMs (ls_checkoutUntilMs l) (ls_pending l) (ls_label l) (ls_hist l) (ls_recent l) (ls_dirty l) (ls_unresolved l)
  else l.

Definition loadKey (startMs : Z) (cands : gmap Z lease) (key : string) : M (gmap Z lease) :=
  match digits (TrimPrefix key LeaseKeyPrefix) with
  | Some proj =>
      if (proj =? 0) || negb (leaseKey proj =s key) then sm_err ("malformed persisted lease key " +:+ key)
      else
        h ← loadLeaseRecord proj;
        mret (<[proj := wake startMs (foldl loadField (newLease proj) h)]> cands)
  | None => sm_err ("malformed persisted lease key " +:+ key)
  end.

(** [scan cursor]: Redis SCAN on the lease keys; [fuel] bounds its rounds. *)
Fixpoint loadLeases (scan : redis -> string -> string * list string) (startMs : Z) (fuel : nat) (cursor : string)
    (cands : gmap Z lease) : M unit :=
  match fuel with
  | O => sm_err "scan did not end"
  | Datatypes.S fuel' =>
      sv ← call (fun r => (Ok (scan r cursor), r));
      cands ← mfold (loadKey startMs) cands (snd sv);
      if fst sv =s "0" then sm_modify (set_leases cands)
      else loadLeases scan startMs fuel' (fst sv) cands
  end.

(** [loadCfg] on the reply of HGETALL jmlease:v1:cfg; [None]: it failed. *)
Definition loadCfg (reply : option (list (string * string))) : M unit :=
  match reply with
  | None => mret tt
  | Some fs =>
      let c := foldl cfgField defaultLeaseCfg fs in
      sm_modify (fun e => set_lcfg (mkCfg (c_idle c) (c_orphan c) (c_checkoutMax c)
                                     (if depthFixed e =? 0 then c_depth c else depthFixed e)) e)
  end.
End ops.
