(* ===== verification/LeaseFacts.v ===== *)
(** * Facts about lease records

    Decimal epochs, what the transition script does to a well-formed record,
    and the tenures it steps through. *)

From S2P Require Import Prelude GoLib Resp Classify ClassifyFacts LeaseStore.

(** ** Decimal epochs *)
Lemma parse_dec_range s : forall x v, 0 <= x -> parse_dec x s = Some v ->
  x * 10 ^ Z.of_nat (String.length s) <= v < (x + 1) * 10 ^ Z.of_nat (String.length s).
Proof.
  induction s as [|c s IH]; intros x v Hx H; cbn [parse_dec String.length] in *; [injection H as <-; lia|].
  destruct (char_digit c) as [d|] eqn:Ed; cbn in H; [|discriminate]. apply char_digit_inv in Ed as [Hd _].
  apply IH in H; [|lia]. rewrite Nat2Z.inj_succ, Z.pow_succ_r by lia. nia.
Qed.

Lemma compare_dec a : forall b x v w, 0 <= x -> String.length a = String.length b ->
  parse_dec x a = Some v -> parse_dec x b = Some w -> String.compare a b = Z.compare v w.
Proof.
  induction a as [|c a IH]; intros [|c' b] x v w Hx Hl Ha Hb; cbn in *; try discriminate Hl.
  { simplify_eq. by rewrite Z.compare_refl. }
  destruct (char_digit c) as [d|] eqn:Ed; cbn in Ha; [|discriminate].
  destruct (char_digit c') as [d'|] eqn:Ed'; cbn in Hb; [|discriminate].
  unfold char_digit, bval in Ed, Ed'. destruct (_ && _) eqn:E1 in Ed; [|discriminate]. destruct (_ && _) eqn:E2 in Ed'; [|discriminate].
  injection Ed as Ed. injection Ed' as Ed'. to_prop. injection Hl as Hl.
  unfold Ascii.compare. destruct (N.compare_spec (N_of_ascii c) (N_of_ascii c')) as [E|E|E].
  - assert (d = d') as -> by lia. by apply (IH b (x * 10 + d') v w); [lia|..].
  - apply parse_dec_range in Ha, Hb; [|lia..]. rewrite Hl in Ha. symmetry. apply Z.compare_lt_iff. nia.
  - apply parse_dec_range in Ha, Hb; [|lia..]. rewrite Hl in Ha. symmetry. apply Z.compare_gt_iff. nia.
Qed.

Definition is_epoch (n : Z) : Prop := 1 <= n < 2^63.

Lemma all_digits_parse s : forall x, all_digits s = true -> exists v, parse_dec x s = Some v.
Proof.
  induction s as [|c s IH]; intros x H; cbn in *; [eauto|]. destruct (char_digit c); [|discriminate]. by apply IH.
Qed.

Lemma leb_maxEpoch s v : slen s = 19 -> parse_dec 0 s = Some v -> String.leb s maxEpoch = (v <=? 2^63 - 1).
Proof.
  intros Hl Hv. unfold String.leb. rewrite (compare_dec s maxEpoch 0 v (2^63 - 1)); [|lia| |done|done].
  - unfold Z.leb. by destruct (v ?= 2 ^ 63 - 1).
  - unfold slen in Hl. cbn. lia.
Qed.

Lemma lua_valid_FormatUint n : is_epoch n -> lua_valid (FormatUint n) = true.
Proof.
  intros Hn. assert (Hu : is_u64 n) by (unfold is_epoch, is_u64 in *; lia).
  pose proof (all_digits_FormatUint n ltac:(unfold is_epoch in Hn; lia)) as Hd. pose proof (canonical_FormatUint n Hu) as Hc.
  pose proof (parse_FormatUint n ltac:(unfold is_epoch in Hn; lia)) as Hp.
  pose proof (length_FormatUint_lt 19 n ltac:(lia) ltac:(unfold is_epoch in Hn; lia)) as Hl.
  unfold lua_valid. destruct (FormatUint n) as [|c r] eqn:E; [by apply FormatUint_nonempty in E|]. rewrite Hd.
  assert (Hz : Ascii.eqb c "0" = false).
  { apply Ascii.eqb_neq. intros ->. destruct Hc as [Hc|Hc]; [by apply Hc|]. subst r. vm_compute in Hp. injection Hp as <-. unfold is_epoch in Hn. lia. }
  rewrite Hz. cbn [negb andb]. destruct (Z.ltb_spec (slen (String c r)) 19) as [|Hge]; [done|].
  assert (Hs : slen (String c r) = 19) by (unfold slen in *; lia). rewrite Hs, Z.eqb_refl, (leb_maxEpoch _ n) by done.
  unfold is_epoch in Hn. cbn. apply Z.leb_le. lia.
Qed.

Lemma lua_valid_inv s : lua_valid s = true -> exists n, is_epoch n /\ s = FormatUint n.
Proof.
  intros H. destruct s as [|c r]; [done|]. unfold lua_valid in H. rewrite !andb_true_iff in H. destruct H as [[Hz Hd] Hl].
  destruct (all_digits_parse _ 0 Hd) as [v Hv]. exists v.
  assert (Hz' : char_digit c <> Some 0).
  { intros Hc. apply char_digit_inv in Hc as [_ <-]. by vm_compute in Hz. }
  assert (Hpos : 1 <= v).
  { cbn in Hv. destruct (char_digit c) as [d|] eqn:Ed; cbn in Hv; [|discriminate]. apply char_digit_inv in Ed as [Hd0 _].
    assert (d <> 0) by congruence. apply parse_dec_lower in Hv; lia. }
  assert (Hlen : (String.length (String c r) <= 20)%nat).
  { apply orb_true_iff in Hl as [Hl|Hl]; [|apply andb_true_iff in Hl as [Hl _]]; unfold slen in Hl; to_prop; lia. }
  split; [|apply FormatUint_canonical; [by left|done|done]]. split; [done|].
  apply orb_true_iff in Hl as [Hl|Hl].
  - apply parse_dec_range in Hv; [|lia]. unfold slen in Hl. apply Z.ltb_lt in Hl.
    assert (10 ^ Z.of_nat (String.length (String c r)) <= 10 ^ 18) by (apply Z.pow_le_mono_r; lia). lia.
  - apply andb_true_iff in Hl as [H1 H2]. apply Z.eqb_eq in H1. rewrite (leb_maxEpoch _ v H1 Hv) in H2. apply Z.leb_le in H2. lia.
Qed.

Lemma FormatInt_nonneg n : 0 <= n -> FormatInt n = FormatUint n.
Proof. intros H. unfold FormatInt. destruct (Z.ltb_spec n 0); [lia|done]. Qed.

Lemma persistedLeaseEpoch_FormatUint n : is_epoch n -> persistedLeaseEpoch (FormatUint n) = Some n.
Proof.
  intros [H1 H2]. unfold persistedLeaseEpoch. rewrite ParseInt_FormatUint by lia.
  rewrite (proj2 (Z.ltb_lt 0 n)), FormatInt_nonneg by lia. by rewrite eqs_refl.
Qed.

Lemma incr_FormatUint n : is_epoch n -> incr (Some (FormatUint n)) = FormatUint (n + 1).
Proof. intros [H1 H2]. unfold incr. change (default "0" (Some (FormatUint n))) with (FormatUint n). rewrite ParseInt_FormatUint by lia. cbn. by rewrite FormatInt_nonneg by lia. Qed.

Lemma epoch_u64 n : is_epoch n -> is_u64 n.
Proof. unfold is_epoch, is_u64. lia. Qed.
Lemma FormatUint_max n : is_epoch n -> FormatUint n = maxEpoch -> n = 2^63 - 1.
Proof. intros Hn H. apply (FormatUint_inj n (2^63 - 1)); [by apply epoch_u64|done|done]. Qed.

(** ** Keys *)
Lemma leaseKey_inj a b : is_u64 a -> is_u64 b -> leaseKey a = leaseKey b -> a = b.
Proof. intros Ha Hb H. apply (inj (String.append LeaseKeyPrefix)) in H. by apply FormatUint_inj. Qed.
Lemma epochKey_inj a b : is_u64 a -> is_u64 b -> epochKey a = epochKey b -> a = b.
Proof. intros Ha Hb H. apply (inj (String.append EpochKeyPrefix)) in H. by apply FormatUint_inj. Qed.
Lemma epoch_lease_ne a b : epochKey a <> leaseKey b.
Proof. done. Qed.

(** ** Hashes *)
Lemma hset_out fs : forall h f, f ∉ fst <$> fs -> hset h fs !! f = h !! f.
Proof.
  induction fs as [|[k v] fs IH]; intros h f Hf; [done|]. cbn in *. apply not_elem_of_cons in Hf as [Hn Hf].
  unfold hset in *. cbn. rewrite IH by done. by rewrite lookup_insert_ne by done.
Qed.

Lemma hset_in fs : forall h f v, NoDup (fst <$> fs) -> (f, v) ∈ fs -> hset h fs !! f = Some v.
Proof.
  induction fs as [|[k w] fs IH]; intros h f v Hn Hin; [by apply not_elem_of_nil in Hin|].
  cbn in Hn. apply NoDup_cons in Hn as [Hk Hn]. apply elem_of_cons in Hin as [[= -> ->]|Hin]; [|by apply IH].
  unfold hset. cbn. fold (hset (<[k := w]> h) fs). rewrite hset_out by done. by rewrite lookup_insert_eq.
Qed.

Lemma leaseFields_NoDup op c a : NoDup (fst <$> leaseFields op c a).
Proof.
  unfold leaseFields. rewrite fmap_app. apply NoDup_app. split_and!.
  - by apply (bool_decide_unpack _).
  - intros x Hx. destruct (isGrant op); cbn; [|apply not_elem_of_nil]. intros Hy. apply list_elem_of_singleton in Hy as ->.
    cbn in Hx. rewrite !elem_of_cons in Hx. repeat (destruct Hx as [Hx|Hx]; [discriminate Hx|]). by apply not_elem_of_nil in Hx.
  - destruct (isGrant op); [apply NoDup_singleton|constructor].
Qed.

(** The field of the principal [q]'s last epoch. *)
Definition efield (q : string) : string := "e:" +:+ q.
#[global] Arguments efield : simpl never.

Lemma leaseFields_e op c a q : (forall v, (efield q, v) ∈ leaseFields op c a <-> op = OpGrant /\ q = a_holder a /\ v = c).
Proof.
  intros v. unfold leaseFields. rewrite elem_of_app. split.
  - intros [H|H].
    + rewrite !elem_of_cons in H. repeat (destruct H as [H|H]; [discriminate H|]). by apply not_elem_of_nil in H.
    + destruct op; try by apply not_elem_of_nil in H. apply list_elem_of_singleton in H. by injection H as -> ->.
  - intros (-> & -> & ->). right. by apply list_elem_of_singleton.
Qed.

Lemma hset_efield op c a h q :
  hset h (leaseFields op c a) !! efield q = if decide (op = OpGrant /\ q = a_holder a) then Some c else h !! efield q.
Proof.
  case_decide as E.
  - apply hset_in; [apply leaseFields_NoDup|]. apply leaseFields_e. naive_solver.
  - apply hset_out. intros Hin. apply list_elem_of_fmap in Hin as ([f v] & Hf & Hin). cbn in Hf. subst f.
    apply leaseFields_e in Hin. naive_solver.
Qed.

(** ** Tenures: what the two keys of a project say *)
Record tenure : Type := mkTenure { t_epoch : Z; t_holder : string; t_last : gmap string Z }.

Inductive keys_hold : option rval -> option rval -> tenure -> Prop :=
  | kh_none : keys_hold None None (mkTenure 0 "" ∅)
  | kh_counter n : is_epoch n -> keys_hold (Some (RString (FormatUint n))) None (mkTenure n "" ∅)
  | kh_hash n h hd last :
      is_epoch n -> h !! "epoch" = Some (FormatUint n) -> h !! "holder" = Some hd ->
      (forall q, h !! efield q = FormatUint <$> last !! q) -> map_Forall (fun _ ep => is_epoch ep) last ->
      keys_hold (Some (RString (FormatUint n))) (Some (RHash h)) (mkTenure n hd last).

Definition stores (r : redis) (proj : Z) (t : tenure) : Prop := keys_hold (r !! epochKey proj) (r !! leaseKey proj) t.

Definition script_step (op : leaseOp) (holder : string) (t t' : tenure) : Prop :=
  match op with
  | OpGrant => t_holder t = "" /\ t' = mkTenure (t_epoch t + 1) holder (<[holder := t_epoch t + 1]> (t_last t))
  | OpEnd => t_holder t <> "" /\ t' = mkTenure (t_epoch t + 1) holder (t_last t)
  | OpRenew => t_holder t <> "" /\ t' = mkTenure (t_epoch t) holder (t_last t)
  end.

Lemma FormatUint_map_inj (m1 m2 : gmap string Z) :
  map_Forall (fun _ ep => is_epoch ep) m1 -> map_Forall (fun _ ep => is_epoch ep) m2 ->
  (forall q : string, FormatUint <$> m1 !! q = FormatUint <$> m2 !! q) -> m1 = m2.
Proof.
  intros H1 H2 H. apply map_eq. intros q. specialize (H q). destruct (m1 !! q) eqn:E1, (m2 !! q) eqn:E2; cbn in H; try done.
  f_equal. injection H as H. apply H1 in E1. apply H2 in E2. by apply FormatUint_inj; [apply epoch_u64..|].
Qed.

Lemma keys_hold_fun c h t t' : keys_hold c h t -> keys_hold c h t' -> t = t'.
Proof.
  intros H1 H2. destruct H1 as [|n Hn|n h hd last Hn He Hh Hl Hm]; inversion H2; subst; try done.
  - f_equal. by apply FormatUint_inj; [apply epoch_u64..|].
  - assert (n0 = n) as -> by (by apply FormatUint_inj; [apply epoch_u64..|]).
    assert (hd0 = hd) as -> by congruence. f_equal. apply FormatUint_map_inj; [done..|]. intros q. by rewrite <- Hl.
Qed.

(** ** The transition script *)
Definition hash_of (v : option rval) : gmap string string := match v with Some (RHash h) => h | _ => ∅ end.

(** A successful transition, from the counter [c] and the hash [h]. *)
Definition script_result (k1 k2 : string) (op : leaseOp) (a : leaseArgs) (c : option string) (h : gmap string string) (r : redis) : redis :=
  let c' := if negb (isRenew op) then incr c else default "" c in
  <[k2 := RHash (hset h (leaseFields op c' a))]> (if negb (isRenew op) then <[k1 := RString (incr c)]> r else r).

Lemma leaseFields_holder op c a h : hset h (leaseFields op c a) !! "holder" = Some (a_holder a).
Proof. apply hset_in; [apply leaseFields_NoDup|]. apply elem_of_app. left. by left. Qed.
Lemma leaseFields_epoch op c a h : hset h (leaseFields op c a) !! "epoch" = Some c.
Proof. apply hset_in; [apply leaseFields_NoDup|]. apply elem_of_app. left. do 3 right. by left. Qed.

Lemma script_keys op a n h hd last :
  is_epoch n -> (forall q, h !! efield q = FormatUint <$> last !! q) -> map_Forall (fun _ ep => is_epoch ep) last ->
  hd = a_holder a ->
  keys_hold (Some (RString (FormatUint n))) (Some (RHash (hset h (leaseFields op (FormatUint n) a))))
    (mkTenure n hd (if isGrant op then <[a_holder a := n]> last else last)).
Proof.
  intros Hn Hl Hm ->. apply kh_hash; [done|apply leaseFields_epoch|apply leaseFields_holder| |].
  - intros q. rewrite hset_efield. destruct (isGrant op) eqn:Eop; [|rewrite decide_False by (by destruct op; naive_solver); apply Hl].
    assert (op = OpGrant) as -> by (by destruct op).
    destruct (decide (q = a_holder a)) as [->|Hq].
    + rewrite decide_True by done. by rewrite lookup_insert_eq.
    + rewrite decide_False by naive_solver. rewrite lookup_insert_ne by done. apply Hl.
  - destruct (isGrant op); [|done]. by apply map_Forall_insert_2.
Qed.

Lemma incr_None : incr None = FormatUint 1.
Proof. reflexivity. Qed.

(** What a transition that passed the guards leaves behind. *)
Lemma script_result_ok k1 k2 op a r t : k1 <> k2 -> keys_hold (r !! k1) (r !! k2) t ->
  (op = OpGrant -> t_holder t = "") -> (op <> OpGrant -> t_holder t <> "") -> (op <> OpRenew -> t_epoch t < 2^63 - 1) ->
  let c := match r !! k1 with Some (RString s) => Some s | _ => None end in
  let r' := script_result k1 k2 op a c (hash_of (r !! k2)) r in
  exists t', (if negb (isRenew op) then incr c else default "" c) = FormatUint (t_epoch t') /\ is_epoch (t_epoch t') /\
    script_step op (a_holder a) t t' /\ keys_hold (r' !! k1) (r' !! k2) t'.
Proof.
  intros Hk Ht Hg Hng Hmax c r'. subst c r'. unfold script_result.
  destruct (decide (op = OpRenew)) as [->|Hop].
  - cbn [isRenew negb]. cbv zeta. specialize (Hng ltac:(done)).
    inversion Ht as [E1 E2 E3|n Hn E1 E2 E3|n h hd last Hn He Hh Hl Hm E1 E2 E3]; subst t; cbn in *; try done.
    exists (mkTenure n (a_holder a) last). split_and!; [done..|].
    rewrite lookup_insert_eq, lookup_insert_ne, <- E1 by done. by apply (script_keys OpRenew).
  - assert (isRenew op = false) as -> by (by destruct op). cbn [negb]. specialize (Hmax Hop). cbv zeta.
    assert (exists n', incr (match r !! k1 with Some (RString s) => Some s | _ => None end) = FormatUint n' /\ n' = t_epoch t + 1 /\ is_epoch n')
      as (n' & -> & -> & Hn').
    { inversion Ht as [E1 E2 E3|n Hn E1 E2 E3|n h hd last Hn He Hh Hl Hm E1 E2 E3]; subst t; cbn in *.
      - exists 1. by rewrite incr_None.
      - exists (n + 1). rewrite incr_FormatUint by done. unfold is_epoch in *. split_and!; [done..|lia|lia].
      - exists (n + 1). rewrite incr_FormatUint by done. unfold is_epoch in *. split_and!; [done..|lia|lia]. }
    exists (mkTenure (t_epoch t + 1) (a_holder a) (if isGrant op then <[a_holder a := t_epoch t + 1]> (t_last t) else t_last t)).
    split_and!; [done|done| |].
    + destruct op; cbn; [split; auto|done|split; auto].
    + rewrite lookup_insert_eq, lookup_insert_ne, lookup_insert_eq by done. apply script_keys; try done; inversion Ht as [E1 E2 E3|n Hn E1 E2 E3|n h hd last Hn He Hh Hl Hm E1 E2 E3]; subst t; cbn; try done;
        try (intros q; by rewrite !lookup_empty).
Qed.

Definition counter_of (v : option rval) : option string := match v with Some (RString s) => Some s | _ => None end.

(** What the script compares the caller's expectation with. *)
Definition expectedBy (hv : option rval) (t : tenure) : string * string :=
  match hv with Some _ => (FormatUint (t_epoch t), t_holder t) | None => ("0", "") end.

(** The guards of the script on well-formed keys. *)
Definition script_guard (op : leaseOp) (ee eh : string) (hv : option rval) (t : tenure) : bool :=
  bool_decide ((ee, eh) = expectedBy hv t) &&
  match op with OpGrant => bool_decide (t_holder t = "") | _ => bool_decide (t_holder t <> "") end &&
  (isRenew op || (t_epoch t <? 2^63 - 1)).

Lemma max_counter n : is_epoch n -> bool_decide (Some (FormatUint n) = Some maxEpoch) = negb (n <? 2^63 - 1).
Proof.
  intros Hn. destruct (Z.ltb_spec n (2^63 - 1)) as [H|H]; cbn.
  - apply bool_decide_eq_false. intros [= E]. apply FormatUint_max in E; [lia|done].
  - apply bool_decide_eq_true. assert (n = 2^63 - 1) as -> by (unfold is_epoch in Hn; lia). reflexivity.
Qed.

Lemma not_eq2 (x y x' y' : string) : ~ (x = x' /\ y = y') -> negb (x =s x') || negb (y =s y') = true.
Proof.
  intros H. destruct (decide (x = x')) as [->|Hx]; [|apply eqs_false in Hx; by rewrite Hx].
  destruct (decide (y = y')) as [->|Hy]; [by destruct H|]. apply eqs_false in Hy. rewrite Hy. apply orb_true_r.
Qed.

Lemma transition_script k1 k2 op ee eh a r t : keys_hold (r !! k1) (r !! k2) t ->
  if script_guard op ee eh (r !! k2) t
  then let c := counter_of (r !! k1) in
    leaseTransitionLua k1 k2 op ee eh a r =
      (Ok (if negb (isRenew op) then incr c else default "" c), script_result k1 k2 op a c (hash_of (r !! k2)) r)
  else exists msg, leaseTransitionLua k1 k2 op ee eh a r = (Err msg, r).
Proof.
  intros Ht. unfold leaseTransitionLua, script_guard, script_result.
  inversion Ht as [E1 E2 E3|n Hn E1 E2 E3|n h hd last Hn He Hh Hl Hm E1 E2 E3]; subst t;
    cbn [counter_of hash_of expectedBy t_epoch t_holder from_option id negb].
  - destruct (decide (ee = "0" /\ eh = "")) as [[-> ->]|Hne]; [destruct op; cbn; try done; by eexists|].
    rewrite (bool_decide_false ((ee, eh) = _)) by naive_solver. cbn [andb].
    assert (negb (ee =s "0") || negb (eh =s "") = true) as -> by (apply not_eq2; naive_solver). by eexists.
  - change (lua_valid <$> Some (FormatUint n)) with (Some (lua_valid (FormatUint n))).
    rewrite lua_valid_FormatUint, max_counter by done. cbn [from_option id negb].
    destruct (decide (ee = "0" /\ eh = "")) as [[-> ->]|Hne].
    + destruct op; cbn -[Z.ltb]; try (by eexists). destruct (n <? 2^63 - 1); cbn; [done|by eexists].
    + rewrite (bool_decide_false ((ee, eh) = _)) by naive_solver. cbn [andb].
      assert (negb (ee =s "0") || negb (eh =s "") = true) as -> by (apply not_eq2; naive_solver). by eexists.
  - rewrite He, Hh. change (lua_valid <$> Some (FormatUint n)) with (Some (lua_valid (FormatUint n))).
    rewrite lua_valid_FormatUint, max_counter by done. cbn [from_option id negb orb].
    rewrite (bool_decide_true (Some (FormatUint n) = _)), (bool_decide_false (Some hd = None)) by done. cbn [negb orb].
    destruct (decide (ee = FormatUint n /\ eh = hd)) as [[-> ->]|Hne].
    + rewrite !eqs_refl, (bool_decide_true ((FormatUint n, hd) = _)) by done. cbn [negb orb andb].
      destruct (decide (hd = "")) as [-> |Hhd].
      * destruct op; cbn -[Z.ltb]; try (by eexists). destruct (n <? 2^63 - 1); cbn; [done|by eexists].
      * assert ((hd =s "") = false) as -> by (by apply eqs_false).
        destruct op; cbn -[Z.ltb]; rewrite ?(bool_decide_false (hd = "")), ?(bool_decide_true (hd <> "")) by done; cbn -[Z.ltb]; try by eexists.
        destruct (n <? 2^63 - 1); cbn; [done|by eexists].
    + rewrite (bool_decide_false ((ee, eh) = _)) by naive_solver. cbn [andb].
      assert (negb (ee =s FormatUint n) || negb (eh =s hd) = true) as -> by (apply not_eq2; naive_solver). by eexists.
Qed.
