(* ===== verification/LeaseInv.v ===== *)
(** * The lease table and Redis agree

    [coh]: a lease in memory that is not quarantined is the record Redis has.
    [lease_spec] is what a project promises: free or held, with an epoch that
    every grant and every end advances by one.  Every operation of the engine,
    whatever becomes of its calls, keeps [Inv] and moves each project along
    [lease_spec]. *)

From S2P Require Import Prelude GoLib Resp Classify Policy Guard GuardCheck TxnUnit Ancestry LeaseStore Leases LeaseFacts.

(** ** The specification *)
Inductive lease_spec : tenure -> tenure -> Prop :=
  | spec_grant n last q : q <> "" -> lease_spec (mkTenure n "" last) (mkTenure (n + 1) q (<[q := n + 1]> last))
  | spec_end n last q : q <> "" -> lease_spec (mkTenure n q last) (mkTenure (n + 1) "" last).
Abbreviation evolves := (rtc lease_spec).

(** ** Memory against Redis *)
Definition recorded (h : gmap string string) (l : lease) : Prop :=
  h !! "holder" = Some (ls_holder l) /\ h !! "kind" = Some (ls_kind l) /\ h !! "host" = Some (ls_host l) /\
  h !! "epoch" = Some (FormatUint (ls_epoch l)) /\ h !! "mode" = Some (ls_mode l) /\
  h !! "granted_ms" = Some (FormatInt (ls_grantedMs l)) /\ h !! "checkout_until_ms" = Some (FormatInt (ls_checkoutUntilMs l)) /\
  h !! "label" = Some (ls_label l) /\
  (ls_dirty l = false -> h !! "last_write_ms" = Some (FormatInt (ls_lastWriteMs l)) /\ h !! "pending" = Some (boolStr (ls_pending l))) /\
  (forall q, h !! efield q = FormatUint <$> ls_hist l !! q) /\ map_Forall (fun _ ep => is_epoch ep) (ls_hist l).

Definition resolved_as (c hv : option rval) (l : lease) : Prop :=
  (hv = None /\ ls_epoch l = 0 /\ ls_holder l = "" /\ ls_hist l = ∅) \/
  (exists h, hv = Some (RHash h) /\ c = Some (RString (FormatUint (ls_epoch l))) /\ is_epoch (ls_epoch l) /\ recorded h l).

Definition coh (r : redis) (proj : Z) (l : lease) : Prop :=
  is_u64 proj /\ ls_proj l = proj /\
  (ls_unresolved l = false -> resolved_as (r !! epochKey proj) (r !! leaseKey proj) l).

(** Times in a record are milliseconds that fit an int64 with room to spare. *)
Definition tms (x : Z) : Prop := 0 <= x < 2^61.
Definition times_ok (l : lease) : Prop :=
  tms (ls_grantedMs l) /\ tms (ls_lastWriteMs l) /\ tms (ls_lastHbMs l) /\ - 2^62 < ls_checkoutUntilMs l < 2^62.

(** A hash is the whole record of some lease. *)
Definition wf_hash (h : gmap string string) : Prop := 
  exists l, recorded h l /\ ls_dirty l = false /\ times_ok l /\ is_epoch (ls_epoch l) /\
    h !! "last_hb_ms" = Some (FormatInt (ls_lastHbMs l)).

Record Inv (e : engine) : Prop := {
  inv_hash : forall proj h, is_u64 proj -> store e !! leaseKey proj = Some (RHash h) -> wf_hash h;
  inv_times : forall proj l, leases e !! proj = Some l -> times_ok l;
  inv_cfg : is_i64 (c_checkoutMax (lcfg e));
  inv_keys : forall proj, is_u64 proj -> exists t, stores (store e) proj t;
  inv_table : forall proj l, leases e !! proj = Some l -> coh (store e) proj l;
  inv_rest : forall proj, is_u64 proj -> leases e !! proj = None -> store e !! leaseKey proj = None;
}.

(** The table shows the tenure Redis has. *)
Lemma resolved_tenure c hv l t : resolved_as c hv l -> keys_hold c hv t ->
  t_holder t = ls_holder l /\ t_last t = ls_hist l /\ (hv <> None -> t_epoch t = ls_epoch l) /\ expectedBy hv t = (FormatUint (ls_epoch l), ls_holder l).
Proof.
  intros [(-> & He & Hh & Hl)|(h & -> & -> & He & Hr)] Ht.
  - rewrite He, Hh, Hl. inversion Ht; subst; cbn; done.
  - destruct Hr as (R1 & _ & _ & R4 & _ & _ & _ & _ & _ & R10 & R11).
    inversion Ht as [| |n h0 hd last Hn Hep Hhd Hq Hm]; subst; cbn.
    assert (n = ls_epoch l) as -> by (apply FormatUint_inj; [by apply epoch_u64..|congruence]).
    assert (hd = ls_holder l) as -> by congruence. split_and!; try done.
    apply FormatUint_map_inj; [done..|]. intros q. by rewrite <- Hq, R10.
Qed.

(** ** One project changes *)
Definition only_keys (proj : Z) (r r' : redis) : Prop := forall k, k <> epochKey proj -> k <> leaseKey proj -> r' !! k = r !! k.

Lemma only_keys_other proj pr r r' : is_u64 proj -> is_u64 pr -> only_keys proj r r' -> pr <> proj ->
  r' !! epochKey pr = r !! epochKey pr /\ r' !! leaseKey pr = r !! leaseKey pr.
Proof.
  intros Hu Hp Hk Hn. split; apply Hk.
  - intros E. by apply epochKey_inj in E.
  - apply epoch_lease_ne.
  - intros E. by apply (epoch_lease_ne proj pr).
  - intros E. by apply leaseKey_inj in E.
Qed.

Lemma inv_update e e' proj t' l' :
  Inv e -> is_u64 proj -> only_keys proj (store e) (store e') -> stores (store e') proj t' ->
  leases e' = <[proj := l']> (leases e) -> coh (store e') proj l' ->
  lcfg e' = lcfg e -> times_ok l' -> (forall h, store e' !! leaseKey proj = Some (RHash h) -> wf_hash h) -> Inv e'.
Proof.
  intros [HA HB HC H1 H2 H3] Hu Hk Ht Hl Hc Hcfg Hti Hwf. constructor.
  - intros pr h Hp. destruct (decide (pr = proj)) as [->|Hn]; [apply Hwf|].
    destruct (only_keys_other proj pr _ _ Hu Hp Hk Hn) as [_ ->]. by apply HA.
  - intros pr l. rewrite Hl. destruct (decide (pr = proj)) as [->|Hn]; [rewrite lookup_insert_eq; by intros [= <-]|].
    rewrite lookup_insert_ne by done. apply HB.
  - by rewrite Hcfg.
  - intros pr Hp. destruct (decide (pr = proj)) as [->|Hn]; [eauto|]. destruct (H1 pr Hp) as [t Hst]. exists t.
    destruct (only_keys_other proj pr _ _ Hu Hp Hk Hn) as [E1 E2]. unfold stores. by rewrite E1, E2.
  - intros pr l. rewrite Hl. destruct (decide (pr = proj)) as [->|Hn].
    + rewrite lookup_insert_eq. by intros [= <-].
    + rewrite lookup_insert_ne by done. intros Hp. destruct (H2 pr l Hp) as (Hpu & Hpj & Hres). split_and!; try done.
      destruct (only_keys_other proj pr _ _ Hu Hpu Hk Hn) as [E1 E2]. by rewrite E1, E2.
  - intros pr Hp. rewrite Hl. destruct (decide (pr = proj)) as [->|Hn]; [by rewrite lookup_insert_eq|].
    rewrite lookup_insert_ne by done. destruct (only_keys_other proj pr _ _ Hu Hp Hk Hn) as [_ E2]. rewrite E2. by apply H3.
Qed.

(** Every project of [e] evolves into what it is in [e']. *)
Definition evolved (e e' : engine) : Prop :=
  forall pr t, is_u64 pr -> stores (store e) pr t -> exists t', stores (store e') pr t' /\ evolves t t'.

Lemma evolved_refl e : evolved e e.
Proof. intros pr t _ Ht. by exists t. Qed.
Lemma evolved_same e e' : store e' = store e -> evolved e e'.
Proof. intros E pr t _ Ht. exists t. by rewrite E. Qed.
Lemma evolved_trans e1 e2 e3 : evolved e1 e2 -> evolved e2 e3 -> evolved e1 e3.
Proof.
  intros H1 H2 pr t Hp Ht. destruct (H1 pr t Hp Ht) as (t1 & Ht1 & He1). destruct (H2 pr t1 Hp Ht1) as (t2 & Ht2 & He2).
  exists t2. split; [done|by etrans].
Qed.
Lemma evolved_one e e' proj t t' : is_u64 proj -> only_keys proj (store e) (store e') ->
  stores (store e) proj t -> stores (store e') proj t' -> evolves t t' -> evolved e e'.
Proof.
  intros Hu Hk Ht Ht' Hev pr s Hp Hs. destruct (decide (pr = proj)) as [->|Hn].
  - exists t'. split; [done|]. by rewrite (keys_hold_fun _ _ _ _ Hs Ht).
  - exists s. destruct (only_keys_other proj pr _ _ Hu Hp Hk Hn) as [E1 E2]. unfold stores. by rewrite E1, E2.
Qed.

Section ops.
Context (perm : forall A : Type, list A -> list A) (clock : nat -> Z) (net : nat -> fate).
Context (Hclock : forall n, tms (ms (clock n))).

(** ** A transition, whatever becomes of the call *)
Definition same_but_store (e e' : engine) : Prop :=
  leases e' = leases e /\ anc e' = anc e /\ lcfg e' = lcfg e /\ depthFixed e' = depthFixed e.

(** The script ran for [next] and left the tenure [t']. *)
Definition ran (op : leaseOp) (proj : Z) (next : lease) (t t' : tenure) (r r' : redis) : Prop :=
  script_step op (ls_holder next) t t' /\ is_epoch (t_epoch t') /\ stores r' proj t' /\ only_keys proj r r' /\
  r' !! epochKey proj = Some (RString (FormatUint (t_epoch t'))) /\
  r' !! leaseKey proj = Some (RHash (hset (hash_of (r !! leaseKey proj)) (leaseFields op (FormatUint (t_epoch t')) (recordOf next)))).

Lemma script_ran op ee eh next proj r t :
  stores r proj t -> script_guard op ee eh (r !! leaseKey proj) t = true ->
  exists t', leaseTransitionLua (epochKey proj) (leaseKey proj) op ee eh (recordOf next) r =
    (Ok (FormatUint (t_epoch t')), snd (leaseTransitionLua (epochKey proj) (leaseKey proj) op ee eh (recordOf next) r)) /\
    ran op proj next t t' r (snd (leaseTransitionLua (epochKey proj) (leaseKey proj) op ee eh (recordOf next) r)).
Proof.
  intros Ht Hg. pose proof (transition_script (epochKey proj) (leaseKey proj) op ee eh (recordOf next) r t Ht) as Hs.
  rewrite Hg in Hs. cbv zeta in Hs. rewrite Hs. cbn [snd]. unfold script_guard in Hg. rewrite !andb_true_iff in Hg. destruct Hg as [[_ Hg1] Hg2].
  destruct (script_result_ok (epochKey proj) (leaseKey proj) op (recordOf next) r t) as (t' & Hc & He & Hst & Hk);
    [apply epoch_lease_ne|done|by intros ->; apply bool_decide_eq_true in Hg1| | |].
  { intros Hop. destruct op; [done|by apply bool_decide_eq_true in Hg1..]. }
  { intros Hop. destruct op; cbn in Hg2; [by apply Z.ltb_lt|done|by apply Z.ltb_lt]. }
  fold (counter_of (r !! epochKey proj)) in Hc, Hk. exists t'. rewrite Hc. split; [done|]. split_and!; [done..| | |].
  - intros k H1 H2. unfold script_result. rewrite lookup_insert_ne by done. destruct (negb (isRenew op)); [by rewrite lookup_insert_ne|done].
  - unfold stores in Hk. inversion Hk as [E1 E2 E3|n Hn E1 E2 E3|n h hd last Hn Hx Hh Hl Hm E1 E2 E3]; subst t'; [unfold is_epoch in He; cbn in He; lia|done..].
  - unfold script_result. rewrite lookup_insert_eq, Hc. done.
Qed.

Lemma transition_spec op old next e res e' t :
  transition net op old next e = (res, e') -> stores (store e) (ls_proj old) t ->
  same_but_store e e' /\
  ((store e' = store e /\ exists msg, res = Err msg) \/
   exists t', ran op (ls_proj old) next t t' (store e) (store e') /\ (res = Ok (t_epoch t') \/ exists msg, res = Err msg)).
Proof.
  intros Hr Ht. unfold transition, call, mbind, SM_bind in Hr.
  set (script := leaseTransitionLua _ _ _ _ _ _) in Hr. destruct (script (store e)) as [r st] eqn:Es.
  assert (Hout : (exists msg, r = Err msg) /\ st = store e \/
    exists t', r = Ok (FormatUint (t_epoch t')) /\ ran op (ls_proj old) next t t' (store e) st).
  { subst script. pose proof (transition_script (epochKey (ls_proj old)) (leaseKey (ls_proj old)) op (FormatUint (ls_epoch old)) (ls_holder old) (recordOf next) (store e) t Ht) as Hs.
    destruct (script_guard _ _ _ _ _) eqn:Eg.
    - right. destruct (script_ran op _ _ next _ _ _ Ht Eg) as (t' & Heq & Hran). exists t'. rewrite Es in Heq, Hran.
      split; [by injection Heq|done].
    - left. destruct Hs as [msg Hs]. rewrite Hs in Es. injection Es as <- <-. eauto. }
  destruct (net (calls e)) as [|err|err]; cbn in Hr.
  - destruct Hout as [[[msg ->] ->]|(t' & -> & Hran)].
    + injection Hr as <- <-. split; [done|]. left. eauto.
    + rewrite persistedLeaseEpoch_FormatUint in Hr by apply Hran.
      match type of Hr with (if ?b then _ else _) _ = _ => destruct b end; injection Hr as <- <-;
        (split; [done|]; right; exists t'; split; [done|]); [by left|right; by eexists].
  - injection Hr as <- <-. split; [done|]. left. eauto.
  - injection Hr as <- <-. split; [done|]. destruct Hout as [[_ ->]|(t' & _ & Hran)]; [left; eauto|right]. exists t'. split; [done|]. right. eauto.
Qed.

(** ** The record a transition writes *)
Lemma field_in op c a f v : (f, v) ∈ leaseFields op c a -> forall h, hset h (leaseFields op c a) !! f = Some v.
Proof. intros Hin h. apply hset_in; [apply leaseFields_NoDup|done]. Qed.

Ltac field i := apply field_in, (list_elem_of_lookup_2 _ i); reflexivity.

Lemma recorded_set op n next h :
  (forall q, h !! efield q = FormatUint <$> ls_hist next !! q) -> map_Forall (fun _ ep => is_epoch ep) (ls_hist next) -> is_epoch n ->
  recorded (hset h (leaseFields op (FormatUint n) (recordOf next)))
    (settled n (if isGrant op then <[ls_holder next := n]> (ls_hist next) else ls_hist next) next).
Proof.
  intros Hq Hm Hn. unfold recorded. cbn.
  split_and!; [field 0%nat|field 1%nat|field 2%nat|field 3%nat|field 4%nat|field 5%nat|field 8%nat|field 10%nat| | |].
  - intros _. split; [field 6%nat|field 9%nat].
  - intros q. rewrite hset_efield. cbn. destruct op; cbn.
    + destruct (decide (q = ls_holder next)) as [->|Hne].
      * by rewrite decide_True, lookup_insert_eq by done.
      * rewrite decide_False, lookup_insert_ne by naive_solver. apply Hq.
    + rewrite decide_False by naive_solver. apply Hq.
    + rewrite decide_False by naive_solver. apply Hq.
  - destruct op; cbn; try done. by apply map_Forall_insert_2.
Qed.

Lemma resolved_efields c hv l : resolved_as c hv l ->
  (forall q, hash_of hv !! efield q = FormatUint <$> ls_hist l !! q) /\ map_Forall (fun _ ep => is_epoch ep) (ls_hist l).
Proof.
  intros [(-> & _ & _ & ->)|(h & -> & _ & _ & Hr)]; [split; [intros q; cbn; by rewrite !lookup_empty|apply map_Forall_empty]|].
  unfold recorded in Hr. naive_solver.
Qed.

(** ** Quarantine, transition, settle *)
Lemma coh_quarantined r proj l : is_u64 proj -> ls_proj l = proj -> coh r proj (set_unresolved true l).
Proof. intros Hu Hp. split_and!; [done..|]. cbn. done. Qed.

Lemma transact_spec {A} op l next (H : Z -> gmap string Z) (K : Z -> A) e res e' t :
  let proj := ls_proj l in
  Inv e -> is_u64 proj -> leases e !! proj = Some l -> ls_unresolved l = false -> stores (store e) proj t ->
  ls_proj next = proj -> ls_hist next = ls_hist l ->
  (forall ep, H ep = if isGrant op then <[ls_holder next := ep]> (ls_hist l) else ls_hist l) ->
  (forall t', script_step op (ls_holder next) t t' -> evolves t t') -> times_ok next ->
  (put proj (set_unresolved true l) ≫= fun _ => transition net op l next ≫= fun ep =>
   put proj (settled ep (H ep) next) ≫= fun _ => mret (K ep)) e = (res, e') ->
  Inv e' /\ evolved e e' /\ anc e' = anc e /\ lcfg e' = lcfg e /\
  forall a, res = Ok a -> exists t', script_step op (ls_holder next) t t' /\ stores (store e') proj t' /\ a = K (t_epoch t') /\
    leases e' = <[proj := settled (t_epoch t') (H (t_epoch t')) next]> (leases e).
Proof.
  intros proj HI Hu Hl Hun Ht Hpn Hhn HH Hsp Htn Hr. unfold mbind at 1, SM_bind at 1, put at 1, sm_modify at 1 in Hr.
  set (e1 := set_leases (<[proj := set_unresolved true l]> (leases e)) e) in Hr.
  unfold mbind at 1, SM_bind at 1 in Hr. destruct (transition net op l next e1) as [rt e2] eqn:Et.
  destruct (transition_spec op l next e1 rt e2 t Et Ht) as [(S1 & S2 & S3 & S4) Hout]. cbn in S1, S2, S3, S4.
  pose proof (inv_table _ HI _ _ Hl) as (_ & _ & Hco). specialize (Hco Hun). destruct (resolved_efields _ _ _ Hco) as [Hef Hep].
  pose proof (inv_times _ HI _ _ Hl) as Htl.
  assert (Hrec : forall n, is_epoch n -> wf_hash (hset (hash_of (store e !! leaseKey proj)) (leaseFields op (FormatUint n) (recordOf next)))).
  { intros n Hn. eexists. split; [apply (recorded_set op n (set_dirty false next)); cbn; rewrite ?Hhn; done|]. split; [done|]. split; [exact Htn|]. split; [exact Hn|]. field 7%nat. }
  assert (Hold : forall h, store e !! leaseKey proj = Some (RHash h) -> wf_hash h) by (intros h; by apply (inv_hash _ HI)).
  assert (HQ : forall l', rt = Err l' -> Inv e2 /\ evolved e e2).
  { intros msg ->. destruct Hout as [[Hst _]|(t' & Hran & _)].
    - split; [|by apply evolved_same]. eapply (inv_update e e2 proj t); [done|done| | |exact S1|by apply coh_quarantined|done|done|];
        [intros k _ _; by rewrite Hst|by rewrite Hst|by rewrite Hst].
    - destruct Hran as (R1 & R2 & R3 & R4 & R5 & R6). split.
      + eapply (inv_update e e2 proj t'); [done|done|done|done|exact S1|by apply coh_quarantined|done|done|].
        intros h Hh. injection (eq_trans (eq_sym R6) Hh) as <-. by apply Hrec.
      + eapply (evolved_one e e2 proj t t'); eauto. }
  destruct rt as [ep|msg]; [|injection Hr as <- <-; destruct (HQ msg eq_refl); by split_and!].
  destruct Hout as [[_ [msg Hm]]|(t' & Hran & [[= ->]|[msg Hm]])]; [discriminate Hm| |discriminate Hm].
  destruct Hran as (R1 & R2 & R3 & R4 & R5 & R6). injection Hr as <- <-.
  assert (Htab : leases (set_leases (<[proj := settled (t_epoch t') (H (t_epoch t')) next]> (leases e2)) e2) =
    <[proj := settled (t_epoch t') (H (t_epoch t')) next]> (leases e)) by (cbn; rewrite S1; by rewrite insert_insert_eq).
  split_and!; [|eapply (evolved_one e _ proj t t'); eauto|done|done|].
  - eapply (inv_update e _ proj t'); [done|done|exact R4|exact R3|exact Htab| |done|done|intros h Hh; injection (eq_trans (eq_sym R6) Hh) as <-; by apply Hrec].
    split_and!; [done..|]. intros _. right. eexists. split_and!; [exact R6|exact R5|done|]. rewrite HH, <- Hhn. apply recorded_set; [|by rewrite Hhn|done]. intros q. by rewrite Hef, Hhn.
  - intros a [= <-]. by exists t'.
Qed.

Lemma inv_same e e' : store e' = store e -> leases e' = leases e -> lcfg e' = lcfg e -> Inv e -> Inv e'.
Proof. intros E1 E2 E3 [HA HB HC H1 H2 H3]. constructor; rewrite ?E1, ?E2, ?E3; done. Qed.

Lemma leaseLocked_spec proj e : Inv e -> is_u64 proj ->
  exists l e1, leaseLocked proj e = (Ok l, e1) /\ Inv e1 /\ store e1 = store e /\ leases e1 !! proj = Some l /\
    anc e1 = anc e /\ lcfg e1 = lcfg e /\ ls_proj l = proj /\ (leases e1 = leases e \/ leases e1 = <[proj := newLease proj]> (leases e)).
Proof.
  intros HI Hu. unfold leaseLocked, mbind, SM_bind, sm_get. destruct (leases e !! proj) as [l|] eqn:El.
  - exists l, e. split_and!; try done; [|by left]. by destruct (inv_table _ HI _ _ El) as (_ & ? & _).
  - eexists (newLease proj), _. split; [reflexivity|]. destruct (inv_keys _ HI proj Hu) as [t Ht].
    split_and!; cbn; try done; [|by rewrite lookup_insert_eq|by right].
    eapply (inv_update e _ proj t (newLease proj)); [done|done|done|done|done| |done|done|intros h; by apply (inv_hash _ HI)]. split_and!; [done..|]. intros _. left.
    split_and!; [|done..]. cbn. by apply (inv_rest _ HI).
Qed.

(** A table that is settled for [proj], with the tenure [t]. *)
Lemma settled_tenure e proj l t : Inv e -> leases e !! proj = Some l -> ls_unresolved l = false -> stores (store e) proj t ->
  t_holder t = ls_holder l /\ t_last t = ls_hist l.
Proof.
  intros HI Hl Hun Ht. destruct (inv_table _ HI _ _ Hl) as (_ & _ & Hco).
  destruct (resolved_tenure _ _ _ _ (Hco Hun) Ht) as (? & ? & _). done.
Qed.

Lemma held_true l : held l = true <-> ls_holder l <> "".
Proof. unfold held. by rewrite negb_true_iff, eqs_false. Qed.
Lemma held_false l : held l = false <-> ls_holder l = "".
Proof. unfold held. by rewrite negb_false_iff, eqs_true. Qed.

(** ** Times *)
Lemma until_bound n ttl : is_i64 ttl -> - 2^62 < ms (clock n + ttl) < 2^62.
Proof.
  intros Ht. pose proof (Hclock n) as Hc. unfold tms, ms, is_i64 in *.
  pose proof (Z.div_mod (clock n) (10^6) ltac:(lia)). pose proof (Z.mod_pos_bound (clock n) (10^6) ltac:(lia)).
  pose proof (Z.div_mod (clock n + ttl) (10^6) ltac:(lia)). pose proof (Z.mod_pos_bound (clock n + ttl) (10^6) ltac:(lia)). lia.
Qed.

Lemma Milliseconds_bound d : is_i64 d -> - 2^50 < Milliseconds d < 2^50.
Proof. unfold is_i64, Milliseconds. intros Hd. pose proof (Z.quot_rem' d (10^6)). pose proof (Z.rem_bound_abs d (10^6) ltac:(lia)). lia. Qed.

Lemma times_renewed n mode ttl mx l : is_i64 ttl -> is_i64 mx -> times_ok l -> times_ok (renewed (clock n) mode ttl mx l).
Proof.
  intros Ht Hm (H1 & H2 & H3 & H4). pose proof (until_bound n ttl Ht) as Hb. apply Milliseconds_bound in Hm.
  unfold times_ok, renewed. cbv zeta. cbn [ls_grantedMs ls_lastWriteMs ls_lastHbMs ls_checkoutUntilMs]. split_and!; try apply H1; try apply H2; try apply Hclock;
    (destruct (_ =s _); [|lia]); destruct (Z.ltb_spec (ls_grantedMs l + Milliseconds mx) (ms (clock n + ttl))); unfold tms in *; lia.
Qed.

Lemma times_granted p n mode ttl lbl l : is_i64 ttl -> times_ok (granted p (clock n) mode ttl lbl l).
Proof.
  intros Ht. pose proof (until_bound n ttl Ht). unfold times_ok, granted. cbn. pose proof (Hclock n). split_and!; try done; destruct (_ =s _); lia.
Qed.

Lemma times_ended n l : times_ok l -> times_ok (ended n l).
Proof. intros (H1 & H2 & H3 & H4). by split_and!. Qed.

(** ** Grant, renew and end *)
Definition grant_post (p : Principal) (proj : Z) (e e' : engine) (s : leaseSnap) : Prop :=
  exists l, leases e' !! proj = Some l /\ ls_unresolved l = false /\ s = snap l /\
    (ls_holder l = PName p \/ store e' = store e /\ ls_holder l <> "").

Lemma grantLocked_spec p proj mode ttl e res e' :
  Inv e -> is_u64 proj -> PName p <> "" -> is_i64 ttl -> grantLocked clock net p proj mode ttl e = (res, e') ->
  Inv e' /\ evolved e e' /\ (forall s fs, res = Ok (s, fs) -> grant_post p proj e e' s).
Proof.
  intros HI Hu Hp Httl Hr. unfold grantLocked in Hr. unfold mbind at 1, SM_bind at 1, now in Hr.
  set (e0 := mkEngine _ _ _ _ _ _ _) in Hr. assert (HI0 : Inv e0) by (by apply (inv_same e)).
  destruct (leaseLocked_spec proj e0 HI0 Hu) as (l & e1 & El & HI1 & Hst & Htab & Hanc & Hcfg & Hpl & _).
  unfold mbind at 1, SM_bind at 1 in Hr. rewrite El in Hr. destruct (inv_keys _ HI1 proj Hu) as [t Ht].
  assert (Hev : evolved e e1) by (apply evolved_same; by rewrite Hst).
  destruct (ls_unresolved l) eqn:Eun; [injection Hr as <- <-; by split_and!|].
  destruct (held l && negb (ls_holder l =s PName p)) eqn:Eh.
  { injection Hr as <- <-. split_and!; [done..|]. intros s fs [= <- _]. exists l. split_and!; try done. right.
    apply andb_true_iff in Eh as [Eh _]. split; [by rewrite Hst|by apply held_true]. }
  unfold mbind at 1, SM_bind at 1, sm_get at 1 in Hr. cbv zeta in Hr. rewrite <- Hpl in Hr.
  destruct (settled_tenure e1 proj l t HI1 Htab Eun Ht) as [Hth Htl].
  set (next := if held l then _ else _) in Hr.
  assert (Hn : ls_proj next = ls_proj l /\ ls_hist next = ls_hist l /\ ls_holder next = PName p).
  { subst next. destruct (held l); cbn; split_and!; try done. cbn in Eh. by apply negb_false_iff, eqs_true in Eh. }
  destruct Hn as (Hn1 & Hn2 & Hn3).
  assert (Hh : held l = isRenew (if held l then OpRenew else OpGrant)) by (by destruct (held l)).
  eapply (transact_spec _ l next (fun ep => if held l then ls_hist next else <[PName p := ep]> (ls_hist next)) _ e1 res e' t) in Hr as (R1 & R2 & R3 & R4 & R5);
    try done; rewrite ?Hpl; try done.
  - split_and!; [done|by eapply evolved_trans|]. intros s fs ->. destruct (R5 _ eq_refl) as (t' & _ & _ & [= -> ->] & Htab').
    rewrite Hpl in Htab'. eexists. split_and!; [rewrite Htab'; by rewrite lookup_insert_eq|done|done|by left].
  - intros ep. rewrite Hn2, Hn3. by destruct (held l).
  - intros t' Hs. rewrite Hn3 in Hs. destruct (held l) eqn:Ehl; cbn in Hs; destruct Hs as [Hs ->].
    + cbn in Eh. apply negb_false_iff, eqs_true in Eh. rewrite <- Eh, <- Hth. by destruct t.
    + apply rtc_once. destruct t as [n hd last]. cbn in *. rewrite Hs. by constructor.
  - subst next. destruct (held l); [|by apply times_granted]. apply times_renewed; [done|apply (inv_cfg _ HI1)|by apply (inv_times _ HI1 proj)].
Qed.

Lemma endLocked_spec proj e res e' :
  Inv e -> is_u64 proj -> endLocked clock net proj e = (res, e') -> Inv e' /\ evolved e e' /\
  (forall a, res = Ok a -> forall l', leases e' !! proj = Some l' -> ls_holder l' = "" /\ ls_unresolved l' = false).
Proof.
  intros HI Hu Hr. unfold endLocked in Hr. unfold mbind at 1, SM_bind at 1, sm_get at 1 in Hr.
  destruct (leases e !! proj) as [l|] eqn:El; [|injection Hr as <- <-; split_and!; [done|apply evolved_refl|intros; congruence]].
  destruct (ls_unresolved l) eqn:Eun; [injection Hr as <- <-; split_and!; [done|apply evolved_refl|done]|].
  destruct (held l) eqn:Eh; cbn [negb] in Hr;
    [|injection Hr as <- <-; split_and!; [done|apply evolved_refl|intros a _ l' [= <-]%(eq_trans (eq_sym El)); by apply held_false in Eh]].
  unfold mbind at 1, SM_bind at 1, now in Hr. set (e0 := mkEngine _ _ _ _ _ _ _) in Hr. cbv zeta in Hr.
  assert (HI0 : Inv e0) by (by apply (inv_same e)). assert (Hpl : ls_proj l = proj) by (by destruct (inv_table _ HI _ _ El) as (_ & ? & _)).
  destruct (inv_keys _ HI0 proj Hu) as [t Ht]. destruct (settled_tenure e0 proj l t HI0 El Eun Ht) as [Hth Htl].
  rewrite <- Hpl in Hr.
  eapply (transact_spec OpEnd l (ended _ l) (fun _ => ls_hist l) _ e0 res e' t) in Hr as (R1 & R2 & R3 & R4 & R5); try done; rewrite ?Hpl; try done.
  - split_and!; [done|done|]. intros a ->. destruct (R5 _ eq_refl) as (t' & _ & _ & _ & Htab'). rewrite Hpl in Htab'.
    intros l'. rewrite Htab', lookup_insert_eq. by intros [= <-].
  - intros t' [Hs ->]. apply rtc_once. destruct t as [n hd last]. cbn in *. by constructor.
  - apply times_ended, (inv_times _ HI0 proj l El).
Qed.

(** ** Touches and heartbeats: memory only *)
Lemma coh_dirty r proj l l' : coh r proj l -> ls_dirty l' = true ->
  (ls_proj l', ls_holder l', ls_kind l', ls_host l', ls_epoch l', ls_mode l', ls_grantedMs l', ls_checkoutUntilMs l', ls_label l', ls_hist l', ls_unresolved l') =
  (ls_proj l, ls_holder l, ls_kind l, ls_host l, ls_epoch l, ls_mode l, ls_grantedMs l, ls_checkoutUntilMs l, ls_label l, ls_hist l, ls_unresolved l) ->
  coh r proj l'.
Proof.
  intros (Hu & Hp & Hres) Hd [= E1 E2 E3 E4 E5 E6 E7 E8 E9 E10 E11]. split_and!; [done|congruence|]. rewrite E11. intros Hun.
  unfold resolved_as, recorded. rewrite E2, E3, E4, E5, E6, E7, E8, E9, E10, Hd. destruct (Hres Hun) as [?|(h & H1 & H2 & H3 & Hr)]; [by left|].
  right. exists h. destruct Hr as (R1 & R2 & R3 & R4 & R5 & R6 & R7 & R8 & _ & R10 & R11).
  do 3 (split; [done|]). refine (conj R1 (conj R2 (conj R3 (conj R4 (conj R5 (conj R6 (conj R7 (conj R8 _)))))))).
  split; [discriminate 1|by split].
Qed.

Lemma inv_map e e' f : Inv e -> store e' = store e -> leases e' = f <$> leases e ->
  lcfg e' = lcfg e -> (forall proj l, coh (store e) proj l -> coh (store e) proj (f l)) -> (forall l, times_ok l -> times_ok (f l)) -> Inv e'.
Proof.
  intros [HA HB HC H1 H2 H3] Es El Ec Hf Hft. constructor; rewrite ?Es, ?Ec; [done| |done|done|..].
  - intros proj l. rewrite El, lookup_fmap. intros Hl. apply fmap_Some in Hl as (l0 & Hl & ->). by apply Hft, (HB proj).
  - intros proj l. rewrite El, lookup_fmap. intros Hl. apply fmap_Some in Hl as (l0 & Hl & ->). by apply Hf, H2.
  - intros proj Hu. rewrite El, lookup_fmap. intros Hn. apply fmap_None in Hn. by apply H3.
Qed.

Lemma inv_put e e' proj l : Inv e -> store e' = store e -> leases e' = <[proj := l]> (leases e) -> lcfg e' = lcfg e ->
  coh (store e) proj l -> times_ok l -> Inv e'.
Proof.
  intros HI Es El Ec Hc Hti. pose proof Hc as (Hu & _). destruct (inv_keys _ HI proj Hu) as [t Ht].
  apply (inv_update e e' proj t l); rewrite ?Es; try done. intros h. by apply (inv_hash _ HI).
Qed.

Lemma stable_mfor {S E A} (I : S -> Prop) (l : list A) (body : A -> SM S E unit) : (forall x, stable I (body x)) -> stable I (mfor l body).
Proof.
  intros Hb. induction l as [|x l IH]; intros s Hs; [done|]. cbn [mfor]. unfold mbind, SM_bind. specialize (Hb x s Hs).
  destruct (body x s) as [[[]|] s1]; [by apply IH|done].
Qed.

Lemma touchLeases_inv p projs e : Inv e -> Inv (snd (touchLeases clock p projs e)) /\ store (snd (touchLeases clock p projs e)) = store e.
Proof.
  intros HI. apply (stable_mfor (fun e' => Inv e' /\ store e' = store e) projs
    (fun pr => e' ← sm_get; match leases e' !! pr with
       | Some l => if negb (ls_unresolved l) && (ls_holder l =s PName p) then put pr (wrote (ms (clock (ticks e))) l) else mret tt
       | None => mret tt end)); [|split; [by apply (inv_same e)|done]].
  intros pr e1 [HI1 Hs1]. unfold mbind, SM_bind, sm_get. destruct (leases e1 !! pr) as [l|] eqn:El; [|done].
  destruct (_ && _); [|done]. cbn. split; [|done]. eapply (inv_put e1 _ pr); [done|done|done|done| |].
  - eapply coh_dirty; [by apply (inv_table _ HI1)|done|done].
  - destruct (inv_times _ HI1 _ _ El) as (? & ? & ? & ?). split; [|split; [|split]]; try done; apply Hclock.
Qed.

Lemma heartbeat_inv p pending e : Inv e -> Inv (snd (heartbeat clock p pending e)) /\ store (snd (heartbeat clock p pending e)) = store e.
Proof.
  intros HI. split; [|done]. eapply (inv_map e); [done|done|done|done| |].
  - intros proj l Hc. unfold beats. destruct (_ && _); [|done]. by eapply coh_dirty.
  - intros l Hl. unfold beats. destruct (_ && _); [|done]. destruct Hl as (? & ? & ? & ?). split; [|split; [|split]]; try done; apply Hclock.
Qed.

(** ** Flushes *)
Definition flushed_as (r : redis) (pr write hb : Z) (pending : bool) : Prop :=
  exists h, r !! leaseKey pr = Some (RHash h) /\ h !! "last_write_ms" = Some (FormatInt write) /\
    h !! "last_hb_ms" = Some (FormatInt hb) /\ h !! "pending" = Some (boolStr pending).

Definition flushFields (lw hb pd : string) : list (string * string) := [("last_write_ms", lw); ("last_hb_ms", hb); ("pending", pd)].

Lemma flushFields_other h lw hb pd f : f ∉ ["last_write_ms"; "last_hb_ms"; "pending"] -> hset h (flushFields lw hb pd) !! f = h !! f.
Proof. intros Hf. by apply hset_out. Qed.
Lemma flushFields_e h lw hb pd q : hset h (flushFields lw hb pd) !! efield q = h !! efield q.
Proof. apply flushFields_other. rewrite !not_elem_of_cons. split_and!; [done..|apply not_elem_of_nil]. Qed.

Lemma flush_script k1 k2 ep hd lw hb pd r res r' : leaseFlushLua k1 k2 ep hd lw hb pd r = (res, r') ->
  (r' = r /\ exists msg, res = Err msg) \/
  exists h, r !! k2 = Some (RHash h) /\ res = Ok 1 /\ r' = <[k2 := RHash (hset h (flushFields lw hb pd))]> r.
Proof.
  unfold leaseFlushLua. intros E. repeat case_match; simplify_eq; eauto 6.
Qed.

Lemma keys_hold_flush c h t lw hb pd :
  keys_hold c (Some (RHash h)) t -> keys_hold c (Some (RHash (hset h (flushFields lw hb pd)))) t.
Proof.
  intros Ht. inversion Ht as [| |n h0 hd last Hn He Hh Hq Hm]; subst. apply kh_hash; try done.
  - rewrite flushFields_other; [done|]. by apply (bool_decide_unpack _).
  - rewrite flushFields_other; [done|]. by apply (bool_decide_unpack _).
  - intros q. by rewrite flushFields_e.
Qed.

(** A dirty lease agrees with its record after any flush of it. *)
Lemma coh_flush r pr l h lw hb pd : coh r pr l -> ls_dirty l = true -> r !! leaseKey pr = Some (RHash h) ->
  coh (<[leaseKey pr := RHash (hset h (flushFields lw hb pd))]> r) pr l.
Proof.
  intros (Hu & Hp & Hres) Hd Hk. split_and!; [done..|]. intros Hun.
  rewrite lookup_insert_eq, lookup_insert_ne by (intros E; by apply (epoch_lease_ne pr pr)).
  destruct (Hres Hun) as [(Hn & _)|(h0 & Hh & Hc & He & Hr)]; [congruence|]. right. eexists. split_and!; [done..|].
  rewrite Hk in Hh. injection Hh as <-. unfold recorded in *. destruct Hr as (R1 & R2 & R3 & R4 & R5 & R6 & R7 & R8 & _ & R10 & R11).
  rewrite !flushFields_other by (by apply (bool_decide_unpack _)). refine (conj R1 (conj R2 (conj R3 (conj R4 (conj R5 (conj R6 (conj R7 (conj R8 _)))))))).
  split; [rewrite Hd; discriminate 1|]. split; [|exact R11]. intros q. rewrite flushFields_e. apply R10.
Qed.

Lemma flushed_hash h l : flushed_as {[leaseKey 0 := RHash (hset h (flushFields (FormatInt (ls_lastWriteMs l)) (FormatInt (ls_lastHbMs l)) (boolStr (ls_pending l))))]}
  0 (ls_lastWriteMs l) (ls_lastHbMs l) (ls_pending l).
Proof.
  eexists. rewrite lookup_singleton_eq. split; [done|]. split_and!; (apply hset_in; [by apply (bool_decide_unpack _)|]);
    [apply (list_elem_of_lookup_2 _ 0)|apply (list_elem_of_lookup_2 _ 1)|apply (list_elem_of_lookup_2 _ 2)]; reflexivity.
Qed.

Lemma wf_flush h l : wf_hash h -> times_ok l ->
  wf_hash (hset h (flushFields (FormatInt (ls_lastWriteMs l)) (FormatInt (ls_lastHbMs l)) (boolStr (ls_pending l)))).
Proof.
  intros (l0 & Hr & Hd & (T1 & T2 & T3 & T4) & Hep & Hhb) (U1 & U2 & U3 & U4).
  exists (mkLease (ls_proj l0) (ls_holder l0) (ls_kind l0) (ls_host l0) (ls_epoch l0) (ls_mode l0) (ls_grantedMs l0) (ls_lastWriteMs l)
    (ls_lastHbMs l) (ls_checkoutUntilMs l0) (ls_pending l) (ls_label l0) (ls_hist l0) (ls_recent l0) false false).
  destruct (flushed_hash h l) as (h' & Hh' & F1 & F2 & F3). rewrite lookup_singleton_eq in Hh'. injection Hh' as <-.
  split; [|by split_and!]. unfold recorded in *. cbn. destruct Hr as (R1 & R2 & R3 & R4 & R5 & R6 & R7 & R8 & _ & R10 & R11).
  rewrite !flushFields_other by (by apply (bool_decide_unpack _)).
  refine (conj R1 (conj R2 (conj R3 (conj R4 (conj R5 (conj R6 (conj R7 (conj R8 _)))))))).
  split; [|split; [intros q; rewrite flushFields_e; apply R10|exact R11]]. by intros _.
Qed.

Lemma flushCall_spec pr l e res e' :
  Inv e -> leases e !! pr = Some l -> ls_dirty l = true -> flushCall net pr l e = (res, e') ->
  Inv e' /\ evolved e e' /\ leases e' = leases e /\
  (flushed res = true -> flushed_as (store e') pr (ls_lastWriteMs l) (ls_lastHbMs l) (ls_pending l)).
Proof.
  intros HI Hl Hd Hr. unfold flushCall, call in Hr. set (script := leaseFlushLua _ _ _ _ _ _ _) in Hr.
  destruct (script (store e)) as [r st] eqn:Es. apply flush_script in Es. pose proof (inv_table _ HI _ _ Hl) as Hc. pose proof Hc as (Hu & _).
  destruct (inv_keys _ HI pr Hu) as [t Ht].
  assert (Hnone : forall e2, store e2 = store e -> leases e2 = leases e -> lcfg e2 = lcfg e -> Inv e2 /\ evolved e e2).
  { intros e2 E1 E2 E3. split; [by apply (inv_same e)|by apply evolved_same]. }
  assert (Hdone : forall h e2, store e !! leaseKey pr = Some (RHash h) -> leases e2 = leases e -> lcfg e2 = lcfg e ->
    store e2 = <[leaseKey pr := RHash (hset h (flushFields (FormatInt (ls_lastWriteMs l)) (FormatInt (ls_lastHbMs l)) (boolStr (ls_pending l))))]> (store e) ->
    Inv e2 /\ evolved e e2).
  { intros h e2 Hh E2 E3 E1.
    assert (Ht' : stores (store e2) pr t).
    { unfold stores. rewrite E1, lookup_insert_eq, lookup_insert_ne by (intros E; by apply (epoch_lease_ne pr pr)).
      apply keys_hold_flush. by rewrite <- Hh. }
    assert (Hk : only_keys pr (store e) (store e2)) by (intros k _ Hk; by rewrite E1, lookup_insert_ne by done).
    split; [|by eapply (evolved_one e e2 pr t t)].
    eapply (inv_update e e2 pr t l); try done; [by rewrite insert_id|rewrite E1; by apply coh_flush|by apply (inv_times _ HI pr)|].
    intros h'. rewrite E1, lookup_insert_eq. intros [= <-]. apply wf_flush; [by apply (inv_hash _ HI pr)|by apply (inv_times _ HI pr)]. }
  destruct Es as [[-> [msg ->]]|(h & Hh & -> & Hst)].
  - destruct (net (calls e)); injection Hr as <- <-; (destruct (Hnone (mkEngine (anc e) (leases e) (lcfg e) (depthFixed e) (store e) (S (calls e)) (ticks e))); [done..|]); by split_and!.
  - destruct (net (calls e)); injection Hr as <- <-; cbn.
    + destruct (Hdone h (mkEngine (anc e) (leases e) (lcfg e) (depthFixed e) st (S (calls e)) (ticks e)) Hh eq_refl eq_refl Hst) as [HI' Hev].
      split_and!; [done..|]. intros _. cbn.
      destruct (flushed_hash h l) as (h' & Hh' & F). rewrite lookup_singleton_eq in Hh'. injection Hh' as <-.
      eexists. rewrite Hst, lookup_insert_eq. split; [reflexivity|exact F].
    + destruct (Hnone (mkEngine (anc e) (leases e) (lcfg e) (depthFixed e) (store e) (S (calls e)) (ticks e))); [done..|]. by split_and!.
    + destruct (Hdone h (mkEngine (anc e) (leases e) (lcfg e) (depthFixed e) st (S (calls e)) (ticks e)) Hh eq_refl eq_refl Hst) as [HI' Hev].
      by split_and!.
Qed.

Lemma flushEnd_inv pr write hb pending ok e : Inv e -> (ok = true -> flushed_as (store e) pr write hb pending) ->
  Inv (snd (flushEnd pr write hb pending ok e)) /\ store (snd (flushEnd pr write hb pending ok e)) = store e.
Proof.
  intros HI Hf. unfold flushEnd, mbind, SM_bind, sm_get. destruct (leases e !! pr) as [l|] eqn:El; [|done].
  pose proof (inv_table _ HI _ _ El) as Hc. destruct ok; cbn [negb].
  - destruct (_ && _) eqn:E; [|done]. split; [|done]. pose proof (inv_times _ HI _ _ El) as Hti. eapply (inv_put e _ pr); [done|done|done|done| |done].
    rewrite !andb_true_iff in E. destruct E as [[E1 E2] E3]. apply Z.eqb_eq in E1 as <-. apply Z.eqb_eq in E2 as <-. apply eqb_prop in E3 as <-.
    destruct Hc as (Hu & Hp & Hres). split_and!; [done..|]. intros Hun. destruct (Hres Hun) as [?|(h & Hh & Hx & He & Hr)]; [by left|]. right. exists h.
    destruct (Hf eq_refl) as (h' & Hh' & F1 & F2 & F3). rewrite Hh in Hh'. injection Hh' as <-.
    split_and!; [done..|]. destruct Hr as (R1 & R2 & R3 & R4 & R5 & R6 & R7 & R8 & _ & R10 & R11). unfold recorded. cbn.
    refine (conj R1 (conj R2 (conj R3 (conj R4 (conj R5 (conj R6 (conj R7 (conj R8 _)))))))). split; [by intros _|]. by split.
  - split; [|done]. destruct Hc as (Hu & Hp & _). pose proof (inv_times _ HI _ _ El) as Hti.
    eapply (inv_put e _ pr); [done|done|done|done| |done]. by apply coh_quarantined.
Qed.

(** ** Sweeps and flushes of the whole table *)
Definition sound (e0 e : engine) : Prop := Inv e /\ evolved e0 e.

Lemma sound_step e0 e e' : sound e0 e -> Inv e' -> evolved e e' -> sound e0 e'.
Proof. intros [_ H1] H2 H3. split; [done|]. by eapply evolved_trans. Qed.

Lemma sweepOne_sound e0 c pr : stable (sound e0) (sweepOne clock net c pr).
Proof.
  intros e He. pose proof He as [HI _]. unfold sweepOne, mbind, SM_bind, now, sm_get. set (e1 := mkEngine _ _ _ _ _ _ _).
  assert (HI1 : Inv e1) by (by apply (inv_same e)). assert (He1 : sound e0 e1) by (eapply sound_step; [done|done|by apply evolved_same]).
  destruct (leases e1 !! pr) as [l|] eqn:El; [|done]. destruct (bool_decide _); [|done]. cbn.
  destruct (endLocked clock net pr e1) as [r e2] eqn:Er. pose proof (inv_table _ HI1 _ _ El) as (Hu & _).
  apply endLocked_spec in Er as (? & ? & _); [|done..]. by eapply sound_step.
Qed.

Lemma sweep_sound e0 : stable (sound e0) (sweep clock net).
Proof.
  intros e He. unfold sweep. unfold mbind at 1 2, SM_bind at 1 2, sm_get at 1, now at 1. apply stable_mfor; [intros pr; apply sweepOne_sound|].
  destruct He as [HI Hev]. split; [by apply (inv_same e)|]. eapply evolved_trans; [done|by apply evolved_same].
Qed.

Lemma flushOne_sound e0 pr : stable (sound e0) (flushOne net pr).
Proof.
  intros e He. pose proof He as [HI _]. unfold flushOne. unfold mbind at 1, SM_bind at 1, sm_get at 1.
  destruct (leases e !! pr) as [l|] eqn:El; [|done]. destruct (_ || _) eqn:Eb; [done|]. unfold mbind, SM_bind, attempt.
  apply orb_false_iff in Eb as [Eb _]. apply orb_false_iff in Eb as [Eb _]. apply negb_false_iff in Eb.
  destruct (flushCall net pr l e) as [r e1] eqn:Ef. apply flushCall_spec in Ef as (HI1 & Hev1 & _ & Hf); [|done..]. cbn.
  destruct (flushEnd_inv pr (ls_lastWriteMs l) (ls_lastHbMs l) (ls_pending l) (flushed r) e1 HI1 Hf) as [HI2 Hs2].
  eapply sound_step; [done|exact HI2|]. eapply evolved_trans; [done|by apply evolved_same].
Qed.

Lemma flushDirty_sound e0 : stable (sound e0) (flushDirty net).
Proof. intros e He. unfold flushDirty, mbind, SM_bind, sm_get. by apply stable_mfor; [intros pr; apply flushOne_sound|]. Qed.
End ops.
