(* ===== verification/LeaseLoad.v ===== *)
(** * Loading the lease table

    A record read back with HGETALL, in any order, gives the lease it was
    written from. *)

From S2P Require Import Prelude GoLib Resp Classify ClassifyFacts Policy Guard GuardCheck TxnUnit Ancestry LeaseStore Leases LeaseFacts LeaseInv.

(** ** The reply *)
Definition flat (fs : list (string * string)) : list Value := mjoin ((fun fv => [bulkOf (fst fv); bulkOf (snd fv)]) <$> fs).

Lemma pairs_flat fs : pairs (flat fs) = (fun fv => (bulkOf (fst fv), bulkOf (snd fv))) <$> fs.
Proof.
  induction fs as [|fv fs IH]; [done|]. change (pairs (flat (fv :: fs))) with ((bulkOf (fst fv), bulkOf (snd fv)) :: pairs (flat fs)).
  by rewrite IH.
Qed.
Lemma hashFields_flat fs : hashFields (flat fs) = Some fs.
Proof.
  unfold hashFields. rewrite pairs_flat. apply mapM_Some_2. induction fs as [|[f v] fs IH]; [constructor|]. cbn. by constructor.
Qed.
Lemma even_flat fs : Nat.even (length (flat fs)) = true.
Proof. induction fs as [|fv fs IH]; [done|]. exact IH. Qed.

Lemma filter_none {A} (P : A -> Prop) `{forall x, Decision (P x)} l : (forall x, x ∈ l -> ~ P x) -> filter P l = [].
Proof.
  induction l as [|x l IH]; intros Hl; [done|]. rewrite filter_cons_False; [|apply Hl; by left]. apply IH. intros y Hy. apply Hl. by right.
Qed.

Lemma filter_key fs k v : NoDup (fst <$> fs) -> (k, v) ∈ fs -> filter (fun fv : string * string => fst fv = k) fs = [(k, v)].
Proof.
  induction fs as [|[k' v'] fs IH]; intros Hn Hin; [by apply not_elem_of_nil in Hin|]. cbn in Hn. apply NoDup_cons in Hn as [Hk Hn].
  apply elem_of_cons in Hin as [[= -> ->]|Hin].
  - rewrite filter_cons_True by done. f_equal. apply filter_none. intros [f w] Hf Hfk. cbn in Hfk. subst f.
    apply Hk, list_elem_of_fmap. eexists. split; [|exact Hf]. done.
  - rewrite filter_cons_False; [by apply IH|]. cbn. intros ->. apply Hk, list_elem_of_fmap. by exists (k, v).
Qed.

Lemma hash_NoDup (h : gmap string string) fs : fs ≡ₚ map_to_list h -> NoDup (fst <$> fs).
Proof. intros Hp. rewrite Hp. apply NoDup_fst_map_to_list. Qed.
Lemma hash_elem (h : gmap string string) fs k v : fs ≡ₚ map_to_list h -> (k, v) ∈ fs <-> h !! k = Some v.
Proof. intros Hp. rewrite Hp. apply elem_of_map_to_list. Qed.

(** ** One field at a time *)
Lemma fold_field {X} (g : lease -> X) (k : string) (read : string -> X) :
  (forall l f v, f <> k -> g (loadField l (f, v)) = g l) -> (forall l v, g (loadField l (k, v)) = read v) ->
  forall fs l0, NoDup (fst <$> fs) ->
  (forall v, (k, v) ∈ fs -> g (foldl loadField l0 fs) = read v) /\ (k ∉ fst <$> fs -> g (foldl loadField l0 fs) = g l0).
Proof.
  intros Hne Heq. induction fs as [|[f w] fs IH]; intros l0 Hn; [split; [intros v Hv; by apply not_elem_of_nil in Hv|done]|].
  cbn in Hn. apply NoDup_cons in Hn as [Hf Hn]. destruct (IH (loadField l0 (f, w)) Hn) as [H1 H2]. cbn [foldl]. split.
  - intros v Hv. apply elem_of_cons in Hv as [[= -> ->]|Hv]; [|by apply H1]. rewrite H2 by done. apply Heq.
  - cbn. intros Hk. apply not_elem_of_cons in Hk as [Hk1 Hk2]. rewrite H2 by done. by apply Hne.
Qed.

Ltac other_field :=
  let Hf := fresh in let l0 := fresh in let f := fresh in let v := fresh in
  intros l0 f v Hf; destruct l0; unfold loadField; cbn [fst snd];
  repeat match goal with
         | |- context [if ?b then _ else _] =>
             let E := fresh in destruct b eqn:E;
             [first [done | apply eqs_true in E; congruence]|]
         end; done.

Lemma hist_other q : forall l f v, f <> efield q -> ls_hist (loadField l (f, v)) !! q = ls_hist l !! q.
Proof.
  intros l f v Hf. destruct l. unfold loadField. cbn [fst snd].
  repeat match goal with |- context [if f =s ?k then _ else _] => destruct (f =s k); [done|] end.
  destruct (HasPrefix f "e:") eqn:E; [|done]. apply HasPrefix_true in E as [r ->]. cbn.
  rewrite lookup_insert_ne; [done|]. intros E. change (r = q) in E. subst r. by apply Hf.
Qed.

Lemma hist_field q : forall l v, ls_hist (loadField l (efield q, v)) !! q = Some (u64 (fst (ParseInt v))).
Proof.
  intros l v. destruct l. unfold loadField. cbn [fst snd].
  repeat match goal with |- context [efield q =s ?k] => change (efield q =s k) with false end.
  change (HasPrefix (efield q) "e:") with true. change (TrimPrefix (efield q) "e:") with q. cbn. by rewrite lookup_insert_eq.
Qed.

(** The lease [foldl loadField] builds, field by field. *)
Section loaded.
Context (proj : Z) (h : gmap string string) (fs : list (string * string)).
Context (Hfs : fs ≡ₚ map_to_list h).
Let L := foldl loadField (newLease proj) fs.

Lemma loaded_field {X} (g : lease -> X) k read v :
  (forall l f v, f <> k -> g (loadField l (f, v)) = g l) -> (forall l v, g (loadField l (k, v)) = read v) ->
  h !! k = Some v -> g L = read v.
Proof.
  intros H1 H2 Hk. destruct (fold_field g k read H1 H2 fs (newLease proj) (hash_NoDup h fs Hfs)) as [H _].
  apply H. by apply (hash_elem h fs).
Qed.

Lemma loaded_missing {X} (g : lease -> X) k read :
  (forall l f v, f <> k -> g (loadField l (f, v)) = g l) -> (forall l v, g (loadField l (k, v)) = read v) ->
  h !! k = None -> g L = g (newLease proj).
Proof.
  intros H1 H2 Hk. destruct (fold_field g k read H1 H2 fs (newLease proj) (hash_NoDup h fs Hfs)) as [_ H].
  apply H. intros Hin. apply list_elem_of_fmap in Hin as ([f v] & -> & Hin). cbn in Hk. apply (hash_elem h fs) in Hin; [congruence|done].
Qed.

Lemma loaded_fixed {X} (g : lease -> X) : (forall l fv, g (loadField l fv) = g l) -> g L = g (newLease proj).
Proof. intros Hg. subst L. clear Hfs. generalize (newLease proj). induction fs as [|fv l IH]; intros l0; [done|]. cbn. by rewrite IH, Hg. Qed.

Ltac read g k rd H := eapply (loaded_field g k rd); [other_field|by intros []|exact H].

Lemma u64_epoch n : is_epoch n -> u64 (fst (ParseInt (FormatUint n))) = n.
Proof. intros [H1 H2]. rewrite ParseInt_FormatUint by lia. cbn. unfold u64. apply Z.mod_small. lia. Qed.

Lemma read_ms x : - 2^62 < x < 2^62 -> fst (ParseInt (FormatInt x)) = x.
Proof. intros Hx. rewrite ParseInt_FormatInt; [done|]. unfold is_i64. lia. Qed.

(** Reading a record back. *)
Lemma loaded_eq l : recorded h l -> ls_dirty l = false -> times_ok l -> h !! "last_hb_ms" = Some (FormatInt (ls_lastHbMs l)) ->
  is_epoch (ls_epoch l) ->
  L = mkLease proj (ls_holder l) (ls_kind l) (ls_host l) (ls_epoch l) (ls_mode l) (ls_grantedMs l) (ls_lastWriteMs l) (ls_lastHbMs l)
        (ls_checkoutUntilMs l) (ls_pending l) (ls_label l) (ls_hist l) ∅ false false.
Proof.
  intros (R1 & R2 & R3 & R4 & R5 & R6 & R7 & R8 & R9 & R10 & R11) Hd (T1 & T2 & T3 & T4) Hhb Hep. destruct (R9 Hd) as [R9a R9b].
  assert (E1 : ls_holder L = ls_holder l) by (read ls_holder "holder" (fun v : string => v) R1).
  assert (E2 : ls_kind L = ls_kind l) by (read ls_kind "kind" (fun v : string => v) R2).
  assert (E3 : ls_host L = ls_host l) by (read ls_host "host" (fun v : string => v) R3).
  assert (E5 : ls_mode L = ls_mode l) by (read ls_mode "mode" (fun v : string => v) R5).
  assert (E8 : ls_label L = ls_label l) by (read ls_label "label" (fun v : string => v) R8).
  assert (E4 : ls_epoch L = ls_epoch l).
  { rewrite <- (u64_epoch (ls_epoch l)) by done. read ls_epoch "epoch" (fun v => u64 (fst (ParseInt v))) R4. }
  assert (E6 : ls_grantedMs L = ls_grantedMs l).
  { rewrite <- (read_ms (ls_grantedMs l)) by (unfold tms in *; lia). read ls_grantedMs "granted_ms" (fun v => fst (ParseInt v)) R6. }
  assert (E7 : ls_checkoutUntilMs L = ls_checkoutUntilMs l).
  { rewrite <- (read_ms (ls_checkoutUntilMs l)) by done. read ls_checkoutUntilMs "checkout_until_ms" (fun v => fst (ParseInt v)) R7. }
  assert (E9 : ls_lastWriteMs L = ls_lastWriteMs l).
  { rewrite <- (read_ms (ls_lastWriteMs l)) by (unfold tms in *; lia). read ls_lastWriteMs "last_write_ms" (fun v => fst (ParseInt v)) R9a. }
  assert (E10 : ls_lastHbMs L = ls_lastHbMs l).
  { rewrite <- (read_ms (ls_lastHbMs l)) by (unfold tms in *; lia). read ls_lastHbMs "last_hb_ms" (fun v => fst (ParseInt v)) Hhb. }
  assert (E11 : ls_pending L = ls_pending l).
  { transitivity (boolStr (ls_pending l) =s "1"); [|by destruct (ls_pending l)]. read ls_pending "pending" (fun v => v =s "1") R9b. }
  assert (E12 : ls_hist L = ls_hist l).
  { apply map_eq. intros q. specialize (R10 q). destruct (ls_hist l !! q) as [ep|] eqn:Eq; cbn in R10.
    - rewrite <- (u64_epoch ep) by (by apply (R11 q)).
      eapply (loaded_field (fun l => ls_hist l !! q) (efield q) (fun v => Some (u64 (fst (ParseInt v))))); [apply hist_other|apply hist_field|done].
    - rewrite (loaded_missing (fun l => ls_hist l !! q) (efield q) (fun v => Some (u64 (fst (ParseInt v))))); [done|apply hist_other|apply hist_field|done]. }
  assert (E13 : (ls_proj L, ls_recent L, ls_dirty L, ls_unresolved L) = (proj, ∅, false, false)).
  { apply (loaded_fixed (fun l => (ls_proj l, ls_recent l, ls_dirty l, ls_unresolved l))). intros [] [f v]. unfold loadField. cbn [fst snd]. by repeat case_match. }
  injection E13 as F1 F2 F3 F4. clearbody L. clear -E1 E2 E3 E4 E5 E6 E7 E8 E9 E10 E11 E12 F1 F2 F3 F4.
  destruct L. cbn in *. by subst.
Qed.
End loaded.

(** ** Loading a project *)
Section load.
Context (perm : forall A : Type, list A -> list A) (Hperm : forall A (l : list A), perm A l ≡ₚ l) (net : nat -> fate).

Definition store_ok (r : redis) : Prop :=
  (forall proj, is_u64 proj -> exists t, stores r proj t) /\
  (forall proj h, is_u64 proj -> r !! leaseKey proj = Some (RHash h) -> wf_hash h).

(** Only the number of calls changes. *)
Definition only_calls (e e' : engine) : Prop :=
  store e' = store e /\ leases e' = leases e /\ lcfg e' = lcfg e /\ anc e' = anc e.

Lemma loadLeaseRecord_hash proj e t h : stores (store e) proj t -> store e !! leaseKey proj = Some (RHash h) ->
  let res := loadLeaseRecord perm net proj e in
  only_calls e (snd res) /\ calls (snd res) = S (calls e) /\
  fst res = match net (calls e) with
            | Replied => Ok (perm _ (map_to_list h))
            | LostBefore err | LostAfter err => Err err
            end.
Proof.
  intros Ht Hh. unfold stores in Ht. rewrite Hh in Ht. inversion Ht as [| |n h0 hd last Hn He Hhd Hq Hm Ec]; subst.
  unfold loadLeaseRecord, call, mbind, SM_bind. unfold loadLeaseRecordLua, getStr. rewrite <- Ec, Hh.
  destruct (net (calls e)); [|done..]. cbv zeta. cbn [VType VElems]. set (fs := perm _ (map_to_list h)).
  assert (Hp : fs ≡ₚ map_to_list h) by apply Hperm.
  assert (Hin : ("epoch", FormatUint n) ∈ fs) by (by apply (hash_elem h fs)).
  assert (Hne : flat fs <> []) by (destruct fs as [|[f v] fs']; [by apply not_elem_of_nil in Hin|done]).
  fold (flat fs). change (Ascii.eqb "*" "*") with true. cbn [VNull VStr bulkOf].
  rewrite (bool_decide_false (flat fs = [])), even_flat by done. cbn [negb orb Ascii.eqb].
  assert (Hep : recordEpoch fs = Some n).
  { unfold recordEpoch. rewrite (filter_key fs "epoch" (FormatUint n)) by (done || by eapply hash_NoDup). by apply persistedLeaseEpoch_FormatUint. }
  change (negb (Ascii.eqb "$" "$") || false || negb (Ascii.eqb "*" "*") || false || false) with false. cbv iota.
  rewrite persistedLeaseEpoch_FormatUint, hashFields_flat by done. by rewrite bool_decide_true.
Qed.

Lemma loadLeaseRecord_none proj e t : stores (store e) proj t -> store e !! leaseKey proj = None ->
  let res := loadLeaseRecord perm net proj e in only_calls e (snd res) /\ forall fs, fst res <> Ok fs.
Proof.
  intros Ht Hh. unfold stores in Ht. rewrite Hh in Ht.
  unfold loadLeaseRecord, call, mbind, SM_bind. unfold loadLeaseRecordLua, getStr. rewrite Hh.
  assert (Hp : perm (string * string) (map_to_list ∅) = []) by (apply Permutation_nil_r; by rewrite Hperm, map_to_list_empty).
  inversion Ht as [Ec|n Hn Ec|]; subst; rewrite Hp; destruct (net (calls e)); done.
Qed.

(** What a loaded lease is: the record of its project. *)
Definition loaded (r : redis) (proj : Z) (l : lease) : Prop :=
  coh r proj l /\ times_ok l /\ ls_unresolved l = false /\ ls_dirty l = false /\ r !! leaseKey proj <> None.

Lemma wake_ok startMs r proj l : tms startMs -> loaded r proj l -> loaded r proj (wake startMs l).
Proof.
  intros Hs (Hc & (T1 & T2 & T3 & T4) & Hu & Hd & Hk). unfold wake. destruct (_ && _); [|by split_and!]. split; [|done].
  destruct Hc as (Hpu & Hp & Hres). split_and!; [done..|]. intros _. destruct (Hres Hu) as [?|(h & H1 & H2 & H3 & Hr)]; [by left|].
  right. exists h. by split_and!.
Qed.

Lemma load_project r proj t h fs : store_ok r -> is_u64 proj -> stores r proj t -> r !! leaseKey proj = Some (RHash h) -> fs ≡ₚ map_to_list h ->
  loaded r proj (foldl loadField (newLease proj) fs).
Proof.
  intros [_ Hwf] Hu Ht Hh Hp. destruct (Hwf proj h Hu Hh) as (l & Hr & Hd & Hti & Hep & Hhb).
  rewrite (loaded_eq proj h fs Hp l) by done. split; [|split_and!; try done; try apply Hti; congruence].
  split_and!; [done..|]. intros _. right. exists h. unfold stores in Ht. rewrite Hh in Ht. inversion Ht as [| |n h0 hd last Hn He Hhd Hq Hm Ec]; subst.
  assert (n = ls_epoch l) as ->.
  { apply FormatUint_inj; [by apply epoch_u64..|]. destruct Hr as (_ & _ & _ & R4 & _). congruence. }
  split; [done|]. split; [done|]. split; [exact Hep|].
  destruct Hr as (R1 & R2 & R3 & R4 & R5 & R6 & R7 & R8 & R9 & R10 & R11). unfold recorded. cbn.
  refine (conj R1 (conj R2 (conj R3 (conj R4 (conj R5 (conj R6 (conj R7 (conj R8 _)))))))). split; [intros _; exact (R9 Hd)|by split].
Qed.

Lemma loadKey_spec startMs cands key e res e' : store_ok (store e) -> tms startMs -> loadKey perm net startMs cands key e = (res, e') ->
  only_calls e e' /\ forall cands', res = Ok cands' -> exists proj l, is_u64 proj /\ key = leaseKey proj /\
    loaded (store e) proj l /\ cands' = <[proj := l]> cands.
Proof.
  intros Hok Hs Hr. unfold loadKey in Hr. destruct (digits (TrimPrefix key LeaseKeyPrefix)) as [proj|] eqn:Ed; [|by injection Hr as <- <-].
  destruct ((proj =? 0) || negb (leaseKey proj =s key)) eqn:Ek; [by injection Hr as <- <-|].
  apply orb_false_iff in Ek as [_ Ek]. apply negb_false_iff, eqs_true in Ek. apply digits_iff in Ed as [Hu _].
  destruct (proj1 Hok proj Hu) as [t Ht]. unfold mbind, SM_bind in Hr.
  destruct (store e !! leaseKey proj) as [[s|h|]|] eqn:Eh; try (unfold stores in Ht; rewrite Eh in Ht; by inversion Ht).
  - destruct (loadLeaseRecord_hash proj e t h Ht Eh) as (Ho & _ & Hres). destruct (loadLeaseRecord perm net proj e) as [[fs|err] e1]; cbn in *.
    + injection Hr as <- <-. split; [done|]. intros cands' [= <-]. exists proj. eexists. split_and!; try done.
      apply wake_ok; [done|]. eapply load_project; [done..|]. destruct (net (calls e)); [|discriminate Hres..]. injection Hres as ->. apply Hperm.
    + by injection Hr as <- <-.
  - destruct (loadLeaseRecord_none proj e t Ht Eh) as (Ho & Hres). destruct (loadLeaseRecord perm net proj e) as [[fs|err] e1]; cbn in *.
    + by destruct (Hres fs).
    + by injection Hr as <- <-.
Qed.

(** ** The scan *)
Context (scan : redis -> string -> string * list string).

(** The rounds of SCAN from a cursor, and the keys they return. *)
Inductive scans (r : redis) : string -> nat -> list string -> Prop :=
  | scans_last c ks : scan r c = ("0", ks) -> scans r c 1 ks
  | scans_more c c' ks n rest : scan r c = (c', ks) -> c' <> "0" -> scans r c' n rest -> scans r c (S n) (ks ++ rest).

(** Every candidate is the record of its project, and every key read is one. *)
Definition cands_ok (r : redis) (keys : list string) (cands : gmap Z lease) : Prop :=
  (forall proj l, cands !! proj = Some l -> loaded r proj l) /\
  (forall proj, is_u64 proj -> leaseKey proj ∈ keys -> is_Some (cands !! proj)).

Lemma only_calls_trans e1 e2 e3 : only_calls e1 e2 -> only_calls e2 e3 -> only_calls e1 e3.
Proof. intros (A1 & A2 & A3 & A4) (B1 & B2 & B3 & B4). split_and!; congruence. Qed.

Lemma loadKeys_spec startMs keys : forall done cands e res e', store_ok (store e) -> tms startMs -> cands_ok (store e) done cands ->
  mfold (loadKey perm net startMs) cands keys e = (res, e') ->
  only_calls e e' /\ forall cands', res = Ok cands' -> cands_ok (store e) (done ++ keys) cands'.
Proof.
  induction keys as [|k keys IH]; intros dn cands e res e' Hok Hs Hc Hr; cbn [mfold] in Hr.
  { injection Hr as <- <-. split; [done|]. intros c' [= <-]. by rewrite app_nil_r. }
  unfold mbind, SM_bind in Hr. destruct (loadKey perm net startMs cands k e) as [[c1|err] e1] eqn:E1.
  - destruct (loadKey_spec _ _ _ _ _ _ Hok Hs E1) as [Ho Hc1]. destruct (Hc1 c1 eq_refl) as (proj & l & Hu & -> & Hl & ->).
    assert (Es : store e1 = store e) by apply Ho. eapply (IH (dn ++ [leaseKey proj])) in Hr as [Ho2 H2]; rewrite ?Es; try done.
    + split; [by eapply only_calls_trans|]. intros c' ->. rewrite <- Es. replace (dn ++ leaseKey proj :: keys) with ((dn ++ [leaseKey proj]) ++ keys)
        by (by rewrite <- app_assoc). by apply H2.
    + destruct Hc as [C1 C2]. split.
      * intros pr x. destruct (decide (pr = proj)) as [->|Hn]; [rewrite lookup_insert_eq; by intros [= <-]|]. rewrite lookup_insert_ne by done. apply C1.
      * intros pr Hpu Hin. destruct (decide (pr = proj)) as [->|Hn]; [rewrite lookup_insert_eq; eauto|]. rewrite lookup_insert_ne by done.
        apply C2; [done|]. apply elem_of_app in Hin as [Hin|Hin]; [done|]. apply list_elem_of_singleton in Hin. by apply leaseKey_inj in Hin.
  - destruct (loadKey_spec _ _ _ _ _ _ Hok Hs E1) as [Ho _]. by injection Hr as <- <-.
Qed.

Lemma loadLeases_spec startMs fuel : forall cursor dn cands e res e', store_ok (store e) -> tms startMs -> cands_ok (store e) dn cands ->
  loadLeases perm net scan startMs fuel cursor cands e = (res, e') ->
  store e' = store e /\ lcfg e' = lcfg e /\
  forall u, res = Ok u -> exists n keys, scans (store e) cursor n keys /\ cands_ok (store e) (dn ++ keys) (leases e').
Proof.
  induction fuel as [|fuel IH]; intros cursor dn cands e res e' Hok Hs Hc Hr; [by injection Hr as <- <-|]. cbn [loadLeases] in Hr.
  unfold mbind at 1, SM_bind at 1, call in Hr. destruct (net (calls e)); [|by injection Hr as <- <-..].
  set (e1 := mkEngine _ _ _ _ _ _ _) in Hr. unfold mbind at 1, SM_bind at 1 in Hr. destruct (scan (store e) cursor) as [c' ks] eqn:Esc. cbn [fst snd] in Hr.
  destruct (mfold (loadKey perm net startMs) cands ks e1) as [[c2|err] e2] eqn:E2.
  - apply (loadKeys_spec _ _ dn) in E2 as [Ho2 H2]; [|done..]. specialize (H2 c2 eq_refl). assert (Es : store e2 = store e) by apply Ho2.
    destruct (c' =s "0") eqn:Ez.
    + apply eqs_true in Ez as ->. injection Hr as <- <-. split; [done|]. split; [apply Ho2|]. intros _ _. exists 1%nat, ks. split; [by constructor|done].
    + apply eqs_false in Ez. apply (IH c' (dn ++ ks)) in Hr as (Es3 & Hcfg & H3); rewrite ?Es; try done. split; [congruence|]. split; [rewrite Hcfg; apply Ho2|].
      intros u ->. destruct (H3 u eq_refl) as (n & keys & Hsc & Hck). rewrite Es in *. exists (S n), (ks ++ keys).
      split; [by econstructor|]. by rewrite app_assoc.
  - apply (loadKeys_spec _ _ dn) in E2 as [Ho2 _]; [|done..]. injection Hr as <- <-. split; [apply Ho2|]. split; [apply Ho2|done].
Qed.

(** Redis: a full iteration returns every key that is there throughout. *)
Definition scan_sees_all (r : redis) : Prop :=
  forall n keys, scans r "0" n keys -> forall proj, is_u64 proj -> r !! leaseKey proj <> None -> leaseKey proj ∈ keys.

Lemma inv_store e : Inv e -> store_ok (store e).
Proof. intros [HA _ _ H1 _ _]. by split. Qed.

Lemma loadLeases_inv startMs fuel e u e' : Inv e -> tms startMs -> scan_sees_all (store e) ->
  loadLeases perm net scan startMs fuel "0" ∅ e = (Ok u, e') ->
  Inv e' /\ store e' = store e /\ forall proj l, leases e' !! proj = Some l -> loaded (store e) proj l.
Proof.
  intros HI Hs Hall Hr. apply (loadLeases_spec startMs fuel "0" []) in Hr as (Es & Hcfg & Hk); [|by apply inv_store|done|].
  2: { split; [intros proj l Hl; by rewrite lookup_empty in Hl|]. intros proj _ Hin. by apply not_elem_of_nil in Hin. }
  destruct (Hk u eq_refl) as (n & keys & Hsc & Hc1 & Hc2). split_and!; [|done|done]. destruct HI as [HA HB HC H1 H2 H3].
  constructor; rewrite ?Es, ?Hcfg; try done.
  - intros proj l Hl. by destruct (Hc1 proj l Hl) as (_ & ? & _).
  - intros proj l Hl. by destruct (Hc1 proj l Hl) as (? & _).
  - intros proj Hu Hn. destruct (store e !! leaseKey proj) eqn:E; [|done]. exfalso.
    destruct (Hc2 proj Hu) as [l Hl]; [|congruence]. apply (Hall n keys Hsc proj Hu). congruence.
Qed.

(** *** The load succeeds when Redis answers *)
Context (Hnet : forall n, net n = Replied).

Definition lease_key_of (r : redis) (k : string) : Prop := exists proj, 1 <= proj < 2^64 /\ k = leaseKey proj /\ r !! k <> None.

Lemma loadKey_ok startMs cands k e : store_ok (store e) -> lease_key_of (store e) k ->
  exists c e', loadKey perm net startMs cands k e = (Ok c, e') /\ store e' = store e.
Proof.
  intros Hok (proj & Hp & -> & Hk). assert (Hu : is_u64 proj) by (unfold is_u64; lia). unfold loadKey.
  change (TrimPrefix (leaseKey proj) LeaseKeyPrefix) with (FormatUint proj). rewrite digits_FormatUint by done.
  rewrite (proj2 (Z.eqb_neq proj 0)), eqs_refl by lia. cbn [negb orb]. destruct (proj1 Hok proj Hu) as [t Ht].
  destruct (store e !! leaseKey proj) as [[s|h|]|] eqn:Eh; try done; try (unfold stores in Ht; rewrite Eh in Ht; by inversion Ht).
  destruct (loadLeaseRecord_hash proj e t h Ht Eh) as ((Es & _) & _ & Hres). rewrite Hnet in Hres. unfold mbind, SM_bind.
  destruct (loadLeaseRecord perm net proj e) as [r e1]. cbn in *. subst r. eexists _, _. split; [reflexivity|done].
Qed.

Lemma loadKeys_ok startMs keys : forall cands e, store_ok (store e) -> (forall k, k ∈ keys -> lease_key_of (store e) k) ->
  exists c e', mfold (loadKey perm net startMs) cands keys e = (Ok c, e') /\ store e' = store e.
Proof.
  induction keys as [|k keys IH]; intros cands e Hok Hk; [by eexists _, _|]. cbn [mfold]. unfold mbind, SM_bind.
  destruct (loadKey_ok startMs cands k e Hok) as (c & e1 & E & Es); [apply Hk; by left|]. rewrite E.
  destruct (IH c e1) as (c' & e2 & E2 & Es2); rewrite ?Es; [done|intros x Hx; apply Hk; by right|]. eexists _, _. split; [exact E2|congruence].
Qed.

Lemma loadLeases_ok startMs r c n keys : scans r c n keys -> forall fuel cands e, store e = r -> store_ok r -> (n <= fuel)%nat ->
  (forall k, k ∈ keys -> lease_key_of r k) -> exists e', loadLeases perm net scan startMs fuel c cands e = (Ok tt, e').
Proof.
  induction 1 as [c ks Hsc|c c' ks n rest Hsc Hne Hrest IH]; intros [|fuel] cands e Es Hok Hn Hk; try lia;
    cbn [loadLeases]; unfold mbind at 1, SM_bind at 1, call; rewrite Hnet; unfold mbind at 1, SM_bind at 1; rewrite Es, Hsc; cbn [fst snd].
  - destruct (loadKeys_ok startMs ks cands (mkEngine (anc e) (leases e) (lcfg e) (depthFixed e) r (S (calls e)) (ticks e))) as (c1 & e1 & E & _); [done|done|].
    rewrite E. eexists. reflexivity.
  - destruct (loadKeys_ok startMs ks cands (mkEngine (anc e) (leases e) (lcfg e) (depthFixed e) r (S (calls e)) (ticks e))) as (c1 & e1 & E & Es1);
      [done|intros k Hin; apply Hk; apply elem_of_app; by left|]. rewrite E. apply eqs_false in Hne. rewrite Hne.
    apply IH; [done|done|lia|]. intros k Hin. apply Hk, elem_of_app. by right.
Qed.
End load.
