(* ===== verification/LeaseTheorems.v ===== *)
(** * Claims about leases

    [lsteps]: any sequence of grants, releases, expiries, touches, heartbeats,
    flushes (with heartbeats while Redis answers), reloads of the
    configuration and restarts, with any fate for every call. *)

From stdpp Require Import sorting.
From S2P Require Import Prelude GoLib Resp Classify ClassifyFacts Policy Guard GuardCheck TxnUnit Ancestry LeaseStore Leases LeaseFacts LeaseInv LeaseLoad.

Section history.
Context (perm : forall A : Type, list A -> list A) (clock : nat -> Z) (net : nat -> fate).
Context (scan : redis -> string -> string * list string).

(** Heartbeats that arrive while a flush waits for Redis. *)
Definition beatAll (bs : list (Principal * gset Z)) (e : engine) : engine :=
  foldl (fun e b => snd (heartbeat clock (fst b) (snd b) e)) e bs.

Inductive lstep (e : engine) : engine -> Prop :=
  | l_grant p proj mode ttl : is_u64 proj -> PName p <> "" -> is_i64 ttl -> lstep e (snd (grantLocked clock net p proj mode ttl e))
  | l_end proj : is_u64 proj -> lstep e (snd (endLocked clock net proj e))
  | l_touch p projs : lstep e (snd (touchLeases clock p projs e))
  | l_heartbeat p pending : lstep e (snd (heartbeat clock p pending e))
  | l_sweep : lstep e (snd (sweep clock net e))
  | l_flush pr l bs r e1 : leases e !! pr = Some l -> ls_dirty l = true -> flushCall net pr l e = (r, e1) ->
      lstep e (snd (flushEnd pr (ls_lastWriteMs l) (ls_lastHbMs l) (ls_pending l) (flushed r) (beatAll bs e1)))
  | l_config reply : lstep e (snd (loadCfg reply e))
  | l_resolver a : lstep e (set_anc a e)
  | l_restart startMs fuel u e1 : tms startMs -> scan_sees_all scan (store e) ->
      loadLeases perm net scan startMs fuel "0" ∅ e = (Ok u, e1) -> lstep e e1.

Abbreviation lsteps := (rtc lstep).

Context (Hperm : forall A (l : list A), perm A l ≡ₚ l) (Hclock : forall n, tms (ms (clock n))).

Lemma beatAll_inv bs : forall e, Inv e -> Inv (beatAll bs e) /\ store (beatAll bs e) = store e.
Proof.
  induction bs as [|[p pd] bs IH]; intros e HI; [done|]. destruct (heartbeat_inv clock Hclock p pd e HI) as [HI1 Hs1].
  destruct (IH _ HI1) as [HI2 Hs2]. split; [done|]. exact (eq_trans Hs2 Hs1).
Qed.

Lemma cfg_i64 fs : forall c, is_i64 (c_checkoutMax c) -> is_i64 (c_checkoutMax (foldl cfgField c fs)).
Proof.
  induction fs as [|[f v] fs IH]; intros c Hc; [done|]. cbn. apply IH. unfold cfgField. cbn.
  destruct (ParseInt v) as [n ok]. repeat (case_match; try done; try apply i64_range).
Qed.

Lemma loadCfg_inv reply e : Inv e -> Inv (snd (loadCfg reply e)) /\ store (snd (loadCfg reply e)) = store e.
Proof.
  intros HI. destruct reply as [fs|]; [|done]. split; [|done]. destruct HI as [HA HB HC H1 H2 H3]. constructor; try done. cbn.
  apply cfg_i64. by vm_compute.
Qed.

Lemma lstep_sound e e' : lstep e e' -> Inv e -> Inv e' /\ evolved e e'.
Proof.
  intros [p proj mode ttl Hu Hp Ht|proj Hu|p projs|p pending| |pr l bs r e1 Hl Hd Hf|reply|a|startMs fuel u e1 Hs Hall Hr] HI.
  - destruct (grantLocked clock net p proj mode ttl e) as [res e1] eqn:E. by apply (grantLocked_spec clock net Hclock) in E as (? & ? & _).
  - destruct (endLocked clock net proj e) as [res e1] eqn:E. by apply (endLocked_spec clock net) in E as (? & ? & _).
  - destruct (touchLeases_inv clock Hclock p projs e HI). split; [done|by apply evolved_same].
  - destruct (heartbeat_inv clock Hclock p pending e HI). split; [done|by apply evolved_same].
  - apply (sweep_sound clock net e e). split; [done|apply evolved_refl].
  - apply (flushCall_spec net) in Hf as (HI1 & Hev & _ & Hfl); [|done..]. destruct (beatAll_inv bs e1 HI1) as [HI2 Hs2].
    destruct (flushEnd_inv pr (ls_lastWriteMs l) (ls_lastHbMs l) (ls_pending l) (flushed r) (beatAll bs e1) HI2) as [HI3 Hs3]; [by rewrite Hs2|].
    split; [done|]. eapply evolved_trans; [done|apply evolved_same; congruence].
  - destruct (loadCfg_inv reply e HI). split; [done|by apply evolved_same].
  - split; [by apply (inv_same e)|by apply evolved_same].
  - apply (loadLeases_inv perm Hperm net) in Hr as (? & ? & _); [|done..]. split; [done|by apply evolved_same].
Qed.

Lemma lsteps_sound e e' : lsteps e e' -> Inv e -> Inv e' /\ evolved e e'.
Proof.
  induction 1 as [e|e e1 e2 Hs _ IH]; intros HI; [split; [done|apply evolved_refl]|]. destruct (lstep_sound _ _ Hs HI) as [HI1 Hev].
  destruct (IH HI1) as [HI2 Hev2]. split; [done|]. by eapply evolved_trans.
Qed.

(** ** Refinement *)

(** C30: the engine implements [lease_spec].  Whatever operations run and
    whatever becomes of their calls, the lease Redis has of a project only
    moves by grants of a free project and ends of a held one, each advancing
    the epoch by one; and a lease in memory that is not quarantined shows
    exactly the holder, epoch and past holders Redis has. *)
Theorem engine_refines_lease_spec e0 e proj t :
  Inv e0 -> lsteps e0 e -> is_u64 proj -> stores (store e0) proj t ->
  exists t', stores (store e) proj t' /\ evolves t t' /\
    forall l, leases e !! proj = Some l -> ls_unresolved l = false ->
      ls_holder l = t_holder t' /\ ls_hist l = t_last t' /\ (held l = true -> ls_epoch l = t_epoch t').
Proof.
  intros HI0 Hst Hu Ht. destruct (lsteps_sound _ _ Hst HI0) as [HI Hev]. destruct (Hev proj t Hu Ht) as (t' & Ht' & He').
  exists t'. split_and!; [done..|]. intros l Hl Hun. destruct (inv_table _ HI _ _ Hl) as (_ & _ & Hco). specialize (Hco Hun).
  destruct (resolved_tenure _ _ _ _ Hco Ht') as (E1 & E2 & E3 & _). split_and!; [done..|]. intros Hh. symmetry. apply E3.
  destruct Hco as [(_ & _ & Hn & _)|(h & -> & _)]; [apply held_true in Hh; done|done].
Qed.

Lemma evolves_epoch t t' : evolves t t' -> t_epoch t <= t_epoch t' /\ (t_epoch t = t_epoch t' -> t = t').
Proof.
  induction 1 as [t|t1 t2 t3 Hs _ [IH1 IH2]]; [done|].
  assert (t_epoch t2 = t_epoch t1 + 1) by (destruct Hs; done). split; [lia|]. intros E. lia.
Qed.

Lemma held_tenure e proj l t : Inv e -> leases e !! proj = Some l -> ls_unresolved l = false -> held l = true -> stores (store e) proj t ->
  ls_epoch l = t_epoch t /\ ls_holder l = t_holder t.
Proof.
  intros HI Hl Hun Hh Ht. destruct (inv_table _ HI _ _ Hl) as (_ & _ & Hco). specialize (Hco Hun).
  destruct (resolved_tenure _ _ _ _ Hco Ht) as (E1 & _ & E3 & _). split; [|done]. symmetry. apply E3.
  destruct Hco as [(_ & _ & Hn & _)|(h & -> & _)]; [apply held_true in Hh; done|done].
Qed.

(** C31: epochs fence holders.  Of two leases of a project the engine held at
    different times, the later one has the larger epoch unless both are the
    same tenure of the same holder; restarts and lost calls in between change
    nothing. *)
Theorem epochs_fence_holders e0 e proj l0 l :
  Inv e0 -> lsteps e0 e ->
  leases e0 !! proj = Some l0 -> ls_unresolved l0 = false -> held l0 = true ->
  leases e !! proj = Some l -> ls_unresolved l = false -> held l = true ->
  ls_epoch l0 <= ls_epoch l /\ (ls_epoch l0 = ls_epoch l -> ls_holder l0 = ls_holder l).
Proof.
  intros HI0 Hst Hl0 Hu0 Hh0 Hl Hun Hh. destruct (lsteps_sound _ _ Hst HI0) as [HI Hev].
  destruct (inv_table _ HI0 _ _ Hl0) as (Hu & _). destruct (inv_keys _ HI0 proj Hu) as [t Ht]. destruct (Hev proj t Hu Ht) as (t' & Ht' & He').
  destruct (held_tenure _ _ _ _ HI0 Hl0 Hu0 Hh0 Ht) as [-> ->]. destruct (held_tenure _ _ _ _ HI Hl Hun Hh Ht') as [-> ->].
  destruct (evolves_epoch _ _ He') as [H1 H2]. split; [done|]. intros E. by rewrite (H2 E).
Qed.

(** ** foreign_since *)
Lemma foreignSince_iff l p : foreignSince l p = true <->
  exists q ep, q <> p /\ ls_hist l !! q = Some ep /\ default 0 (ls_hist l !! p) < ep.
Proof.
  unfold foreignSince. rewrite existsb_exists. split.
  - intros ([q ep] & Hin & H). apply list_elem_of_In, elem_of_map_to_list in Hin. apply andb_true_iff in H as [H1 H2].
    apply negb_true_iff, eqs_false in H1. apply Z.ltb_lt in H2. by exists q, ep.
  - intros (q & ep & H1 & H2 & H3). exists (q, ep). split; [by apply list_elem_of_In, elem_of_map_to_list|].
    apply andb_true_iff. split; [by apply negb_true_iff, eqs_false|by apply Z.ltb_lt].
Qed.

(** A grant's foreign_since is exact.  When the caller ends up the holder,
    the flag says whether Redis records an epoch of another principal after
    the caller's own last epoch. *)
Theorem foreign_since_exact e p proj mode ttl t s fs e' :
  Inv e -> is_u64 proj -> PName p <> "" -> is_i64 ttl -> stores (store e) proj t ->
  grantLocked clock net p proj mode ttl e = (Ok (s, fs), e') -> sn_Holder s = PName p ->
  fs = true <-> exists q ep, q <> PName p /\ t_last t !! q = Some ep /\ default 0 (t_last t !! PName p) < ep.
Proof.
  intros HI Hu Hp Httl Ht Hr Hs. unfold grantLocked in Hr. unfold mbind at 1, SM_bind at 1, now in Hr. set (e0 := mkEngine _ _ _ _ _ _ _) in Hr.
  assert (HI0 : Inv e0) by (by apply (inv_same e)). destruct (leaseLocked_spec proj e0 HI0 Hu) as (l & e1 & El & HI1 & Hst & Htab & _).
  unfold mbind at 1, SM_bind at 1 in Hr. rewrite El in Hr. destruct (ls_unresolved l) eqn:Eun; [done|].
  assert (Hlast : t_last t = ls_hist l) by (apply (settled_tenure e1 proj l t HI1 Htab Eun); unfold stores; by rewrite Hst).
  destruct (held l && negb (ls_holder l =s PName p)) eqn:Eh.
  { injection Hr as <- <- <-. apply andb_true_iff in Eh as [_ Eh]. by apply negb_true_iff, eqs_false in Eh. }
  unfold mbind at 1, SM_bind at 1, sm_get at 1 in Hr. cbv zeta in Hr. rewrite Hlast, <- foreignSince_iff.
  apply sm_bind_Ok in Hr as (? & ? & _ & Hr). apply sm_bind_Ok in Hr as (? & ? & _ & Hr). apply sm_bind_Ok in Hr as (? & ? & _ & Hr).
  by injection Hr as _ <- _.
Qed.

(** ** Restarts *)
Definition record_of (l : lease) :=
  (ls_holder l, ls_kind l, ls_host l, ls_epoch l, ls_mode l, ls_grantedMs l, ls_checkoutUntilMs l, ls_label l, ls_hist l).
Definition activity_of (l : lease) := (ls_lastWriteMs l, ls_pending l).

Lemma FormatInt_inj a b : is_i64 a -> is_i64 b -> FormatInt a = FormatInt b -> a = b.
Proof. intros Ha Hb E. apply ParseInt_FormatInt in Ha, Hb. rewrite E in Ha. congruence. Qed.
Lemma tms_i64 x : tms x -> is_i64 x.
Proof. unfold tms, is_i64. lia. Qed.

Lemma recorded_fun h l l' : recorded h l -> recorded h l' -> is_epoch (ls_epoch l) -> is_epoch (ls_epoch l') -> times_ok l -> times_ok l' ->
  record_of l' = record_of l /\ (ls_dirty l = false -> ls_dirty l' = false -> activity_of l' = activity_of l).
Proof.
  intros (R1 & R2 & R3 & R4 & R5 & R6 & R7 & R8 & R9 & R10 & R11) (S1 & S2 & S3 & S4 & S5 & S6 & S7 & S8 & S9 & S10 & S11) He He' (T1 & T2 & T3 & T4) (U1 & U2 & U3 & U4).
  rewrite R1 in S1. rewrite R2 in S2. rewrite R3 in S3. rewrite R4 in S4. rewrite R5 in S5. rewrite R6 in S6. rewrite R7 in S7. rewrite R8 in S8.
  injection S1 as S1. injection S2 as S2. injection S3 as S3. injection S4 as S4. injection S5 as S5. injection S6 as S6. injection S7 as S7. injection S8 as S8.
  apply FormatUint_inj in S4; [|by apply epoch_u64..]. apply FormatInt_inj in S6; [|by apply tms_i64..].
  apply FormatInt_inj in S7; [|unfold is_i64; lia..].
  assert (ls_hist l' = ls_hist l) as Eh by (apply FormatUint_map_inj; [done..|]; intros q; by rewrite <- R10, S10).
  split; [unfold record_of; by rewrite S1, S2, S3, S4, S5, S6, S7, S8, Eh|].
  intros Hd Hd'. destruct (R9 Hd) as [A1 A2], (S9 Hd') as [B1 B2]. rewrite A1 in B1. rewrite A2 in B2. injection B1 as B1. injection B2 as B2.
  apply FormatInt_inj in B1; [|by apply tms_i64..]. unfold activity_of. f_equal; [done|]. by destruct (ls_pending l), (ls_pending l').
Qed.

(** C34: a restart recovers the leases.  Loading the table from Redis succeeds
    when Redis answers and scans every lease key; it brings back every settled
    lease with its holder, epoch, mode, times and past holders, and lifts the
    quarantine of the others. *)
Theorem restart_recovers_leases e startMs fuel n keys :
  Inv e -> tms startMs -> (forall n, net n = Replied) -> scan_sees_all scan (store e) ->
  scans scan (store e) "0" n keys -> (n <= fuel)%nat -> (forall k, k ∈ keys -> lease_key_of (store e) k) ->
  exists e', loadLeases perm net scan startMs fuel "0" ∅ e = (Ok tt, e') /\ store e' = store e /\
    (forall proj l, leases e !! proj = Some l -> ls_unresolved l = false -> ls_epoch l <> 0 ->
      exists l', leases e' !! proj = Some l' /\ record_of l' = record_of l /\ (ls_dirty l = false -> activity_of l' = activity_of l)) /\
    (forall proj l', leases e' !! proj = Some l' -> ls_unresolved l' = false).
Proof.
  intros HI Hs Hnet Hall Hsc Hn Hk.
  destruct (loadLeases_ok perm Hperm net scan Hnet startMs _ _ _ _ Hsc fuel ∅ e eq_refl (inv_store _ HI) Hn Hk) as [e' Hr]. exists e'.
  destruct (loadLeases_inv perm Hperm net scan startMs fuel e tt e' HI Hs Hall Hr) as (HI' & Es & Hld).
  split_and!; [done|done| |intros proj l' Hl'; by destruct (Hld _ _ Hl') as (_ & _ & ? & _)].
  intros proj l Hl Hun He. destruct (inv_table _ HI _ _ Hl) as (Hu & _ & Hco).
  destruct (Hco Hun) as [(_ & ? & _)|(h & Hh & _ & Hep & Hrec)]; [done|].
  destruct (leases e' !! proj) as [l'|] eqn:El'; [|apply (inv_rest _ HI') in El'; [rewrite Es in El'; congruence|done]].
  exists l'. split; [done|]. destruct (Hld _ _ El') as (Hc' & Ht' & Hun' & Hd' & _). destruct Hc' as (_ & _ & Hco').
  destruct (Hco' Hun') as [(E & _)|(h' & Hh' & _ & Hep' & Hrec')]; [congruence|]. assert (h' = h) as -> by congruence.
  destruct (recorded_fun h l l' Hrec Hrec' Hep Hep' (inv_times _ HI _ _ Hl) Ht') as [H1 H2]. split; [done|]. intros Hd. by apply H2.
Qed.

(** ** The sweeper *)
Lemma expiry_mono l t t' c : t <= t' -> is_Some (expiryReason l t c) -> is_Some (expiryReason l t' c).
Proof.
  intros Ht. unfold expiryReason. destruct (_ || _); [by intros []|]. destruct (_ =s _).
  - destruct (0 <? _); cbn; [|by intros []]. destruct (Z.leb_spec (ls_checkoutUntilMs l) t); [|by intros []].
    destruct (Z.leb_spec (ls_checkoutUntilMs l) t'); [done|lia].
  - destruct (Z.leb_spec (Milliseconds (c_orphan c)) (t' - liveMs l)); [done|].
    destruct (Z.leb_spec (Milliseconds (c_orphan c)) (t - liveMs l)); [lia|].
    destruct (Z.leb_spec (Milliseconds (c_idle c)) (t - ls_lastWriteMs l)), (Z.leb_spec (Milliseconds (c_idle c)) (t' - ls_lastWriteMs l)); cbn; try done; try lia.
Qed.

Context (Hnet : forall n, net n = Replied) (Hmono : forall i j, (i <= j)%nat -> clock i <= clock j).

Lemma endLocked_ok proj e l : Inv e -> leases e !! proj = Some l -> ls_unresolved l = false -> held l = true -> ls_epoch l < 2^63 - 1 ->
  exists a e' l', endLocked clock net proj e = (Ok a, e') /\ leases e' = <[proj := l']> (leases e) /\ held l' = false /\
    ls_unresolved l' = false /\ lcfg e' = lcfg e /\ ticks e' = S (ticks e).
Proof.
  intros HI Hl Hun Hh Hmax. destruct (inv_table _ HI _ _ Hl) as (Hu & Hp & Hco). specialize (Hco Hun). destruct (inv_keys _ HI proj Hu) as [t Ht].
  destruct (held_tenure _ _ _ _ HI Hl Hun Hh Ht) as [Eep Eho]. destruct (resolved_tenure _ _ _ _ Hco Ht) as (_ & _ & _ & Hex).
  assert (Hne : store e !! leaseKey proj <> None).
  { destruct Hco as [(_ & _ & Hn & _)|(h & -> & _)]; [apply held_true in Hh; done|done]. }
  unfold endLocked, mbind at 1, SM_bind at 1, sm_get at 1. rewrite Hl, Hun, Hh. cbn [negb]. unfold mbind at 1, SM_bind at 1, now. cbv zeta.
  set (next := ended _ l). unfold mbind at 1, SM_bind at 1, put at 1, sm_modify at 1. unfold mbind at 1, SM_bind at 1.
  set (e1 := set_leases _ _). unfold transition, call, mbind at 1, SM_bind at 1. rewrite Hnet, Hp.
  destruct (script_ran OpEnd (FormatUint (ls_epoch l)) (ls_holder l) next proj (store e1) t Ht) as (t' & Hs & Hran).
  { unfold script_guard. change (store e1) with (store e). rewrite Hex. cbn. rewrite bool_decide_true by done. rewrite <- Eho, <- Eep. apply held_true in Hh. rewrite bool_decide_true by done.
    by apply Z.ltb_lt. }
  rewrite Hs. cbn [fst snd]. rewrite persistedLeaseEpoch_FormatUint by apply Hran. destruct Hran as ((_ & ->) & He & _). cbn [t_epoch] in *.
  rewrite <- Eep. assert (Hep : is_epoch (ls_epoch l)) by (destruct Hco as [(? & _)|(h & _ & _ & ? & _)]; done).
  unfold is_epoch in Hep. unfold u64. rewrite Z.mod_small by lia. rewrite Z.eqb_refl. unfold mbind at 1, SM_bind at 1, mret at 1, SM_ret at 1.
  eexists _, _, _. split; [reflexivity|]. cbn. by rewrite insert_insert_eq.
Qed.

Lemma expired_held l t c : is_Some (expiryReason l t c) -> held l = true /\ ls_unresolved l = false.
Proof. unfold expiryReason. destruct (held l), (ls_unresolved l); cbn; try done; by intros []. Qed.

Lemma sweepOne_ok c T0 pr e l : Inv e -> T0 <= ms (clock (ticks e)) -> leases e !! pr = Some l -> is_Some (expiryReason l T0 c) -> ls_epoch l < 2^63 - 1 ->
  exists e' l', sweepOne clock net c pr e = (Ok tt, e') /\ Inv e' /\ leases e' = <[pr := l']> (leases e) /\ held l' = false /\ ls_unresolved l' = false /\
    (ticks e <= ticks e')%nat.
Proof using Hnet Hmono.
  intros HI HT Hl Hex Hmax. destruct (expired_held _ _ _ Hex) as [Hh Hun]. unfold sweepOne, mbind, SM_bind, now, sm_get.
  set (e1 := mkEngine _ _ _ _ _ _ _). assert (HI1 : Inv e1) by (by apply (inv_same e)). change (leases e1) with (leases e). rewrite Hl.
  rewrite bool_decide_true by (by eapply expiry_mono).
  destruct (endLocked_ok pr e1 l HI1 Hl Hun Hh Hmax) as (a & e' & l' & E & H1 & H2 & H3 & H4 & H5).
  unfold logged. rewrite E. exists e', l'. split_and!; [done| |done..|cbn in *; lia].
  apply (endLocked_spec clock net) in E as (? & _); [done|done|by destruct (inv_table _ HI _ _ Hl)].
Qed.

Lemma NoDup_fst_filter {A B} (P : A * B -> Prop) `{forall x, Decision (P x)} (l : list (A * B)) : NoDup (fst <$> l) -> NoDup (fst <$> filter P l).
Proof.
  induction l as [|x l IH]; intros Hn; [constructor|]. apply NoDup_cons in Hn as [Hx Hn]. destruct (decide (P x)) as [Hp|Hp].
  - rewrite filter_cons_True by done. apply NoDup_cons. split; [|by apply IH]. intros Hin. apply Hx.
    apply list_elem_of_fmap in Hin as (y & Hy & Hin). apply list_elem_of_filter in Hin as [_ Hin]. apply list_elem_of_fmap. by exists y.
  - rewrite filter_cons_False by done. by apply IH.
Qed.

Lemma sweep_loop c T0 cs : forall e, NoDup cs -> Inv e -> T0 <= ms (clock (ticks e)) ->
  (forall pr, pr ∈ cs -> exists l, leases e !! pr = Some l /\ is_Some (expiryReason l T0 c) /\ ls_epoch l < 2^63 - 1) ->
  exists e', mfor cs (sweepOne clock net c) e = (Ok tt, e') /\ (forall pr, pr ∉ cs -> leases e' !! pr = leases e !! pr) /\
    (forall pr, pr ∈ cs -> exists l', leases e' !! pr = Some l' /\ held l' = false /\ ls_unresolved l' = false).
Proof using Hnet Hmono.
  induction cs as [|pr cs IH]; intros e Hnd HI HT Hc; [exists e; split_and!; [done..|intros pr Hpr; by apply not_elem_of_nil in Hpr]|].
  apply NoDup_cons in Hnd as [Hpr Hnd]. destruct (Hc pr) as (l & Hl & Hex & Hmax); [by left|].
  destruct (sweepOne_ok c T0 pr e l HI HT Hl Hex Hmax) as (e1 & l' & E & HI1 & El & Hh & Hun & Htk).
  destruct (IH e1 Hnd HI1) as (e' & E' & Ho & Hd).
  - etrans; [exact HT|]. unfold ms. apply Z.div_le_mono; [lia|]. by apply Hmono.
  - intros x Hx. rewrite El, lookup_insert_ne by (intros ->; by apply Hpr). apply Hc. by right.
  - exists e'. cbn [mfor]. unfold mbind, SM_bind. rewrite E. split_and!; [done| |].
    + intros x Hx. apply not_elem_of_cons in Hx as [Hx1 Hx2]. rewrite Ho by done. by rewrite El, lookup_insert_ne by done.
    + intros x Hx. apply elem_of_cons in Hx as [->|Hx]; [|by apply Hd]. rewrite Ho by done. rewrite El, lookup_insert_eq. by exists l'.
Qed.

(** The sweeper ends exactly the leases whose lifetime is over, when Redis
    answers and the clock does not run backwards; every other lease is left
    as it is. *)
Theorem sweep_ends_expired e :
  Inv e -> (forall proj l, leases e !! proj = Some l -> ls_epoch l < 2^63 - 1) ->
  exists e', sweep clock net e = (Ok tt, e') /\ forall proj l, leases e !! proj = Some l ->
    match expiryReason l (ms (clock (ticks e))) (lcfg e) with
    | None => leases e' !! proj = Some l
    | Some _ => exists l', leases e' !! proj = Some l' /\ held l' = false /\ ls_unresolved l' = false
    end.
Proof using Hnet Hmono.
  intros HI Hmax. unfold sweep, mbind at 1 2, SM_bind at 1 2, sm_get at 1, now at 1. cbv zeta.
  set (T0 := ms (clock (ticks e))). set (cands := fst <$> filter _ _). set (e1 := mkEngine _ _ _ _ _ _ _).
  assert (Hin : forall pr, pr ∈ sortZ cands <-> exists l, leases e !! pr = Some l /\ is_Some (expiryReason l T0 (lcfg e))).
  { intros pr. unfold sortZ. rewrite (merge_sort_Permutation Z.le cands). unfold cands. rewrite list_elem_of_fmap. split.
    - intros ([k l] & -> & Hk). apply list_elem_of_filter in Hk as [Hk1 Hk2]. apply elem_of_map_to_list in Hk2. eauto.
    - intros (l & Hl & Hx). exists (pr, l). split; [done|]. apply list_elem_of_filter. split; [done|]. by apply elem_of_map_to_list. }
  destruct (sweep_loop (lcfg e) T0 (sortZ cands) e1) as (e' & E & Ho & Hd).
  - unfold sortZ. rewrite (merge_sort_Permutation Z.le cands). unfold cands. apply NoDup_fst_filter, NoDup_fst_map_to_list.
  - by apply (inv_same e).
  - unfold T0, ms. apply Z.div_le_mono; [lia|]. apply Hmono. cbn. lia.
  - intros pr Hpr. apply Hin in Hpr as (l & Hl & Hx). exists l. eauto.
  - exists e'. split; [done|]. intros proj l Hl. destruct (expiryReason l T0 (lcfg e)) eqn:Ex.
    + apply Hd, Hin. exists l. by rewrite Ex.
    + rewrite Ho; [done|]. intros Hpr. apply Hin in Hpr as (l2 & Hl2 & Hx). rewrite Hl in Hl2. injection Hl2 as <-. rewrite Ex in Hx. by destruct Hx.
Qed.
End history.

(** ** Witnesses: project 3, an hour between clock readings *)
Module LeaseExamples.
Definition order (A : Type) (l : list A) : list A := l.
Definition clock (n : nat) : Z := 10^15 + Z.of_nat (n `min` 1000) * (3600 * 10^9).
Definition net (n : nat) : fate := Replied.
Definition scan (r : redis) (c : string) : string * list string := ("0", ["jmlease:v1:p:3"]).
Definition alice : Principal := mkPrincipal "alice" KindMac "mac-a".
Definition bob : Principal := mkPrincipal "bob" KindMac "mac-b".
Definition e0 : engine := mkEngine (newAncestry 0 2 1024) ∅ defaultLeaseCfg 0 ∅ 0 0.
Definition grant (p : Principal) (e : engine) : engine := snd (grantLocked clock net p 3 LeaseAuto 0 e).
Definition free (e : engine) : engine := snd (endLocked clock net 3 e).
Definition e1 : engine := grant alice e0.
Definition e2 : engine := grant bob (free e1).
Definition e3 : engine := free e2.
Definition heldBy (e : engine) : lease := default (newLease 3) (leases e !! 3).

Lemma clock_ok n : tms (ms (clock n)).
Proof.
  unfold tms, ms, clock. split; [apply Z.div_pos; lia|]. apply Z.div_lt_upper_bound; lia.
Qed.
Lemma clock_mono i j : (i <= j)%nat -> clock i <= clock j.
Proof. unfold clock. lia. Qed.

Lemma inv0 : Inv e0.
Proof.
  constructor; try done.
  - intros proj _. exists (mkTenure 0 "" ∅). unfold stores. cbn. rewrite !lookup_empty. constructor.
Qed.

Abbreviation steps := (rtc (lstep order clock net scan)).
Lemma run1 : steps e0 e1.
Proof. apply rtc_once. by apply l_grant. Qed.
Lemma run2 : steps e1 e2.
Proof. eapply rtc_l; [by apply (l_end _ _ _ _ _ 3)|]. apply rtc_once. by apply l_grant. Qed.
Lemma run3 : steps e2 e3.
Proof. apply rtc_once. by apply (l_end _ _ _ _ _ 3). Qed.
Lemma inv_steps e e' : steps e e' -> Inv e -> Inv e'.
Proof. intros Hs HI. by destruct (lsteps_sound order clock net scan (fun A l => Permutation_refl l) clock_ok e e' Hs HI). Qed.
Lemma inv1 : Inv e1.
Proof. exact (inv_steps _ _ run1 inv0). Qed.
Lemma inv3 : Inv e3.
Proof. exact (inv_steps _ _ run3 (inv_steps _ _ run2 inv1)). Qed.

Lemma keys_hold_epoch n c hv t : is_epoch n -> keys_hold c hv t -> c = Some (RString (FormatUint n)) -> t_epoch t = n.
Proof.
  intros Hn Ht ->. inversion Ht as [|n' Hn' E|n' h hd last Hn' He Hh Hq Hm E]; subst; apply FormatUint_inj; try done; by apply epoch_u64.
Qed.

Lemma proj_u64 : is_u64 3.
Proof. done. Qed.
Lemma alice_named : PName alice <> "".
Proof. done. Qed.
Lemma ttl0 : is_i64 0.
Proof. done. Qed.

Lemma stores0 : stores (store e0) 3 (mkTenure 0 "" ∅).
Proof. constructor. Qed.

(** What the history of [e3] left in Redis. *)
Lemma stores3 : stores (store e3) 3 (mkTenure 4 "" {["alice" := 1; "bob" := 3]}).
Proof.
  destruct (inv_keys _ inv3 3 ltac:(done)) as [t Ht]. destruct (settled_tenure e3 3 (heldBy e3) t inv3) as [E1 E2]; [vm_compute; reflexivity|vm_compute; reflexivity|done|].
  enough (t = mkTenure 4 "" {["alice" := 1; "bob" := 3]}) as <- by done.
  destruct t as [n hd last]. cbn in E1, E2. f_equal; [|rewrite E1; vm_compute; reflexivity|rewrite E2; vm_compute; reflexivity].
  assert (Hc : store e3 !! epochKey 3 = Some (RString (FormatUint 4))) by (vm_compute; reflexivity).
  unfold stores in Ht. assert (H4 : is_epoch 4) by (split; [discriminate|reflexivity]). exact (keys_hold_epoch 4 _ _ _ H4 Ht Hc).
Qed.

(** The only lease record of [e1]. *)
Lemma only_one proj : is_u64 proj -> store e1 !! leaseKey proj <> None -> proj = 3.
Proof.
  intros Hu Hk.
  assert (E : store e1 = <[leaseKey 3 := default ROther (store e1 !! leaseKey 3)]> {[epochKey 3 := RString "1"]}) by (vm_compute; reflexivity).
  destruct (decide (proj = 3)) as [->|Hn]; [done|]. exfalso. apply Hk. generalize dependent (default ROther (store e1 !! leaseKey 3)). intros v E.
  rewrite E, lookup_insert_ne, lookup_singleton_ne; [done|apply epoch_lease_ne|]. intros E'. apply Hn. symmetry. by apply leaseKey_inj.
Qed.
End LeaseExamples.

Lemma engine_refines_lease_spec_witness : exists t',
  stores (store LeaseExamples.e1) 3 t' /\ evolves (mkTenure 0 "" ∅) t' /\ t_holder t' = "alice".
Proof.
  destruct (engine_refines_lease_spec LeaseExamples.order LeaseExamples.clock LeaseExamples.net LeaseExamples.scan
    (fun A l => Permutation_refl l) LeaseExamples.clock_ok LeaseExamples.e0 LeaseExamples.e1 3 (mkTenure 0 "" ∅)
    LeaseExamples.inv0 LeaseExamples.run1 LeaseExamples.proj_u64 LeaseExamples.stores0) as (t' & H1 & H2 & H3).
  exists t'. split; [exact H1|]. split; [exact H2|].
  destruct (H3 (LeaseExamples.heldBy LeaseExamples.e1)) as [E _]; [vm_compute; reflexivity|vm_compute; reflexivity|].
  rewrite <- E. vm_compute. reflexivity.
Defined.

Lemma epochs_fence_holders_witness :
  ls_epoch (LeaseExamples.heldBy LeaseExamples.e1) <= ls_epoch (LeaseExamples.heldBy LeaseExamples.e2) /\
  ls_holder (LeaseExamples.heldBy LeaseExamples.e1) = "alice" /\ ls_holder (LeaseExamples.heldBy LeaseExamples.e2) = "bob".
Proof.
  split; [|split; vm_compute; reflexivity].
  refine (proj1 (epochs_fence_holders LeaseExamples.order LeaseExamples.clock LeaseExamples.net LeaseExamples.scan
    (fun A l => Permutation_refl l) LeaseExamples.clock_ok LeaseExamples.e1 LeaseExamples.e2 3 _ _
    LeaseExamples.inv1 LeaseExamples.run2 _ _ _ _ _ _)); vm_compute; reflexivity.
Defined.

Lemma foreign_since_exact_witness : exists s e',
  grantLocked LeaseExamples.clock LeaseExamples.net LeaseExamples.alice 3 LeaseAuto 0 LeaseExamples.e3 = (Ok (s, true), e') /\
  exists q ep, q <> "alice" /\ ({["alice" := 1; "bob" := 3]} : gmap string Z) !! q = Some ep /\
    default 0 (({["alice" := 1; "bob" := 3]} : gmap string Z) !! "alice") < ep.
Proof.
  destruct (grantLocked LeaseExamples.clock LeaseExamples.net LeaseExamples.alice 3 LeaseAuto 0 LeaseExamples.e3) as [[[s fs]|] e'] eqn:E;
    [|exfalso; apply (f_equal fst) in E; vm_compute in E; discriminate E].
  assert (Ef : fs = true) by (apply (f_equal fst) in E; vm_compute in E; by injection E as _ <-).
  assert (Es : sn_Holder s = "alice") by (apply (f_equal fst) in E; vm_compute in E; by injection E as <- _).
  exists s, e'. split; [by rewrite Ef|].
  exact (proj1 (foreign_since_exact LeaseExamples.clock LeaseExamples.net LeaseExamples.e3 LeaseExamples.alice 3 LeaseAuto 0 _ s fs e'
    LeaseExamples.inv3 LeaseExamples.proj_u64 LeaseExamples.alice_named LeaseExamples.ttl0 LeaseExamples.stores3 E Es) Ef).
Defined.

Lemma restart_recovers_leases_witness : exists e', loadLeases LeaseExamples.order LeaseExamples.net LeaseExamples.scan 1 1 "0" ∅ LeaseExamples.e1 = (Ok tt, e') /\
  exists l', leases e' !! 3 = Some l' /\ ls_holder l' = "alice".
Proof.
  destruct (restart_recovers_leases LeaseExamples.order LeaseExamples.net LeaseExamples.scan (fun A l => Permutation_refl l)
    LeaseExamples.e1 1 1 1 ["jmlease:v1:p:3"] LeaseExamples.inv1 ltac:(done) (fun _ => eq_refl)) as (e' & H1 & _ & H3 & _).
  - intros n keys Hs proj Hu Hk. rewrite (LeaseExamples.only_one proj Hu Hk). inversion Hs as [c ks E|c c' ks m rest E Hne Hr]; subst.
    + injection E as <-. by left.
    + injection E as <- _. done.
  - by constructor.
  - done.
  - intros k Hk. apply list_elem_of_singleton in Hk as ->. exists 3. split; [lia|]. split; [reflexivity|]. vm_compute. discriminate.
  - exists e'. split; [exact H1|]. destruct (H3 3 (LeaseExamples.heldBy LeaseExamples.e1)) as (l' & E & Hrec & _);
      [vm_compute; reflexivity|vm_compute; reflexivity|vm_compute; discriminate|].
    exists l'. split; [exact E|]. unfold record_of in Hrec. assert (ls_holder l' = ls_holder (LeaseExamples.heldBy LeaseExamples.e1)) as -> by
      exact (f_equal (fun x => fst (fst (fst (fst (fst (fst (fst (fst x)))))))) Hrec). vm_compute. reflexivity.
Defined.

Lemma sweep_ends_expired_witness : exists e', sweep LeaseExamples.clock LeaseExamples.net LeaseExamples.e1 = (Ok tt, e') /\
  exists l', leases e' !! 3 = Some l' /\ held l' = false.
Proof.
  destruct (sweep_ends_expired LeaseExamples.clock LeaseExamples.net (fun _ => eq_refl) LeaseExamples.clock_mono LeaseExamples.e1 LeaseExamples.inv1) as (e' & E & H).
  - intros proj l Hl. assert (Ht : leases LeaseExamples.e1 = {[3 := LeaseExamples.heldBy LeaseExamples.e1]}) by (vm_compute; reflexivity).
    rewrite Ht in Hl. apply lookup_singleton_Some in Hl as [_ <-]. vm_compute. reflexivity.
  - exists e'. split; [exact E|]. specialize (H 3 (LeaseExamples.heldBy LeaseExamples.e1) ltac:(vm_compute; reflexivity)).
    destruct (expiryReason (LeaseExamples.heldBy LeaseExamples.e1) (ms (LeaseExamples.clock (ticks LeaseExamples.e1))) (lcfg LeaseExamples.e1)) eqn:Ex;
      [|exfalso; vm_compute in Ex; discriminate Ex]. destruct H as (l' & Hl' & Hh & _). exists l'. exact (conj Hl' Hh).
Defined.
