(* ===== verification/LeaseCmd.v ===== *)
(** * JM.LEASE (internal/respproxy/leasecmd.go)

    The commands a client sends to take, keep and give up a lease.  A reply is
    the bytes the code writes; the texts of -ERR replies are left out, only
    their cause is kept.  Volume reads are answered by [side]. *)

From stdpp Require Import sorting.
From S2P Require Import Prelude GoLib Resp Classify Policy Guard GuardCheck TxnUnit Ancestry LeaseStore Leases.

Inductive cmdErr : Type := ESyntax | EBadProj | EStore | EUnresolved | EPanic.

(** ** Reply buffers *)
Definition arr (n : Z) : string := "*" +:+ FormatInt n +:+ CRLF.
Definition simple (s : string) : string := "+" +:+ s +:+ CRLF.
Definition integer (n : Z) : string := ":" +:+ FormatInt n +:+ CRLF.
Definition holderStr (name hst : string) : string := if name =s "" then "" else name +:+ "@" +:+ hst.
Definition flag (b : bool) : Z := if b then 1 else 0.

(** Insertion sort, as written. *)
Fixpoint insertU64 (x : Z) (l : list Z) : list Z :=
  match l with
  | [] => [x]
  | y :: l' => if x <? y then x :: l else y :: insertU64 x l'
  end.
Definition sortU64 (l : list Z) : list Z := foldl (fun acc x => insertU64 x acc) [] l.

(** [strings.FieldsFunc] at slashes. *)
Definition pathParts (s : string) : list string := List.filter (fun p => negb (p =s "")) (Split s "/").

Section cmds.
Context (clock : nat -> Z) (net : nat -> fate) (side : sideDoer).
Abbreviation M := (SM engine cmdErr).

(** Run a resolver or a lease operation; its error becomes [err]. *)
Definition resolving {A} (m : SM ancestry ioerr A) (err : cmdErr) : M A := fun e =>
  let '(r, a) := m (anc e) in (match r with Ok x => Ok x | Err _ => Err err end, set_anc a e).
Definition leasing {A} (m : SM engine string A) (err : cmdErr) : M A := fun e =>
  let '(r, e') := m e in (match r with Ok x => Ok x | Err _ => Err err end, e').

(** The directory at a path of names below [cur]. *)
Fixpoint walkNames (a : ancestry) (cur : Z) (names : list string) : result cmdErr Z :=
  match names with
  | [] => Ok cur
  | name :: rest =>
      match side (db a) ["HGET"; "d" +:+ FormatUint cur; name] with
      | Err _ => Err EBadProj
      | Ok v =>
          if bool_decide (is_Some (ValueErr v)) || VNull v then Err EBadProj
          else match entryInode (VStr v) with
               | None => Err EBadProj
               | Some n => if default 0 (entryType (VStr v)) =? typeDir then walkNames a n rest else Err EBadProj
               end
      end
  end.

(** The result is a uint64 by its type. *)
Definition resolveProj (spec : string) : M Z :=
  if HasPrefix spec "ino:" then
    match digits (TrimPrefix spec "ino:") with
    | None => sm_err EBadProj
    | Some n =>
        if (n =? 0) || isTrashIno n then sm_err EBadProj
        else
          locs ← resolving (resolveInode side n) EBadProj;
          match locs with
          | loc :: _ => if decide (l_kind loc = nsProject) then mret (u64 (l_proj loc)) else sm_err EBadProj
          | [] => sm_err EBadProj
          end
    end
  else if HasPrefix spec "path:" then
    e ← sm_get;
    let parts := pathParts (TrimPrefix spec "path:") in
    if Z.of_nat (length parts) <? depth (anc e) then sm_err EBadProj
    else
      cur ← sm_lift (walkNames (anc e) rootIno (take (Z.to_nat (depth (anc e))) parts));
      loc ← resolving (resolveDir side cur) EBadProj;
      if decide (l_kind loc = nsProject) then mret (u64 (l_proj loc)) else sm_err EBadProj
  else sm_err EBadProj.

(** The reply of a refusal. *)
Definition refusal (r : Reason) : M string :=
  match Reply (deny r) with Some b => mret b | None => sm_err EPanic end.

(** [ttl]: the requested seconds, never above the configured maximum. *)
Definition acquireTTL (c : leaseCfg) (a : list string) : option Z :=
  match a with
  | [_; _; t] =>
      let '(n, ok) := ParseInt t in
      if negb ok || (n <=? 0) then None
      else let d := i64 (n * Second) in Some (if d <? c_checkoutMax c then d else c_checkoutMax c)
  | _ => Some (c_checkoutMax c)
  end.

Definition cmdAcquire (p : Principal) (a : list string) : M string :=
  match a with
  | proj :: mode :: rest =>
      if Nat.ltb 1 (length rest) then sm_err ESyntax
      else if decide (PKind p = KindWebDAV) then refusal ReasonPrincipalReadonly
      else
        let mode := ToLower mode in
        if negb (mode =s LeaseAuto) && negb (mode =s LeaseCheckout) then sm_err ESyntax
        else
          e ← sm_get;
          match acquireTTL (lcfg e) a with
          | None => sm_err ESyntax
          | Some ttl =>
              proj ← resolveProj proj;
              l ← leasing (leaseLocked proj) EStore;
              let wasMine := held l && (ls_holder l =s PName p) in
              r ← leasing (grantLocked clock net p proj mode ttl) EStore;
              e ← sm_get;
              let exp := default 0 (expiresMs (lcfg e) <$> leases e !! proj) in
              let s := fst r in
              let status := if negb (sn_Holder s =s PName p) then "HELD" else if wasMine then "RENEWED" else "GRANTED" in
              mret (arr 5 +:+ simple status +:+ integer (i64 (sn_Epoch s)) +:+ bulk (holderStr (sn_Holder s) (sn_Host s)) +:+
                    integer exp +:+ integer (flag (snd r)))
          end
  | _ => sm_err ESyntax
  end.

Definition heldEntry (s : leaseSnap) : string :=
  arr 4 +:+ integer (i64 (sn_Proj s)) +:+ integer (i64 (sn_Epoch s)) +:+ simple "held" +:+ bulk (sn_Mode s).
Definition lostEntry (e : engine) (pr : Z) : string :=
  arr 4 +:+ integer (i64 pr) +:+ integer (i64 (default 0 (ls_epoch <$> leases e !! pr))) +:+ simple "lost" +:+ bulk "".

Definition cmdHeartbeat (p : Principal) (a : list string) : M string :=
  pending ← mfold (fun (acc : gset Z) spec => proj ← resolveProj spec; mret ({[proj]} ∪ acc)) ∅ a;
  hl ← leasing (heartbeat clock p pending) EStore;
  e ← sm_get;
  mret (arr (Z.of_nat (length (fst hl) + length (snd hl))) +:+
        String.concat "" (heldEntry <$> fst hl) +:+ String.concat "" (lostEntry e <$> snd hl)).

Definition cmdRelease (p : Principal) (a : list string) : M string :=
  match a with
  | [spec; epoch] =>
      match digits epoch with
      | None => sm_err ESyntax
      | Some ep =>
          proj ← resolveProj spec;
          e ← sm_get;
          let l := leases e !! proj in
          if default false (ls_unresolved <$> l) then sm_err EUnresolved
          else
            let cur := default 0 (ls_epoch <$> l) in
            let mine := match l with Some l => held l && (ls_holder l =s PName p) | None => false end in
            if negb mine then mret (arr 2 +:+ simple "NOT_HOLDER" +:+ integer (i64 cur))
            else if negb (cur =? ep) then mret (arr 2 +:+ simple "STALE_EPOCH" +:+ integer (i64 cur))
            else
              r ← leasing (endLocked clock net proj) EStore;
              mret (arr 2 +:+ simple "RELEASED" +:+ integer (i64 (snd r)))
      end
  | _ => sm_err ESyntax
  end.

Definition writeRecord (proj : Z) : M string :=
  e ← sm_get;
  let l := leases e !! proj in
  if default false (ls_unresolved <$> l) then sm_err EUnresolved
  else
    let s := match l with Some l => snap l | None => snap (newLease proj) end in
    let exp := default 0 (expiresMs (lcfg e) <$> l) in
    let lbl := if sn_Label s =s "" then label (anc e) proj else sn_Label s in
    let heldNow := negb (sn_Holder s =s "") in
    mret (arr 30 +:+ bulk "proj" +:+ integer (i64 (sn_Proj s)) +:+ bulk "epoch" +:+ integer (i64 (sn_Epoch s)) +:+
      bulk "state" +:+ bulk (if heldNow then "held" else "free") +:+ bulk "holder" +:+ bulk (sn_Holder s) +:+
      bulk "host" +:+ bulk (sn_Host s) +:+ bulk "kind" +:+ bulk (sn_Kind s) +:+ bulk "mode" +:+ bulk (sn_Mode s) +:+
      bulk "granted_ms" +:+ integer (sn_GrantedMs s) +:+ bulk "last_write_ms" +:+ integer (sn_LastWriteMs s) +:+
      bulk "last_hb_ms" +:+ integer (sn_LastHbMs s) +:+ bulk "checkout_until_ms" +:+ integer (sn_CheckoutUntilMs s) +:+
      bulk "expires_ms" +:+ integer exp +:+ bulk "pending" +:+ integer (flag (sn_Pending s)) +:+ bulk "label" +:+ bulk lbl +:+
      bulk "held" +:+ integer (flag heldNow)).

Definition cmdStatus (a : list string) : M string :=
  let all :=
    e ← sm_get;
    let projs := sortU64 (fst <$> map_to_list (leases e)) in
    recs ← mfold (fun acc pr => r ← writeRecord pr; mret (acc +:+ r)) "" projs;
    mret (arr (Z.of_nat (length projs)) +:+ recs) in
  match a with
  | [] => all
  | [spec] => if spec =s "*" then all else proj ← resolveProj spec; writeRecord proj
  | _ => sm_err ESyntax
  end.

Definition cmdBreak (p : Principal) (a : list string) : M string :=
  if decide (PKind p <> KindAdmin) then refusal ReasonAdminOnly
  else
    match a with
    | [spec] =>
        proj ← resolveProj spec;
        r ← leasing (endLocked clock net proj) EStore;
        e ← sm_get;
        let old := fst r in
        if sn_Holder old =s "" then
          mret (arr 3 +:+ simple "FREE" +:+ integer (i64 (match leases e !! proj with Some l => ls_epoch l | None => snd r end)) +:+
                bulk (holderStr (sn_Holder old) (sn_Host old)))
        else mret (arr 3 +:+ simple "BROKEN" +:+ integer (i64 (snd r)) +:+ bulk (holderStr (sn_Holder old) (sn_Host old)))
    | _ => sm_err ESyntax
    end.

(** [HandleLocal].  JM.LEASE has no letter but S whose fold leaves ASCII, and
    [ToUpper] maps that one too. *)
Definition HandleLocal (p : Principal) (args : list string) : M string :=
  match args with
  | [] => sm_err EPanic
  | name :: sub :: rest =>
      if negb (ToUpper name =s "JM.LEASE") then sm_err ESyntax
      else
        let sub := ToUpper sub in
        if sub =s "ACQUIRE" then cmdAcquire p rest
        else if sub =s "HEARTBEAT" then cmdHeartbeat p rest
        else if sub =s "RELEASE" then cmdRelease p rest
        else if sub =s "STATUS" then cmdStatus rest
        else if sub =s "BREAK" then cmdBreak p rest
        else sm_err ESyntax
  | _ => sm_err ESyntax
  end.
End cmds.
