(* ===== verification/LeaseCmdFacts.v ===== *)
(** * Claims about JM.LEASE *)

From S2P Require Import Prelude GoLib Resp Classify ClassifyFacts Policy Guard GuardCheck TxnUnit Ancestry LeaseStore Leases LeaseFacts LeaseInv LeaseCmd GuardTheorems AncestryTheorems LeaseTheorems.

Section cmds.
Context (clock : nat -> Z) (net : nat -> fate) (side : sideDoer).
Context (Hclock : forall n, tms (ms (clock n))).

(** ** What a lease operation may do to a project *)

(** A held project is left to its holder. *)
Definition kept (e e' : engine) : Prop :=
  forall pr t, is_u64 pr -> stores (store e) pr t -> t_holder t <> "" -> stores (store e') pr t.

Lemma kept_same e e' : store e' = store e -> kept e e'.
Proof. intros E pr t _ Ht _. unfold stores. by rewrite E. Qed.
Lemma kept_trans e1 e2 e3 : kept e1 e2 -> kept e2 e3 -> kept e1 e3.
Proof. intros H1 H2 pr t Hu Ht Hh. apply H2; auto. Qed.

(** A call changes at most the project it is about. *)
Lemma transition_only op old next e res e' t : is_u64 (ls_proj old) -> stores (store e) (ls_proj old) t ->
  transition net op old next e = (res, e') -> only_keys (ls_proj old) (store e) (store e') /\
  (stores (store e') (ls_proj old) t \/ exists t', script_step op (ls_holder next) t t' /\ stores (store e') (ls_proj old) t').
Proof.
  intros Hu Ht Hr. destruct (transition_spec net op old next e res e' t Hr Ht) as [_ [[Es _]|(t' & Hran & _)]].
  - rewrite Es. split; [by intros k _ _|by left].
  - destruct Hran as (R1 & _ & R3 & R4 & _). split; [done|right]. eauto.
Qed.

Lemma grantLocked_kept p proj mode ttl e res e' : Inv e -> is_u64 proj -> grantLocked clock net p proj mode ttl e = (res, e') -> kept e e'.
Proof.
  intros HI Hu Hr. unfold grantLocked in Hr. unfold mbind at 1, SM_bind at 1, now in Hr. set (e0 := mkEngine _ _ _ _ _ _ _) in Hr.
  assert (HI0 : Inv e0) by (by apply (inv_same e)). destruct (leaseLocked_spec proj e0 HI0 Hu) as (l & e1 & El & HI1 & Hst & Htab & _ & _ & Hpl & _).
  unfold mbind at 1, SM_bind at 1 in Hr. rewrite El in Hr. destruct (ls_unresolved l) eqn:Eun; [injection Hr as <- <-; by apply kept_same|].
  destruct (held l && negb (ls_holder l =s PName p)) eqn:Eh; [injection Hr as <- <-; by apply kept_same|].
  unfold mbind at 1, SM_bind at 1, sm_get at 1 in Hr. cbv zeta in Hr. set (next := if held l then _ else _) in Hr.
  unfold mbind at 1, SM_bind at 1, put at 1, sm_modify at 1 in Hr. set (e2 := set_leases _ e1) in Hr.
  unfold mbind at 1, SM_bind at 1 in Hr. destruct (transition net _ l next e2) as [rt e3] eqn:Et.
  destruct (inv_keys _ HI proj Hu) as [t Ht]. assert (Ht2 : stores (store e2) (ls_proj l) t) by (unfold stores; cbn; by rewrite Hst, Hpl).
  apply (transition_only _ _ _ _ _ _ t) in Et as [Hk Hcase]; [|by rewrite Hpl|done].
  assert (He' : store e' = store e3) by (destruct rt; by injection Hr as <- <-).
  intros pr s Hp Hs Hh. unfold stores. rewrite He'. destruct (decide (pr = proj)) as [->|Hn].
  - rewrite (keys_hold_fun _ _ _ _ Hs Ht) in *. rewrite Hpl in Hcase. destruct Hcase as [?|(t' & Hstep & Ht')]; [done|].
    destruct (settled_tenure e1 proj l t HI1 Htab Eun) as [Eho _]; [unfold stores; by rewrite Hst|].
    assert (Hheld : held l = true) by (apply held_true; by rewrite <- Eho). rewrite Hheld in *. cbn in Hstep, Eh. destruct Hstep as [_ ->].
    replace t with (mkTenure (t_epoch t) (ls_holder l) (t_last t)) by (rewrite <- Eho; by destruct t).
    subst next. rewrite Hheld in Ht'. exact Ht'.
  - destruct (only_keys_other proj pr (store e) (store e3)) as [E1 E2]; [done|done| |done|by rewrite E1, E2].
    rewrite Hpl in Hk. intros k H1 H2. rewrite Hk by done. cbn. by rewrite Hst.
Qed.

Lemma endLocked_kept proj e res e' : Inv e -> is_u64 proj -> endLocked clock net proj e = (res, e') ->
  forall pr t, is_u64 pr -> pr <> proj -> stores (store e) pr t -> stores (store e') pr t.
Proof.
  intros HI Hu Hr pr t Hp Hn Ht. unfold endLocked in Hr. unfold mbind at 1, SM_bind at 1, sm_get at 1 in Hr.
  destruct (leases e !! proj) as [l|] eqn:El; [|by injection Hr as <- <-]. destruct (ls_unresolved l); [by injection Hr as <- <-|].
  destruct (held l); cbn [negb] in Hr; [|by injection Hr as <- <-].
  unfold mbind at 1, SM_bind at 1, now in Hr. cbv zeta in Hr. unfold mbind at 1, SM_bind at 1, put at 1, sm_modify at 1 in Hr.
  set (e2 := set_leases _ _) in Hr. unfold mbind at 1, SM_bind at 1 in Hr. destruct (transition net _ l _ e2) as [rt e3] eqn:Et.
  destruct (inv_table _ HI _ _ El) as (_ & Hpl & _). destruct (inv_keys _ HI proj Hu) as [s Hs].
  apply (transition_only _ _ _ _ _ _ s) in Et as [Hk _]; [|by rewrite Hpl|by rewrite Hpl].
  assert (He' : store e' = store e3) by (destruct rt; by injection Hr as <- <-). rewrite Hpl in Hk. unfold stores. rewrite He'.
  by destruct (only_keys_other proj pr (store e) (store e3) Hu Hp Hk Hn) as [-> ->].
Qed.

(** ** Frames *)
Definition learns (e e' : engine) : Prop := exists a, e' = set_anc a e.
Lemma learns_refl e : learns e e.
Proof. exists (anc e). by destruct e. Qed.
Lemma learns_trans e1 e2 e3 : learns e1 e2 -> learns e2 e3 -> learns e1 e3.
Proof. intros [a ->] [b ->]. by exists b. Qed.
Lemma learns_inv e e' : learns e e' -> Inv e -> Inv e' /\ store e' = store e /\ leases e' = leases e.
Proof. intros [a ->] HI. split; [|done]. by apply (inv_same e). Qed.

Lemma resolveProj_spec spec e r e' : resolveProj side spec e = (r, e') -> learns e e' /\ forall proj, r = Ok proj -> is_u64 proj.
Proof.
  assert (Hu : forall z, is_u64 (u64 z)) by (intros z; unfold is_u64, u64; apply Z.mod_pos_bound; lia).
  unfold resolveProj, resolving, mbind, SM_bind, sm_get, sm_lift, mret, SM_ret, sm_err. intros Hr.
  repeat (case_match; simplify_eq/=; try (split; [apply learns_refl|done]); try (split; [by eexists|done]); try (split; [by eexists|intros ? [= <-]; apply Hu])).
Qed.

Lemma pending_spec a : forall acc e r e',
  mfold (fun (acc : gset Z) spec => proj ← resolveProj side spec; mret ({[proj]} ∪ acc)) acc a e = (r, e') -> learns e e'.
Proof.
  induction a as [|spec a IH]; intros acc e r e' Hr; cbn [mfold] in Hr; [injection Hr as _ <-; apply learns_refl|].
  unfold mbind, SM_bind in Hr. destruct (resolveProj side spec e) as [[proj|] e1] eqn:E; apply resolveProj_spec in E as [H1 _].
  - eapply learns_trans; [done|]. eapply IH, Hr.
  - by injection Hr as _ <-.
Qed.

(** ** Commands *)
Definition respects (p : Principal) (e e' : engine) : Prop :=
  forall pr t, is_u64 pr -> stores (store e) pr t -> t_holder t <> "" -> stores (store e') pr t \/ PName p = t_holder t \/ PKind p = KindAdmin.

Lemma respects_kept p e e' : kept e e' -> respects p e e'.
Proof. intros H pr t Hu Ht Hh. left. by apply H. Qed.
Lemma respects_learns p e e1 e' : learns e e1 -> respects p e1 e' -> respects p e e'.
Proof. intros [a ->] H. exact H. Qed.

Lemma refusal_same r e x e' : refusal r e = (x, e') -> e' = e.
Proof. unfold refusal. case_match; by intros [= _ <-]. Qed.

Lemma cmdAcquire_respects p a e r e' : Inv e -> cmdAcquire clock net side p a e = (r, e') -> respects p e e'.
Proof.
  intros HI Hr. apply respects_kept. unfold cmdAcquire in Hr.
  destruct a as [|spec [|mode rest]]; [injection Hr as _ <-; by apply kept_same..|].
  destruct (Nat.ltb 1 _); [injection Hr as _ <-; by apply kept_same|].
  destruct (decide _); [apply refusal_same in Hr as ->; by apply kept_same|]. cbv zeta in Hr.
  destruct (_ && _); [injection Hr as _ <-; by apply kept_same|].
  unfold mbind at 1, SM_bind at 1, sm_get at 1 in Hr. destruct (acquireTTL _ _) as [ttl|]; [|injection Hr as _ <-; by apply kept_same].
  unfold mbind at 1, SM_bind at 1 in Hr. destruct (resolveProj side spec e) as [[proj|] e1] eqn:E1; apply resolveProj_spec in E1 as [Hl Hu];
    destruct (learns_inv _ _ Hl HI) as (HI1 & Es1 & _); [|injection Hr as _ <-; by apply kept_same]. specialize (Hu proj eq_refl).
  unfold mbind at 1, SM_bind at 1, leasing in Hr. destruct (leaseLocked_spec proj e1 HI1 Hu) as (l & e2 & E2 & HI2 & Es2 & _). rewrite E2 in Hr.
  unfold mbind at 1, SM_bind at 1 in Hr. destruct (grantLocked clock net p proj (ToLower mode) ttl e2) as [[x|] e3] eqn:E3;
    (eapply kept_trans; [apply kept_same; transitivity (store e1); [exact Es2|exact Es1]|]); injection Hr as _ <-; by eapply grantLocked_kept.
Qed.

Lemma endLocked_mine p proj e r e' : Inv e -> is_u64 proj -> endLocked clock net proj e = (r, e') ->
  (forall t, stores (store e) proj t -> t_holder t <> "" -> PName p = t_holder t \/ PKind p = KindAdmin) -> respects p e e'.
Proof.
  intros HI Hu Hr Hmine pr t Hp Ht Hh. destruct (decide (pr = proj)) as [->|Hn]; [right; by apply Hmine|]. left. exact (endLocked_kept proj e r e' HI Hu Hr pr t Hp Hn Ht).
Qed.

Lemma cmdRelease_respects p a e r e' : Inv e -> cmdRelease clock net side p a e = (r, e') -> respects p e e'.
Proof.
  intros HI Hr. unfold cmdRelease in Hr. destruct a as [|spec [|epoch [|]]]; try (injection Hr as _ <-; by apply respects_kept, kept_same).
  destruct (digits epoch) as [ep|]; [|injection Hr as _ <-; by apply respects_kept, kept_same].
  unfold mbind at 1, SM_bind at 1 in Hr. destruct (resolveProj side spec e) as [[proj|] e1] eqn:E1; apply resolveProj_spec in E1 as [Hl Hu];
    (eapply respects_learns; [exact Hl|]); destruct (learns_inv _ _ Hl HI) as (HI1 & _); [|injection Hr as _ <-; by apply respects_kept, kept_same].
  specialize (Hu proj eq_refl). unfold mbind at 1, SM_bind at 1, sm_get at 1 in Hr. cbv zeta in Hr.
  destruct (leases e1 !! proj) as [l|] eqn:El; cbn in Hr; [|injection Hr as _ <-; by apply respects_kept, kept_same].
  destruct (ls_unresolved l) eqn:Eun; [injection Hr as _ <-; by apply respects_kept, kept_same|].
  destruct (held l && (ls_holder l =s PName p)) eqn:Em; cbn in Hr; [|injection Hr as _ <-; by apply respects_kept, kept_same].
  destruct (ls_epoch l =? ep); cbn in Hr; [|injection Hr as _ <-; by apply respects_kept, kept_same].
  unfold mbind, SM_bind, leasing in Hr. destruct (endLocked clock net proj e1) as [[x|] e2] eqn:E2; injection Hr as _ <-;
    (eapply endLocked_mine; [exact HI1|exact Hu|exact E2|]); intros t Ht _; left; destruct (settled_tenure e1 proj l t HI1 El Eun Ht) as [-> _];
    apply andb_true_iff in Em as [_ Em]; by apply eqs_true in Em.
Qed.

Lemma cmdBreak_respects p a e r e' : Inv e -> cmdBreak clock net side p a e = (r, e') -> respects p e e'.
Proof.
  intros HI Hr. unfold cmdBreak in Hr. destruct (decide _) as [Hk|Hk]; [apply refusal_same in Hr as ->; by apply respects_kept, kept_same|].
  intros pr t Hp Ht Hh. right. right. destruct (decide (PKind p = KindAdmin)); [done|]. by destruct Hk.
Qed.

Lemma writeRecord_same pr e r e' : writeRecord pr e = (r, e') -> e' = e.
Proof. unfold writeRecord, mbind, SM_bind, sm_get. case_match; by intros [= _ <-]. Qed.

Lemma cmdStatus_respects p a e r e' : Inv e -> cmdStatus side a e = (r, e') -> respects p e e'.
Proof.
  intros HI Hr. apply respects_kept, kept_same.
  assert (Hall : forall ps acc e r e', mfold (fun acc pr => r ← writeRecord pr; mret (acc +:+ r)) acc ps e = (r, e') -> e' = e).
  { clear. induction ps as [|pr ps IH]; intros acc e r e' Hr; cbn [mfold] in Hr; [by injection Hr|]. unfold mbind, SM_bind in Hr.
    destruct (writeRecord pr e) as [[x|] e1] eqn:E; apply writeRecord_same in E as ->; [exact (IH _ _ _ _ Hr)|by injection Hr]. }
  unfold cmdStatus in Hr. cbv zeta in Hr.
  set (all := sm_get ≫= _) in Hr. assert (Ha : forall r e', all e = (r, e') -> e' = e).
  { intros x y. subst all. unfold mbind at 1, SM_bind at 1, sm_get at 1. unfold mbind at 1, SM_bind at 1.
    destruct (mfold _ _ _ e) as [[z|] e1] eqn:E; apply Hall in E as ->; by intros [= _ <-]. }
  destruct a as [|spec [|]]; [by rewrite (Ha _ _ Hr)| |by injection Hr as _ <-]. destruct (_ =s _); [by rewrite (Ha _ _ Hr)|].
  unfold mbind at 1, SM_bind at 1 in Hr. destruct (resolveProj side spec e) as [[proj|] e1] eqn:E1; apply resolveProj_spec in E1 as [[x ->] _].
  - by apply writeRecord_same in Hr as ->.
  - by injection Hr as _ <-.
Qed.

Lemma cmdHeartbeat_respects p a e r e' : Inv e -> cmdHeartbeat clock side p a e = (r, e') -> respects p e e'.
Proof.
  intros HI Hr. unfold cmdHeartbeat in Hr. unfold mbind at 1, SM_bind at 1 in Hr. destruct (mfold _ ∅ a e) as [[pend|] e1] eqn:E1;
    apply pending_spec in E1; (eapply respects_learns; [exact E1|]); apply respects_kept, kept_same; by injection Hr as _ <-.
Qed.

(** JM.LEASE leaves a held lease to its holder.  Whatever command a
    principal sends and whatever becomes of its calls, a lease another
    principal holds is afterwards held as before, in Redis too, unless the
    sender is an admin. *)
Theorem lease_commands_respect_holders p args e r e' pr t :
  Inv e -> HandleLocal clock net side p args e = (r, e') -> is_u64 pr -> stores (store e) pr t -> t_holder t <> "" ->
  stores (store e') pr t \/ PName p = t_holder t \/ PKind p = KindAdmin.
Proof.
  intros HI Hr. enough (respects p e e') as H by apply H. unfold HandleLocal in Hr.
  destruct args as [|name [|sub rest]]; try (injection Hr as _ <-; by apply respects_kept, kept_same).
  destruct (negb _); [injection Hr as _ <-; by apply respects_kept, kept_same|]. cbv zeta in Hr.
  destruct (_ =s "ACQUIRE"); [by eapply cmdAcquire_respects|]. destruct (_ =s "HEARTBEAT"); [by eapply cmdHeartbeat_respects|].
  destruct (_ =s "RELEASE"); [by eapply cmdRelease_respects|]. destruct (_ =s "STATUS"); [by eapply cmdStatus_respects|].
  destruct (_ =s "BREAK"); [by eapply cmdBreak_respects|]. injection Hr as _ <-. by apply respects_kept, kept_same.
Qed.

(** ** Checkouts *)
Lemma ms_add_le t ttl mx : ttl <= mx -> 0 <= mx -> mx mod 10^6 = 0 -> ms (t + ttl) <= ms t + Milliseconds mx.
Proof.
  intros H1 H2 H3. unfold ms, Milliseconds. rewrite Z.quot_div_nonneg by lia. rewrite <- Z.div_add by lia.
  assert (mx / 10^6 * 10^6 = mx) as -> by (pose proof (Z.div_mod mx (10^6)); lia). apply Z.div_le_mono; lia.
Qed.

(** A checkout ends at most checkout_max after its first grant, however
    often it is renewed, when the requested time is within checkout_max. *)
Theorem checkout_is_bounded p proj ttl e s fs e' :
  grantLocked clock net p proj LeaseCheckout ttl e = (Ok (s, fs), e') -> sn_Holder s = PName p ->
  ttl <= c_checkoutMax (lcfg e) -> 0 <= c_checkoutMax (lcfg e) -> c_checkoutMax (lcfg e) mod 10^6 = 0 ->
  sn_Mode s = LeaseCheckout /\ sn_CheckoutUntilMs s <= sn_GrantedMs s + Milliseconds (c_checkoutMax (lcfg e)).
Proof.
  intros Hr Hs Ht Hm Hmod. unfold grantLocked in Hr. apply sm_bind_Ok in Hr as (t & e1 & [= <- <-] & Hr).
  apply sm_bind_Ok in Hr as (l & e2 & El & Hr).
  assert (Hc : lcfg e2 = lcfg e).
  { unfold leaseLocked, mbind, SM_bind, sm_get in El. cbn in El. destruct (leases e !! proj); by injection El as _ <-. }
  destruct (ls_unresolved l); [done|]. destruct (held l && _) eqn:Eh.
  { injection Hr as <- _ _. apply andb_true_iff in Eh as [_ Eh]. by apply negb_true_iff, eqs_false in Eh. }
  apply sm_bind_Ok in Hr as (? & ? & [= <- <-] & Hr). cbv zeta in Hr. apply sm_bind_Ok in Hr as (? & ? & _ & Hr).
  apply sm_bind_Ok in Hr as (ep & ? & _ & Hr). apply sm_bind_Ok in Hr as (? & ? & _ & Hr). injection Hr as <- _ _.
  rewrite Hc. destruct (held l); cbn.
  - split; [done|]. destruct (Z.ltb_spec (ls_grantedMs l + Milliseconds (c_checkoutMax (lcfg e))) (ms (clock (ticks e) + ttl))); lia.
  - split; [done|]. by apply ms_add_le.
Qed.
End cmds.

(** ** Examples *)
Module CmdExamples.
Import LeaseExamples.
(** alice on a Mac; project 3 of the tree of [TreeExamples]. *)
Definition start : engine := mkEngine TreeExamples.a0 ∅ defaultLeaseCfg 0 ∅ 0 0.
Definition today (n : nat) : Z := 1794787200 * Second.
Definition acquire (ttl : string) : engine :=
  snd (HandleLocal today net TreeExamples.side0 alice ["JM.LEASE"; "ACQUIRE"; "ino:3"; "checkout"; ttl] start).
End CmdExamples.

(** The requested time of a checkout wraps around.  Asking for 9223372037
    seconds, which is above every maximum, makes a checkout that no sweep ends
    at any time and under any configuration. *)
Theorem wrapped_checkout_never_ends :
  exists l, leases (CmdExamples.acquire "9223372037") !! 3 = Some l /\ ls_holder l = "alice" /\ ls_mode l = LeaseCheckout /\
    forall now c, expiryReason l now c = None.
Proof.
  destruct (leases (CmdExamples.acquire "9223372037") !! 3) as [l|] eqn:E; [|exfalso; vm_compute in E; discriminate E].
  exists l. vm_compute in E. injection E as <-. split_and!; [done..|]. intros now c. reflexivity.
Qed.

Lemma checkout_is_bounded_witness : exists s fs e',
  grantLocked LeaseExamples.clock LeaseExamples.net LeaseExamples.alice 3 LeaseCheckout (3600 * Second) LeaseExamples.e0 = (Ok (s, fs), e') /\
  sn_CheckoutUntilMs s <= sn_GrantedMs s + Milliseconds (72 * 3600 * Second).
Proof.
  destruct (grantLocked LeaseExamples.clock LeaseExamples.net LeaseExamples.alice 3 LeaseCheckout (3600 * Second) LeaseExamples.e0) as [[[s fs]|] e'] eqn:E;
    [|exfalso; apply (f_equal fst) in E; vm_compute in E; discriminate E].
  assert (Es : sn_Holder s = "alice") by (apply (f_equal fst) in E; vm_compute in E; by injection E as <- _).
  exists s, fs, e'. split; [reflexivity|].
  refine (proj2 (checkout_is_bounded LeaseExamples.clock LeaseExamples.net LeaseExamples.alice 3 (3600 * Second) LeaseExamples.e0 s fs e' E Es _ _ _));
    [discriminate|discriminate|reflexivity].
Defined.

(** bob asks for the project alice holds. *)
Lemma lease_commands_respect_holders_witness : exists r e' t,
  HandleLocal LeaseExamples.clock LeaseExamples.net TreeExamples.side0 LeaseExamples.bob ["JM.LEASE"; "ACQUIRE"; "ino:3"; "auto"] LeaseExamples.e1 = (r, e') /\
  t_holder t = "alice" /\ (stores (store e') 3 t \/ "bob" = t_holder t \/ KindMac = KindAdmin).
Proof.
  destruct (HandleLocal LeaseExamples.clock LeaseExamples.net TreeExamples.side0 LeaseExamples.bob ["JM.LEASE"; "ACQUIRE"; "ino:3"; "auto"] LeaseExamples.e1) as [r e'] eqn:E.
  destruct (inv_keys _ LeaseExamples.inv1 3 LeaseExamples.proj_u64) as [t Ht].
  assert (Hh : t_holder t = "alice").
  { destruct (settled_tenure LeaseExamples.e1 3 (LeaseExamples.heldBy LeaseExamples.e1) t LeaseExamples.inv1) as [H _];
      [vm_compute; reflexivity|vm_compute; reflexivity|exact Ht|]. rewrite H. vm_compute. reflexivity. }
  exists r, e', t. split; [reflexivity|]. split; [exact Hh|].
  refine (lease_commands_respect_holders LeaseExamples.clock LeaseExamples.net TreeExamples.side0 LeaseExamples.bob _ LeaseExamples.e1 r e' 3 t
    LeaseExamples.inv1 E LeaseExamples.proj_u64 Ht _). rewrite Hh. discriminate.
Defined.
