(* ===== verification/Place.v ===== *)
(** * Placing a unit in the stored tree (internal/respproxy/txnunit.go)

    [placeUnit] checks the facts of a unit against the volume and returns the
    location of every place it writes.  It is one pass of loops over [placing],
    which holds the resolver and the maps the loops fill; a refusal is the
    error of the monad.  [refuse] lets a bypassing principal through, except
    when a location is unknown, so what follows an unknown location in the
    source is never reached. *)

From S2P Require Import Prelude GoLib Resp Classify Policy Guard GuardCheck TxnUnit Ancestry.

(** One directory a unit places an inode in. *)
Record placedIn : Type := mkPlaced { pi_dir : Z; pi_typ : Z; pi_isDir : bool; pi_trash : bool }.

Inductive placeMode : Type := placeStrict | placeBypass | placeGrant.
#[export] Instance placeMode_eq_dec : EqDecision placeMode.
Proof. solve_decision. Defined.
Definition isBypass (md : placeMode) : bool := match md with placeBypass => true | _ => false end.
Definition isStrict (md : placeMode) : bool := match md with placeStrict => true | _ => false end.

(** ** Pure parts *)

(** "<directory>-<inode>-<name>". *)
Definition trashEntryOrigin (name : string) : option (Z * Z) :=
  match SplitN name "-" 3 with
  | [d; i; _] => dir ← digits d; ino ← digits i; Some (dir, ino)
  | _ => None
  end.

(** The loop over the commands: [None] once it returned false, else whether a
    chunk list was deleted. *)
Definition cleanupCmd (n : Z) (saw : bool) (c : Cmd) : option bool :=
  if bool_decide (CClass (Info c) = ClassRead) then Some saw
  else if cname c =s "DEL" then
    if Nat.ltb (length (Args c)) 2 then None
    else if forallb (fun raw => (Shape (ParseKey raw) =s ShapeChunk) && (Ino (ParseKey raw) =? n)) (drop 1 (Args c))
    then Some true else None
  else if cname c =s "HINCRBY" then
    match Args c with
    | [_; k; _; delta] =>
        let '(v, ok) := ParseInt delta in
        if negb (k =s "sliceRef") || negb ok || (0 <=? v) then None else Some saw
    | _ => None
    end
  else None.

Definition absentChunkCleanup (u : Unit) (n : Z) : bool :=
  default false (foldl (fun acc c => saw ← acc; cleanupCmd n saw c) (Some false) (Cmds u)).

(** The parents of a hard link are in one project. *)
Definition oneProject (ls : list location) : option Denial :=
  let step acc l :=
    first ← acc;
    if bool_decide (l_kind l <> nsProject) then Ok first
    else if first =? 0 then Ok (l_proj l)
    else if negb (l_proj l =? first) then Err (mkDenial ReasonXProject (l_proj l) "" "" 0)
    else Ok first in
  match foldl step (Ok 0) ls with Ok _ => None | Err d => Some d end.

(** A new inode: one entry, its attribute in the same unit, a number of [p]'s own. *)
Definition newInodeGate (p : Principal) (u : Unit) (n : Z) (newHere : list placedIn) (attrs : gmap Z attrInfo) : option Denial :=
  match attrs !! n, newHere with
  | None, _ => Some (deny ReasonUnknownKey)
  | Some at_, [q] =>
      if negb (a_parent at_ =? pi_dir q) then Some (deny ReasonUnknownKey)
      else if negb (a_typ at_ =? pi_typ q) then Some (deny ReasonUnknownKey)
      else
        match inodeOwner u with
        | None => Some (deny ReasonAdminOnly)
        | Some owner =>
            match owner n with
            | Err _ => Some (deny ReasonBGOnly)
            | Ok (Some o) => if o =s PName p then None else Some (deny ReasonAdminOnly)
            | Ok None =>
                match inodeMark u with
                | None => Some (deny ReasonAdminOnly)
                | Some (Err _) => Some (deny ReasonBGOnly)
                | Some (Ok mark) => if mark <? n then Some (deny ReasonAdminOnly) else None
                end
            end
        end
  | Some _, _ => Some (deny ReasonUnknownKey)
  end.

Definition nonTrash (ps : list placedIn) : list placedIn := List.filter (fun q => negb (pi_trash q)) ps.
Definition hasDir (ds : list Z) (d : Z) : bool := bool_decide (d ∈ ds).
Definition placedAt (ps : list placedIn) (d : Z) : bool := existsb (fun q => pi_dir q =? d) ps.

(** ** The state of one placement *)
Record placing : Type := mkPlacing {
  pg_anc : ancestry;
  pg_locs : list location;
  pg_removed : gmap Z (list Z);
  pg_delIno : gmap nat Z;
  pg_placed : gmap Z (list placedIn);
  pg_order : list Z;
  pg_stored : gmap Z placement;
  pg_unlinked : list Z;
}.
Definition startPlacing (a : ancestry) : placing := mkPlacing a [] ∅ ∅ ∅ [] ∅ [].

Definition removedOf (s : placing) (n : Z) : list Z := default [] (pg_removed s !! n).
Definition placedOf (s : placing) (n : Z) : list placedIn := default [] (pg_placed s !! n).
Definition storedOf (s : placing) (n : Z) : placement := default noPlacement (pg_stored s !! n).
Definition removedFromNonTrash (s : placing) (n : Z) : bool := existsb (fun d => negb (isTrashIno d)) (removedOf s n).

Definition setAnc (a : ancestry) (s : placing) : placing :=
  mkPlacing a (pg_locs s) (pg_removed s) (pg_delIno s) (pg_placed s) (pg_order s) (pg_stored s) (pg_unlinked s).
Definition pushLoc (l : location) (s : placing) : placing :=
  mkPlacing (pg_anc s) (pg_locs s ++ [l]) (pg_removed s) (pg_delIno s) (pg_placed s) (pg_order s) (pg_stored s) (pg_unlinked s).
Definition pushRemoved (n dir : Z) (s : placing) : placing :=
  mkPlacing (pg_anc s) (pg_locs s) (<[n := removedOf s n ++ [dir]]> (pg_removed s)) (pg_delIno s) (pg_placed s) (pg_order s)
    (pg_stored s) (pg_unlinked s ++ [n]).
Definition pushDel (i : nat) (n : Z) (s : placing) : placing :=
  mkPlacing (pg_anc s) (pg_locs s) (pg_removed s) (<[i := n]> (pg_delIno s)) (pg_placed s) (pg_order s) (pg_stored s) (pg_unlinked s).
Definition pushPlaced (n : Z) (q : placedIn) (s : placing) : placing :=
  mkPlacing (pg_anc s) (pg_locs s) (pg_removed s) (pg_delIno s) (<[n := placedOf s n ++ [q]]> (pg_placed s)) (pg_order s)
    (pg_stored s) (pg_unlinked s).
Definition note (n : Z) (s : placing) : placing :=
  if decide (n ∈ pg_order s) then s
  else mkPlacing (pg_anc s) (pg_locs s) (pg_removed s) (pg_delIno s) (pg_placed s) (pg_order s ++ [n]) (pg_stored s) (pg_unlinked s).
Definition pushStored (n : Z) (pl : placement) (s : placing) : placing :=
  mkPlacing (pg_anc s) (pg_locs s) (pg_removed s) (pg_delIno s) (pg_placed s) (pg_order s) (<[n := pl]> (pg_stored s)) (pg_unlinked s).

Section ops.
Context (side : sideDoer) (md : placeMode).
Abbreviation M := (SM placing Denial).

Definition refuse (r : Reason) : M unit :=
  if isBypass md && negb (bool_decide (r = ReasonUnknownKey)) then mret tt else sm_err (deny r).
Definition refuseIf (r : Reason) (b : bool) : M unit := if b then refuse r else mret tt.
Definition orDeny (d : option Denial) : M unit := match d with Some d => sm_err d | None => mret tt end.

(** A read of the resolver that refuses the unit when it fails. *)
Definition known {A} (m : SM ancestry ioerr A) : M A := fun s =>
  let '(r, a) := m (pg_anc s) in
  (match r with Ok x => Ok x | Err _ => Err (deny ReasonUnknownKey) end, setAnc a s).
Definition entry (dir : Z) (name : string) : M (option (Z * Z)) :=
  known (a ← sm_get; sm_lift (entryAt side a dir name)).
Definition addLoc (l : location) : M unit := sm_modify (pushLoc l).

(** The first loop over the dentries. *)
Definition placeDentry (i : nat) (op : dentryOp) : M unit :=
  refuseIf ReasonBGOnly (o_dir op =? TrashInode) ≫= fun _ =>
  refuseIf ReasonBGOnly (negb (o_del op) && negb (o_trash op) && isTrashIno (o_ino op)) ≫= fun _ =>
  (if o_trash op then mret tt else known (resolveDir side (o_dir op)) ≫= addLoc) ≫= fun _ =>
  if o_del op then
    e ← entry (o_dir op) (o_name op);
    match e with
    | Some (ino, _) => sm_modify (fun s => note ino (pushDel i ino (pushRemoved ino (o_dir op) s)))
    | None => mret tt
    end
  else sm_modify (fun s => note (o_ino op) (pushPlaced (o_ino op) (mkPlaced (o_dir op) (o_typ op) (o_isDir op) (o_trash op)) s)).

Definition readStored (n : Z) : M unit := known (placementOf side n) ≫= fun pl => sm_modify (pushStored n pl).

(** A trash entry is only ever added. *)
Definition keepTrashEntry (op : dentryOp) : M unit :=
  if negb (o_trash op) || o_del op then mret tt
  else
    e ← entry (o_dir op) (o_name op);
    refuseIf ReasonBGOnly (match e with Some (cur, _) => negb (cur =? o_ino op) | None => false end).

(** An existing inode set over another entry replaces it. *)
Definition replaceEntry (op : dentryOp) : M unit :=
  s ← sm_get;
  if o_del op || isTrashIno (o_ino op) || negb (p_exists (storedOf s (o_ino op))) then mret tt
  else
    e ← entry (o_dir op) (o_name op);
    match e with
    | Some (cur, _) =>
        if cur =? o_ino op then mret tt
        else
          sm_modify (pushRemoved cur (o_dir op)) ≫= fun _ =>
          if decide (cur ∈ pg_order s) then mret tt
          else sm_modify (note cur) ≫= fun _ => readStored cur
    | None => mret tt
    end.

(** ** One inode of the unit *)
Definition childOf (n : Z) (isDir : bool) (q : placedIn) : M location :=
  l ← known (childLocP side (pi_dir q) n isDir true); addLoc l ≫= fun _ => mret l.

Definition placeNew (p : Principal) (u : Unit) (f : unitFacts) (n : Z) (s : placing) : M unit :=
  let newHere := nonTrash (placedOf s n) in
  if isBypass md && bool_decide (dentries f = []) && bool_decide (setAttr f = ∅) && bool_decide (length (placedOf s n) = O) &&
     (trashKey f =s "") && absentChunkCleanup u n
  then mret tt
  else match newHere with
       | [] => if bool_decide (length (placedOf s n) = O) && (default "" (why f !! n) =s "") then mret tt else refuse ReasonUnknownKey
       | _ =>
           mfor newHere (fun q => childOf n (pi_isDir q) q ≫= fun _ => mret tt) ≫= fun _ =>
           refuseIf ReasonUnknownKey (match setAttr f !! n with
                                      | Some at_ => negb (a_parent at_ =? 0) && negb (placedAt newHere (a_parent at_))
                                      | None => false
                                      end) ≫= fun _ =>
           if isBypass md then mret tt else orDeny (newInodeGate p u n newHere (setAttr f))
       end.

(** A place the inode has now: in the trash, only a restore touches it. *)
Definition placeStored (n : Z) (pl : placement) (s : placing) (i : nat) (l : location) : M unit :=
  if bool_decide (l_kind l = nsTrash) then
    refuseIf ReasonBGOnly (negb (hasDir (removedOf s n) (default 0 (p_parents pl !! i)) &&
                                 negb (bool_decide (length (nonTrash (placedOf s n)) = O))))
  else addLoc l.

Definition crossProject (ls : list location) : M unit := if isStrict md then orDeny (oneProject ls) else mret tt.

(** Placed somewhere new, or not. *)
Definition placeMoved (n : Z) (pl : placement) (s : placing) (sl : list location) : M unit :=
  match nonTrash (placedOf s n) with
  | [] => if p_parent pl =? 0 then crossProject sl else mret tt
  | newHere =>
      let moved := negb (bool_decide (removedOf s n = [])) in
      refuseIf ReasonUnknownKey (negb moved && p_isDir pl) ≫= fun _ =>
      ls ← mmap (childOf n (p_isDir pl)) newHere;
      if negb moved || (p_parent pl =? 0) then crossProject (if moved then sl else sl ++ ls) else mret tt
  end.

(** A change of Attr.Parent is matched by the entries of the unit. *)
Definition parentMatched (f : unitFacts) (n : Z) (pl : placement) (s : placing) : bool :=
  match setAttr f !! n with
  | Some at_ =>
      if a_parent at_ =? p_parent pl then true
      else if a_parent at_ =? 0 then
        negb (p_isDir pl) && (negb (bool_decide (length (nonTrash (placedOf s n)) = O)) || negb (bool_decide (default [] (links f !! n) = [])))
      else placedAt (placedOf s n) (a_parent at_) && ((p_parent pl =? 0) || hasDir (removedOf s n) (p_parent pl))
  | None => true
  end.

Definition placeInode (p : Principal) (u : Unit) (f : unitFacts) (n : Z) : M unit :=
  if isTrashIno n then mret tt
  else
    s ← sm_get;
    let pl := storedOf s n in
    if negb (p_exists pl) then placeNew p u f n s
    else
      sl ← known (locsOf side n pl);
      mfori 0 sl (placeStored n pl s) ≫= fun _ =>
      placeMoved n pl s sl ≫= fun _ =>
      mfor (default [] (links f !! n)) (fun lp =>
        if isTrashIno lp then mret tt else known (childLoc side lp n false) ≫= addLoc) ≫= fun _ =>
      refuseIf ReasonUnknownKey (negb (parentMatched f n pl s)).

(** ** The trash *)

(** A trash entry is named for an entry this unit removes. *)
Definition trashNamed (s : placing) (op : dentryOp) : bool :=
  match trashEntryOrigin (o_name op) with
  | Some (dir, ino) => (ino =? o_ino op) && negb (isTrashIno dir) && hasDir (removedOf s (o_ino op)) dir
  | None => false
  end.
Definition pairTrash (op : dentryOp) : M unit :=
  if negb (o_trash op) || o_del op then mret tt
  else s ← sm_get; refuseIf ReasonBGOnly (negb (removedFromNonTrash s (o_ino op)) || negb (trashNamed s op)).

Definition restores (s : placing) (dir : Z) : bool :=
  existsb (fun nd => hasDir (snd nd) dir && negb (bool_decide (length (nonTrash (placedOf s (fst nd))) = O))) (map_to_list (pg_removed s)).

(** Removing a trash entry is a restore, anchored where it was trashed from. *)
Definition restoreTrash (i : nat) (op : dentryOp) : M unit :=
  if negb (o_trash op) || negb (o_del op) then mret tt
  else
    s ← sm_get;
    if negb (restores s (o_dir op)) then refuse ReasonBGOnly
    else if isBypass md then mret tt
    else
      match pg_delIno s !! i, trashEntryOrigin (o_name op) with
      | Some n, Some (dir, ino) =>
          if negb (ino =? n) then sm_err (deny ReasonBGOnly) else known (resolveDir side dir) ≫= addLoc
      | _, _ => sm_err (deny ReasonBGOnly)
      end.

Definition placeSteps (p : Principal) (u : Unit) (f : unitFacts) : M unit :=
  refuseIf ReasonBGOnly (negb (trashKey f =s "")) ≫= fun _ =>
  mfori 0 (dentries f) placeDentry ≫= fun _ =>
  sm_modify (fun s => foldl (fun s n => note n s) s (inodes f)) ≫= fun _ =>
  (s ← sm_get; mfor (pg_order s) (fun n => if isTrashIno n then mret tt else readStored n)) ≫= fun _ =>
  mfor (dentries f) keepTrashEntry ≫= fun _ =>
  mfor (dentries f) replaceEntry ≫= fun _ =>
  (s ← sm_get; mfor (pg_order s) (placeInode p u f)) ≫= fun _ =>
  mfor (dentries f) pairTrash ≫= fun _ =>
  mfori 0 (dentries f) restoreTrash.

(** The locations and the inodes whose entry the unit removes (f.unlinked). *)
Definition placeUnit (p : Principal) (u : Unit) (f : unitFacts) : SM ancestry Denial (list location * list Z) := fun a =>
  let '(r, s) := placeSteps p u f (startPlacing a) in
  (match r with Ok _ => Ok (pg_locs s, pg_unlinked s) | Err d => Err d end, pg_anc s).
End ops.
