(* ===== verification/PlaceFacts.v ===== *)
(** * The resolver operations placement uses

    The truth is the volume, as [side] answers, and the parent map [T] of its
    directories.  [good a] says the caches of [a] agree with both.  Each
    operation keeps [good], and what it returns is where the volume has the
    inode. *)

From S2P Require Import Prelude GoLib Resp Classify ClassifyFacts Policy Guard GuardCheck TxnUnit Ancestry AncestryFacts Place.

Lemma be_sub_u64 v i : is_u64 (be_fold 0 (sub v i (i + 8))).
Proof. apply be_fold_u64. unfold sub. rewrite length_stake. lia. Qed.
Lemma entryInode_u64 v n : entryInode v = Some n -> is_u64 n.
Proof. unfold entryInode. case_match; [discriminate|]. intros [= <-]. apply (be_sub_u64 v 1). Qed.
Lemma parseAttr_u64 v ai : parseAttr v = Some ai -> is_u64 (a_parent ai).
Proof.
  unfold parseAttr, attrParent. case_match; [discriminate|]. cbn. destruct (byte_at v 1); [|discriminate].
  intros [= <-]. apply (be_sub_u64 v 63).
Qed.

Section facts.
Context (side : sideDoer) (T : gmap Z Z) (a0 : ancestry).

(** A directory of the tree that the volume still has is one, in that place. *)
Definition tree_true : Prop :=
  forall n p ai, is_u64 n -> n <> rootIno -> T !! n = Some p -> getAttr side a0 n = Ok (Some ai) -> ai = mkAttr typeDir p /\ p <> 0.

(** What a cached parent of a file promises. *)
Definition file_at (n p : Z) : Prop :=
  is_u64 p /\ p <> 0 /\ forall r, getAttr side a0 n = Ok r -> exists t, r = Some (mkAttr t p) /\ t <> typeDir.
Definition files_ok (l : fileLRU) : Prop := forall n p, cur l !! n = Some p \/ old l !! n = Some p -> is_u64 n -> file_at n p.

Definition good (a : ancestry) : Prop := VShape a = VShape a0 /\ servable side T a /\ files_ok (files a).

(** The volume has inode [n], a directory or not, with [p] among its parents. *)
Definition stored_in (n : Z) (isDir : bool) (p : Z) : Prop :=
  exists ai, getAttr side a0 n = Ok (Some ai) /\ isDir = (a_typ ai =? typeDir) /\
  if a_parent ai =? 0 then exists ps, linkParents side a0 n = Ok ps /\ p ∈ ps else p = a_parent ai.

(** The location of an entry of directory [p], itself at [lp]. *)
Definition under (p : Z) (lp : location) : location :=
  match l_kind lp with
  | nsRoot => mkLoc nsRoot 0 (l_depth lp + 1) p
  | nsProject | nsDerivatives => mkLoc (l_kind lp) (l_proj lp) (l_depth lp + 1) (l_dir lp)
  | _ => lp
  end.

(** Where inode [n] is, as a child of [p]. *)
Definition place_at (n : Z) (isDir : bool) (p : Z) (l : location) : Prop :=
  if isTrashIno p then l = trashLoc
  else if isDir then located T a0 n l
  else exists lp, located T a0 p lp /\ l = under p lp.

(** ** Frames *)
Lemma db_shape a : VShape a = VShape a0 -> db a = db a0.
Proof. exact (fun H => f_equal (fun x => fst (fst (fst (fst (fst x))))) H). Qed.
Lemma getAttr_shape a n : VShape a = VShape a0 -> getAttr side a n = getAttr side a0 n.
Proof. intros H. unfold getAttr. by rewrite (db_shape a H). Qed.
Lemma linkParents_shape a n : VShape a = VShape a0 -> linkParents side a n = linkParents side a0 n.
Proof. intros H. unfold linkParents. by rewrite (db_shape a H). Qed.
Lemma entryAt_shape a d nm : VShape a = VShape a0 -> entryAt side a d nm = entryAt side a0 d nm.
Proof. intros H. unfold entryAt. by rewrite (db_shape a H). Qed.

Lemma cacheDir_files d p st a : files (cacheDir d p st a) = files a.
Proof. unfold cacheDir. by case_match. Qed.
Lemma parentOfDir_files d : keeps files (parentOfDir side d).
Proof. unfold parentOfDir. keeps_tac. apply cacheDir_files. Qed.
#[local] Hint Resolve parentOfDir_files : frame.
Lemma walkUp_files k : forall c chain, keeps files (walkUp side k c chain).
Proof. induction k as [|k IH]; intros c chain; cbn [walkUp]; keeps_tac. Qed.
#[local] Hint Resolve walkUp_files : frame.
Lemma memoChain_files root dep g below a : files (memoChain root dep g below a) = files a.
Proof.
  unfold memoChain. generalize (imap pair below). intros l. revert a.
  induction l as [|[i x] l IH]; intros a; cbn; [done|]. by rewrite IH.
Qed.
Lemma resolveDir_files d : keeps files (resolveDir side d).
Proof. unfold resolveDir. keeps_tac. apply memoChain_files. Qed.

(** ** Reads of the volume are 64-bit *)
Lemma getAttr_u64 a n ai : getAttr side a n = Ok (Some ai) -> is_u64 (a_parent ai).
Proof.
  unfold getAttr. intros H. sm_inv. case_match; [discriminate|]. case_match; [|discriminate].
  injection H as <-. by eapply parseAttr_u64.
Qed.
Lemma linkParents_u64 a n ps : linkParents side a n = Ok ps -> Forall is_u64 ps.
Proof.
  unfold linkParents. intros H. sm_inv. case_match eqn:E; [discriminate|]. injection H as <-. rewrite <- E. clear.
  apply Forall_forall. intros p (fc & _ & Hf)%list_elem_of_omap. destruct (digits (VStr (fst fc))) as [q|] eqn:Ed; [|discriminate].
  cbn in Hf. case_match; [|discriminate]. injection Hf as <-. by apply digits_Some in Ed as [? _].
Qed.
Lemma entryAt_u64 a d nm ino t : entryAt side a d nm = Ok (Some (ino, t)) -> is_u64 ino.
Proof.
  unfold entryAt. intros H. sm_inv. case_match; [discriminate|]. case_match eqn:E; [|discriminate]. case_match; [|discriminate].
  injection H as <- <-. by eapply entryInode_u64.
Qed.

(** ** The operations *)
Context (Twf : tree_wf T) (Htrue : tree_true).

Lemma located_good a d l : good a -> located T a d l -> located T a0 d l.
Proof. intros (HV & _) H. eapply located_shape; [|exact H]. by apply VShape_same. Qed.

Lemma resolveDir_good d a loc a' : is_u64 d -> good a -> resolveDir side d a = (Ok loc, a') -> good a' /\ located T a0 d loc.
Proof.
  intros Hu Hg Hr. pose proof Hg as (HV & Hs & Hf). pose proof (resolveDir_keeps side T Twf d a Hu Hs) as Hs'. rewrite Hr in Hs'.
  pose proof (resolveDir_files d a) as Hff. rewrite Hr in Hff. destruct Hs as [Hc Hso].
  apply (resolveDir_spec side T Twf) in Hr as (Hl & _ & HV'); [|done..]. split; [|by eapply located_good].
  cbn in *. split_and!; [congruence|done|by rewrite Hff].
Qed.

Lemma childLocP_good d n isDir placed a l a' : is_u64 d -> good a -> childLocP side d n isDir placed a = (Ok l, a') ->
  good a' /\ exists lp, located T a0 d lp /\ (isDir = false \/ placed = true -> l = under d lp).
Proof.
  intros Hu Hg Hr. unfold childLocP in Hr. apply sm_bind_Ok in Hr as (lp & a1 & Hd & Hr).
  apply resolveDir_good in Hd as [Hg1 Hl]; [|done..]. apply sm_bind_Ok in Hr as (? & ? & [= <- <-] & Hr).
  unfold under. destruct (l_kind lp) eqn:Ek; try (injection Hr as <- <-; split; [done|]; exists lp; split; [done|]; by rewrite Ek).
  destruct (isDir && (l_depth lp =? depth a1 - 1) && negb placed) eqn:Eb; injection Hr as <- <-; (split; [done|]; exists lp; split; [done|]).
  - to_prop. subst. by intros [?|?].
  - by rewrite Ek.
Qed.

Lemma putLocked_ok l n p : files_ok l -> (is_u64 n -> file_at n p) -> files_ok (putLocked l n p).
Proof.
  intros Hf Hp x q. unfold putLocked. case_match; cbn.
  - intros [[<- <-]%lookup_singleton_Some|H1]; [done|]. apply Hf. by left.
  - rewrite lookup_insert_Some. intros [[[<- <-]|[_ H1]]|H1]; [done|apply Hf; by left|apply Hf; by right].
Qed.
Lemma lru_get_ok l n : files_ok l -> files_ok (snd (lru_get l n)) /\ forall p, fst (lru_get l n) = Some p -> is_u64 n -> file_at n p.
Proof.
  intros Hf. unfold lru_get. destruct (cur l !! n) as [p|] eqn:Ec; [split; [done|intros q [= <-]; apply Hf; by left]|].
  destruct (old l !! n) as [p|] eqn:Eo; [|done]. cbn. split; [|intros q [= <-]; apply Hf; by right].
  apply putLocked_ok; [done|]. apply Hf. by right.
Qed.

(** What [placementOf] answers for [n]. *)
Inductive placed_as (n : Z) : placement -> Prop :=
  | pa_root : n = rootIno -> placed_as n (mkPlacement true true rootIno [])
  | pa_dir p : n <> rootIno -> T !! n = Some p -> is_u64 p -> placed_as n (mkPlacement true true p [p])
  | pa_file p : file_at n p -> placed_as n (mkPlacement true false p [p])
  | pa_links ai ps : getAttr side a0 n = Ok (Some ai) -> a_parent ai = 0 -> linkParents side a0 n = Ok ps ->
      placed_as n (mkPlacement true (a_typ ai =? typeDir) 0 ps)
  | pa_none : getAttr side a0 n = Ok None -> placed_as n noPlacement.

Lemma files_good a l : good a -> files_ok l -> good (set_files l a).
Proof. intros (HV & [Hc Hs] & _) Hl. split_and!; [done| |done]. split; [|done].
  destruct Hc as (H1 & Hd & Hm). split_and!; [done|done|by apply (memo_ok_keep T a)]. Qed.

Lemma cacheDir_good a n p st : is_u64 n -> n <> rootIno -> good a -> T !! n = Some p -> good (cacheDir n p st a).
Proof.
  intros Hu Hn (HV & [(H1 & Hd & Hm) Hs] & Hf) HT. destruct (cacheDir_shape n p st a) as [HV' Hm'].
  split_and!; [congruence| |by rewrite cacheDir_files]. split; [|by eapply side_ok_shape].
  split_and!; [unfold cacheDir; by case_match| |by eapply memo_ok_keep].
  intros x q Hx. unfold cacheDir. case_match; [|by apply Hd]. cbn. rewrite lookup_insert_Some. intros [[<- <-]|[_ ?]]; [done|by apply Hd].
Qed.

Lemma cacheFile_good a n p st : good a -> (is_u64 n -> file_at n p) -> good (cacheFile n p st a).
Proof.
  intros Hg Hp. unfold cacheFile. case_match; [|done]. apply files_good; [done|]. apply putLocked_ok; [apply Hg|done].
Qed.

Lemma placementOf_good n a pl a' : is_u64 n -> good a -> placementOf side n a = (Ok pl, a') -> good a' /\ placed_as n pl.
Proof.
  intros Hu Hg Hr. unfold placementOf in Hr. destruct (Z.eqb_spec n rootIno) as [->|Hn]; [injection Hr as <- <-; split; [done|by constructor]|].
  apply sm_bind_Ok in Hr as (? & ? & [= <- <-] & Hr). pose proof Hg as (HV & [(H1 & Hd & Hm) Hs] & Hf).
  destruct (dirParent a !! n) as [dp|] eqn:Ed.
  { injection Hr as <- <-. apply Hd in Ed; [|done]. split; [done|]. apply pa_dir; [done..|]. by eapply Twf. }
  destruct (lru_get_ok _ n Hf) as [Hf1 Hhit]. destruct (lru_get (files a) n) as [hit fs]. cbn in Hf1, Hhit.
  apply sm_bind_Ok in Hr as ([] & a1 & [= <-] & Hr). apply (files_good a fs) in Hg as Hg1; [|done].
  destruct hit as [p|]; [injection Hr as <- <-; split; [done|apply pa_file; by apply Hhit]|].
  apply sm_bind_Ok in Hr as (r & a2 & Hat & Hr). unfold sm_lift in Hat. injection Hat as Hat <-. rewrite (getAttr_shape a n HV) in Hat.
  destruct r as [ai|]; [|injection Hr as <- <-; split; [done|by constructor]].
  pose proof (getAttr_u64 _ _ _ Hat) as Hup.
  destruct (Z.eqb_spec (a_parent ai) 0) as [E0|E0].
  { apply sm_bind_Ok in Hr as (ps & a3 & Hps & Hr). unfold sm_lift in Hps. injection Hps as Hps <-. injection Hr as <- <-.
    rewrite (linkParents_shape a n HV) in Hps. split; [done|]. by apply (pa_links n ai ps). }
  destruct (Z.eqb_spec (a_typ ai) typeDir) as [Et|Et].
  - apply sm_bind_Ok in Hr as ([] & a3 & [= <-] & Hr). injection Hr as <- <-.
    assert (HT : T !! n = Some (a_parent ai)) by (apply (Hs n ai); [done..| |done|done]; by rewrite getAttr_shape).
    split; [by apply cacheDir_good|by apply pa_dir].
  - assert (Hfile : file_at n (a_parent ai)).
    { split_and!; [done|done|]. intros r Hr'. rewrite Hat in Hr'. injection Hr' as <-. exists (a_typ ai). by destruct ai. }
    apply sm_bind_Ok in Hr as ([] & a3 & Hc & Hr). injection Hr as <- <-. split; [|by apply pa_file].
    destruct (isTrashIno (a_parent ai)); [by injection Hc as <-|]. injection Hc as <-. by apply cacheFile_good.
Qed.

Lemma placed_stored n pl isDir p : is_u64 n -> n <> rootIno -> placed_as n pl -> stored_in n isDir p ->
  p_exists pl = true /\ p_isDir pl = isDir /\ p ∈ p_parents pl.
Proof.
  intros Hu Hn Hpl (ai & Hat & Hdir & Hp). destruct Hpl as [->|q _ HT Hq|q (Hq & H0 & Hf)|bi ps Hb Hb0 Hps|Hnone]; [done|..].
  - destruct (Htrue _ _ _ Hu Hn HT Hat) as [-> H0]. cbn in *. apply Z.eqb_neq in H0. rewrite H0 in Hp. subst.
    split_and!; [done..|apply list_elem_of_here].
  - destruct (Hf _ Hat) as (t & [= ->] & Ht). cbn in *. apply Z.eqb_neq in H0, Ht. rewrite H0 in Hp. subst. rewrite Ht.
    split_and!; [done..|apply list_elem_of_here].
  - rewrite Hat in Hb. injection Hb as <-. rewrite Hb0 in Hp. cbn in Hp. destruct Hp as (qs & Hqs & Hp).
    rewrite Hps in Hqs. injection Hqs as <-. by split_and!.
  - congruence.
Qed.

Lemma placed_u64 n pl : placed_as n pl -> Forall is_u64 (p_parents pl).
Proof.
  intros [->|q _ HT Hq|q (Hq & H0 & Hf)|bi ps Hb Hb0 Hps|Hnone]; cbn.
  - by apply Forall_nil.
  - by apply Forall_singleton.
  - by apply Forall_singleton.
  - by eapply linkParents_u64.
  - by apply Forall_nil.
Qed.

Lemma mmap_good {A B} (g : A -> SM ancestry ioerr B) (P : A -> B -> Prop) l : forall a ys a',
  (forall x a y a', x ∈ l -> good a -> g x a = (Ok y, a') -> good a' /\ P x y) ->
  good a -> mmap g l a = (Ok ys, a') -> good a' /\ Forall2 P l ys.
Proof.
  induction l as [|x l IH]; intros a ys a' Hg Ha Hr; cbn in Hr; [injection Hr as <- <-; by split|].
  apply sm_bind_Ok in Hr as (y & a1 & Hx & Hr). apply sm_bind_Ok in Hr as (ys' & a2 & Hl & Hr). injection Hr as <- <-.
  apply Hg in Hx as [Ha1 HP]; [|apply list_elem_of_here|done].
  apply IH in Hl as [Ha2 HF]; [|intros z ? ? ? Hz; apply Hg; by apply list_elem_of_further|done]. split; [done|by constructor].
Qed.

Lemma locsOf_good n pl a sl a' : is_u64 n -> Forall is_u64 (p_parents pl) -> good a -> locsOf side n pl a = (Ok sl, a') ->
  good a' /\ Forall2 (place_at n (p_isDir pl)) (p_parents pl) sl.
Proof.
  intros Hu Hps Hg Hr. unfold locsOf in Hr. eapply mmap_good in Hr; [exact Hr| |done].
  intros p a1 l a2 Hp Ha1 H. rewrite Forall_forall in Hps. specialize (Hps _ Hp). unfold place_at.
  destruct (isTrashIno p); [by injection H as <- <-|]. destruct (p_isDir pl).
  - by eapply resolveDir_good.
  - unfold childLoc in H. apply childLocP_good in H as (? & lp & ? & Hl); [|done..]. split; [done|]. exists lp. split; [done|]. apply Hl. by left.
Qed.

(** *** The numbers in a location are 64-bit *)
Definition loc_u64 (l : location) : Prop := is_u64 (l_proj l) /\ is_u64 (l_dir l).

Lemma path_u64 d l : is_u64 d -> path T d l -> Forall is_u64 l.
Proof using Twf.
  intros Hu Hp. revert Hu. induction Hp as [|d q l Hn Hd Ht Hp IH]; intros Hu.
  - apply Forall_singleton. done.
  - apply Forall_cons. split; [done|]. apply IH. by eapply Twf.
Qed.
Lemma located_u64 d l : is_u64 d -> located T a0 d l -> loc_u64 l.
Proof using Twf.
  intros Hu [H1|H1|q H1 H2 H3|H1 H2]; [done|done| |done]. unfold path_loc. case_match; [done|]. unfold projectLoc. split; [|done]. cbn.
  destruct (rev q !! Z.to_nat (depth a0)) as [x|] eqn:E; [|done]. cbn. apply list_elem_of_lookup_2, list_elem_of_In, in_rev, list_elem_of_In in E.
  exact (proj1 (Forall_forall _ _) (path_u64 d q Hu H3) x E).
Qed.
Lemma under_u64 p lp : is_u64 p -> loc_u64 lp -> loc_u64 (under p lp).
Proof. intros Hp [H1 H2]. unfold under. by destruct (l_kind lp) eqn:E; try (split; [done|done]). Qed.
Lemma place_u64 n isDir p l : is_u64 n -> is_u64 p -> place_at n isDir p l -> loc_u64 l.
Proof using Twf.
  intros Hn Hp. unfold place_at. case_match; [by intros ->|]. destruct isDir; [by apply located_u64|].
  intros (lp & Hl & ->). apply under_u64; [done|]. by eapply located_u64.
Qed.
End facts.
