(* ===== verification/PlaceInv.v ===== *)
(** * Invariants of one placement

    The loops of [placeUnit], one by one: what each records of the unit and
    the volume, and that every location found stays in the result. *)

From S2P Require Import Prelude GoLib Resp Classify ClassifyFacts Policy Guard GuardCheck TxnUnit Ancestry AncestryFacts Place PlaceFacts.

(** Inode numbers are 64-bit. *)
Record facts_wf (f : unitFacts) : Prop := {
  fw_dentries : Forall (fun op => is_u64 (o_dir op) /\ is_u64 (o_ino op)) (dentries f);
  fw_inodes : Forall is_u64 (inodes f);
  fw_links : forall n, Forall is_u64 (default [] (links f !! n));
  fw_quota : Forall is_u64 (quota f);
  fw_rows : Forall (fun r => is_u64 (r_dir r)) (statRows f);
}.

Lemma trashEntryOrigin_u64 name dir ino : trashEntryOrigin name = Some (dir, ino) -> is_u64 dir.
Proof.
  unfold trashEntryOrigin. destruct (SplitN name "-" 3) as [|d [|i [|x [|y l]]]]; try discriminate.
  destruct (digits d) as [dn|] eqn:E1; [|discriminate]. cbn. destruct (digits i); [|discriminate]. intros [= <- _].
  by apply digits_Some in E1 as [? _].
Qed.

(** What the loops record of the unit. *)
Definition Vc (s : placing) := (pg_removed s, pg_delIno s, pg_placed s, pg_order s, pg_stored s).

(** ** What a step adds *)
Record grow (s s' : placing) : Prop := {
  gr_locs : pg_locs s ⊆ pg_locs s';
  gr_order : pg_order s ⊆ pg_order s';
  gr_removed n : removedOf s n ⊆ removedOf s' n;
  gr_placed n : placedOf s n ⊆ placedOf s' n;
}.
Lemma grow_refl s : grow s s.
Proof. by split. Qed.
Lemma grow_trans s1 s2 s3 : grow s1 s2 -> grow s2 s3 -> grow s1 s3.
Proof. intros [A1 A2 A3 A4] [B1 B2 B3 B4]. split; [by etrans|by etrans|..]; intros n; [specialize (A3 n)|specialize (A4 n)]; by etrans. Qed.
Lemma grow_same s s' : Vc s' = Vc s -> pg_locs s ⊆ pg_locs s' -> grow s s'.
Proof. unfold Vc. intros [= H1 H2 H3 H4 H5] HL. split; [done|..]; unfold removedOf, placedOf; by rewrite ?H1, ?H3, ?H4. Qed.
Lemma grow_loc l s : grow s (pushLoc l s).
Proof. apply grow_same; [done|]. cbn. set_solver. Qed.
Lemma note_grow n s : grow s (note n s) /\ n ∈ pg_order (note n s).
Proof. unfold note. case_decide; [by split; [apply grow_refl|]|]. split; [split; cbn; set_solver|cbn; set_solver]. Qed.
Lemma pushRemoved_grow n d s : grow s (pushRemoved n d s) /\ d ∈ removedOf (pushRemoved n d s) n.
Proof.
  unfold pushRemoved. split; [split; [done..| |done]|]; unfold removedOf; cbn; [|rewrite lookup_insert_eq; cbn; set_solver].
  intros m. destruct (decide (m = n)) as [->|Hm]; [rewrite lookup_insert_eq; cbn; set_solver|by rewrite lookup_insert_ne].
Qed.
Lemma pushPlaced_grow n q s : grow s (pushPlaced n q s) /\ q ∈ placedOf (pushPlaced n q s) n.
Proof.
  unfold pushPlaced. split; [split; [done..|]|]; unfold placedOf; cbn; [|rewrite lookup_insert_eq; cbn; set_solver].
  intros m. destruct (decide (m = n)) as [->|Hm]; [rewrite lookup_insert_eq; cbn; set_solver|by rewrite lookup_insert_ne].
Qed.

Section inv.
Context (side : sideDoer) (T : gmap Z Z) (a0 : ancestry) (Twf : tree_wf T) (Htrue : tree_true side T a0).
Context (md : placeMode) (p : Principal) (u : Unit) (f : unitFacts) (Hwf : facts_wf f).

Definition G (s : placing) : Prop := good side T a0 (pg_anc s) /\ Forall loc_u64 (pg_locs s).

(** The entry an operation is about names [n] now. *)
Definition names_entry (op : dentryOp) (n : Z) : Prop := exists t, entryAt side a0 (o_dir op) (o_name op) = Ok (Some (n, t)).
(** The operation takes [n] out of its directory. *)
Definition leaves (op : dentryOp) (n : Z) : Prop := names_entry op n /\ (o_del op = true \/ o_ino op <> n).
Definition placedBy (op : dentryOp) : placedIn := mkPlaced (o_dir op) (o_typ op) (o_isDir op) (o_trash op).

Record core (s : placing) : Prop := {
  co_removed n d : d ∈ removedOf s n -> exists op, op ∈ dentries f /\ o_dir op = d /\ leaves op n;
  co_placed n q : q ∈ placedOf s n -> exists op, op ∈ dentries f /\ o_del op = false /\ o_ino op = n /\ q = placedBy op;
  co_del i n : pg_delIno s !! i = Some n -> exists op, dentries f !! i = Some op /\ o_del op = true /\ names_entry op n;
  co_order : Forall is_u64 (pg_order s);
  co_stored n pl : pg_stored s !! n = Some pl -> placed_as side T a0 n pl;
}.
Definition Inv (s : placing) : Prop := G s /\ core s.

Lemma core_same s s' : Vc s' = Vc s -> core s -> core s'.
Proof.
  unfold Vc. intros [= H1 H2 H3 H4 H5] [C1 C2 C3 C4 C5].
  split; unfold removedOf, placedOf in *; rewrite ?H1, ?H2, ?H3, ?H4, ?H5; done.
Qed.

(** ** Steps that record nothing *)
Definition tame {A} (m : SM placing Denial A) : Prop := forall s x s',
  G s -> m s = (Ok x, s') -> G s' /\ Vc s' = Vc s /\ pg_locs s ⊆ pg_locs s'.

Lemma tame_ret {A} (x : A) : tame (mret x).
Proof. intros s y s' Hg [= <- <-]. done. Qed.
Lemma tame_err {A} d : tame (sm_err (A := A) d).
Proof. by intros s y s' Hg [=]. Qed.
Lemma tame_bind {A B} (m : SM placing Denial A) (k : A -> SM placing Denial B) : tame m -> (forall x, tame (k x)) -> tame (m ≫= k).
Proof.
  intros Hm Hk s y s' Hg Hr. apply sm_bind_Ok in Hr as (x & s1 & H1 & H2). apply Hm in H1 as (G1 & V1 & L1); [|done].
  apply Hk in H2 as (G2 & V2 & L2); [|done]. split_and!; [done|congruence|]. by etrans.
Qed.
Lemma tame_get_bind {B} (k : placing -> SM placing Denial B) : (forall s, tame (k s)) -> tame (sm_get ≫= k).
Proof. intros Hk s y s' Hg Hr. by apply (Hk s s y s'). Qed.
Lemma G_loc l s : loc_u64 l -> G s -> G (pushLoc l s).
Proof. intros Hl [Hg Hs]. split; [done|]. cbn. apply Forall_app. split; [done|by apply Forall_singleton]. Qed.
Lemma tame_addLoc l : loc_u64 l -> tame (addLoc l).
Proof. intros Hl s y s' Hg [= _ <-]. split_and!; [by apply G_loc|done|]. apply (grow_loc l s). Qed.
Lemma tame_known {A} (m : SM ancestry ioerr A) :
  (forall a x a', good side T a0 a -> m a = (Ok x, a') -> good side T a0 a') -> tame (known m).
Proof.
  intros Hm s y s' [Hg Hl] Hr. unfold known in Hr. destruct (m (pg_anc s)) as [[x|] a'] eqn:E; [|discriminate Hr].
  injection Hr as <- <-. split_and!; [split; [by eapply Hm|done]|done|done].
Qed.
(** A location found is added. *)
Lemma tame_found {B} (m : SM ancestry ioerr location) (k : location -> SM placing Denial B) :
  (forall a l a', good side T a0 a -> m a = (Ok l, a') -> good side T a0 a' /\ loc_u64 l) ->
  (forall l, loc_u64 l -> tame (k l)) -> tame (known m ≫= k).
Proof.
  intros Hm Hk s y s' Hg Hr. apply sm_bind_Ok in Hr as (l & s1 & H1 & H2). unfold known in H1.
  destruct (m (pg_anc s)) as [[x|] a'] eqn:E; [|discriminate H1]. injection H1 as -> <-.
  destruct Hg as [Hg Hl]. apply Hm in E as [Hg' Hu]; [|done]. by apply (Hk l Hu (setAnc a' s) y s').
Qed.
Lemma tame_refuse r : tame (refuse md r).
Proof. unfold refuse. case_match; [apply tame_ret|apply tame_err]. Qed.
Lemma tame_refuseIf r b : tame (refuseIf md r b).
Proof. unfold refuseIf. destruct b; [apply tame_refuse|apply tame_ret]. Qed.
Lemma tame_orDeny d : tame (orDeny d).
Proof. destruct d; [apply tame_err|apply tame_ret]. Qed.
Lemma tame_mfor {A} (l : list A) body : (forall x, x ∈ l -> tame (body x)) -> tame (mfor l body).
Proof.
  induction l as [|x l IH]; intros H; cbn; [apply tame_ret|]. apply tame_bind; [apply H, list_elem_of_here|].
  intros _. apply IH. intros y Hy. by apply H, list_elem_of_further.
Qed.
Lemma tame_mfori {A} (l : list A) body : forall k, (forall i x, x ∈ l -> tame (body i x)) -> tame (mfori k l body).
Proof.
  induction l as [|x l IH]; intros k H; cbn; [apply tame_ret|]. apply tame_bind; [apply H, list_elem_of_here|].
  intros _. apply IH. intros i y Hy. by apply H, list_elem_of_further.
Qed.
Lemma tame_mmap {A B} (l : list A) (g : A -> SM placing Denial B) : (forall x, x ∈ l -> tame (g x)) -> tame (mmap g l).
Proof.
  induction l as [|x l IH]; intros H; cbn; [apply tame_ret|]. apply tame_bind; [apply H, list_elem_of_here|]. intros y.
  apply tame_bind; [|intros ?; apply tame_ret]. apply IH. intros z Hz. by apply H, list_elem_of_further.
Qed.

Lemma known_run {A} (m : SM ancestry ioerr A) s x s' : known m s = (Ok x, s') ->
  exists a', m (pg_anc s) = (Ok x, a') /\ s' = setAnc a' s.
Proof.
  unfold known. destruct (m (pg_anc s)) as [[y|] a']; [|discriminate]. intros [= -> <-]. eauto.
Qed.
Lemma resolve_found d a l a' : is_u64 d -> good side T a0 a -> resolveDir side d a = (Ok l, a') -> good side T a0 a' /\ loc_u64 l.
Proof using Twf. intros Hu Hg Hr. apply (resolveDir_good side T a0) in Hr as [? ?]; [|done..]. split; [done|]. by eapply located_u64. Qed.
Lemma child_found d n isDir placed a l a' : is_u64 d -> isDir = false \/ placed = true -> good side T a0 a ->
  childLocP side d n isDir placed a = (Ok l, a') -> good side T a0 a' /\ loc_u64 l.
Proof using Twf.
  intros Hu Hp Hg Hr. apply (childLocP_good side T a0) in Hr as (? & lp & ? & Hl); [|done..]. split; [done|]. rewrite Hl by done.
  apply under_u64; [done|]. by eapply located_u64.
Qed.
Lemma known_resolve d s l s' : is_u64 d -> G s -> known (resolveDir side d) s = (Ok l, s') ->
  G s' /\ located T a0 d l /\ exists a', s' = setAnc a' s.
Proof using Twf.
  intros Hu [Hg Hl] (a' & Hr & ->)%known_run. apply (resolveDir_good side T a0) in Hr as [H1 H2]; [|done..].
  split_and!; [by split|done|eauto].
Qed.
Lemma entry_run d nm s r s' : G s -> entry side d nm s = (Ok r, s') -> s' = s /\ entryAt side a0 d nm = Ok r.
Proof.
  intros [(HV & _) _] (a' & Hr & ->)%known_run. apply sm_bind_Ok in Hr as (? & ? & [= <- <-] & Hr). unfold sm_lift in Hr.
  injection Hr as Hr <-. rewrite (entryAt_shape side a0) in Hr by done. split; [by destruct s|done].
Qed.

(** ** Records stay true *)
Lemma G_note n s : G s -> G (note n s).
Proof. unfold note. by case_decide. Qed.
Lemma core_note n s : is_u64 n -> core s -> core (note n s).
Proof.
  intros Hu [C1 C2 C3 C4 C5]. unfold note. case_decide; [by split|]. split; [done..| |done]. cbn. apply Forall_app. split; [done|].
  by apply Forall_singleton.
Qed.
Lemma core_removed op n s : op ∈ dentries f -> leaves op n -> core s -> core (pushRemoved n (o_dir op) s).
Proof.
  intros Hop Hl [C1 C2 C3 C4 C5]. split; [|done..]. intros m d. unfold removedOf at 1. cbn.
  destruct (decide (m = n)) as [->|Hm]; [rewrite lookup_insert_eq|rewrite lookup_insert_ne by done; apply C1]. cbn.
  intros [Hd|Hd%list_elem_of_singleton]%elem_of_app; [by apply C1|]. subst. eauto.
Qed.
Lemma core_placed op s : op ∈ dentries f -> o_del op = false -> core s -> core (pushPlaced (o_ino op) (placedBy op) s).
Proof.
  intros Hop Hl [C1 C2 C3 C4 C5]. split; [done| |done..]. intros m q. unfold placedOf at 1. cbn.
  destruct (decide (m = o_ino op)) as [->|Hm]; [rewrite lookup_insert_eq|rewrite lookup_insert_ne by done; apply C2]. cbn.
  intros [Hd|Hd%list_elem_of_singleton]%elem_of_app; [by apply C2|]. subst. eauto.
Qed.
Lemma core_del i op n s : dentries f !! i = Some op -> o_del op = true -> names_entry op n -> core s -> core (pushDel i n s).
Proof.
  intros Hop Hd Hn [C1 C2 C3 C4 C5]. split; [done|done| |done..]. intros j m. cbn.
  rewrite lookup_insert_Some. intros [[<- <-]|[_ H]]; [eauto|by apply C3].
Qed.
Lemma core_stored_put n pl s : placed_as side T a0 n pl -> core s -> core (pushStored n pl s).
Proof.
  intros Hp [C1 C2 C3 C4 C5]. split; [done..|]. intros m q. cbn. rewrite lookup_insert_Some. intros [[<- <-]|[_ H]]; [done|by apply C5].
Qed.

(** Every step only adds. *)
Definition grows {A} (m : SM placing Denial A) : Prop := forall s x s', m s = (Ok x, s') -> grow s s'.
Lemma grows_ret {A} (x : A) : grows (mret x).
Proof. intros s y s' [= <- <-]. apply grow_refl. Qed.
Lemma grows_err {A} d : grows (sm_err (A := A) d).
Proof. by intros s y s' [=]. Qed.
Lemma grows_bind {A B} (m : SM placing Denial A) (k : A -> SM placing Denial B) : grows m -> (forall x, grows (k x)) -> grows (m ≫= k).
Proof. intros Hm Hk s y s' (x & s1 & H1 & H2)%sm_bind_Ok. eapply grow_trans; [by eapply Hm|by eapply Hk]. Qed.
Lemma grows_get : grows sm_get.
Proof. intros s x s' [= <- <-]. apply grow_refl. Qed.
Lemma grows_modify g : (forall s, grow s (g s)) -> grows (sm_modify g).
Proof. intros H s x s' [= _ <-]. apply H. Qed.
Lemma grows_known {A} (m : SM ancestry ioerr A) : grows (known m).
Proof. intros s x s' (a' & _ & ->)%known_run. by apply grow_same. Qed.
Lemma grows_entry d nm : grows (entry side d nm).
Proof. apply grows_known. Qed.
Lemma grows_addLoc l : grows (addLoc l).
Proof. apply grows_modify, grow_loc. Qed.
Lemma grows_refuseIf r b : grows (refuseIf md r b).
Proof. unfold refuseIf, refuse. repeat case_match; first [apply grows_ret|apply grows_err]. Qed.
Lemma grow_note n s : grow s (note n s).
Proof. apply note_grow. Qed.
Lemma grow_removed n d s : grow s (pushRemoved n d s).
Proof. apply pushRemoved_grow. Qed.
Lemma grow_placed n q s : grow s (pushPlaced n q s).
Proof. apply pushPlaced_grow. Qed.
Lemma grow_del i n s : grow s (pushDel i n s).
Proof. by split. Qed.
Lemma grow_stored n pl s : grow s (pushStored n pl s).
Proof. by split. Qed.

(** ** The dentries *)
Definition did (op : dentryOp) (s : placing) : Prop :=
  (o_trash op = false -> exists l, located T a0 (o_dir op) l /\ l ∈ pg_locs s) /\
  (forall n, o_del op = true -> names_entry op n -> n ∈ pg_order s) /\
  (o_del op = false -> o_ino op ∈ pg_order s /\ placedBy op ∈ placedOf s (o_ino op)) /\
  (isBypass md = false -> o_dir op <> TrashInode /\ (o_del op = false -> o_trash op = false -> isTrashIno (o_ino op) = false)).
Lemma did_grow op s s' : grow s s' -> did op s -> did op s'.
Proof.
  intros [H1 H2 H3 H4] (D1 & D2 & D3 & D4). split_and!; [|by eauto|..|done].
  - intros Ht. destruct (D1 Ht) as (l & ? & ?). eauto.
  - intros Hd. destruct (D3 Hd) as [? ?]. split; [by apply H2|by apply H4].
Qed.
Lemma refuseIf_run r b s x s' : refuseIf md r b s = (Ok x, s') -> s' = s /\ (isBypass md = false -> b = false).
Proof. unfold refuseIf, refuse. destruct b; [|by intros [= _ <-]]. destruct (isBypass md); cbn; [|discriminate]. case_match; [by intros [= _ <-]|discriminate]. Qed.

Lemma grows_placeDentry i op : grows (placeDentry side md i op).
Proof.
  unfold placeDentry. apply grows_bind; [apply grows_refuseIf|intros _]. apply grows_bind; [apply grows_refuseIf|intros _].
  apply grows_bind; [case_match; [apply grows_ret|apply grows_bind; [apply grows_known|apply grows_addLoc]]|intros _].
  destruct (o_del op).
  - apply grows_bind; [apply grows_entry|]. intros [[n t]|]; [|apply grows_ret]. apply grows_modify. intros s.
    eapply grow_trans; [apply grow_removed|]. eapply grow_trans; [apply grow_del|apply grow_note].
  - apply grows_modify. intros s. eapply grow_trans; [apply grow_placed|apply grow_note].
Qed.

(** The location of the directory of an operation outside the trash. *)
Lemma anchor_run op s s' : is_u64 (o_dir op) -> Inv s ->
  (if o_trash op then mret tt else known (resolveDir side (o_dir op)) ≫= addLoc) s = (Ok tt, s') ->
  Inv s' /\ (o_trash op = false -> exists l, located T a0 (o_dir op) l /\ l ∈ pg_locs s').
Proof using Twf.
  intros Hu [Hg Hc] Hr. destruct (o_trash op); [by injection Hr as <-|]. apply sm_bind_Ok in Hr as (l & s1 & H1 & H2).
  apply known_resolve in H1 as (Hg1 & Hl & a' & ->); [|done..]. injection H2 as <-. split; [split; [apply G_loc; [by eapply located_u64|done]|by apply (core_same s)]|].
  intros _. exists l. split; [done|]. apply elem_of_app. right. by apply list_elem_of_singleton.
Qed.

Lemma placeDentry_spec i op s s' : Inv s -> dentries f !! i = Some op -> placeDentry side md i op s = (Ok tt, s') -> Inv s' /\ did op s'.
Proof using Hwf Twf.
  intros Hi Hop Hr. assert (Hin : op ∈ dentries f) by by eapply list_elem_of_lookup_2.
  destruct (proj1 (Forall_forall _ _) (fw_dentries _ Hwf) op Hin) as [Hu Hui].
  unfold placeDentry in Hr. apply sm_bind_Ok in Hr as (? & ? & [-> E1]%refuseIf_run & Hr).
  apply sm_bind_Ok in Hr as (? & ? & [-> E2]%refuseIf_run & Hr). apply sm_bind_Ok in Hr as ([] & s1 & Ha & Hr).
  apply anchor_run in Ha as [[Hg Hc] Hl]; [|done..].
  assert (Hb : isBypass md = false -> o_dir op <> TrashInode /\ (o_del op = false -> o_trash op = false -> isTrashIno (o_ino op) = false)).
  { intros Hb. split; [by apply Z.eqb_neq, E1|]. intros Hd Ht. specialize (E2 Hb). rewrite Hd, Ht in E2. done. }
  assert (Hl' : grow s1 s' -> o_trash op = false -> exists l, located T a0 (o_dir op) l /\ l ∈ pg_locs s').
  { intros Hgr Ht. destruct (Hl Ht) as (l & H1 & H2). exists l. split; [done|]. by apply (gr_locs _ _ Hgr). }
  destruct (o_del op) eqn:Ed.
  - apply sm_bind_Ok in Hr as (e & s2 & [-> He]%entry_run & Hr); [|done]. destruct e as [[n t]|]; injection Hr as <-.
    + assert (Hn : names_entry op n) by by exists t. split; [split; [apply G_note, Hg|]|].
      * apply core_note; [by eapply entryAt_u64|]. eapply core_del; [done..|]. apply core_removed; [done|split; [done|by left]|done].
      * refine (conj (Hl' _) (conj _ (conj _ _))); [|intros m _ [t' Ht']|by rewrite Ed|by rewrite Ed].
        -- eapply grow_trans; [apply grow_removed|]. eapply grow_trans; [apply grow_del|apply grow_note].
        -- rewrite He in Ht'. injection Ht' as <- <-. apply note_grow.
    + split; [done|]. refine (conj Hl (conj _ (conj _ _))); [|by rewrite Ed|by rewrite Ed]. intros m _ [t' Ht']. congruence.
  - injection Hr as <-. split; [split; [apply G_note, Hg|]|].
    + apply core_note; [done|]. by apply core_placed.
    + refine (conj (Hl' _) (conj _ (conj _ _))); [|by rewrite Ed|intros _|by rewrite Ed].
      * eapply grow_trans; [apply grow_placed|apply grow_note].
      * split; [apply note_grow|]. eapply gr_placed; [apply grow_note|]. apply pushPlaced_grow.
Qed.

(** ** Stored placements *)
Definition full (s : placing) : Prop := forall n, n ∈ pg_order s -> isTrashIno n = false -> is_Some (pg_stored s !! n).

Lemma readStored_spec n s s' : is_u64 n -> Inv s -> readStored side n s = (Ok tt, s') ->
  Inv s' /\ grow s s' /\ pg_order s' = pg_order s /\ exists pl, pg_stored s' = <[n := pl]> (pg_stored s).
Proof using Twf.
  intros Hu [Hg Hc] Hr. apply sm_bind_Ok in Hr as (pl & s1 & (a' & Hp & ->)%known_run & Hr). injection Hr as <-.
  apply (placementOf_good side T a0) in Hp as [Hg' Hpl]; [|done|done|apply Hg].
  split_and!; [split; [split; [exact Hg'|apply Hg]|]|by split|done|by exists pl]. apply core_stored_put; [done|]. by apply (core_same s).
Qed.

Lemma readAll_spec l : forall s s', Forall is_u64 l -> Inv s ->
  mfor l (fun n => if isTrashIno n then mret tt else readStored side n) s = (Ok tt, s') ->
  Inv s' /\ grow s s' /\ pg_order s' = pg_order s /\ (forall n, is_Some (pg_stored s !! n) -> is_Some (pg_stored s' !! n)) /\
  forall n, n ∈ l -> isTrashIno n = false -> is_Some (pg_stored s' !! n).
Proof using Twf.
  induction l as [|n l IH]; intros s s' Hu Hi Hr.
  { injection Hr as <-. split_and!; [done|apply grow_refl|done..|]. intros n Hn. by apply elem_of_nil in Hn. }
  apply Forall_cons in Hu as [Hn Hl]. cbn [mfor] in Hr. apply sm_bind_Ok in Hr as ([] & s1 & H1 & H2).
  assert (G1 : Inv s1 /\ grow s s1 /\ pg_order s1 = pg_order s /\ (forall n, is_Some (pg_stored s !! n) -> is_Some (pg_stored s1 !! n)) /\
               (isTrashIno n = false -> is_Some (pg_stored s1 !! n))).
  { destruct (isTrashIno n); [injection H1 as <-; split_and!; [done|apply grow_refl|done..]|].
    apply readStored_spec in H1 as (Hi1 & Hg1 & Ho1 & pl & Hs1); [|done..]. split_and!; [done..| |]; rewrite Hs1.
    - intros m Hm. destruct (decide (m = n)) as [->|]; [by rewrite lookup_insert_eq|by rewrite lookup_insert_ne].
    - intros _. by rewrite lookup_insert_eq. }
  destruct G1 as (Hi1 & Hg1 & Ho1 & Hs1 & Hn1). apply IH in H2 as (Hi2 & Hg2 & Ho2 & Hs2 & Hn2); [|done..].
  split_and!; [done|by eapply grow_trans|congruence|by eauto|]. intros m [->|Hm]%elem_of_cons; eauto.
Qed.

Lemma placed_exists n pl ai : placed_as side T a0 n pl -> getAttr side a0 n = Ok (Some ai) -> p_exists pl = true.
Proof. intros [?|? ? ?|? ?|? ? ? ? ?|Hn] Hs; try done. congruence. Qed.

Lemma storedOf_placed n s : Inv s -> full s -> n ∈ pg_order s -> isTrashIno n = false -> placed_as side T a0 n (storedOf s n).
Proof.
  intros [_ Hc] Hf Hn Ht. destruct (Hf n Hn Ht) as [pl Hpl]. unfold storedOf. rewrite Hpl. by eapply co_stored.
Qed.

(** ** Entries that are kept and replaced *)
Lemma keepTrashEntry_run op s s' : G s -> keepTrashEntry side md op s = (Ok tt, s') ->
  s' = s /\ (isBypass md = false -> o_trash op = true -> o_del op = false -> forall n, names_entry op n -> n = o_ino op).
Proof.
  intros Hg Hr. unfold keepTrashEntry in Hr. destruct (negb (o_trash op) || o_del op) eqn:E.
  { injection Hr as <-. split; [done|]. intros _ Ht Hd. by rewrite Ht, Hd in E. }
  apply sm_bind_Ok in Hr as (e & s1 & [-> He]%entry_run & Hr); [|done]. apply refuseIf_run in Hr as [-> Hb]. split; [done|].
  intros Hby _ _ n [t Ht]. rewrite He in Ht. injection Ht as ->. by apply Z.eqb_eq, negb_false_iff, Hb.
Qed.

Definition replaced (op : dentryOp) (n : Z) : Prop :=
  o_del op = false /\ isTrashIno (o_ino op) = false /\ names_entry op n /\ n <> o_ino op /\
  exists ai, getAttr side a0 (o_ino op) = Ok (Some ai).

Lemma replaceEntry_spec op s s' : op ∈ dentries f -> Inv s -> full s -> o_ino op ∈ pg_order s -> replaceEntry side op s = (Ok tt, s') ->
  Inv s' /\ full s' /\ forall n, replaced op n -> n ∈ pg_order s'.
Proof using Twf.
  intros Hop Hi Hf Ho Hr. unfold replaceEntry in Hr. apply sm_bind_Ok in Hr as (? & ? & [= <- <-] & Hr).
  destruct (o_del op || isTrashIno (o_ino op) || negb (p_exists (storedOf s (o_ino op)))) eqn:E.
  { injection Hr as <-. split_and!; [done..|]. intros n (Hd & Ht & _ & _ & ai & Hai). rewrite Hd, Ht in E. cbn in E.
    apply negb_true_iff in E. erewrite placed_exists in E; [done| |done]. by apply storedOf_placed. }
  apply orb_false_iff in E as [[Hd Ht]%orb_false_iff _]. apply sm_bind_Ok in Hr as (e & s1 & [-> He]%entry_run & Hr); [|apply Hi].
  destruct e as [[n t]|].
  2:{ injection Hr as <-. split_and!; [done..|]. intros n (_ & _ & (t & Hn) & _). congruence. }
  destruct (Z.eqb_spec n (o_ino op)) as [Hn|Hn].
  { injection Hr as <-. split_and!; [done..|]. intros m (_ & _ & (t' & Hm) & Hne & _). congruence. }
  apply sm_bind_Ok in Hr as ([] & s1 & [= <-] & Hr). assert (Hu : is_u64 n) by by eapply entryAt_u64. destruct Hi as [Hg Hc].
  assert (Hc1 : core (pushRemoved n (o_dir op) s)) by (apply core_removed; [done|split; [by exists t|by right]|done]).
  assert (Hm : forall m, replaced op m -> m = n) by (intros m (_ & _ & (t' & Hm) & _); congruence).
  case_decide as Hin.
  - injection Hr as <-. split_and!; [by split|done|]. intros m ->%Hm. done.
  - apply sm_bind_Ok in Hr as ([] & s1 & [= <-] & Hr).
    apply readStored_spec in Hr as (Hi2 & _ & Ho2 & pl & Hs2); [|done|split; [by apply G_note|by apply core_note]].
    split_and!; [done| |intros m ->%Hm; rewrite Ho2; apply note_grow].
    intros m. rewrite Ho2, Hs2. intros Hmo Hmt. destruct (decide (m = n)) as [->|Hmn]; [by rewrite lookup_insert_eq|].
    rewrite lookup_insert_ne by done. unfold note in *. cbn in *. case_decide; [done|]. cbn in *. apply Hf; [|done].
    apply elem_of_app in Hmo as [?|?%list_elem_of_singleton]; done.
Qed.

Lemma grows_readStored n : grows (readStored side n).
Proof. apply grows_bind; [apply grows_known|]. intros pl. apply grows_modify, grow_stored. Qed.
Lemma grows_replaceEntry op : grows (replaceEntry side op).
Proof.
  apply grows_bind; [apply grows_get|intros s]. case_match; [apply grows_ret|]. apply grows_bind; [apply grows_entry|].
  intros [[n t]|]; [|apply grows_ret]. case_match; [apply grows_ret|].
  apply grows_bind; [apply grows_modify, grow_removed|intros _]. case_decide; [apply grows_ret|].
  apply grows_bind; [apply grows_modify, grow_note|intros _]. apply grows_readStored.
Qed.

(** ** One inode *)
Definition homed (n : Z) (s : placing) : Prop :=
  let pl := storedOf s n in
  let newHere := nonTrash (placedOf s n) in
  if p_exists pl then
    exists sl, Forall2 (place_at T a0 n (p_isDir pl)) (p_parents pl) sl /\
    forall i l par, sl !! i = Some l -> p_parents pl !! i = Some par ->
      (l_kind l <> nsTrash -> l ∈ pg_locs s) /\
      (l_kind l = nsTrash -> isBypass md = false -> par ∈ removedOf s n /\ newHere <> [])
  else isBypass md = false -> newHere <> [] -> newInodeGate p u n newHere (setAttr f) = None.

Lemma homed_same n s s' : Vc s' = Vc s -> pg_locs s ⊆ pg_locs s' -> homed n s -> homed n s'.
Proof.
  unfold Vc, homed, storedOf, placedOf, removedOf. intros [= H1 H2 H3 H4 H5] HL. rewrite H1, H3, H5. case_match; [|done].
  intros (sl & Hsl & Hs). exists sl. split; [done|]. intros i l par Hl Hp. destruct (Hs i l par Hl Hp) as [S1 S2]. split; [|done].
  intros Hk. by apply HL, S1.
Qed.

Lemma length_O {A} (l : list A) : bool_decide (length l = O) = false -> l <> [].
Proof. intros H%bool_decide_eq_false ->. done. Qed.

Lemma tame_childOf n isDir q : is_u64 (pi_dir q) -> tame (childOf side n isDir q).
Proof using Twf.
  intros Hu. apply tame_found; [intros b l b'; apply child_found; [done|by right]|].
  intros l Hl. apply tame_bind; [by apply tame_addLoc|intros _; apply tame_ret].
Qed.

Lemma newHere_u64 n q s : core s -> q ∈ nonTrash (placedOf s n) -> is_u64 (pi_dir q).
Proof using Hwf.
  intros Hc Hq. unfold nonTrash in Hq. apply list_elem_of_In, filter_In in Hq as [Hq%list_elem_of_In _].
  destruct (co_placed _ Hc _ _ Hq) as (op & Hop & _ & _ & ->). by destruct (proj1 (Forall_forall _ _) (fw_dentries _ Hwf) op Hop).
Qed.

Lemma tame_placeNew n s : core s -> tame (placeNew side md p u f n s).
Proof using Hwf Twf.
  intros Hc. unfold placeNew. case_match; [apply tame_ret|]. destruct (nonTrash (placedOf s n)) as [|q l] eqn:E.
  { case_match; [apply tame_ret|apply tame_refuse]. }
  rewrite <- E. apply tame_bind; [|intros _; apply tame_bind; [apply tame_refuseIf|intros _; case_match; [apply tame_ret|apply tame_orDeny]]].
  apply tame_mfor. intros x Hx. apply tame_bind; [|intros _; apply tame_ret]. apply tame_childOf. by eapply newHere_u64.
Qed.

Lemma placeNew_gate n s s1 s2 : isBypass md = false -> nonTrash (placedOf s n) <> [] -> placeNew side md p u f n s s1 = (Ok tt, s2) ->
  newInodeGate p u n (nonTrash (placedOf s n)) (setAttr f) = None.
Proof.
  intros Hb Hn Hr. unfold placeNew in Hr. rewrite Hb in Hr. cbn [andb] in Hr. destruct (nonTrash (placedOf s n)) as [|q l] eqn:E; [done|].
  rewrite <- E in *. apply sm_bind_Ok in Hr as ([] & s3 & _ & Hr). apply sm_bind_Ok in Hr as ([] & s4 & _ & Hr).
  unfold orDeny in Hr. by destruct (newInodeGate p u n (nonTrash (placedOf s n)) (setAttr f)).
Qed.

Lemma tame_placeStored n pl s i l : loc_u64 l -> tame (placeStored md n pl s i l).
Proof. intros Hl. unfold placeStored. case_match; [apply tame_refuseIf|by apply tame_addLoc]. Qed.
Lemma grows_placeStored n pl s i l : grows (placeStored md n pl s i l).
Proof. unfold placeStored. case_match; [apply grows_refuseIf|apply grows_addLoc]. Qed.
Lemma placeStored_run n pl s i l s1 s2 : placeStored md n pl s i l s1 = (Ok tt, s2) ->
  (l_kind l <> nsTrash -> l ∈ pg_locs s2) /\
  (l_kind l = nsTrash -> isBypass md = false -> default 0 (p_parents pl !! i) ∈ removedOf s n /\ nonTrash (placedOf s n) <> []).
Proof.
  unfold placeStored. case_bool_decide as Hk; intros Hr.
  - split; [done|]. intros _ Hb. apply refuseIf_run in Hr as [_ Hr]. specialize (Hr Hb). apply negb_false_iff, andb_prop in Hr as [H1 H2].
    split; [by apply bool_decide_eq_true in H1|]. apply negb_true_iff in H2. by apply length_O.
  - split; [|done]. intros _. injection Hr as <-. apply elem_of_app. right. by apply list_elem_of_singleton.
Qed.

Lemma tame_crossProject ls : tame (crossProject md ls).
Proof. unfold crossProject. case_match; [apply tame_orDeny|apply tame_ret]. Qed.
Lemma tame_placeMoved n pl s sl : core s -> tame (placeMoved side md n pl s sl).
Proof using Hwf Twf.
  intros Hc. unfold placeMoved. destruct (nonTrash (placedOf s n)) as [|q l] eqn:E.
  { case_match; [apply tame_crossProject|apply tame_ret]. }
  rewrite <- E. apply tame_bind; [apply tame_refuseIf|intros _].
  apply tame_bind; [|intros ls; case_match; [apply tame_crossProject|apply tame_ret]].
  apply tame_mmap. intros x Hx. apply tame_childOf. by eapply newHere_u64.
Qed.
Lemma tame_links n : tame (mfor (default [] (links f !! n)) (fun lp =>
  if isTrashIno lp then mret tt else known (childLoc side lp n false) ≫= addLoc)).
Proof using Hwf Twf.
  apply tame_mfor. intros lp Hlp. case_match; [apply tame_ret|]. apply tame_found; [|apply tame_addLoc].
  intros b l b'. apply child_found; [|by left]. exact (proj1 (Forall_forall _ _) (fw_links _ Hwf n) lp Hlp).
Qed.

Lemma placeStoreds_run n pl s0 sl s s' : Forall loc_u64 sl -> G s -> mfori 0 sl (placeStored md n pl s0) s = (Ok tt, s') ->
  forall i l, sl !! i = Some l -> (l_kind l <> nsTrash -> l ∈ pg_locs s') /\
  (l_kind l = nsTrash -> isBypass md = false -> default 0 (p_parents pl !! i) ∈ removedOf s0 n /\ nonTrash (placedOf s0 n) <> []).
Proof.
  intros Hsl Hg Hr. rewrite Forall_forall in Hsl. set (Q i l s2 := (l_kind l <> nsTrash -> l ∈ pg_locs s2) /\
    (l_kind l = nsTrash -> isBypass md = false -> default 0 (p_parents pl !! i) ∈ removedOf s0 n /\ nonTrash (placedOf s0 n) <> [])).
  refine (proj2 (mfori_each G Q (placeStored md n pl s0) sl 0 s s' Hg _ _ Hr)).
  - intros i l s3 s4 G3 Hl Hb. pose proof (tame_placeStored n pl s0 _ l (Hsl l (list_elem_of_lookup_2 _ _ _ Hl)) _ _ _ G3 Hb) as (G4 & _ & _).
    split; [done|]. by eapply placeStored_run.
  - intros i l j m s3 s4 [Q1 Q2] G3 Hb. split; [|done]. intros Hk. apply (gr_locs _ _ (grows_placeStored n pl s0 j m _ _ _ Hb)), Q1, Hk.
Qed.

(** [homed] at [s'] from the record at [s]. *)
Lemma homed_intro n s s' : Vc s' = Vc s ->
  (if p_exists (storedOf s n) then
     exists sl, Forall2 (place_at T a0 n (p_isDir (storedOf s n))) (p_parents (storedOf s n)) sl /\
     forall i l, sl !! i = Some l -> (l_kind l <> nsTrash -> l ∈ pg_locs s') /\
       (l_kind l = nsTrash -> isBypass md = false ->
        default 0 (p_parents (storedOf s n) !! i) ∈ removedOf s n /\ nonTrash (placedOf s n) <> [])
   else isBypass md = false -> nonTrash (placedOf s n) <> [] -> newInodeGate p u n (nonTrash (placedOf s n)) (setAttr f) = None) ->
  homed n s'.
Proof.
  unfold Vc, homed, storedOf, placedOf, removedOf. intros [= H1 H2 H3 H4 H5]. rewrite H1, H3, H5. case_match; [|done].
  intros (sl & Hsl & Hs). exists sl. split; [done|]. intros i l par Hl Hp. destruct (Hs i l Hl) as [S1 S2]. rewrite Hp in S2. by split.
Qed.

Lemma places_u64 n isDir ps sl : is_u64 n -> Forall is_u64 ps -> Forall2 (place_at T a0 n isDir) ps sl -> Forall loc_u64 sl.
Proof using Twf.
  intros Hn Hps Hsl. revert Hps. induction Hsl as [|q l ps sl Hp _ IH]; intros Hps; [by apply Forall_nil|].
  apply Forall_cons in Hps as [Hq Hps]. apply Forall_cons. split; [exact (place_u64 T a0 Twf n isDir q l Hn Hq Hp)|auto].
Qed.

Lemma placeInode_spec n s s' : Inv s -> full s -> n ∈ pg_order s -> placeInode side md p u f n s = (Ok tt, s') ->
  G s' /\ Vc s' = Vc s /\ pg_locs s ⊆ pg_locs s' /\ (isTrashIno n = false -> homed n s').
Proof using Hwf Twf.
  intros [Hg Hc] Hf Hn Hr. unfold placeInode in Hr. destruct (isTrashIno n) eqn:Et; [by injection Hr as <-|].
  apply sm_bind_Ok in Hr as (? & ? & [= <- <-] & Hr).
  pose proof (storedOf_placed n s (conj Hg Hc) Hf Hn Et) as Hpl. destruct (p_exists (storedOf s n)) eqn:Ex; cbn [negb] in Hr.
  - apply sm_bind_Ok in Hr as (sl & s1 & (a1 & Hl & ->)%known_run & Hr). apply (locsOf_good side T a0) in Hl as [Hg1 Hsl];
      [|done|exact (proj1 (Forall_forall _ _) (co_order _ Hc) n Hn)|by eapply placed_u64|apply Hg].
    apply sm_bind_Ok in Hr as ([] & s2 & H2 & Hr). assert (Hgs : G (setAnc a1 s)) by (split; [done|apply Hg]).
    assert (Hlu : Forall loc_u64 sl) by (by eapply places_u64; [exact (proj1 (Forall_forall _ _) (co_order _ Hc) n Hn)|by eapply placed_u64|]).
    assert (Ht : tame (mfori 0 sl (placeStored md n (storedOf s n) s))).
    { apply tame_mfori. intros i l Hl. apply tame_placeStored. exact (proj1 (Forall_forall _ _) Hlu l Hl). }
    destruct (Ht (setAnc a1 s) tt s2 Hgs H2) as (Hg2 & HV2 & HL2).
    pose proof (placeStoreds_run n (storedOf s n) s sl (setAnc a1 s) s2 Hlu Hgs H2) as HQ. clear Ht.
    assert (Ht : tame (placeMoved side md n (storedOf s n) s sl ≫= fun _ => mfor (default [] (links f !! n)) (fun lp =>
      if isTrashIno lp then mret tt else known (childLoc side lp n false) ≫= addLoc) ≫= fun _ =>
      refuseIf md ReasonUnknownKey (negb (parentMatched f n (storedOf s n) s)))).
    { apply tame_bind; [by apply tame_placeMoved|intros _]. apply tame_bind; [apply tame_links|intros _; apply tame_refuseIf]. }
    apply Ht in Hr as (Hg3 & HV3 & HL3); [|done]. split_and!; [done|by rewrite HV3, HV2|by etrans|]. intros _.
    apply (homed_intro n s); [by rewrite HV3, HV2|]. rewrite Ex. exists sl. split; [done|].
    intros i l Hli. destruct (HQ i l Hli) as [Q1 Q2]. split; [|done]. intros Hk. by apply HL3, Q1.
  - pose proof (tame_placeNew n s Hc _ _ _ Hg Hr) as (G1 & V1 & L1). split_and!; [done..|]. intros _.
    apply (homed_intro n s); [done|]. rewrite Ex. intros Hb Hne. by eapply placeNew_gate.
Qed.

(** ** The trash *)
Definition paired (op : dentryOp) : Prop :=
  exists dir op', trashEntryOrigin (o_name op) = Some (dir, o_ino op) /\ isTrashIno dir = false /\
  op' ∈ dentries f /\ o_dir op' = dir /\ leaves op' (o_ino op).

Lemma pairTrash_run op s s' : core s -> pairTrash md op s = (Ok tt, s') ->
  s' = s /\ (isBypass md = false -> o_trash op = true -> o_del op = false -> paired op).
Proof.
  intros Hc Hr. unfold pairTrash in Hr. destruct (negb (o_trash op) || o_del op) eqn:E.
  { injection Hr as <-. split; [done|]. intros _ Ht Hd. by rewrite Ht, Hd in E. }
  apply sm_bind_Ok in Hr as (? & ? & [= <- <-] & Hr). apply refuseIf_run in Hr as [-> Hb]. split; [done|].
  intros Hby _ _. specialize (Hb Hby). apply orb_false_iff in Hb as [_ Hb%negb_false_iff]. unfold trashNamed in Hb.
  destruct (trashEntryOrigin (o_name op)) as [[dir ino]|] eqn:Eo; [|done].
  apply andb_prop in Hb as [[->%Z.eqb_eq Ht%negb_true_iff]%andb_prop Hd%bool_decide_eq_true].
  destruct (co_removed _ Hc _ _ Hd) as (op' & ? & ? & ?). by exists dir, op'.
Qed.

Definition restored_from (op : dentryOp) (s : placing) : Prop :=
  exists n dir l, names_entry op n /\ trashEntryOrigin (o_name op) = Some (dir, n) /\ located T a0 dir l /\ l ∈ pg_locs s.

Lemma restoreTrash_run i op s s' : Inv s -> dentries f !! i = Some op -> restoreTrash side md i op s = (Ok tt, s') ->
  Inv s' /\ (isBypass md = false -> o_trash op = true -> o_del op = true -> restored_from op s').
Proof using Twf.
  intros [Hg Hc] Hop Hr. unfold restoreTrash in Hr. destruct (negb (o_trash op) || negb (o_del op)) eqn:E.
  { injection Hr as <-. split; [done|]. intros _ Ht Hd. by rewrite Ht, Hd in E. }
  apply sm_bind_Ok in Hr as (? & ? & [= <- <-] & Hr). case_match eqn:Er.
  { unfold refuse in Hr. destruct (isBypass md); [injection Hr as <-|discriminate Hr]. split; [done|]. discriminate. }
  destruct (isBypass md); [injection Hr as <-; split; [done|discriminate]|].
  destruct (pg_delIno s !! i) as [n|] eqn:Ed; [|discriminate]. destruct (trashEntryOrigin (o_name op)) as [[dir ino]|] eqn:Eo; [|discriminate].
  destruct (Z.eqb_spec ino n) as [->|]; [|discriminate]. cbn [negb] in Hr. apply sm_bind_Ok in Hr as (l & s1 & H1 & Hr). injection Hr as <-.
  assert (Hu : is_u64 dir) by by eapply trashEntryOrigin_u64.
  apply known_resolve in H1 as (Hg1 & Hl & a' & ->); [|done..]. split; [split; [apply G_loc; [by eapply located_u64|done]|by apply (core_same s)]|].
  intros _ _ _. destruct (co_del _ Hc _ _ Ed) as (op' & Hop' & _ & Hn). assert (op' = op) as -> by congruence.
  exists n, dir, l. split_and!; [done..|]. apply elem_of_app. right. by apply list_elem_of_singleton.
Qed.
Lemma tame_restoreTrash i op : tame (restoreTrash side md i op).
Proof using Twf.
  unfold restoreTrash. case_match; [apply tame_ret|]. apply tame_get_bind. intros s. case_match; [apply tame_refuse|].
  case_match; [apply tame_ret|]. destruct (pg_delIno s !! i); [|apply tame_err].
  destruct (trashEntryOrigin (o_name op)) as [[dir ino]|] eqn:Eo; [|apply tame_err]. case_match; [apply tame_err|].
  apply tame_found; [|apply tame_addLoc]. intros b l b'. apply resolve_found. by eapply trashEntryOrigin_u64.
Qed.
End inv.
