(* ===== verification/PlaceTheorems.v ===== *)
(** * Claims about placement

    [placeable] says that the caches agree with the volume, [touches] names the
    inodes a unit writes, links or unlinks.  The claims: the locations returned
    cover every write of the unit, and the rules of the trash and of new inodes
    hold of an admitted unit. *)

From S2P Require Import Prelude GoLib Resp Classify ClassifyFacts Policy Guard GuardCheck TxnUnit Ancestry AncestryFacts Place PlaceFacts PlaceInv.

Record placeable (side : sideDoer) (T : gmap Z Z) (a : ancestry) : Prop := {
  pb_wf : tree_wf T;
  pb_true : tree_true side T a;
  pb_servable : servable side T a;
  pb_files : files_ok side a (files a);
}.

Lemma bind_run {S E A B} (m : SM S E A) (k : A -> SM S E B) s x s1 : m s = (Ok x, s1) -> (m ≫= k) s = k x s1.
Proof. unfold mbind, SM_bind. by intros ->. Qed.

Lemma tail_subset {A} (x : A) l k : x :: l ⊆ k -> l ⊆ k.
Proof. intros H y Hy. by apply H, list_elem_of_further. Qed.

Section placed.
Context (side : sideDoer) (T : gmap Z Z) (a : ancestry) (Hpb : placeable side T a).
(** The resolver when the placement starts; only its caches differ from [a]. *)
Context (a1 : ancestry) (Ha1 : good side T a a1).
Context (md : placeMode) (p : Principal) (u : Unit) (f : unitFacts) (Hwf : facts_wf f).

(** What the loops leave behind. *)
Record settled_placing (s : placing) : Prop := {
  sp_inv : Inv side T a f s;
  sp_full : full s;
  sp_did : forall op, op ∈ dentries f -> did side T a md op s;
  sp_inodes : inodes f ⊆ pg_order s;
  sp_replaced : forall op n, op ∈ dentries f -> replaced side a op n -> n ∈ pg_order s;
}.

Lemma note_all l : forall s, Forall is_u64 l -> Inv side T a f s ->
  let s' := foldl (fun s n => note n s) s l in Inv side T a f s' /\ grow s s' /\ l ⊆ pg_order s' /\ pg_stored s' = pg_stored s.
Proof.
  induction l as [|n l IH]; intros s Hu Hi; cbn; [split_and!; [done|apply grow_refl|apply list_subseteq_nil|done]|].
  apply Forall_cons in Hu as [Hn Hl]. destruct Hi as [Hg Hc]. destruct (note_grow n s) as [Hg1 Hin].
  destruct (IH (note n s) Hl) as (Hi2 & Hg2 & Ho2 & Hs2); [split; [by apply G_note|by apply core_note]|].
  split_and!; [done|by eapply grow_trans| |rewrite Hs2; unfold note; by case_decide].
  intros m [->|Hm]%elem_of_cons; [by apply (gr_order _ _ Hg2)|by apply Ho2].
Qed.

Lemma replaceAll_spec l : forall s s', l ⊆ dentries f -> Inv side T a f s -> full s ->
  (forall op, op ∈ dentries f -> o_del op = false -> o_ino op ∈ pg_order s) ->
  mfor l (replaceEntry side) s = (Ok tt, s') ->
  Inv side T a f s' /\ full s' /\ grow s s' /\ forall op n, op ∈ l -> replaced side a op n -> n ∈ pg_order s'.
Proof using Hpb Hwf.
  induction l as [|op l IH]; intros s s' Hl Hi Hf Ho Hr; cbn [mfor] in Hr.
  { injection Hr as <-. split_and!; [done|done|apply grow_refl|]. intros op n Hop. by apply elem_of_nil in Hop. }
  apply sm_bind_Ok in Hr as ([] & s1 & H1 & Hr). pose proof (grows_replaceEntry side op _ _ _ H1) as Hg1.
  assert (Hop : op ∈ dentries f) by apply Hl, list_elem_of_here.
  assert (Hstep : Inv side T a f s1 /\ full s1 /\ forall n, replaced side a op n -> n ∈ pg_order s1).
  { destruct (o_del op) eqn:Ed.
    - unfold replaceEntry in H1. apply sm_bind_Ok in H1 as (? & ? & [= <- <-] & H1). rewrite Ed in H1. injection H1 as <-.
      split_and!; [done..|]. intros n (H2 & _). congruence.
    - eapply replaceEntry_spec; try done; [apply Hpb|by apply Ho]. }
  destruct Hstep as (Hi1 & Hf1 & Hn1). apply IH in Hr as (Hi2 & Hf2 & Hg2 & Hn2); [|by eapply tail_subset|done|done|].
  - split_and!; [done|done|by eapply grow_trans|]. intros x n [->|Hx]%elem_of_cons Hrep; [|by eauto].
    by apply (gr_order _ _ Hg2), Hn1.
  - intros x Hx Hd. by apply (gr_order _ _ Hg1), Ho.
Qed.

Lemma startPlacing_inv : Inv side T a f (startPlacing a1).
Proof using Ha1.
  split; [split; [exact Ha1|by apply Forall_nil]|]. split; try done; unfold removedOf, placedOf; cbn.
  - intros n d. rewrite lookup_empty. cbn. intros H. by apply elem_of_nil in H.
  - intros n d. rewrite lookup_empty. cbn. intros H. by apply elem_of_nil in H.
Qed.

(** The loops before the inodes are placed. *)
Definition gather : SM placing Denial unit :=
  mfori 0 (dentries f) (placeDentry side md) ≫= fun _ =>
  sm_modify (fun s => foldl (fun s n => note n s) s (inodes f)) ≫= fun _ =>
  (s ← sm_get; mfor (pg_order s) (fun n => if isTrashIno n then mret tt else readStored side n)) ≫= fun _ =>
  mfor (dentries f) (keepTrashEntry side md) ≫= fun _ =>
  mfor (dentries f) (replaceEntry side).

Lemma dentries_spec s' : mfori 0 (dentries f) (placeDentry side md) (startPlacing a1) = (Ok tt, s') ->
  Inv side T a f s' /\ forall op, op ∈ dentries f -> did side T a md op s'.
Proof using Hpb Ha1 Hwf.
  intros Hr. destruct (mfori_each (Inv side T a f) (fun _ op s => did side T a md op s) (placeDentry side md) (dentries f) 0
    (startPlacing a1) s' startPlacing_inv) as [H1 H2]; [| |exact Hr|].
  - intros i op s1 s2 Hi Hop Hb. eapply placeDentry_spec; [apply Hpb|done|exact Hi|exact Hop|exact Hb].
  - intros i x j y s1 s2 HQ _ Hb. eapply did_grow; [by eapply grows_placeDentry|done].
  - split; [done|]. intros op [i Hop]%list_elem_of_lookup. by eapply H2.
Qed.

Lemma gather_spec s' : gather (startPlacing a1) = (Ok tt, s') ->
  settled_placing s' /\
  (isBypass md = false -> forall op, op ∈ dentries f -> o_trash op = true -> o_del op = false -> forall n, names_entry side a op n -> n = o_ino op).
Proof using Hpb Ha1 Hwf.
  intros Hr. unfold gather in Hr. apply sm_bind_Ok in Hr as ([] & s1 & [Hi1 Hd1]%dentries_spec & Hr).
  apply sm_bind_Ok in Hr as ([] & s2 & [= E2] & Hr). destruct (note_all (inodes f) s1 (fw_inodes _ Hwf) Hi1) as (Hi2 & Hg2 & Ho2 & _).
  rewrite E2 in *. clear E2. apply sm_bind_Ok in Hr as ([] & s3 & H3 & Hr). apply sm_bind_Ok in H3 as (? & ? & [= <- <-] & H3).
  apply readAll_spec with (T := T) (a0 := a) (f := f) in H3 as (Hi3 & Hg3 & Ho3 & _ & Hs3); [|apply Hpb|apply Hi2|done].
  assert (Hf3 : full s3) by (intros n; rewrite Ho3; apply Hs3).
  apply sm_bind_Ok in Hr as ([] & s4 & H4 & Hr).
  destruct (mfor_each (fun s => s = s3) (fun op _ => isBypass md = false -> o_trash op = true -> o_del op = false ->
    forall n, names_entry side a op n -> n = o_ino op) (keepTrashEntry side md) (dentries f) s3 s4) as [-> Hk]; [done| |done|done|].
  { intros op x y -> _ Hb. eapply keepTrashEntry_run; [apply Hi3|exact Hb]. }
  assert (Hd3 : forall op, op ∈ dentries f -> did side T a md op s3).
  { intros op Hop. eapply did_grow; [exact Hg3|]. eapply did_grow; [exact Hg2|]. by apply Hd1. }
  apply replaceAll_spec in Hr as (Hi5 & Hf5 & Hg5 & Hn5); [|done..|].
  2:{ intros op Hop Hdel. by apply (Hd3 op Hop). }
  split; [|by eauto]. split; [done|done| | |done].
  - intros op Hop. eapply did_grow; [exact Hg5|]. by apply Hd3.
  - etrans; [exact Ho2|]. etrans; [apply Hg3|apply Hg5].
Qed.

Lemma inodes_loop s l : settled_placing s -> forall s1 s2, l ⊆ pg_order s ->
  G side T a s1 -> Vc s1 = Vc s -> mfor l (placeInode side md p u f) s1 = (Ok tt, s2) ->
  G side T a s2 /\ Vc s2 = Vc s /\ pg_locs s1 ⊆ pg_locs s2 /\ forall n, n ∈ l -> isTrashIno n = false -> homed T a md p u f n s2.
Proof using Hpb Hwf.
  intros Hs. induction l as [|n l IH]; intros s1 s2 Hl G1 V1 Hr; cbn [mfor] in Hr.
  { injection Hr as <-. split_and!; [done..|]. intros n Hn. by apply elem_of_nil in Hn. }
  apply sm_bind_Ok in Hr as ([] & s3 & H3 & Hr). pose proof V1 as V1'. unfold Vc in V1'. injection V1' as _ _ _ Ho Hst.
  eapply placeInode_spec in H3 as (G3 & V3 & L3 & H3); [|apply Hpb|exact Hwf|split; [done|]| |].
  - destruct (IH s3 s2) as (G2 & V2 & L2 & H2); [by eapply tail_subset|done|congruence|done|]. split_and!; [done|done|by etrans|].
    intros m [->|Hm]%elem_of_cons Ht; [|by apply H2]. apply (homed_same T a md p u f n s3); [congruence|done|by apply H3].
  - apply (core_same _ _ _ _ s); [done|apply Hs].
  - unfold full. rewrite Ho, Hst. apply Hs.
  - rewrite Ho. apply Hl, list_elem_of_here.
Qed.

Lemma settled_same s s' : Vc s' = Vc s -> pg_locs s ⊆ pg_locs s' -> G side T a s' -> settled_placing s -> settled_placing s'.
Proof using.
  intros HV HL HG Hs. pose proof HV as HV'. unfold Vc in HV'. injection HV' as _ _ _ Ho Hst. split.
  - split; [done|]. apply (core_same _ _ _ _ s); [done|apply Hs].
  - unfold full. rewrite Ho, Hst. apply Hs.
  - intros op Hop. eapply did_grow; [by apply grow_same|]. by apply Hs.
  - rewrite Ho. apply Hs.
  - rewrite Ho. apply Hs.
Qed.

(** What an admitted placement shows. *)
Record placed_ok (s : placing) : Prop := {
  po_settled : settled_placing s;
  po_homed : forall n, n ∈ pg_order s -> isTrashIno n = false -> homed T a md p u f n s;
  po_key : isBypass md = false -> trashKey f = "";
  po_kept : isBypass md = false -> forall op, op ∈ dentries f -> o_trash op = true -> o_del op = false ->
    paired side a f op /\ forall n, names_entry side a op n -> n = o_ino op;
  po_restored : isBypass md = false -> forall op, op ∈ dentries f -> o_trash op = true -> o_del op = true -> restored_from side T a op s;
}.

Lemma restores_spec s s' : Inv side T a f s -> mfori 0 (dentries f) (restoreTrash side md) s = (Ok tt, s') ->
  G side T a s' /\ Vc s' = Vc s /\ pg_locs s ⊆ pg_locs s' /\
  (isBypass md = false -> forall op, op ∈ dentries f -> o_trash op = true -> o_del op = true -> restored_from side T a op s').
Proof using Hpb.
  intros Hi Hr. pose proof (fun i op => tame_restoreTrash side T a (pb_wf _ _ _ Hpb) md i op) as Ht.
  destruct (mfori_each (Inv side T a f) (fun _ op s1 => isBypass md = false -> o_trash op = true -> o_del op = true ->
    restored_from side T a op s1) (restoreTrash side md) (dentries f) 0 s s') as [_ H3]; [done| | |exact Hr|].
  - intros i op s1 s2 Hi1 Hop Hb. eapply restoreTrash_run in Hb; [exact Hb|apply Hpb|exact Hi1|exact Hop].
  - intros i x j y s1 s2 HQ Hi1 Hb Hby Htr Hd. destruct (HQ Hby Htr Hd) as (n & dir & l & R1 & R2 & R3 & R4).
    exists n, dir, l. split_and!; [done..|]. destruct (Ht j y s1 tt s2 (proj1 Hi1) Hb) as (_ & _ & L). by apply L.
  - assert (Hts : tame side T a (mfori 0 (dentries f) (restoreTrash side md))) by (apply tame_mfori; intros; apply Ht).
    destruct (Hts s tt s' (proj1 Hi) Hr) as (H4 & H5 & H6). split_and!; [done..|].
    intros Hby op [i Hop]%list_elem_of_lookup. exact (H3 i op Hop Hby).
Qed.

Lemma placeSteps_spec s' : placeSteps side md p u f (startPlacing a1) = (Ok tt, s') -> placed_ok s'.
Proof using Hpb Ha1 Hwf.
  intros Hr. unfold placeSteps in Hr. apply sm_bind_Ok in Hr as ([] & s0 & [-> Hk]%refuseIf_run & Hr).
  assert (Hga : exists s1, gather (startPlacing a1) = (Ok tt, s1) /\
    ((s ← sm_get; mfor (pg_order s) (placeInode side md p u f)) ≫= fun _ =>
      mfor (dentries f) (pairTrash md) ≫= fun _ => mfori 0 (dentries f) (restoreTrash side md)) s1 = (Ok tt, s')).
  { apply sm_bind_Ok in Hr as ([] & t1 & H1 & Hr). apply sm_bind_Ok in Hr as ([] & t2 & H2 & Hr). apply sm_bind_Ok in Hr as ([] & t3 & H3 & Hr).
    apply sm_bind_Ok in Hr as ([] & t4 & H4 & Hr). apply sm_bind_Ok in Hr as ([] & t5 & H5 & Hr). exists t5. split; [|exact Hr].
    by rewrite <- H5, <- (bind_run _ (fun _ => _) _ _ _ H4), <- (bind_run _ (fun _ => _) _ _ _ H3), <- (bind_run _ (fun _ => _) _ _ _ H2),
      <- (bind_run _ (fun _ => _) _ _ _ H1). }
  clear Hr. destruct Hga as (s1 & [Hs1 Hkeep]%gather_spec & Hr). apply sm_bind_Ok in Hr as ([] & s2 & H2 & Hr).
  apply sm_bind_Ok in H2 as (? & ? & [= <- <-] & H2).
  destruct (inodes_loop s1 (pg_order s1) Hs1 s1 s2) as (G2 & V2 & L2 & H2h); [done|apply Hs1|done|done|].
  pose proof (settled_same s1 s2 V2 L2 G2 Hs1) as Hs2. apply sm_bind_Ok in Hr as ([] & s3 & H3 & Hr).
  destruct (mfor_each (fun s => s = s2) (fun op _ => isBypass md = false -> o_trash op = true -> o_del op = false -> paired side a f op)
    (pairTrash md) (dentries f) s2 s3) as [-> Hp]; [done| |done|done|].
  { intros op x y -> _ Hb. eapply pairTrash_run; [apply Hs2|exact Hb]. }
  apply restores_spec in Hr as (G4 & V4 & L4 & H4); [|apply Hs2]. split; [by eapply settled_same| | | |done].
  - intros n Hn Ht. apply (homed_same T a md p u f n s2); [done..|]. apply H2h; [|done].
    unfold Vc in V4, V2. injection V4 as _ _ _ O4 _. injection V2 as _ _ _ O2 _. congruence.
  - intros Hb. specialize (Hk Hb). by apply negb_false_iff, eqs_true in Hk.
  - intros Hb op Hop Ht Hd. split; [by apply Hp|by apply Hkeep].
Qed.

Lemma placeUnit_spec locs unl a' : placeUnit side md p u f a1 = (Ok (locs, unl), a') -> exists s, placed_ok s /\ pg_locs s = locs /\ pg_anc s = a'.
Proof using Hpb Ha1 Hwf.
  unfold placeUnit. destruct (placeSteps side md p u f (startPlacing a1)) as [[[]|d] s] eqn:E; [|discriminate].
  intros [= <- <- <-]. exists s. split_and!; [by apply placeSteps_spec|done|done].
Qed.
End placed.

(** ** What an admitted unit does *)

(** The unit writes inode [n], links it, or takes an entry of it away. *)
Definition touches (side : sideDoer) (a : ancestry) (f : unitFacts) (n : Z) : Prop :=
  n ∈ inodes f \/ exists op, op ∈ dentries f /\
  (o_del op = false /\ o_ino op = n \/ o_del op = true /\ names_entry side a op n \/ replaced side a op n).

(** The unit takes [n] out of directory [par] and places it outside the trash. *)
Definition restored (side : sideDoer) (a : ancestry) (f : unitFacts) (n par : Z) : Prop :=
  (exists op, op ∈ dentries f /\ o_dir op = par /\ leaves side a op n) /\
  exists op, op ∈ dentries f /\ o_del op = false /\ o_ino op = n /\ o_trash op = false.

(** The numbers [p] may create inodes with. *)
Definition own_number (p : Principal) (u : Unit) (n : Z) : Prop :=
  exists owner, inodeOwner u = Some owner /\
  (owner n = Ok (Some (PName p)) \/ owner n = Ok None /\ exists mark, inodeMark u = Some (Ok mark) /\ n <= mark).

Lemma touched_order side T a md p u f s n : placed_ok side T a md p u f s -> touches side a f n -> n ∈ pg_order s.
Proof.
  intros [Hs _ _ _ _] [Hn|(op & Hop & [[Hd <-]|[[Hd Hn]|Hr]])].
  - by apply Hs.
  - by apply (sp_did _ _ _ _ _ _ Hs op Hop).
  - by apply (sp_did _ _ _ _ _ _ Hs op Hop).
  - exact (sp_replaced _ _ _ _ _ _ Hs op n Hop Hr).
Qed.

Lemma newHere_op side T a f s n : core side T a f s -> nonTrash (placedOf s n) <> [] ->
  exists op, op ∈ dentries f /\ o_del op = false /\ o_ino op = n /\ o_trash op = false.
Proof.
  intros Hc Hn. destruct (nonTrash (placedOf s n)) as [|q l] eqn:E; [done|].
  assert (Hq : In q (nonTrash (placedOf s n))) by (rewrite E; by left). apply filter_In in Hq as [Hq Ht].
  apply list_elem_of_In in Hq. destruct (co_placed _ _ _ _ _ Hc _ _ Hq) as (op & ? & ? & ? & ->). exists op. split_and!; [done..|].
  by apply negb_true_iff in Ht.
Qed.

Lemma placeable_good side T a : placeable side T a -> good side T a a.
Proof. intros Hpb. split_and!; [done|apply Hpb|apply Hpb]. Qed.

Lemma placed_covers side T a md p u f s : placeable side T a -> placed_ok side T a md p u f s ->
  (forall op, op ∈ dentries f -> o_trash op = false -> exists l, located T a (o_dir op) l /\ l ∈ pg_locs s) /\
  (forall n isDir par, touches side a f n -> n <> rootIno -> isTrashIno n = false -> stored_in side a n isDir par ->
     exists l, place_at T a n isDir par l /\
     (l ∈ pg_locs s \/ l_kind l = nsTrash /\ (isBypass md = false -> restored side a f n par))).
Proof.
  intros Hpb Hok. pose proof Hok as [Hs Hh _ _ _]. split.
  - intros op Hop. apply (sp_did _ _ _ _ _ _ Hs op Hop).
  - intros n isDir par Ht Hn Htr Hst. pose proof (touched_order _ _ _ _ _ _ _ _ _ Hok Ht) as Ho. destruct (sp_inv _ _ _ _ _ _ Hs) as [_ Hc].
    pose proof (storedOf_placed side T a f n s (sp_inv _ _ _ _ _ _ Hs) (sp_full _ _ _ _ _ _ Hs) Ho Htr) as Hpl.
    destruct (placed_stored side T a (pb_true _ _ _ Hpb) n (storedOf s n) isDir par) as (Hx & Hd & Hp); [|done..|].
    { exact (proj1 (Forall_forall _ _) (co_order _ _ _ _ _ Hc) n Ho). }
    specialize (Hh n Ho Htr). unfold homed in Hh. rewrite Hx in Hh. destruct Hh as (sl & Hsl & Hh). rewrite Hd in Hsl.
    apply list_elem_of_lookup in Hp as [i Hi]. destruct (Forall2_lookup_l _ _ _ _ _ Hsl Hi) as (l & Hl & Hpa).
    destruct (Hh i l par Hl Hi) as [H1 H2]. exists l. split; [done|]. destruct (decide (l_kind l = nsTrash)) as [Hk|Hk]; [|left; by apply H1].
    right. split; [done|]. intros Hb. destruct (H2 Hk Hb) as [H3 H4]. split; [by apply (co_removed _ _ _ _ _ Hc)|by eapply newHere_op].
Qed.

(** The locations of an admitted unit cover what it does.  The directory
    of every entry it sets or removes outside the trash is located by one of
    them; and so is every place that an inode it writes, links or unlinks has
    in the volume, the trash apart, which only a unit that takes the inode out
    of it may touch. *)
Theorem placement_covers_writes side T a md p u f locs unl a' :
  placeable side T a -> facts_wf f -> placeUnit side md p u f a = (Ok (locs, unl), a') ->
  (forall op, op ∈ dentries f -> o_trash op = false -> exists l, located T a (o_dir op) l /\ l ∈ locs) /\
  (forall n isDir par, touches side a f n -> n <> rootIno -> isTrashIno n = false -> stored_in side a n isDir par ->
     exists l, place_at T a n isDir par l /\
     (l ∈ locs \/ l_kind l = nsTrash /\ (isBypass md = false -> restored side a f n par))).
Proof.
  intros Hpb Hwf Hr. apply (placeUnit_spec side T a Hpb a (placeable_good _ _ _ Hpb) md p u f Hwf) in Hr as (s & Hok & <- & _).
  by apply (placed_covers side T a md p u f s).
Qed.


