(* ===== verification/PlaceExamples.v ===== *)
(** * Placement: the types of a unit's facts, and examples

    Every inode number [analyzeUnit] reports is a uint64 when the keys the
    guard parsed hold uint64s.  The examples run [placeUnit] on a volume with
    /top/proj/sub and a file, and apply the claims of placement to them. *)

From S2P Require Import Prelude GoLib Resp Classify ClassifyFacts Policy Guard GuardCheck TxnUnit Ancestry AncestryFacts GuardTheorems AncestryTheorems Place PlaceFacts PlaceInv PlaceTheorems.

(** ** uint64 facts *)
Definition unit_wf (u : Unit) : Prop := Forall (fun w => is_u64 (Ino (KWKey w))) (Project u) /\ Forall is_u64 (RefInodes u).

Lemma fw_same f f' : dentries f' = dentries f -> inodes f' = inodes f -> links f' = links f -> quota f' = quota f ->
  statRows f' = statRows f -> facts_wf f -> facts_wf f'.
Proof. intros H1 H2 H3 H4 H5 [W1 W2 W3 W4 W5]. split; [by rewrite H1|by rewrite H2|by rewrite H3|by rewrite H4|by rewrite H5]. Qed.
Lemma fw_touch n f : facts_wf f -> facts_wf (touch n f).
Proof. unfold touch. intros. case_decide; [done|]. by apply (fw_same f). Qed.
Lemma fw_addInode n r f : is_u64 n -> facts_wf f -> facts_wf (addInode n r f).
Proof.
  intros Hn H. apply (fw_touch n) in H. unfold addInode. case_match; [done|]. destruct H as [W1 W2 W3 W4 W5]. split; [done| |done..]. cbn.
  apply Forall_app. split; [done|by apply Forall_singleton].
Qed.
Lemma fw_noteTrashKey t f : facts_wf f -> facts_wf (noteTrashKey t f).
Proof. unfold noteTrashKey. case_match; [|done]. by apply fw_same. Qed.
Lemma fw_addDentry o f : is_u64 (o_dir o) -> is_u64 (o_ino o) -> facts_wf f -> facts_wf (addDentry o f).
Proof. intros H1 H2 [W1 W2 W3 W4 W5]. split; [|done..]. cbn. apply Forall_app. split; [done|by apply Forall_singleton]. Qed.
Lemma fw_addEdge e f : facts_wf f -> facts_wf (addEdge e f).
Proof. by apply fw_same. Qed.
Lemma fw_addUnresolvable t f : facts_wf f -> facts_wf (addUnresolvable t f).
Proof. by apply fw_same. Qed.
Lemma fw_putAttr n x f : facts_wf f -> facts_wf (putAttr n x f).
Proof. by apply fw_same. Qed.
Lemma fw_addLink n x f : is_u64 x -> facts_wf f -> facts_wf (addLink n x f).
Proof.
  intros Hx [W1 W2 W3 W4 W5]. split; [done..| |done|done]. intros m. cbn. destruct (decide (m = n)) as [->|]; [|by rewrite lookup_insert_ne].
  rewrite lookup_insert_eq. cbn. apply Forall_app. split; [done|by apply Forall_singleton].
Qed.
Lemma fw_addStats x y z f : Forall is_u64 y -> Forall (fun r => is_u64 (r_dir r)) z -> facts_wf f -> facts_wf (addStats x y z f).
Proof. intros Hy Hz [W1 W2 W3 W4 W5]. split; [done..| |]; cbn; by apply Forall_app. Qed.
Lemma fw_setStats x y f : Forall (fun r => is_u64 (r_dir r)) y -> facts_wf f -> facts_wf (setStats x y f).
Proof. intros Hy [W1 W2 W3 W4 W5]. by split. Qed.
Lemma fw_setTopology x f : facts_wf f -> facts_wf (setTopology x f).
Proof. by apply fw_same. Qed.
#[local] Hint Resolve fw_touch fw_addInode fw_noteTrashKey fw_addDentry fw_addEdge fw_addUnresolvable fw_putAttr fw_addLink
  fw_addStats fw_setStats fw_setTopology : facts.

Lemma fw_scanRef r f n : is_u64 n -> facts_wf f -> facts_wf (scanRef r f n).
Proof. unfold scanRef. case_match; auto with facts. Qed.
Lemma fw_scanInode c w r f : is_u64 (Ino (KWKey w)) -> facts_wf f -> facts_wf (scanInode c w r f).
Proof.
  intros Hw H. unfold scanInode. repeat case_match; auto 6 with facts; apply fw_touch, fw_addLink; auto 6 with facts;
    eapply digits_Some; eassumption.
Qed.
Lemma fw_scanEntry w r s fv : is_u64 (Ino (KWKey w)) -> facts_wf (sf s) -> facts_wf (sf (scanEntry w r s fv)).
Proof. intros Hw H. unfold scanEntry. case_match eqn:E; cbn; [|auto with facts]. apply entryInode_u64 in E. auto with facts. Qed.
Lemma fw_fieldInos name key args : Forall is_u64 (unitFieldInodes name key args).
Proof.
  assert (Hids : forall l, Forall is_u64 (omap (M := list) fieldIno l)).
  { intros l. apply Forall_forall. intros n (b & _ & Hb)%list_elem_of_omap. unfold fieldIno in Hb. by apply digits_Some in Hb as [? _]. }
  unfold unitFieldInodes. repeat case_match; auto using Forall_nil_2.
Qed.
Lemma fw_rowsOf name key args : Forall (fun r => is_u64 (r_dir r)) (statRowsOf name key args).
Proof.
  assert (Hrow : forall op l, Forall (fun r => is_u64 (r_dir r)) (omap (M := list) (addRow key op) l)).
  { intros op l. apply Forall_forall. intros r (b & _ & Hb)%list_elem_of_omap. unfold addRow in Hb.
    destruct (fieldIno (fst b)) as [n|] eqn:E; [|discriminate]. injection Hb as <-. unfold fieldIno in E. by apply digits_Some in E as [? _]. }
  unfold statRowsOf. repeat case_match; auto using Forall_nil_2.
Qed.
Lemma fw_filter {A} (P : A -> Prop) g l : Forall P l -> Forall P (List.filter g l).
Proof.
  intros H. apply Forall_forall. intros r [Hr _]%list_elem_of_In%filter_In. apply list_elem_of_In in Hr.
  exact (proj1 (Forall_forall _ _) H r Hr).
Qed.
Lemma foldl_inv_in {A B} (P : A -> Prop) (g : A -> B -> A) l : (forall a b, b ∈ l -> P a -> P (g a b)) -> forall a, P a -> P (foldl g a l).
Proof.
  induction l as [|b l IH]; intros Hg a Ha; [done|]. cbn. apply IH; [|apply Hg; [apply list_elem_of_here|done]].
  intros x y Hy. by apply Hg, list_elem_of_further.
Qed.
Lemma fw_scanDentry c w r s : is_u64 (Ino (KWKey w)) -> facts_wf (sf s) -> facts_wf (sf (scanDentry c w r s)).
Proof.
  intros Hw H. unfold scanDentry. repeat case_match; cbn; auto with facts.
  - apply (foldl_inv (fun s => facts_wf (sf s))); [|cbn; auto with facts]. intros. by apply fw_scanEntry.
  - apply foldl_inv; [|auto with facts]. intros. by apply fw_addDentry.
Qed.
Lemma fw_scanWrite u s w : is_u64 (Ino (KWKey w)) -> facts_wf (sf s) -> facts_wf (sf (scanWrite u s w)).
Proof.
  intros Hw H. unfold scanWrite. repeat case_match; cbn; auto using fw_scanDentry, fw_scanInode, fw_fieldInos, fw_rowsOf, Forall_nil_2 with facts.
  apply foldl_inv_in; [|auto using fw_rowsOf, Forall_nil_2 with facts]. intros f n Hn. apply fw_scanRef. exact (proj1 (Forall_forall _ _) (fw_fieldInos _ _ _) n Hn).
Qed.

Lemma analyzeUnit_wf u : unit_wf u -> facts_wf (analyzeUnit u).
Proof.
  intros [Hp Hr]. rewrite Forall_forall in Hp. rewrite Forall_forall in Hr. unfold analyzeUnit. set (s := foldl (scanWrite u) _ _).
  assert (facts_wf (sf s)) as Hs.
  { apply (foldl_inv_in (fun s => facts_wf (sf s))); [intros ? w Hw; by apply fw_scanWrite, Hp|].
    split; [by apply Forall_nil|by apply Forall_nil| |by apply Forall_nil|by apply Forall_nil]. intros n. cbn. rewrite lookup_empty. by apply Forall_nil. }
  set (f := foldl _ (sf s) _). assert (facts_wf f) as Hf.
  { apply foldl_inv_in; [|done]. intros ? n Hn. by apply fw_scanRef, Hr. }
  clearbody f. match goal with |- facts_wf (match dentries ?x with _ => _ end) => set (f2 := x) end.
  assert (facts_wf f2) as Hf2.
  { subst f2. case_match eqn:E; [auto with facts|]. apply fw_setStats; [|auto with facts]. apply fw_filter. rewrite <- E. apply Hf. }
  repeat case_match; first [done|apply fw_setStats; [apply Hf2|done]].
Qed.

(** Every inode number in the facts of a unit is a uint64, when the keys
    the guard parsed and the inodes it found hold uint64s. *)
Theorem facts_are_uint64 u : unit_wf u -> facts_wf (analyzeUnit u).
Proof. apply analyzeUnit_wf. Qed.

(** ** A volume: /top/proj/sub, and the file /top/proj/a.txt, inode 10 *)
Module PlaceExamples.
Import GuardExamples TreeExamples.
Definition attrs1 : list (string * string) := attrs ++ [("i10", attr 1 3)].
Definition entries1 (k name : string) : option string :=
  if (k =s "d3") && (name =s "a.txt") then Some (GuardExamples.entry 1 10)
  else if (k =s "d2") && (name =s "proj") then Some (GuardExamples.entry 2 3)
  else if (k =s "d1") && (name =s "top") then Some (GuardExamples.entry 2 2)
  else None.
Definition side1 : sideDoer := fun d args =>
  match args with
  | [_; k; name] => match entries1 k name with Some e => Ok (mkValue "$" e 0 [] false) | None => Ok (mkValue "$" "" 0 [] true) end
  | _ => volume attrs1 d args
  end.
Definition owned (u : Unit) : Unit :=
  mkUnit (UKind u) (DB u) (Cmds u) (Watched u) (Writes u) (Project u) (RefInodes u) (UPerson u) (TrashAlloc u)
    (Some (fun n => if n =? 20 then Ok (Some "alice") else Ok None)) (Some (Ok 15)) (upstreamID u) (beforeSide u) (rewrite_ u) (UMode u)
    (ConnID u) (UpstreamNameOf u) (unassigned u).
(** Removing a.txt, with the trash on; and creating b.txt. *)
Definition unlink : Unit := owned (placed_unit
  [["HDEL"; "d3"; "a.txt"]; ["HSET"; "d" +:+ FormatUint hour; "3-10-a.txt"; GuardExamples.entry 1 10]; ["SET"; "i10"; attr 1 hour]]).
Definition create : Unit := owned (placed_unit [["HSET"; "d3"; "b.txt"; GuardExamples.entry 1 20]; ["SET"; "i20"; attr 1 3]]).
Definition proj : location := mkLoc nsProject 3 2 0.
Definition inProj : location := mkLoc nsProject 3 3 0.
Definition after (u : Unit) : ancestry := snd (placeUnit side1 placeStrict mac u (analyzeUnit u) a0).

Lemma reads1 d a : is_u64 d -> getAttr side1 a d = Ok (if d =? 10 then Some (mkAttr 1 3) else if d =? 2 then Some (mkAttr typeDir 1)
  else if d =? 3 then Some (mkAttr typeDir 2) else if d =? 5 then Some (mkAttr typeDir 3) else None).
Proof.
  intros Hd. unfold getAttr, side_reply, side1, volume, attrs1.
  assert (Hk : forall n, is_u64 n -> "i" +:+ FormatUint n = "i" +:+ FormatUint d <-> n = d).
  { intros n Hn. split; [|by intros ->]. intros [= E]. by apply FormatUint_inj. }
  unfold attrs. cbn [list_find fst app].
  destruct (decide ("i2" = "i" +:+ FormatUint d)) as [E|E]; [apply (Hk 2) in E as <-; [vm_compute; reflexivity|done]|].
  destruct (decide ("i3" = "i" +:+ FormatUint d)) as [E3|E3]; [apply (Hk 3) in E3 as <-; [vm_compute; reflexivity|done]|].
  destruct (decide ("i5" = "i" +:+ FormatUint d)) as [E5|E5]; [apply (Hk 5) in E5 as <-; [vm_compute; reflexivity|done]|].
  destruct (decide ("i10" = "i" +:+ FormatUint d)) as [E10|E10]; [apply (Hk 10) in E10 as <-; [vm_compute; reflexivity|done]|].
  destruct (Z.eqb_spec d 10) as [->|]; [by destruct E10|]. destruct (Z.eqb_spec d 2) as [->|]; [by destruct E|].
  destruct (Z.eqb_spec d 3) as [->|]; [by destruct E3|]. destruct (Z.eqb_spec d 5) as [->|]; [by destruct E5|]. reflexivity.
Qed.

Lemma placeable1 : placeable side1 tree a0.
Proof.
  split.
  - apply TreeWitness.tree_ok.
  - intros n q ai Hu Hn. unfold tree. rewrite !lookup_insert_Some, lookup_singleton_Some, reads1 by done.
    intros [[<- <-]|(_ & [[<- <-]|(_ & [<- <-])])]; by intros [= <-].
  - split; [apply coherent_new|]. intros d ai Hu Hd. rewrite reads1 by done.
    repeat (case_match eqn:E; [apply Z.eqb_eq in E as ->; by intros [= <-]|clear E]). done.
  - intros n q [H|H]; discriminate H.
Qed.
End PlaceExamples.

Module PlaceRuns.
Import PlaceExamples.
Definition u64b (z : Z) : bool := (0 <=? z) && (z <? 2^64).
Lemma forall_u64 {A} (g : A -> Z) l : forallb (fun x => u64b (g x)) l = true -> Forall (fun x => is_u64 (g x)) l.
Proof.
  intros H. apply Forall_forall. intros x Hx%list_elem_of_In. apply (proj1 (forallb_forall _ _) H), andb_prop in Hx as [H1 H2].
  apply Z.leb_le in H1. by apply Z.ltb_lt in H2.
Qed.
Lemma unlink_wf : unit_wf unlink.
Proof. split; [apply (forall_u64 (fun w => Ino (KWKey w)))|apply (forall_u64 id)]; vm_compute; reflexivity. Qed.
Lemma create_wf : unit_wf create.
Proof. split; [apply (forall_u64 (fun w => Ino (KWKey w)))|apply (forall_u64 id)]; vm_compute; reflexivity. Qed.
Definition unlink_locs : list location := [proj; inProj].
Lemma unlink_run : placeUnit side1 placeStrict GuardExamples.mac unlink (analyzeUnit unlink) TreeExamples.a0 = (Ok (unlink_locs, [10]), after unlink).
Proof. vm_compute. reflexivity. Qed.
Lemma create_run : placeUnit side1 placeStrict GuardExamples.mac create (analyzeUnit create) TreeExamples.a0 = (Ok ([proj; inProj], []), after create).
Proof. vm_compute. reflexivity. Qed.
Definition trashing : dentryOp := default (mkOp 0 "" false "" 0 0 false false) (dentries (analyzeUnit unlink) !! 1%nat).
Lemma trashing_in : trashing ∈ dentries (analyzeUnit unlink).
Proof. apply (list_elem_of_lookup_2 _ 1%nat). vm_compute. reflexivity. Qed.
Definition creating : dentryOp := mkOp 3 "b.txt" false (GuardExamples.entry 1 20) 20 1 false false.
Lemma creating_in : creating ∈ dentries (analyzeUnit create).
Proof. apply (list_elem_of_lookup_2 _ 0%nat). vm_compute. reflexivity. Qed.
Lemma file_in_proj : stored_in side1 TreeExamples.a0 10 false 3.
Proof. exists (mkAttr 1 3). rewrite reads1 by done. split_and!; [done|reflexivity|reflexivity]. Qed.
Lemma touches_file : touches side1 TreeExamples.a0 (analyzeUnit unlink) 10.
Proof. left. apply (list_elem_of_lookup_2 _ 0%nat). vm_compute. reflexivity. Qed.
End PlaceRuns.

Lemma facts_are_uint64_witness : unit_wf PlaceExamples.unlink /\ facts_wf (analyzeUnit PlaceExamples.unlink).
Proof. split; [exact PlaceRuns.unlink_wf|]. exact (facts_are_uint64 PlaceExamples.unlink PlaceRuns.unlink_wf). Defined.

Lemma placement_covers_writes_witness : exists l,
  place_at TreeExamples.tree TreeExamples.a0 10 false 3 l /\
  (l ∈ PlaceRuns.unlink_locs \/ l_kind l = nsTrash /\ (isBypass placeStrict = false -> restored PlaceExamples.side1 TreeExamples.a0 (analyzeUnit PlaceExamples.unlink) 10 3)).
Proof.
  exact (proj2 (placement_covers_writes PlaceExamples.side1 TreeExamples.tree TreeExamples.a0 placeStrict GuardExamples.mac PlaceExamples.unlink
    (analyzeUnit PlaceExamples.unlink) PlaceRuns.unlink_locs [10] (PlaceExamples.after PlaceExamples.unlink) PlaceExamples.placeable1 (analyzeUnit_wf _ PlaceRuns.unlink_wf)
    PlaceRuns.unlink_run) 10 false 3 PlaceRuns.touches_file ltac:(discriminate) eq_refl PlaceRuns.file_in_proj).
Defined.


