(* ===== verification/Grants.v ===== *)
(** * Per-person write grants (internal/respproxy/grants.go)

    People and their granted folders, the cache of granted directories, and
    the check that every place a unit touches is covered.  The check is
    state-passing over [gstate]: the resolver and the grant cache, which one
    check uses from start to end.  Sorting the grants of a person and the
    audit record of a refusal are left out. *)

From S2P Require Import Prelude GoLib Resp Classify Policy Guard GuardCheck TxnUnit Ancestry Place.

(** ** Grant paths and people *)
Definition maxPeople : Z := 4096.
Definition maxGrants : Z := 1024.
Definition maxGrantDepth : Z := 16.
Definition maxGrantNameLen : Z := 255.

Definition badComponent (c : string) : bool :=
  (c =s "") || (c =s ".") || (c =s "..") || (maxGrantNameLen <? slen c) ||
  existsb (fun b => (bval b <? 32) || (bval b =? 127)) (String.list_ascii_of_string c).

(** [strings.TrimSuffix] for a suffix of one byte. *)
Definition TrimSuffix1 (s : string) (c : ascii) : string :=
  let n := (String.length s - 1)%nat in
  if bool_decide (byte_at s n = Some c) then stake n s else s.

Definition CleanGrantPath (p : string) : option string :=
  if negb (HasPrefix p "/") then None
  else
    let t := TrimSuffix1 p "/" in
    if t =s "" then None
    else
      let parts := Split (sdrop 1 t) "/" in
      if maxGrantDepth <? Z.of_nat (length parts) then None
      else if existsb badComponent parts then None
      else Some t.

Record PersonEntry : Type := mkPersonEntry { pe_ID : string; pe_Name : string; pe_Access : string; pe_Grants : list string; pe_Devices : list string }.
Definition AccessAll : string := "all".
Definition AccessGranted : string := "granted".

Record Principals : Type := mkPrincipals { people : gmap string Person; scoped : bool; restrict : bool; nPeople : Z }.

(** ^[A-Za-z0-9][A-Za-z0-9._-]{0,63}$ *)
Definition isAlnum (c : ascii) : bool :=
  let b := bval c in ((65 <=? b) && (b <=? 90)) || ((97 <=? b) && (b <=? 122)) || ((48 <=? b) && (b <=? 57)).
Definition idByte (c : ascii) : bool := isAlnum c || Ascii.eqb c "." || Ascii.eqb c "_" || Ascii.eqb c "-".
Definition personIDOk (s : string) : bool :=
  match s with
  | String c s' => isAlnum c && forallb idByte (String.list_ascii_of_string s') && (slen s' <=? 63)
  | "" => false
  end.

(** The grants of one person, cleaned, each once. *)
Definition addGrant (acc : list string) (g : string) : option (list string) :=
  c ← CleanGrantPath g; Some (if decide (c ∈ acc) then acc else acc ++ [c]).
Definition cleanGrants (gs : list string) : option (list string) :=
  foldl (fun acc g => acc ← acc; addGrant acc g) (Some []) gs.

Definition addDevice (kinds : gmap string Kind) (p : Person) (m : gmap string Person) (d : string) : option (gmap string Person) :=
  match kinds !! d with
  | Some k => if bool_decide (k <> KindMac) then None
              else match m !! d with Some _ => None | None => Some (<[d := p]> m) end
  | None => match m !! d with Some _ => None | None => Some (<[d := p]> m) end
  end.

Definition parsePerson (kinds : gmap string Kind) (acc : gset string * Principals) (pe : PersonEntry) : option (gset string * Principals) :=
  let '(ids, ps) := acc in
  if negb (personIDOk (pe_ID pe)) || bool_decide (pe_ID pe ∈ ids) then None
  else if (256 <? slen (pe_Name pe)) || ContainsAny (pe_Name pe) (String "013" (String "010" (String "000" ""))) then None
  else if negb (pe_Access pe =s AccessAll) && negb (pe_Access pe =s AccessGranted) then None
  else if maxGrants <? Z.of_nat (length (pe_Grants pe)) then None
  else
    gs ← cleanGrants (pe_Grants pe);
    let p := mkPerson (pe_ID pe) (pe_Name pe) (pe_Access pe =s AccessGranted) gs in
    m ← foldl (fun acc d => acc ← acc; addDevice kinds p acc d) (Some (people ps)) (pe_Devices pe);
    Some ({[pe_ID pe]} ∪ ids, mkPrincipals m (scoped ps || Scoped p) (restrict ps) (nPeople ps + 1)).

(** [kinds]: the kind of every principal entry. *)
Definition parsePeople (kinds : gmap string Kind) (entries : list PersonEntry) (ps : Principals) : option Principals :=
  if maxPeople <? Z.of_nat (length entries) then None
  else snd <$> foldl (fun acc pe => acc ← acc; parsePerson kinds acc pe) (Some (∅, ps)) entries.

Definition PersonOf (ps : Principals) (name : string) : option Person := people ps !! name.
Definition GrantsInForce (ps : Principals) : bool := scoped ps || restrict ps.
Definition HasPeople (ps : Principals) : bool := 0 <? nPeople ps.

Definition grantsApply (p : Principal) (u : Unit) : bool :=
  bool_decide (PKind p = KindMac) && (match UPerson u with Some q => Scoped q | None => false end || unassigned u).

(** "<parent>-<inode>-<name>", the parent not 0. *)
Definition trashEntryParent (name : string) : option Z :=
  match IndexByte name "-" with
  | Some (Datatypes.S _ as i) =>
      let rest := sdrop (Datatypes.S i) name in
      match IndexByte rest "-" with
      | Some (Datatypes.S _ as j) =>
          _ ← digits (stake j rest);
          p ← digits (stake i name);
          if p =? 0 then None else Some p
      | _ => None
      end
  | _ => None
  end.

(** ** The cache of granted directories *)
Record gstate : Type := mkG { g_anc : ancestry; g_epoch : Z; g_key : Z * Z; g_dirs : option (gmap string Z) }.
Definition setGAnc (a : ancestry) (s : gstate) : gstate := mkG a (g_epoch s) (g_key s) (g_dirs s).
Definition newGrants (a : ancestry) : gstate := mkG a 0 (0, 0) None.
(** The key a cache must have to be used now. *)
Definition curKey (s : gstate) : Z * Z := (generation (memo (g_anc s)), g_epoch s).
Definition freshDirs (s : gstate) : gmap string Z :=
  if decide (g_key s = curKey s) then default ∅ (g_dirs s) else ∅.

Section ops.
Context (side : sideDoer).

Fixpoint lookupGo (a : ancestry) (dir : Z) (cs : list string) : result ioerr Z :=
  match cs with
  | [] => Ok dir
  | c :: cs' =>
      e ← entryAt side a dir c;
      match e with
      | Some (ino, typ) => if typ =? typeDir then lookupGo a ino cs' else Ok 0
      | None => Ok 0
      end
  end.
Definition lookupPath (a : ancestry) (path : string) : result ioerr Z := lookupGo a rootIno (Split (TrimPrefix path "/") "/").

Definition addDir (ino : Z) (out : gset Z) : gset Z := if ino =? 0 then out else {[ino]} ∪ out.

(** One grant that was not cached. *)
Definition lookupMissing (out : gset Z) (g : string) : SM gstate ioerr (gset Z) :=
  s ← sm_get;
  ino ← sm_lift (lookupPath (g_anc s) g);
  sm_modify (fun s => mkG (g_anc s) (g_epoch s) (g_key s) (Some (<[g := ino]> (default ∅ (g_dirs s))))) ≫= fun _ =>
  mret (addDir ino out).

Definition grantedDirs (grants : list string) : SM gstate ioerr (gset Z) :=
  sm_modify (fun s => mkG (g_anc s) (g_epoch s) (curKey s) (Some (freshDirs s))) ≫= fun _ =>
  s ← sm_get;
  let cached g := default ∅ (g_dirs s) !! g in
  let out := foldl (fun out g => match cached g with Some ino => addDir ino out | None => out end) ∅ grants in
  mfold lookupMissing out (List.filter (fun g => negb (bool_decide (is_Some (cached g)))) grants).

(** [d], or a directory above it, is granted. *)
Fixpoint coveredGo (k : nat) (granted : gset Z) (d : Z) : SM ancestry ioerr bool :=
  match k with
  | O => sm_err IOErr
  | Datatypes.S k' =>
      if d =? rootIno then mret false
      else if bool_decide (d ∈ granted) then mret true
      else p ← parentOfDir side d; coveredGo k' granted p
  end.
Definition covered (granted : gset Z) (d : Z) : SM ancestry ioerr bool := coveredGo maxWalk granted d.

(** ** The check *)
Abbreviation M := (SM gstate Denial).
Definition notGranted (proj : Z) : Denial := mkDenial ReasonNotGranted proj "" "" 0.
Definition orDenied {A} (proj : Z) (m : SM ancestry ioerr A) : M A := fun s =>
  let '(r, a) := m (g_anc s) in
  (match r with Ok x => Ok x | Err _ => Err (notGranted proj) end, setGAnc a s).

Definition dirCovered (granted : gset Z) (d : Z) : M unit :=
  ok ← orDenied d (covered granted d); if ok : bool then mret tt else sm_err (notGranted d).

Definition inScope (granted : gset Z) (loc : location) : M unit :=
  match l_kind loc with
  | nsDerivatives => mret tt
  | nsProject => dirCovered granted (l_proj loc)
  | nsRoot => dirCovered granted (l_dir loc)
  | nsTrash | nsUnknown => sm_err (notGranted 0)
  end.

Definition checkQuota (granted : gset Z) (dir : Z) : M unit :=
  loc ← orDenied 0 (resolveDir side dir);
  if bool_decide (l_kind loc = nsRoot) then dirCovered granted dir else inScope granted loc.

Definition checkRow (granted : gset Z) (own : list Z) (r : statRow) : M unit :=
  if gc r || bool_decide (r_dir r ∈ own) then mret tt
  else
    loc ← orDenied 0 (resolveDir side (r_dir r));
    if negb (bool_decide (l_kind loc = nsRoot)) then inScope granted loc
    else if negb (quotaUsage r) then mret tt
    else dirCovered granted (r_dir r).

Definition checkRestore (granted : gset Z) (op : dentryOp) : M unit :=
  if negb (o_trash op) || negb (o_del op) then mret tt
  else match trashEntryParent (o_name op) with
       | Some parent => dirCovered granted parent
       | None => sm_err (notGranted 0)
       end.

Definition placeGranted (p : Principal) (u : Unit) (f : unitFacts) : M (list location) := fun s =>
  let '(r, a) := placeUnit side placeGrant p u f (g_anc s) in
  (match r with Ok (locs, _) => Ok locs | Err d => Err (notGranted (DProj d)) end, setGAnc a s).

Definition dirsOrDenied (grants : list string) : M (gset Z) := fun s =>
  let '(r, s') := grantedDirs grants s in
  (match r with Ok x => Ok x | Err _ => Err (notGranted 0) end, s').

Definition grantCheck (p : Principal) (u : Unit) (f : unitFacts) : M unit :=
  match UPerson u with
  | None => sm_err (notGranted 0)
  | Some person =>
      if negb (bool_decide (unresolvable f = [])) then sm_err (notGranted 0)
      else
        granted ← dirsOrDenied (Grants person);
        mfor (quota f) (checkQuota granted) ≫= fun _ =>
        mfor (statRows f) (checkRow granted (inodes f)) ≫= fun _ =>
        if dirStatOnly f then mret tt
        else
          locs ← placeGranted p u f;
          mfor locs (inScope granted) ≫= fun _ =>
          mfor (dentries f) (checkRestore granted)
  end.

(** The unit may change what a grant path names. *)
Fixpoint touchesRootGo (ops : list dentryOp) : SM ancestry ioerr bool :=
  match ops with
  | [] => mret false
  | op :: ops' =>
      if o_trash op then touchesRootGo ops'
      else fun a =>
        match resolveDir side (o_dir op) a with
        | (Err _, a') => (Ok true, a')
        | (Ok loc, a') => if bool_decide (l_kind loc = nsRoot) then (Ok true, a') else touchesRootGo ops' a'
        end
  end.
Definition touchesRoot (f : unitFacts) : SM ancestry ioerr bool := touchesRootGo (dentries f).
End ops.
