(* ===== verification/GrantsFacts.v ===== *)
(** * Theorems of the person grants

    [below T d g] says that directory [d] is [g] or inside it.  A unit that
    [grantCheck] admits touches only places below a directory that a grant of
    the person names, and the shared derivatives. *)

From S2P Require Import Prelude GoLib Resp Classify ClassifyFacts Policy Guard GuardCheck TxnUnit Ancestry AncestryFacts GuardTheorems AncestryTheorems Place PlaceFacts PlaceInv PlaceTheorems PlaceExamples Grants.

Inductive below (T : gmap Z Z) : Z -> Z -> Prop :=
  | below_refl d : below T d d
  | below_up d p g : T !! d = Some p -> below T p g -> below T d g.

Lemma below_trans T x y z : below T x y -> below T y z -> below T x z.
Proof. induction 1; [done|]. intros. eapply below_up; eauto. Qed.
Lemma path_below T d l x : path T d l -> x ∈ l -> below T d x.
Proof.
  induction 1 as [|d q l Hn Hd Ht Hp IH]; intros Hx.
  - apply list_elem_of_singleton in Hx as ->. constructor.
  - apply elem_of_cons in Hx as [->|Hx]; [constructor|]. eapply below_up; [done|auto].
Qed.

Section grants.
Context (side : sideDoer) (T : gmap Z Z) (a : ancestry) (Hpb : placeable side T a).

(** Directory [x] is what a grant of [gs] names now. *)
Definition granted_dir (gs : list string) (x : Z) : Prop := exists path, path ∈ gs /\ lookupPath side a path = Ok x /\ x <> 0.
Definition under_grant (gs : list string) (d : Z) : Prop := exists g, granted_dir gs g /\ below T d g.
(** Directory [d] is in the shared derivatives. *)
Definition shared (d : Z) : Prop := exists l, located T a d l /\ l_kind l = nsDerivatives.

(** What the cached directories promise. *)
Definition cache_ok (s : gstate) : Prop :=
  forall path ino, freshDirs s !! path = Some ino -> lookupPath side a path = Ok ino.

Definition allowed (gs : list string) (l : location) : Prop :=
  match l_kind l with
  | nsDerivatives => True
  | nsProject => under_grant gs (l_proj l)
  | nsRoot => under_grant gs (l_dir l)
  | nsTrash | nsUnknown => False
  end.

Definition GG (s : gstate) : Prop := good side T a (g_anc s).

Lemma lookupGo_shape b cs : forall d, VShape b = VShape a -> lookupGo side b d cs = lookupGo side a d cs.
Proof.
  induction cs as [|c cs IH]; intros d HV; [done|]. cbn. rewrite (entryAt_shape side a b d c HV).
  destruct (entryAt side a d c) as [[[ino t]|]|]; cbn; [|done..]. case_match; [by apply IH|done].
Qed.
Lemma lookupPath_shape b path : VShape b = VShape a -> lookupPath side b path = lookupPath side a path.
Proof. apply lookupGo_shape. Qed.

(** ** The granted directories *)
Definition found (gs : list string) (out : gset Z) : Prop := forall x, x ∈ out -> granted_dir gs x.
Lemma addDir_found gs path ino out : path ∈ gs -> lookupPath side a path = Ok ino -> found gs out -> found gs (addDir ino out).
Proof.
  intros Hp Hl Ho x. unfold addDir. destruct (Z.eqb_spec ino 0) as [|Hn]; [apply Ho|].
  intros [->%elem_of_singleton|Hx]%elem_of_union; [by exists path|by apply Ho].
Qed.

Lemma lookups_found gs l : forall out s r s', l ⊆ gs -> GG s -> found gs out -> mfold (lookupMissing side) out l s = (Ok r, s') ->
  GG s' /\ found gs r.
Proof.
  induction l as [|g l IH]; intros out s r s' Hl Hs Ho Hr; cbn [mfold] in Hr; [by injection Hr as <- <-|].
  apply sm_bind_Ok in Hr as (out1 & s1 & H1 & Hr). unfold lookupMissing in H1.
  apply sm_bind_Ok in H1 as (? & ? & [= <- <-] & H1). apply sm_bind_Ok in H1 as (ino & s2 & H2 & H1).
  unfold sm_lift in H2. injection H2 as H2 <-. apply sm_bind_Ok in H1 as ([] & s3 & [= <-] & H1). injection H1 as <- <-.
  rewrite lookupPath_shape in H2 by apply Hs.
  eapply IH; [by eapply tail_subset| |by eapply addDir_found, Ho; [apply Hl, list_elem_of_here|]|exact Hr]. exact Hs.
Qed.

Lemma dirsOrDenied_spec gs s gr s' : GG s -> cache_ok s -> dirsOrDenied side gs s = (Ok gr, s') -> GG s' /\ found gs gr.
Proof.
  intros Hs Hc Hr. unfold dirsOrDenied in Hr. destruct (grantedDirs side gs s) as [[x|] s1] eqn:E; [|discriminate].
  injection Hr as -> ->. unfold grantedDirs in E. apply sm_bind_Ok in E as ([] & s2 & [= <-] & E).
  apply sm_bind_Ok in E as (? & ? & [= <- <-] & E). cbn [g_dirs from_option] in E.
  refine (lookups_found gs _ _ _ _ _ _ _ _ E); [|exact Hs|].
  - intros x Hx. by apply list_elem_of_In, filter_In in Hx as [Hx%list_elem_of_In _].
  - assert (Hf : forall l out, l ⊆ gs -> found gs out ->
      found gs (foldl (fun out g => match freshDirs s !! g with Some ino => addDir ino out | None => out end) out l)).
    { induction l as [|g l IH]; intros out Hl Ho; [done|]. cbn. apply IH; [by eapply tail_subset|].
      destruct (freshDirs s !! g) as [ino|] eqn:Ei; [|done]. eapply addDir_found; [apply Hl, list_elem_of_here|by apply Hc|done]. }
    apply Hf; [done|]. intros x Hx. by apply elem_of_empty in Hx.
Qed.

(** ** Coverage *)
Section covered.
Context (gs : list string) (gr : gset Z) (Hgr : found gs gr).

Lemma coveredGo_spec k : forall d b r b', is_u64 d -> good side T a b -> coveredGo side k gr d b = (Ok r, b') ->
  good side T a b' /\ (r = true -> under_grant gs d).
Proof using Hgr Hpb.
  induction k as [|k IH]; intros d b r b' Hu Hb Hr; cbn [coveredGo] in Hr; [discriminate|].
  destruct (Z.eqb_spec d rootIno) as [->|Hd]; [by injection Hr as <- <-|].
  case_bool_decide as Hin; [injection Hr as <- <-; split; [done|]; intros _; exists d; split; [by apply Hgr|constructor]|].
  apply sm_bind_Ok in Hr as (q & b1 & Hp & Hr). pose proof (parentOfDir_files side d b) as Hfl. rewrite Hp in Hfl. cbn in Hfl.
  destruct Hb as (HV & [Hco Hso] & Hfi). apply (parentOfDir_spec side T) in Hp as (HT & Hco1 & HV1 & _); [|done..].
  apply IH in Hr as [Hb' Hcov]; [|by eapply (pb_wf _ _ _ Hpb)|].
  - split; [done|]. intros Ht. destruct (Hcov Ht) as (g & Hg & Hbl). exists g. split; [done|]. by eapply below_up.
  - split_and!; [congruence|split; [done|by eapply side_ok_shape]|by rewrite Hfl].
Qed.

(** A step of the check: on success the state stays good and [Q] holds. *)
Definition gives {A} (m : SM gstate Denial A) (Q : A -> Prop) : Prop := forall s x s', GG s -> m s = (Ok x, s') -> GG s' /\ Q x.
Lemma gives_ret {A} (x : A) (Q : A -> Prop) : Q x -> gives (mret x) Q.
Proof. intros HQ s y s' Hs [= <- <-]. done. Qed.
Lemma gives_err {A} d (Q : A -> Prop) : gives (sm_err d) Q.
Proof. by intros s y s' Hs [=]. Qed.
Lemma gives_bind {A B} (m : SM gstate Denial A) (k : A -> SM gstate Denial B) P Q :
  gives m P -> (forall x, P x -> gives (k x) Q) -> gives (m ≫= k) Q.
Proof. intros Hm Hk s y s' Hs (x & s1 & H1 & H2)%sm_bind_Ok. apply Hm in H1 as [? ?]; [|done]. by eapply Hk. Qed.
Lemma gives_orDenied {A} proj (m : SM ancestry ioerr A) (Q : A -> Prop) :
  (forall b x b', good side T a b -> m b = (Ok x, b') -> good side T a b' /\ Q x) -> gives (orDenied proj m) Q.
Proof.
  intros Hm s y s' Hs Hr. unfold orDenied in Hr. destruct (m (g_anc s)) as [[x|] b'] eqn:E; [|discriminate].
  injection Hr as <- <-. by apply (Hm (g_anc s)).
Qed.
Lemma gives_mfor {A} (l : list A) body (Q : A -> Prop) : (forall x, x ∈ l -> gives (body x) (fun _ => Q x)) ->
  gives (mfor l body) (fun _ => forall x, x ∈ l -> Q x).
Proof.
  induction l as [|x l IH]; intros H; cbn; [apply gives_ret; intros x Hx; by apply elem_of_nil in Hx|].
  eapply gives_bind; [apply H, list_elem_of_here|]. intros [] Hx s y s' Hs Hr.
  apply IH in Hr as [Hs' Hl]; [|intros z Hz; by apply H, list_elem_of_further|done].
  split; [done|]. intros z [->|Hz]%elem_of_cons; [done|by apply Hl].
Qed.

Lemma dirCovered_gives d : is_u64 d -> gives (dirCovered side gr d) (fun _ => under_grant gs d).
Proof using Hgr Hpb.
  intros Hu. eapply (gives_bind _ _ (fun ok => ok = true -> under_grant gs d)).
  - apply gives_orDenied. intros b x b' Hb Hr. by eapply coveredGo_spec.
  - intros [|] Hok; [apply gives_ret; by apply Hok|apply gives_err].
Qed.

Lemma inScope_gives l : loc_u64 l -> gives (inScope side gr l) (fun _ => allowed gs l).
Proof using Hgr Hpb.
  intros [H1 H2]. unfold inScope, allowed. destruct (l_kind l); try apply gives_err; try by apply dirCovered_gives. by apply gives_ret.
Qed.

(** A directory whose location is allowed is granted, or shared. *)
Lemma located_allowed d l : located T a d l -> allowed gs l -> under_grant gs d \/ shared d.
Proof using Hpb.
  intros Hl Ha. pose proof Hl as Hl0. destruct Hl as [H1|H1|q H1 H2 H3|H1 H2]; [done|subst; by left| |done].
  unfold path_loc in Ha, Hl0. destruct (Z.of_nat (length q) - 1 <? depth a) eqn:Ed; [by left|]. apply Z.ltb_ge in Ed.
  unfold projectLoc, allowed in *. destruct (isDerivRoot a _) eqn:Er; cbn in Ha; [right; eexists; split; [exact Hl0|done]|].
  destruct Ha as (g & Hg & Hb). left. exists g. split; [done|]. eapply below_trans; [|exact Hb].
  destruct (rev q !! Z.to_nat (depth a)) as [x|] eqn:Ex.
  - cbn. eapply path_below; [exact H3|]. by apply list_elem_of_lookup_2, list_elem_of_In, in_rev, list_elem_of_In in Ex.
  - apply lookup_ge_None in Ex. rewrite length_rev in Ex.
    assert (1 <= depth a) by apply (pb_servable _ _ _ Hpb). lia.
Qed.

Lemma resolve_gives proj d : is_u64 d -> gives (orDenied proj (resolveDir side d)) (fun l => located T a d l /\ loc_u64 l).
Proof using Hpb.
  intros Hu. apply gives_orDenied. intros b l b' Hb Hr. apply (resolveDir_good side T a) in Hr as [? ?]; [|apply Hpb|done..].
  split_and!; [done|done|]. by eapply located_u64; [apply Hpb| |].
Qed.
Lemma checkQuota_gives d : is_u64 d -> gives (checkQuota side gr d) (fun _ => under_grant gs d \/ shared d).
Proof using Hgr Hpb.
  intros Hu. eapply gives_bind; [by apply resolve_gives|]. intros l [Hl Hlu] s [] s' Hs Hr. case_bool_decide.
  - apply dirCovered_gives in Hr as [? ?]; [|done..]. eauto.
  - apply inScope_gives in Hr as [? ?]; [|done..]. split; [done|]. by eapply located_allowed.
Qed.
Lemma checkRow_gives own r : is_u64 (r_dir r) -> gives (checkRow side gr own r) (fun _ => True).
Proof using Hgr Hpb.
  intros Hu. unfold checkRow. case_match; [by apply gives_ret|]. eapply gives_bind; [by apply resolve_gives|]. intros l [Hl Hlu] s [] s' Hs Hr.
  split; [|done]. case_match.
  - by apply inScope_gives in Hr as [? _].
  - case_match; [by injection Hr as <-|]. by apply dirCovered_gives in Hr as [? _].
Qed.
Lemma trashEntryParent_u64 name dir : trashEntryParent name = Some dir -> is_u64 dir.
Proof.
  unfold trashEntryParent. destruct (IndexByte name "-") as [[|i]|]; try discriminate.
  destruct (IndexByte _ "-") as [[|j]|]; try discriminate. destruct (digits (stake (Datatypes.S j) _)); [|discriminate]. cbn [mbind option_bind].
  destruct (digits (stake (Datatypes.S i) name)) eqn:E; [|discriminate]. cbn. case_match; [discriminate|]. intros [= <-].
  by apply digits_Some in E as [? _].
Qed.
Lemma checkRestore_gives op : gives (checkRestore side gr op)
  (fun _ => o_trash op = true -> o_del op = true -> exists dir, trashEntryParent (o_name op) = Some dir /\ under_grant gs dir).
Proof using Hgr Hpb.
  unfold checkRestore. case_match eqn:E; [apply gives_ret; intros Ht Hd; by rewrite Ht, Hd in E|].
  destruct (trashEntryParent (o_name op)) as [dir|] eqn:Ep; [|apply gives_err]. intros s [] s' Hs Hr.
  apply dirCovered_gives in Hr as [? ?]; [eauto|by eapply trashEntryParent_u64|done].
Qed.
Lemma placeGranted_gives p u f : facts_wf f -> gives (placeGranted side p u f)
  (fun locs => exists pl, placed_ok side T a placeGrant p u f pl /\ pg_locs pl = locs).
Proof using Hpb.
  intros Hwf s locs s' Hs Hr. unfold placeGranted in Hr. destruct (placeUnit side placeGrant p u f (g_anc s)) as [[[ls unl]|] b] eqn:E; [|discriminate].
  injection Hr as -> <-. apply (placeUnit_spec side T a Hpb (g_anc s) Hs placeGrant p u f Hwf) in E as (pl & Hok & <- & <-).
  split; [|by exists pl]. apply (sp_inv _ _ _ _ _ _ (po_settled _ _ _ _ _ _ _ _ Hok)).
Qed.
End covered.
End grants.


(** ** Examples *)
Module GrantExamples.
Import GuardExamples TreeExamples PlaceExamples.
Definition person (gs : list string) : Person := mkPerson "p1" "" true gs.
Definition of_person (q : Person) (u : Unit) : Unit :=
  mkUnit (UKind u) (DB u) (Cmds u) (Watched u) (Writes u) (Project u) (RefInodes u) (Some q) (TrashAlloc u) (inodeOwner u) (inodeMark u)
    (upstreamID u) (beforeSide u) (rewrite_ u) (UMode u) (ConnID u) (UpstreamNameOf u) (unassigned u).
(** The owner of /top/proj removes a.txt from it. *)
Definition unlinkP : Unit := of_person (person ["/top/proj"]) unlink.
Definition s0 : gstate := newGrants a0.
Definition after : gstate := snd (grantCheck side1 mac unlinkP (analyzeUnit unlinkP) s0).
Lemma unlinkP_admitted : grantCheck side1 mac unlinkP (analyzeUnit unlinkP) s0 = (Ok tt, after).
Proof. vm_compute. reflexivity. Qed.
Lemma unlinkP_wf : facts_wf (analyzeUnit unlinkP).
Proof. apply analyzeUnit_wf. split; [apply (PlaceRuns.forall_u64 (fun w => Ino (KWKey w)))|apply (PlaceRuns.forall_u64 id)]; vm_compute; reflexivity. Qed.
Lemma fresh0 : cache_ok side1 a0 s0.
Proof. intros path ino H. exfalso. revert H. vm_compute. destruct path; discriminate. Qed.
Definition removing : dentryOp := mkOp 3 "a.txt" true "" 0 0 false false.
Lemma removing_in : removing ∈ dentries (analyzeUnit unlinkP).
Proof. apply (list_elem_of_lookup_2 _ 0%nat). vm_compute. reflexivity. Qed.
(** A write of the attributes of the volume's root directory. *)
Definition chmodRoot : Unit := placed_unit [["SET"; "i1"; attr 2 1]].
End GrantExamples.


(** The attributes of the root directory are open to everyone.  The root
    has no parents, so a unit that writes i1 has no location: the grant check
    admits it for a person without a single grant, and placement returns
    nothing for the lease rules to look at. *)
Theorem root_attributes_are_open side md p s :
  let u := GrantExamples.of_person (GrantExamples.person []) GrantExamples.chmodRoot in
  fst (grantCheck side p u (analyzeUnit u) s) = Ok tt /\
  fst (placeUnit side md p u (analyzeUnit u) (g_anc s)) = Ok ([], []).
Proof.
  cbv zeta. set (u := GrantExamples.of_person _ _). set (f := analyzeUnit u).
  assert (Hf : f = mkFacts [] [] [1] {[1 := "SET i1"]} {[1 := mkAttr 2 1]} ∅ "" [] [] [] false [] [1]) by (vm_compute; reflexivity).
  rewrite Hf. clear. split; [reflexivity|destruct md; reflexivity].
Qed.
