(* ===== verification/SmartView.v ===== *)
(** * Smart-folder views (internal/respproxy/smartview.go)

    The Manager may remove an empty view directory that it created directly
    under one of its smart-folder roots.  [smartViewRemoval] recognises that
    unit, [smartViewCreation] the unit that creates a view, and the record of
    views is a set in Redis with a mirror in memory.  The texts of refusals
    and the log entries are left out.  [rmdirCmdKey] joins a command and its
    quoted arguments into one string to compare them; here a command is
    compared as the list of its strings. *)

From S2P Require Import Prelude GoLib Resp Classify Policy Guard GuardCheck TxnUnit Ancestry.

Definition SmartViewsKey : string := "jmlease:v1:smartviews".
Definition smartViewSkew : Z := 3600.

(** [CleanSmartRoots]; [valid] is smartfolders.ValidateRootName. *)
Definition CleanSmartRoots (valid : string -> bool) (names : list string) : list string :=
  foldl (fun ok n => if negb (valid n) then ok else if existsb (EqualFold n) ok then ok else ok ++ [n]) [] names.

Definition smartViewDirStatHashes : list string :=
  ["dirDataLength"; "dirUsedSpace"; "dirUsedInodes"; "dirQuota"; "dirQuotaUsedSpace"; "dirQuotaUsedInodes"].

Definition attrTimesFrom : nat := 23.
Definition attrNlinkAt : nat := 47.
Definition attrNlinkEnd : nat := 51.
Definition attrMinLen : Z := 72.

(** The commands of juicefs's rmdir of [name] in directory [pd], inode [nd],
    apart from the SET of the parent's attribute. *)
Definition rmdirWant (pd nd name : string) : list (list string) :=
  [["HDEL"; "d" +:+ pd; name]; ["DEL"; "i" +:+ nd]; ["DEL"; "x" +:+ nd]; ["INCRBY"; "usedSpace"; "-4096"]; ["DECR"; "totalInodes"]] ++
  ((fun h => ["HDEL"; h; nd]) <$> smartViewDirStatHashes).

(** [want[k]--], [None] when it is not wanted (any more). *)
Fixpoint strike (k : list string) (want : list (list string)) : option (list (list string)) :=
  match want with
  | [] => None
  | w :: want' => if decide (w = k) then Some want' else (cons w) <$> strike k want'
  end.

Definition isSetAttr (pd : string) (c : Cmd) : option string :=
  match Args c with
  | [_; k; v] => if (cname c =s "SET") && (k =s ("i" +:+ pd)) then Some v else None
  | _ => None
  end.

Definition cmdKey (c : Cmd) : list string := cname c :: drop 1 (Args c).

(** The loop over the commands: what is still wanted, and the new attribute. *)
Definition rmdirStep (pd : string) (acc : list (list string) * option string) (c : Cmd) : option (list (list string) * option string) :=
  let '(want, attr) := acc in
  match isSetAttr pd c, attr with
  | Some v, None => Some (want, Some v)
  | _, _ => (fun w => (w, attr)) <$> strike (cmdKey c) want
  end.

(** A loop that may return early. *)
Fixpoint ofold {A B} (f : B -> A -> option B) (b : B) (l : list A) : option B :=
  match l with
  | [] => Some b
  | x :: l' => match f b x with Some b' => ofold f b' l' | None => None end
  end.

Definition rmdirAttr (pd nd name : string) (cmds : list Cmd) : option string :=
  match ofold (rmdirStep pd) (rmdirWant pd nd name, None) cmds with
  | Some ([], attr) => attr
  | _ => None
  end.

(** [next] is [old] with one link less and new times. *)
Definition rmdirParentAttr (old next : string) : bool :=
  if (slen old <? attrMinLen) || negb (slen next =? slen old) then false
  else if negb (stake attrTimesFrom old =s stake attrTimesFrom next) || negb (sdrop attrNlinkEnd old =s sdrop attrNlinkEnd next) then false
  else
    let was := be_fold 0 (sub old attrNlinkAt attrNlinkEnd) in
    (2 <? was) && (be_fold 0 (sub next attrNlinkAt attrNlinkEnd) =? was - 1).

(** The second a time.Time holds inside, for [time.Unix(s, 0)]. *)
Definition unixSec (s : Z) : Z := i64 (s + 62135596800).

(** [u.inodeOwner(n)] is [p]. *)
Definition ownedBy (p : Principal) (u : Unit) (n : Z) : bool :=
  match inodeOwner u with
  | Some owner => match owner n with Ok (Some o) => o =s PName p | _ => false end
  | None => false
  end.

Section ops.
Context (side : sideDoer) (roots : list string) (volumeDB : Z).

Definition read (args : list string) : result ioerr Value := side_reply side volumeDB args.

(** The configured root that names [dir] now. *)
Definition rootNamed (dir : Z) (el : Value) : bool :=
  negb (VNull el) &&
  match entryType (VStr el), entryInode (VStr el) with
  | Some t, Some ino => (t =? typeDir) && (ino =? dir)
  | _, _ => false
  end.
Definition smartRootOf (p : Principal) (u : Unit) (dir : Z) : option string :=
  match read (["HMGET"; "d" +:+ FormatUint rootIno] ++ roots) with
  | Ok v =>
      if negb (Nat.eqb (length (VElems v)) (length roots)) then None
      else match list_find (fun re => rootNamed dir (snd re) = true) (zip roots (VElems v)) with
           | Some (_, (root, _)) => if (root =s "") || negb (ownedBy p u dir) then None else Some root
           | None => None
           end
  | Err _ => None
  end.

Definition timeOk (now : Z) (a : string) (at_ : nat) : bool :=
  let t := unixSec (i64 (be_fold 0 (sub a at_ (at_ + 8)))) in
  (i64 (unixSec now - smartViewSkew) <=? t) && (t <=? i64 (unixSec now + smartViewSkew)).
Definition attrTimesNow (a : string) : bool :=
  match read ["TIME"] with
  | Ok v =>
      match VElems v with
      | [s; _] => let '(now, ok) := ParseInt (VStr s) in ok && timeOk now a attrTimesFrom && timeOk now a (attrTimesFrom + 12)
      | _ => false
      end
  | Err _ => false
  end.

Definition isInt (v : Value) (n : Z) : bool := Ascii.eqb (VType v) ":" && (VInt v =? n).

(** The entry, the inode and the emptiness of the view, and its parent's attribute. *)
Definition viewReads (op : dentryOp) (n : Z) (stored newAttr : string) : bool :=
  let pd := FormatUint (o_dir op) in let nd := FormatUint n in
  match read ["HGET"; "d" +:+ pd; o_name op], read ["GET"; "i" +:+ nd], read ["HLEN"; "d" +:+ nd], read ["GET"; "i" +:+ pd] with
  | Ok e, Ok i, Ok len, Ok pa =>
      negb (VNull e) && (VStr e =s stored) &&
      negb (VNull i) && (match parseAttr (VStr i) with Some a => (a_typ a =? typeDir) && (a_parent a =? o_dir op) | None => false end) &&
      isInt len 0 && negb (VNull pa) && rmdirParentAttr (VStr pa) newAttr
  | _, _, _, _ => false
  end.

Definition viewRecorded (n : Z) : bool :=
  match read ["SISMEMBER"; SmartViewsKey; FormatUint n] with Ok v => isInt v 1 | Err _ => false end.

(** [Some (n, root)]: the unit is the removal of view [n] of [root]. *)
Definition smartViewRemoval (p : Principal) (u : Unit) (op : dentryOp) (stored : string) : option (Z * string) :=
  if negb (bool_decide (PKind p = KindManager)) || bool_decide (roots = []) ||
     negb (bool_decide (UKind u = UnitTxn)) || negb (DB u =? volumeDB) || negb (o_del op) || o_trash op then None
  else
    n ← entryInode stored;
    let pd := FormatUint (o_dir op) in let nd := FormatUint n in
    newAttr ← rmdirAttr pd nd (o_name op) (Cmds u);
    if negb (forallb (fun k => bool_decide (k ∈ Watched u)) ["i" +:+ pd; "d" +:+ pd; "i" +:+ nd; "d" +:+ nd]) then None
    else match beforeSide u with
         | Some (Ok _) =>
             root ← smartRootOf p u (o_dir op);
             if viewReads op n stored newAttr && attrTimesNow newAttr && ownedBy p u n && viewRecorded n
             then Some (n, root) else None
         | _ => None
         end.

(** [Some n]: once committed, [n] is a view. *)
Definition smartViewCreation (p : Principal) (u : Unit) (f : unitFacts) : SM ancestry ioerr (option Z) :=
  match dentries f with
  | [op] =>
      if bool_decide (roots = []) || negb (DB u =? volumeDB) || o_del op || o_trash op || negb (o_isDir op) then mret None
      else match setAttr f !! o_ino op with
           | Some a =>
               if negb (a_typ a =? typeDir) || negb (a_parent a =? o_dir op) then mret None
               else fun s =>
                 match resolveDir side (o_dir op) s with
                 | (Ok loc, s') =>
                     (Ok (if negb (bool_decide (l_kind loc = nsRoot)) || negb (l_depth loc =? 1) then None
                          else match smartRootOf p u (o_dir op) with
                               | Some _ =>
                                   if negb (ownedBy p u (o_ino op)) then None
                                   else match read ["EXISTS"; "i" +:+ FormatUint (o_ino op)] with
                                        | Ok v => if VInt v =? 0 then Some (o_ino op) else None
                                        | Err _ => None
                                        end
                               | None => None
                               end), s')
                 | (Err _, s') => (Ok None, s')
                 end
           | None => mret None
           end
  | _ => mret None
  end.
End ops.

(** ** The record of views *)
Record views : Type := mkViews { sv_record : gset Z; sv_mirror : gset Z }.

(** [applied], [acked]: whether Redis ran the command and answered. *)
Definition addSmartView (applied acked : bool) (n : Z) (s : views) : views :=
  mkViews (if applied then {[n]} ∪ sv_record s else sv_record s) (if acked then {[n]} ∪ sv_mirror s else sv_mirror s).
Definition dropSmartView (applied acked : bool) (n : Z) (s : views) : views :=
  mkViews (if applied then sv_record s ∖ {[n]} else sv_record s) (if acked then sv_mirror s ∖ {[n]} else sv_mirror s).

(** The inodes whose entry [unlinked] goes, or whose attribute the unit deletes. *)
Definition leavingViews (u : Unit) (unlinked : list Z) : list Z :=
  unlinked ++ omap (M := list) (fun w =>
    if (Shape (KWKey w) =s ShapeInode) && HasIno (KWKey w) && bool_decide (cname (wcmd u w) ∈ ["DEL"; "UNLINK"; "GETDEL"]) then Some (Ino (KWKey w)) else None) (Project u).
Definition forgetSmartViews (fates : Z -> bool * bool) (u : Unit) (unlinked : list Z) (s : views) : views :=
  foldl (fun s n => dropSmartView (fst (fates n)) (snd (fates n)) n s) s
    (List.filter (fun n => bool_decide (n ∈ sv_mirror s)) (leavingViews u unlinked)).
