(* ===== verification/SmartViewFacts.v ===== *)
(** * Theorems of the smart-folder views

    The exception to the root-entry gate is exact: a unit it lets through is
    juicefs's rmdir of an empty, recorded view of the Manager's own, command
    for command, under a WATCH of everything it reads. *)

From S2P Require Import Prelude GoLib Resp Classify Policy Guard GuardCheck GuardTheorems TxnUnit Ancestry AncestryTheorems SmartView.

Lemma strike_perm k want want' : strike k want = Some want' -> want ≡ₚ k :: want'.
Proof.
  revert want'. induction want as [|w want IH]; intros want' H; [discriminate|]. cbn in H. case_decide as E; [by simplify_eq|].
  destruct (strike k want) as [l|]; [|discriminate]. injection H as <-. rewrite (IH l eq_refl). constructor.
Qed.

Lemma isSetAttr_key pd c v : isSetAttr pd c = Some v -> cmdKey c = ["SET"; "i" +:+ pd; v].
Proof.
  unfold isSetAttr, cmdKey. destruct (Args c) as [|x [|k [|v' [|]]]]; try discriminate.
  destruct ((cname c =s "SET") && (k =s ("i" +:+ pd))) eqn:E; [|discriminate]. intros [= ->].
  apply andb_prop in E as [->%eqs_true ->%eqs_true]. done.
Qed.

(** The SET that the loop took for the parent's attribute. *)
Definition taken (pd : string) (before after : option string) : list (list string) :=
  match before, after with None, Some v => [["SET"; "i" +:+ pd; v]] | _, _ => [] end.

Lemma rmdirStep_perm pd w at_ c w' at' : rmdirStep pd (w, at_) c = Some (w', at') ->
  (at_ <> None -> at' = at_) /\ w ++ taken pd at_ at' ≡ₚ cmdKey c :: w'.
Proof.
  unfold rmdirStep. destruct (isSetAttr pd c) as [v|] eqn:Es.
  - destruct at_ as [x|]; cbn; [|intros [= <- <-]; split; [done|]; rewrite (isSetAttr_key _ _ _ Es); cbn; by rewrite (Permutation_app_comm w)].
    destruct (strike (cmdKey c) w) as [l|] eqn:E; [|discriminate]. intros [= <- <-]. split; [done|]. rewrite app_nil_r. by apply strike_perm.
  - destruct (strike (cmdKey c) w) as [l|] eqn:E; [|by destruct at_]. assert (E' := strike_perm _ _ _ E). intros H.
    assert (w' = l /\ at' = at_) as [-> ->] by (destruct at_; cbn in H; by simplify_eq). split; [done|]. destruct at_; cbn; by rewrite app_nil_r.
Qed.

Lemma rmdirLoop_perm pd cmds : forall w at_ w' at',
  ofold (rmdirStep pd) (w, at_) cmds = Some (w', at') ->
  (at_ <> None -> at' = at_) /\ w ++ taken pd at_ at' ≡ₚ (cmdKey <$> cmds) ++ w'.
Proof.
  induction cmds as [|c cmds IH]; intros w at_ w' at' H; cbn [ofold] in H.
  { simplify_eq. split; [done|]. destruct at'; cbn; by rewrite app_nil_r. }
  destruct (rmdirStep pd (w, at_) c) as [[w1 at1]|] eqn:E; [|discriminate].
  apply rmdirStep_perm in E as [K1 P1]. apply IH in H as [K2 P2]. split.
  - intros Hn. rewrite <- (K1 Hn). apply K2. by rewrite (K1 Hn).
  - cbn. rewrite <- P2. rewrite app_comm_cons. rewrite <- P1. rewrite <- app_assoc. f_equiv.
    destruct at_ as [x|]; [by rewrite (K1 ltac:(done)), (K2 ltac:(by rewrite K1)), (K1 ltac:(done))|].
    destruct at1 as [x|]; cbn; [|done]. by rewrite (K2 ltac:(done)).
Qed.

Lemma rmdirAttr_perm pd nd name cmds v : rmdirAttr pd nd name cmds = Some v ->
  (cmdKey <$> cmds) ≡ₚ ["SET"; "i" +:+ pd; v] :: rmdirWant pd nd name.
Proof.
  unfold rmdirAttr. destruct (ofold _ _ cmds) as [[[|x w] at']|] eqn:E; try discriminate. intros ->.
  apply rmdirLoop_perm in E as [_ P]. rewrite app_nil_r in P. rewrite <- P. cbn [taken]. by rewrite Permutation_app_comm.
Qed.

(** What the reads of the removal of view [n] from [op]'s directory show. *)
Record view_removal (side : sideDoer) (roots : list string) (db : Z) (p : Principal) (u : Unit) (op : dentryOp) (stored : string) (n : Z)
    (root : string) : Prop := {
  vr_manager : PKind p = KindManager;
  vr_root : root ∈ roots /\ smartRootOf side roots db p u (o_dir op) = Some root /\ ownedBy p u (o_dir op) = true;
  vr_entry : entryInode stored = Some n /\ exists v, read side db ["HGET"; "d" +:+ FormatUint (o_dir op); o_name op] = Ok v /\ VStr v = stored;
  vr_dir : exists v a, read side db ["GET"; "i" +:+ FormatUint n] = Ok v /\ parseAttr (VStr v) = Some a /\ a_typ a = typeDir /\ a_parent a = o_dir op;
  vr_empty : exists v, read side db ["HLEN"; "d" +:+ FormatUint n] = Ok v /\ VInt v = 0;
  vr_view : ownedBy p u n = true /\ viewRecorded side db n = true;
  vr_watched : forall k, k ∈ ["i" +:+ FormatUint (o_dir op); "d" +:+ FormatUint (o_dir op); "i" +:+ FormatUint n; "d" +:+ FormatUint n] -> k ∈ Watched u;
  vr_commands : exists attr, (cmdKey <$> Cmds u) ≡ₚ
    ["SET"; "i" +:+ FormatUint (o_dir op); attr] :: rmdirWant (FormatUint (o_dir op)) (FormatUint n) (o_name op) /\
    exists v, read side db ["GET"; "i" +:+ FormatUint (o_dir op)] = Ok v /\ rmdirParentAttr (VStr v) attr = true;
}.

Lemma smartRootOf_in side roots db p u dir root : smartRootOf side roots db p u dir = Some root -> root ∈ roots /\ ownedBy p u dir = true.
Proof.
  unfold smartRootOf. destruct (read _ _ _) as [v|]; [|discriminate]. case_match; [discriminate|].
  destruct (list_find _ _) as [[i [r el]]|] eqn:E; [|discriminate]. destruct ((r =s "") || negb (ownedBy p u dir)) eqn:Eb; [discriminate|].
  intros [= <-]. apply orb_false_iff in Eb as [_ Eb%negb_false_iff]. split; [|done].
  apply list_find_Some in E as (E & _ & _). by eapply elem_of_zip_l, list_elem_of_lookup_2.
Qed.

Lemma viewReads_spec side db op n stored attr : viewReads side db op n stored attr = true ->
  (exists v, read side db ["HGET"; "d" +:+ FormatUint (o_dir op); o_name op] = Ok v /\ VStr v = stored) /\
  (exists v a, read side db ["GET"; "i" +:+ FormatUint n] = Ok v /\ parseAttr (VStr v) = Some a /\ a_typ a = typeDir /\ a_parent a = o_dir op) /\
  (exists v, read side db ["HLEN"; "d" +:+ FormatUint n] = Ok v /\ VInt v = 0) /\
  exists v, read side db ["GET"; "i" +:+ FormatUint (o_dir op)] = Ok v /\ rmdirParentAttr (VStr v) attr = true.
Proof.
  unfold viewReads. generalize (FormatUint n), (FormatUint (o_dir op)). intros nd pd.
  destruct (read side db ["HGET"; _; _]) as [e|]; [|discriminate]. destruct (read side db ["GET"; "i" +:+ nd]) as [i|]; [|discriminate].
  destruct (read side db ["HLEN"; _]) as [len|]; [|discriminate]. destruct (read side db ["GET"; "i" +:+ pd]) as [pa|]; [|discriminate].
  rewrite !andb_true_iff. intros ((((((_ & E1) & _) & E2) & E3) & _) & E4). unfold isInt in E3.
  destruct (parseAttr (VStr i)) as [a|] eqn:Ea; [|discriminate]. to_prop.
  split_and!; [by exists e|by exists i, a|by exists len|by exists pa].
Qed.


(** ** The Manager empties /Recents/v: inodes 7 and 30 *)
Module ViewExamples.
Import GuardExamples.
Definition manager : Principal := mkPrincipal "mgr" KindManager "".
Definition dirAttr (links parent sec : Z) : string :=
  be_bytes 1 0 +:+ be_bytes 1 32 +:+ be_bytes 21 0 +:+ be_bytes 8 sec +:+ be_bytes 4 0 +:+ be_bytes 8 sec +:+ be_bytes 4 0 +:+
  be_bytes 4 links +:+ be_bytes 12 0 +:+ be_bytes 8 parent +:+ be_bytes 1 0.
Definition str (s : string) : Value := mkValue "$" s 0 [] false.
Definition int (n : Z) : Value := mkValue ":" "" n [] false.
Definition side : sideDoer := fun _ args =>
  match args with
  | ["HMGET"; "d1"; _] => Ok (mkValue "*" "" 0 [str (entry 2 7)] false)
  | ["HGET"; "d7"; _] => Ok (str (entry 2 30))
  | ["GET"; "i30"] => Ok (str (dirAttr 2 7 100))
  | ["GET"; "i7"] => Ok (str (dirAttr 3 1 100))
  | ["HLEN"; "d30"] => Ok (int 0)
  | ["TIME"] => Ok (mkValue "*" "" 0 [str "1700000000"; str "0"] false)
  | ["SISMEMBER"; _; "30"] => Ok (int 1)
  | _ => Err IOErr
  end.
Definition op : dentryOp := mkOp 7 "v" true "" 0 0 false false.
Definition rmdir : Unit :=
  mkUnit UnitTxn 0 (map cmd (["SET"; "i7"; dirAttr 2 1 1700000001] :: rmdirWant "7" "30" "v")) ["i7"; "d7"; "i30"; "d30"] [] [] [] None 0
    (Some (fun _ => Ok (Some "mgr"))) None 0 (Some (Ok tt)) None ModeEnforce 1 "" false.
End ViewExamples.

