(* ===== verification/Decide.v ===== *)
(** * Deciding a unit (internal/respproxy/decide.go)

    [plan] is the part of Decide up to the leases: grants, placement and the
    root-entry gate, under the topology lock.  It says which projects the unit
    needs.  The lease part is a machine: each step of [ustep] is one critical
    section, between taking the fences (one reader-writer lock a project) and
    releasing them, so other units and lease commands run between two steps.
    An admitted unit keeps its fences for reading until Done.

    The audit description, statistics, log entries and test hooks are left
    out. *)

From stdpp Require Import sorting.
From S2P Require Import Prelude GoLib Resp Classify Policy Guard GuardCheck TxnUnit Ancestry Place Grants LeaseStore Leases LeaseCmd SmartView.

(** ** Refusals *)
Definition leaseDenial (e : engine) (r : Reason) (proj : Z) : Denial :=
  match leases e !! proj with
  | Some l => if held l then mkDenial r proj (ls_holder l) (ls_host l) (ls_epoch l) else mkDenial r proj "" "" 0
  | None => mkDenial r proj "" "" 0
  end.
Definition heldElsewhere (proj : Z) : Denial := mkDenial ReasonLeaseHeld proj "" "" 0.

(** ** The engine and its grant cache *)
Record dstate : Type := mkD { d_eng : engine; d_epoch : Z; d_key : Z * Z; d_dirs : option (gmap string Z) }.
Definition grantsOf (d : dstate) : gstate := mkG (anc (d_eng d)) (d_epoch d) (d_key d) (d_dirs d).
Definition setGrants (g : gstate) (d : dstate) : dstate := mkD (set_anc (g_anc g) (d_eng d)) (g_epoch g) (g_key g) (g_dirs g).
Definition setDAnc (a : ancestry) (d : dstate) : dstate := mkD (set_anc a (d_eng d)) (d_epoch d) (d_key d) (d_dirs d).

(** What a unit needs once it is placed. *)
Inductive needs : Type :=
  | NeedNone                                        (* no project *)
  | NeedStat (locs : list location) (projs : list Z)  (* dir-stat rows only *)
  | NeedLease (projs : list Z).

(** What to run when the unit committed. *)
Record planned : Type := mkPlanned {
  pn_needs : needs;
  pn_rootTouch : bool;
  pn_removal : option Z;
  pn_creation : option Z;
  pn_unlinked : list Z;
}.

(** [sort.Slice] of the keys of a set. *)
Definition sortSet (s : gset Z) : list Z := sortZ (elements s).
Definition projectsOf (locs : list location) : list Z :=
  sortSet (list_to_set (l_proj <$> List.filter (fun l => bool_decide (l_kind l = nsProject)) locs)).

Definition bypasses (p : Principal) (u : Unit) : bool :=
  bool_decide (PKind p = KindAdmin) || bool_decide (PKind p = KindBG) || bool_decide (UMode u = ModePassthrough).

Section plan.
Context (side : sideDoer) (roots : list string) (volumeDB : Z).
Abbreviation M := (SM dstate Denial).

Definition resolver {A} (m : SM ancestry ioerr A) (d : Denial) : M A := fun s =>
  let '(r, a) := m (anc (d_eng s)) in (match r with Ok x => Ok x | Err _ => Err d end, setDAnc a s).

Definition checkGrants (p : Principal) (u : Unit) (f : unitFacts) : M unit := fun s =>
  let '(r, g) := grantCheck side p u f (grantsOf s) in (r, setGrants g s).

(** Renaming or removing a directory above the project depth needs admin. *)
Definition rootEntry (p : Principal) (u : Unit) (removal : option Z) (op : dentryOp) : M (option Z) := fun s =>
  if o_trash op then (Ok removal, s)
  else
    match resolveDir side (o_dir op) (anc (d_eng s)) with
    | (Err _, a) => (Ok removal, setDAnc a s)
    | (Ok loc, a) =>
        (if negb (bool_decide (l_kind loc = nsRoot)) then Ok removal
         else match read side volumeDB ["HGET"; "d" +:+ FormatUint (o_dir op); o_name op] with
              | Err _ => Err (deny ReasonUnknownKey)
              | Ok v =>
                  if VNull v then Ok removal
                  else if negb (bool_decide (entryType (VStr v) = Some typeDir)) then Ok removal
                  else if o_del op || negb (o_val op =s VStr v) then
                    match (if o_del op && bool_decide (PKind p = KindManager)
                           then smartViewRemoval side roots volumeDB p u op (VStr v) else None) with
                    | Some (n, _) => Ok (Some n)
                    | None => Err (mkDenial ReasonAdminOnly (default 0 (entryInode (VStr v))) "" "" 0)
                    end
                  else Ok removal
              end, setDAnc a s)
    end.
Definition rootEntryGate (p : Principal) (u : Unit) (f : unitFacts) : M (option Z) := mfold (rootEntry p u) None (dentries f).

Definition checkLoc (bypass : bool) (l : location) : M unit :=
  match l_kind l with
  | nsProject | nsRoot | nsDerivatives => mret tt
  | nsTrash => if bypass then mret tt else sm_err (deny ReasonBGOnly)
  | nsUnknown => sm_err (deny ReasonUnknownKey)
  end.

(** The holder of the other project is put in the refusal. *)
Definition placeOrDeny (p : Principal) (u : Unit) (f : unitFacts) (bypass : bool) : M (list location * list Z) := fun s =>
  let '(r, a) := placeUnit side (if bypass then placeBypass else placeStrict) p u f (anc (d_eng s)) in
  (match r with
   | Ok x => Ok x
   | Err d => Err (if bool_decide (DReason d = ReasonXProject) && negb (DProj d =? 0) then leaseDenial (d_eng s) ReasonXProject (DProj d) else d)
   end, setDAnc a s).

Definition always {A} (m : SM ancestry ioerr A) (default_ : A) : M A := fun s =>
  let '(r, a) := m (anc (d_eng s)) in (match r with Ok x => Ok x | Err _ => Ok default_ end, setDAnc a s).

Definition plan (p : Principal) (u : Unit) : M planned :=
  let f := analyzeUnit u in
  let bypass := bypasses p u in
  (if grantsApply p u then checkGrants p u f else mret tt) ≫= fun _ =>
  (if bool_decide (unresolvable f = []) then mret tt else sm_err (deny ReasonUnknownKey)) ≫= fun _ =>
  if dirStatOnly f then
    locs ← mmap (fun dir => resolver (resolveDir side dir) (deny ReasonBGOnly)) (dirStat f);
    mret (mkPlanned (NeedStat locs (projectsOf locs)) false None None [])
  else
    ls ← placeOrDeny p u f bypass;
    let '(locs, unlinked) := ls in
    rt ← always (touchesRoot side f) true;
    mfor locs (checkLoc bypass) ≫= fun _ =>
    removal ← (if bool_decide (PKind p = KindAdmin) then mret None else rootEntryGate p u f);
    creation ← (if bool_decide (PKind p = KindManager) then always (smartViewCreation side roots volumeDB p u f) None else mret None);
    mret (mkPlanned (match projectsOf locs with [] => NeedNone | projs => NeedLease projs end) rt removal creation unlinked).
End plan.

(** ** The lease part *)
Inductive ustate : Type :=
  | Checking (attempt : nat) (granted : list Z)
  | Granting (attempt : nat) (todo granted : list Z)
  | Undoing (todo : list Z) (d : Denial)
  | Passed (epochs : gmap Z Z)
  | Refused (d : Denial).

(** One reading of the table: the loop over the projects. *)
Record reading : Type := mkReading { rd_unresolved : Z; rd_other : option lease; rd_free : list Z; rd_epochs : gmap Z Z }.
Definition readProject (e : engine) (p : Principal) (r : reading) (pr : Z) : reading :=
  match leases e !! pr with
  | None => mkReading (rd_unresolved r) (rd_other r) (rd_free r ++ [pr]) (rd_epochs r)
  | Some l =>
      if ls_unresolved l then mkReading pr (rd_other r) (rd_free r) (rd_epochs r)
      else if negb (held l) then mkReading (rd_unresolved r) (rd_other r) (rd_free r ++ [pr]) (rd_epochs r)
      else if negb (ls_holder l =s PName p) then
        mkReading (rd_unresolved r) (match rd_other r with Some o => Some o | None => Some l end) (rd_free r) (rd_epochs r)
      else mkReading (rd_unresolved r) (rd_other r) (rd_free r) (<[pr := ls_epoch l]> (rd_epochs r))
  end.
Definition readTable (e : engine) (p : Principal) (projs : list Z) : reading := foldl (readProject e p) (mkReading 0 None [] ∅) projs.

Section leases.
Context (clock : nat -> Z) (net : nat -> fate).
Abbreviation M := (SM engine string).

Definition otherDenial (projs : list Z) (l : lease) : Denial :=
  mkDenial (if Nat.ltb 1 (length projs) then ReasonXProject else ReasonLeaseHeld) (ls_proj l) (ls_holder l) (ls_host l) (ls_epoch l).

(** With the fences of [projs] held for reading. *)
Definition checkStep (p : Principal) (bypass : bool) (projs : list Z) (attempt : nat) (granted : list Z) : M ustate :=
  e ← sm_get;
  let r := readTable e p projs in
  if negb (rd_unresolved r =? 0) then mret (Undoing granted (heldElsewhere (rd_unresolved r)))
  else if bypass then mret (Passed (rd_epochs r))
  else match rd_other r, rd_free r with
       | Some l, _ => mret (Undoing granted (otherDenial projs l))
       | None, [] => touchLeases clock p projs ≫= fun _ => mret (Passed (rd_epochs r))
       | None, pr :: _ =>
           if Nat.leb 3 attempt then mret (Undoing granted (heldElsewhere pr)) else mret (Granting attempt (rd_free r) granted)
       end.

(** With the fence of [pr] held for writing. *)
Definition grantStep (p : Principal) (attempt_ : nat) (pr : Z) (todo granted : list Z) : M ustate :=
  r ← attempt (grantLocked clock net p pr LeaseAuto 0);
  mret match r with
       | Err _ => Undoing granted (heldElsewhere pr)
       | Ok (s, _) => Granting attempt_ todo (if sn_Holder s =s PName p then granted ++ [pr] else granted)
       end.

(** Rollback of one grant, with the fence of [pr] held for writing. *)
Definition undoStep (p : Principal) (pr : Z) (todo : list Z) (d : Denial) : M ustate :=
  e ← sm_get;
  (if match leases e !! pr with Some l => ls_holder l =s PName p | None => false end then logged (endLocked clock net pr) else mret tt) ≫= fun _ =>
  mret (Undoing todo d).

Definition ustep (p : Principal) (bypass : bool) (projs : list Z) (st : ustate) : M ustate :=
  match st with
  | Checking k granted => checkStep p bypass projs k granted
  | Granting k [] granted => mret (Checking (Datatypes.S k) granted)
  | Granting k (pr :: todo) granted => grantStep p k pr todo granted
  | Undoing [] d => mret (Refused d)
  | Undoing (pr :: todo) d => undoStep p pr todo d
  | Passed _ | Refused _ => mret st
  end.

Definition isFinal (st : ustate) : bool := match st with Passed _ | Refused _ => true | _ => false end.

(** The machine run alone; [fuel] steps are enough when it is [decideFuel]. *)
Fixpoint runUnit (p : Principal) (bypass : bool) (projs : list Z) (fuel : nat) (st : ustate) : M ustate :=
  if isFinal st then mret st
  else match fuel with
       | O => mret st
       | Datatypes.S fuel' => st' ← ustep p bypass projs st; runUnit p bypass projs fuel' st'
       end.

(** Dir-stat rows: with the fences of [projs] held for reading. *)
Definition statLoc (p : Principal) (l : location) : SM engine Denial unit := fun e =>
  match l_kind l with
  | nsRoot | nsDerivatives => (Ok tt, e)
  | nsProject =>
      match heldWithin clock p (l_proj l) DirStatGrace e with
      | (Ok true, e') => (Ok tt, e')
      | (_, e') => (Err (leaseDenial e' ReasonBGOnly (l_proj l)), e')
      end
  | _ => (Err (deny ReasonBGOnly), e)
  end.
Definition firstUnresolved (e : engine) (projs : list Z) : Z :=
  default 0 (head (List.filter (fun pr => match leases e !! pr with Some l => ls_unresolved l | None => false end) projs)).
Definition statStep (p : Principal) (bypass : bool) (locs : list location) (projs : list Z) : SM engine Denial unit :=
  e ← sm_get;
  if negb (firstUnresolved e projs =? 0) then sm_err (heldElsewhere (firstUnresolved e projs))
  else if bypass then mret tt else mfor locs (statLoc p).
End leases.

(** ** Done *)
Definition bumpGrants (d : dstate) : dstate := mkD (d_eng d) (u64 (d_epoch d + 1)) (d_key d) (d_dirs d).

(** [released]: the locks are gone; [timedOut]: the hold timeout took them. *)
Record locks : Type := mkLocks { lk_released : bool; lk_timedOut : bool }.
Definition heldLocks : locks := mkLocks false false.

(** The view bookkeeping of a unit; [fates n] are the fates of the commands
    that update the record for view [n]. *)
Definition onCommit (fates : Z -> bool * bool) (pn : planned) (s : views) : views :=
  let s := match pn_removal pn with Some n => dropSmartView (fst (fates n)) (snd (fates n)) n s | None => s end in
  match pn_creation pn with Some n => addSmartView (fst (fates n)) (snd (fates n)) n s | None => s end.

Section outcome.
Context (fates : Z -> bool * bool) (u : Unit) (f : unitFacts) (pn : planned).

(** The reply arrived, or the connection is gone ([killed]: its upstream is
    confirmed absent from Redis). *)
Definition done (o : Outcome) (killed : bool) (s : locks * dstate * views) : locks * dstate * views :=
  let '(lk, d, vs) := s in
  if lk_released lk && negb (lk_timedOut lk) then s
  else if Lost o && negb (lk_released lk) && negb killed then s
  else
    let '(d, vs) := if lk_timedOut lk then (d, vs)
                    else if Lost o then (setDAnc (forget f (anc (d_eng d))) d, vs)
                    else if Committed o then (setDAnc (learnCommitted f (anc (d_eng d))) d, onCommit fates pn vs)
                    else (d, vs) in
    let vs := if lk_timedOut lk || Lost o || Committed o then forgetSmartViews fates u (pn_unlinked pn) vs else vs in
    let d := if pn_rootTouch pn && negb (lk_timedOut lk) && (Lost o || Committed o) then bumpGrants d else d in
    (mkLocks true false, d, vs).

(** The locks were held longer than FenceHoldMax. *)
Definition onTimeout (killed : bool) (s : locks * dstate * views) : locks * dstate * views :=
  let '(lk, d, vs) := s in
  if lk_released lk || negb killed then s
  else
    let d := setDAnc (forget f (anc (d_eng d))) d in
    (mkLocks true true, if pn_rootTouch pn then bumpGrants d else d, vs).
End outcome.

(** *** killUpstream *)
Definition UpstreamName (principal : string) (connID : Z) : string := "p:" +:+ principal +:+ ":" +:+ FormatUint connID.

Definition upName (p : Principal) (u : Unit) (connID : Z) : string :=
  if (connID =? 0) || (connID =? ConnID u) then
    if negb (UpstreamNameOf u =s "") then UpstreamNameOf u else UpstreamName (PName p) (ConnID u)
  else UpstreamName (PName p) connID.

(** One line of CLIENT LIST: the id of a client of that name. *)
Definition lineID (name line : string) : option string :=
  let fs := Fields line in
  let id := foldl (fun id f => if HasPrefix f "id=" then sdrop 3 f else id) "" fs in
  if bool_decide (("name=" +:+ name) ∈ fs) && negb (id =s "") then Some id else None.
Definition upstreamIDs (name text : string) : list string := omap (M := list) (lineID name) (Split text "010").

(** [lists k]: the answer to the k-th CLIENT LIST; [kills k id]: whether
    CLIENT KILL answered, "No such client" included.  [true]: the client is
    gone for certain. *)
Fixpoint killGo (lists : nat -> result ioerr string) (kills : nat -> string -> bool) (name : string) (k n : nat) : bool :=
  match n with
  | O => false
  | Datatypes.S n' =>
      match lists k with
      | Err _ => false
      | Ok l =>
          match upstreamIDs name l with
          | [] => true
          | ids => if forallb (kills k) ids then killGo lists kills name (Datatypes.S k) n' else false
          end
      end
  end.
Definition killUpstream (lists : nat -> result ioerr string) (kills : nat -> string -> bool) (name : string) : bool :=
  if name =s "" then false else killGo lists kills name 0 5.
