(* ===== verification/DecideFacts.v ===== *)
(** * One unit and the lease table

    Each step of a unit changes only the lease of the project it names;
    [readTable] finds every project held before a unit is admitted; a unit is
    decided after boundedly many steps, whatever runs between them; and a unit
    that is refused leaves every project with the holder it had, or quarantined. *)

From S2P Require Import Prelude GoLib Resp Classify Policy Guard GuardCheck TxnUnit Ancestry Place Grants LeaseStore Leases LeaseInv LeaseTheorems LeaseCmd SmartView Decide.

(** What other units rely on of the lease of [pr]. *)
Definition tenant (pr : Z) (e : engine) : option (string * Z * bool) :=
  (fun l => (ls_holder l, ls_epoch l, ls_unresolved l)) <$> leases e !! pr.

Section steps.
Context (clock : nat -> Z) (net : nat -> fate).

(** ** Frames *)
Lemma keeps_now pr : keeps (tenant pr) (now clock).
Proof. by intros e. Qed.
Lemma keeps_call {A} pr (script : redis -> result string A * redis) : keeps (tenant pr) (call net script).
Proof. intros e. unfold call. destruct (script (store e)) as [r st]. by destruct (net (calls e)). Qed.
Lemma keeps_put pr q l : pr <> q -> keeps (tenant pr) (put q l).
Proof. intros Hn e. unfold tenant, put. cbn. by rewrite lookup_insert_ne by done. Qed.
Lemma keeps_same pr l l' : ls_holder l' = ls_holder l -> ls_epoch l' = ls_epoch l -> ls_unresolved l' = ls_unresolved l ->
  forall e, leases e !! pr = Some l -> tenant pr (set_leases (<[pr := l']> (leases e)) e) = tenant pr e.
Proof. intros H1 H2 H3 e H. unfold tenant. cbn. rewrite lookup_insert_eq, H. cbn. by rewrite H1, H2, H3. Qed.
Lemma keeps_attempt {A} pr (m : SM engine string A) : keeps (tenant pr) m -> keeps (tenant pr) (attempt m).
Proof. intros H e. apply H. Qed.
Lemma keeps_logged {A} pr (m : SM engine string A) : keeps (tenant pr) m -> keeps (tenant pr) (logged m).
Proof. intros H e. apply H. Qed.
Lemma keeps_if {A} pr (b : bool) (m m' : SM engine string A) : keeps (tenant pr) m -> keeps (tenant pr) m' -> keeps (tenant pr) (if b then m else m').
Proof. by destruct b. Qed.

Create HintDb frames.
#[local] Hint Resolve keeps_now keeps_call keeps_put keeps_attempt keeps_logged keeps_if keeps_ret keeps_err keeps_get : frames.
Ltac frame := repeat first
  [ solve [eauto with frames] | apply keeps_bind; [|intros ?] | apply keeps_if | case_match ].

Lemma transition_frame pr op old next : keeps (tenant pr) (transition net op old next).
Proof. unfold transition. frame. Qed.
#[local] Hint Resolve transition_frame : frames.
Lemma leaseLocked_frame pr q : pr <> q -> keeps (tenant pr) (leaseLocked q).
Proof. intros. unfold leaseLocked. frame. Qed.
#[local] Hint Resolve leaseLocked_frame : frames.
Lemma grantLocked_frame pr p q mode ttl : pr <> q -> keeps (tenant pr) (grantLocked clock net p q mode ttl).
Proof. intros. unfold grantLocked. frame. Qed.
Lemma endLocked_frame pr q : pr <> q -> keeps (tenant pr) (endLocked clock net q).
Proof. intros. unfold endLocked. frame. Qed.
#[local] Hint Resolve grantLocked_frame endLocked_frame : frames.
Lemma sweepOne_frame pr c q : pr <> q -> keeps (tenant pr) (sweepOne clock net c q).
Proof. intros. unfold sweepOne. frame. Qed.
Lemma flushOne_frame pr q : pr <> q -> keeps (tenant pr) (flushOne net q).
Proof. intros. unfold flushOne, flushCall, flushEnd. frame. Qed.
Lemma grantStep_frame pr p k q todo g : pr <> q -> keeps (tenant pr) (grantStep clock net p k q todo g).
Proof. intros. unfold grantStep. frame. Qed.
Lemma undoStep_frame pr p q todo d : pr <> q -> keeps (tenant pr) (undoStep clock net p q todo d).
Proof. intros. unfold undoStep. frame. Qed.

(** Writes and heartbeats move no lease. *)
Lemma touchLeases_tenant pr p projs : keeps (tenant pr) (touchLeases clock p projs).
Proof.
  unfold touchLeases. apply keeps_bind; [apply keeps_now|]. intros t. apply keeps_mfor. intros q e. unfold mbind, SM_bind, sm_get; cbn.
  destruct (leases e !! q) as [l|] eqn:El; [|done]. case_match; [|done]. cbn. destruct (decide (pr = q)) as [->|Hn].
  - by apply (keeps_same q l).
  - by apply (keeps_put pr q (wrote (ms t) l)).
Qed.
#[local] Hint Resolve touchLeases_tenant : frames.
Lemma heartbeat_tenant pr p pending : keeps (tenant pr) (heartbeat clock p pending).
Proof.
  unfold heartbeat. apply keeps_bind; [apply keeps_now|]. intros t. apply keeps_bind; [apply keeps_get|]. intros e.
  apply keeps_bind; [|intros []; apply keeps_ret]. apply keeps_modify. intros e'. unfold tenant. cbn. rewrite lookup_fmap.
  destruct (leases e' !! pr) as [l|]; [|done]. cbn. unfold beats. by case_match.
Qed.
Lemma checkStep_tenant pr p bypass projs k g : keeps (tenant pr) (checkStep clock p bypass projs k g).
Proof. unfold checkStep. frame. Qed.

(** ** Reading the table *)
Definition holds (p : Principal) (e : engine) (ep : gmap Z Z) (pr : Z) : Prop :=
  exists l, leases e !! pr = Some l /\ ls_unresolved l = false /\ held l = true /\ ls_holder l = PName p /\ ep !! pr = Some (ls_epoch l).

Lemma readTable_snoc e p projs pr : readTable e p (projs ++ [pr]) = readProject e p (readTable e p projs) pr.
Proof. unfold readTable. by rewrite foldl_app. Qed.

Lemma readTable_holds e p projs : 0 ∉ projs ->
  let r := readTable e p projs in
  rd_unresolved r = 0 -> rd_other r = None -> rd_free r = [] -> forall pr, pr ∈ projs -> holds p e (rd_epochs r) pr.
Proof.
  induction projs as [|q projs IH] using rev_ind; intros H0; cbn zeta; [intros _ _ _ pr Hpr; by apply elem_of_nil in Hpr|].
  apply not_elem_of_app in H0 as [H0 Hq]. rewrite list_elem_of_singleton in Hq. specialize (IH H0). cbn zeta in IH.
  rewrite readTable_snoc. set (r := readTable e p projs) in *. unfold readProject.
  destruct (leases e !! q) as [l|] eqn:El; [|cbn; intros _ _ Hf; by destruct (rd_free r)].
  destruct (ls_unresolved l) eqn:Eu; [cbn; intros; lia|]. destruct (held l) eqn:Eh; [|cbn; intros _ _ Hf; by destruct (rd_free r)].
  cbn [negb]. destruct (ls_holder l =s PName p) eqn:En; [|cbn; intros _ Ho; by destruct (rd_other r)].
  apply eqs_true in En. cbn. intros Hu Ho Hf pr [Hpr| ->%list_elem_of_singleton]%elem_of_app.
  - destruct (IH Hu Ho Hf pr Hpr) as (l' & H1 & H2 & H3 & H4 & H5). destruct (decide (pr = q)) as [->|Hn].
    + exists l. rewrite lookup_insert_eq. done.
    + exists l'. rewrite lookup_insert_ne by done. done.
  - exists l. rewrite lookup_insert_eq. done.
Qed.

Lemma holds_tenant p e e' ep pr : tenant pr e' = tenant pr e -> holds p e ep pr -> holds p e' ep pr.
Proof.
  unfold tenant. intros Ht (l & Hl & H1 & H2 & H3 & H4). rewrite Hl in Ht. cbn in Ht. destruct (leases e' !! pr) as [l'|] eqn:El; [|done].
  injection Ht as Ha Hb Hc. exists l'. unfold held in *. rewrite Ha, Hb, Hc. done.
Qed.

(** An admitted unit that needs leases found them all. *)
Lemma checkStep_holds p projs k g e ep e' : 0 ∉ projs -> checkStep clock p false projs k g e = (Ok (Passed ep), e') ->
  forall pr, pr ∈ projs -> holds p e' ep pr.
Proof.
  intros H0 Hr pr Hpr. pose proof (checkStep_tenant pr p false projs k g e) as Ht. rewrite Hr in Ht. cbn in Ht.
  apply (holds_tenant p e); [done|]. revert Hr. unfold checkStep, mbind at 1, SM_bind at 1, sm_get. cbn zeta beta iota.
  destruct (Z.eqb_spec (rd_unresolved (readTable e p projs)) 0) as [Hu|]; [|done]. cbn [negb].
  destruct (rd_other (readTable e p projs)) eqn:Ho; [done|]. destruct (rd_free (readTable e p projs)) eqn:Hf; [|by destruct (Nat.leb 3 k)].
  intros (? & ? & _ & [= <- _])%sm_bind_Ok. by apply readTable_holds.
Qed.

(** ** Termination *)
Definition decideFuel (projs : list Z) : nat := 6 * length projs + 8.

(** Steps left, at most, for [n] projects. *)
Definition left_ (n : nat) (st : ustate) : nat :=
  match st with
  | Checking k g => length g + (3 - k) * (2 * n + 2) + 2
  | Granting k todo g => length g + 2 * length todo + (2 - k) * (2 * n + 2) + 3
  | Undoing todo _ => length todo + 1
  | Passed _ | Refused _ => 0
  end.

Ltac left_lia :=
  unfold left_; repeat match goal with |- context [Nat.mul (Nat.sub ?a ?b) ?c] => generalize (Nat.mul (Nat.sub a b) c); intros ? end;
  rewrite ?length_app; cbn [length]; lia.

Lemma left_zero n st : left_ n st = O -> isFinal st = true.
Proof. destruct st; try done; intros H; exfalso; revert H; left_lia. Qed.

Lemma readTable_free e p projs : (length (rd_free (readTable e p projs)) <= length projs)%nat.
Proof.
  induction projs as [|q projs IH] using rev_ind; [done|]. rewrite readTable_snoc, length_app. cbn. unfold readProject.
  repeat case_match; cbn; rewrite ?length_app; cbn; lia.
Qed.

Lemma touch_ok p projs e : exists e', touchLeases clock p projs e = (Ok tt, e').
Proof.
  unfold touchLeases, mbind at 1, SM_bind at 1, now. cbn zeta beta iota. generalize (clock (ticks e)) as t.
  match goal with |- forall t, exists e', mfor _ _ ?x = _ => generalize x end. intros e1 t. revert e1.
  induction projs as [|q l IH]; intros e1; [by eexists|]. cbn [mfor]. unfold mbind at 1, SM_bind at 1.
  unfold mbind at 1, SM_bind at 1, sm_get. cbn zeta beta iota. destruct (leases e1 !! q) as [l0|]; [|apply IH].
  destruct (negb (ls_unresolved l0) && (ls_holder l0 =s PName p)); apply IH.
Qed.

Lemma checkStep_left p bypass projs k g e : exists st' e', checkStep clock p bypass projs k g e = (Ok st', e') /\
  (left_ (length projs) st' < left_ (length projs) (Checking k g))%nat.
Proof.
  unfold checkStep, mbind at 1, SM_bind at 1, sm_get. cbn zeta beta iota. pose proof (readTable_free e p projs) as Hf.
  destruct (rd_unresolved _ =? 0); cbn [negb]; [|do 2 eexists; split; [done|]; left_lia].
  destruct bypass; [do 2 eexists; split; [done|]; left_lia|].
  destruct (rd_other _); [do 2 eexists; split; [done|]; left_lia|].
  destruct (rd_free (readTable e p projs)) as [|pr fr] eqn:Ef.
  - unfold mbind, SM_bind. pose proof (touch_ok p projs e) as [e' ->]. do 2 eexists; split; [done|]; left_lia.
  - destruct (Nat.leb_spec 3 k) as [|Hk]; do 2 eexists; (split; [done|]); [left_lia|]. unfold left_.
    replace (3 - k)%nat with (Datatypes.S (2 - k)) by lia. cbn [length] in *. nia.
Qed.

Lemma ustep_left p bypass projs st e : exists st' e', ustep clock net p bypass projs st e = (Ok st', e') /\
  (isFinal st = false -> (left_ (length projs) st' < left_ (length projs) st)%nat).
Proof.
  destruct st as [k g|k [|pr todo] g|[|pr todo] d|ep|d]; cbn [ustep].
  - destruct (checkStep_left p bypass projs k g e) as (st' & e' & H1 & H2). by exists st', e'.
  - do 2 eexists. split; [done|]. intros _. unfold left_. replace (3 - Datatypes.S k)%nat with (2 - k)%nat by lia. left_lia.
  - unfold grantStep, attempt, mbind, SM_bind. cbn zeta beta iota. destruct (fst (grantLocked clock net p pr LeaseAuto 0 e)) as [[s b]|].
    + do 2 eexists. split; [done|]. intros _. case_match; left_lia.
    + do 2 eexists. split; [done|]. intros _. left_lia.
  - do 2 eexists. split; [done|]. intros _. cbn. lia.
  - unfold undoStep, mbind, SM_bind, sm_get. cbn zeta beta iota.
    match goal with |- context [match ?b with true => _ | false => _ end e] => destruct b end; do 2 eexists; (split; [reflexivity|]); intros _; left_lia.
  - by do 2 eexists.
  - by do 2 eexists.
Qed.

(** A unit among others: [es k] is the engine it finds at its k-th step. *)
Fixpoint among (p : Principal) (bypass : bool) (projs : list Z) (es : nat -> engine) (k : nat) : ustate :=
  match k with
  | O => Checking 0 []
  | Datatypes.S k' =>
      let st := among p bypass projs es k' in
      match ustep clock net p bypass projs st (es k') with (Ok st', _) => st' | (Err _, _) => st end
  end.

Lemma among_left p bypass projs es k : isFinal (among p bypass projs es k) = true \/
  (left_ (length projs) (among p bypass projs es k) + k <= decideFuel projs)%nat.
Proof.
  induction k as [|k IH]; [right; cbn; unfold decideFuel; lia|]. cbn [among].
  destruct (ustep_left p bypass projs (among p bypass projs es k) (es k)) as (st' & e' & Hs & Hl). rewrite Hs.
  destruct (isFinal (among p bypass projs es k)) eqn:Ef.
  - left. destruct (among p bypass projs es k); try discriminate; cbn in Hs; injection Hs as <- _; done.
  - right. specialize (Hl eq_refl). destruct IH as [?|IH]; [done|]. lia.
Qed.

(** ** All or none *)
Definition holder_at (e : engine) (pr : Z) : string := default "" (ls_holder <$> leases e !! pr).
Definition quarantined (e : engine) (pr : Z) : bool := default false (ls_unresolved <$> leases e !! pr).

Lemma tenant_at e e' pr : tenant pr e' = tenant pr e -> holder_at e' pr = holder_at e pr /\ quarantined e' pr = quarantined e pr.
Proof. unfold tenant, holder_at, quarantined. destruct (leases e' !! pr), (leases e !! pr); cbn; intros [=]; done. Qed.

Lemma put_at q l e : let e' := snd (put q l e) in holder_at e' q = ls_holder l /\ quarantined e' q = ls_unresolved l.
Proof. unfold put, holder_at, quarantined. cbn. by rewrite lookup_insert_eq. Qed.

(** A transition settles, or the project stays quarantined. *)
Lemma transact_at {A} op l next (F : Z -> lease) (K : Z -> A) e r e' q :
  (put q (set_unresolved true l) ≫= fun _ => ep ← transition net op l next; put q (F ep) ≫= fun _ => mret (K ep)) e = (r, e') ->
  (exists ep, r = Ok (K ep) /\ holder_at e' q = ls_holder (F ep) /\ quarantined e' q = ls_unresolved (F ep)) \/
  (exists s, r = Err s /\ quarantined e' q = true).
Proof.
  unfold mbind at 1, SM_bind at 1. destruct (put_at q (set_unresolved true l) e) as [_ Hq]. unfold put at 1, sm_modify at 1. cbn zeta beta iota.
  unfold mbind at 1, SM_bind at 1.
  pose proof (transition_frame q op l next (snd (put q (set_unresolved true l) e))) as Ht. apply tenant_at in Ht as [_ Ht].
  change (set_leases (<[q:=set_unresolved true l]> (leases e)) e) with (snd (put q (set_unresolved true l) e)).
  destruct (transition net op l next _) as [[ep|s] e1]; cbn in Ht.
  - intros [= <- <-]. left. exists ep. split; [done|]. exact (put_at q (F ep) e1).
  - intros [= <- <-]. right. exists s. split; [done|]. by rewrite Ht.
Qed.

Lemma grantLocked_at p q mode ttl e r e' : grantLocked clock net p q mode ttl e = (r, e') ->
  match r with
  | Ok (s, _) => sn_Holder s = holder_at e' q /\ quarantined e q = false /\ (holder_at e' q = PName p \/ holder_at e' q = holder_at e q)
  | Err _ => quarantined e' q = true
  end.
Proof.
  unfold grantLocked, mbind at 1, SM_bind at 1, now. cbn zeta beta iota. generalize (clock (ticks e)) as t. intros t.
  set (e1 := mkEngine _ _ _ _ _ _ _). change (holder_at e q) with (holder_at e1 q). change (quarantined e q) with (quarantined e1 q).
  clearbody e1. unfold mbind at 1, SM_bind at 1. destruct (leaseLocked q e1) as [[l|] e2] eqn:E.
  2:{ unfold leaseLocked, mbind, SM_bind, sm_get in E. cbn in E. by destruct (leases e1 !! q). }
  assert (H : holder_at e1 q = ls_holder l /\ quarantined e1 q = ls_unresolved l /\ leases e2 !! q = Some l).
  { unfold leaseLocked, mbind, SM_bind, sm_get in E. cbn in E. unfold holder_at, quarantined.
    destruct (leases e1 !! q) eqn:El; injection E as <- <-; [by rewrite El|]. cbn. by rewrite lookup_insert_eq. }
  destruct H as (Hh & Hq & Hl). rewrite Hh, Hq. destruct (ls_unresolved l) eqn:Eu.
  { intros [= <- <-]. unfold quarantined. rewrite Hl. exact Eu. }
  destruct (held l && negb (ls_holder l =s PName p)) eqn:Eo.
  { intros [= <- <-]. unfold holder_at. rewrite Hl. cbn. auto. }
  unfold mbind at 1, SM_bind at 1, sm_get. cbn zeta beta iota. intros Hr. apply transact_at in Hr as [(ep & -> & H1 & H2)|(s & -> & H1)]; [|done].
  split; [by rewrite H1|]. split; [done|]. rewrite H1. destruct (held l) eqn:Eh; cbn; auto.
Qed.

Lemma endLocked_at q e r e' : endLocked clock net q e = (r, e') ->
  quarantined e' q = true \/ holder_at e' q = "".
Proof.
  unfold endLocked, mbind at 1, SM_bind at 1, sm_get. cbn zeta beta iota. destruct (leases e !! q) as [l|] eqn:El.
  2:{ intros [= <- <-]. right. unfold holder_at. by rewrite El. }
  destruct (ls_unresolved l) eqn:Eu; [intros [= <- <-]; left; unfold quarantined; by rewrite El|].
  destruct (held l) eqn:Eh; cbn [negb].
  2:{ intros [= <- <-]. right. unfold holder_at. rewrite El. cbn. by apply held_false. }
  unfold mbind at 1, SM_bind at 1, now. cbn zeta beta iota. intros Hr.
  apply transact_at in Hr as [(ep & -> & H1 & H2)|(s & -> & H1)]; [right; by rewrite H1|by left].
Qed.

(** What a unit took: [taken] granted so far, [asked] still to be granted. *)
Definition taken (st : ustate) : list Z :=
  match st with Checking _ g => g | Granting _ _ g => g | Undoing todo _ => todo | Passed _ | Refused _ => [] end.
Definition asked (st : ustate) : list Z := match st with Granting _ todo _ => todo | _ => [] end.

Record owes (p : Principal) (e0 : engine) (st : ustate) (e : engine) : Prop := {
  ow_all : forall pr, quarantined e pr = true \/ holder_at e pr = holder_at e0 pr \/
    (holder_at e0 pr = "" /\ holder_at e pr = PName p /\ pr ∈ taken st);
  ow_free : forall pr, pr ∈ taken st ++ asked st -> holder_at e0 pr = "";
}.

Definition isPassed (st : ustate) : bool := match st with Passed _ => true | _ => false end.

Lemma readTable_unheld e p projs pr : pr ∈ rd_free (readTable e p projs) -> holder_at e pr = "" /\ quarantined e pr = false.
Proof.
  induction projs as [|q projs IH] using rev_ind; [intros H; by apply elem_of_nil in H|]. rewrite readTable_snoc. unfold readProject.
  destruct (leases e !! q) as [l|] eqn:El.
  - destruct (ls_unresolved l) eqn:Eu; [exact IH|]. destruct (held l) eqn:Eh; cbn [negb]; [by case_match|]. cbn.
    intros [H| ->%list_elem_of_singleton]%elem_of_app; [by apply IH|]. unfold holder_at, quarantined. rewrite El. cbn.
    by apply held_false in Eh as ->.
  - cbn. intros [H| ->%list_elem_of_singleton]%elem_of_app; [by apply IH|]. unfold holder_at, quarantined. by rewrite El.
Qed.

(** A step that moves no lease. *)
Lemma owes_still p e0 st e st' e' : (forall pr, tenant pr e' = tenant pr e) -> taken st' = taken st ->
  (forall pr, pr ∈ asked st' -> holder_at e0 pr = "") -> owes p e0 st e -> owes p e0 st' e'.
Proof.
  intros Ht Hk Ha [H1 H2]. split.
  - intros pr. destruct (tenant_at _ _ _ (Ht pr)) as [-> ->]. rewrite Hk. apply H1.
  - intros pr [Hp|Hp]%elem_of_app; [|by apply Ha]. apply H2, elem_of_app. left. by rewrite <- Hk.
Qed.

Lemma checkStep_owes p bypass projs k g e0 e st' e' : owes p e0 (Checking k g) e ->
  checkStep clock p bypass projs k g e = (Ok st', e') -> isPassed st' = false -> owes p e0 st' e'.
Proof.
  intros Ho Hr Ha. assert (Ht : forall pr, tenant pr e' = tenant pr e).
  { intros pr. pose proof (checkStep_tenant pr p bypass projs k g e) as Ht. by rewrite Hr in Ht. }
  assert (Hs : (exists d, st' = Undoing g d) \/ st' = Granting k (rd_free (readTable e p projs)) g).
  { revert Hr. unfold checkStep, mbind at 1, SM_bind at 1, sm_get. cbn zeta beta iota.
    destruct (negb _); [intros [= <- _]; eauto|]. destruct bypass; [intros [= <- _]; discriminate|].
    destruct (rd_other _); [intros [= <- _]; eauto|]. destruct (rd_free _) as [|pr fr].
    - intros (? & ? & _ & [= <- _])%sm_bind_Ok. discriminate.
    - destruct (Nat.leb 3 k); intros [= <- _]; eauto. }
  destruct Hs as [[d ->]| ->]; (apply (owes_still p e0 (Checking k g) e); [done|done| |exact Ho]); cbn; [intros pr H; by apply elem_of_nil in H|].
  intros pr [Hh Hq]%readTable_unheld. destruct (ow_all _ _ _ _ Ho pr) as [?|[?|[? _]]]; congruence.
Qed.

Lemma grantStep_owes p k q todo g e0 e st' e' : owes p e0 (Granting k (q :: todo) g) e ->
  grantStep clock net p k q todo g e = (Ok st', e') -> owes p e0 st' e'.
Proof.
  intros [H1 H2] Hr. assert (Ht : forall pr, pr <> q -> tenant pr e' = tenant pr e).
  { intros pr Hn. pose proof (grantStep_frame pr p k q todo g Hn e) as Ht. by rewrite Hr in Ht. }
  unfold grantStep, attempt, mbind, SM_bind in Hr. cbn zeta beta iota in Hr.
  pose proof (grantLocked_at p q LeaseAuto 0 e (fst (grantLocked clock net p q LeaseAuto 0 e)) (snd (grantLocked clock net p q LeaseAuto 0 e)) (surjective_pairing _)) as Hg.
  destruct (fst (grantLocked clock net p q LeaseAuto 0 e)) as [[s b]|]; injection Hr as <- E; rewrite E in Hg.
  - destruct Hg as (Hs & Hq & Hg). rewrite Hs. split; cbn [taken asked] in *.
    + intros pr. destruct (decide (pr = q)) as [->|Hn].
      * right. destruct (H1 q) as [?|Hc]; [congruence|]. destruct (holder_at e' q =s PName p) eqn:En.
        -- apply eqs_true in En. right. split_and!; [apply H2; set_solver|done|set_solver].
        -- apply eqs_false in En. destruct Hg as [?|Hg]; [done|]. destruct Hc as [Hc|(_ & Hc & _)]; [left; congruence|congruence].
      * destruct (tenant_at _ _ _ (Ht pr Hn)) as [-> ->]. destruct (H1 pr) as [?|[?|(? & ? & ?)]]; [by left|by right; left|].
        do 2 right. split_and!; [done..|]. case_match; set_solver.
    + intros pr Hp. apply H2. case_match; set_solver.
  - split; cbn [taken asked] in *; [|intros pr Hp; apply H2; set_solver].
    intros pr. destruct (decide (pr = q)) as [->|Hn]; [by left|]. destruct (tenant_at _ _ _ (Ht pr Hn)) as [-> ->]. apply H1.
Qed.

Lemma undoStep_owes p q todo d e0 e st' e' : owes p e0 (Undoing (q :: todo) d) e ->
  undoStep clock net p q todo d e = (Ok st', e') -> owes p e0 st' e'.
Proof.
  intros [H1 H2] Hr. assert (Ht : forall pr, pr <> q -> tenant pr e' = tenant pr e).
  { intros pr Hn. pose proof (undoStep_frame pr p q todo d Hn e) as Ht. by rewrite Hr in Ht. }
  cbn [taken asked] in *. assert (st' = Undoing todo d /\ (quarantined e' q = true \/ holder_at e' q = holder_at e0 q)) as [-> Hq].
  { unfold undoStep, mbind, SM_bind, sm_get in Hr. cbn zeta beta iota in Hr. destruct (leases e !! q) as [l|] eqn:El.
    - destruct (ls_holder l =s PName p) eqn:En; injection Hr as <- <-; (split; [done|]).
      + rewrite (H2 q) by set_solver. eapply endLocked_at. apply surjective_pairing.
      + apply eqs_false in En. destruct (H1 q) as [?|[?|(_ & Hc & _)]]; [by left|by right|]. unfold holder_at in Hc. by rewrite El in Hc.
    - injection Hr as <- <-. split; [done|]. destruct (H1 q) as [?|[?|(? & Hc & _)]]; [by left|by right|]. right.
      unfold holder_at in *. rewrite El in *. cbn in *. congruence. }
  split; cbn [taken asked]; [|intros pr Hp; apply H2; set_solver]. intros pr. destruct (decide (pr = q)) as [->|Hn]; [naive_solver|].
  destruct (tenant_at _ _ _ (Ht pr Hn)) as [-> ->]. destruct (H1 pr) as [?|[?|(? & ? & ?)]]; [by left|by right; left|].
  do 2 right. split_and!; [done..|set_solver].
Qed.

Lemma ustep_owes p bypass projs st e0 e st' e' : owes p e0 st e -> isPassed st = false ->
  ustep clock net p bypass projs st e = (Ok st', e') -> isPassed st' = false -> owes p e0 st' e'.
Proof.
  intros Ho Ha Hr Ha'. destruct st as [k g|k [|pr todo] g|[|pr todo] d|ep|d]; cbn [ustep] in Hr; try discriminate.
  - by eapply checkStep_owes.
  - injection Hr as <- <-. apply (owes_still p e0 (Granting k [] g) e); [done|done| |exact Ho]. intros pr H. by apply elem_of_nil in H.
  - by eapply grantStep_owes.
  - injection Hr as <- <-. apply (owes_still p e0 (Undoing [] d) e); [done|done| |exact Ho]. intros pr H. by apply elem_of_nil in H.
  - by eapply undoStep_owes.
  - injection Hr as <- <-. done.
Qed.

Lemma runUnit_owes p bypass projs fuel : forall st e0 e st' e', owes p e0 st e -> runUnit clock net p bypass projs fuel st e = (Ok st', e') ->
  isPassed st' = false -> owes p e0 st' e'.
Proof.
  induction fuel as [|fuel IH]; intros st e0 e st' e' Ho Hr Ha; cbn [runUnit] in Hr.
  - destruct (isFinal st); injection Hr as <- <-; done.
  - destruct (isFinal st) eqn:Ef; [injection Hr as <- <-; done|]. apply sm_bind_Ok in Hr as (st1 & e1 & H1 & Hr).
    destruct (isPassed st1) eqn:Ea.
    + exfalso. destruct st1; try discriminate. destruct fuel; injection Hr as <- <-; discriminate.
    + eapply IH; [|exact Hr|done]. eapply ustep_owes; [exact Ho|by destruct st|exact H1|done].
Qed.
End steps.


(** C33: the retry loop of Decide ends.  Whatever the lease table and Redis do
    between and during its steps, a unit of n projects is admitted or refused
    after at most 6n + 8 critical sections. *)
Theorem decide_terminates clock net p bypass projs (es : nat -> engine) :
  isFinal (among clock net p bypass projs es (decideFuel projs)) = true.
Proof.
  destruct (among_left clock net p bypass projs es (decideFuel projs)) as [H|H]; [done|].
  eapply (left_zero (length projs)). lia.
Qed.

(** ** Examples *)
Module DecideExamples.
Import LeaseExamples.
(** The second call to Redis gets no answer. *)
Definition flaky (n : nat) : fate := if Nat.eqb n 1 then LostBefore "timeout" else Replied.
Definition refusal : Denial := heldElsewhere 5.
Definition undone : engine := snd (runUnit clock flaky alice false [3; 5] (decideFuel [3; 5]) (Checking 0 []) e0).
Lemma undone_run : runUnit clock flaky alice false [3; 5] (decideFuel [3; 5]) (Checking 0 []) e0 = (Ok (Refused refusal), undone).
Proof. vm_compute. reflexivity. Qed.

(** Between the check and the grants of alice's unit, alice checks project 3
    out and bob is granted project 5. *)
Definition between : engine :=
  snd (grantLocked clock net bob 5 LeaseAuto 0 (snd (grantLocked clock net alice 3 LeaseCheckout (3600 * Second) e0))).
End DecideExamples.


(** Rollback ends leases the unit was not the one to take.  Decide counts a
    project among its own grants when grantLocked answers with the principal as
    holder, also when the principal held the project already and the lease was
    only renewed.  A principal that checks a project out after a unit of its
    own found it free loses the checkout when that unit is refused. *)
Theorem rollback_ends_a_checkout :
  let run := runUnit LeaseExamples.clock LeaseExamples.net LeaseExamples.alice false [3; 5] (decideFuel [3; 5]) in
  fst (ustep LeaseExamples.clock LeaseExamples.net LeaseExamples.alice false [3; 5] (Checking 0 []) LeaseExamples.e0) = Ok (Granting 0 [3; 5] []) /\
  (exists l, leases DecideExamples.between !! 3 = Some l /\ ls_holder l = "alice" /\ ls_mode l = LeaseCheckout) /\
  (exists d, fst (run (Granting 0 [3; 5] []) DecideExamples.between) = Ok (Refused d)) /\
  holder_at (snd (run (Granting 0 [3; 5] []) DecideExamples.between)) 3 = "".
Proof.
  cbv zeta. split_and!; [vm_compute; reflexivity|eexists; split_and!; vm_compute; reflexivity|eexists; vm_compute; reflexivity|vm_compute; reflexivity].
Qed.
