(* ===== verification/DecideWorld.v ===== *)
(** * Units in flight

    The world is the engine, the record of views and the units that Decide has
    taken in.  Its steps are the critical sections of the units, of the lease
    commands, of the sweeper and of the flusher, in any order; a step that
    takes the fence of a project for writing waits for every admitted unit of
    that project, and a unit that changes the topology waits for every unit.
    Redis may run an admitted unit until its reply arrives or its upstream
    connection is confirmed gone. *)

From S2P Require Import Prelude GoLib Resp Classify ClassifyFacts Policy Guard GuardCheck GuardTheorems TxnUnit Ancestry AncestryFacts AncestryTheorems Place PlaceFacts PlaceInv PlaceTheorems PlaceExamples Grants LeaseStore Leases LeaseInv LeaseTheorems LeaseCmd SmartView Decide DecideFacts.

(** [Pending]: Redis may still run the unit; [Settled]: it ran, or never will. *)
Inductive sent : Type := Pending | Settled.

Record flight : Type := mkFlight {
  fl_p : Principal; fl_u : Unit; fl_bypass : bool; fl_projs : list Z; fl_pn : planned; fl_state : ustate; fl_sent : sent; fl_lk : locks;
}.
Definition set_state (st : ustate) (f : flight) : flight :=
  mkFlight (fl_p f) (fl_u f) (fl_bypass f) (fl_projs f) (fl_pn f) st (fl_sent f) (fl_lk f).
Definition set_sent (x : sent) (f : flight) : flight :=
  mkFlight (fl_p f) (fl_u f) (fl_bypass f) (fl_projs f) (fl_pn f) (fl_state f) x (fl_lk f).
Definition set_lk (lk : locks) (f : flight) : flight :=
  mkFlight (fl_p f) (fl_u f) (fl_bypass f) (fl_projs f) (fl_pn f) (fl_state f) (fl_sent f) lk.

Definition locked (f : flight) : bool := negb (lk_released (fl_lk f)).
Definition fencing (f : flight) : bool := locked f && isPassed (fl_state f).
Definition moves (u : Unit) : bool := topology (analyzeUnit u).

Record world : Type := mkWorld { w_d : dstate; w_views : views; w_units : gmap nat flight }.
Definition set_eng (e : engine) (d : dstate) : dstate := mkD e (d_epoch d) (d_key d) (d_dirs d).

(** The fence of [pr] can be taken for writing. *)
Definition unfenced (w : world) (pr : Z) : Prop :=
  forall i f, w_units w !! i = Some f -> fencing f = true -> pr ∉ fl_projs f.
(** The topology lock can be taken for unit [u]. *)
Definition topo_free (w : world) (u : Unit) : Prop :=
  forall i f, w_units w !! i = Some f -> locked f = true -> moves u = false /\ moves (fl_u f) = false.

(** The project whose fence a step of a unit takes for writing. *)
Definition writes_fence (st : ustate) : option Z :=
  match st with Granting _ (pr :: _) _ => Some pr | Undoing (pr :: _) _ => Some pr | _ => None end.

Definition noPlan : planned := mkPlanned NeedNone false None None [].

Section world.
Context (side : sideDoer) (roots : list string) (volumeDB : Z) (clock : nat -> Z) (net : nat -> fate).

(** What the unit starts with once it is planned. *)
Definition launch (p : Principal) (u : Unit) (pn : planned) (e : engine) : flight * engine :=
  match pn_needs pn with
  | NeedNone => (mkFlight p u true [] pn (Passed ∅) Pending heldLocks, e)
  | NeedLease projs => (mkFlight p u (bypasses p u) projs pn (Checking 0 []) Pending heldLocks, e)
  | NeedStat locs projs =>
      match statStep clock p (bypasses p u) locs projs e with
      | (Ok _, e') => (mkFlight p u true projs pn (Passed ∅) Pending heldLocks, e')
      | (Err d, e') => (mkFlight p u true [] noPlan (Refused d) Settled heldLocks, e')
      end
  end.

(** The lease operations that take the fence of their project. *)
Inductive lease_op (pr : Z) (e : engine) : engine -> Prop :=
  | lo_grant p mode ttl : lease_op pr e (snd (grantLocked clock net p pr mode ttl e))
  | lo_end : lease_op pr e (snd (endLocked clock net pr e))
  | lo_sweep c : lease_op pr e (snd (sweepOne clock net c pr e))
  | lo_flush : lease_op pr e (snd (flushOne net pr e)).

Inductive wstep (w : world) : world -> Prop :=
  | w_plan i p u pn d' f e : w_units w !! i = None -> topo_free w u -> plan side roots volumeDB p u (w_d w) = (Ok pn, d') ->
      launch p u pn (d_eng d') = (f, e) ->
      wstep w (mkWorld (set_eng e d') (w_views w) (<[i := f]> (w_units w)))
  | w_refuse i p u dn d' : w_units w !! i = None -> topo_free w u -> plan side roots volumeDB p u (w_d w) = (Err dn, d') ->
      wstep w (mkWorld d' (w_views w) (<[i := mkFlight p u true [] noPlan (Refused dn) Settled heldLocks]> (w_units w)))
  | w_unit i f st e : w_units w !! i = Some f -> isFinal (fl_state f) = false ->
      (forall pr, writes_fence (fl_state f) = Some pr -> unfenced w pr) ->
      ustep clock net (fl_p f) (fl_bypass f) (fl_projs f) (fl_state f) (d_eng (w_d w)) = (Ok st, e) ->
      wstep w (mkWorld (set_eng e (w_d w)) (w_views w) (<[i := set_state st f]> (w_units w)))
  | w_run i f : w_units w !! i = Some f -> isPassed (fl_state f) = true -> fl_sent f = Pending ->
      wstep w (mkWorld (w_d w) (w_views w) (<[i := set_sent Settled f]> (w_units w)))
  | w_done i f fates o killed lk d' vs : w_units w !! i = Some f -> isFinal (fl_state f) = true ->
      (Lost o = false -> isPassed (fl_state f) = true -> fl_sent f = Settled) ->
      done fates (fl_u f) (analyzeUnit (fl_u f)) (fl_pn f) o killed (fl_lk f, w_d w, w_views w) = (lk, d', vs) ->
      wstep w (mkWorld d' vs (<[i := set_lk lk (if killed then set_sent Settled f else f)]> (w_units w)))
  | w_timeout i f killed lk d' vs : w_units w !! i = Some f -> isFinal (fl_state f) = true ->
      onTimeout (analyzeUnit (fl_u f)) (fl_pn f) killed (fl_lk f, w_d w, w_views w) = (lk, d', vs) ->
      wstep w (mkWorld d' vs (<[i := set_lk lk (if killed then set_sent Settled f else f)]> (w_units w)))
  | w_lease pr e : unfenced w pr -> lease_op pr (d_eng (w_d w)) e ->
      wstep w (mkWorld (set_eng e (w_d w)) (w_views w) (w_units w))
  | w_beat p pending : wstep w (mkWorld (set_eng (snd (heartbeat clock p pending (d_eng (w_d w)))) (w_d w)) (w_views w) (w_units w))
  | w_cfg c : wstep w (mkWorld (set_eng (set_lcfg c (d_eng (w_d w))) (w_d w)) (w_views w) (w_units w))
  | w_learn a : wstep w (mkWorld (setDAnc a (w_d w)) (w_views w) (w_units w)).

(** ** The invariant *)

(** A unit that needs leases needs those its plan names. *)
Definition planned_as (f : flight) : Prop :=
  fl_bypass f = false -> exists d0 d1, plan side roots volumeDB (fl_p f) (fl_u f) d0 = (Ok (fl_pn f), d1) /\ pn_needs (fl_pn f) = NeedLease (fl_projs f).

Definition safe (e : engine) (f : flight) : Prop :=
  planned_as f /\
  (isFinal (fl_state f) = false -> locked f = true) /\
  (fl_sent f = Pending -> isPassed (fl_state f) = true -> locked f = true) /\
  (locked f = true -> fl_bypass f = false -> 0 ∉ fl_projs f ->
   forall ep, fl_state f = Passed ep -> forall pr, pr ∈ fl_projs f -> holds (fl_p f) e ep pr).

Record winv (w : world) : Prop := {
  wi_safe : forall i f, w_units w !! i = Some f -> safe (d_eng (w_d w)) f;
  wi_topo : forall i j f g, w_units w !! i = Some f -> w_units w !! j = Some g -> locked f = true -> locked g = true -> i <> j ->
    moves (fl_u f) = false;
}.

(** A step that leaves the leases of the fenced projects alone. *)
Lemma safe_frame e e' f : (forall pr, pr ∈ fl_projs f -> fencing f = true -> tenant pr e' = tenant pr e) -> safe e f -> safe e' f.
Proof.
  intros Ht (Hp & H0 & H1 & H2). split_and!; [done..|]. intros Hl Hb Hz ep Hs pr Hpr. eapply holds_tenant; [|by eapply H2].
  apply Ht; [done|]. unfold fencing. by rewrite Hl, Hs.
Qed.
Lemma safe_leases e e' f : leases e' = leases e -> safe e f -> safe e' f.
Proof. intros He. apply safe_frame. intros pr _ _. unfold tenant. by rewrite He. Qed.

Lemma winv_eng w d' vs : winv w ->
  (forall i f pr, w_units w !! i = Some f -> fencing f = true -> pr ∈ fl_projs f -> tenant pr (d_eng d') = tenant pr (d_eng (w_d w))) ->
  winv (mkWorld d' vs (w_units w)).
Proof.
  intros [H1 H2] Ht. split; cbn; [|done]. intros i f Hf. eapply safe_frame; [|by eapply H1]. intros pr Hp Hfe. by eapply Ht.
Qed.

(** Unit [i] changes, with locks it had. *)
Lemma winv_set w i f f' d' vs : winv (mkWorld d' vs (w_units w)) -> w_units w !! i = Some f -> safe (d_eng d') f' ->
  (locked f' = true -> locked f = true) -> fl_u f' = fl_u f -> winv (mkWorld d' vs (<[i := f']> (w_units w))).
Proof.
  intros [H1 H2] Hi Hs Hl Hu. cbn in *. split; cbn.
  - intros j g [[-> ->]|[Hn Hg]]%lookup_insert_Some; [done|by eapply H1].
  - intros j k g h Hg Hh Lg Lh Hjk.
    assert (Hor : forall x y, <[i := f']> (w_units w) !! x = Some y -> locked y = true ->
      exists y0, w_units w !! x = Some y0 /\ locked y0 = true /\ fl_u y0 = fl_u y).
    { intros x y [[-> <-]|[_ ?]]%lookup_insert_Some Ly; [exists f; auto|by exists y]. }
    destruct (Hor _ _ Hg Lg) as (g0 & Hg0 & Lg0 & Eg), (Hor _ _ Hh Lh) as (h0 & Hh0 & Lh0 & _). rewrite <- Eg. eapply (H2 j k); eauto.
Qed.

Lemma winv_add w i f d' vs : winv (mkWorld d' vs (w_units w)) -> topo_free w (fl_u f) -> safe (d_eng d') f ->
  winv (mkWorld d' vs (<[i := f]> (w_units w))).
Proof.
  intros [H1 H2] Ht Hs. cbn in *. split; cbn.
  - intros j g [[-> ->]|[Hn Hg]]%lookup_insert_Some; [done|by eapply H1].
  - intros j k g h [[<- <-]|[Hj Hg]]%lookup_insert_Some [[<- <-]|[Hk Hh]]%lookup_insert_Some Lg Lh Hjk; [done| | |by eapply (H2 j k)].
    + apply (Ht k h Hh Lh).
    + apply (Ht j g Hg Lg).
Qed.

(** ** Every step keeps it *)
Lemma plan_leases p u d r d' : plan side roots volumeDB p u d = (r, d') -> leases (d_eng d') = leases (d_eng d).
Proof.
  intros Hr. assert (H : keeps (fun d => leases (d_eng d)) (plan side roots volumeDB p u)); [|specialize (H d); by rewrite Hr in H].
  assert (Hres : forall A (m : SM ancestry ioerr A) dn, keeps (fun d => leases (d_eng d)) (resolver m dn)).
  { intros A m dn s. unfold resolver. by destruct (m (anc (d_eng s))) as [[|] ?]. }
  assert (Halw : forall A (m : SM ancestry ioerr A) x, keeps (fun d => leases (d_eng d)) (always m x)).
  { intros A m dn s. unfold always. by destruct (m (anc (d_eng s))) as [[|] ?]. }
  assert (Hroot : forall r0 op, keeps (fun d => leases (d_eng d)) (rootEntry side roots volumeDB p u r0 op)).
  { intros r0 op s. unfold rootEntry. destruct (o_trash op); [done|]. by destruct (resolveDir side (o_dir op) (anc (d_eng s))) as [[|] ?]. }
  unfold plan. cbn zeta.
  apply keeps_bind; [destruct (grantsApply p u); [|apply keeps_ret]|intros _].
  { intros s. unfold checkGrants. by destruct (grantCheck side p u (analyzeUnit u) (grantsOf s)). }
  apply keeps_bind; [case_bool_decide; [apply keeps_ret|apply keeps_err]|intros _].
  destruct (dirStatOnly (analyzeUnit u)).
  - apply keeps_bind; [|intros ls; apply keeps_ret].
    generalize (dirStat (analyzeUnit u)) as ds. induction ds as [|x ds IH]; [apply keeps_ret|]. cbn.
    apply keeps_bind; [apply Hres|]. intros y. apply keeps_bind; [apply IH|]. intros ys. apply keeps_ret.
  - apply keeps_bind.
    { intros s. unfold placeOrDeny. by destruct (placeUnit side _ p u (analyzeUnit u) (anc (d_eng s))) as [[|] ?]. }
    intros [locs unl]. apply keeps_bind; [apply Halw|]. intros rt. apply keeps_bind.
    { apply keeps_mfor. intros l. unfold checkLoc. destruct (l_kind l); try apply keeps_ret; try apply keeps_err.
      destruct (bypasses p u); [apply keeps_ret|apply keeps_err]. }
    intros _. apply keeps_bind; [case_bool_decide; [apply keeps_ret|by apply keeps_mfold]|]. intros rm.
    apply keeps_bind; [case_bool_decide; [apply Halw|apply keeps_ret]|]. intros cr. apply keeps_ret.
Qed.

Lemma statStep_leases p bypass locs projs e : leases (snd (statStep clock p bypass locs projs e)) = leases e.
Proof.
  assert (H : keeps leases (statStep clock p bypass locs projs)); [|apply H]. unfold statStep. apply keeps_bind; [apply keeps_get|]. intros e1.
  case_match; [apply keeps_err|]. case_match; [apply keeps_ret|]. apply keeps_mfor. intros l e2. unfold statLoc.
  destruct (l_kind l); try done. unfold heldWithin, mbind, SM_bind, now, sm_get, mret, SM_ret. cbn. by case_match.
Qed.

Lemma launch_safe p u pn d0 d1 e f e' : plan side roots volumeDB p u d0 = (Ok pn, d1) -> launch p u pn e = (f, e') -> leases e' = leases e /\ fl_u f = u /\ safe e' f.
Proof.
  intros Hpl. unfold launch, safe. destruct (pn_needs pn) as [|locs projs|projs] eqn:En.
  - intros [= <- <-]. cbn. done.
  - pose proof (statStep_leases p (bypasses p u) locs projs e) as Hl.
    destruct (statStep clock p (bypasses p u) locs projs e) as [[x|d] e1]; cbn in Hl; intros [= <- <-]; cbn; done.
  - intros [= <- <-]. cbn. split_and!; [done..|intros _; by exists d0, d1|done|done|done].
Qed.

Lemma lease_op_frame pr q e e' : lease_op q e e' -> pr <> q -> tenant pr e' = tenant pr e.
Proof.
  intros H Hn. destruct H; [by apply grantLocked_frame|by apply endLocked_frame|by apply sweepOne_frame|by apply flushOne_frame].
Qed.

(** A step of a unit moves only the lease whose fence it has. *)
Lemma ustep_frame p bypass projs st e st' e' pr : ustep clock net p bypass projs st e = (Ok st', e') ->
  writes_fence st <> Some pr -> tenant pr e' = tenant pr e.
Proof.
  intros Hr Hw. assert (H : keeps (tenant pr) (ustep clock net p bypass projs st)); [|specialize (H e); by rewrite Hr in H].
  destruct st as [k g|k [|q todo] g|[|q todo] d|ep|d]; cbn in *; try apply keeps_ret.
  - apply checkStep_tenant.
  - apply grantStep_frame. congruence.
  - apply undoStep_frame. congruence.
Qed.

(** Only a check admits. *)
Lemma ustep_admits p projs st e ep e' : isFinal st = false -> 0 ∉ projs -> ustep clock net p false projs st e = (Ok (Passed ep), e') ->
  forall pr, pr ∈ projs -> holds p e' ep pr.
Proof.
  intros Hf H0 Hr. destruct st as [k g|k [|q todo] g|[|q todo] d|x|d]; cbn in *; try discriminate.
  - by eapply checkStep_holds.
  - unfold grantStep, attempt, mbind, SM_bind in Hr. cbn in Hr. by destruct (fst _) as [[? ?]|].
  - unfold undoStep, mbind, SM_bind, sm_get in Hr. cbn in Hr. revert Hr.
    match goal with |- context [match ?b with true => _ | false => _ end e] => destruct b end; discriminate.
Qed.

(** The locks go only once the outcome of the unit is final. *)
Lemma done_locks fates u f pn o killed lk d vs lk' d' vs' :
  done fates u f pn o killed (lk, d, vs) = (lk', d', vs') ->
  leases (d_eng d') = leases (d_eng d) /\ (lk_released lk' = false -> lk_released lk = false) /\
  (lk_released lk' = true -> lk_released lk = true \/ Lost o = false \/ killed = true).
Proof.
  unfold done. destruct (lk_released lk) eqn:Er, (lk_timedOut lk) eqn:Et, (Lost o) eqn:El, killed, (Committed o), (pn_rootTouch pn); cbn;
    intros [= <- <- <-]; rewrite ?Er; cbn; auto.
Qed.
Lemma onTimeout_locks f pn killed lk d vs lk' d' vs' : onTimeout f pn killed (lk, d, vs) = (lk', d', vs') ->
  leases (d_eng d') = leases (d_eng d) /\ (lk_released lk' = false -> lk_released lk = false) /\
  (lk_released lk' = true -> lk_released lk = true \/ killed = true).
Proof.
  unfold onTimeout. destruct (lk_released lk) eqn:Er, killed, (pn_rootTouch pn); cbn; intros [= <- <- <-]; rewrite ?Er; cbn; auto.
Qed.

(** Releasing the locks of a unit that Redis is done with. *)
Lemma safe_release e f lk (killed : bool) : safe e f -> isFinal (fl_state f) = true -> (lk_released lk = false -> lk_released (fl_lk f) = false) ->
  (lk_released lk = true -> isPassed (fl_state f) = true -> fl_sent f = Settled \/ killed = true) ->
  safe e (set_lk lk (if killed then set_sent Settled f else f)).
Proof.
  intros (Hp & _ & H1 & H2) Hf Hl Hr. assert (Hlk : locked (set_lk lk (if killed then set_sent Settled f else f)) = negb (lk_released lk)) by by destruct killed.
  split_and!.
  - by destruct killed.
  - destruct killed; cbn; congruence.
  - rewrite Hlk. destruct killed; [done|]. cbn. intros Hs Ha. destruct (lk_released lk); [|done]. destruct (Hr eq_refl Ha); congruence.
  - rewrite Hlk. intros Hlo. assert (locked f = true) as Hlf by (unfold locked; destruct (lk_released lk); [done|by rewrite Hl]).
    destruct killed; cbn; by apply H2.
Qed.

Lemma wstep_inv w w' : wstep w w' -> winv w -> winv w'.
Proof.
  intros Hs Hw. assert (Hsame : forall d' vs, leases (d_eng d') = leases (d_eng (w_d w)) -> winv (mkWorld d' vs (w_units w))).
  { intros d' vs He. apply winv_eng; [done|]. intros i f pr _ _ _. unfold tenant. by rewrite He. }
  destruct Hs as [i p u pn d' f e Hi Ht Hp Hl|i p u dn d' Hi Ht Hp|i f st e Hi Hf Hfe Hr|i f Hi Ha Hse|i f fates o killed lk d' vs Hi Hf Ho Hr
    |i f killed lk d' vs Hi Hf Hr|pr e Hu Hop|p pending|c|a].
  - eapply launch_safe in Hl; [|exact Hp]. apply plan_leases in Hp. destruct Hl as (He & Hu & Hsf). apply winv_add; [apply Hsame; cbn; congruence|by rewrite Hu|done].
  - apply plan_leases in Hp. apply winv_add; [by apply Hsame|done|done].
  - pose proof (wi_safe _ Hw i f Hi) as (Hpl & H0 & _). apply (winv_set w i f); [|done| |done|done].
    + apply winv_eng; [done|]. intros j g q Hj Hg Hq. eapply ustep_frame; [exact Hr|]. intros He. by eapply (Hfe q He j g).
    + split_and!; cbn; [done|by intros _; apply H0|by intros _ _; apply H0|]. intros _ Hb Hz ep ->. rewrite Hb in Hr. by eapply ustep_admits.
  - apply (winv_set w i f); [by destruct w|done| |done|done]. destruct (wi_safe _ Hw i f Hi) as (Hpl & H0 & H1 & H2). split_and!; [exact Hpl|exact H0|done|exact H2].
  - pose proof (wi_safe _ Hw i f Hi) as Hsf. apply done_locks in Hr as (He & Hk & Hrel).
    apply (winv_set w i f); [by apply Hsame|done| | |by destruct killed].
    + eapply safe_leases; [exact He|]. apply safe_release; [done|done|done|]. intros Hlr Ha. destruct (Hrel Hlr) as [Hr0|[Hlo|Hki]]; [|auto..].
      left. destruct Hsf as (_ & _ & H1 & _). destruct (fl_sent f); [|done]. specialize (H1 eq_refl Ha). unfold locked in H1. by rewrite Hr0 in H1.
    + unfold locked. replace (fl_lk (set_lk lk (if killed then set_sent Settled f else f))) with lk by done. intros Hlo. apply negb_true_iff in Hlo.
      by rewrite Hk.
  - pose proof (wi_safe _ Hw i f Hi) as Hsf. apply onTimeout_locks in Hr as (He & Hk & Hrel).
    apply (winv_set w i f); [by apply Hsame|done| | |by destruct killed].
    + eapply safe_leases; [exact He|]. apply safe_release; [done|done|done|]. intros Hlr Ha. destruct (Hrel Hlr) as [Hr0|Hki]; [|auto].
      left. destruct Hsf as (_ & _ & H1 & _). destruct (fl_sent f); [|done]. specialize (H1 eq_refl Ha). unfold locked in H1. by rewrite Hr0 in H1.
    + unfold locked. cbn. intros Hlo. apply negb_true_iff in Hlo. by rewrite Hk.
  - apply winv_eng; [done|]. intros i f q Hi Hfe Hq. eapply lease_op_frame; [exact Hop|]. intros ->. by eapply (Hu i f).
  - apply winv_eng; [done|]. intros i f q _ _ _. apply heartbeat_tenant.
  - by apply Hsame.
  - by apply Hsame.
Qed.
End world.

(** C2: whatever Redis may still run holds its leases.  In any interleaving of
    units, lease commands, sweeps and flushes, with calls lost or not, for a
    unit that was admitted and whose outcome is not final, the plan of the unit
    names its projects, and its principal holds the lease of each of them at
    the epoch it was admitted under, settled.  So two such units on a project
    are of one principal; and a unit that changes the topology is alone. *)
Theorem writes_in_flight_hold_leases side roots volumeDB clock net d vs w i f ep :
  rtc (wstep side roots volumeDB clock net) (mkWorld d vs ∅) w ->
  w_units w !! i = Some f -> fl_state f = Passed ep -> fl_sent f = Pending -> fl_bypass f = false -> 0 ∉ fl_projs f ->
  (exists d0 d1, plan side roots volumeDB (fl_p f) (fl_u f) d0 = (Ok (fl_pn f), d1) /\ pn_needs (fl_pn f) = NeedLease (fl_projs f)) /\
  (forall pr, pr ∈ fl_projs f -> holds (fl_p f) (d_eng (w_d w)) ep pr) /\
  (forall j g ep' pr, w_units w !! j = Some g -> fl_state g = Passed ep' -> fl_sent g = Pending -> fl_bypass g = false -> 0 ∉ fl_projs g ->
     pr ∈ fl_projs f -> pr ∈ fl_projs g -> PName (fl_p g) = PName (fl_p f)) /\
  (moves (fl_u f) = true -> forall j g, w_units w !! j = Some g -> locked g = true -> j = i).
Proof.
  intros Hr Hi Hs Hp Hb H0. assert (Hw : winv side roots volumeDB w).
  { revert Hr. apply rtc_ind_r; [|intros x y _ Hxy HI; by eapply wstep_inv]. split; cbn; intros j; intros; by rewrite lookup_empty in *. }
  assert (Hh : forall j g ep', w_units w !! j = Some g -> fl_state g = Passed ep' -> fl_sent g = Pending -> fl_bypass g = false -> 0 ∉ fl_projs g ->
    locked g = true /\ forall pr, pr ∈ fl_projs g -> holds (fl_p g) (d_eng (w_d w)) ep' pr).
  { intros j g ep' Hj Hsg Hpg Hbg Hzg. destruct (wi_safe _ _ _ _ Hw j g Hj) as (_ & _ & H1 & H2).
    assert (locked g = true) by (apply H1; [done|by rewrite Hsg]). eauto. }
  destruct (Hh i f ep Hi Hs Hp Hb H0) as [Hl Hf]. split_and!; [by apply (wi_safe _ _ _ _ Hw i f Hi)|done| |].
  - intros j g ep' pr Hj Hsg Hpg Hbg Hzg Hpf Hpr. destruct (Hh j g ep' Hj Hsg Hpg Hbg Hzg) as [_ Hg].
    destruct (Hf pr Hpf) as (l & E1 & _ & _ & E2 & _), (Hg pr Hpr) as (l' & E3 & _ & _ & E4 & _). congruence.
  - intros Hm j g Hj Hlg. destruct (decide (i = j)) as [|Hn]; [done|].
    pose proof (wi_topo _ _ _ _ Hw i j f g Hi Hj Hl Hlg Hn). congruence.
Qed.

(** ** A run: alice's Mac creates a file in project 3, which nobody holds *)
Module WorldExamples.
Import GuardExamples TreeExamples PlaceExamples.
Definition clock := LeaseExamples.clock.
Definition net := LeaseExamples.net.
Definition d0 : dstate := mkD (set_anc a0 LeaseExamples.e0) 0 (0, 0) None.
Definition w0 : world := mkWorld d0 (mkViews ∅ ∅) ∅.
Definition pn : planned := match fst (plan side1 [] 0 mac create d0) with Ok x => x | Err _ => noPlan end.
Definition d1 : dstate := snd (plan side1 [] 0 mac create d0).
Definition started : world := mkWorld (set_eng (snd (launch clock mac create pn (d_eng d1))) d1) (w_views w0) {[0%nat := fst (launch clock mac create pn (d_eng d1))]}.
Definition advance (w : world) : world :=
  match w_units w !! 0%nat with
  | Some f =>
      match ustep clock net (fl_p f) (fl_bypass f) (fl_projs f) (fl_state f) (d_eng (w_d w)) with
      | (Ok st, e) => mkWorld (set_eng e (w_d w)) (w_views w) (<[0%nat := set_state st f]> (w_units w))
      | _ => w
      end
  | None => w
  end.
Definition quiet (w : world) : bool := forallb (fun '(_, f) => negb (fencing f)) (map_to_list (w_units w)).
Lemma quiet_unfenced w pr : quiet w = true -> unfenced w pr.
Proof.
  intros Hq i f Hi Hf. unfold quiet in Hq. rewrite forallb_forall in Hq. specialize (Hq (i, f)). cbn in Hq.
  rewrite Hf in Hq. discriminate Hq. apply list_elem_of_In. by apply elem_of_map_to_list.
Qed.
Definition ready (w : world) : bool :=
  match w_units w !! 0%nat with
  | Some f =>
      negb (isFinal (fl_state f)) && quiet w &&
      match fst (ustep clock net (fl_p f) (fl_bypass f) (fl_projs f) (fl_state f) (d_eng (w_d w))) with Ok _ => true | Err _ => false end
  | None => false
  end.
Lemma advance_step w : ready w = true -> wstep side1 [] 0 clock net w (advance w).
Proof.
  unfold ready, advance. destruct (w_units w !! 0%nat) as [f|] eqn:H1; [|done]. intros [[H2 H3]%andb_prop H4]%andb_prop.
  destruct (ustep _ _ _ _ _ _ _) as [[st|] e] eqn:E; [|done].
  eapply w_unit; [done|by apply negb_true_iff| |exact E]. intros pr _. by apply quiet_unfenced.
Qed.
Definition w1 : world := advance started.
Definition w2 : world := advance w1.
Definition w3 : world := advance w2.
Definition w4 : world := advance w3.
Definition flight1 : flight := default (mkFlight mac create true [] noPlan (Passed ∅) Settled heldLocks) (w_units w4 !! 0%nat).
Lemma planned1 : plan side1 [] 0 mac create d0 = (Ok pn, d1).
Proof.
  assert (E : match fst (plan side1 [] 0 mac create d0) with Ok _ => true | Err _ => false end = true) by (vm_compute; reflexivity).
  unfold pn, d1. destruct (plan side1 [] 0 mac create d0) as [[x|x] d]; [reflexivity|discriminate E].
Qed.
Lemma run : rtc (wstep side1 [] 0 clock net) w0 w4.
Proof.
  apply rtc_l with started.
  { apply (w_plan side1 [] 0 clock net w0 0%nat mac create pn d1 (fst (launch clock mac create pn (d_eng d1))) (snd (launch clock mac create pn (d_eng d1))));
      [done|intros i f H; by destruct i|exact planned1|apply surjective_pairing]. }
  apply rtc_l with w1; [apply advance_step; vm_compute; reflexivity|]. apply rtc_l with w2; [apply advance_step; vm_compute; reflexivity|].
  apply rtc_l with w3; [apply advance_step; vm_compute; reflexivity|]. apply rtc_once. apply advance_step; vm_compute; reflexivity.
Qed.
Definition epochs1 : gmap Z Z := {[3 := 1]}.
Lemma in4 : w_units w4 !! 0%nat = Some flight1.
Proof.
  assert (E : bool_decide (is_Some (w_units w4 !! 0%nat)) = true) by (vm_compute; reflexivity). apply bool_decide_eq_true in E as [f E].
  unfold flight1. by rewrite E.
Qed.
Lemma admitted4 : fl_state flight1 = Passed epochs1.
Proof. vm_compute. reflexivity. Qed.
Lemma projs4 : fl_projs flight1 = [3].
Proof. vm_compute. reflexivity. Qed.
Lemma nonzero4 : 0 ∉ fl_projs flight1.
Proof. rewrite projs4. by intros H%list_elem_of_singleton. Qed.
Lemma three4 : 3 ∈ fl_projs flight1.
Proof. rewrite projs4. by apply list_elem_of_singleton. Qed.
End WorldExamples.

Lemma writes_in_flight_hold_leases_witness :
  holds (fl_p WorldExamples.flight1) (d_eng (w_d WorldExamples.w4)) WorldExamples.epochs1 3.
Proof.
  destruct (writes_in_flight_hold_leases PlaceExamples.side1 [] 0 WorldExamples.clock WorldExamples.net WorldExamples.d0 (mkViews ∅ ∅) WorldExamples.w4
    0%nat WorldExamples.flight1 WorldExamples.epochs1 WorldExamples.run WorldExamples.in4 WorldExamples.admitted4 ltac:(vm_compute; reflexivity)
    ltac:(vm_compute; reflexivity) WorldExamples.nonzero4) as (_ & H & _).
  exact (H 3 WorldExamples.three4).
Defined.
