(* ===== verification/DecidePlan.v ===== *)
(** * What a plan covers

    A unit whose plan succeeds names every project it writes in; writes above
    the project depth are open, except that a directory entry there is only
    renamed or removed by an admin, or as an empty view of the Manager. *)

From stdpp Require Import sorting.
From S2P Require Import Prelude GoLib Resp Classify ClassifyFacts Policy Guard GuardCheck GuardTheorems TxnUnit Ancestry AncestryFacts AncestryTheorems Place PlaceFacts PlaceInv PlaceTheorems PlaceExamples Grants GrantsFacts LeaseStore Leases LeaseCmd SmartView Decide DecideFacts DecideWorld.

Lemma path_reaches T d l : path T d l -> reaches T (length l - 1) d.
Proof.
  induction 1 as [|d p l Hn Hd Ht Hp IH]; [constructor|]. cbn. replace (length l - 0)%nat with (Datatypes.S (length l - 1)); [by eapply reach_up|].
  destruct Hp; cbn; lia.
Qed.

Lemma walkUp_shape side k : forall c chain, keeps VShape (walkUp side k c chain).
Proof.
  assert (Hp : forall c, keeps VShape (parentOfDir side c)).
  { intros c. unfold parentOfDir. apply keeps_bind; [apply keeps_get|]. intros b. destruct (dirParent b !! c); [apply keeps_ret|].
    apply keeps_bind; [apply keeps_lift|]. intros [ai|]; [|apply keeps_err]. case_match; [apply keeps_err|].
    apply keeps_bind; [|intros _; apply keeps_ret]. apply keeps_modify. intros b1. by destruct (cacheDir_shape c (a_parent ai) (tomb_now (tomb b)) b1). }
  induction k as [|k IH]; intros c chain; cbn [walkUp]; case_match; try apply keeps_ret; [apply keeps_err|].
  apply keeps_bind; [apply Hp|]. intros q. case_match; [apply keeps_ret|apply IH].
Qed.
Lemma resolveDir_shape side d : keeps VShape (resolveDir side d).
Proof.
  unfold resolveDir. case_match; [apply keeps_ret|]. case_match; [apply keeps_ret|]. apply keeps_bind; [apply keeps_get|]. intros b.
  case_match; [apply keeps_ret|]. apply keeps_bind; [apply walkUp_shape|]. intros [chain|].
  - apply keeps_bind; [apply keeps_get|]. intros b1. case_match; (apply keeps_bind; [|intros _; apply keeps_ret]); apply keeps_modify; [done|].
    intros b2. apply memoChain_shape.
  - apply keeps_bind; [|intros _; apply keeps_ret]. by apply keeps_modify.
Qed.

Section plan.
Context (side : sideDoer) (T : gmap Z Z) (a : ancestry) (Hpb : placeable side T a).

Lemma resolveDir_keeps_good d b : is_u64 d -> good side T a b -> good side T a (snd (resolveDir side d b)).
Proof using Hpb.
  intros Hu Hg. destruct (resolveDir side d b) as [[l|x] b'] eqn:E.
  - apply (resolveDir_good side T a) in E as [? _]; [done|apply Hpb|done..].
  - pose proof Hg as (HV & Hs & Hf). pose proof (resolveDir_keeps side T (pb_wf _ _ _ Hpb) d b Hu Hs) as Hs'.
    pose proof (resolveDir_files side d b) as Hff. rewrite E in *. cbn in *. split_and!; [|done|by rewrite Hff].
    pose proof (resolveDir_shape side d b) as H. rewrite E in H. cbn in H. congruence.
Qed.

Lemma grantCheck_good p u f s s' : facts_wf f -> cache_ok side a s -> good side T a (g_anc s) ->
  grantCheck side p u f s = (Ok tt, s') -> good side T a (g_anc s').
Proof using Hpb.
  intros Hwf Hc Hs Hr. unfold grantCheck in Hr. destruct (UPerson u) as [person|]; [|discriminate]. destruct (negb _); [discriminate|].
  pose proof Hwf as [_ _ _ Hq Hrows]. rewrite Forall_forall in Hq. rewrite Forall_forall in Hrows.
  apply sm_bind_Ok in Hr as (gr & s1 & H1 & Hr). apply (dirsOrDenied_spec side T a) in H1 as [G1 Hgr]; [|done..]. revert Hr.
  refine (fun Hr => proj1 (gives_bind side T a _ _ (fun _ => True) (fun _ => True) _ _ s1 tt s' G1 Hr)).
  { intros x y z Hx Hy. split; [|done]. eapply (gives_mfor side T a) in Hy as [? _]; [done| |done].
    intros d Hd. eapply checkQuota_gives; [exact Hpb|exact Hgr|by apply Hq]. }
  intros _ _. apply (gives_bind side T a _ _ (fun _ => True)).
  { intros x y z Hx Hy. split; [|done]. eapply (gives_mfor side T a) in Hy as [? _]; [done| |done].
    intros r Hrr. eapply checkRow_gives; [exact Hpb|exact Hgr|by apply Hrows]. }
  intros _ _. case_match; [by apply gives_ret|]. eapply gives_bind; [by apply (placeGranted_gives side T a Hpb)|].
  intros locs (pl & Hok & <-). apply (gives_bind side T a _ _ (fun _ => True)).
  { intros x y z Hx Hy. split; [|done]. eapply (gives_mfor side T a) in Hy as [? _]; [done| |done]. intros l Hl.
    eapply inScope_gives; [exact Hpb|exact Hgr|].
    destruct (sp_inv _ _ _ _ _ _ (po_settled _ _ _ _ _ _ _ _ Hok)) as [[_ Hlu] _]. exact (proj1 (Forall_forall _ _) Hlu l Hl). }
  intros _ _ x y z Hx Hy. split; [|done]. eapply (gives_mfor side T a) in Hy as [? _]; [done| |done].
  intros op _. eapply checkRestore_gives; [exact Hpb|exact Hgr].
Qed.

Lemma touchesRootGo_good ops : forall b, Forall (fun op => is_u64 (o_dir op)) ops -> good side T a b -> good side T a (snd (touchesRootGo side ops b)).
Proof using Hpb.
  induction ops as [|op ops IH]; intros b Hu Hb; [done|]. apply Forall_cons in Hu as [Hu Hus]. cbn [touchesRootGo].
  destruct (o_trash op); [by apply IH|]. pose proof (resolveDir_keeps_good (o_dir op) b Hu Hb) as Hg.
  destruct (resolveDir side (o_dir op) b) as [[l|x] b']; cbn in *; [case_match; [done|by apply IH]|done].
Qed.

Context (roots : list string) (volumeDB : Z) (p : Principal) (u : Unit).
Context (Hserves : serves side T a) (Hdepth : depth a <= 4096).

(** A directory entry above the project depth is gone or renamed only as an
    empty view of the Manager. *)
Definition gated (op : dentryOp) : Prop :=
  o_trash op = false -> forall l v, located T a (o_dir op) l -> l_kind l = nsRoot ->
  read side volumeDB ["HGET"; "d" +:+ FormatUint (o_dir op); o_name op] = Ok v -> VNull v = false -> entryType (VStr v) = Some typeDir ->
  o_del op = true \/ o_val op <> VStr v ->
  o_del op = true /\ PKind p = KindManager /\ is_Some (smartViewRemoval side roots volumeDB p u op (VStr v)).

Lemma root_resolves d b l : is_u64 d -> good side T a b -> located T a d l -> l_kind l = nsRoot -> exists l' b', resolveDir side d b = (Ok l', b').
Proof using Hpb Hserves Hdepth.
  intros Hu (HV & Hs & _) Hl Hk. destruct Hl as [H1|H1|q H1 H2 H3|H1 H2]; [done| | |done].
  - subst. unfold resolveDir. cbn. by do 2 eexists.
  - apply path_reaches in H3 as Hr. refine (resolveDir_ok side T (pb_wf _ _ _ Hpb) _ d b Hu Hr _ Hs _); [|by eapply serves_shape].
    unfold path_loc in Hk. destruct (Z.ltb_spec (Z.of_nat (length q) - 1) (depth a)); [|unfold projectLoc in Hk; by case_match].
    unfold maxWalk. lia.
Qed.

Lemma rootEntry_spec r op s r' s' : is_u64 (o_dir op) -> good side T a (anc (d_eng s)) ->
  rootEntry side roots volumeDB p u r op s = (Ok r', s') -> good side T a (anc (d_eng s')) /\ gated op.
Proof using Hpb Hserves Hdepth.
  intros Hu Hg Hr. unfold rootEntry in Hr. unfold gated. destruct (o_trash op) eqn:Et; [injection Hr as <- <-; done|].
  pose proof (resolveDir_keeps_good (o_dir op) _ Hu Hg) as Hg'.
  destruct (resolveDir side (o_dir op) (anc (d_eng s))) as [[l|x] b'] eqn:E; cbn in Hg'.
  - apply pair_equal_spec in Hr as [Hr <-]. split; [done|]. intros _ l1 v Hl1 Hk Hv Hn Hty Hch.
    apply (resolveDir_good side T a) in E as [_ Hl]; [|apply Hpb|done..]. assert (l = l1) as -> by by eapply located_fun.
    rewrite Hk, Hv, Hn, Hty in Hr. cbn [negb] in Hr. rewrite !bool_decide_true in Hr by done. cbn [negb] in Hr.
    assert (Hc : o_del op || negb (o_val op =s VStr v) = true).
    { destruct Hch as [->|Hch]; [done|]. apply orb_true_iff. right. apply negb_true_iff. by apply eqs_false. }
    rewrite Hc in Hr. destruct (o_del op) eqn:Ed; cbn [andb] in Hr; [|discriminate].
    case_bool_decide as Hm; [|discriminate]. destruct (smartViewRemoval side roots volumeDB p u op (VStr v)) as [[n w]|]; [|discriminate].
    split_and!; [done..|by eexists].
  - injection Hr as <- <-. split; [done|]. intros _ l1 v Hl1 Hk.
    destruct (root_resolves _ _ _ Hu Hg Hl1 Hk) as (? & ? & E'). congruence.
Qed.

Lemma rootGate_spec ops : forall r s r' s', Forall (fun op => is_u64 (o_dir op)) ops -> good side T a (anc (d_eng s)) ->
  mfold (rootEntry side roots volumeDB p u) r ops s = (Ok r', s') -> forall op, op ∈ ops -> gated op.
Proof using Hpb Hserves Hdepth.
  induction ops as [|op ops IH]; intros r s r' s' Hu Hg Hr x Hx; [by apply elem_of_nil in Hx|]. apply Forall_cons in Hu as [Hu Hus].
  cbn [mfold] in Hr. apply sm_bind_Ok in Hr as (r1 & s1 & H1 & Hr). apply rootEntry_spec in H1 as [Hg1 Hgt]; [|done..].
  apply elem_of_cons in Hx as [->|Hx]; [done|by eapply IH].
Qed.
End plan.

Definition needed (pn : planned) : list Z := match pn_needs pn with NeedNone => [] | NeedStat _ ps => ps | NeedLease ps => ps end.

(** The plan lets the unit write at [l]. *)
Definition provided (p : Principal) (u : Unit) (pn : planned) (l : location) : Prop :=
  match l_kind l with
  | nsProject => l_proj l ∈ needed pn
  | nsRoot | nsDerivatives => True
  | nsTrash => bypasses p u = true
  | nsUnknown => False
  end.

Lemma projectsOf_in locs l : l ∈ locs -> l_kind l = nsProject -> l_proj l ∈ projectsOf locs.
Proof.
  intros Hl Hk. unfold projectsOf, sortSet, sortZ. rewrite merge_sort_Permutation, elem_of_elements, elem_of_list_to_set.
  apply list_elem_of_fmap. exists l. split; [done|]. apply list_elem_of_In, filter_In. split; [by apply list_elem_of_In|]. by apply bool_decide_true.
Qed.

Lemma checkLoc_run bypass l s s' : checkLoc bypass l s = (Ok tt, s') ->
  s' = s /\ match l_kind l with nsTrash => bypass = true | nsUnknown => False | _ => True end.
Proof. unfold checkLoc. destruct (l_kind l), bypass; intros [=]; done. Qed.

(** What is left of a plan once the unit passed the grants. *)
Lemma placed_plan side T a roots volumeDB p u d pn d' : placeable side T a -> facts_wf (analyzeUnit u) -> good side T a (anc (d_eng d)) ->
  (ls ← placeOrDeny side p u (analyzeUnit u) (bypasses p u);
   let '(locs, unlinked) := ls in
   rt ← always (touchesRoot side (analyzeUnit u)) true;
   mfor locs (checkLoc (bypasses p u)) ≫= fun _ =>
   removal ← (if bool_decide (PKind p = KindAdmin) then mret None else rootEntryGate side roots volumeDB p u (analyzeUnit u));
   creation ← (if bool_decide (PKind p = KindManager) then always (smartViewCreation side roots volumeDB p u (analyzeUnit u)) None else mret None);
   mret (mkPlanned (match projectsOf locs with [] => NeedNone | projs => NeedLease projs end) rt removal creation unlinked)) d = (Ok pn, d') ->
  (exists pl, placed_ok side T a (if bypasses p u then placeBypass else placeStrict) p u (analyzeUnit u) pl /\
     forall l, l ∈ pg_locs pl -> provided p u pn l) /\
  (PKind p <> KindAdmin -> serves side T a -> depth a <= 4096 -> forall op, op ∈ dentries (analyzeUnit u) -> gated side T a roots volumeDB p u op).
Proof.
  intros Hpb Hwf Hg Hr. apply sm_bind_Ok in Hr as ([locs unl] & d1 & H1 & Hr). unfold placeOrDeny in H1.
  destruct (placeUnit side _ p u (analyzeUnit u) (anc (d_eng d))) as [[x|] b] eqn:Ep; [|discriminate]. injection H1 as -> <-.
  apply (placeUnit_spec side T a Hpb (anc (d_eng d)) Hg _ p u _ Hwf) in Ep as (pl & Hok & <- & <-).
  assert (Hu : Forall (fun op => is_u64 (o_dir op)) (dentries (analyzeUnit u))) by (eapply Forall_impl; [apply Hwf|]; by intros ? [? _]).
  assert (Hg1 : good side T a (pg_anc pl)) by apply (sp_inv _ _ _ _ _ _ (po_settled _ _ _ _ _ _ _ _ Hok)).
  apply sm_bind_Ok in Hr as (rt & d2 & H2 & Hr).
  assert (Hg2 : good side T a (anc (d_eng d2))).
  { pose proof (touchesRootGo_good side T a Hpb _ _ Hu Hg1) as Hb. unfold always, touchesRoot in H2. cbn in H2.
    destruct (touchesRootGo side (dentries (analyzeUnit u)) (pg_anc pl)) as [[y|y] b]; injection H2 as _ <-; exact Hb. }
  apply sm_bind_Ok in Hr as ([] & d3 & H3 & Hr).
  destruct (mfor_each (fun s => s = d2) (fun l _ => match l_kind l with nsTrash => bypasses p u = true | nsUnknown => False | _ => True end)
    (checkLoc (bypasses p u)) (pg_locs pl) d2 d3) as [-> Hk]; [done| |done|done|].
  { intros l x y -> _ Hb. apply checkLoc_run in Hb as [-> ?]. done. }
  apply sm_bind_Ok in Hr as (rm & d4 & H4 & Hr). apply sm_bind_Ok in Hr as (cr & d5 & _ & Hr). injection Hr as <- _. split.
  - exists pl. split; [done|]. intros l Hl. specialize (Hk l Hl). unfold provided, needed. cbn.
    destruct (l_kind l) eqn:Ek; try done. pose proof (projectsOf_in _ _ Hl Ek) as Hin. by destruct (projectsOf (pg_locs pl)).
  - intros Ha Hsv Hdp. rewrite bool_decide_false in H4 by done. by eapply rootGate_spec.
Qed.

(** C7: a unit that Decide plans writes nowhere but in the projects its plan
    names, in the shared derivatives and above the project depth.  The directory
    of every entry it sets or removes outside the trash is there, and so is
    every place of every inode it writes, links or unlinks; the trash is left
    to restores.  Above the project depth only an admin renames or removes a
    directory, except for the Manager's removal of an empty view. *)
Theorem plan_covers_writes side T roots volumeDB p u d pn d' :
  let a := anc (d_eng d) in let f := analyzeUnit u in
  placeable side T a -> unit_wf u -> cache_ok side a (grantsOf d) -> serves side T a -> depth a <= 4096 -> dirStatOnly f = false ->
  plan side roots volumeDB p u d = (Ok pn, d') ->
  (forall op, op ∈ dentries f -> o_trash op = false -> exists l, located T a (o_dir op) l /\ provided p u pn l) /\
  (forall n isDir par, touches side a f n -> n <> rootIno -> isTrashIno n = false -> stored_in side a n isDir par ->
     exists l, place_at T a n isDir par l /\
     (provided p u pn l \/ l_kind l = nsTrash /\ (bypasses p u = false -> restored side a f n par))) /\
  (PKind p <> KindAdmin -> forall op, op ∈ dentries f -> gated side T a roots volumeDB p u op).
Proof.
  intros a f Hpb Huw Hc Hsv Hdp Hst Hr. pose proof (analyzeUnit_wf u Huw) as Hwf. unfold plan in Hr. cbv zeta in Hr.
  apply sm_bind_Ok in Hr as ([] & d1 & H1 & Hr).
  assert (Hg1 : good side T a (anc (d_eng d1))).
  { destruct (grantsApply p u); [|injection H1 as <-; by apply placeable_good]. unfold checkGrants in H1.
    destruct (grantCheck side p u (analyzeUnit u) (grantsOf d)) as [r g] eqn:Eg. injection H1 as -> <-.
    refine (grantCheck_good side T a Hpb p u _ _ _ Hwf Hc _ Eg). by apply placeable_good. }
  apply sm_bind_Ok in Hr as ([] & d2 & H2 & Hr). destruct (bool_decide (unresolvable (analyzeUnit u) = [])); [|discriminate H2]. injection H2 as <-.
  unfold f in Hst. rewrite Hst in Hr. destruct (placed_plan _ _ _ _ _ _ _ _ _ _ Hpb Hwf Hg1 Hr) as [(pl & Hok & Hprov) Hgate].
  destruct (placed_covers _ _ _ _ _ _ _ _ Hpb Hok) as [Hdir Hino]. split_and!.
  - intros op Hop Ht. destruct (Hdir op Hop Ht) as (l & Hl & Hin). eauto.
  - intros n isDir par Ht Hn Htr Hs. destruct (Hino n isDir par Ht Hn Htr Hs) as (l & Hl & Hcase). exists l. split; [done|].
    destruct Hcase as [Hin|[Hk Hres]]; [left; by apply Hprov|right; split; [done|]]. intros Hb. apply Hres. by rewrite Hb.
  - intros Ha. by apply Hgate.
Qed.

Module PlanExamples.
Import TreeExamples PlaceExamples.
Lemma serves1 : serves side1 tree a0.
Proof.
  intros n q Hu Hn. unfold tree. rewrite !lookup_insert_Some, lookup_singleton_Some.
  intros [[<- <-]|(_ & [[<- <-]|(_ & [<- <-])])]; rewrite reads1 by done; eexists; (split; [reflexivity|done]).
Qed.
Lemma fresh1 : cache_ok side1 a0 (grantsOf WorldExamples.d0).
Proof. intros path ino H. exfalso. revert H. vm_compute. destruct path; discriminate. Qed.
End PlanExamples.

Lemma plan_covers_writes_witness : exists l, located TreeExamples.tree TreeExamples.a0 3 l /\
  provided GuardExamples.mac PlaceExamples.create WorldExamples.pn l.
Proof.
  destruct (plan_covers_writes PlaceExamples.side1 TreeExamples.tree [] 0 GuardExamples.mac PlaceExamples.create WorldExamples.d0 WorldExamples.pn
    WorldExamples.d1 PlaceExamples.placeable1 PlaceRuns.create_wf PlanExamples.fresh1 PlanExamples.serves1 ltac:(vm_compute; discriminate)
    ltac:(vm_compute; reflexivity) WorldExamples.planned1) as [H _].
  exact (H PlaceRuns.creating PlaceRuns.creating_in eq_refl).
Defined.
