(* ===== verification/Sha256.v ===== *)
(** * SHA-256 (Go's crypto/sha256)

    FIPS 180-4 SHA-256 on byte strings, executable, sharing the padding and
    the words of [Sha1].  The authenticator keys its cache of verified
    passwords with it (auth.go [cacheKey]). *)

From S2P Require Import Prelude GoLib Sha1.

Definition rotr (n x : Z) : Z := w32 (Z.lor (Z.shiftr x n) (Z.shiftl x (32 - n))).

(** The constants as the standard defines them: the first 32 bits of the
    fractional parts of the cube roots and square roots of the first primes. *)
Definition is_prime (n : Z) : bool := forallb (fun d => negb (n mod Z.of_nat d =? 0)) (seq 2 (Z.to_nat n - 2)).
Definition primes : list Z := List.filter is_prime (Z.of_nat <$> seq 2 310).

(** The integer [k]-th root below [2^bits], from the highest bit down. *)
Fixpoint iroot (k : Z) (bits : nat) (r x : Z) : Z :=
  match bits with
  | O => r
  | S b => let r' := r + 2 ^ Z.of_nat b in iroot k b (if r' ^ k <=? x then r' else r) x
  end.
Definition fracRoot (k p : Z) : Z := w32 (iroot k 36 0 (p * 2 ^ (32 * k))).

Definition k256 : list Z := Eval vm_compute in fracRoot 3 <$> primes.
Definition h256 : list Z := Eval vm_compute in fracRoot 2 <$> take 8 primes.

(** The schedule, newest word first. *)
Fixpoint extend256 (n : nat) (w : list Z) : list Z :=
  match n with
  | O => w
  | S n' =>
      let at_ k := default 0 (w !! k) in
      let s0 := let x := at_ 14%nat in Z.lxor (Z.lxor (rotr 7 x) (rotr 18 x)) (Z.shiftr x 3) in
      let s1 := let x := at_ 1%nat in Z.lxor (Z.lxor (rotr 17 x) (rotr 19 x)) (Z.shiftr x 10) in
      extend256 n' (w32 (at_ 15%nat + s0 + at_ 6%nat + s1) :: w)
  end.

Record regs256 : Type := mkRegs256 { ha : Z; hb : Z; hc : Z; hd : Z; he : Z; hf : Z; hg : Z; hh : Z }.

Definition round256 (r : regs256) (kw : Z * Z) : regs256 :=
  let '(mkRegs256 a b c d e f g h) := r in
  let s1 := Z.lxor (Z.lxor (rotr 6 e) (rotr 11 e)) (rotr 25 e) in
  let ch := Z.lxor (Z.land e f) (Z.land (w32 (Z.lnot e)) g) in
  let t1 := h + s1 + ch + fst kw + snd kw in
  let s0 := Z.lxor (Z.lxor (rotr 2 a) (rotr 13 a)) (rotr 22 a) in
  let maj := Z.lxor (Z.lxor (Z.land a b) (Z.land a c)) (Z.land b c) in
  mkRegs256 (w32 (t1 + s0 + maj)) a b c (w32 (d + t1)) e f g.

Definition block256 (r : regs256) (ws : list Z) : regs256 :=
  let s := foldl round256 r (zip k256 (reverse (extend256 48 (reverse ws)))) in
  mkRegs256 (w32 (ha r + ha s)) (w32 (hb r + hb s)) (w32 (hc r + hc s)) (w32 (hd r + hd s))
            (w32 (he r + he s)) (w32 (hf r + hf s)) (w32 (hg r + hg s)) (w32 (hh r + hh s)).

Fixpoint blocks256 (fuel : nat) (ws : list Z) (r : regs256) : regs256 :=
  match fuel with
  | O => r
  | S f => match ws with [] => r | _ => blocks256 f (drop 16 ws) (block256 r (take 16 ws)) end
  end.

Definition digest256 (m : string) : list Z :=
  let ws := words (pad (bytes_of m)) in
  let at_ k := default 0 (h256 !! k) in
  let r := blocks256 (length ws) ws (mkRegs256 (at_ 0%nat) (at_ 1%nat) (at_ 2%nat) (at_ 3%nat) (at_ 4%nat) (at_ 5%nat) (at_ 6%nat) (at_ 7%nat)) in
  [ha r; hb r; hc r; hd r; he r; hf r; hg r; hh r].

Definition sha256_hex (m : string) : string := foldr (fun w acc => hex_word 8 w acc) "" (digest256 m).

(** The 32 bytes of the sum. *)
Definition word_bytes (w : Z) (acc : string) : string :=
  String (byte_of (w / 2^24)) (String (byte_of (w / 2^16 mod 256)) (String (byte_of (w / 2^8 mod 256)) (String (byte_of (w mod 256)) acc))).
Definition sha256 (m : string) : string := foldr word_bytes "" (digest256 m).

(** The FIPS 180 test vectors. *)
Example sha256_empty : sha256_hex "" = "e3b0c44298fc1c149afbf4c8996fb92427ae41e4649b934ca495991b7852b855".
Proof. vm_compute. reflexivity. Qed.
Example sha256_abc : sha256_hex "abc" = "ba7816bf8f01cfea414140de5dae2223b00361a396177a9cb410ff61f20015ad".
Proof. vm_compute. reflexivity. Qed.
Example sha256_two_blocks :
  sha256_hex "abcdbcdecdefdefgefghfghighijhijkijkljklmklmnlmnomnopnopq" = "248d6a61d20638b8e5c026930c3e6039a33ce45964ff2167f6ecedd419db06c1".
Proof. vm_compute. reflexivity. Qed.
