(* ===== verification/Auth.v ===== *)
(** * Authentication (internal/respproxy/auth.go)

    The authenticator's memory and one definition per critical section: an
    AUTH looks at the throttle ([authBegin]), checks the password without the
    lock ([authCheck]) and records the outcome ([authFinish]); Swap installs a
    new principal table; [bind] and [unbind] register connections.  Instants
    are nanoseconds.  Tables are pointers, [tables] their contents; [argon] is
    argon2 (golang.org/x/crypto), [secret] the random cache key.  Closing the
    sockets, the semaphore, the hash burned for unknown users and the counters of
    verifications are left out. *)

From S2P Require Import Prelude GoLib Sha1 Sha256 Policy.

Definition throttleFree : Z := 5.
Definition throttleWindow : Z := 600 * 10^9.
Definition throttleMaxLock : Z := 900 * 10^9.
Definition unknownFree : Z := 50.
Definition verifyCacheMax : Z := 4096.
Definition maxFailRecords : Z := 100000.

Record failRec : Type := mkFail { fr_n : Z; fr_first : Z; fr_lockedUntil : Z }.
(** The zero time.Time. *)
Definition zeroTime : Z := - 62135596800 * 10^9.
(** [t.Sub(u)] saturates. *)
Definition Sub (t u : Z) : Z := Z.max min_i64 (Z.min max_i64 (t - u)).

(** *** Hashes and principals *)
Record argon2Hash : Type := mkHash { ah_time : Z; ah_memory : Z; ah_threads : Z; ah_salt : string; ah_key : string }.
#[export] Instance argon2Hash_eq_dec : EqDecision argon2Hash.
Proof. solve_decision. Defined.
#[export] Instance Principal_eq_dec : EqDecision Principal.
Proof. solve_decision. Defined.
Record principalRec : Type := mkRec { pr_p : Principal; pr_hash : argon2Hash }.
Definition samePrincipalRecord (a b : principalRec) : bool :=
  bool_decide (pr_p a = pr_p b) && (ah_time (pr_hash a) =? ah_time (pr_hash b)) && (ah_memory (pr_hash a) =? ah_memory (pr_hash b)) &&
  (ah_threads (pr_hash a) =? ah_threads (pr_hash b)) && (ah_salt (pr_hash a) =s ah_salt (pr_hash b)) && (ah_key (pr_hash a) =s ah_key (pr_hash b)).

Record conn : Type := mkConn { cn_inactive : bool; cn_revoked : bool; cn_owned : bool; cn_principal : option Principal }.

Record authenticator : Type := mkAuth {
  au_table : Z;
  au_epoch : Z;
  au_fails : gmap string failRec;
  au_unknown : failRec;
  au_verified : gmap string string;
  au_sessions : gmap Z principalRec;
}.

Record authTicket : Type := mkTicket { tk_table : Z; tk_epoch : Z; tk_rec : principalRec }.
Inductive AuthResult : Type := AuthOK (t : authTicket) | AuthBad | AuthThrottled.

(** The lockout after [n] failures: 1 s, doubling, capped. *)
Definition lockFor (n : Z) : Z :=
  let lock := Z.shiftl (10^9) (Z.min (Z.max (n - throttleFree) 0) 10) in
  if throttleMaxLock <? lock then throttleMaxLock else lock.

(** [net.SplitHostPort], the host only. *)
Fixpoint LastIndexByte (s : string) (c : ascii) : option nat :=
  match s with
  | "" => None
  | String b s' =>
      match LastIndexByte s' c with
      | Some i => Some (Datatypes.S i)
      | None => if Ascii.eqb b c then Some O else None
      end
  end.
Definition hasByte (s : string) (c : ascii) : bool := match IndexByte s c with Some _ => true | None => false end.
Definition SplitHost (hostport : string) : option string :=
  i ← LastIndexByte hostport ":";
  match hostport with
  | String "[" _ =>
      e ← IndexByte hostport "]";
      if negb (Nat.eqb (e + 1) i) then None
      else if hasByte (sdrop 1 hostport) "[" || hasByte (sdrop (e + 1) hostport) "]" then None
      else Some (sub hostport 1 e)
  | _ =>
      let h := stake i hostport in
      if hasByte h ":" || hasByte hostport "[" || hasByte hostport "]" then None else Some h
  end.
Definition clientIP (remote : string) : string := default remote (SplitHost remote).

Section ops.
Context (tables : Z -> gmap string principalRec) (argon : argon2Hash -> string -> bool) (secret : string).

Definition lookupUser (t : Z) (user : string) : option principalRec := tables t !! user.
Definition cacheKey (user pass : string) : string := sha256 (secret +:+ user +:+ String "000" pass).
Definition failKey (remote user : string) : string := clientIP remote +:+ String "000" user.

(** *** AUTH *)
Record authAttempt : Type := mkAttempt { am_key : string; am_user : string; am_pass : string; am_rec : option principalRec; am_table : Z; am_epoch : Z; am_now : Z }.

Definition setFails (x : gmap string failRec) (a : authenticator) : authenticator :=
  mkAuth (au_table a) (au_epoch a) x (au_unknown a) (au_verified a) (au_sessions a).
Definition setUnknown (x : failRec) (a : authenticator) : authenticator :=
  mkAuth (au_table a) (au_epoch a) (au_fails a) x (au_verified a) (au_sessions a).
Definition setVerified (x : gmap string string) (a : authenticator) : authenticator :=
  mkAuth (au_table a) (au_epoch a) (au_fails a) (au_unknown a) x (au_sessions a).
Definition setSessions (x : gmap Z principalRec) (a : authenticator) : authenticator :=
  mkAuth (au_table a) (au_epoch a) (au_fails a) (au_unknown a) (au_verified a) x.

(** [None]: throttled. *)
Definition authBegin (remote user pass : string) (now : Z) (a : authenticator) : option authAttempt * authenticator :=
  let key := failKey remote user in
  let rec := lookupUser (au_table a) user in
  let go := Some (mkAttempt key user pass rec (au_table a) (au_epoch a) now) in
  match rec with
  | Some _ =>
      match au_fails a !! key with
      | Some f =>
          if now <? fr_lockedUntil f
          then (None, setFails (<[key := mkFail (fr_n f + 1) (fr_first f) (now + lockFor (fr_n f + 1))]> (au_fails a)) a)
          else (go, a)
      | None => (go, a)
      end
  | None =>
      let un := if throttleWindow <? Sub now (fr_first (au_unknown a)) then mkFail 0 now zeroTime else au_unknown a in
      if unknownFree <=? fr_n un then (None, setUnknown (mkFail (fr_n un + 1) (fr_first un) (fr_lockedUntil un)) a)
      else (go, setUnknown un a)
  end.

(** A cached verification of this user and password. *)
Definition cached (m : authAttempt) (a : authenticator) : bool :=
  match au_verified a !! cacheKey (am_user m) (am_pass m) with
  | Some name => bool_decide (is_Some (am_rec m)) && (name =s am_user m)
  | None => false
  end.
Definition authCheck (m : authAttempt) (a : authenticator) : bool :=
  cached m a || match am_rec m with Some r => argon (pr_hash r) (am_pass m) | None => false end.

Definition stale (now : Z) (f : failRec) : bool := (fr_lockedUntil f <? now) && (throttleWindow <? Sub now (fr_first f)).
Definition pruneFails (now : Z) (m : gmap string failRec) : gmap string failRec := filter (fun kf => stale now (snd kf) = false) m.

(** One more failure of a known user. *)
Definition failed (key : string) (now : Z) (fails : gmap string failRec) : gmap string failRec :=
  let old := fails !! key in
  let reset := match old with Some f => throttleWindow <? Sub now (fr_first f) | None => true end in
  let fails := if bool_decide (old = None) && (maxFailRecords <=? Z.of_nat (size fails)) then pruneFails now fails else fails in
  let f := match old with Some f => if reset then mkFail 0 now zeroTime else f | None => mkFail 0 now zeroTime end in
  let n := fr_n f + 1 in
  <[key := mkFail n (fr_first f) (if throttleFree <=? n then now + lockFor n else fr_lockedUntil f)]> fails.

Definition authFinish (m : authAttempt) (ok : bool) (a : authenticator) : AuthResult * authenticator :=
  if negb (au_epoch a =? am_epoch m) || negb (au_table a =? am_table m) then (AuthBad, a)
  else match ok, am_rec m with
       | true, Some r =>
           let verified := if verifyCacheMax <=? Z.of_nat (size (au_verified a)) then ∅ else au_verified a in
           (AuthOK (mkTicket (am_table m) (am_epoch m) r),
            setVerified (<[cacheKey (am_user m) (am_pass m) := am_user m]> verified) (setFails (delete (am_key m) (au_fails a)) a))
       | _, None => (AuthBad, setUnknown (mkFail (fr_n (au_unknown a) + 1) (fr_first (au_unknown a)) (fr_lockedUntil (au_unknown a))) a)
       | false, Some _ => (AuthBad, setFails (failed (am_key m) (am_now m) (au_fails a)) a)
       end.

(** With nothing in between. *)
Definition authenticateTicket (remote user pass : string) (now : Z) (a : authenticator) : AuthResult * authenticator :=
  match authBegin remote user pass now a with
  | (Some m, a') => authFinish m (authCheck m a') a'
  | (None, a') => (AuthThrottled, a')
  end.

(** *** Connections *)
Definition outdated (t : Z) (old : principalRec) : bool :=
  match lookupUser t (PName (pr_p old)) with Some fresh => negb (samePrincipalRecord old fresh) | None => true end.
Definition revoke (c : conn) : conn := mkConn (cn_inactive c) true (cn_owned c) (cn_principal c).

Definition Swap (t : Z) (s : authenticator * gmap Z conn) : authenticator * gmap Z conn :=
  let '(a, conns) := s in
  (mkAuth t (u64 (au_epoch a + 1)) (au_fails a) (au_unknown a) ∅ (au_sessions a),
   map_imap (fun i c => Some match au_sessions a !! i with Some old => if outdated t old then revoke c else c | None => c end) conns).

Definition bind (i : Z) (t : authTicket) (s : authenticator * gmap Z conn) : bool * (authenticator * gmap Z conn) :=
  let '(a, conns) := s in
  match conns !! i with
  | Some c =>
      if cn_inactive c || cn_revoked c || negb (au_epoch a =? tk_epoch t) || negb (au_table a =? tk_table t) then (false, s)
      else (true, (setSessions (<[i := tk_rec t]> (au_sessions a)) a,
                   <[i := mkConn false false true (Some (pr_p (tk_rec t)))]> conns))
  | None => (false, s)
  end.

Definition unbind (i : Z) (s : authenticator * gmap Z conn) : authenticator * gmap Z conn :=
  let '(a, conns) := s in
  (setSessions (delete i (au_sessions a)) a, alter (fun c => mkConn true (cn_revoked c) (cn_owned c) (cn_principal c)) i conns).
End ops.
