(* ===== verification/AuthFacts.v ===== *)
(** * Theorems of the authenticator

    AUTH attempts, reloads of the principal table and connections as the steps
    of a world, in any order: a connection that is not revoked belongs to a
    principal of the current table, and an AUTH succeeds only on a password
    that argon2 accepts for it.  Attempts one after the other are throttled;
    attempts side by side are not. *)

From stdpp Require Import sorting.
From S2P Require Import Prelude GoLib Sha256 Policy Auth.

Section world.
Context (tables : Z -> gmap string principalRec) (argon : argon2Hash -> string -> bool) (secret : string).

(** [aw_swaps] counts the reloads; an attempt is kept with the count at its
    beginning and the outcome of its check. *)
Record aworld : Type := mkAW {
  aw_auth : authenticator; aw_conns : gmap Z conn; aw_swaps : Z; aw_open : gmap nat (authAttempt * Z * option bool); aw_tickets : list authTicket;
}.

Inductive astep (w : aworld) : aworld -> Prop :=
  | as_begin i remote user pass now m a : authBegin tables remote user pass now (aw_auth w) = (Some m, a) ->
      astep w (mkAW a (aw_conns w) (aw_swaps w) (<[i := (m, aw_swaps w, None)]> (aw_open w)) (aw_tickets w))
  | as_throttled remote user pass now a : authBegin tables remote user pass now (aw_auth w) = (None, a) ->
      astep w (mkAW a (aw_conns w) (aw_swaps w) (aw_open w) (aw_tickets w))
  | as_check i m g : aw_open w !! i = Some (m, g, None) ->
      astep w (mkAW (aw_auth w) (aw_conns w) (aw_swaps w) (<[i := (m, g, Some (authCheck argon secret m (aw_auth w)))]> (aw_open w)) (aw_tickets w))
  | as_finish i m g ok r a : aw_open w !! i = Some (m, g, Some ok) -> authFinish secret m ok (aw_auth w) = (r, a) ->
      astep w (mkAW a (aw_conns w) (aw_swaps w) (delete i (aw_open w)) (match r with AuthOK t => t :: aw_tickets w | _ => aw_tickets w end))
  | as_accept i : aw_conns w !! i = None ->
      astep w (mkAW (aw_auth w) (<[i := mkConn false false false None]> (aw_conns w)) (aw_swaps w) (aw_open w) (aw_tickets w))
  | as_bind i t b a cs : t ∈ aw_tickets w -> bind i t (aw_auth w, aw_conns w) = (b, (a, cs)) ->
      astep w (mkAW a cs (aw_swaps w) (aw_open w) (aw_tickets w))
  | as_unbind i a cs : unbind i (aw_auth w, aw_conns w) = (a, cs) -> astep w (mkAW a cs (aw_swaps w) (aw_open w) (aw_tickets w))
  | as_swap t a cs : Swap tables t (aw_auth w, aw_conns w) = (a, cs) -> astep w (mkAW a cs (aw_swaps w + 1) (aw_open w) (aw_tickets w)).

(** Nobody has connected yet. *)
Definition quietStart (t : Z) : aworld :=
  mkAW (mkAuth t 1 ∅ (mkFail 0 zeroTime zeroTime) ∅ ∅) ∅ 0 ∅ [].

(** ** The invariant *)
Context (Htab : forall t user r, tables t !! user = Some r -> PName (pr_p r) = user).

(** The record [r] of [user] accepts [pass], or one with the same cache key. *)
Definition vouched (r : principalRec) (user pass : string) : Prop :=
  exists pass', argon (pr_hash r) pass' = true /\ cacheKey secret user pass' = cacheKey secret user pass.

Definition sess_ok (a : authenticator) (cs : gmap Z conn) : Prop :=
  forall i c p, cs !! i = Some c -> cn_revoked c = false -> cn_inactive c = false -> cn_principal c = Some p ->
  exists r, au_sessions a !! i = Some r /\ pr_p r = p /\ tables (au_table a) !! PName p = Some r.

Definition cache_sound (a : authenticator) : Prop :=
  forall ck user, au_verified a !! ck = Some user ->
  exists r pass, tables (au_table a) !! user = Some r /\ argon (pr_hash r) pass = true /\ ck = cacheKey secret user pass.

Record ainv (w : aworld) : Prop := {
  ai_epoch : au_epoch (aw_auth w) = u64 (1 + aw_swaps w) /\ 0 <= aw_swaps w;
  ai_cache : cache_sound (aw_auth w);
  ai_sess : sess_ok (aw_auth w) (aw_conns w);
  ai_tickets : forall t, t ∈ aw_tickets w -> tables (tk_table t) !! PName (pr_p (tk_rec t)) = Some (tk_rec t);
  ai_open : forall i m g ok, aw_open w !! i = Some (m, g, ok) ->
    am_rec m = tables (am_table m) !! am_user m /\ am_epoch m = u64 (1 + g) /\ 0 <= g <= aw_swaps w /\
    (g = aw_swaps w -> am_table m = au_table (aw_auth w) /\
       (ok = Some true -> exists r, am_rec m = Some r /\ vouched r (am_user m) (am_pass m)));
}.

Lemma same_record a b : samePrincipalRecord a b = true -> a = b.
Proof.
  unfold samePrincipalRecord. destruct a as [p [? ? ? ? ?]], b as [q [? ? ? ? ?]]. cbn. rewrite !andb_true_iff. intros [[[[[H1 H2] H3] H4] H5] H6].
  apply bool_decide_eq_true in H1. apply Z.eqb_eq in H2, H3, H4. apply eqs_true in H5, H6. by subst.
Qed.

(** Throttling touches neither the table nor the sessions. *)
Definition VAuth (a : authenticator) := (au_table a, au_epoch a, au_verified a, au_sessions a).
Lemma authBegin_keeps remote user pass now a r a' : authBegin tables remote user pass now a = (r, a') -> VAuth a' = VAuth a /\
  forall m, r = Some m -> am_user m = user /\ am_rec m = tables (au_table a) !! user /\ am_table m = au_table a /\ am_epoch m = au_epoch a.
Proof.
  unfold authBegin. cbn zeta. destruct (lookupUser tables (au_table a) user) as [x|] eqn:E.
  - destruct (au_fails a !! _); [case_match|]; intros [= <- <-]; (split; [done|]); intros m [= <-]; done.
  - case_match; intros [= <- <-]; (split; [done|]); intros m [= <-]; done.
Qed.

(** A check that succeeds vouches for the password, when the table is the one
    the attempt began with. *)
Lemma authCheck_vouched m a : cache_sound a -> am_rec m = tables (am_table m) !! am_user m -> am_table m = au_table a ->
  authCheck argon secret m a = true -> exists r, am_rec m = Some r /\ vouched r (am_user m) (am_pass m).
Proof.
  intros Hc Hr Ht. unfold authCheck, cached. rewrite orb_true_iff. intros [H|H].
  - destruct (au_verified a !! _) as [name|] eqn:E; [|done]. apply andb_prop in H as [_ Hn]. apply eqs_true in Hn. subst name.
    destruct (Hc _ _ E) as (r & pass & H1 & H2 & H3). exists r. split; [by rewrite Hr, Ht|]. by exists pass.
  - destruct (am_rec m) as [r|]; [|done]. exists r. split; [done|]. by exists (am_pass m).
Qed.

Lemma authFinish_cases m ok a r a' : authFinish secret m ok a = (r, a') ->
  (exists x, r = AuthOK (mkTicket (am_table m) (am_epoch m) x) /\ ok = true /\ am_rec m = Some x /\ au_epoch a = am_epoch m /\ au_table a = am_table m /\
     au_table a' = au_table a /\ au_epoch a' = au_epoch a /\ au_sessions a' = au_sessions a /\
     forall ck user, au_verified a' !! ck = Some user -> au_verified a !! ck = Some user \/ (ck = cacheKey secret (am_user m) (am_pass m) /\ user = am_user m)) \/
  (r = AuthBad /\ VAuth a' = VAuth a).
Proof.
  unfold authFinish. destruct (Z.eqb_spec (au_epoch a) (am_epoch m)) as [He|]; cbn; [|intros [= <- <-]; by right].
  destruct (Z.eqb_spec (au_table a) (am_table m)) as [Ht|]; cbn; [|intros [= <- <-]; by right].
  destruct ok, (am_rec m) as [x|]; intros [= <- <-]; try by right. left. exists x. split_and!; try done.
  intros ck user. cbn. intros [[<- <-]|[_ H]]%lookup_insert_Some; [by right|]. left. case_match; [done|done].
Qed.

Lemma sess_same a a' cs : VAuth a' = VAuth a -> sess_ok a cs -> sess_ok a' cs.
Proof. unfold VAuth, sess_ok. intros [= H1 H2 H3 H4] Hs. rewrite H1, H4. exact Hs. Qed.
Lemma cache_same a a' : VAuth a' = VAuth a -> cache_sound a -> cache_sound a'.
Proof. unfold VAuth, cache_sound. intros [= H1 H2 H3 H4] Hs. rewrite H1, H3. exact Hs. Qed.

(** A step that changes only what the throttle counts. *)
Lemma ainv_same w a op tk : ainv w -> VAuth a = VAuth (aw_auth w) ->
  (forall t, t ∈ tk -> tables (tk_table t) !! PName (pr_p (tk_rec t)) = Some (tk_rec t)) ->
  (forall i m g ok, op !! i = Some (m, g, ok) ->
    am_rec m = tables (am_table m) !! am_user m /\ am_epoch m = u64 (1 + g) /\ 0 <= g <= aw_swaps w /\
    (g = aw_swaps w -> am_table m = au_table (aw_auth w) /\
       (ok = Some true -> exists r, am_rec m = Some r /\ vouched r (am_user m) (am_pass m)))) ->
  ainv (mkAW a (aw_conns w) (aw_swaps w) op tk).
Proof.
  intros [H1 H2 H3 H4 H5] HV Ht Ho. pose proof HV as HV'. unfold VAuth in HV'. injection HV' as E1 E2 E3 E4.
  split; cbn; [by rewrite E2|by eapply cache_same|by eapply sess_same|done|]. intros i m g ok Hi. rewrite E1. by eapply Ho.
Qed.

Lemma swap_sess t a cs a' cs' : sess_ok a cs -> Swap tables t (a, cs) = (a', cs') -> sess_ok a' cs'.
Proof.
  intros Hs [= <- <-] i c p. rewrite map_lookup_imap. destruct (cs !! i) as [c0|] eqn:E; [|done]. cbn. intros [= <-]. intros Hr Hi Hp.
  destruct (au_sessions a !! i) as [old|] eqn:Eo.
  - destruct (outdated tables t old) eqn:Eu; [done|]. destruct (Hs i c0 p E Hr Hi Hp) as (r & H1 & H2 & H3).
    rewrite Eo in H1. injection H1 as <-. exists old. split_and!; [done|done|]. unfold outdated, lookupUser in Eu. rewrite H2 in Eu.
    destruct (tables t !! PName p) as [fresh|]; [|done]. apply negb_false_iff, same_record in Eu as ->. done.
  - destruct (Hs i c0 p E Hr Hi Hp) as (r & H1 & _). congruence.
Qed.

Lemma bind_sess i t a cs b a' cs' : sess_ok a cs -> tables (tk_table t) !! PName (pr_p (tk_rec t)) = Some (tk_rec t) ->
  bind i t (a, cs) = (b, (a', cs')) -> sess_ok a' cs' /\ au_table a' = au_table a /\ au_epoch a' = au_epoch a /\ au_verified a' = au_verified a.
Proof.
  intros Hs Ht. unfold bind. destruct (cs !! i) as [c|] eqn:E; [|by intros [= <- <- <-]].
  destruct (cn_inactive c || cn_revoked c || negb (au_epoch a =? tk_epoch t) || negb (au_table a =? tk_table t)) eqn:Eb; [by intros [= <- <- <-]|].
  apply orb_false_iff in Eb as [_ Et]. apply negb_false_iff, Z.eqb_eq in Et. intros [= <- <- <-]. split; [|done].
  intros j c' p. cbn. intros [[<- <-]|[Hn Hj]]%lookup_insert_Some Hr Hi Hp.
  - injection Hp as <-. exists (tk_rec t). rewrite lookup_insert_eq, Et. done.
  - rewrite lookup_insert_ne by done. by eapply Hs.
Qed.

Lemma unbind_sess i a cs a' cs' : sess_ok a cs -> unbind i (a, cs) = (a', cs') -> sess_ok a' cs' /\ au_table a' = au_table a /\
  au_epoch a' = au_epoch a /\ au_verified a' = au_verified a.
Proof.
  intros Hs [= <- <-]. split; [|done]. intros j c p. cbn. destruct (decide (i = j)) as [->|Hn].
  - rewrite lookup_alter_eq. destruct (cs !! j); [|done]. by intros [= <-].
  - rewrite lookup_alter_ne, lookup_delete_ne by done. apply Hs.
Qed.

Lemma u64_close g n : 0 <= g <= n -> n < 2^64 -> u64 (1 + n) = u64 (1 + g) -> g = n.
Proof. unfold u64. intros H1 H2 H3. Z.to_euclidean_division_equations. lia. Qed.

Lemma astep_swaps w w' : astep w w' -> aw_swaps w <= aw_swaps w'.
Proof. destruct 1; cbn; lia. Qed.

Lemma finish_inv w i m g ok r a : ainv w -> aw_swaps w < 2^64 -> aw_open w !! i = Some (m, g, Some ok) -> authFinish secret m ok (aw_auth w) = (r, a) ->
  match r with
  | AuthOK t => tk_table t = au_table (aw_auth w) /\ tables (au_table (aw_auth w)) !! am_user m = Some (tk_rec t) /\
      vouched (tk_rec t) (am_user m) (am_pass m)
  | _ => True
  end /\ cache_sound a /\ au_table a = au_table (aw_auth w) /\ au_epoch a = au_epoch (aw_auth w) /\ au_sessions a = au_sessions (aw_auth w).
Proof.
  intros [[He H0] Hc Hs Ht Ho] Hsw Hi Hf. apply authFinish_cases in Hf as [(x & -> & -> & Hx & E1 & E2 & E3 & E4 & E5 & Hv)|[-> HV]].
  - destruct (Ho _ _ _ _ Hi) as (Hr & Hep & Hg & Hsame).
    assert (g = aw_swaps w) as Hgs by (apply u64_close; [done|done|congruence]). destruct (Hsame Hgs) as [Htb Hok].
    destruct (Hok eq_refl) as (y & Hy & Hvo). assert (y = x) as -> by congruence. cbn. rewrite Hx, Htb in Hr.
    split_and!; [done|done|done| |done|done|done]. intros ck user Hck. rewrite E3. destruct (Hv ck user Hck) as [H|[-> ->]]; [by apply Hc|].
    destruct Hvo as (pass' & H1 & H2). by exists x, pass'.
  - split; [done|]. split; [by eapply cache_same|]. unfold VAuth in HV. by injection HV as -> -> _ ->.
Qed.

Lemma astep_inv w w' : astep w w' -> aw_swaps w < 2^64 -> ainv w -> ainv w'.
Proof.
  intros Hst Hsw Hw. pose proof Hw as [[He H0] Hc Hs Ht Ho].
  destruct Hst as [i remote user pass now m a Hb|remote user pass now a Hb|i m g Hi|i m g ok r a Hi Hf|i Hi|i t b a cs Hin Hb|i a cs Hb|t a cs Hb].
  - apply authBegin_keeps in Hb as [HV Hm]. destruct (Hm m eq_refl) as (E1 & E2 & E3 & E4). apply ainv_same; [done..|].
    intros j m' g ok [[<- [= <- <- <-]]|[_ Hj]]%lookup_insert_Some; [|by eapply Ho]. split_and!; [congruence|congruence|lia|lia|].
    intros _. split; [done|discriminate].
  - apply authBegin_keeps in Hb as [HV _]. by apply ainv_same.
  - apply ainv_same; [done..|]. intros j m' g' ok [[<- [= <- <- <-]]|[_ Hj]]%lookup_insert_Some; [|by eapply Ho].
    destruct (Ho _ _ _ _ Hi) as (Hr & Hep & Hg & Hsame). split_and!; [done|done|lia|lia|]. intros Hgs. destruct (Hsame Hgs) as [Htb _].
    split; [done|]. intros [= Hck]. by eapply authCheck_vouched.
  - destruct (finish_inv w i m g ok r a Hw Hsw Hi Hf) as (Hr & Hc' & E1 & E2 & E3). split; cbn; [by rewrite E2|done| | |].
    + intros j c p. rewrite E1, E3. apply Hs.
    + intros t Htk. destruct r as [t'| |]; [|by apply Ht..]. apply elem_of_cons in Htk as [->|Htk]; [|by apply Ht].
      destruct Hr as (-> & Hl & _). pose proof (Htab _ _ _ Hl) as ->. done.
    + intros j m' g' ok' [_ Hj]%lookup_delete_Some. rewrite E1. by eapply Ho.
  - split; cbn; [done|done| |done|done]. intros j c p [[<- <-]|[_ Hj]]%lookup_insert_Some; [done|by eapply Hs].
  - apply bind_sess in Hb as (Hs' & E1 & E2 & E3); [|done|by apply Ht]. split; cbn; [by rewrite E2| |done|done|].
    + intros ck user. rewrite E1, E3. apply Hc.
    + intros j m g ok. rewrite E1. apply Ho.
  - apply unbind_sess in Hb as (Hs' & E1 & E2 & E3); [|done]. split; cbn; [by rewrite E2| |done|done|].
    + intros ck user. rewrite E1, E3. apply Hc.
    + intros j m g ok. rewrite E1. apply Ho.
  - pose proof (swap_sess _ _ _ _ _ Hs Hb) as Hs'. injection Hb as <- <-. split; cbn; [| |done|done|].
    + split; [|lia]. rewrite He. unfold u64. rewrite Zplus_mod_idemp_l. f_equal. lia.
    + intros ck user H. cbn in H. by rewrite lookup_empty in H.
    + intros j m g ok Hj. destruct (Ho _ _ _ _ Hj) as (? & ? & ? & _). split_and!; [done|done|lia|lia|]. lia.
Qed.

Lemma reach_inv t w : rtc astep (quietStart t) w -> aw_swaps w < 2^64 -> ainv w.
Proof.
  intros Hr. revert w Hr. apply (rtc_ind_r (fun w => aw_swaps w < 2^64 -> ainv w) (quietStart t)).
  - intros _. split; cbn; [done|intros ck user H; cbn in H; by rewrite lookup_empty in H|intros i c p H; by rewrite lookup_empty in H
      |intros x H; by apply elem_of_nil in H|intros i m g ok H; by rewrite lookup_empty in H].
  - intros w w' _ Hst IH Hsw. pose proof (astep_swaps _ _ Hst). eapply astep_inv; [done|lia|]. apply IH. lia.
Qed.
End world.

(** C21: who is authenticated.  In any interleaving of AUTH attempts, reloads and
    connections (with fewer than 2^64 reloads), a connection with a principal
    that is neither revoked nor closing has a principal of the table in force,
    with its record there unchanged since the AUTH; and an AUTH that succeeds
    gives the record its user has in the table in force, for a password that
    argon2 accepts for it, or one with the same SHA-256. *)
Theorem sessions_follow_table tables argon secret t w :
  (forall t user r, tables t !! user = Some r -> PName (pr_p r) = user) ->
  rtc (astep tables argon secret) (quietStart t) w -> aw_swaps w < 2^64 ->
  (forall i c p, aw_conns w !! i = Some c -> cn_revoked c = false -> cn_inactive c = false -> cn_principal c = Some p ->
     exists r, au_sessions (aw_auth w) !! i = Some r /\ pr_p r = p /\ tables (au_table (aw_auth w)) !! PName p = Some r) /\
  (forall i m g ok t a, aw_open w !! i = Some (m, g, Some ok) -> authFinish secret m ok (aw_auth w) = (AuthOK t, a) ->
     tk_table t = au_table (aw_auth w) /\ tables (au_table (aw_auth w)) !! am_user m = Some (tk_rec t) /\
     vouched argon secret (tk_rec t) (am_user m) (am_pass m)).
Proof.
  intros Htab Hr Hsw. pose proof (reach_inv tables argon secret Htab t w Hr Hsw) as Hw. split; [apply Hw|].
  intros i m g ok t' a Hi Hf. by destruct (finish_inv tables argon secret w i m g ok (AuthOK t') a Hw Hsw Hi Hf) as [H _].
Qed.

(** ** The throttle *)
Section throttle.
Context (tables : Z -> gmap string principalRec) (argon : argon2Hash -> string -> bool) (secret remote user : string) (r : principalRec).
Abbreviation key := (failKey remote user).

(** How many of the guesses are checked, one after the other. *)
Fixpoint guesses (ts : list (Z * string)) (a : authenticator) : Z :=
  match ts with
  | [] => 0
  | (now, pass) :: ts' =>
      (match fst (authBegin tables remote user pass now a) with Some _ => 1 | None => 0 end) +
      guesses ts' (snd (authenticateTicket tables argon secret remote user pass now a))
  end.

Definition wrong (a : authenticator) (pass : string) : Prop :=
  argon (pr_hash r) pass = false /\ au_verified a !! cacheKey secret user pass = None.

(** The least time [v] checked guesses take. *)
Definition spread (v : Z) : Z := if v <? 5 then 0 else (2^(v - 5) - 1) * 10^9.

Lemma spread_nonneg v : 0 <= spread v.
Proof. unfold spread. destruct (Z.ltb_spec v 5); [lia|]. assert (0 < 2^(v - 5)) by (apply Z.pow_pos_nonneg; lia). lia. Qed.
Lemma lockFor_pos n : 10^9 <= lockFor n.
Proof.
  unfold lockFor, throttleFree, throttleMaxLock. rewrite Z.shiftl_mul_pow2 by lia. set (k := Z.min (Z.max (n - 5) 0) 10).
  assert (0 < 2^k) by (apply Z.pow_pos_nonneg; lia). case_match eqn:E; lia.
Qed.
Lemma lockFor_spread v n : 5 <= v <= 14 -> v <= n -> spread v + lockFor n >= spread (v + 1).
Proof.
  intros Hv Hn. unfold spread. destruct (Z.ltb_spec v 5); [lia|]. destruct (Z.ltb_spec (v + 1) 5); [lia|].
  replace (v + 1 - 5) with (Z.succ (v - 5)) by lia. rewrite Z.pow_succ_r by lia.
  assert (2^(v - 5) <= 2^9) by (apply Z.pow_le_mono_r; lia). change (2^9) with 512 in *.
  unfold lockFor, throttleFree, throttleMaxLock. rewrite Z.shiftl_mul_pow2 by lia.
  assert (Hm : 2^(v - 5) <= 2^(Z.min (Z.max (n - 5) 0) 10)) by (apply Z.pow_le_mono_r; lia). case_match eqn:E; lia.
Qed.

(** The record of the pair after [v] checked guesses, the last event at [tl]. *)
Definition tried (t1 v tl : Z) (f : failRec) : Prop :=
  fr_first f = t1 /\ 1 <= v <= fr_n f /\ t1 + spread v <= tl /\
  (if 5 <=? fr_n f then fr_lockedUntil f = tl + lockFor (fr_n f) else fr_lockedUntil f = zeroTime).

Context (a0 : authenticator).
(** Wrong guesses change nothing but the records of failures. *)
Definition only_fails (a : authenticator) : Prop := VAuth a = VAuth a0.

Lemma guess_checked pass now a : tables (au_table a0) !! user = Some r -> only_fails a -> wrong a0 pass ->
  (forall f, au_fails a !! key = Some f -> fr_lockedUntil f <= now) ->
  exists m, authBegin tables remote user pass now a = (Some m, a) /\
  snd (authenticateTicket tables argon secret remote user pass now a) = setFails (failed key now (au_fails a)) a.
Proof.
  unfold only_fails, VAuth. intros Hr [= E1 E2 E3 E4] [Hw1 Hw2] Hl.
  set (m := mkAttempt key user pass (Some r) (au_table a) (au_epoch a) now).
  assert (Hb : authBegin tables remote user pass now a = (Some m, a)).
  { unfold authBegin, lookupUser. rewrite E1, Hr. cbn zeta. destruct (au_fails a !! key) as [f|] eqn:Ef; [|by subst m; rewrite E1].
    destruct (Z.ltb_spec now (fr_lockedUntil f)) as [Hn|]; [specialize (Hl f eq_refl); lia|]. by subst m; rewrite E1. }
  exists m. split; [done|]. unfold authenticateTicket. rewrite Hb. unfold authCheck, cached. cbn [am_user am_pass am_rec m].
  rewrite E3, Hw2, Hw1. unfold authFinish. cbn. by rewrite !Z.eqb_refl.
Qed.

Lemma guess_throttled pass now a f : tables (au_table a0) !! user = Some r -> only_fails a -> au_fails a !! key = Some f -> now < fr_lockedUntil f ->
  fst (authBegin tables remote user pass now a) = None /\
  snd (authenticateTicket tables argon secret remote user pass now a) =
  setFails (<[key := mkFail (fr_n f + 1) (fr_first f) (now + lockFor (fr_n f + 1))]> (au_fails a)) a.
Proof.
  unfold only_fails, VAuth. intros Hr [= E1 E2 E3 E4] Hf Hl. unfold authenticateTicket, authBegin, lookupUser. rewrite E1, Hr. cbn zeta. rewrite Hf.
  apply Z.ltb_lt in Hl. by rewrite Hl.
Qed.

Lemma failed_tried t1 v tl now f fails : fails !! key = Some f -> tried t1 v tl f -> zeroTime < t1 -> tl <= now <= t1 + throttleWindow -> fr_lockedUntil f <= now -> v <= 14 ->
  exists f', failed key now fails !! key = Some f' /\ tried t1 (v + 1) now f' /\ v + 1 <= 14.
Proof.
  intros Hf (H1 & H2 & H3 & H4) H0 Hn Hl Hv. unfold failed. rewrite Hf. cbn zeta. rewrite bool_decide_false by done. cbn [andb].
  pose proof (spread_nonneg v) as Hs.
  assert (Hw : (throttleWindow <? Sub now (fr_first f)) = false).
  { apply Z.ltb_ge. unfold Sub, throttleWindow, min_i64, max_i64 in *. rewrite H1. lia. }
  rewrite Hw, lookup_insert_eq. eexists. split; [done|]. unfold throttleWindow in Hn.
  assert (Hsp : t1 + spread (v + 1) <= now).
  { destruct (Z.leb_spec 5 v) as [Hv5|Hv5].
    - destruct (Z.leb_spec 5 (fr_n f)); [|lia]. pose proof (lockFor_spread v (fr_n f) ltac:(lia) ltac:(lia)). lia.
    - assert (spread (v + 1) = 0) as ->; [|lia]. unfold spread. destruct (Z.ltb_spec (v + 1) 5); [done|]. assert (v = 4) as -> by lia. done. }
  split.
  - unfold tried, throttleFree. cbn. split_and!; [done|lia|lia|done|]. destruct (Z.leb_spec 5 (fr_n f + 1)) as [|Hlt]; [done|].
    destruct (Z.leb_spec 5 (fr_n f)); [lia|done].
  - destruct (Z.leb_spec (v + 1) 14); [done|]. assert (v = 14) as -> by lia. change (spread (14 + 1)) with (1023 * 10^9) in Hsp. lia.
Qed.

Lemma guesses_from t1 v ts : forall tl f a, tables (au_table a0) !! user = Some r -> only_fails a -> zeroTime < t1 -> v <= 14 ->
  au_fails a !! key = Some f -> tried t1 v tl f ->
  Forall (fun x => wrong a0 (snd x)) ts -> Forall (fun x => fst x <= t1 + throttleWindow) ts -> StronglySorted Z.le (tl :: (fst <$> ts)) ->
  v + guesses ts a <= 14.
Proof.
  revert v. induction ts as [|[now pass] ts IH]; intros v tl f a Hr Ho H0 Hv Hf Ht Hw Hin Hs; cbn [guesses]; [lia|].
  apply Forall_cons in Hw as [Hw1 Hw]. apply Forall_cons in Hin as [Hin1 Hin]. cbn in Hs.
  apply StronglySorted_inv in Hs as [Hs Hs1]. apply Forall_cons in Hs1 as [Hle _]. cbn in *.
  destruct (Z.ltb_spec now (fr_lockedUntil f)) as [Hlk|Hlk].
  - destruct (guess_throttled pass now a f Hr Ho Hf Hlk) as [Hb Ha]. rewrite Hb, Ha.
    destruct Ht as (H1 & H2 & H3 & H4). destruct (Z.leb_spec 5 (fr_n f)) as [Hn|Hn].
    + rewrite Z.add_0_l. apply (IH v now (mkFail (fr_n f + 1) (fr_first f) (now + lockFor (fr_n f + 1)))); try done; [cbn [au_fails setFails]; by rewrite lookup_insert_eq|].
      unfold tried. cbn. split_and!; [done|lia|lia|lia|]. destruct (Z.leb_spec 5 (fr_n f + 1)); [done|lia].
    + pose proof (spread_nonneg v). lia.
  - destruct (guess_checked pass now a Hr Ho Hw1) as (m & Hb & Ha); [by intros f' Hf'; rewrite Hf in Hf'; injection Hf' as <-|].
    rewrite Hb, Ha. cbn [fst]. destruct (failed_tried t1 v tl now f (au_fails a) Hf Ht H0 ltac:(done) Hlk Hv) as (f' & Hf' & Ht' & Hv').
    assert (v + 1 + guesses ts (setFails (failed key now (au_fails a)) a) <= 14); [|lia].
    apply (IH (v + 1) now f'); try done.
Qed.
End throttle.


(** Guessing side by side is not.  Attempts that begin before the first of
    them failed are all checked: with five wrong guesses among them the pair is
    locked out, and a right one still succeeds, although the comment on the
    throttle says that every AUTH of a locked-out pair fails without a check. *)
Theorem side_by_side_guesses_evade_lockout tables argon secret remote user now a r right wrongs :
  tables (au_table a) !! user = Some r -> au_fails a !! failKey remote user = None -> argon (pr_hash r) right = true -> (5 <= length wrongs)%nat ->
  let m pass := mkAttempt (failKey remote user) user pass (Some r) (au_table a) (au_epoch a) now in
  let a' := foldl (fun a pass => snd (authFinish secret (m pass) false a)) a wrongs in
  (forall pass, authBegin tables remote user pass now a = (Some (m pass), a)) /\
  (exists f, au_fails a' !! failKey remote user = Some f /\ now < fr_lockedUntil f) /\
  (exists t a'', authFinish secret (m right) (authCheck argon secret (m right) a') a' = (AuthOK t, a'') /\ tk_rec t = r).
Proof.
  intros Hr Hf Hok Hlen m a'.
  assert (H : VAuth a' = VAuth a /\ match wrongs with [] => True | _ => exists f, au_fails a' !! failKey remote user = Some f /\
    fr_n f = Z.of_nat (length wrongs) /\ fr_first f = now /\ (5 <= fr_n f -> fr_lockedUntil f = now + lockFor (fr_n f)) end).
  { subst a'. clear Hlen. induction wrongs as [|x l IH] using rev_ind; [done|]. rewrite foldl_app. cbn [foldl]. destruct IH as [HV IH].
    set (b := foldl _ a l) in *. pose proof HV as HV'. unfold VAuth in HV'. injection HV' as E1 E2 E3 E4.
    unfold authFinish. cbn [m am_epoch am_table am_rec am_key am_now]. rewrite E1, E2, !Z.eqb_refl. cbn [negb orb snd]. split; [exact HV|].
    assert (Hgoal : exists f, au_fails (setFails (failed (failKey remote user) now (au_fails b)) b) !! failKey remote user = Some f /\
      fr_n f = Z.of_nat (length (l ++ [x])) /\ fr_first f = now /\ (5 <= fr_n f -> fr_lockedUntil f = now + lockFor (fr_n f))); [|by destruct (l ++ [x])].
    rewrite length_app. cbn [length]. unfold failed, throttleFree. cbn zeta. destruct l as [|y l].
    - subst b. cbn [foldl] in *. rewrite Hf. cbn [au_fails setFails]. rewrite lookup_insert_eq. eexists. split; [done|]. cbn. split_and!; [done|done|lia].
    - destruct IH as (f & E & Hn & H1 & H2). rewrite E, H1. replace (throttleWindow <? Sub now now) with false
        by (unfold Sub; by rewrite Z.sub_diag). cbn [au_fails setFails]. rewrite lookup_insert_eq. eexists. split; [done|]. cbn [fr_n fr_first fr_lockedUntil]. split_and!; [rewrite Hn; cbn [length]; lia|done|].
      intros Hge. destruct (Z.leb_spec 5 (fr_n f + 1)); [done|lia]. }
  destruct H as [HV H]. pose proof HV as HV'. unfold VAuth in HV'. injection HV' as E1 E2 E3 E4. split_and!.
  - intros pass. unfold authBegin, lookupUser. by rewrite Hr, Hf.
  - destruct wrongs as [|x l]; [cbn in Hlen; lia|]. destruct H as (f & Hf' & Hn & _ & Hl). exists f. split; [done|].
    rewrite Hl by lia. pose proof (lockFor_pos (fr_n f)). lia.
  - assert (Hc : authCheck argon secret (m right) a' = true) by (unfold authCheck; cbn [m am_rec am_pass]; rewrite Hok; apply orb_true_r).
    rewrite Hc. unfold authFinish. cbn [m am_epoch am_table am_rec]. rewrite E1, E2, !Z.eqb_refl. cbn. by do 2 eexists.
Qed.

(** ** Examples: one table with alice, whose password is pw *)
Module AuthExamples.
Definition h : argon2Hash := mkHash 2 19456 1 "saltsalt" "keykeykeykeykey1".
Definition rec : principalRec := mkRec (mkPrincipal "alice" KindMac "mac-a") h.
Definition tables (t : Z) : gmap string principalRec := if t =? 1 then {["alice" := rec]} else ∅.
Definition argon (x : argon2Hash) (pass : string) : bool := pass =s "pw".
Lemma named t user r : tables t !! user = Some r -> PName (pr_p r) = user.
Proof. unfold tables. case_match; [|done]. by intros [<- <-]%lookup_singleton_Some. Qed.
Definition start : authenticator := aw_auth (quietStart 1).
Definition m (pass : string) : authAttempt := mkAttempt (failKey "10.0.0.7:5000" "alice") "alice" pass (Some rec) 1 1 1000.
Definition finished : authenticator := snd (authFinish "s" (m "pw") true start).
Definition t1 : authTicket := mkTicket 1 1 rec.
Definition joined : authenticator := setSessions {[0 := rec]} finished.
Definition conn1 : conn := mkConn false false true (Some (pr_p rec)).
Definition w5 : aworld := mkAW joined {[0 := conn1]} 0 ∅ [t1].
Lemma loginRun : rtc (astep tables argon "s") (quietStart 1) w5.
Proof.
  eapply rtc_l. { apply (as_begin _ _ _ _ 0%nat "10.0.0.7:5000" "alice" "pw" 1000 (m "pw") start). reflexivity. }
  eapply rtc_l. { apply (as_check _ _ _ _ 0%nat (m "pw") 0). reflexivity. }
  eapply rtc_l. { apply (as_finish _ _ _ _ 0%nat (m "pw") 0 true (AuthOK t1) finished); vm_compute; reflexivity. }
  eapply rtc_l. { apply (as_accept _ _ _ _ 0). reflexivity. }
  apply rtc_once. refine (as_bind _ _ _ _ 0 t1 true joined {[0 := conn1]} _ _); [apply list_elem_of_here|vm_compute; reflexivity].
Qed.
(** Twenty guesses, a second apart. *)
Definition burst : list (Z * string) := (fun i => (10^9 * Z.of_nat (Datatypes.S i), "no")) <$> seq 0 20.
Lemma burst_wrong : Forall (fun x => wrong argon "s" "alice" rec start (snd x)) ((10^9, "no") :: burst).
Proof.
  apply Forall_cons. split; [done|]. apply Forall_fmap, Forall_forall. intros i _. split; reflexivity.
Qed.
Lemma burst_close : Forall (fun x => fst x <= 10^9 + throttleWindow) burst.
Proof. apply Forall_fmap, Forall_forall. intros i [_ Hi]%elem_of_seq. cbn [fst compose]. unfold throttleWindow. lia. Qed.
Lemma seconds_sorted n : forall k lo, lo <= 10^9 * Z.of_nat (Datatypes.S k) ->
  StronglySorted Z.le (lo :: (fst <$> ((fun i => (10^9 * Z.of_nat (Datatypes.S i), "no")) <$> seq k n))).
Proof.
  induction n as [|n IH]; intros k lo Hlo; [repeat constructor|]. cbn [seq fmap list_fmap fst]. apply SSorted_cons; [apply IH; lia|].
  apply Forall_cons. split; [done|]. apply Forall_fmap, Forall_fmap, Forall_forall. intros i [Hi _]%elem_of_seq. unfold compose. cbn [fst]. lia.
Qed.
End AuthExamples.

Lemma sessions_follow_table_witness : exists r, au_sessions AuthExamples.joined !! 0 = Some r /\ pr_p r = pr_p AuthExamples.rec /\
  AuthExamples.tables 1 !! "alice" = Some r.
Proof.
  destruct (sessions_follow_table AuthExamples.tables AuthExamples.argon "s" 1 AuthExamples.w5 AuthExamples.named AuthExamples.loginRun eq_refl) as [H _].
  exact (H 0 AuthExamples.conn1 (pr_p AuthExamples.rec) eq_refl eq_refl eq_refl eq_refl).
Defined.


Lemma side_by_side_guesses_evade_lockout_witness : exists t a'',
  authFinish "s" (AuthExamples.m "pw") (authCheck AuthExamples.argon "s" (AuthExamples.m "pw")
    (foldl (fun a pass => snd (authFinish "s" (AuthExamples.m pass) false a)) AuthExamples.start ["a"; "b"; "c"; "d"; "e"]))
    (foldl (fun a pass => snd (authFinish "s" (AuthExamples.m pass) false a)) AuthExamples.start ["a"; "b"; "c"; "d"; "e"]) = (AuthOK t, a'') /\
  tk_rec t = AuthExamples.rec.
Proof.
  destruct (side_by_side_guesses_evade_lockout AuthExamples.tables AuthExamples.argon "s" "10.0.0.7:5000" "alice" 1000 AuthExamples.start AuthExamples.rec "pw"
    ["a"; "b"; "c"; "d"; "e"] eq_refl eq_refl eq_refl (le_n 5)) as (_ & _ & H).
  exact H.
Defined.
