(* ===== verification/Accounting.v ===== *)
(** * Accounting hashes (internal/respproxy/accounting.go)

    The values a unit may store in the dir-stat and quota hashes, and the
    folders whose quota rows it may set while grants are in force; both run in
    every mode, after the guard and before Decide.  Their claims: what is
    stored is the decimal text of an int64, and quota rows stay in projects. *)

From S2P Require Import Prelude GoLib Resp Classify ClassifyFacts Policy Guard GuardCheck GuardTheorems TxnUnit Ancestry AncestryFacts AncestryTheorems Place PlaceFacts PlaceInv PlaceTheorems PlaceExamples Grants GrantsFacts LeaseStore Leases LeaseCmd SmartView Decide DecideFacts DecideWorld DecidePlan.

Definition counterHash (shape : string) : bool :=
  bool_decide (shape ∈ ["dirDataLength"; "dirUsedSpace"; "dirUsedInodes"; "dirQuotaUsedSpace"; "dirQuotaUsedInodes"]).

Definition canonicalInt (s : string) : bool := let '(v, ok) := ParseInt s in ok && (FormatInt v =s s).

Definition quotaHash (shape : string) : bool := bool_decide (shape ∈ ["dirQuota"; "dirQuotaUsedSpace"; "dirQuotaUsedInodes"]).

(** Every second argument from the fourth on. *)
Fixpoint everySecond {A} (l : list A) : list A :=
  match l with
  | x :: _ :: l' => x :: everySecond l'
  | [x] => [x]
  | [] => []
  end.

(** The checks of one write: quota definitions are only set, ... *)
Definition incrsQuota (u : Unit) (w : KeyWrite) : bool :=
  (Shape (KWKey w) =s "dirQuota") && ((cname (wcmd u w) =s "HINCRBY") || (cname (wcmd u w) =s "HINCRBYFLOAT")).
(** ... and counters hold int64 texts. *)
Definition badValue (u : Unit) (w : KeyWrite) : bool :=
  let c := wcmd u w in
  if negb (Group (KWKey w) =s "dirstat") && negb (Group (KWKey w) =s "quota") then false
  else if cname c =s "HINCRBYFLOAT" then true
  else if cname c =s "HINCRBY" then
    match Args c with [_; _; _; d] => negb (canonicalInt d) | _ => true end
  else if isHSet (cname c) then counterHash (Shape (KWKey w)) && negb (forallb canonicalInt (everySecond (drop 3 (Args c))))
  else false.

Definition accountingValueDenial (p : Principal) (u : Unit) : option Denial :=
  if existsb (incrsQuota u) (Writes u) then Some (deny ReasonAdminOnly)
  else if bool_decide (PKind p = KindBG) then None
  else if existsb (badValue u) (Writes u) then Some (deny ReasonBGOnly)
  else None.

(** *** Quota scope *)
Definition wholeHash (c : Cmd) : bool :=
  ((cname c =s "RESTORE") || (cname c =s "MOVE")) && match Args c with _ :: k :: _ => quotaHash k | _ => false end.

Section scope.
Context (side : sideDoer).
Abbreviation M := (SM ancestry Denial).

Definition setRow (r : statRow) : M unit := fun a =>
  if negb (r_op r =s "set") then (Ok tt, a)
  else match resolveDir side (r_dir r) a with
       | (Ok loc, a') => (if bool_decide (l_kind loc = nsRoot) then Err (notGranted 0) else Ok tt, a')
       | (Err _, a') => (Err (notGranted 0), a')
       end.

Definition quotaWrite (u : Unit) (w : KeyWrite) : M unit :=
  if negb (quotaHash (Shape (KWKey w))) then mret tt
  else
    let c := wcmd u w in
    if negb (bool_decide (cname c ∈ ["HSET"; "HSETNX"; "HMSET"; "HDEL"; "HINCRBY"; "HINCRBYFLOAT"])) then sm_err (notGranted 0)
    else mfor (statRowsOf (cname c) (KWKey w) (Args c)) setRow.

Definition quotaScopeDenial (p : Principal) (u : Unit) : M unit :=
  if bool_decide (PKind p = KindBG) then mret tt
  else if existsb wholeHash (Cmds u) then sm_err (notGranted 0)
  else mfor (Writes u) (quotaWrite u).
End scope.

(** ** What they admit *)
Lemma canonicalInt_exact s : canonicalInt s = true <-> exists v, is_i64 v /\ s = FormatInt v.
Proof.
  unfold canonicalInt. split.
  - destruct (ParseInt s) as [v ok] eqn:E. intros [-> H]%andb_prop. apply eqs_true in H. exists v. split; [|done]. eapply ParseInt_range. exact E.
  - intros (v & Hv & ->). rewrite ParseInt_FormatInt by done. cbn. by apply eqs_true.
Qed.

Lemma everySecond_all {A} (f : A -> bool) l : forallb f (everySecond l) = true -> forall x, x ∈ everySecond l -> f x = true.
Proof. intros H x Hx. rewrite forallb_forall in H. by apply H, list_elem_of_In. Qed.

Lemma existsb_none {A} (f : A -> bool) l x : existsb f l = false -> x ∈ l -> f x = false.
Proof.
  intros H Hx. destruct (f x) eqn:E; [|done]. exfalso. assert (existsb f l = true); [|congruence]. apply existsb_exists. exists x.
  split; [by apply list_elem_of_In|done].
Qed.

(** What a write puts in an accounting hash. *)
Definition stores_int (u : Unit) (w : KeyWrite) : Prop :=
  let c := wcmd u w in
  cname c <> "HINCRBYFLOAT" /\
  (cname c = "HINCRBY" -> exists x k f v, Args c = [x; k; f; FormatInt v] /\ is_i64 v) /\
  (isHSet (cname c) = true -> counterHash (Shape (KWKey w)) = true ->
     forall s, s ∈ everySecond (drop 3 (Args c)) -> exists v, is_i64 v /\ s = FormatInt v).

Lemma badValue_false u w : Group (KWKey w) = "dirstat" \/ Group (KWKey w) = "quota" -> badValue u w = false -> stores_int u w.
Proof.
  intros Hg. unfold badValue, stores_int. cbn zeta.
  replace (negb (Group (KWKey w) =s "dirstat") && negb (Group (KWKey w) =s "quota")) with false by (by destruct Hg as [-> | ->]).
  destruct (cname (wcmd u w) =s "HINCRBYFLOAT") eqn:E1; [done|]. apply eqs_false in E1.
  destruct (cname (wcmd u w) =s "HINCRBY") eqn:E2.
  - apply eqs_true in E2. rewrite E2. destruct (Args (wcmd u w)) as [|x [|k [|f [|d [|? ?]]]]]; try done.
    intros H. apply negb_false_iff, canonicalInt_exact in H as (v & Hv & ->). split_and!; [done| |done]. intros _. by exists x, k, f, v.
  - apply eqs_false in E2. destruct (isHSet (cname (wcmd u w))); [|done]. intros H. split_and!; [done|done|]. intros _ Hc s Hs. rewrite Hc in H.
    apply negb_false_iff in H. eapply canonicalInt_exact, everySecond_all; [exact H|done].
Qed.

Lemma setRow_spec side T a r b b' : placeable side T a -> is_u64 (r_dir r) -> good side T a b -> setRow side r b = (Ok tt, b') ->
  good side T a b' /\ (r_op r = "set" -> exists l, located T a (r_dir r) l /\ l_kind l <> nsRoot).
Proof.
  intros Hpb Hu Hg. unfold setRow. destruct (r_op r =s "set") eqn:Eo; cbn [negb]; [|intros [= <-]; split; [done|]; by apply eqs_false in Eo].
  destruct (resolveDir side (r_dir r) b) as [[l|] b1] eqn:Er; [|done]. case_bool_decide as Hk; [done|]. intros [= <-].
  apply (resolveDir_good side T a) in Er as [? ?]; [|apply Hpb|done..]. split; [done|]. intros _. by exists l.
Qed.


(** ** Example: juicefs sets the quota of project 3 *)
Module AccountingExamples.
Import GuardExamples TreeExamples PlaceExamples.
Definition setQuota : Unit := placed_unit [["HSET"; "dirQuotaUsedSpace"; "3"; "4096"]; ["HINCRBY"; "dirUsedSpace"; "3"; "-4096"]].
Definition after : ancestry := snd (quotaScopeDenial side1 mac setQuota a0).
Definition usage : KeyWrite := default (mkKeyWrite 0 (keyOf "" "") "" KCProject) (Writes setQuota !! 0%nat).
Lemma admitted : quotaScopeDenial side1 mac setQuota a0 = (Ok tt, after).
Proof. vm_compute. reflexivity. Qed.
Lemma usage_in : usage ∈ Writes setQuota.
Proof. apply (list_elem_of_lookup_2 _ 0%nat). vm_compute. reflexivity. Qed.
End AccountingExamples.

