(* ===== verification/Conn.v ===== *)
(** * Client connections (internal/respproxy/proxy.go)

    A connection has two goroutines.  The command goroutine reads a client
    command, decides it, and queues one slot for each reply that is due; the
    reply goroutine reads Redis's replies and gives each to the slot at the
    head of the queue.  A handler of the command goroutine is a pure function
    of that goroutine's own state: it gives the new state and the list of
    [op]s it does on what both share, in order, so that the replies of Redis
    can come between any two of them.  Where a handler calls the policy or
    the authenticator it stops at an [Ask] with the rest as a function of
    the answer.

    A slot's closures (hook, onExec, done) are data here and run by
    [runHook], [runOnExec] and [runDone].  Statistics and log entries are left
    out.  Replies written to the client are kept as a list, one entry per
    reply. *)

From S2P Require Import Prelude GoLib Resp Classify Policy Stores Guard GuardScope GuardCheck Decide.

(** ** Slots *)
Inductive hook : Type :=
  | HWatch
  | HSelect
  | HUpID
  | HSession (owner : string) (n : Z)
  | HSlices (owner : string) (n : Z)
  | HInodes (owner : string) (n : Z)
  | HTrash (db : Z).

(** What commitOnSuccess and the verdict's Done close over; [ud_id] tells one
    decision from another. *)
Record unitDone : Type := mkUnitDone { ud_id : nat; ud_effects : list guardEffect; ud_verdict : bool }.

Record slot : Type := mkSlot {
  s_synth : option string;
  s_drop : bool;
  s_exec : bool;
  s_execCount : nat;
  s_strip : nat;
  s_onExec : option (Principal * list (nat * string));
  s_toRaw : bool;
  s_sub : string;
  s_subN : Z;
  s_hook : option hook;
  s_done : option unitDone;
}.
Definition plainSlot : slot := mkSlot None false false 0 0 None false "" 0 None None.
Definition dropSlot : slot := mkSlot None true false 0 0 None false "" 0 None None.
Definition synthSlot (b : string) : slot := mkSlot (Some b) false false 0 0 None false "" 0 None None.
Definition hookSlot (drop : bool) (h : hook) : slot := mkSlot None drop false 0 0 None false "" 0 (Some h) None.

Definition isSynth (s : slot) : bool := bool_decide (is_Some (s_synth s)).

(** ** The command goroutine's state *)
Record txnState : Type := mkTxn { tx_cmds : list Cmd; tx_poison : bool }.

Record cmdState : Type := mkCmdState {
  cm_principal : option Principal;
  cm_resp3 : bool;
  cm_subscribed : bool;
  cm_db : Z;
  cm_txn : option txnState;
  cm_watched : list string;
  cm_watchAck : bool;
}.
Definition setTxn (t : option txnState) (c : cmdState) : cmdState :=
  mkCmdState (cm_principal c) (cm_resp3 c) (cm_subscribed c) (cm_db c) t (cm_watched c) (cm_watchAck c).
Definition setWatched (w : list string) (c : cmdState) : cmdState :=
  mkCmdState (cm_principal c) (cm_resp3 c) (cm_subscribed c) (cm_db c) (cm_txn c) w (cm_watchAck c).
Definition setWatch (w : list string) (c : cmdState) : cmdState :=
  mkCmdState (cm_principal c) (cm_resp3 c) (cm_subscribed c) (cm_db c) (cm_txn c) w true.
Definition setPrincipal (p : Principal) (c : cmdState) : cmdState :=
  mkCmdState (Some p) (cm_resp3 c) (cm_subscribed c) (cm_db c) (cm_txn c) (cm_watched c) (cm_watchAck c).
Definition setResp3 (b : bool) (c : cmdState) : cmdState :=
  mkCmdState (cm_principal c) b (cm_subscribed c) (cm_db c) (cm_txn c) (cm_watched c) (cm_watchAck c).
Definition setSubscribed (c : cmdState) : cmdState :=
  mkCmdState (cm_principal c) (cm_resp3 c) true (cm_db c) (cm_txn c) (cm_watched c) (cm_watchAck c).
Definition setDB (n : Z) (c : cmdState) : cmdState :=
  mkCmdState (cm_principal c) (cm_resp3 c) (cm_subscribed c) n (cm_txn c) (cm_watched c) (cm_watchAck c).

(** What the reply goroutine stores for the command goroutine: the upstream's
    CLIENT ID and the latest INCR nextTrash (its DB and its reply). *)
Record atoms : Type := mkAtoms { at_upID : Z; at_trash : option (Z * Z) }.

(** What the rest of the proxy answers while one command is handled. *)
Record env : Type := mkEnv {
  e_id : Z;
  e_mode : Mode;
  e_fenced : bool;
  e_person : option Person;
  e_inForce : bool;
  e_scope : bool;
  e_owner : Z -> result ioerr (option string);
  e_mark : result ioerr Z;
  e_confirm : result ioerr unit;
  e_dbs : list Z;
  e_local : list string -> string;
}.

(** ** What a handler does *)
Inductive failMode : Type := CloseOnErr | KeepOnErr | LostOnErr (ud : unitDone).
Inductive op : Type :=
  | StartUpstream
  | Forward (args : list string) (s : slot) (f : failMode)
  | Answer (b : string)
  | AwaitSelect (n : Z)
  | WriteNoSlot (args : list string)
  | Report (ud : unitDone) (o : Outcome)
  | CloseConn.

(** The outcome of [decide] and auditStart: the refusal, the unit as the
    guard left it, the effects, whether the verdict has a Done, whether there
    is one after the audit log, and the receipt of a guarded replacement. *)
Record decision : Type := mkDecision {
  dc_id : nat;
  dc_deny : option Denial;
  dc_unit : Unit;
  dc_effects : list guardEffect;
  dc_verdictDone : bool;
  dc_done : bool;
  dc_receipt : option (list string);
}.
Inductive authOutcome : Type := AuthRefused | LoggedIn (p : Principal) (dialed : bool).

Inductive action : Type :=
  | Run (c : cmdState) (a : atoms) (ops : list op)
  | AskPolicy (p : Principal) (u : Unit) (k : decision -> cmdState * atoms * list op)
  | AskAuth (user pass : string) (k : authOutcome -> cmdState * atoms * list op)
  | GoPanic.

Definition errReply (msg : string) : string := "-" +:+ msg +:+ CRLF.
Definition wrongPass : string := "WRONGPASS invalid username-password pair or user is disabled.".
Definition denialReply (d : Denial) : string := default "" (Reply d).

Section handlers.
Context (e : env).

Definition confirmWatch (c : cmdState) : result ioerr unit := if cm_watchAck c then e_confirm e else Err IOErr.

Definition upstreamName (p : Principal) : string := UpstreamName (PName p) (e_id e).

Definition newUnit (p : Principal) (c : cmdState) (a : atoms) (k : UnitKind) (cmds : list Cmd) (watched : list string) (alloc : Z) : Unit :=
  let mac := bool_decide (PKind p = KindMac) in
  let person := if mac then e_person e else None in
  mkUnit k (cm_db c) cmds watched [] [] [] person alloc (Some (e_owner e)) (Some (e_mark e)) (at_upID a)
    (match k with UnitTxn => Some (confirmWatch c) | UnitBare => None end) None (e_mode e) (e_id e) (upstreamName p)
    (mac && bool_decide (person = None) && e_inForce e).

(** The done function of an admitted unit; [None] is nil. *)
Definition commitOnSuccess (d : decision) : option unitDone :=
  if bool_decide (dc_effects d = []) && negb (dc_done d) then None
  else Some (mkUnitDone (dc_id d) (dc_effects d) (dc_done d)).

Definition verdictOf (d : decision) : unitDone := mkUnitDone (dc_id d) [] (dc_verdictDone d).
Definition reportRefused (d : decision) : list op :=
  if dc_verdictDone d then [Report (verdictOf d) (mkOutcome false false false (e_id e))] else [].

(** *** Bare commands *)
Definition InodeOwnersKey : string := "jmlease:v1:inodes".
Definition InodeMarkKey : string := "jmlease:v1:inodes:mark".
Definition inodeAllocLua : string :=
"if redis.call('EXISTS', KEYS[3]) == 0 then
  redis.call('SET', KEYS[3], redis.call('GET', KEYS[1]) or '0')
end
local hi = redis.call('INCRBY', KEYS[1], ARGV[1])
local lo = hi - tonumber(ARGV[1]) + 1
local owner = ARGV[2]
local prev = redis.call('ZRANGE', KEYS[2], lo - 1, lo - 1, 'BYSCORE')
for _, m in ipairs(prev) do
  local plo, phi, pown = string.match(m, '^(%d+):(%d+):(.+)$')
  if pown == owner and tonumber(phi) + 1 == lo then
    redis.call('ZREM', KEYS[2], m)
    lo = tonumber(plo)
  end
end
redis.call('ZADD', KEYS[2], hi, string.format('%.0f', lo) .. ':' .. string.format('%.0f', hi) .. ':' .. owner)
return hi".

(** What is written upstream for an admitted bare unit, and its hook. *)
Definition bareArgs (p : Principal) (args : list string) (d : decision) : list string :=
  match rewrite_ (dc_unit d) with
  | Some r => r
  | None =>
      let '(counter, n) := Allocation (dc_unit d) in
      if counter =s "nextinode"
      then ["EVAL"; inodeAllocLua; "3"; default "" (args !! 1%nat); InodeOwnersKey; InodeMarkKey; FormatInt n; PName p]
      else args
  end.
Definition bareHook (p : Principal) (c : cmdState) (u : Unit) : option hook :=
  let '(counter, n) := Allocation u in
  if counter =s "nextsession" then Some (HSession (PName p) n)
  else if counter =s "nextchunk" then Some (HSlices (PName p) n)
  else if counter =s "nextinode" then Some (HInodes (PName p) n)
  else if counter =s "nextTrash" then Some (HTrash (cm_db c))
  else None.

Definition gateBare (p : Principal) (c : cmdState) (a : atoms) (args : list string) (info : Command) : action :=
  AskPolicy p (newUnit p c a UnitBare [mkCmd args info] [] 0) (fun d =>
    (c, a,
     match dc_deny d with
     | Some r => reportRefused d ++ [Answer (denialReply r)]
     | None =>
         [Forward (bareArgs p args d)
            (mkSlot None false false 0 0 None false "" 0 (bareHook p c (dc_unit d)) (commitOnSuccess d)) CloseOnErr]
     end)).

(** *** Transactions *)
Definition SetBitArgs (id : Z) : list string := ["SETBIT"; UsedBitKey id; FormatUint (UsedBitOffset id); "1"].

(** The commands appended to an admitted body. *)
Definition usedIDs (d : decision) : list Z := mjoin (effUsed <$> dc_effects d).
Definition extraCmds (d : decision) : list (list string) := (SetBitArgs <$> usedIDs d) ++ option_list (dc_receipt d).

(** Fields of sliceRef the body decrements, with the index of the command. *)
Definition sliceDecs (cmds : list Cmd) : list (nat * string) :=
  omap (M := list) (fun ic =>
    match Args (snd ic) with
    | [_; k; f; n] =>
        if (Name (Info (snd ic)) =s "HINCRBY") && (k =s "sliceRef")
        then match RedisInt n with Some n => if n <? 0 then Some (fst ic, f) else None | None => None end
        else None
    | _ => None
    end) (imap pair cmds).

Definition execSlot (p : Principal) (d : decision) : slot :=
  let extra := length (extraCmds d) in
  let decs := sliceDecs (Cmds (dc_unit d)) in
  mkSlot None false true
    (match dc_receipt d with Some _ => length (Cmds (dc_unit d)) + extra | None => 0 end)%nat extra
    (if negb (bool_decide (decs = [])) && negb (is_bg p) && negb (is_admin p) then Some (p, decs) else None)
    false "" 0 None (commitOnSuccess d).

Definition refuseTxn (r : Denial) : list op := [Forward ["DISCARD"] dropSlot CloseOnErr; Answer (denialReply r)].

(** The receipt's failure reports the unit; that of a SETBIT does not. *)
Definition admitTxn (p : Principal) (d : decision) : list op :=
  ((fun id => Forward (SetBitArgs id) dropSlot CloseOnErr) <$> usedIDs d) ++
  (match dc_receipt d with
   | Some r => [Forward r dropSlot (if dc_done d then LostOnErr (mkUnitDone (dc_id d) [] true) else CloseOnErr)]
   | None => []
   end) ++
  [Forward ["EXEC"] (execSlot p d) CloseOnErr].

Definition trashOf (c : cmdState) (a : atoms) : Z :=
  match at_trash a with Some (db, n) => if db =? cm_db c then n else 0 | None => 0 end.

Definition exec (p : Principal) (c : cmdState) (a : atoms) (t : txnState) : action :=
  let c' := setWatched [] (setTxn None c) in
  let a' := mkAtoms (at_upID a) None in
  if tx_poison t then Run c' a' (refuseTxn (deny ReasonUnknownKey))
  else
    AskPolicy p (newUnit p c a UnitTxn (tx_cmds t) (cm_watched c) (trashOf c a)) (fun d =>
      (c', a', match dc_deny d with
               | Some r => reportRefused d ++ refuseTxn r
               | None => admitTxn p d
               end)).

Definition stateful (name : string) (cl : Class) : bool :=
  bool_decide (name ∈ ["AUTH"; "HELLO"; "SELECT"; "CLIENT"; "QUIT"]) || bool_decide (cl ∈ [ClassLocal; ClassPubSub; ClassForbidden]).

Definition inTxn (p : Principal) (c : cmdState) (a : atoms) (t : txnState) (args : list string) (info : Command) : action :=
  let name := Name info in
  if name =s "EXEC" then exec p c a t
  else if name =s "DISCARD" then Run (setWatched [] (setTxn None c)) a [Forward args plainSlot CloseOnErr]
  else if bool_decide (name ∈ ["MULTI"; "WATCH"]) then Run c a [Forward args plainSlot CloseOnErr]
  else if stateful name (CClass info)
  then Run (setTxn (Some (mkTxn (tx_cmds t) true)) c) a
         [Answer (errReply ("ERR proxy: " +:+ name +:+ " is not allowed inside MULTI"))]
  else Run (setTxn (Some (mkTxn (tx_cmds t ++ [mkCmd args info]) (tx_poison t))) c) a [Forward args plainSlot CloseOnErr].

(** *** AUTH and HELLO; [up]: the upstream is there, [f]: what an error does *)
Definition ensureUpstream (up dialed : bool) (f : failMode) (rest : list op) : list op :=
  if up then rest
  else if dialed then [StartUpstream; Forward ["CLIENT"; "ID"] (hookSlot true HUpID) f] ++ rest
  else [Answer (errReply "ERR proxy: metadata server unavailable"); CloseConn].

Definition setName (p : Principal) : list string := ["CLIENT"; "SETNAME"; upstreamName p].

Definition auth (up : bool) (f : failMode) (c : cmdState) (a : atoms) (args : list string) : action :=
  let ask user pass := AskAuth user pass (fun r =>
    match r with
    | AuthRefused => (c, a, [Answer (errReply wrongPass)])
    | LoggedIn p dialed => (setPrincipal p c, a, ensureUpstream up dialed f [Forward (setName p) dropSlot f; Answer ("+OK" +:+ CRLF)])
    end) in
  match args with
  | [_; pass] => ask "default" pass
  | [_; user; pass] => ask user pass
  | _ => Run c a [Answer (errReply "ERR wrong number of arguments for 'auth' command")]
  end.

(** The options of HELLO: the credentials, or the reply to bad syntax. *)
Fixpoint helloOpts (args : list string) (creds : option (string * string)) : result string (option (string * string)) :=
  match args with
  | [] => Ok creds
  | o :: rest =>
      if ToUpper o =s "AUTH" then
        match rest with
        | user :: pass :: rest' => helloOpts rest' (Some (user, pass))
        | _ => Err (errReply "ERR Syntax error in HELLO option 'auth'")
        end
      else if ToUpper o =s "SETNAME" then
        match rest with
        | _ :: rest' => helloOpts rest' creds
        | _ => Err (errReply "ERR Syntax error in HELLO option 'setname'")
        end
      else Err (errReply "ERR Syntax error in HELLO option")
  end.

Definition helloEnd (up dialed : bool) (f : failMode) (ver : string) (p : Principal) (c : cmdState) (a : atoms) : cmdState * atoms * list op :=
  if ver =s "" then (c, a, ensureUpstream up dialed f [Forward ["HELLO"] plainSlot f])
  else ((if up || dialed then setResp3 (ver =s "3") c else c), a,
        ensureUpstream up dialed f [Forward ["HELLO"; ver; "SETNAME"; upstreamName p] plainSlot f]).

Definition hello (up : bool) (f : failMode) (c : cmdState) (a : atoms) (args : list string) : action :=
  let ver := default "" (args !! 1%nat) in
  if Nat.ltb 1 (length args) && negb (ver =s "2") && negb (ver =s "3")
  then Run c a [Answer (errReply "NOPROTO unsupported protocol version")]
  else match helloOpts (drop 2 args) None with
       | Err r => Run c a [Answer r]
       | Ok (Some (user, pass)) =>
           AskAuth user pass (fun r =>
             match r with
             | AuthRefused => (c, a, [Answer (errReply wrongPass)])
             | LoggedIn p dialed => helloEnd up dialed f ver p (setPrincipal p c) a
             end)
       | Ok None =>
           match cm_principal c with
           | None => Run c a [Answer (denialReply (deny ReasonAuthRequired))]
           | Some p => let '(c', a', ops) := helloEnd up true f ver p c a in Run c' a' ops
           end
       end.

(** One command of a connection that has not logged in. *)
Definition preAuth (c : cmdState) (a : atoms) (args : list string) : action :=
  match Classify args with
  | None => GoPanic
  | Some info =>
      if Name info =s "AUTH" then auth false CloseOnErr c a args
      else if Name info =s "HELLO" then hello false CloseOnErr c a args
      else if Name info =s "QUIT" then Run c a [Answer ("+OK" +:+ CRLF); CloseConn]
      else Run c a [Answer (denialReply (deny ReasonAuthRequired))]
  end.

(** *** SELECT, SUBSCRIBE, JM.* *)
Definition dbAllowed (n : Z) : bool := bool_decide (n ∈ e_dbs e).

Definition selectArg (args : list string) : Z :=
  match args with
  | [_; s] => let '(v, ok) := ParseInt s in if ok && (0 <=? v) then v else -1
  | _ => -1
  end.
Definition selectDB (p : Principal) (c : cmdState) (a : atoms) (args : list string) : action :=
  let n := selectArg args in
  if n <? 0 then Run c a [Forward args plainSlot CloseOnErr]
  else if negb (is_admin p) && negb (dbAllowed n) then Run c a [Answer (denialReply (deny ReasonAdminOnly))]
  else Run c a [Forward args (hookSlot false HSelect) CloseOnErr; AwaitSelect n].

Definition subscribe (c : cmdState) (a : atoms) (args : list string) (name : string) : action :=
  if name =s "PUBSUB" then Run c a [Forward args plainSlot CloseOnErr]
  else if cm_resp3 c then
    let kind := ToLower name in
    let n := Z.of_nat (length args) - 1 in
    let n := if (n =? 0) && Contains kind "unsubscribe" then -1 else n in
    Run c a [Forward args (mkSlot None false false 0 0 None false kind n None None) CloseOnErr]
  else Run (setSubscribed c) a [Forward args (mkSlot None false false 0 0 None true "" 0 None None) CloseOnErr].

Definition local (args : list string) : string :=
  if e_fenced e then denialReply (deny ReasonProxyFenced) else e_local e args.

(** *** One command *)
Definition roArgs (args : list string) : list string :=
  match args with
  | [] => []
  | n :: rest => (if ToUpper n =s "EVAL" then "EVAL_RO" else if ToUpper n =s "EVALSHA" then "EVALSHA_RO" else n) :: rest
  end.

Definition pubsubNames : list string :=
  ["SUBSCRIBE"; "PSUBSCRIBE"; "SSUBSCRIBE"; "UNSUBSCRIBE"; "PUNSUBSCRIBE"; "SUNSUBSCRIBE"; "PING"; "QUIT"].

Definition maxWatched : nat := 2 ^ 13.

(** Commands without a case of their own. *)
Definition byClass (p : Principal) (c : cmdState) (a : atoms) (args : list string) (info : Command) : action :=
  match CClass info with
  | ClassForbidden => Run c a [Answer (denialReply (deny ReasonAdminOnly))]
  | ClassLocal => Run c a [Answer (local args)]
  | ClassPubSub => subscribe c a args (Name info)
  | _ => if needsGate info then gateBare p c a args info else Run c a [Forward args plainSlot CloseOnErr]
  end.

Definition isSetName (args : list string) : bool :=
  match args with _ :: s :: _ :: _ => ToUpper s =s "SETNAME" | _ => false end.

Definition bare (p : Principal) (c : cmdState) (a : atoms) (args : list string) (info : Command) : action :=
  let name := Name info in
  if name =s "AUTH" then auth true KeepOnErr c a args
  else if name =s "HELLO" then hello true KeepOnErr c a args
  else if name =s "QUIT" then Run c a [Forward args plainSlot CloseOnErr]
  else if name =s "SELECT" then selectDB p c a args
  else if name =s "MULTI" then Run (setTxn (Some (mkTxn [] false)) c) a [Forward args plainSlot CloseOnErr]
  else if bool_decide (name ∈ ["EXEC"; "DISCARD"; "UNWATCH"]) then Run (setWatched [] c) a [Forward args plainSlot CloseOnErr]
  else if name =s "WATCH" then
    Run (setWatch (cm_watched c ++ take (maxWatched - length (cm_watched c)) (drop 1 args)) c) a [Forward args (hookSlot false HWatch) CloseOnErr]
  else if (name =s "CLIENT") && isSetName args then Run c a [Forward (setName p) plainSlot CloseOnErr]
  else byClass p c a args info.

Definition command (p : Principal) (c : cmdState) (a : atoms) (args : list string) : action :=
  match Classify args with
  | None => GoPanic
  | Some info =>
      let args := if Script info =s "" then args else roArgs args in
      if cm_subscribed c then
        Run c a [if bool_decide (Name info ∈ pubsubNames) then WriteNoSlot args else CloseConn]
      else match cm_txn c with
           | Some t => inTxn p c a t args info
           | None => bare p c a args info
           end
  end.
End handlers.

(** ** The reply goroutine *)
Inductive ferr : Type := FIO (r : rerr) | FDesync | FExec | FEncode.

(** The part of [conn] under its mutex. *)
Record replyQ : Type := mkRQ { rq_q : list slot; rq_fwd : Z; rq_raw : bool; rq_bytes : Z; rq_overflow : bool }.
Record pending : Type := mkPending { MaxPendingBytes : Z; MaxPendingReplies : Z }.
Definition slotCost : Z := 96.

Definition account (l : pending) (n : Z) (r : replyQ) : replyQ :=
  let bytes := rq_bytes r + n in
  mkRQ (rq_q r) (rq_fwd r) (rq_raw r) bytes
    (rq_overflow r || ((0 <? n) && ((MaxPendingBytes l <? bytes) || (MaxPendingReplies l <? Z.of_nat (length (rq_q r)))))).
Definition pushFwd (l : pending) (s : slot) (r : replyQ) : replyQ :=
  account l slotCost (mkRQ (rq_q r ++ [s]) (rq_fwd r + 1) (rq_raw r) (rq_bytes r) (rq_overflow r)).
Definition pushSynth (l : pending) (b : string) (r : replyQ) : replyQ :=
  account l (slotCost + slen b) (mkRQ (rq_q r ++ [synthSlot b]) (rq_fwd r) (rq_raw r) (rq_bytes r) (rq_overflow r)).
Definition popFwd (l : pending) (q : list slot) (r : replyQ) : replyQ :=
  account l (- slotCost) (mkRQ q (rq_fwd r - 1) (rq_raw r) (rq_bytes r) (rq_overflow r)).
Definition popSynth (l : pending) (b : string) (q : list slot) (r : replyQ) : replyQ :=
  account l (- (slotCost + slen b)) (mkRQ q (rq_fwd r) (rq_raw r) (rq_bytes r) (rq_overflow r)).
Definition setRaw (r : replyQ) : replyQ := mkRQ (rq_q r) (rq_fwd r) true (rq_bytes r) (rq_overflow r).
Definition setQ (q : list slot) (r : replyQ) : replyQ := mkRQ q (rq_fwd r) (rq_raw r) (rq_bytes r) (rq_overflow r).

Definition sliceCacheMax : nat := 2 ^ 10.
(** redisRanges.remember. *)
Definition remember (r : sliceRange) (cache : list sliceRange) : list sliceRange :=
  (if Nat.leb sliceCacheMax (length cache) then drop (length cache / 2) cache else cache) ++ [r].

Section replies.
Context {S T : Type} `{SessionStore S} `{SliceStore T}.
Context (l : pending).

(** What the connections share: the guard, the cache of inode batches, and
    the calls of a verdict's Done so far. *)
Record mem : Type := mkMem { m_guard : Guard S T; m_inodes : list sliceRange; m_reports : list (nat * Outcome) }.

Record conn : Type := mkConn {
  co_rq : replyQ;
  co_subs : gmap string (gset string);
  co_at : atoms;
  co_got : option Value;
  co_up : bool;
  co_out : list string;
  co_mem : mem;
}.
Definition setRQ (r : replyQ) (c : conn) : conn := mkConn r (co_subs c) (co_at c) (co_got c) (co_up c) (co_out c) (co_mem c).
Definition setSubs (m : gmap string (gset string)) (c : conn) : conn := mkConn (co_rq c) m (co_at c) (co_got c) (co_up c) (co_out c) (co_mem c).
Definition setAt (a : atoms) (c : conn) : conn := mkConn (co_rq c) (co_subs c) a (co_got c) (co_up c) (co_out c) (co_mem c).
Definition setGot (v : option Value) (c : conn) : conn := mkConn (co_rq c) (co_subs c) (co_at c) v (co_up c) (co_out c) (co_mem c).
Definition setUp (c : conn) : conn := mkConn (co_rq c) (co_subs c) (co_at c) (co_got c) true (co_out c) (co_mem c).
Definition write (b : string) (c : conn) : conn := mkConn (co_rq c) (co_subs c) (co_at c) (co_got c) (co_up c) (co_out c ++ [b]) (co_mem c).
Definition setMem (m : mem) (c : conn) : conn := mkConn (co_rq c) (co_subs c) (co_at c) (co_got c) (co_up c) (co_out c) m.
Definition onGuard (f : Guard S T -> Guard S T) (c : conn) : conn :=
  setMem (mkMem (f (m_guard (co_mem c))) (m_inodes (co_mem c)) (m_reports (co_mem c))) c.

(** *** The closures of a slot *)
Definition runDone (ud : unitDone) (o : Outcome) (c : conn) : conn :=
  let m := co_mem c in
  setMem (mkMem (if Committed o && negb (Lost o) then Commit (ud_effects ud) (m_guard m) else m_guard m) (m_inodes m)
            (if ud_verdict ud then m_reports m ++ [(ud_id ud, o)] else m_reports m)) c.
Definition runDoneOf (s : slot) (o : Outcome) (c : conn) : conn :=
  match s_done s with Some ud => runDone ud o c | None => c end.

Definition isInt (v : Value) : bool := Ascii.eqb (VType v) ":".

(** The ids of an allocation of [n] that ended at [hi]. *)
Definition allocated (n hi : Z) : list Z := (fun k => hi - n + 1 + Z.of_nat k) <$> seq 0 (Z.to_nat n).
Definition claimAll (owner : string) (sids : list Z) (g : Guard S T) : Guard S T :=
  foldl (fun g sid => if sid <=? 0 then g else set_sessions g (snd (sessClaim (sessions g) (u64 sid) owner))) g sids.

Definition runHook (h : hook) (v : Value) (c : conn) : conn :=
  match h with
  | HWatch => c
  | HSelect => setGot (Some v) c
  | HUpID => if isInt v && (0 <? VInt v) then setAt (mkAtoms (VInt v) (at_trash (co_at c))) c else c
  | HSession owner n => if isInt v then onGuard (claimAll owner (allocated n (VInt v))) c else c
  | HSlices owner n =>
      if isInt v && (n <=? VInt v)
      then onGuard (fun g => set_slices g (snd (idRecord (slices g) (u64 (VInt v - n + 1)) (u64 (VInt v)) owner))) c else c
  | HInodes owner n =>
      if isInt v && (n <=? VInt v)
      then setMem (mkMem (m_guard (co_mem c)) (remember (mkRange (u64 (VInt v - n + 1)) (u64 (VInt v)) owner) (m_inodes (co_mem c)))
                     (m_reports (co_mem c))) c
      else c
  | HTrash db => if isInt v && (0 <? VInt v) then setAt (mkAtoms (at_upID (co_at c)) (Some (db, VInt v))) c else c
  end.

Definition runOnExec (x : option (Principal * list (nat * string))) (v : Value) (c : conn) : conn :=
  match x with
  | Some (p, decs) =>
      if negb (Ascii.eqb (VType v) "*") || VNull v then c
      else foldl (fun c d =>
             match VElems v !! fst d with
             | Some w => if isInt w && (VInt w <? 0) then onGuard (NoteDropped p (snd d)) c else c
             | None => c
             end) c decs
  | None => c
  end.

(** *** One frame *)
Definition upBuf : nat := 2 ^ 16.
Definition teeBuf : nat := 2 ^ 12.
Definition copy (inp : string) : result ferr (FrameInfo * string * string) :=
  match CopyFrame upBuf inp with Ok x => Ok x | Err e => Err (FIO e) end.
Definition tee (inp : string) : result ferr (FrameInfo * Value * string * string) :=
  '(info, b, rest) ← copy inp;
  match ReadValue teeBuf b with Ok (v, _) => Ok (info, v, b, rest) | Err e => Err (FIO e) end.

(** A protected EXEC: aborted, or all results there, none an error, the
    receipt the last. *)
Definition isOK (v : Value) : bool := Ascii.eqb (VType v) "+" && (VStr v =s "OK").
Definition execOK (s : slot) (v : Value) : bool :=
  Nat.eqb (s_execCount s) 0 || ((Ascii.eqb (VType v) "*" || Ascii.eqb (VType v) "_") && VNull v) ||
  (Ascii.eqb (VType v) "*" && Nat.eqb (length (VElems v)) (s_execCount s) &&
   forallb (fun x => negb (Ascii.eqb (VType x) "-")) (VElems v) && default false (isOK <$> last (VElems v))).

(** The reply the client sees: the results of appended commands go. *)
Definition stripped (s : slot) (v : Value) (b : string) : option string :=
  if Nat.ltb 0 (s_strip s) && Ascii.eqb (VType v) "*" && negb (VNull v) && Nat.leb (s_strip s) (length (VElems v))
  then EncodeValue (mkValue (VType v) (VStr v) (VInt v) (take (length (VElems v) - s_strip s) (VElems v)) (VNull v))
  else Some b.

Definition answer (s : slot) (inp : string) (c : conn) : result ferr (FrameInfo * string * string) * conn :=
  if Nat.ltb 0 (s_strip s) || bool_decide (is_Some (s_onExec s)) then
    match tee inp with
    | Err e => (Err e, c)
    | Ok (info, v, b, rest) =>
        if negb (execOK s v) then (Err FExec, c)
        else (match stripped s v b with Some x => Ok (info, x, rest) | None => Err FEncode end, runOnExec (s_onExec s) v c)
    end
  else match s_hook s with
       | Some h => match tee inp with
                   | Err e => (Err e, c)
                   | Ok (info, v, b, rest) => (Ok (info, b, rest), runHook h v c)
                   end
       | None => (copy inp, c)
       end.

Definition committed (s : slot) (info : FrameInfo) : bool :=
  negb (IsError info) && (negb (s_exec s) || (negb (FNull info) && Ascii.eqb (FType info) "*")).

(** *** Pub/sub confirmations *)
Definition subKinds : list (string * string) :=
  [("subscribe", "subscribe"); ("psubscribe", "psubscribe"); ("ssubscribe", "ssubscribe");
   ("unsubscribe", "subscribe"); ("punsubscribe", "psubscribe"); ("sunsubscribe", "ssubscribe")].

Definition setSubN (s : slot) (n : Z) : slot :=
  mkSlot (s_synth s) (s_drop s) (s_exec s) (s_execCount s) (s_strip s) (s_onExec s) (s_toRaw s) (s_sub s) n (s_hook s) (s_done s).
Definition confirmSub (kind : string) (size : Z) (r : replyQ) : replyQ :=
  match rq_q r with
  | h :: q =>
      if negb (isSynth h) && (s_sub h =s kind) then
        let n := (if s_subN h <? 0 then Z.max size 1 else s_subN h) - 1 in
        if n <=? 0 then popFwd l q r else setQ (setSubN h n :: q) r
      else r
  | [] => r
  end.

Definition pushFrame (v : Value) (c : conn) : conn :=
  match VElems v with
  | [] => c
  | k :: rest =>
      let kind := ToLower (VStr k) in
      match assoc kind subKinds with
      | None => c
      | Some base =>
          let set := default ∅ (co_subs c !! base) in
          let c := setRQ (confirmSub kind (Z.of_nat (size set)) (co_rq c)) c in
          match rest with
          | [] => c
          | ch :: _ =>
              if VNull ch then c
              else if kind =s base then setSubs (<[base := {[VStr ch]} ∪ set]> (co_subs c)) c
              else setSubs (alter (fun x => x ∖ {[VStr ch]}) base (co_subs c)) c
          end
      end
  end.

(** [frame]: relays one upstream frame; the rest of the stream. *)
Definition frame (id : Z) (inp : string) (c : conn) : result ferr string * conn :=
  match inp with
  | "" => (Err (FIO ErrEOF), c)
  | String t _ =>
      if rq_raw (co_rq c) then
        match copy inp with Ok (_, b, rest) => (Ok rest, write b c) | Err e => (Err e, c) end
      else if Ascii.eqb t ">" then
        match tee inp with Ok (_, v, b, rest) => (Ok rest, write b (pushFrame v c)) | Err e => (Err e, c) end
      else match rq_q (co_rq c) with
           | [] => (Err FDesync, c)
           | s :: q =>
               if isSynth s then (Err FDesync, c)
               else
                 let r := popFwd l q (co_rq c) in
                 match answer s inp (setRQ (if s_toRaw s then setRaw r else r) c) with
                 | (Err e, c) => (Err e, runDoneOf s (mkOutcome true false true id) c)
                 | (Ok (info, b, rest), c) =>
                     (Ok rest, runDoneOf s (mkOutcome true (committed s info) false id) (if s_drop s then c else write b c))
                 end
           end
  end.

(** One round of [writeSynth]; [None]: nothing at the head is proxy-made. *)
Definition writeSynth (c : conn) : option conn :=
  match rq_q (co_rq c) with
  | s :: q => match s_synth s with Some b => Some (write b (setRQ (popSynth l b q (co_rq c)) c)) | None => None end
  | [] => None
  end.

(** ** The operations of the command goroutine *)

(** [reply]: with nothing under way, a PING goes ahead of it. *)
Definition reply (b : string) (c : conn) : conn * option (list string) :=
  if negb (co_up c) then (write b c, None)
  else if rq_fwd (co_rq c) =? 0 then (setRQ (pushSynth l b (pushFwd l dropSlot (co_rq c))) c, Some ["PING"])
  else (setRQ (pushSynth l b (co_rq c)) c, None).

(** An operation goes on (with what it wrote), goes on after a PING that was
    not written, ends the connection, or skips the rest of its handler. *)
Inductive opResult : Type :=
  | Went (sent : option (list string))
  | Unsent
  | Stop
  | Skip.

Definition failed_ (id : Z) (f : failMode) (c : conn) : conn * opResult :=
  match f with
  | CloseOnErr => (c, Stop)
  | KeepOnErr => (c, Skip)
  | LostOnErr ud => (runDone ud (mkOutcome true false true id) c, Stop)
  end.

(** [revoked]: the session is revoked; [wr]: the write upstream goes well and
    no revocation comes before it. *)
Definition forward (id : Z) (revoked wr : bool) (args : list string) (s : slot) (f : failMode) (c : conn) : conn * opResult :=
  if revoked then failed_ id f (runDoneOf s (mkOutcome false false false id) c)
  else
    let c := setRQ (pushFwd l s (co_rq c)) c in
    if rq_overflow (co_rq c) || negb wr then failed_ id f c else (c, Went (Some args)).

Definition runOp (id : Z) (revoked wr : bool) (o : op) (c : conn) : conn * opResult :=
  match o with
  | StartUpstream => (setUp c, Went None)
  | Forward args s f => forward id revoked wr args s f c
  | Answer b =>
      let '(c, sent) := reply b c in
      (c, match sent with Some a => if wr then Went (Some a) else Unsent | None => Went None end)
  | AwaitSelect _ => (c, Went None)
  | WriteNoSlot args => (c, if revoked || negb wr then Stop else Went (Some args))
  | Report ud out => (runDone ud out c, Went None)
  | CloseConn => (c, Stop)
  end.

(** handle's last act: what still waits for a reply is lost. *)
Definition retire (id : Z) (c : conn) : conn :=
  foldl (fun c s => runDoneOf s (mkOutcome true false true id) c) (setRQ (setQ [] (co_rq c)) c) (rq_q (co_rq c)).
End replies.
Arguments mem : clear implicits.
Arguments conn : clear implicits.
