(* ===== verification/ConnDecide.v ===== *)
(** * How the proxy decides a unit (internal/respproxy/proxy.go, decide)

    The stages of a decision in their order: the singleton fence, the guard,
    the accounting values, the scope of quotas, the policy, the checks of
    guarded replacements, the audit log.  A policy is an interface of the
    source; its two implementations are instances of a class here.  The
    replacement checks and the audit log are arguments. *)

From S2P Require Import Prelude GoLib Resp Classify Policy Stores Guard GuardScope GuardCheck GuardFrames GuardFacts TxnUnit Ancestry Grants LeaseStore Leases LeaseCmd Decide DecideFacts Accounting Conn.

(** ** Policies *)
Record Verdict : Type := mkVerdict { vd_deny : option Denial; vd_done : bool }.

(** [quotaScope] is there when the policy is the lease engine. *)
Class Policy (P : Type) : Type := {
  policyDecide : Principal -> Unit -> P -> Verdict * P;
  quotaScope : option (Principal -> Unit -> P -> option Denial * P);
}.

Definition AllowProjectWrites : Policy unit := {|
  policyDecide := fun _ _ x => (mkVerdict None false, x);
  quotaScope := None;
|}.

Section engine.
Context (side : sideDoer) (roots : list string) (volumeDB : Z) (clock : nat -> Z) (net : nat -> fate).

Definition verdictOfState (st : ustate) : Verdict :=
  mkVerdict (match st with Passed _ => None | Refused d => Some d | _ => Some (deny ReasonLeaseHeld) end) true.

(** LeaseEngine.Decide with no other unit under way. *)
Definition engineDecide (p : Principal) (u : Unit) (d : dstate) : Verdict * dstate :=
  match plan side roots volumeDB p u d with
  | (Err dn, d') => (mkVerdict (Some dn) true, d')
  | (Ok pn, d') =>
      let on e := mkD e (d_epoch d') (d_key d') (d_dirs d') in
      match pn_needs pn with
      | NeedNone => (mkVerdict None true, d')
      | NeedStat locs projs =>
          match statStep clock p (bypasses p u) locs projs (d_eng d') with
          | (Ok _, e) => (mkVerdict None true, on e)
          | (Err dn, e) => (mkVerdict (Some dn) true, on e)
          end
      | NeedLease projs =>
          match runUnit clock net p (bypasses p u) projs (decideFuel projs) (Checking 0 []) (d_eng d') with
          | (Ok st, e) => (verdictOfState st, on e)
          | (Err _, e) => (mkVerdict (Some (deny ReasonLeaseHeld)) true, on e)
          end
      end
  end.

Definition engineScope (p : Principal) (u : Unit) (d : dstate) : option Denial * dstate :=
  let '(r, a) := quotaScopeDenial side p u (anc (d_eng d)) in
  (match r with Ok _ => None | Err dn => Some dn end, setDAnc a d).

Definition LeaseEngine : Policy dstate := {|
  policyDecide := engineDecide;
  quotaScope := Some engineScope;
|}.
End engine.

(** ** What the guard puts in place of a command *)
Section rewrites.
Context {S T : Type} `{SessionStore S} `{SliceStore T}.
Context (perm : forall A : Type, list A -> list A) (clock : nat -> Z).
Definition VR (s : CheckState S T) : option (list string) := rewrite_ (cs_u s).

Lemma keeps_VGU_VR {A} (m : SM (CheckState S T) exc A) : keeps VGU m -> keeps VR m.
Proof. intros Hm s. specialize (Hm s). unfold VGU, VR in *. by injection Hm as _ ->. Qed.
Lemma keeps_mod_g_VR f : keeps VR (mod_g (S := S) (T := T) f).
Proof. done. Qed.
Lemma keeps_mod_sc_VR f : keeps VR (mod_sc (S := S) (T := T) f).
Proof. done. Qed.
Lemma keeps_set_class_VR i cl : keeps VR (mod_u (S := S) (T := T) (set_class i cl)).
Proof. done. Qed.
Lemma keeps_refs_VR f : keeps VR (mod_u (S := S) (T := T) (fun u => set_RefInodes u (f u))).
Proof. done. Qed.
Lemma keeps_writes_VR f : keeps VR (mod_u (S := S) (T := T) (fun u => set_Writes u (f u))).
Proof. done. Qed.
Lemma keeps_project_VR f : keeps VR (mod_u (S := S) (T := T) (fun u => set_Project u (f u))).
Proof. done. Qed.
Lemma keeps_time_VR : keeps VR (time_now (S := S) (T := T) clock).
Proof. done. Qed.
#[local] Hint Resolve keeps_VGU_VR keeps_mod_g_VR keeps_mod_sc_VR keeps_set_class_VR keeps_refs_VR keeps_writes_VR keeps_project_VR keeps_time_VR : frame.

Lemma keeps_anchorCleanup_VR : keeps VR (anchorCleanup (S := S) (T := T) perm).
Proof. unfold anchorCleanup, anchorWrite, anchorField. keeps_tac. Qed.
Lemma keeps_ownZeroRefDrop_VR p : keeps VR (ownZeroRefDrop (S := S) (T := T) p).
Proof. unfold ownZeroRefDrop, ownZeroWrite. keeps_tac. Qed.
#[local] Hint Resolve keeps_anchorCleanup_VR keeps_ownZeroRefDrop_VR : frame.

(** The commands the guard puts in place of the client's. *)
Definition rewrittenOK (r : option (list string)) : Prop :=
  match r with None => True | Some r => (exists x, r = "ZADD" :: x) \/ exists x, r = "EVAL" :: SliceDropScript :: x end.
Definition IR (s : CheckState S T) : Prop := rewrittenOK (VR s).

Lemma stable_VR {A} (m : SM (CheckState S T) exc A) : keeps VR m -> stable IR m.
Proof. apply stable_keeps. unfold IR. by intros s s' ->. Qed.
Lemma stable_rewrite r : rewrittenOK (Some r) -> stable IR (mod_u (S := S) (T := T) (fun u => set_rewrite u r)).
Proof. intros Hr s Hs. exact Hr. Qed.

Ltac stable_tac := repeat first
  [ apply stable_VR; solve [keeps_tac]
  | apply stable_bind; [|intros ?]
  | apply stable_mfold; intros ? ?
  | apply stable_rewrite; cbn; by eauto
  | match goal with |- stable _ (match ?x with _ => _ end) => destruct x end ].

Lemma stable_ownRecordStage p : stable IR (ownRecordStage (S := S) (T := T) p).
Proof. unfold ownRecordStage, ownSliceDrop. stable_tac. Qed.
Lemma keeps_counterGate_VR p u c w : keeps VR (counterGate (S := S) (T := T) clock p u c w).
Proof. unfold counterGate, counterCeiling, refreshCounter, openWindow. keeps_tac. Qed.
#[local] Hint Resolve keeps_counterGate_VR : frame.
Lemma stable_keyGate p e w : stable IR (keyGate (S := S) (T := T) clock p e w).
Proof. unfold keyGate, sessionGate, sessionSetGate, heartbeatGate. stable_tac. Qed.

(** The guard leaves a unit's rewrite alone or sets one of the two. *)
Lemma Check_rewrite p s : IR s -> IR (snd (Check perm clock p s)).
Proof.
  revert s. change (stable IR (Check (S := S) (T := T) perm clock p)). unfold Check.
  apply stable_bind; [by intros ? ?|intros []]. apply stable_bind; [by apply stable_VR|intros u].
  apply stable_bind; [apply stable_VR; unfold commandGate; keeps_tac|intros _].
  apply stable_bind; [apply stable_VR; unfold trashStage; keeps_tac|intros _].
  apply stable_bind; [by apply stable_VR|intros u']. apply stable_bind; [apply stable_ownRecordStage|intros ef].
  apply stable_bind; [apply stable_VR; unfold sliceStage; keeps_tac|intros ef']. apply stable_bind; [by apply stable_VR|intros u''].
  apply stable_mfold. intros. apply stable_keyGate.
Qed.
End rewrites.

(** ** The decision *)
Section decide.
Context {S T P : Type} `{SessionStore S} `{SliceStore T} `{Policy P}.
Context (perm : forall A : Type, list A -> list A) (clock : nat -> Z).
(** What replacement.go and audit.go answer to decision number [i], for they
    read Redis and write the log: checkReplacements the refusal or the receipt to append, auditStart
    the refusal and whether there is a Done to call afterwards. *)
Context (checkReplacements : nat -> Unit -> option Denial * option (list string)) (auditStart : nat -> Unit -> bool -> option Denial * bool).

(** Modes relax the policy's refusals only. *)
Definition relax (m : Mode) (d : Denial) : option Denial :=
  if negb (bool_decide (m = ModeEnforce)) && negb (enforcedInEveryMode (DReason d)) then None else Some d.

Definition refused (id : nat) (d : Denial) (u : Unit) : decision := mkDecision id (Some d) u [] false false None.

(** The stages after the guard. *)
Definition afterGuard (e : env) (id : nat) (p : Principal) (u : Unit) (effects : list guardEffect) (pol : P) : decision * P :=
  match accountingValueDenial p u with
  | Some d => (refused id d u, pol)
  | None =>
      let '(sd, pol) := match quotaScope with Some f => if e_scope e then f p u pol else (None, pol) | None => (None, pol) end in
      match sd with
      | Some d => (refused id d u, pol)
      | None =>
          let asks := negb (bool_decide (Project u = [])) &&
                      (negb (bool_decide (UMode u = ModePassthrough)) || bool_decide (is_Some (quotaScope (P := P)))) in
          let '(v, pol) := if asks then policyDecide p u pol else (mkVerdict None false, pol) in
          match vd_deny v ≫= relax (UMode u) with
          | Some d => (mkDecision id (Some d) u effects (vd_done v) (vd_done v) None, pol)
          | None =>
              match checkReplacements id u with
              | (Some d, _) => (mkDecision id (Some d) u effects (vd_done v) (vd_done v) None, pol)
              | (None, receipt) =>
                  let '(d, done) := auditStart id u (vd_done v) in
                  (mkDecision id d u effects (vd_done v) done receipt, pol)
              end
          end
      end
  end.

(** [None]: the guard panicked. *)
Definition decideUnit (e : env) (id : nat) (p : Principal) (u : Unit) (g : Guard S T) (tick : nat) (pol : P) :
    option (decision * Guard S T * nat * P) :=
  if e_fenced e then Some (refused id (deny ReasonProxyFenced) u, g, tick, pol)
  else
    match Check perm clock p (startCheck g u tick) with
    | (Err Panic, _) => None
    | (Err (Denied d), s) => Some (refused id d (cs_u s), cs_g s, cs_tick s, pol)
    | (Ok effects, s) => let '(d, pol) := afterGuard e id p (cs_u s) effects pol in Some (d, cs_g s, cs_tick s, pol)
    end.

(** ** What an admitted unit has passed *)
Record passed (e : env) (p : Principal) (u : Unit) (d : decision) : Prop := {
  ps_rewrite : rewrite_ u = None -> rewrittenOK (rewrite_ (dc_unit d));
  ps_fence : e_fenced e = false;
  ps_core : core (dc_unit d) = core u;
  ps_commands : Forall (command_allowed p) (Cmds u);
  ps_keys : Forall (class_allowed p (dc_unit d)) (Writes (dc_unit d));
  ps_accounting : accountingValueDenial p (dc_unit d) = None;
  ps_replacement : exists r, checkReplacements (dc_id d) (dc_unit d) = (None, r) /\ dc_receipt d = r;
}.

Lemma afterGuard_passes e id p u effects pol d pol' : afterGuard e id p u effects pol = (d, pol') -> dc_deny d = None ->
  dc_id d = id /\ dc_unit d = u /\ accountingValueDenial p u = None /\ exists r, checkReplacements id u = (None, r) /\ dc_receipt d = r.
Proof.
  unfold afterGuard. destruct (accountingValueDenial p u) eqn:Ea; [by intros [= <- <-]|].
  match goal with |- (let '(_, _) := ?x in _) = _ -> _ => destruct x as [[sd|] pol1] end; [by intros [= <- <-]|].
  match goal with |- (let '(_, _) := ?x in _) = _ -> _ => destruct x as [v pol2] end.
  destruct (vd_deny v ≫= relax (UMode u)); [by intros [= <- <-]|].
  destruct (checkReplacements id u) as [[d0|] r] eqn:Er; [by intros [= <- <-]|].
  destruct (auditStart id u (vd_done v)) as [ad done_]. intros [= <- <-] Hd. split_and!; [done..|]. by exists r.
Qed.

Lemma afterGuard_id e id p u effects pol d pol' : afterGuard e id p u effects pol = (d, pol') -> dc_id d = id.
Proof.
  unfold afterGuard. destruct (accountingValueDenial p u); [by intros [= <- <-]|].
  match goal with |- (let '(_, _) := ?x in _) = _ -> _ => destruct x as [[sd|] pol1] end; [by intros [= <- <-]|].
  match goal with |- (let '(_, _) := ?x in _) = _ -> _ => destruct x as [v pol2] end.
  destruct (vd_deny v ≫= relax (UMode u)); [by intros [= <- <-]|].
  destruct (checkReplacements id u) as [[d0|] r]; [by intros [= <- <-]|].
  destruct (auditStart id u (vd_done v)) as [ad done_]. by intros [= <- <-].
Qed.

Lemma decideUnit_id e id p u g tick pol d g' tick' pol' : decideUnit e id p u g tick pol = Some (d, g', tick', pol') -> dc_id d = id.
Proof.
  unfold decideUnit. destruct (e_fenced e); [by intros [= <- _ _ _]|].
  destruct (Check _ _ _ _) as [[eff|[dn|]] s]; [|by intros [= <- _ _ _]|done].
  destruct (afterGuard _ _ _ _ _ _) as [d1 pol1] eqn:Ea. intros [= <- _ _ _]. by eapply afterGuard_id.
Qed.

Lemma decideUnit_passes e id p u g tick pol d g' tick' pol' :
  decideUnit e id p u g tick pol = Some (d, g', tick', pol') -> dc_deny d = None -> passed e p u d.
Proof.
  unfold decideUnit. destruct (e_fenced e) eqn:Ef; [by intros [= <- _ _ _]|].
  destruct (Check _ _ _ _) as [[eff|[dn|]] s] eqn:Ec; [|by intros [= <- _ _ _]|done].
  destruct (afterGuard _ _ _ _ _ _) as [d1 pol1] eqn:Ea. intros [= -> _ _ _] Hd.
  destruct (afterGuard_passes _ _ _ _ _ _ _ _ Ea Hd) as (Hid & Hu & Hacc & Hr).
  destruct (check_stages _ _ _ _ _ _ Ec) as (Hc & Hcore & _ & Hk & _). split; rewrite ?Hu, ?Hid; try done.
  intros Hrw. pose proof (Check_rewrite perm clock p (startCheck g u tick)) as Hck. rewrite Ec in Hck. apply Hck. unfold IR, VR. cbn. by rewrite Hrw.
Qed.
End decide.
