(* ===== verification/ConnWorld.v ===== *)
(** * A connection, its Redis and the rest of the proxy

    The world is one client connection with the Redis connection behind it.
    Its steps are those of the command goroutine (a command is handled; one
    operation of a handler is done), of the reply goroutine (one frame, one
    proxy-made reply), and of everything else (other clients of Redis, other
    connections of the proxy), in any order.  A revocation or a failed write
    may come at every operation.

    Redis is not code of this repository: it is a class, and [ServerLaws] is
    what is documented of MULTI, EXEC, DISCARD and SELECT and of replies.
    Redis is taken to run a command when it is written; its reply is read at
    some later step.  The world also remembers the decisions asked for
    ([w_asked]), what Redis ran ([w_ran]) and the reply each command should
    get ([w_due]). *)

From S2P Require Import Prelude GoLib Resp Classify Policy Stores Guard GuardScope GuardCheck Decide Conn ConnDecide.

(** ** Redis *)

(** Command names are compared without case, byte by byte. *)
Definition redisName (args : list string) : string := map_bytes up_ascii (default "" (head args)).

(** The MULTI state of a connection: none, a queue, or a transaction that
    will abort. *)
Definition txnView : Type := option (option (list (list string))).

(** Commands whose effect on the MULTI state is relied upon. *)
Definition inMultiNames : list string := ["EXEC"; "DISCARD"; "QUIT"; "RESET"; "MULTI"; "WATCH"].
Inductive txn_step : txnView -> list string -> txnView -> list (list string) -> Prop :=
  | t_multi a : redisName a = "MULTI" -> length a = 1%nat -> txn_step None a (Some (Some [])) []
  | t_bare a ran : redisName a <> "MULTI" -> ran = [] \/ ran = [a] -> txn_step None a None ran
  | t_queue body a : redisName a ∉ inMultiNames -> txn_step (Some (Some body)) a (Some (Some (body ++ [a]))) []
  | t_error m a : redisName a ∉ ["EXEC"; "DISCARD"; "QUIT"; "RESET"] -> txn_step (Some m) a (Some None) []
  | t_nested m a : redisName a ∈ ["MULTI"; "WATCH"] -> txn_step (Some m) a (Some m) []
  | t_discard m a : redisName a = "DISCARD" -> length a = 1%nat -> txn_step (Some m) a None []
  | t_abort m a : redisName a = "EXEC" -> length a = 1%nat -> txn_step (Some m) a None []
  | t_exec body a : redisName a = "EXEC" -> length a = 1%nat -> txn_step (Some (Some body)) a None body.

(** Where [txn_step] says what happens. *)
Definition plainTxn (m : txnView) (a : list string) : Prop :=
  match m with
  | None => redisName a = "MULTI" -> length a = 1%nat
  | Some _ => redisName a <> "QUIT" /\ redisName a <> "RESET" /\ (redisName a ∈ ["EXEC"; "DISCARD"] -> length a = 1%nat)
  end.

(** One whole reply, not a push: what it is, and its value. *)
Definition frameOf (b : string) (info : FrameInfo) (v : Value) : Prop :=
  CopyFrame upBuf b = Ok (info, b, "") /\ ReadValue teeBuf b = Ok (v, "") /\ (exists t r, b = String t r /\ t <> ">"%char).

Definition isArray (info : FrameInfo) : bool := negb (IsError info) && negb (FNull info) && Ascii.eqb (FType info) "*".

Class Server (R : Type) : Type := {
  srv_call : R -> list string -> R -> list (list string) -> string -> Prop;
  srv_multi : R -> txnView;
  srv_db : R -> Z;
}.

(** What Redis documents of a command [a] that ran [ran] and replied [b]. *)
Class ServerLaws (R : Type) `{Server R} : Prop := {
  sl_txn r a r' ran b : srv_call r a r' ran b -> plainTxn (srv_multi r) a -> txn_step (srv_multi r) a (srv_multi r') ran;
  sl_frame r a r' ran b : srv_call r a r' ran b -> exists info v, frameOf b info v;
  sl_done r a r' ran b info v : srv_call r a r' ran b -> frameOf b info v -> srv_multi r = None ->
    IsError info = false -> ran = [a] \/ redisName a ∈ ["MULTI"; "EXEC"; "DISCARD"; "WATCH"; "UNWATCH"];
  sl_exec r r' ran b info v : srv_call r ["EXEC"] r' ran b -> frameOf b info v -> srv_multi r <> None ->
    if isArray info then srv_multi r = Some (Some ran) else ran = [];
  sl_select r a r' ran b info v : srv_call r a r' ran b -> frameOf b info v -> redisName a = "SELECT" -> srv_multi r = None ->
    if Ascii.eqb (VType v) "+" then exists n s, a = [s; FormatInt n] /\ 0 <= n /\ is_i64 n /\ srv_db r' = n else srv_db r' = srv_db r;
  sl_db r a r' ran b : srv_call r a r' ran b -> redisName a <> "SELECT" -> redisName a <> "RESET" ->
    Forall (fun c => redisName c <> "SELECT" /\ redisName c <> "RESET") ran -> srv_db r' = srv_db r;
}.

(** ** The world *)
Inductive life : Type := Serving | Ended | Retired.
Inductive replyPC : Type := RIdle | RDrain | RDead.

(** A reply on its way: the unit it is of, what Redis ran, its bytes. *)
Record pendReply : Type := mkPend { pe_unit : option nat; pe_ran : list (list string); pe_reply : string }.
Record ask : Type := mkAsk { ak_env : env; ak_p : Principal; ak_u : Unit; ak_d : decision }.
Record run : Type := mkRun { rn_unit : option nat; rn_db : Z; rn_cmds : list (list string) }.

(** Commands that have to be decided. *)
Definition gated (args : list string) : bool := match Classify args with Some info => needsGate info | None => true end.
(** The operation that makes Redis run a unit. *)
Definition opGated (o : op) : bool := match o with Forward args s _ => s_exec s || (gated args && negb (s_drop s)) | _ => false end.
Definition slotOf (o : op) : slot := match o with Forward _ s _ => s | _ => dropSlot end.

(** What an admitted unit is for Redis. *)
Definition unitBody (p : Principal) (d : decision) : list (list string) :=
  match UKind (dc_unit d), Cmds (dc_unit d) with
  | UnitBare, c :: _ => [bareArgs p (Args c) d]
  | UnitBare, [] => []
  | UnitTxn, cs => (Args <$> cs) ++ extraCmds d
  end.

(** The reply the client is due for reply [b] of Redis. *)
Definition clientView (s : slot) (b : string) : string :=
  if Nat.ltb 0 (s_strip s) || bool_decide (is_Some (s_onExec s))
  then match ReadValue teeBuf b with Ok (v, _) => default "" (stripped s v b) | Err _ => "" end
  else b.

Section world.
Context {R S T P : Type} `{Server R} `{SessionStore S} `{SliceStore T} `{Policy P}.
Context (l : pending) (id : Z) (allowed : list string -> Prop).
Context (perm : forall A : Type, list A -> list A) (clock : nat -> Z).
Context (checkReplacements : nat -> Unit -> option Denial * option (list string)) (auditStart : nat -> Unit -> bool -> option Denial * bool).

Record world : Type := mkWorld {
  w_cm : cmdState;
  w_prog : list op;
  w_life : life;
  w_broken : bool;
  w_conn : conn S T;
  w_reply : replyPC;
  w_srv : R;
  w_pend : list pendReply;
  w_tick : nat;
  w_pol : P;
  w_asked : list ask;
  w_ran : list run;
  w_due : list string;
  w_count : nat;
}.
Definition set_cm (x : cmdState) (w : world) : world :=
  mkWorld x (w_prog w) (w_life w) (w_broken w) (w_conn w) (w_reply w) (w_srv w) (w_pend w) (w_tick w) (w_pol w) (w_asked w) (w_ran w) (w_due w) (w_count w).
Definition set_prog (x : list op) (w : world) : world :=
  mkWorld (w_cm w) x (w_life w) (w_broken w) (w_conn w) (w_reply w) (w_srv w) (w_pend w) (w_tick w) (w_pol w) (w_asked w) (w_ran w) (w_due w) (w_count w).
Definition set_life (x : life) (w : world) : world :=
  mkWorld (w_cm w) (w_prog w) x (w_broken w) (w_conn w) (w_reply w) (w_srv w) (w_pend w) (w_tick w) (w_pol w) (w_asked w) (w_ran w) (w_due w) (w_count w).
Definition set_broken (x : bool) (w : world) : world :=
  mkWorld (w_cm w) (w_prog w) (w_life w) x (w_conn w) (w_reply w) (w_srv w) (w_pend w) (w_tick w) (w_pol w) (w_asked w) (w_ran w) (w_due w) (w_count w).
Definition set_conn (x : conn S T) (w : world) : world :=
  mkWorld (w_cm w) (w_prog w) (w_life w) (w_broken w) x (w_reply w) (w_srv w) (w_pend w) (w_tick w) (w_pol w) (w_asked w) (w_ran w) (w_due w) (w_count w).
Definition set_reply (x : replyPC) (w : world) : world :=
  mkWorld (w_cm w) (w_prog w) (w_life w) (w_broken w) (w_conn w) x (w_srv w) (w_pend w) (w_tick w) (w_pol w) (w_asked w) (w_ran w) (w_due w) (w_count w).
Definition set_srv (x : R) (w : world) : world :=
  mkWorld (w_cm w) (w_prog w) (w_life w) (w_broken w) (w_conn w) (w_reply w) x (w_pend w) (w_tick w) (w_pol w) (w_asked w) (w_ran w) (w_due w) (w_count w).
Definition set_pend (x : list pendReply) (w : world) : world :=
  mkWorld (w_cm w) (w_prog w) (w_life w) (w_broken w) (w_conn w) (w_reply w) (w_srv w) x (w_tick w) (w_pol w) (w_asked w) (w_ran w) (w_due w) (w_count w).
Definition set_asked (x : list ask) (w : world) : world :=
  mkWorld (w_cm w) (w_prog w) (w_life w) (w_broken w) (w_conn w) (w_reply w) (w_srv w) (w_pend w) (w_tick w) (w_pol w) x (w_ran w) (w_due w) (w_count w).
Definition set_ran (x : list run) (w : world) : world :=
  mkWorld (w_cm w) (w_prog w) (w_life w) (w_broken w) (w_conn w) (w_reply w) (w_srv w) (w_pend w) (w_tick w) (w_pol w) (w_asked w) x (w_due w) (w_count w).
Definition set_due (x : list string) (w : world) : world :=
  mkWorld (w_cm w) (w_prog w) (w_life w) (w_broken w) (w_conn w) (w_reply w) (w_srv w) (w_pend w) (w_tick w) (w_pol w) (w_asked w) (w_ran w) x (w_count w).
Definition set_count (x : nat) (w : world) : world :=
  mkWorld (w_cm w) (w_prog w) (w_life w) (w_broken w) (w_conn w) (w_reply w) (w_srv w) (w_pend w) (w_tick w) (w_pol w) (w_asked w) (w_ran w) (w_due w) x.

Definition start (x : cmdState * atoms * list op) (w : world) : world :=
  let '(cm, a, ops) := x in
  set_cm cm (set_prog ops (set_conn (setAt a (w_conn w)) (set_count (Datatypes.S (w_count w)) w))).
Definition decidedAs (x : ask) (g : Guard S T) (tick : nat) (pol : P) (w : world) : world :=
  let c := onGuard (fun _ => g) (w_conn w) in
  mkWorld (w_cm w) (w_prog w) (w_life w) (w_broken w) c (w_reply w) (w_srv w) (w_pend w) tick pol (w_asked w ++ [x])
    (w_ran w) (w_due w) (w_count w).

Definition handle (e : env) (w : world) (args : list string) : action :=
  match cm_principal (w_cm w) with
  | None => preAuth e (w_cm w) (co_at (w_conn w)) args
  | Some p => command e p (w_cm w) (co_at (w_conn w)) args
  end.

(** The reply a proxy-made answer adds. *)
Definition dueOf (o : op) : list string := match o with Answer b => [b] | _ => [] end.

(** Redis took [args] of operation [o]. *)
Definition delivered (o : op) (r : R) (ran : list (list string)) (b : string) (w : world) : world :=
  let tag := if opGated o then Some (pred (length (w_asked w))) else None in
  let s := slotOf o in
  set_srv r
  (set_pend (w_pend w ++ [mkPend tag ran b])
  (set_ran (w_ran w ++ match ran with [] => [] | _ => [mkRun tag (srv_db (w_srv w)) ran] end)
  (set_due (w_due w ++ if s_drop s then [] else [clientView s b]) w))).

Definition isAwait (o : op) : bool := match o with AwaitSelect _ => true | _ => false end.

Inductive cstep (w : world) : world -> Prop :=
  | c_run e args cm a ops : w_life w = Serving -> w_prog w = [] -> e_id e = id -> allowed args ->
      handle e w args = Run cm a ops -> cstep w (start (cm, a, ops) w)
  | c_ask e args p u k d g tick pol : w_life w = Serving -> w_prog w = [] -> e_id e = id -> allowed args ->
      handle e w args = AskPolicy p u k ->
      decideUnit perm clock checkReplacements auditStart e (length (w_asked w)) p u (m_guard (co_mem (w_conn w))) (w_tick w) (w_pol w) =
        Some (d, g, tick, pol) ->
      cstep w (start (k d) (decidedAs (mkAsk e p u d) g tick pol w))
  | c_auth e args user pass k r : w_life w = Serving -> w_prog w = [] -> e_id e = id -> allowed args ->
      handle e w args = AskAuth user pass k -> cstep w (start (k r) w)
  | c_op o ops revoked wr c : w_life w = Serving -> w_prog w = o :: ops -> isAwait o = false -> (w_broken w = true -> wr = false) ->
      runOp l id revoked wr o (w_conn w) = (c, Went None) ->
      cstep w (set_conn c (set_prog ops (set_due (w_due w ++ dueOf o) w)))
  | c_send o ops revoked wr c args r ran b : w_life w = Serving -> w_prog w = o :: ops -> (w_broken w = true -> wr = false) ->
      runOp l id revoked wr o (w_conn w) = (c, Went (Some args)) -> srv_call (w_srv w) args r ran b ->
      cstep w (delivered o r ran b (set_conn c (set_prog ops (set_due (w_due w ++ dueOf o) w))))
  | c_unsent o ops revoked wr c : w_life w = Serving -> w_prog w = o :: ops ->
      runOp l id revoked wr o (w_conn w) = (c, Unsent) ->
      cstep w (set_conn c (set_prog ops (set_due (w_due w ++ dueOf o) (set_broken true w))))
  | c_stop o ops revoked wr c : w_life w = Serving -> w_prog w = o :: ops -> (w_broken w = true -> wr = false) ->
      runOp l id revoked wr o (w_conn w) = (c, Stop) ->
      cstep w (set_conn c (set_prog [] (set_life Ended (set_broken true w))))
  | c_skip o ops revoked wr c : w_life w = Serving -> w_prog w = o :: ops -> (w_broken w = true -> wr = false) ->
      runOp l id revoked wr o (w_conn w) = (c, Skip) ->
      cstep w (set_conn c (set_prog [] (set_broken true w)))
  | c_await n ops v : w_life w = Serving -> w_prog w = AwaitSelect n :: ops -> co_got (w_conn w) = Some v ->
      cstep w (set_prog ops (set_conn (setGot None (w_conn w))
        (set_cm (if Ascii.eqb (VType v) "+" then setDB n (w_cm w) else w_cm w) w)))
  | c_end : w_life w = Serving -> (w_prog w = [] \/ exists n ops, w_prog w = AwaitSelect n :: ops) ->
      cstep w (set_prog [] (set_life Ended w))
  | c_frame x pend c : w_life w <> Retired -> w_reply w = RIdle -> w_pend w = x :: pend ->
      frame l id (pe_reply x) (w_conn w) = (Ok "", c) ->
      cstep w (set_reply RDrain (set_pend pend (set_conn c w)))
  | c_frameErr x pend e c : w_life w <> Retired -> w_reply w = RIdle -> w_pend w = x :: pend ->
      frame l id (pe_reply x) (w_conn w) = (Err e, c) ->
      cstep w (set_reply RDead (set_pend pend (set_conn c w)))
  | c_synth c : w_life w <> Retired -> w_reply w = RDrain -> writeSynth l (w_conn w) = Some c -> cstep w (set_conn c w)
  | c_drained : w_life w <> Retired -> w_reply w = RDrain -> writeSynth l (w_conn w) = None -> cstep w (set_reply RIdle w)
  | c_retire : w_life w = Ended -> cstep w (set_conn (retire id (w_conn w)) (set_reply RDead (set_pend [] (set_life Retired w))))
  | c_redis r : srv_multi r = srv_multi (w_srv w) -> srv_db r = srv_db (w_srv w) -> cstep w (set_srv r w)
  | c_others g tick pol : cstep w (mkWorld (w_cm w) (w_prog w) (w_life w) (w_broken w) (onGuard (fun _ => g) (w_conn w)) (w_reply w)
      (w_srv w) (w_pend w) tick pol (w_asked w) (w_ran w) (w_due w) (w_count w)).

(** A connection just accepted. *)
Definition accepted (g : Guard S T) (inodes : list sliceRange) (tick : nat) (pol : P) (r : R) : world :=
  mkWorld (mkCmdState None false false 0 None [] false) [] Serving false
    (mkConn (mkRQ [] 0 false 0 false) ∅ (mkAtoms 0 None) None false [] (mkMem g inodes [])) RIdle r [] tick pol [] [] [] 0.
End world.
Arguments world : clear implicits.
