(* ===== verification/ConnFacts.v ===== *)
(** * What a connection lets through

    Invariants of [cstep]: Redis's MULTI state is the one the proxy keeps, and
    what Redis runs has been decided. *)

From S2P Require Import Prelude GoLib Resp Classify ClassifyFacts Policy Stores Guard GuardScope GuardCheck GuardFrames GuardFacts Decide Accounting Conn ConnDecide ConnWorld.

(** ** Names *)
Lemma Classify_name args info : Classify args = Some info -> Name info = ToUpper (default "" (head args)).
Proof.
  destruct args as [|a0 r]; cbn [Classify head default]; [by intros [= <-]|].
  destruct (HasPrefix (ToUpper a0) "JM."); [by intros [= <-]|].
  destruct (classifySub _ _); [by intros [= <-]|]. destruct (assoc _ _) as [[cl ks]|]; [|by intros [= <-]].
  destruct (decide (cl = ClassScript)); [|by intros [= <-]].
  destruct (classifyScript _ _) as [[[[cl' keys] raw] sc]|]; [|done]. by intros [= <-].
Qed.

Fixpoint ascii_only (s : string) : bool := match s with "" => true | String c s' => (bval c <? 128) && ascii_only s' end.
Lemma ToUpper_ascii s : ascii_only s = true -> ToUpper s = map_bytes up_ascii s.
Proof.
  induction s as [|c s IH]; [done|]. intros [Hc Hs]%andb_prop. to_prop. destruct s as [|d s]; [done|].
  change (ToUpper (String c (String d s))) with
    (if (bval c =? 0xC4) && (bval d =? 0xB1) then String "I" (ToUpper s)
     else if (bval c =? 0xC5) && (bval d =? 0xBF) then String "S" (ToUpper s) else String (up_ascii c) (ToUpper (String d s))).
  rewrite (proj2 (Z.eqb_neq (bval c) 0xC4)), (proj2 (Z.eqb_neq (bval c) 0xC5)) by lia. cbn [andb]. by rewrite IH.
Qed.
Lemma up_ascii_small c : bval (up_ascii c) < 128 -> bval c < 128.
Proof. unfold up_ascii. destruct (is_lower c) eqn:E; [|done]. unfold is_lower in E. to_prop. lia. Qed.
Lemma map_up_ascii s : ascii_only (map_bytes up_ascii s) = true -> ascii_only s = true.
Proof.
  induction s as [|c s IH]; [done|]. cbn [map_bytes ascii_only]. intros [H1 H2]%andb_prop. to_prop.
  apply andb_true_intro. split; [apply Z.ltb_lt; by apply up_ascii_small|auto].
Qed.

(** Redis's name of a command is the proxy's, where it is plain ASCII. *)
Lemma redisName_Name args info n : Classify args = Some info -> ascii_only n = true -> redisName args = n -> Name info = n.
Proof.
  intros Hc Ha Hn. rewrite (Classify_name _ _ Hc). unfold redisName in Hn. subst n. apply ToUpper_ascii. by apply map_up_ascii.
Qed.
Lemma redisName_not args info ns : Classify args = Some info -> forallb ascii_only ns = true -> Name info ∉ ns -> redisName args ∉ ns.
Proof.
  intros Hc Ha Hn Hin. apply Hn. rewrite forallb_forall in Ha. rewrite (redisName_Name _ _ _ Hc (Ha _ (proj1 (list_elem_of_In _ _) Hin)) eq_refl). done.
Qed.
Lemma redisName_ne args info n : Classify args = Some info -> ascii_only n = true -> Name info <> n -> redisName args <> n.
Proof. intros Hc Ha Hn He. by apply Hn, (redisName_Name _ _ _ Hc Ha). Qed.

(** ** Steps of Redis's MULTI state *)
Lemma txn_out a x ran : txn_step None a x ran -> redisName a <> "MULTI" -> x = None /\ (ran = [] \/ ran = [a]).
Proof. intros Hs Hn. by inversion Hs; subst. Qed.
Lemma txn_multi a x ran : txn_step None a x ran -> redisName a = "MULTI" -> x = Some (Some []) /\ ran = [].
Proof. intros Hs Hn. by inversion Hs; subst. Qed.
Lemma txn_in m a x ran : txn_step (Some m) a x ran -> redisName a ∉ ["EXEC"; "DISCARD"] ->
  ran = [] /\ exists m', x = Some m' /\
    (m' = None \/ (redisName a ∈ ["MULTI"; "WATCH"] /\ m' = m) \/ ((redisName a ∉ inMultiNames) /\ exists body, m = Some body /\ m' = Some (body ++ [a]))).
Proof.
  intros Hs Hn. inversion Hs; subst; try (split; [done|]; by eauto 8);
    (destruct Hn; match goal with H : redisName a = _ |- _ => rewrite H end; set_solver).
Qed.
Lemma txn_discard m a x ran : txn_step (Some m) a x ran -> redisName a = "DISCARD" -> x = None /\ ran = [].
Proof. intros Hs Hn. inversion Hs; subst; try done; rewrite Hn in *; try (unfold inMultiNames in *; set_solver). Qed.
Lemma txn_exec m a x ran : txn_step (Some m) a x ran -> redisName a = "EXEC" -> x = None /\ (ran = [] \/ m = Some ran).
Proof. intros Hs Hn. inversion Hs; subst; try (by auto); rewrite Hn in *; try (unfold inMultiNames in *; set_solver). Qed.

(** ** Where the operations of a handler lead

    [leads K m ops Q]: done in order from MULTI state [m], the operations [ops]
    make Redis run nothing but single commands that need no decision and,
    once, the body [K]; they end in a state with [Q]. *)
Definition spend (K : option (list (list string))) (o : op) : option (list (list string)) := if opGated o then None else K.
Definition permits (K : option (list (list string))) (o : op) (ran : list (list string)) : Prop :=
  ran = [] \/ (opGated o = false /\ exists a, ran = [a] /\ gated a = false) \/ (opGated o = true /\ K = Some ran).

(** What an operation may write upstream, and whether it may write nothing. *)
Definition upArgs (o : op) : option (list string) :=
  match o with Forward args _ _ | WriteNoSlot args => Some args | Answer _ => Some ["PING"] | _ => None end.
Definition silent (o : op) : bool :=
  match o with StartUpstream | Answer _ | AwaitSelect _ | Report _ _ => true | _ => false end.

(** EXEC is sent in a transaction with the body queued; the command of a bare
    unit outside one; Done of a refused unit only where none is admitted. *)
Definition okSend (K : option (list (list string))) (m : txnView) (o : op) : Prop :=
  match o with
  | Forward a s _ =>
      (s_exec s = true -> a = ["EXEC"] /\ is_Some m /\ forall b, m = Some (Some b) -> K = Some b) /\
      (s_exec s = false -> is_Some (s_done s) -> m = None /\ gated a = true /\ s_drop s = false)
  | Report _ _ => K = None
  | _ => True
  end.

Fixpoint leads (K : option (list (list string))) (m : txnView) (ops : list op) (Q : txnView -> Prop) : Prop :=
  match ops with
  | [] => Q m
  | o :: ops =>
      okSend K m o /\
      (forall a, upArgs o = Some a -> plainTxn m a /\
        forall m' ran, txn_step m a m' ran -> permits K o ran /\ leads (spend K o) m' ops Q) /\
      (silent o = true -> leads K m ops Q)
  end.

Lemma leads_quiet K m o ops Q : upArgs o = None -> okSend K m o -> leads K m ops Q -> leads K m (o :: ops) Q.
Proof. intros Hu Hk Hl. split; [done|]. split; [|done]. intros a Ha. congruence. Qed.

(** A command outside MULTI. *)
Lemma leads_out K a s f ops Q : redisName a <> "MULTI" -> s_exec s = false -> s_done s = None -> gated a = false -> leads K None ops Q ->
  leads K None (Forward a s f :: ops) Q.
Proof.
  intros Hn He Hd Hg Hl. split; [split; [by rewrite He|rewrite Hd; by intros _ [? ?]]|]. split; [|done].
  intros a' [= <-]. split; [by intros ?|]. intros m' ran Hs.
  assert (opGated (Forward a s f) = false) as Ho by (cbn; by rewrite He, Hg).
  destruct (txn_out _ _ _ Hs Hn) as [-> Hr]. unfold permits, spend. rewrite Ho. destruct Hr as [->| ->]; split; eauto 8.
Qed.
Lemma leads_answer_out K b ops Q : leads K None ops Q -> leads K None (Answer b :: ops) Q.
Proof.
  intros Hl. split; [done|]. split; [|done]. intros a [= <-]. split; [by intros ?|]. intros m' ran Hs.
  destruct (txn_out _ _ _ Hs) as [-> Hr]; [by vm_compute|]. unfold permits, spend. destruct Hr as [->| ->]; split; eauto 6.
Qed.
Lemma leads_answer_in K m b (Q : txnView -> Prop) : (forall m', Q (Some m')) -> leads K (Some m) [Answer b] Q.
Proof.
  intros HQ. split; [done|]. split; [|intros _; apply HQ]. intros a [= <-]. split; [repeat split; by vm_compute|]. intros m' ran Hs.
  destruct (txn_in _ _ _ _ Hs) as (-> & x & -> & _); [vm_compute; set_solver|]. split; [by left|apply HQ].
Qed.

(** ** What is forwarded for a command *)
Definition sentArgs (args : list string) (info : Command) : list string := if Script info =s "" then args else roArgs args.

Lemma classifyScript_read name args cl keys raw sc : classifyScript name args = Some (cl, keys, raw, sc) -> sc <> "" -> cl = ClassRead.
Proof.
  unfold classifyScript. destruct args as [|a0 [|a1 [|a2 rest]]]; try (by intros [= <- <- <- <-]).
  destruct (negb (script_allowed _)); [by intros [= <- <- <- <-]|]. destruct (ParseInt a2) as [nk ok].
  destruct (_ || _); [by intros [= <- <- <- <-]|]. destruct (slice3 _ _); [|done]. by intros [= <- <- <- <-].
Qed.

Lemma roArgs_classify args info : Classify args = Some info -> Script info <> "" ->
  CClass info = ClassRead /\ Name info ∈ evalNames /\
  exists info', Classify (roArgs args) = Some info' /\ CClass info' = ClassRead /\ Name info' ∈ evalNames.
Proof.
  intros Hc Hs. destruct args as [|a0 r]; [by injection Hc as <-|].
  destruct (decide (ToUpper a0 ∈ evalNames)) as [Hn|Hn].
  2:{ exfalso. apply Hs. revert Hc. unfold Classify. destruct (HasPrefix _ _); [by intros [= <-]|].
      destruct (classifySub _ _); [by intros [= <-]|]. destruct (assoc (ToUpper a0) commands) as [[cl ks]|] eqn:E; [|by intros [= <-]].
      destruct (decide (cl = ClassScript)) as [->|]; [|by intros [= <-]]. by apply commands_script in E as [? _]. }
  rewrite (classify_script _ _ Hn) in Hc. destruct (classifyScript (ToUpper a0) (a0 :: r)) as [[[[cl keys] raw] sc]|] eqn:E; [|done].
  injection Hc as <-. cbn [Script CClass Name] in *. pose proof (classifyScript_read _ _ _ _ _ _ E Hs) as ->. split_and!; [done..|].
  set (a0' := if ToUpper a0 =s "EVAL" then "EVAL_RO" else if ToUpper a0 =s "EVALSHA" then "EVALSHA_RO" else a0).
  assert (ToUpper a0' ∈ evalNames /\ HasPrefix (ToUpper a0') "EVALSHA" = HasPrefix (ToUpper a0) "EVALSHA") as [Hn' Hp].
  { unfold a0'. destruct (ToUpper a0 =s "EVAL") eqn:E1; [apply eqs_true in E1 as ->; split; [in_list|done]|].
    destruct (ToUpper a0 =s "EVALSHA") eqn:E2; [apply eqs_true in E2 as ->; split; [in_list|done]|done]. }
  change (roArgs (a0 :: r)) with (a0' :: r). rewrite (classify_script _ _ Hn').
  assert (classifyScript (ToUpper a0') (a0' :: r) = classifyScript (ToUpper a0) (a0 :: r)) as ->.
  { unfold classifyScript. by rewrite Hp. }
  rewrite E. eexists. split; [reflexivity|]. done.
Qed.

(** The command sent is classified as the one received, but for its name. *)
Lemma sentArgs_classify args info : Classify args = Some info -> exists info', Classify (sentArgs args info) = Some info' /\
  needsGate info' = needsGate info /\ (Name info' = Name info \/ (Name info ∈ evalNames /\ Name info' ∈ evalNames)).
Proof.
  intros Hc. unfold sentArgs. destruct (Script info =s "") eqn:E; [by eauto|]. apply eqs_false in E.
  destruct (roArgs_classify _ _ Hc E) as (H1 & H2 & info' & H3 & H4 & H5). exists info'. split; [done|]. split; [|by right].
  unfold needsGate. by rewrite H1, H4.
Qed.
Lemma sentArgs_gated args info : Classify args = Some info -> gated (sentArgs args info) = needsGate info.
Proof. intros Hc. destruct (sentArgs_classify _ _ Hc) as (info' & H1 & H2 & _). unfold gated. by rewrite H1. Qed.
Lemma sentArgs_not args info ns : Classify args = Some info -> forallb ascii_only ns = true ->
  forallb (fun n => negb (bool_decide (n ∈ evalNames))) ns = true -> Name info ∉ ns -> redisName (sentArgs args info) ∉ ns.
Proof.
  intros Hc Ha He Hn. destruct (sentArgs_classify _ _ Hc) as (info' & H1 & _ & H3). eapply redisName_not; [exact H1|done|].
  destruct H3 as [->|[_ H3]]; [done|]. intros Hin. rewrite forallb_forall in He. specialize (He _ (proj1 (list_elem_of_In _ _) Hin)).
  by rewrite bool_decide_true in He.
Qed.
Lemma sentArgs_plain args info : Classify args = Some info -> Name info ∉ evalNames -> sentArgs args info = args.
Proof.
  intros Hc Hn. unfold sentArgs. destruct (Script info =s "") eqn:E; [done|]. apply eqs_false in E.
  destruct (roArgs_classify _ _ Hc E) as (_ & H & _). done.
Qed.

(** Names whose commands need no decision. *)
Definition freeNames : list string := ["QUIT"; "SELECT"; "MULTI"; "EXEC"; "DISCARD"; "UNWATCH"; "WATCH"; "HELLO"; "PING"; "AUTH"].
Lemma free_name args info : Classify args = Some info -> Name info ∈ freeNames -> needsGate info = false.
Proof.
  intros Hc Hn. pose proof (Classify_name _ _ Hc) as E. destruct args as [|a0 r].
  { cbn in E. rewrite E in Hn. revert Hn. unfold freeNames. vm_compute. set_solver. }
  change (Name info = ToUpper a0) in E. rewrite E in Hn. unfold Classify in Hc. unfold needsGate.
  clear E. set (n := ToUpper a0) in *. clearbody n. unfold freeNames in Hn. revert Hc.
  elem_inv Hn; cbn -[keyArgs]; by intros [= <-].
Qed.
Lemma control_ungated a : redisName a ∈ ["MULTI"; "EXEC"; "DISCARD"; "WATCH"; "UNWATCH"] -> gated a = false.
Proof.
  intros Hn. destruct a as [|a0 r]; [by elem_inv Hn|]. assert (ToUpper a0 = redisName (a0 :: r)) as E.
  { apply ToUpper_ascii, map_up_ascii. change (map_bytes up_ascii a0) with (redisName (a0 :: r)). by elem_inv Hn; rewrite Hn. }
  unfold gated, Classify, needsGate. rewrite E. set (n := redisName _) in *. clearbody n. clear E. by elem_inv Hn; subst.
Qed.
Lemma reset_forbidden args info : Classify args = Some info -> Name info = "RESET" -> CClass info = ClassForbidden.
Proof.
  intros Hc Hn. pose proof (Classify_name _ _ Hc) as E. destruct args as [|a0 r]; [injection Hc as <-; discriminate|].
  change (Name info = ToUpper a0) in E. rewrite Hn in E. unfold Classify in Hc. rewrite <- E in Hc. cbn -[keyArgs] in Hc. by injection Hc as <-.
Qed.

Fixpoint has_IS (s : string) : bool :=
  match s with "" => false | String c s' => Ascii.eqb c "I" || Ascii.eqb c "S" || has_IS s' end.
Lemma ToUpper_plain : forall s, has_IS (ToUpper s) = false -> ToUpper s = map_bytes up_ascii s.
Proof.
  enough (H : forall n s, (String.length s <= n)%nat -> has_IS (ToUpper s) = false -> ToUpper s = map_bytes up_ascii s) by eauto.
  induction n as [|n IH]; intros [|c s] Hl; cbn [String.length] in Hl; try (by intros; lia || done).
  destruct s as [|d s]; [done|].
  change (ToUpper (String c (String d s))) with
    (if (bval c =? 0xC4) && (bval d =? 0xB1) then String "I" (ToUpper s)
     else if (bval c =? 0xC5) && (bval d =? 0xBF) then String "S" (ToUpper s) else String (up_ascii c) (ToUpper (String d s))).
  destruct ((bval c =? 0xC4) && (bval d =? 0xB1)); [done|]. destruct ((bval c =? 0xC5) && (bval d =? 0xBF)); [done|].
  cbn [has_IS]. intros [_ H]%orb_false_elim. change (map_bytes up_ascii (String c (String d s))) with (String (up_ascii c) (map_bytes up_ascii (String d s))).
  f_equal. apply IH; [cbn [String.length] in *; lia|done].
Qed.
Lemma redisName_of_Name args info : Classify args = Some info -> has_IS (Name info) = false -> redisName args = Name info.
Proof. intros Hc Hn. rewrite (Classify_name _ _ Hc) in *. unfold redisName. symmetry. by apply ToUpper_plain. Qed.

(** ** The handlers keep the MULTI state *)

(** The commands the theorems are about: MULTI and DISCARD as Redis spells
    them and without arguments, SELECT as Redis spells it, and no pub/sub. *)
Definition clientOK (args : list string) : Prop :=
  forall info, Classify args = Some info -> CClass info <> ClassPubSub /\
    (Name info ∈ ["MULTI"; "DISCARD"] -> redisName args = Name info /\ length args = 1%nat) /\
    (Name info = "SELECT" -> redisName args = "SELECT").

Definition synced (c : cmdState) (m : txnView) : Prop :=
  match cm_txn c with
  | None => m = None
  | Some t => exists x, m = Some x /\ (tx_poison t = false -> x = None \/ x = Some (Args <$> tx_cmds t))
  end.

(** What the handlers rely on in an admission of [u]. *)
Definition decidedFine (u : Unit) (d : decision) : Prop :=
  dc_deny d = None -> core (dc_unit d) = core u /\
  rewrittenOK (rewrite_ (dc_unit d)) /\
  (forall r, dc_receipt d = Some r -> redisName r = "EVAL").
Definition bodyOf (p : Principal) (d : decision) : option (list (list string)) :=
  match dc_deny d with Some _ => None | None => Some (unitBody p d) end.

Definition fine (K : option (list (list string))) (m : txnView) (x : cmdState * atoms * list op) : Prop :=
  leads K m (snd x) (synced (fst (fst x))) /\ cm_subscribed (fst (fst x)) = false.
Definition fineAction (m : txnView) (x : action) : Prop :=
  match x with
  | Run c a ops => fine None m (c, a, ops)
  | AskPolicy p u k => forall d, decidedFine u d -> fine (bodyOf p d) m (k d)
  | AskAuth _ _ k => forall r, fine None m (k r)
  | GoPanic => True
  end.

Lemma leads_unit K a s f Q : redisName a <> "MULTI" -> s_exec s = false -> s_drop s = false -> gated a = true -> K = Some [a] -> Q None -> leads K None [Forward a s f] Q.
Proof.
  intros Hn He Hd Hg -> HQ. split; [split; [by rewrite He|done]|]. split; [|done]. intros a' [= <-]. split; [by intros ?|]. intros m' ran Hs.
  destruct (txn_out _ _ _ Hs Hn) as [-> [->| ->]]; (split; [|done]); [by left|right; right]. split; [cbn; by rewrite He, Hd, Hg|done].
Qed.

(** Appended commands are queued, and EXEC runs the queue. *)
Lemma leads_exec b : forall xs K x es (Q : txnView -> Prop), Q None -> s_exec es = true ->
  Forall (fun o => exists a f, o = Forward a dropSlot f /\ (redisName a ∉ inMultiNames)) xs ->
  (x = None \/ exists q, x = Some q /\ K = Some (q ++ (omap (M := list) upArgs xs))) ->
  leads K (Some x) (xs ++ [Forward ["EXEC"] es b]) Q.
Proof.
  induction xs as [|o xs IH]; intros K x es Q HQ He Hx HK; cbn [app].
  - split.
    { split; [|by rewrite He]. intros _. split_and!; [done..|]. intros b0 [= ->]. destruct HK as [?|(q & [= <-] & ->)]; [done|]. by rewrite app_nil_r. }
    split; [|done]. intros a [= <-]. split; [repeat split; by vm_compute|]. intros m' ran Hs.
    destruct (txn_exec _ _ _ _ Hs eq_refl) as [-> Hr]. split; [|done]. destruct Hr as [->|Hr]; [by left|]. right; right.
    split; [cbn; by rewrite He|]. destruct HK as [->|(q & -> & ->)]; [done|]. injection Hr as ->. cbn. by rewrite app_nil_r.
  - apply Forall_cons in Hx as [(a & f & -> & Hn) Hx]. split; [split; [done|by intros _ [? ?]]|]. split; [|done]. intros a' [= <-].
    assert (forall n, n ∈ inMultiNames -> redisName a <> n) as Hne by (intros n Hi <-; done). unfold inMultiNames in Hne. split.
    { repeat split; [apply Hne; in_list..|]. intros Hi. exfalso. elem_inv Hi; revert Hi; apply Hne; in_list. }
    intros m' ran Hs. destruct (txn_in _ _ _ _ Hs) as (-> & y & -> & Hy).
    { intros Hi. elem_inv Hi; revert Hi; apply Hne; in_list. }
    split; [by left|]. assert (spend K (Forward a dropSlot f) = K) as -> by (unfold spend; cbn; by rewrite andb_false_r).
    apply IH; [done..|]. destruct Hy as [->|[[Hi _]|(_ & q & -> & ->)]]; [by left|elem_inv Hi; exfalso; revert Hi; apply Hne; in_list|].
    right. destruct HK as [?|(q' & [= <-] & ->)]; [done|]. exists (q ++ [a]). split; [done|]. cbn. by rewrite <- app_assoc.
Qed.

Lemma fine_refuseTxn e d r x c a : cm_txn c = None -> cm_subscribed c = false ->
  fine None (Some x) (c, a, reportRefused e d ++ refuseTxn r) /\ fine None (Some x) (c, a, refuseTxn r).
Proof.
  intros Ht Hs.
  assert (leads None (Some x) (refuseTxn r) (synced c)) as Hl.
  { split; [split; [done|by intros _ [? ?]]|]. split; [|done]. intros a' [= <-]. split; [repeat split; by vm_compute|]. intros m' ran Hx.
    destruct (txn_discard _ _ _ _ Hx eq_refl) as [-> ->]. split; [by left|]. apply leads_answer_out. cbn. unfold synced. by rewrite Ht. }
  split; (split; [|done]); [|done]. unfold reportRefused. destruct (dc_verdictDone d); [|done]. by apply leads_quiet.
Qed.

Lemma synced_out c m : synced c m -> cm_txn c = None -> m = None.
Proof. unfold synced. intros H E. by rewrite E in H. Qed.
Lemma synced_none c : cm_txn c = None -> synced c None.
Proof. unfold synced. by intros ->. Qed.

(** Gated arguments stay gated. *)
Lemma bareArgs_gated p args info d : Classify args = Some info -> needsGate info = true -> sentArgs args info = args ->
  rewrittenOK (rewrite_ (dc_unit d)) -> gated (bareArgs p args d) = true.
Proof.
  intros Hc Hg Hs Hr. unfold bareArgs. destruct (rewrite_ (dc_unit d)) as [r|]; [destruct Hr as [[x ->]|[x ->]]; [done|]|].
  { unfold gated. rewrite classify_script by in_list. by destruct x. }
  destruct (Allocation (dc_unit d)) as [counter n].
  destruct (counter =s "nextinode"); [|unfold gated; by rewrite Hc].
  unfold gated. rewrite classify_script by in_list. cbn [mbind option_bind]. unfold classifyScript.
  assert (script_allowed (if HasPrefix (ToUpper "EVAL") "EVALSHA" then ToLower inodeAllocLua else ScriptSHA inodeAllocLua) = false) as ->
    by (vm_compute; reflexivity). done.
Qed.
Lemma bareArgs_name p args info d : Classify args = Some info -> Name info <> "MULTI" ->
  rewrittenOK (rewrite_ (dc_unit d)) -> redisName (bareArgs p args d) <> "MULTI".
Proof.
  intros Hc Hn Hr. unfold bareArgs. destruct (rewrite_ (dc_unit d)) as [r|]; [by destruct Hr as [[x ->]|[x ->]]|]. destruct (Allocation (dc_unit d)) as [counter n].
  destruct (counter =s "nextinode"); [done|]. by eapply redisName_ne.
Qed.

Lemma script_free args info : Classify args = Some info -> needsGate info = true -> sentArgs args info = args.
Proof.
  intros Hc Hg. unfold sentArgs. destruct (Script info =s "") eqn:E; [done|]. apply eqs_false in E.
  destruct (roArgs_classify _ _ Hc E) as (H & _). unfold needsGate in Hg. by rewrite H in Hg.
Qed.

Lemma fine_gateBare e p c a args info : Classify args = Some info -> needsGate info = true -> Name info <> "MULTI" -> cm_txn c = None ->
  cm_subscribed c = false -> fineAction None (gateBare e p c a args info).
Proof.
  intros Hc Hg Hn Ht Hs d Hd. unfold bodyOf. destruct (dc_deny d) as [r|] eqn:Ed; (split; [|by destruct (dc_deny d)]); cbn [fst snd].
  - unfold reportRefused. destruct (dc_verdictDone d); cbn [app].
    + apply leads_quiet; [done..|]. apply leads_answer_out. by apply synced_none.
    + apply leads_answer_out. by apply synced_none.
  - destruct (Hd Ed) as (Hco & Hr & _). pose proof (script_free _ _ Hc Hg) as Hsa.
    apply leads_unit; [by eapply bareArgs_name|done|done|by eapply bareArgs_gated| |by apply synced_none].
    unfold unitBody. rewrite (core_UKind _ _ Hco), (core_Cmds _ _ Hco). done.
Qed.

Lemma usedIDs_plain d : Forall (fun o => exists a f, o = Forward a dropSlot f /\ (redisName a ∉ inMultiNames))
  ((fun id => Forward (SetBitArgs id) dropSlot CloseOnErr) <$> usedIDs d).
Proof. apply Forall_fmap, Forall_true. intros id. cbn. eexists _, _. split; [done|]. vm_compute. set_solver. Qed.

Lemma omap_setbits ids : omap (M := list) upArgs ((fun id => Forward (SetBitArgs id) dropSlot CloseOnErr) <$> ids) = SetBitArgs <$> ids.
Proof. induction ids as [|i ids IH]; [done|]. cbn. f_equal. exact IH. Qed.

Lemma fine_exec e p c a t x : (tx_poison t = false -> x = None \/ x = Some (Args <$> tx_cmds t)) -> cm_subscribed c = false ->
  fineAction (Some x) (exec e p c a t).
Proof.
  intros Hx Hs. unfold exec. destruct (tx_poison t) eqn:Ep.
  { by apply (fine_refuseTxn e (mkDecision 0 None (newUnit e p c a UnitTxn [] [] 0) [] false false None)). }
  intros d Hd. unfold bodyOf. destruct (dc_deny d) as [r|] eqn:Ed; [by apply fine_refuseTxn|].
  destruct (Hd Ed) as (Hco & _ & Hrc). split; [|done]. cbn [fst snd]. unfold admitTxn.
  rewrite app_assoc. apply leads_exec; [by apply synced_none|done| |].
  - apply Forall_app. split; [apply usedIDs_plain|]. destruct (dc_receipt d) as [rc|] eqn:Er; [|done].
    apply Forall_singleton. eexists _, _. split; [done|]. rewrite (Hrc _ eq_refl). vm_compute. set_solver.
  - destruct (Hx eq_refl) as [->| ->]; [by left|]. right. eexists. split; [done|]. unfold unitBody.
    rewrite (core_UKind _ _ Hco), (core_Cmds _ _ Hco). cbn. unfold extraCmds. do 2 f_equal.
    rewrite omap_app, omap_setbits. f_equal. by destruct (dc_receipt d).
Qed.

Lemma fine_inTxn e p c a t args info m : Classify args = Some info -> clientOK args -> cm_txn c = Some t -> synced c m -> cm_subscribed c = false ->
  fineAction m (inTxn e p c a t (sentArgs args info) info).
Proof.
  intros Hc Hok Ht Hsy Hs. unfold synced in Hsy. rewrite Ht in Hsy. destruct Hsy as (x & -> & Hx). unfold inTxn.
  destruct (Name info =s "EXEC") eqn:E1; [by apply fine_exec|]. apply eqs_false in E1.
  destruct (Hok _ Hc) as (_ & Hpl & _).
  destruct (Name info =s "DISCARD") eqn:E2.
  { apply eqs_true in E2. destruct Hpl as [Hr Hlen]; [rewrite E2; in_list|]. rewrite sentArgs_plain by (rewrite ?E2; try done; unfold evalNames; set_solver).
    split; [|done]. split; [split; [done|by intros _ [? ?]]|]. split; [|done]. intros a' [= <-]. rewrite E2 in Hr. split; [repeat split; by rewrite ?Hr|].
    intros m' ran Hst. destruct (txn_discard _ _ _ _ Hst Hr) as [-> ->]. split; [by left|]. by apply synced_none. }
  apply eqs_false in E2. case_bool_decide as E3.
  { assert (redisName (sentArgs args info) ∈ ["MULTI"; "WATCH"]) as Hr.
    { rewrite sentArgs_plain by (try done; unfold evalNames; elem_inv E3; rewrite E3; set_solver).
      elem_inv E3; [destruct Hpl as [-> _]; rewrite E3; in_list|]. rewrite (redisName_of_Name _ _ Hc); rewrite E3; [in_list|done]. }
    split; [|done]. split; [split; [done|by intros _ [? ?]]|]. split; [|done]. intros a' [= <-]. split; [elem_inv Hr; repeat split; rewrite Hr; try done; set_solver|].
    intros m' ran Hst. destruct (txn_in _ _ _ _ Hst) as (-> & y & -> & Hy); [elem_inv Hr; rewrite Hr; set_solver|].
    split; [by left|]. change (synced c (Some y)). unfold synced. rewrite Ht. exists y. split; [done|]. intros Hp.
    destruct Hy as [->|[[_ ->]|(Hn & _)]]; [by left|by apply Hx|]. exfalso. apply Hn. unfold inMultiNames. elem_inv Hr; rewrite Hr; in_list. }
  destruct (stateful (Name info) (CClass info)) eqn:E4.
  { split; [|done]. apply leads_answer_in. intros y. exists y. by split. }
  unfold stateful in E4. apply orb_false_elim in E4 as [E4 E5]. apply bool_decide_eq_false in E4, E5.
  assert (redisName (sentArgs args info) ∉ inMultiNames) as Hn.
  { apply sentArgs_not; [done..|]. unfold inMultiNames. intros Hi. elem_inv Hi; try done; try (apply E4; rewrite Hi; in_list); try (apply E3; rewrite Hi; in_list).
    apply E5. rewrite (reset_forbidden _ _ Hc Hi). in_list. }
  split; [|done]. split; [split; [done|by intros _ [? ?]]|]. split; [|done]. intros a' [= <-]. split.
  { repeat split; [intros He; apply Hn; rewrite He; unfold inMultiNames; in_list..|]. intros Hi. exfalso. apply Hn. unfold inMultiNames. elem_inv Hi; rewrite Hi; in_list. }
  intros m' ran Hst. destruct (txn_in _ _ _ _ Hst) as (-> & y & -> & Hy); [intros Hi; apply Hn; unfold inMultiNames; elem_inv Hi; rewrite Hi; in_list|].
  split; [by left|]. exists y. split; [done|]. cbn. intros Hp. rewrite fmap_app.
  destruct Hy as [->|[[Hi _]|(_ & q & -> & ->)]]; [by left|exfalso; apply Hn; unfold inMultiNames; elem_inv Hi; rewrite Hi; in_list|].
  destruct (Hx Hp) as [?|[= ->]]; [done|]. by right.
Qed.

(** Outside MULTI: forwards of free commands and answers. *)
Definition outOp (o : op) : Prop :=
  match o with
  | Forward a s _ => redisName a <> "MULTI" /\ s_exec s = false /\ s_done s = None /\ gated a = false
  | WriteNoSlot _ => False
  | _ => True
  end.
Lemma leads_outs ops (Q : txnView -> Prop) : Q None -> Forall outOp ops -> leads None None ops Q.
Proof.
  intros HQ. induction 1 as [|o ops Ho Hops IH]; [done|]. destruct o; try (by apply leads_quiet); try done.
  - destruct Ho as (? & ? & ? & ?). by apply leads_out.
  - by apply leads_answer_out.
Qed.
Lemma fine_outs c a ops : cm_txn c = None -> cm_subscribed c = false -> Forall outOp ops -> fine None None (c, a, ops).
Proof. intros Ht Hs Ho. split; [|done]. apply leads_outs; [by apply synced_none|done]. Qed.

Lemma outs_ensureUpstream up dialed f rest : Forall outOp rest -> Forall outOp (ensureUpstream up dialed f rest).
Proof.
  intros Hr. unfold ensureUpstream. destruct up; [done|]. destruct dialed; [|by repeat constructor].
  repeat (apply Forall_cons; split); [done| |done]. by vm_compute.
Qed.
Lemma outOp_setName e p s f : s_exec s = false -> s_done s = None -> outOp (Forward (setName e p) s f).
Proof. intros Hs Hd. split; [by vm_compute|]. split_and!; [done..|]. by vm_compute. Qed.

Lemma fine_auth e up f c a args : cm_txn c = None -> cm_subscribed c = false -> fineAction None (auth e up f c a args).
Proof.
  intros Ht Hs. unfold auth.
  assert (forall user pass, fineAction None (AskAuth user pass (fun r =>
    match r with
    | AuthRefused => (c, a, [Answer (errReply wrongPass)])
    | LoggedIn p dialed => (setPrincipal p c, a, ensureUpstream up dialed f [Forward (setName e p) dropSlot f; Answer ("+OK" +:+ CRLF)])
    end))) as Hask.
  { intros user pass [|p dialed]; apply fine_outs; try done; [by repeat constructor|].
    apply outs_ensureUpstream. apply Forall_cons. split; [by apply outOp_setName|]. by repeat constructor. }
  destruct args as [|x [|y [|z [|]]]]; try apply Hask; apply fine_outs; try done; by repeat constructor.
Qed.

Lemma fine_helloEnd e up dialed f ver p c a : cm_txn c = None -> cm_subscribed c = false -> fine None None (helloEnd e up dialed f ver p c a).
Proof.
  intros Ht Hs. unfold helloEnd. destruct (ver =s ""); apply fine_outs; try done; try (by destruct (up || dialed)).
  all: apply outs_ensureUpstream; apply Forall_cons; split; [|done].
  all: by vm_compute.
Qed.
Lemma fine_hello e up f c a args : cm_txn c = None -> cm_subscribed c = false -> fineAction None (hello e up f c a args).
Proof.
  intros Ht Hs. unfold hello. destruct (_ && _ && _); [apply fine_outs; [done..|by repeat constructor]|].
  destruct (helloOpts _ _) as [[[user pass]|]|r].
  - intros [|p dialed]; [apply fine_outs; [done..|by repeat constructor]|by apply fine_helloEnd].
  - destruct (cm_principal c) as [p|]; [|apply fine_outs; [done..|by repeat constructor]].
    pose proof (fine_helloEnd e up true f (default "" (args !! 1%nat)) p c a Ht Hs) as Hf.
    by destruct (helloEnd e up true f _ p c a) as [[c' a'] ops].
  - apply fine_outs; [done..|by repeat constructor].
Qed.

Lemma fine_preAuth e c a args : cm_txn c = None -> cm_subscribed c = false -> fineAction None (preAuth e c a args).
Proof.
  intros Ht Hs. unfold preAuth. destruct (Classify args) as [info|]; [|done].
  destruct (_ =s "AUTH"); [by apply fine_auth|]. destruct (_ =s "HELLO"); [by apply fine_hello|].
  destruct (_ =s "QUIT"); apply fine_outs; try done; by repeat constructor.
Qed.

Lemma sentArgs_out args info s f : Classify args = Some info -> Name info <> "MULTI" -> needsGate info = false -> s_exec s = false ->
  s_done s = None -> outOp (Forward (sentArgs args info) s f).
Proof.
  intros Hc Hn Hg Hs Hd. split; [|split_and!; [done..|by rewrite sentArgs_gated]].
  intros He. apply (sentArgs_not args info ["MULTI"] Hc eq_refl eq_refl); [set_solver|]. rewrite He. in_list.
Qed.

Lemma fine_bare e p c a args info : Classify args = Some info -> clientOK args -> cm_txn c = None -> cm_subscribed c = false ->
  fineAction None (bare e p c a (sentArgs args info) info).
Proof.
  intros Hc Hok Ht Hs. unfold bare. destruct (Hok _ Hc) as (Hps & Hpl & _).
  assert (forall c' s, cm_txn c' = None -> cm_subscribed c' = false -> Name info <> "MULTI" -> Name info ∈ freeNames \/ needsGate info = false ->
    s_exec s = false -> s_done s = None -> forall ops, Forall outOp ops -> fine None None (c', a, Forward (sentArgs args info) s CloseOnErr :: ops)) as Hfwd.
  { intros c' s Ht' Hs' Hn Hf Hse Hsd ops Hops. apply fine_outs; [done..|]. apply Forall_cons. split; [|done]. apply sentArgs_out; [done..| |done|done].
    destruct Hf as [Hf|Hf]; [by eapply free_name|done]. }
  assert (forall n, Name info = n -> n ∈ freeNames -> Name info ∈ freeNames) as Hfree by (by intros n ->).
  destruct (Name info =s "AUTH"); [by apply fine_auth|]. destruct (Name info =s "HELLO"); [by apply fine_hello|].
  destruct (Name info =s "QUIT") eqn:E1.
  { apply eqs_true in E1. apply Hfwd; try done; [by rewrite E1|left; apply (Hfree _ E1); in_list]. }
  destruct (Name info =s "SELECT") eqn:E2.
  { apply eqs_true in E2. unfold selectDB. destruct (_ <? 0); [|destruct (_ && _); [apply fine_outs; [done..|by repeat constructor]|]].
    all: apply Hfwd; try done; [by rewrite E2|left; apply (Hfree _ E2); in_list|..]. by repeat constructor. }
  destruct (Name info =s "MULTI") eqn:E3.
  { apply eqs_true in E3. destruct Hpl as [Hr Hlen]; [rewrite E3; in_list|]. rewrite E3 in Hr.
    rewrite sentArgs_plain by (rewrite ?E3; try done; unfold evalNames; set_solver).
    split; [|done]. split; [split; [done|by intros _ [? ?]]|]. split; [|done]. intros a' [= <-]. split; [by intros _|]. intros m' ran Hst.
    destruct (txn_multi _ _ _ Hst Hr) as [-> ->]. split; [by left|]. exists (Some []). split; [done|]. by right. }
  apply eqs_false in E3. case_bool_decide as E4.
  { apply Hfwd; try done. left. unfold freeNames. elem_inv E4; rewrite E4; in_list. }
  destruct (Name info =s "WATCH") eqn:E5.
  { apply eqs_true in E5. apply Hfwd; try done. left. apply (Hfree _ E5). in_list. }
  destruct (_ && _); [apply fine_outs; [done..|apply Forall_singleton; by apply outOp_setName]|].
  unfold byClass. destruct (needsGate info) eqn:Eg.
  - assert (sentArgs args info = args) as -> by (by apply script_free).
    pose proof (fine_gateBare e p c a args info Hc Eg E3 Ht Hs) as Hgb.
    destruct (CClass info) eqn:Ecl; try done; apply fine_outs; try done; by repeat constructor.
  - destruct (CClass info) eqn:Ecl; try done; try (apply Hfwd; try done; by right); apply fine_outs; try done; by repeat constructor.
Qed.

(** Whatever a handler does keeps the two MULTI states together. *)
Lemma fine_command e p c a args m : clientOK args -> synced c m -> cm_subscribed c = false -> fineAction m (command e p c a args).
Proof.
  intros Hok Hsy Hs. unfold command. destruct (Classify args) as [info|] eqn:Hc; [|done]. rewrite Hs.
  fold (sentArgs args info). destruct (cm_txn c) as [t|] eqn:Ht; [by apply fine_inTxn|].
  rewrite (synced_out _ _ Hsy Ht). by apply fine_bare.
Qed.

(** ** The login is kept *)
Definition results (Pr : cmdState -> Prop) (x : action) : Prop :=
  match x with
  | Run c _ _ => Pr c
  | AskPolicy _ _ k => forall d, Pr (fst (fst (k d)))
  | AskAuth _ _ k => forall r, Pr (fst (fst (k r)))
  | GoPanic => True
  end.
Ltac results_tac :=
  repeat (match goal with
          | |- results _ (if ?b then _ else _) => destruct b
          | |- results _ (match ?x with _ => _ end) => destruct x
          | |- context [let '(_, _) := ?x in _] => destruct x eqn:?
          | |- results _ (Run _ _ _) => cbn
          | |- results _ (AskPolicy _ _ _) => intros ?; cbn
          | |- results _ (AskAuth _ _ _) => intros [|]; cbn
          end; try done).
Lemma helloEnd_txn e up dialed f ver p c a : cm_txn (fst (fst (helloEnd e up dialed f ver p c a))) = cm_txn c.
Proof. unfold helloEnd. destruct (ver =s ""); [done|]. by destruct (up || dialed). Qed.
Lemma helloEnd_principal e up dialed f ver p c a : cm_principal (fst (fst (helloEnd e up dialed f ver p c a))) = cm_principal c.
Proof. unfold helloEnd. destruct (ver =s ""); [done|]. by destruct (up || dialed). Qed.

Lemma hello_results (Pr : cmdState -> Prop) e up f c a args : Pr c ->
  (forall dialed ver p c', c' = c \/ c' = setPrincipal p c -> Pr (fst (fst (helloEnd e up dialed f ver p c' a)))) -> results Pr (hello e up f c a args).
Proof.
  intros Hc He. unfold hello. destruct (_ && _ && _); [done|]. destruct (helloOpts _ _) as [[[user pass]|]|r]; [| |done].
  - intros [|p dialed]; [done|]. apply He. by right.
  - destruct (cm_principal c) as [p|]; [|done]. specialize (He true (default "" (args !! 1%nat)) p c (or_introl eq_refl)).
    by destruct (helloEnd _ _ _ _ _ _ _ _) as [[c' a'] ops].
Qed.

Lemma preAuth_txn e c a args : results (fun c' => cm_txn c' = cm_txn c) (preAuth e c a args).
Proof.
  unfold preAuth. destruct (Classify args) as [info|]; [|done]. destruct (_ =s "AUTH").
  { unfold auth. results_tac. }
  destruct (_ =s "HELLO"); [|results_tac]. apply hello_results; [done|]. intros dialed ver p c' [->| ->]; by rewrite helloEnd_txn.
Qed.
Lemma command_principal e p c a args : cm_principal c = Some p -> results (fun c' => is_Some (cm_principal c')) (command e p c a args).
Proof.
  intros Hp. assert (is_Some (cm_principal c)) as Hs by (by rewrite Hp). unfold command. destruct (Classify args) as [info|]; [|done].
  destruct (cm_subscribed c); [done|]. destruct (cm_txn c) as [t|].
  { unfold inTxn, exec. results_tac. }
  unfold bare. destruct (_ =s "AUTH"); [unfold auth; results_tac; cbn; by eauto|].
  destruct (_ =s "HELLO").
  { apply hello_results; [done|]. intros dialed ver q c' Hc'. rewrite helloEnd_principal. destruct Hc' as [->| ->]; [done|by eexists]. }
  unfold selectDB, byClass, gateBare, subscribe. results_tac.
Qed.

(** ** The operations of a handler *)
Definition actionAll (Pr : cmdState -> list op -> Prop) (x : action) : Prop :=
  match x with
  | Run c _ ops => Pr c ops
  | AskPolicy _ _ k => forall d, Pr (fst (fst (k d))) (snd (k d))
  | AskAuth _ _ k => forall r, Pr (fst (fst (k r))) (snd (k r))
  | GoPanic => True
  end.
Ltac all_tac :=
  repeat (match goal with
          | |- actionAll _ (if ?b then _ else _) => destruct b
          | |- actionAll _ (match ?x with _ => _ end) => destruct x
          | |- context [let '(_, _) := ?x in _] => destruct x eqn:?
          end; try done).

(** The reply of SELECT is the last thing a handler waits for. *)
Fixpoint awaitLast (ops : list op) : Prop :=
  match ops with
  | [] => True
  | o :: ops => (isAwait o = true -> ops = []) /\ awaitLast ops
  end.
Lemma awaitLast_none ops : forallb (fun o => negb (isAwait o)) ops = true -> awaitLast ops.
Proof. induction ops as [|o ops IH]; [done|]. cbn. rewrite andb_true_iff, negb_true_iff. intros [-> Ho]. split; [done|auto]. Qed.
Lemma await_ensure up dialed f rest : awaitLast rest -> awaitLast (ensureUpstream up dialed f rest).
Proof. intros Hr. unfold ensureUpstream. destruct up; [done|]. by destruct dialed. Qed.
Lemma await_helloEnd e up dialed f ver p c a : awaitLast (snd (helloEnd e up dialed f ver p c a)).
Proof. unfold helloEnd. destruct (ver =s ""); by apply await_ensure. Qed.
Lemma await_auth e up f c a args : actionAll (fun _ => awaitLast) (auth e up f c a args).
Proof. unfold auth. destruct args as [|x [|y [|z [|]]]]; try done; intros [|p dialed]; cbn [fst snd]; try done; by apply await_ensure. Qed.
Lemma await_hello e up f c a args : actionAll (fun _ => awaitLast) (hello e up f c a args).
Proof.
  unfold hello. destruct (_ && _ && _); [done|]. destruct (helloOpts _ _) as [[[user pass]|]|r]; [| |done].
  - intros [|p dialed]; [done|apply await_helloEnd].
  - destruct (cm_principal c) as [p|]; [|done]. pose proof (await_helloEnd e up true f (default "" (args !! 1%nat)) p c a) as Hn.
    by destruct (helloEnd _ _ _ _ _ _ _ _) as [[c' a'] ops].
Qed.
Lemma await_preAuth e c a args : actionAll (fun _ => awaitLast) (preAuth e c a args).
Proof.
  unfold preAuth. destruct (Classify args) as [info|]; [|done]. destruct (_ =s "AUTH"); [apply await_auth|].
  destruct (_ =s "HELLO"); [apply await_hello|]. by destruct (_ =s "QUIT").
Qed.
Lemma await_command e p c a args : actionAll (fun _ => awaitLast) (command e p c a args).
Proof.
  unfold command. destruct (Classify args) as [info|]; [|done]. destruct (cm_subscribed c); [by destruct (bool_decide _)|]. destruct (cm_txn c) as [t|].
  { unfold inTxn, exec. all_tac. intros d. cbn [fst snd]. apply awaitLast_none. destruct (dc_deny d); [unfold reportRefused; by destruct (dc_verdictDone d)|].
    unfold admitTxn. rewrite !forallb_app, !andb_true_iff. split_and!; [by induction (usedIDs d)|by destruct (dc_receipt d)|done]. }
  unfold bare. destruct (_ =s "AUTH"); [apply await_auth|]. destruct (_ =s "HELLO"); [apply await_hello|].
  unfold selectDB, byClass, gateBare, subscribe. all_tac.
  all: intros d; cbn [fst snd]; destruct (dc_deny d); [unfold reportRefused; by destruct (dc_verdictDone d)|done].
Qed.

(** Handlers leave the database alone. *)
Lemma helloEnd_db e up dialed f ver p c a : cm_db (fst (fst (helloEnd e up dialed f ver p c a))) = cm_db c.
Proof. unfold helloEnd. destruct (ver =s ""); [done|]. by destruct (up || dialed). Qed.
Lemma preAuth_db e c a args : results (fun c' => cm_db c' = cm_db c) (preAuth e c a args).
Proof.
  unfold preAuth. destruct (Classify args) as [info|]; [|done]. destruct (_ =s "AUTH"); [unfold auth; results_tac|].
  destruct (_ =s "HELLO"); [|results_tac]. apply hello_results; [done|]. intros dialed ver p c' [->| ->]; by rewrite helloEnd_db.
Qed.
Lemma command_db e p c a args : results (fun c' => cm_db c' = cm_db c) (command e p c a args).
Proof.
  unfold command. destruct (Classify args) as [info|]; [|done]. destruct (cm_subscribed c); [done|]. destruct (cm_txn c) as [t|].
  { unfold inTxn, exec. results_tac. }
  unfold bare. destruct (_ =s "AUTH"); [unfold auth; results_tac|]. destruct (_ =s "HELLO").
  { apply hello_results; [done|]. intros dialed ver q c' [->| ->]; by rewrite helloEnd_db. }
  unfold selectDB, byClass, gateBare, subscribe. results_tac.
Qed.
