(* ===== verification/ConnInv.v ===== *)
(** * What Redis runs for a connection *)

From stdpp Require Import sorting.
From S2P Require Import Prelude GoLib Resp Classify ClassifyFacts Policy Stores Guard GuardScope GuardCheck GuardFrames GuardFacts Decide Accounting Conn ConnDecide ConnWorld ConnFacts.

#[export] Instance app_submseteq {A} : Proper (submseteq ==> submseteq ==> submseteq) (@app A).
Proof. intros x y Hxy x' y' Hxy'. by apply submseteq_app. Qed.
#[export] Instance app_submseteq_flip {A} : Proper (submseteq --> submseteq --> flip submseteq) (@app A).
Proof. intros x y Hxy x' y' Hxy'. by apply submseteq_app. Qed.
Lemma elem_sub {A} (l k1 k2 : list A) x : l ⊆+ k1 ++ k2 -> x ∈ l -> x ∈ k1 \/ x ∈ k2.
Proof. intros Hl Hx. apply elem_of_app. by eapply elem_of_submseteq. Qed.
Lemma NoDup_sub {A} (l k : list A) : l ⊆+ k -> NoDup k -> NoDup l.
Proof. intros [k' ->]%submseteq_Permutation. rewrite NoDup_app. tauto. Qed.

(** ** Operations *)
Section ops.
Context {S T : Type} `{SessionStore S} `{SliceStore T}.
Context (l : pending) (id : Z).

Lemma failed_not_went f (c c' : conn S T) x : failed_ id f c = (c', Went x) -> False.
Proof. by destruct f. Qed.
Lemma forward_went revoked wr args s f (c c' : conn S T) x : forward l id revoked wr args s f c = (c', Went x) ->
  x = Some args /\ wr = true /\ c' = setRQ (pushFwd l s (co_rq c)) c.
Proof.
  unfold forward. destruct revoked; [by intros ?%failed_not_went|]. destruct wr; cbn [negb]; rewrite ?orb_true_r, ?orb_false_r.
  - destruct (rq_overflow _); [by intros ?%failed_not_went|]. by intros [= <- <-].
  - by intros ?%failed_not_went.
Qed.
Lemma runOp_none revoked wr o (c c' : conn S T) : runOp l id revoked wr o c = (c', Went None) -> silent o = true.
Proof.
  destruct o; cbn; try done.
  - intros (? & _)%forward_went. done.
  - by destruct (revoked || negb wr).
Qed.
Lemma runOp_some revoked wr o (c c' : conn S T) args : runOp l id revoked wr o c = (c', Went (Some args)) -> upArgs o = Some args /\ wr = true.
Proof.
  destruct o; cbn; try done.
  - intros ([= ->] & -> & _)%forward_went. done.
  - unfold reply. destruct (co_up c); cbn; [|done]. destruct (rq_fwd (co_rq c) =? 0); [|done]. destruct wr; by intros [= <- <-].
  - destruct revoked, wr; cbn; try done. by intros [= <- <-].
Qed.

(** The decisions whose Done was called or is with a slot of the queue. *)
Definition slotID (s : slot) : list nat := option_list (ud_id <$> s_done s).
Definition slotIDs (o : op) : list nat := match o with Forward _ s _ => slotID s | Report ud _ => [ud_id ud] | _ => [] end.
Definition touched (c : conn S T) : list nat := (fst <$> m_reports (co_mem c)) ++ (rq_q (co_rq c) ≫= slotID).

Definition failIDs (f : failMode) : list nat := match f with LostOnErr ud => [ud_id ud] | _ => [] end.
Definition opIDs (o : op) : list nat := slotIDs o ++ match o with Forward _ _ f => failIDs f | _ => [] end.

Lemma touched_runDone ud o (c : conn S T) : touched (runDone ud o c) ⊆+ touched c ++ [ud_id ud].
Proof. unfold touched. cbn. destruct (ud_verdict ud); rewrite ?fmap_app; cbn; solve_submseteq. Qed.
Lemma touched_doneOf s o (c : conn S T) : touched (runDoneOf s o c) ⊆+ touched c ++ slotID s.
Proof. unfold runDoneOf, slotID. destruct (s_done s) as [ud|]; [apply touched_runDone|by rewrite app_nil_r]. Qed.
Lemma touched_fwd s (c : conn S T) : touched (setRQ (pushFwd l s (co_rq c)) c) ⊆+ touched c ++ slotID s.
Proof. unfold touched. cbn. rewrite bind_app. cbn. rewrite app_nil_r. solve_submseteq. Qed.
Lemma touched_failed f (c c' : conn S T) x : failed_ id f c = (c', x) -> touched c' ⊆+ touched c ++ failIDs f.
Proof. destruct f as [| |ud]; intros [= <- _]; [by rewrite app_nil_r..|]. apply touched_runDone. Qed.
Lemma touched_reply b (c : conn S T) : touched (fst (reply l b c)) = touched c.
Proof. unfold reply. destruct (co_up c); cbn; [|done]. by destruct (_ =? 0); unfold touched; cbn; rewrite !bind_app; cbn; rewrite !app_nil_r. Qed.

Lemma runOp_ids revoked wr o (c c' : conn S T) x : runOp l id revoked wr o c = (c', x) -> touched c' ⊆+ touched c ++ opIDs o.
Proof.
  intros Hr. unfold opIDs. destruct o as [|a s f|b|n|a|ud out|]; cbn in Hr.
  2: { unfold forward in Hr. cbn [slotIDs]. rewrite (assoc_L (++)). destruct revoked.
    - rewrite <- (touched_doneOf s). by eapply touched_failed.
    - rewrite <- (touched_fwd s). destruct (_ || _); [by eapply touched_failed|injection Hr as <- _; solve_submseteq]. }
  2: { pose proof (touched_reply b c) as Ht. destruct (reply l b c) as [c1 sent]. injection Hr as <- _. cbn in Ht. by rewrite Ht, app_nil_r. }
  4: { injection Hr as <- _. apply touched_runDone. }
  all: injection Hr as <- _; by rewrite app_nil_r.
Qed.
Lemma runOp_touched revoked wr o (c c' : conn S T) x : runOp l id revoked wr o c = (c', Went x) -> touched c' ⊆+ touched c ++ slotIDs o.
Proof.
  intros Hr. pose proof (runOp_ids _ _ _ _ _ _ Hr) as Ht. unfold opIDs in Ht. destruct o; try (cbn [slotIDs] in Ht |- *; cbn [app] in Ht; rewrite ?app_nil_r in Ht |- *; exact Ht).
  apply forward_went in Hr as (_ & _ & ->). apply touched_fwd.
Qed.

Lemma slotIDs_plain K m o i : okSend K m o -> opGated o = false -> upArgs o <> None -> i ∉ slotIDs o.
Proof.
  destruct o as [|a s f|b|n|a|ud out|]; cbn; try done; try (by intros; apply not_elem_of_nil). intros [_ Hd] Hg _. unfold slotID.
  destruct (s_done s) as [ud|]; [|by apply not_elem_of_nil]. apply orb_false_elim in Hg as [He Hg].
  destruct (Hd He) as (_ & Hga & Hdr); [done|]. by rewrite Hga, Hdr in Hg.
Qed.

(** *** Of the reply goroutine *)
Lemma touched_runHook h v (c : conn S T) : touched (runHook h v c) = touched c.
Proof. destruct h; cbn; try done; by destruct (_ && _) || destruct (isInt v). Qed.
Lemma touched_onExec x v (c : conn S T) : touched (runOnExec x v c) = touched c.
Proof.
  destruct x as [[p decs]|]; [|done]. cbn. destruct (_ || _); [done|]. revert c. induction decs as [|d decs IH]; intros c; [done|]. cbn.
  rewrite IH. destruct (VElems v !! fst d) as [y|]; [|done]. by destruct (_ && _).
Qed.
Lemma touched_answer s inp (c c' : conn S T) x : answer s inp c = (x, c') -> touched c' = touched c.
Proof.
  unfold answer. destruct (_ || _).
  - destruct (tee inp) as [[[[info v] b] rest]|e]; [|by intros [= _ <-]]. destruct (execOK s v); cbn; [|by intros [= _ <-]].
    intros [= _ <-]. apply touched_onExec.
  - destruct (s_hook s) as [h|]; [|by intros [= _ <-]]. destruct (tee inp) as [[[[info v] b] rest]|e]; [|by intros [= _ <-]].
    intros [= _ <-]. apply touched_runHook.
Qed.
Lemma push_touched v (c : conn S T) : touched (pushFrame l v c) ⊆+ touched c.
Proof.
  unfold pushFrame. destruct (VElems v) as [|k rest]; [done|]. destruct (assoc _ subKinds) as [base|]; [|done].
  set (c0 := setRQ _ c). assert (touched c0 ⊆+ touched c) as Hsub.
  { unfold touched, c0. cbn. unfold confirmSub. destruct (rq_q (co_rq c)) as [|h q] eqn:Eq; [by rewrite Eq|].
    destruct (_ && _); [|by rewrite Eq]. destruct (_ <=? 0); cbn; [solve_submseteq|done]. }
  destruct rest as [|ch rest]; [done|]. destruct (VNull ch); [done|]. by destruct (_ =s base).
Qed.
Lemma frame_touched b (c c' : conn S T) x : frame l id b c = (x, c') -> touched c' ⊆+ touched c.
Proof.
  intros Hf. destruct b as [|t r]; [by injection Hf as _ <-|]. unfold frame in Hf. destruct (rq_raw (co_rq c)).
  { by destruct (copy _) as [[[info b] rest]|e]; injection Hf as _ <-. }
  destruct (Ascii.eqb t ">"). { destruct (tee _) as [[[[info v] b] rest]|e]; injection Hf as _ <-; [apply push_touched|done]. }
  destruct (rq_q (co_rq c)) as [|s q] eqn:Eq; [by injection Hf as _ <-|]. destruct (isSynth s); [by injection Hf as _ <-|].
  set (c0 := setRQ _ c) in Hf. assert (touched c0 ++ slotID s ⊆+ touched c) as Hsub.
  { unfold touched. rewrite Eq. subst c0. cbn. destruct (s_toRaw s); cbn; solve_submseteq. }
  destruct (answer s (String t r) c0) as [[[[info b] rest]|e] c1] eqn:Ea; injection Hf as _ <-; rewrite <- Hsub, <- (touched_answer _ _ _ _ _ Ea);
    rewrite touched_doneOf; by destruct (s_drop s).
Qed.
Lemma synth_touched (c c' : conn S T) : writeSynth l c = Some c' -> touched c' ⊆+ touched c.
Proof.
  unfold writeSynth. destruct (rq_q (co_rq c)) as [|s q] eqn:Eq; [done|]. destruct (s_synth s); [|done]. intros [= <-].
  unfold touched. rewrite Eq. cbn. solve_submseteq.
Qed.
Lemma retire_touched (c : conn S T) : touched (retire id c) ⊆+ touched c.
Proof.
  unfold retire. set (c0 := setRQ (setQ [] (co_rq c)) c). assert (touched c = touched c0 ++ (rq_q (co_rq c) ≫= slotID)) as ->.
  { unfold touched, c0. cbn. by rewrite app_nil_r. }
  clearbody c0. generalize (rq_q (co_rq c)). intros q. revert c0. induction q as [|s q IH]; intros c0; cbn; [by rewrite app_nil_r|].
  rewrite IH, touched_doneOf. solve_submseteq.
Qed.
End ops.

(** The unit a handler asks for. *)
Definition asks (Pr : Principal -> Unit -> Prop) (x : action) : Prop := match x with AskPolicy p u _ => Pr p u | _ => True end.
Ltac asks_tac :=
  repeat (match goal with
          | |- asks _ (if ?b then _ else _) => destruct b
          | |- asks _ (match ?x with _ => _ end) => destruct x
          | |- context [let '(_, _) := ?x in _] => destruct x
          end; try done).
Lemma command_asks e p c a args : asks (fun q u => q = p /\ rewrite_ u = None /\ DB u = cm_db c) (command e p c a args).
Proof.
  unfold command. destruct (Classify args) as [info|]; [|done]. destruct (cm_subscribed c); [done|]. destruct (cm_txn c) as [t|].
  { unfold inTxn, exec. asks_tac. }
  unfold bare, auth, hello, selectDB, byClass, gateBare, subscribe. asks_tac.
Qed.
Lemma preAuth_asks e c a args : asks (fun _ _ => False) (preAuth e c a args).
Proof. unfold preAuth, auth, hello. asks_tac. Qed.

(** What a handler does names the decision it asked for, and no other. *)
Definition idsOf (ops : list op) : list nat := ops ≫= opIDs.
(** Only the last of them is the unit's. *)
Fixpoint onceIDs (ops : list op) : Prop :=
  match ops with
  | [] => True
  | o :: ops => (length (opIDs o) <= 1)%nat /\ (idsOf ops = [] \/ (slotIDs o = [] /\ opGated o = false)) /\ onceIDs ops
  end.
Lemma onceIDs_nil ops : idsOf ops = [] -> onceIDs ops.
Proof. induction ops as [|o ops IH]; [done|]. unfold idsOf. cbn. intros [Hn Ho]%app_eq_nil. rewrite Hn. cbn. split; [lia|]. split; [by left|by apply IH]. Qed.
Definition names (x : action) : Prop :=
  match x with
  | Run _ _ ops => idsOf ops = []
  | AskPolicy _ _ k => forall d, onceIDs (snd (k d)) /\ forall i, i ∈ idsOf (snd (k d)) -> i = dc_id d
  | AskAuth _ _ k => forall r, idsOf (snd (k r)) = []
  | GoPanic => True
  end.
Ltac names_tac :=
  repeat (match goal with
          | |- names (if ?b then _ else _) => destruct b
          | |- names (match ?x with _ => _ end) => destruct x
          | |- context [let '(_, _) := ?x in _] => destruct x eqn:?
          end; try done).
Lemma names_ensure up dialed f rest : failIDs f = [] -> idsOf rest = [] -> idsOf (ensureUpstream up dialed f rest) = [].
Proof.
  intros Hf Hr. unfold ensureUpstream. destruct up; [done|]. destruct dialed; [|done]. unfold idsOf, opIDs in *. cbn. by rewrite Hf, Hr.
Qed.
Lemma names_auth e up f c a args : failIDs f = [] -> names (auth e up f c a args).
Proof.
  intros Hf. unfold auth. assert (forall p, idsOf [Forward (setName e p) dropSlot f; Answer ("+OK" +:+ CRLF)] = []) as Hid.
  { intros p. unfold idsOf, opIDs. cbn. by rewrite Hf. }
  destruct args as [|x [|y [|z [|]]]]; try done; intros [|p dialed]; cbn; try done; by apply names_ensure.
Qed.
Lemma names_helloEnd e up dialed f ver p c a : failIDs f = [] -> idsOf (snd (helloEnd e up dialed f ver p c a)) = [].
Proof. intros Hf. unfold helloEnd. destruct (ver =s ""); cbn; apply names_ensure; try done; unfold idsOf, opIDs; cbn; by rewrite Hf. Qed.
Lemma names_hello e up f c a args : failIDs f = [] -> names (hello e up f c a args).
Proof.
  intros Hf. unfold hello. destruct (_ && _ && _); [done|]. destruct (helloOpts _ _) as [[[user pass]|]|r]; [| |done].
  - intros [|p dialed]; [done|by apply names_helloEnd].
  - destruct (cm_principal c) as [p|]; [|done]. pose proof (names_helloEnd e up true f (default "" (args !! 1%nat)) p c a Hf) as Hn.
    by destruct (helloEnd _ _ _ _ _ _ _ _) as [[c' a'] ops].
Qed.
Lemma names_preAuth e c a args : names (preAuth e c a args).
Proof.
  unfold preAuth. destruct (Classify args) as [info|]; [|done]. destruct (_ =s "AUTH"); [by apply names_auth|].
  destruct (_ =s "HELLO"); [by apply names_hello|]. by destruct (_ =s "QUIT").
Qed.

Lemma ids_done d i : i ∈ option_list (ud_id <$> commitOnSuccess d) -> i = dc_id d.
Proof. unfold commitOnSuccess. destruct (_ && _); cbn; [by intros ?%elem_of_nil|]. by intros ?%list_elem_of_singleton. Qed.
Lemma ids_refused e d i : i ∈ idsOf (reportRefused e d) -> i = dc_id d.
Proof. unfold reportRefused. destruct (dc_verdictDone d); cbn; [by intros ?%list_elem_of_singleton|by intros ?%elem_of_nil]. Qed.
Lemma ids_admit p d i : i ∈ idsOf (admitTxn p d) -> i = dc_id d.
Proof.
  unfold admitTxn, idsOf. rewrite !bind_app, !elem_of_app. intros [Hi|[Hi|Hi]].
  - apply list_elem_of_bind in Hi as (o & Hi & Ho). apply list_elem_of_fmap in Ho as (x & -> & _). by apply elem_of_nil in Hi.
  - destruct (dc_receipt d); [|by apply elem_of_nil in Hi]. cbn in Hi. destruct (dc_done d); cbn in Hi; [by apply list_elem_of_singleton in Hi|by apply elem_of_nil in Hi].
  - cbn in Hi. rewrite !app_nil_r in Hi. by apply ids_done in Hi.
Qed.
Lemma once_refused e d ops : idsOf ops = [] -> onceIDs (reportRefused e d ++ ops).
Proof. intros Ho. unfold reportRefused. destruct (dc_verdictDone d); [split; [done|]; split; [by left|]|]; by apply onceIDs_nil. Qed.
Lemma once_admit p d : onceIDs (admitTxn p d).
Proof.
  assert (onceIDs [Forward ["EXEC"] (execSlot p d) CloseOnErr]) as He.
  { split; [|split; [by left|done]]. unfold opIDs, slotIDs, slotID. cbn. destruct (commitOnSuccess d); cbn; lia. }
  unfold admitTxn. induction (usedIDs d) as [|i ids IH]; [|split; [cbn; lia|]; split; [right; split; [done|cbn; by rewrite andb_false_r]|exact IH]].
  cbn [app fmap list_fmap]. destruct (dc_receipt d) as [r|]; [|exact He]. split; [destruct (dc_done d); cbn; lia|]. split; [|exact He].
  right. split; [done|cbn; by rewrite andb_false_r].
Qed.
Lemma once_bare a d n s o k x b h f : failIDs f = [] ->
  onceIDs [Forward a (mkSlot None false false n s o k x b h (commitOnSuccess d)) f].
Proof.
  intros Hf. split; [|split; [by left|done]]. unfold opIDs, slotIDs, slotID. rewrite Hf. cbn. destruct (commitOnSuccess d); cbn; lia.
Qed.
Lemma names_command e p c a args : names (command e p c a args).
Proof.
  unfold command. destruct (Classify args) as [info|]; [|done]. destruct (cm_subscribed c); [by destruct (bool_decide _)|].
  destruct (cm_txn c) as [t|].
  { unfold inTxn, exec. names_tac. intros d. cbn [snd]. destruct (dc_deny d); [|by split; [apply once_admit|apply ids_admit]].
    split; [by apply once_refused|]. intros i Hi. unfold idsOf in Hi. rewrite bind_app, elem_of_app in Hi. destruct Hi as [Hi|Hi]; [by eapply ids_refused|by apply elem_of_nil in Hi]. }
  unfold bare. destruct (_ =s "AUTH"); [by apply names_auth|]. destruct (_ =s "HELLO"); [by apply names_hello|].
  unfold selectDB, byClass, gateBare, subscribe. names_tac.
  all: intros d; cbn [snd]; (split; [destruct (dc_deny d); [by apply once_refused|by apply once_bare]|]); intros i Hi.
  all: destruct (dc_deny d); [unfold idsOf in Hi; rewrite bind_app, elem_of_app in Hi; destruct Hi as [Hi|Hi]; [by eapply ids_refused|by apply elem_of_nil in Hi]|].
  all: cbn in Hi; rewrite !app_nil_r in Hi; by apply ids_done in Hi.
Qed.

(** ** The invariant *)
Section inv.
Context {R S T P : Type} `{Server R} `{!ServerLaws R} `{SessionStore S} `{SliceStore T} `{Policy P}.
Context (l : pending) (id : Z).
Context (perm : forall A : Type, list A -> list A) (clock : nat -> Z).
Context (checkReplacements : nat -> Unit -> option Denial * option (list string)) (auditStart : nat -> Unit -> bool -> option Denial * bool).
Hypothesis receipts_are_scripts : forall i u r, checkReplacements i u = (None, Some r) -> redisName r = "EVAL".
Abbreviation world := (world R S T P).
Abbreviation step := (cstep (R := R) (S := S) (T := T) (P := P) l id clientOK perm clock checkReplacements auditStart).

Definition tags (w : world) : list nat := omap (M := list) rn_unit (w_ran w).

Definition askOK (i : nat) (ak : ask) : Prop :=
  dc_id (ak_d ak) = i /\ rewrite_ (ak_u ak) = None /\
  (dc_deny (ak_d ak) = None -> passed checkReplacements (ak_env ak) (ak_p ak) (ak_u ak) (ak_d ak)).

Definition runOK (asked : list ask) (r : run) : Prop :=
  match rn_unit r with
  | None => exists a, rn_cmds r = [a] /\ gated a = false
  | Some i => exists ak, asked !! i = Some ak /\ dc_deny (ak_d ak) = None /\ rn_cmds r = unitBody (ak_p ak) (ak_d ak)
  end.

(** [K] is the body of the last decision, not run yet. *)
Definition freshBody (w : world) (K : option (list (list string))) : Prop :=
  forall b, K = Some b -> exists ak, last (w_asked w) = Some ak /\ dc_deny (ak_d ak) = None /\ b = unitBody (ak_p ak) (ak_d ak) /\
    DB (ak_u ak) = cm_db (w_cm w) /\ (pred (length (w_asked w)) ∉ tags w) /\ (pred (length (w_asked w)) ∉ touched (w_conn w)).

Record mediated (w : world) : Prop := {
  md_sub : cm_subscribed (w_cm w) = false;
  md_login : cm_principal (w_cm w) = None -> cm_txn (w_cm w) = None;
  md_asks : forall i ak, w_asked w !! i = Some ak -> askOK i ak;
  md_leads : w_life w = Serving -> w_broken w = false ->
    exists K, freshBody w K /\ leads K (srv_multi (w_srv w)) (w_prog w) (synced (w_cm w));
  md_touched : forall i, i ∈ touched (w_conn w) -> (i < length (w_asked w))%nat;
  md_done : NoDup (touched (w_conn w));
  md_once_prog : onceIDs (w_prog w);
  md_await : awaitLast (w_prog w);
  md_prog : forall i, i ∈ idsOf (w_prog w) -> Datatypes.S i = length (w_asked w) /\ (i ∉ tags w) /\ (i ∉ touched (w_conn w));
  md_runs : Forall (runOK (w_asked w)) (w_ran w);
  md_once : StronglySorted lt (tags w) /\ Forall (fun i => i < length (w_asked w))%nat (tags w);
}.

Lemma synced_some c : exists m, synced c m.
Proof. unfold synced. destruct (cm_txn c); [exists (Some None); exists None; auto|by exists None]. Qed.

Lemma runOK_more asked x r : runOK asked r -> runOK (asked ++ [x]) r.
Proof.
  unfold runOK. destruct (rn_unit r); [|done]. intros (ak & Ha & Hr). exists ak. split; [|done]. by apply lookup_app_l_Some.
Qed.

(** The handler of a command, for any MULTI state in step with the proxy's. *)
Lemma handle_fine e (w : world) args m : mediated w -> clientOK args -> synced (w_cm w) m -> fineAction m (handle e w args).
Proof.
  intros Hi Hok Hs. unfold handle. destruct (cm_principal (w_cm w)) as [p|] eqn:Hp.
  - apply fine_command; [done..|apply Hi].
  - pose proof (md_login _ Hi Hp) as Ht. rewrite (synced_out _ _ Hs Ht). apply fine_preAuth; [done|apply Hi].
Qed.
Lemma handle_login e (w : world) args : mediated w -> results (fun c => cm_principal c = None -> cm_txn c = None) (handle e w args).
Proof.
  intros Hi. unfold handle. destruct (cm_principal (w_cm w)) as [p|] eqn:Hp.
  - pose proof (command_principal e p (w_cm w) (co_at (w_conn w)) args Hp) as Hr. revert Hr. destruct (command _ _ _ _ _); cbn; try done.
    + intros [q ->]. done.
    + intros Hr d. destruct (Hr d) as [q ->]. done.
    + intros Hr r. destruct (Hr r) as [q ->]. done.
  - pose proof (preAuth_txn e (w_cm w) (co_at (w_conn w)) args) as Hr. pose proof (md_login _ Hi Hp) as Ht. revert Hr.
    destruct (preAuth _ _ _ _); cbn; try done; rewrite Ht; eauto.
Qed.
Lemma handle_names e (w : world) args : names (handle e w args).
Proof. unfold handle. destruct (cm_principal (w_cm w)); [apply names_command|apply names_preAuth]. Qed.
Lemma handle_await e (w : world) args : actionAll (fun _ => awaitLast) (handle e w args).
Proof. unfold handle. destruct (cm_principal (w_cm w)); [apply await_command|apply await_preAuth]. Qed.
Lemma handle_db e (w : world) args : results (fun c => cm_db c = cm_db (w_cm w)) (handle e w args).
Proof. unfold handle. destruct (cm_principal (w_cm w)); [apply command_db|apply preAuth_db]. Qed.
Lemma handle_asks e (w : world) args : asks (fun _ u => rewrite_ u = None /\ DB u = cm_db (w_cm w)) (handle e w args).
Proof.
  unfold handle. destruct (cm_principal (w_cm w)) as [p|].
  - pose proof (command_asks e p (w_cm w) (co_at (w_conn w)) args) as Hr. revert Hr. destruct (command _ _ _ _ _); cbn; naive_solver.
  - pose proof (preAuth_asks e (w_cm w) (co_at (w_conn w)) args) as Hr. revert Hr. by destruct (preAuth _ _ _ _).
Qed.

Lemma ready_synced (w : world) : mediated w -> w_life w = Serving -> w_prog w = [] ->
  exists m, synced (w_cm w) m /\ (w_broken w = false -> m = srv_multi (w_srv w)).
Proof.
  intros Hi Hl Hp. destruct (w_broken w) eqn:Eb; [destruct (synced_some (w_cm w)) as [m Hm]; by exists m|].
  destruct (md_leads _ Hi Hl Eb) as (K & _ & HL). rewrite Hp in HL. by exists (srv_multi (w_srv w)).
Qed.

(** A handler begins. *)
Lemma start_mediated (w : world) x : mediated w -> w_life w = Serving -> w_prog w = [] ->
  (forall m, synced (w_cm w) m -> fine None m x) -> (cm_principal (fst (fst x)) = None -> cm_txn (fst (fst x)) = None) ->
  idsOf (snd x) = [] -> awaitLast (snd x) -> mediated (start x w).
Proof.
  intros Hi Hl Hp Hf Hn Hid Haw. destruct (ready_synced _ Hi Hl Hp) as (m & Hm & Hb). destruct (Hf m Hm) as [HL Hs]. destruct x as [[c a] ops].
  cbn [fst snd] in *. split; try apply Hi; try done.
  - intros _ Eb. exists None. rewrite <- (Hb Eb : _ = srv_multi (w_srv (start (c, a, ops) w))). by split.
  - by apply onceIDs_nil.
  - intros i Ht. change (i ∈ idsOf ops) in Ht. rewrite Hid in Ht. by apply elem_of_nil in Ht.
Qed.

Lemma ask_mediated (w : world) ak g tick pol x : mediated w -> w_life w = Serving -> w_prog w = [] ->
  askOK (length (w_asked w)) ak -> DB (ak_u ak) = cm_db (fst (fst x)) -> awaitLast (snd x) -> (forall m, synced (w_cm w) m -> fine (bodyOf (ak_p ak) (ak_d ak)) m x) ->
  (cm_principal (fst (fst x)) = None -> cm_txn (fst (fst x)) = None) ->
  onceIDs (snd x) -> (forall i, i ∈ idsOf (snd x) -> i = dc_id (ak_d ak)) -> mediated (start x (decidedAs ak g tick pol w)).
Proof.
  intros Hi Hl Hp Ha Hdb Haw Hf Hn Hon Hid. destruct (ready_synced _ Hi Hl Hp) as (m & Hm & Hb). destruct (Hf m Hm) as [HL Hs]. destruct x as [[c a] ops].
  destruct (md_once _ Hi) as [Ho1 Ho2]. split; cbn in *; [done..| | | |apply Hi|done|done| | |].
  - intros i y [Hy|[Hlen Hy]]%lookup_app_Some; [by apply Hi|]. apply list_lookup_singleton_Some in Hy as [Hz <-].
    by replace i with (length (w_asked w)) by lia.
  - intros _ Eb. exists (bodyOf (ak_p ak) (ak_d ak)). rewrite <- (Hb Eb). split; [|done]. intros b Hbo. exists ak. cbn.
    rewrite last_snoc. unfold bodyOf in Hbo. destruct (dc_deny (ak_d ak)); [done|]. injection Hbo as <-. split_and!; [done..| |].
    all: rewrite length_app; cbn; replace (pred (length (w_asked w) + 1)) with (length (w_asked w)) by lia; intros Hin.
    + rewrite Forall_forall in Ho2. specialize (Ho2 _ Hin). lia.
    + pose proof (md_touched _ Hi _ Hin). lia.
  - intros i Ht. rewrite length_app. cbn. pose proof (md_touched _ Hi _ Ht). lia.
  - intros i Ht. rewrite length_app. cbn. rewrite (Hid _ Ht). destruct Ha as [-> _]. split_and!; [lia|..]; intros Hin.
    + rewrite Forall_forall in Ho2. specialize (Ho2 _ Hin). lia.
    + pose proof (md_touched _ Hi _ Hin). lia.
  - eapply Forall_impl; [apply Hi|]. intros r. apply runOK_more.
  - split; [done|]. eapply Forall_impl; [exact Ho2|]. cbn. intros i Hlt. rewrite length_app. lia.
Qed.

(** An operation is done: its decision is one that was asked for. *)
Lemma op_touched (w : world) o ops revoked wr c x i : mediated w -> w_prog w = o :: ops -> runOp l id revoked wr o (w_conn w) = (c, x) ->
  i ∈ touched c -> (i < length (w_asked w))%nat.
Proof.
  intros Hi Hp Ho Hin. destruct (elem_sub _ _ _ _ (runOp_ids _ _ _ _ _ _ _ _ Ho) Hin) as [Ht|Ht]; [by apply (md_touched _ Hi)|].
  destruct (md_prog _ Hi i) as [? _]; [|lia]. rewrite Hp. unfold idsOf. cbn. rewrite elem_of_app. by left.
Qed.
Lemma op_done (w : world) o ops revoked wr c x : mediated w -> w_prog w = o :: ops -> runOp l id revoked wr o (w_conn w) = (c, x) -> NoDup (touched c).
Proof.
  intros Hi Hp Ho. eapply NoDup_sub; [by eapply runOp_ids|]. pose proof (md_once_prog _ Hi) as Hon. rewrite Hp in Hon. destruct Hon as (Hlen & _).
  apply NoDup_app. split; [apply Hi|]. split.
  - intros i Hin Hx. destruct (md_prog _ Hi i) as (_ & _ & ?); [|done]. rewrite Hp. unfold idsOf. cbn. rewrite elem_of_app. by left.
  - destruct (opIDs o) as [|i [|]]; [constructor|apply NoDup_singleton|cbn in Hlen; lia].
Qed.
Lemma op_prog (w : world) o ops revoked wr c x i (ts : list nat) : mediated w -> w_prog w = o :: ops -> runOp l id revoked wr o (w_conn w) = (c, Went x) ->
  (forall j, j ∈ ts -> j ∈ tags w \/ (opGated o = true)) ->
  i ∈ idsOf ops -> Datatypes.S i = length (w_asked w) /\ (i ∉ ts) /\ (i ∉ touched c).
Proof.
  intros Hi Hp Ho Hts Hin. destruct (md_prog _ Hi i) as (Ha & Hb & Hc); [rewrite Hp; unfold idsOf; cbn; rewrite elem_of_app; by right|].
  pose proof (md_once_prog _ Hi) as Hon. rewrite Hp in Hon. destruct Hon as (_ & [Hn|[Hs Hg]] & _); [rewrite Hn in Hin; by apply elem_of_nil in Hin|].
  split_and!; [done|intros Hj; destruct (Hts _ Hj); [done|congruence]|]. intros Hj.
  destruct (elem_sub _ _ _ _ (runOp_touched _ _ _ _ _ _ _ _ Ho) Hj) as [?|Hz]; [done|]. rewrite Hs in Hz. by apply elem_of_nil in Hz.
Qed.

(** Redis took a command. *)
Lemma tags_delivered o r ran b (w : world) :
  tags (delivered o r ran b w) = tags w ++ match ran with [] => [] | _ => if opGated o then [pred (length (w_asked w))] else [] end.
Proof. unfold tags. cbn. rewrite omap_app. f_equal. destruct ran; [done|]. cbn. by destruct (opGated o). Qed.

(** What it knows of the unit. *)
Lemma send_leads (w : world) o ops revoked wr c args r ran b : mediated w -> w_life w = Serving -> w_prog w = o :: ops -> w_broken w = false ->
  runOp l id revoked wr o (w_conn w) = (c, Went (Some args)) -> srv_call (w_srv w) args r ran b ->
  upArgs o = Some args /\ exists K, freshBody w K /\ okSend K (srv_multi (w_srv w)) o /\ permits K o ran /\ leads (spend K o) (srv_multi r) ops (synced (w_cm w)).
Proof.
  intros Hi Hl Hp Hb Hr Hc. destruct (runOp_some _ _ _ _ _ _ _ _ Hr) as [Hu _]. split; [done|].
  destruct (md_leads _ Hi Hl Hb) as (K & HK & HL). rewrite Hp in HL. destruct HL as (Hok & HL & _).
  destruct (HL _ Hu) as [Hpt Hst]. destruct (Hst _ _ (sl_txn _ _ _ _ _ Hc Hpt)) as [Hpm HL']. by exists K.
Qed.
Lemma send_mediated (w : world) o ops revoked wr c args r ran b : mediated w -> w_life w = Serving -> w_prog w = o :: ops -> w_broken w = false ->
  runOp l id revoked wr o (w_conn w) = (c, Went (Some args)) -> srv_call (w_srv w) args r ran b ->
  mediated (delivered o r ran b (set_conn c (set_prog ops (set_due (w_due w ++ dueOf o) w)))).
Proof.
  intros Hi Hl Hp Hb Hr Hc. destruct (send_leads _ _ _ _ _ _ _ _ _ _ Hi Hl Hp Hb Hr Hc) as (Hu & K & HK & Hok & Hpm & HL').
  destruct (md_once _ Hi) as [Ho1 Ho2]. split; try apply Hi.
  - intros _ _. exists (spend K o). split; [|exact HL']. intros b' Hb'. unfold spend in Hb'.
    destruct (opGated o) eqn:Eo; [done|]. destruct (HK b' Hb') as (ak & E1 & E2 & E3 & E6 & E4 & E5). exists ak. split_and!; [done..| |].
    + rewrite tags_delivered. destruct ran; [|rewrite Eo]; cbn; by rewrite app_nil_r.
    + intros Hin. destruct (elem_sub _ _ _ _ (runOp_touched _ _ _ _ _ _ _ _ Hr) Hin) as [?|Hs]; [done|]. revert Hs. eapply slotIDs_plain; [done..|]. by rewrite Hu.
  - intros i. by apply (op_touched w o ops revoked wr c _ i Hi Hp Hr).
  - by apply (op_done w o ops revoked wr c _ Hi Hp Hr).
  - pose proof (md_once_prog _ Hi) as Hon. rewrite Hp in Hon. apply Hon.
  - pose proof (md_await _ Hi) as Haw. rewrite Hp in Haw. apply Haw.
  - intros i. refine (op_prog w o ops revoked wr c _ i _ Hi Hp Hr _). intros j. rewrite tags_delivered, elem_of_app. intros [?|Hj]; [by left|right].
    destruct ran; [by apply elem_of_nil in Hj|]. destruct (opGated o); [done|by apply elem_of_nil in Hj].
  - apply Forall_app. split; [apply Hi|]. destruct ran as [|a0 ran]; [by apply Forall_nil|]. apply Forall_singleton. unfold runOK. cbn [rn_unit rn_cmds].
    destruct Hpm as [?|[[-> Ha]|[-> HKe]]]; [done|done|]. destruct (HK _ HKe) as (ak & E1 & E2 & E3 & _ & E4 & _). exists ak.
    rewrite <- last_lookup. done.
  - rewrite tags_delivered. cbn [w_asked set_conn set_prog set_due]. destruct ran as [|a0 ran]; [by rewrite app_nil_r|]. destruct (opGated o) eqn:Eo; [|by rewrite app_nil_r].
    destruct Hpm as [?|[[? _]|[_ HKe]]]; [done|congruence|]. destruct (HK _ HKe) as (ak & E1 & _ & _ & _ & E4 & _).
    assert (length (w_asked w) <> 0)%nat as Hlen by (destruct (w_asked w); [done|cbn; lia]). split.
    + apply StronglySorted_app_2; [|done|by repeat constructor]. intros x y Hx Hy. apply list_elem_of_singleton in Hy as ->.
      rewrite Forall_forall in Ho2. specialize (Ho2 _ Hx). assert (x <> pred (length (w_asked w))) by (by intros ->). lia.
    + apply Forall_app. split; [done|]. apply Forall_singleton. cbn. lia.
Qed.

(** The connection changes, and touches no other decision. *)
Lemma conn_mediated (w w' : world) : mediated w -> touched (w_conn w') ⊆+ touched (w_conn w) ->
  w_cm w' = w_cm w -> w_asked w' = w_asked w -> w_ran w' = w_ran w -> w_srv w' = w_srv w ->
  (w_life w' = Serving -> w_broken w' = false -> w_prog w' = w_prog w /\ w_life w = Serving /\ w_broken w = false) ->
  (w_prog w' = w_prog w \/ w_prog w' = []) -> mediated w'.
Proof.
  intros Hi Hsub Ec Ea Er Es Hl Hpr. assert (forall i, i ∈ touched (w_conn w') -> i ∈ touched (w_conn w)) as Ht by (intros i Hin; by eapply elem_of_submseteq).
  split; rewrite ?Ec, ?Ea, ?Er, ?Es; try apply Hi.
  - intros Hl' Hb'. destruct (Hl Hl' Hb') as (-> & Hl0 & Hb0). destruct (md_leads _ Hi Hl0 Hb0) as (K & HK & HL). exists K. split; [|done].
    intros b Hb. destruct (HK b Hb) as (ak & E1 & E2 & E3 & E6 & E4 & E5). exists ak. unfold tags. rewrite Ea, Er, Ec. split_and!; [done..|]. auto.
  - intros i Hin. by apply (md_touched _ Hi), Ht.
  - eapply NoDup_sub; [exact Hsub|apply Hi].
  - destruct Hpr as [->| ->]; [apply Hi|done].
  - destruct Hpr as [->| ->]; [apply Hi|done].
  - intros i Hin. destruct Hpr as [Hpr|Hpr]; rewrite Hpr in Hin; [|by apply elem_of_nil in Hin]. destruct (md_prog _ Hi i Hin) as (? & ? & ?).
    unfold tags. rewrite Er. split_and!; [done..|]. auto.
  - unfold tags. rewrite Er. apply Hi.
Qed.

Lemma unsent_mediated (w : world) o ops revoked wr c : mediated w -> w_prog w = o :: ops -> runOp l id revoked wr o (w_conn w) = (c, Unsent) ->
  mediated (set_conn c (set_prog ops (set_due (w_due w ++ dueOf o) (set_broken true w)))).
Proof.
  intros Hi Hp Ho. assert (exists b, o = Answer b /\ touched c = touched (w_conn w)) as (b & -> & Ht).
  { destruct o as [|a s f|b|n|a|ud out|]; cbn in Ho; try done.
    - unfold forward in Ho. by destruct revoked; [destruct f|destruct (_ || _); [destruct f|]].
    - exists b. split; [done|]. unfold reply in Ho. destruct (co_up (w_conn w)); cbn in Ho; [|done]. destruct (_ =? 0); [destruct wr; [done|]|done].
      injection Ho as <-. unfold touched. cbn. rewrite !bind_app. cbn. by rewrite !app_nil_r.
    - by destruct (_ || _). }
  split; try apply Hi; try done; cbn; rewrite ?Ht; [apply Hi..| | |].
  - pose proof (md_once_prog _ Hi) as Hon. rewrite Hp in Hon. apply Hon.
  - pose proof (md_await _ Hi) as Haw. rewrite Hp in Haw. apply Haw.
  - intros i Hin. apply (md_prog _ Hi). by rewrite Hp.
Qed.

Lemma step_mediated (w w' : world) : step w w' -> mediated w -> mediated w'.
Proof.
  intros Hs Hi. destruct Hs as [e args cm a ops Hl Hp He Ha Hh|e args p u k d g tick pol Hl Hp He Ha Hh Hd|e args user pass k r Hl Hp He Ha Hh
    |o ops revoked wr c Hl Hp Hw Hb Ho|o ops revoked wr c args r ran b Hl Hp Hb Ho Hc|o ops revoked wr c Hl Hp Ho|o ops revoked wr c Hl Hp Hb Ho|o ops revoked wr c Hl Hp Hb Ho
    |n ops v Hl Hp Hg|Hl Hp|x pend c|x pend e c|c|Hl Hr|Hl|r Hm Hdb|g tick pol].
  - pose proof (handle_names e w args) as Hn. pose proof (handle_await e w args) as Haw. rewrite Hh in Hn, Haw. apply start_mediated; [done..| | |done|done].
    + intros m Hm. pose proof (handle_fine e w args m Hi Ha Hm) as Hf. by rewrite Hh in Hf.
    + pose proof (handle_login e w args Hi) as Hf. by rewrite Hh in Hf.
  - pose proof (handle_asks e w args) as Hask. rewrite Hh in Hask. destruct Hask as [Hrw Hdbu].
    pose proof (handle_await e w args) as Haw. pose proof (handle_db e w args) as Hdbc. rewrite Hh in Haw, Hdbc.
    assert (askOK (length (w_asked w)) (mkAsk e p u d)) as Hok.
    { split; [by eapply decideUnit_id|]. split; [done|]. intros Hdn. by eapply decideUnit_passes. }
    pose proof (handle_names e w args) as Hn. rewrite Hh in Hn. destruct (Hn d) as [Hn1 Hn2]. apply ask_mediated; [done..|by rewrite (Hdbc d)|apply Haw| | |done|done].
    + intros m Hm. pose proof (handle_fine e w args m Hi Ha Hm) as Hf. rewrite Hh in Hf. apply Hf. intros Hdn.
      destruct (proj2 (proj2 Hok) Hdn) as [E1 _ E2 _ _ _ (rc & E3 & E4)]. split_and!; [done|by apply E1|]. intros r0 Hr0. cbn in *.
      eapply receipts_are_scripts. rewrite E3, <- E4. by rewrite Hr0.
    + pose proof (handle_login e w args Hi) as Hf. rewrite Hh in Hf. apply Hf.
  - pose proof (handle_names e w args) as Hn. pose proof (handle_await e w args) as Haw. rewrite Hh in Hn, Haw. apply start_mediated; [done..| | |apply Hn|apply Haw].
    + intros m Hm. pose proof (handle_fine e w args m Hi Ha Hm) as Hf. rewrite Hh in Hf. apply Hf.
    + pose proof (handle_login e w args Hi) as Hf. rewrite Hh in Hf. apply Hf.
  - pose proof (runOp_touched _ _ _ _ _ _ _ _ Ho) as Ht. split; try apply Hi; cycle 1.
    { intros i. by apply (op_touched w o ops revoked wr c _ i Hi Hp Ho). }
    { by apply (op_done w o ops revoked wr c _ Hi Hp Ho). }
    { pose proof (md_once_prog _ Hi) as Hon. rewrite Hp in Hon. apply Hon. }
    { pose proof (md_await _ Hi) as Haw. rewrite Hp in Haw. apply Haw. }
    { intros i. refine (op_prog w o ops revoked wr c _ i _ Hi Hp Ho _). by left. }
    intros _ Eb.
    apply runOp_none in Ho. destruct (md_leads _ Hi Hl Eb) as (K & HK & HL). rewrite Hp in HL. destruct HL as (Hok & _ & HL). exists K. split; [|by apply HL].
    intros b HKb. destruct (HK b HKb) as (ak & E1 & E2 & E3 & E6 & E4 & E5). exists ak. split_and!; [done..|]. intros Hin.
    destruct (elem_sub _ _ _ _ Ht Hin) as [?|Hs]; [done|]. destruct o; try (by apply elem_of_nil in Hs); [done|]. cbn in Hok. congruence.
  - eapply send_mediated; try done. apply runOp_some in Ho as [_ ->]. destruct (w_broken w); [by specialize (Hb eq_refl)|done].
  - apply (unsent_mediated w o ops revoked wr c); done.
  - split; try apply Hi; try done; [| |by intros i ?%elem_of_nil]; [intros i; by apply (op_touched w o ops revoked wr c _ i Hi Hp Ho)|].
    by apply (op_done w o ops revoked wr c _ Hi Hp Ho).
  - split; try apply Hi; try done; [| |by intros i ?%elem_of_nil]; [intros i; by apply (op_touched w o ops revoked wr c _ i Hi Hp Ho)|].
    by apply (op_done w o ops revoked wr c _ Hi Hp Ho).
  - pose proof (md_await _ Hi) as Haw. rewrite Hp in Haw. destruct Haw as [Haw _]. specialize (Haw eq_refl). subst ops.
    assert (forall cm, cm_subscribed cm = cm_subscribed (w_cm w) -> cm_principal cm = cm_principal (w_cm w) -> cm_txn cm = cm_txn (w_cm w) ->
      mediated (set_prog [] (set_conn (setGot None (w_conn w)) (set_cm cm w)))) as Hcm.
    { intros cm E1 E2 E3. split; try apply Hi; try done; cbn; rewrite ?E1, ?E2, ?E3; try apply Hi; [|by intros i ?%elem_of_nil].
      intros _ Eb. destruct (md_leads _ Hi Hl Eb) as (K & _ & HL). rewrite Hp in HL. exists None. split; [done|]. cbn in HL |- *. unfold synced. rewrite E3. by apply HL. }
    apply Hcm; by destruct (VType v =? "+")%char.
  - split; try apply Hi; try done. by intros i ?%elem_of_nil.
  - eapply conn_mediated; [exact Hi|..]; try done; [|by left]. by eapply frame_touched.
  - eapply conn_mediated; [exact Hi|..]; try done; [|by left]. by eapply frame_touched.
  - eapply conn_mediated; [exact Hi|..]; try done; [|by left]. by eapply synth_touched.
  - eapply conn_mediated; [exact Hi|..]; try done. by left.
  - eapply conn_mediated; [exact Hi|..]; try done; [|by left]. apply retire_touched.
  - split; try apply Hi. cbn. rewrite Hm. apply Hi.
  - eapply conn_mediated; [exact Hi|..]; try done. by left.
Qed.
End inv.
