(* ===== verification/ConnReplies.v ===== *)
(** * Replies of a connection

    Every reply of Redis meets the slot of its command: the queue and the
    replies under way stay in step.  So the client gets the replies of its
    commands in their order, the outcomes reported to Done are true, and the
    database the proxy decides for is the one Redis is in. *)

From S2P Require Import Prelude GoLib Resp Classify ClassifyFacts Policy Stores Guard GuardScope GuardCheck GuardFrames GuardFacts Decide Accounting Conn ConnDecide ConnWorld ConnFacts ConnInv.

(** ** The operations of a handler *)
(** Forwarded slots are of forwarded commands, outside pub/sub; [visible]: the
    replies the client will see. *)
Definition okOp (o : op) : bool :=
  match o with Forward _ s _ => negb (isSynth s) && negb (s_toRaw s) | WriteNoSlot _ => false | _ => true end.
Definition visible (o : op) : nat := match o with Forward _ s _ => if s_drop s then 0 else 1 | Answer _ => 1 | _ => 0 end.
Definition visibles (ops : list op) : nat := sum_list_with visible ops.
(** One reply for the command, last of all but a wait or the end. *)
Definition tidy (ops : list op) : Prop := forallb okOp ops = true /\ visibles ops = 1%nat.

Lemma tidy_ensure up dialed f rest : tidy rest -> tidy (ensureUpstream up dialed f rest).
Proof. intros [H1 H2]. unfold ensureUpstream. destruct up; [done|]. destruct dialed; [|done]. split; cbn; [by rewrite H1|]. exact H2. Qed.
Lemma tidy_auth e up f c a args : actionAll (fun _ => tidy) (auth e up f c a args).
Proof.
  unfold auth. destruct args as [|x [|y [|z [|]]]]; try done; intros [|p dialed]; cbn [fst snd]; try done; by apply tidy_ensure.
Qed.
Lemma tidy_helloEnd e up dialed f ver p c a : tidy (snd (helloEnd e up dialed f ver p c a)).
Proof. unfold helloEnd. destruct (ver =s ""); by apply tidy_ensure. Qed.
Lemma tidy_hello e up f c a args : actionAll (fun _ => tidy) (hello e up f c a args).
Proof.
  unfold hello. destruct (_ && _ && _); [done|]. destruct (helloOpts _ _) as [[[user pass]|]|r]; [| |done].
  - intros [|p dialed]; [done|apply tidy_helloEnd].
  - destruct (cm_principal c) as [p|]; [|done]. pose proof (tidy_helloEnd e up true f (default "" (args !! 1%nat)) p c a) as Hn.
    by destruct (helloEnd _ _ _ _ _ _ _ _) as [[c' a'] ops].
Qed.
Lemma tidy_preAuth e c a args : actionAll (fun _ => tidy) (preAuth e c a args).
Proof.
  unfold preAuth. destruct (Classify args) as [info|]; [|done]. destruct (_ =s "AUTH"); [apply tidy_auth|].
  destruct (_ =s "HELLO"); [apply tidy_hello|]. by destruct (_ =s "QUIT").
Qed.
Lemma tidy_admit p d : tidy (admitTxn p d).
Proof.
  unfold admitTxn. split.
  - rewrite !forallb_app, !andb_true_iff. split_and!; [|by destruct (dc_receipt d)|done]. by induction (usedIDs d).
  - unfold visibles. rewrite !sum_list_with_app. cbn. induction (usedIDs d) as [|i ids IH]; [by destruct (dc_receipt d)|exact IH].
Qed.
Lemma tidy_refused e d ops : tidy ops -> tidy (reportRefused e d ++ ops).
Proof. unfold reportRefused. by destruct (dc_verdictDone d). Qed.
Lemma tidy_command e p c a args : clientOK args -> cm_subscribed c = false -> actionAll (fun _ => tidy) (command e p c a args).
Proof.
  intros Hok Hs. unfold command. destruct (Classify args) as [info|] eqn:Hc; [|done]. rewrite Hs. destruct (Hok _ Hc) as (Hps & _).
  destruct (cm_txn c) as [t|].
  { unfold inTxn, exec. all_tac. intros d. cbn [fst snd]. destruct (dc_deny d); [by apply tidy_refused|apply tidy_admit]. }
  unfold bare. destruct (_ =s "AUTH"); [apply tidy_auth|]. destruct (_ =s "HELLO"); [apply tidy_hello|].
  unfold selectDB, byClass. destruct (CClass info) eqn:Ecl; try done; unfold gateBare; all_tac.
  all: intros d; cbn [fst snd]; destruct (dc_deny d); [by apply tidy_refused|done].
Qed.

(** Nothing is forwarded before the upstream is there. *)
Fixpoint boots (ops : list op) (login : Prop) : Prop :=
  match ops with
  | [] => login
  | (StartUpstream | CloseConn) :: _ => True
  | (Forward _ _ _ | WriteNoSlot _) :: _ => False
  | _ :: ops => boots ops login
  end.
Lemma boots_preAuth e c a args : cm_principal c = None -> actionAll (fun c' ops => boots ops (cm_principal c' = None)) (preAuth e c a args).
Proof.
  intros Hp. unfold preAuth. destruct (Classify args) as [info|]; [|done]. destruct (_ =s "AUTH").
  { unfold auth. destruct args as [|x [|y [|z [|]]]]; try done; intros [|p [|]]; done. }
  destruct (_ =s "HELLO"); [|by destruct (_ =s "QUIT")].
  unfold hello. destruct (_ && _ && _); [done|]. destruct (helloOpts _ _) as [[[user pass]|]|r]; [| |done].
  - intros [|p [|]]; [done|..]; unfold helloEnd; by destruct (_ =s "").
  - by rewrite Hp.
Qed.

(** ** One reply meets its slot *)
Section frames.
Context {S T : Type} `{SessionStore S} `{SliceStore T}.
Context (l : pending) (id : Z).

(** The calls of Done of a slot. *)
Definition doneCalls (s : slot) (o : Outcome) : list (nat * Outcome) :=
  match s_done s with Some ud => if ud_verdict ud then [(ud_id ud, o)] else [] | None => [] end.
Definition gotBy (s : slot) (v : Value) (old : option Value) : option Value :=
  if Nat.ltb 0 (s_strip s) || bool_decide (is_Some (s_onExec s)) then old
  else match s_hook s with Some HSelect => Some v | _ => old end.

(** What the queue's invariants see of a connection. *)
Definition VC (c : conn S T) : replyQ * bool * list string * list (nat * Outcome) * option Value :=
  (co_rq c, co_up c, co_out c, m_reports (co_mem c), co_got c).

Lemma VC_onExec x v (c : conn S T) : VC (runOnExec x v c) = VC c.
Proof.
  destruct x as [[p decs]|]; [|done]. cbn. destruct (_ || _); [done|]. revert c. induction decs as [|d decs IH]; intros c; [done|]. cbn.
  rewrite IH. destruct (VElems v !! fst d) as [y|]; [|done]. by destruct (_ && _).
Qed.
Lemma VC_hook h v (c : conn S T) : VC (runHook h v c) =
  (co_rq c, co_up c, co_out c, m_reports (co_mem c), match h with HSelect => Some v | _ => co_got c end).
Proof. destruct h; cbn; try done; by destruct (_ && _) || destruct (isInt v). Qed.
Lemma VC_done s o (c : conn S T) : VC (runDoneOf s o c) = (co_rq c, co_up c, co_out c, m_reports (co_mem c) ++ doneCalls s o, co_got c).
Proof.
  unfold runDoneOf, doneCalls. destruct (s_done s) as [ud|]; [|by rewrite app_nil_r]. unfold VC. cbn. destruct (ud_verdict ud); [done|by rewrite app_nil_r].
Qed.

Lemma copy_frame b info v : frameOf b info v -> copy b = Ok (info, b, "") /\ tee b = Ok (info, v, b, "").
Proof. intros (H1 & H2 & _). unfold tee, copy. rewrite H1. cbn [mbind result_bind]. by rewrite H2. Qed.

Lemma answer_frame s b info v (c : conn S T) : frameOf b info v -> exists c1 x, answer s b c = (x, c1) /\
  match x with
  | Ok y => y = (info, clientView s b, "") /\ VC c1 = (co_rq c, co_up c, co_out c, m_reports (co_mem c), gotBy s v (co_got c))
  | Err e => e <> FDesync /\ VC c1 = VC c
  end.
Proof.
  intros Hf. destruct (copy_frame _ _ _ Hf) as [Hc Ht]. destruct Hf as (_ & Hv & _). unfold answer, clientView, gotBy. rewrite Ht, Hc, Hv.
  destruct (_ || _).
  - destruct (execOK s v); cbn [negb]; [|by eexists _, _]. eexists _, _. split; [reflexivity|].
    destruct (stripped s v b); (split; [done|]); by rewrite VC_onExec.
  - destruct (s_hook s) as [h|]; eexists _, _; (split; [reflexivity|]); (split; [done|]); [|done]. rewrite VC_hook. by destruct h.
Qed.

Lemma frame_pops s q b info v (c : conn S T) : frameOf b info v -> rq_raw (co_rq c) = false -> rq_q (co_rq c) = s :: q ->
  isSynth s = false -> s_toRaw s = false -> exists c1 x, frame l id b c = (x, c1) /\
  match x with
  | Ok rest => rest = "" /\ VC c1 = (popFwd l q (co_rq c), co_up c, co_out c ++ (if s_drop s then [] else [clientView s b]),
      m_reports (co_mem c) ++ doneCalls s (mkOutcome true (committed s info) false id), gotBy s v (co_got c))
  | Err e => e <> FDesync /\ VC c1 = (popFwd l q (co_rq c), co_up c, co_out c,
      m_reports (co_mem c) ++ doneCalls s (mkOutcome true false true id), co_got c)
  end.
Proof.
  intros Hf Hr Hq Hs Ht. pose proof Hf as (_ & _ & t & r & -> & Hn). unfold frame. rewrite Hr. destruct (Ascii.eqb_spec t ">"); [done|].
  rewrite Hq, Hs, Ht. set (c0 := setRQ (popFwd l q (co_rq c)) c).
  destruct (answer_frame s _ _ _ c0 Hf) as (c1 & x & -> & Hx). destruct x as [[[info' b'] rest]|e].
  - destruct Hx as [[= -> -> ->] HV]. eexists _, _. split; [reflexivity|]. split; [done|].
    assert (VC (if s_drop s then c1 else write (clientView s (String t r)) c1) =
      (popFwd l q (co_rq c), co_up c, co_out c ++ (if s_drop s then [] else [clientView s (String t r)]), m_reports (co_mem c), gotBy s v (co_got c))) as HV'.
    { unfold VC in HV. injection HV as E1 E2 E3 E4 E5. destruct (s_drop s); unfold VC; cbn; rewrite E1, E2, E3, E4, E5; [by rewrite app_nil_r|done]. }
    rewrite VC_done. unfold VC in HV'. by injection HV' as -> -> -> -> ->.
  - destruct Hx as [He HV]. eexists _, _. split; [reflexivity|]. split; [done|]. rewrite VC_done. unfold VC in HV. by injection HV as -> -> -> -> ->.
Qed.
End frames.

(** ** What an operation tells the policy *)
Definition tells (d : decision) (o : op) : Prop :=
  match o with
  | Forward _ s _ => is_Some (s_done s) -> dc_deny d = None /\ (s_exec s = false -> UKind (dc_unit d) = UnitBare)
  | Report _ out => Forwarded out = false /\ Committed out = false
  | _ => True
  end.
Definition tellsAction (x : action) : Prop :=
  match x with
  | AskPolicy p u k => forall d, (dc_deny d = None -> UKind (dc_unit d) = UKind u) -> Forall (tells d) (snd (k d))
  | _ => True
  end.
Ltac tells_tac :=
  repeat (match goal with
          | |- tellsAction (if ?b then _ else _) => destruct b
          | |- tellsAction (match ?x with _ => _ end) => destruct x
          | |- context [let '(_, _) := ?x in _] => destruct x eqn:?
          end; try done).
Lemma tells_refused e d ops : Forall (tells d) ops -> Forall (tells d) (reportRefused e d ++ ops).
Proof. unfold reportRefused. destruct (dc_verdictDone d); [|done]. intros Ho. by apply Forall_cons. Qed.
Lemma tells_command e p c a args : tellsAction (command e p c a args).
Proof.
  unfold command. destruct (Classify args) as [info|]; [|done]. destruct (cm_subscribed c); [done|]. destruct (cm_txn c) as [t|].
  { unfold inTxn, exec. tells_tac. intros d _. cbn [snd]. destruct (dc_deny d) eqn:Ed; [apply tells_refused, Forall_cons; split; [by intros [? ?]|by repeat constructor]|].
    unfold admitTxn. rewrite !Forall_app. split_and!.
    - apply Forall_fmap, Forall_true. intros i. by intros [? ?].
    - destruct (dc_receipt d); [|done]. apply Forall_singleton. by intros [? ?].
    - apply Forall_singleton. by intros _. }
  unfold bare, auth, hello, selectDB, byClass, gateBare, subscribe. tells_tac.
  all: intros d Hk; cbn [snd]; destruct (dc_deny d) eqn:Ed; [apply tells_refused; by repeat constructor|].
  all: apply Forall_singleton; intros _; split; [done|]; intros _; by apply Hk.
Qed.
Lemma tells_preAuth e c a args : tellsAction (preAuth e c a args).
Proof. unfold preAuth, auth, hello. tells_tac. Qed.

(** ** The queue and the replies under way *)
Definition fwds (q : list slot) : list slot := List.filter (fun s => negb (isSynth s)) q.
Lemma fwds_app q1 q2 : fwds (q1 ++ q2) = fwds q1 ++ fwds q2.
Proof. apply List.filter_app. Qed.
Lemma fwds_fwd s q : isSynth s = false -> fwds (s :: q) = s :: fwds q.
Proof. unfold fwds. cbn. by intros ->. Qed.
Lemma fwds_synth s q : isSynth s = true -> fwds (s :: q) = fwds q.
Proof. unfold fwds. cbn. by intros ->. Qed.

Record queueOK (r : replyQ) : Prop := {
  qo_raw : rq_raw r = false;
  qo_fwd : rq_fwd r = Z.of_nat (length (fwds (rq_q r)));
  qo_plain : Forall (fun s => s_toRaw s = false /\ (isSynth s = true -> s_done s = None)) (rq_q r);
}.
Lemma queueOK_fwd l s r : queueOK r -> isSynth s = false -> s_toRaw s = false -> queueOK (pushFwd l s r).
Proof.
  intros [H1 H2 H3] Hs Ht. split; cbn; [done| |].
  - rewrite fwds_app, fwds_fwd by done. rewrite length_app. cbn [length fwds List.filter]. lia.
  - apply Forall_app. split; [done|]. apply Forall_singleton. split; [done|congruence].
Qed.
Lemma queueOK_synth l b r : queueOK r -> queueOK (pushSynth l b r).
Proof.
  intros [H1 H2 H3]. split; cbn; [done| |].
  - rewrite fwds_app, fwds_synth by done. by rewrite app_nil_r.
  - apply Forall_app. split; [done|by apply Forall_singleton].
Qed.
Lemma queueOK_popFwd l s q r : queueOK r -> rq_q r = s :: q -> isSynth s = false -> queueOK (popFwd l q r).
Proof.
  intros [H1 H2 H3] Hq Hs. rewrite Hq in *. rewrite fwds_fwd in H2 by done. cbn [length] in H2. apply Forall_cons in H3 as [_ H3].
  split; [done| |done]. unfold popFwd, account. cbn [rq_fwd rq_q]. lia.
Qed.
Lemma queueOK_popSynth l b s q r : queueOK r -> rq_q r = s :: q -> isSynth s = true -> queueOK (popSynth l b q r).
Proof.
  intros [H1 H2 H3] Hq Hs. rewrite Hq in *. rewrite fwds_synth in H2 by done. apply Forall_cons in H3 as [_ H3]. by split.
Qed.

(** The replies due for a queue. *)
Fixpoint dueQ (q : list slot) (pend : list pendReply) : list string :=
  match q with
  | [] => []
  | s :: q =>
      match s_synth s, pend with
      | Some b, _ => b :: dueQ q pend
      | None, x :: pend => (if s_drop s then [] else [clientView s (pe_reply x)]) ++ dueQ q pend
      | None, [] => []
      end
  end.
Lemma dueQ_app q q' pend pend' : length (fwds q) = length pend -> dueQ (q ++ q') (pend ++ pend') = dueQ q pend ++ dueQ q' pend'.
Proof.
  revert pend. induction q as [|s q IH]; intros pend Hl; cbn; [by destruct pend|]. unfold fwds, isSynth in Hl. cbn in Hl.
  destruct (s_synth s) as [b|]; cbn in Hl; [by rewrite IH|]. destruct pend as [|x pend]; [done|]. cbn in *. rewrite IH by (unfold fwds, isSynth; lia).
  by rewrite <- app_assoc.
Qed.
Lemma dueQ_short q q' pend : (length pend < length (fwds q))%nat -> dueQ (q ++ q') pend = dueQ q pend.
Proof.
  revert pend. induction q as [|s q IH]; intros pend Hl; cbn; [cbn in Hl; lia|]. unfold fwds, isSynth in Hl. cbn in Hl.
  destruct (s_synth s) as [b|]; cbn in Hl; [by rewrite IH|]. destruct pend as [|x pend]; [done|]. cbn in Hl. rewrite IH; [done|]. unfold fwds, isSynth. lia.
Qed.

Definition view (s : slot) (x : pendReply) : list string := if s_drop s then [] else [clientView s (pe_reply x)].
Lemma dueQ_fwd s q x pend : isSynth s = false -> dueQ (s :: q) (x :: pend) = view s x ++ dueQ q pend.
Proof. unfold isSynth. cbn. by destruct (s_synth s). Qed.

(** Queue, replies under way, what the client got and what it is due, for any
    relation [F] of slots and their replies.  [broken]: slots at the end have
    no reply coming. *)
Section lined.
Context (l : pending) (F : slot -> pendReply -> Prop).
Record lined (r : replyQ) (pend : list pendReply) (out due : list string) (pc : replyPC) (broken : bool) : Prop := {
  ln_queue : queueOK r;
  ln_pairs : exists sent tail, fwds (rq_q r) = sent ++ tail /\ Forall2 F sent pend /\ (broken = false -> tail = []);
  ln_head : pc = RIdle -> forall s, head (rq_q r) = Some s -> isSynth s = false;
  ln_out : out `prefix_of` due;
  ln_due : pc <> RDead -> out ++ dueQ (rq_q r) pend `prefix_of` due /\
    (length (fwds (rq_q r)) = length pend -> due = out ++ dueQ (rq_q r) pend);
}.
Context (r : replyQ) (pend : list pendReply) (out due : list string) (pc : replyPC).

Lemma lined_le broken : lined r pend out due pc broken -> (length pend <= length (fwds (rq_q r)))%nat.
Proof. intros [_ (sent & tail & -> & Hf & _) _ _ _]. rewrite length_app, (Forall2_length _ _ _ Hf). lia. Qed.
Lemma lined_full : lined r pend out due pc false -> length (fwds (rq_q r)) = length pend.
Proof. intros [_ (sent & tail & -> & Hf & ->) _ _ _]; [|done]. by rewrite app_nil_r, (Forall2_length _ _ _ Hf). Qed.
Lemma lined_break broken : lined r pend out due pc broken -> lined r pend out due pc true.
Proof. intros [H1 (sent & tail & E1 & E2 & _) H3 H4 H5]. split; try done. by exists sent, tail. Qed.
Lemma head_push q (s t : slot) : isSynth t = false -> (forall s, head q = Some s -> isSynth s = false) -> head (q ++ [t]) = Some s -> isSynth s = false.
Proof. intros Ht Hq. destruct q as [|x q]; cbn; [by intros [= <-]|]. exact (Hq s). Qed.

Lemma lined_push s x : isSynth s = false -> s_toRaw s = false -> F s x -> lined r pend out due pc false ->
  lined (pushFwd l s r) (pend ++ [x]) out (due ++ view s x) pc false.
Proof.
  intros Hs Ht HF Hl. pose proof (lined_full Hl) as Hfull. destruct Hl as [H1 (sent & tail & E1 & E2 & E3) H3 H4 H5]. split.
  - by apply queueOK_fwd.
  - exists (sent ++ [s]), []. cbn. rewrite fwds_app, E1, (E3 eq_refl), fwds_fwd by done. split_and!; [by rewrite !app_nil_r| |done]. apply Forall2_app; [done|by constructor].
  - intros Hp y. eapply head_push; [done|by apply H3].
  - etrans; [exact H4|]. by eexists.
  - intros Hp. cbn. rewrite dueQ_app, dueQ_fwd by done. rewrite (proj2 (H5 Hp) Hfull). cbn. rewrite app_nil_r, (assoc_L (++)). done.
Qed.
Lemma lined_unsent s broken : isSynth s = false -> s_toRaw s = false -> lined r pend out due pc broken -> lined (pushFwd l s r) pend out due pc true.
Proof.
  intros Hs Ht Hl. pose proof (lined_le _ Hl) as Hle. destruct Hl as [H1 (sent & tail & E1 & E2 & E3) H3 H4 H5].
  assert (dueQ (rq_q r ++ [s]) pend = dueQ (rq_q r) pend) as Hd.
  { destruct (decide (length pend = length (fwds (rq_q r)))) as [He|Hne]; [|apply dueQ_short; lia].
    rewrite <- (app_nil_r pend) at 1. rewrite dueQ_app by done. cbn. unfold isSynth in Hs. destruct (s_synth s); [done|]. by rewrite app_nil_r. }
  split.
  - by apply queueOK_fwd.
  - exists sent, (tail ++ [s]). cbn. rewrite fwds_app, E1, fwds_fwd by done. by rewrite (assoc_L (++)).
  - intros Hp y. eapply head_push; [done|by apply H3].
  - done.
  - intros Hp. cbn. rewrite Hd. split; [by apply H5|]. rewrite fwds_app, length_app, fwds_fwd by done. cbn. lia.
Qed.
Lemma lined_synth b broken : rq_fwd r <> 0 -> lined r pend out due pc broken -> lined (pushSynth l b r) pend out (due ++ [b]) pc broken.
Proof.
  intros Hn Hl. pose proof (lined_le _ Hl) as Hle. destruct Hl as [H1 (sent & tail & E1 & E2 & E3) H3 H4 H5].
  assert (fwds (rq_q r ++ [synthSlot b]) = fwds (rq_q r)) as Hfw by (rewrite fwds_app, fwds_synth by done; apply app_nil_r).
  split.
  - by apply queueOK_synth.
  - exists sent, tail. change (rq_q (pushSynth l b r)) with (rq_q r ++ [synthSlot b]). by rewrite Hfw.
  - intros Hp s Hh. destruct (rq_q r) as [|s0 q] eqn:Eq; [destruct H1 as [_ H1 _]; rewrite Eq in H1; done|]. cbn in Hh. rewrite Eq in Hh. by apply H3.
  - etrans; [exact H4|]. by eexists.
  - intros Hp. change (rq_q (pushSynth l b r)) with (rq_q r ++ [synthSlot b]). rewrite Hfw. destruct (H5 Hp) as [H6 H7]. destruct (decide (length (fwds (rq_q r)) = length pend)) as [He|Hne].
    + rewrite <- (app_nil_r pend), dueQ_app, app_nil_r by (by rewrite ?app_nil_r). rewrite (H7 He). cbn. by rewrite (assoc_L (++)).
    + rewrite dueQ_short by lia. split; [|done]. etrans; [exact H6|]. by eexists.
Qed.
Lemma lined_write b broken : rq_q r = [] -> pend = [] -> pc = RIdle -> lined r pend out due pc broken ->
  lined r pend (out ++ [b]) (due ++ [b]) pc broken.
Proof.
  intros Hq -> -> [H1 H2 H3 H4 H5]. destruct (H5 ltac:(done)) as [_ H6]. rewrite Hq in H6. specialize (H6 eq_refl). cbn in H6. rewrite app_nil_r in H6. subst due.
  split; try done. intros _. rewrite Hq. cbn. rewrite app_nil_r. done.
Qed.

(** The head of the queue meets the first reply. *)
Lemma lined_meets s q x pend' broken : rq_q r = s :: q -> isSynth s = false -> pend = x :: pend' -> lined r pend out due pc broken ->
  F s x /\ (pc <> RDead -> lined (popFwd l q r) pend' (out ++ view s x) due RDrain broken) /\ lined (popFwd l q r) pend' out due RDead broken.
Proof.
  intros Hq Hs -> [H1 (sent & tail & E1 & E2 & E3) H3 H4 H5]. rewrite Hq, fwds_fwd in E1 by done.
  apply Forall2_cons_inv_r in E2 as (s' & sent' & HF & E2 & ->). injection E1 as <- E1.
  assert (queueOK (popFwd l q r)) as HQ by (by eapply queueOK_popFwd). split; [done|]. rewrite Hq, dueQ_fwd, fwds_fwd in H5 by done. split.
  - intros Hp. destruct (H5 Hp) as [H6 H7]. rewrite (assoc_L (++)) in H6, H7. split; [done|by exists sent', tail|done| |].
    + etrans; [|exact H6]. by eexists.
    + intros _. split; [done|]. cbn in H7 |- *. intros He. apply H7. by f_equal.
  - by split; [|exists sent', tail|..].
Qed.
Lemma lined_popSynth s q b broken : rq_q r = s :: q -> s_synth s = Some b -> pc = RDrain -> lined r pend out due pc broken ->
  lined (popSynth l b q r) pend (out ++ [b]) due RDrain broken.
Proof.
  intros Hq Hs -> [H1 (sent & tail & E1 & E2 & E3) H3 H4 H5]. assert (isSynth s = true) as Hi by (unfold isSynth; by rewrite Hs).
  rewrite Hq, fwds_synth in E1 by done. rewrite Hq, fwds_synth in H5 by done. cbn in H5. rewrite Hs in H5. destruct (H5 ltac:(done)) as [H6 H7].
  rewrite cons_middle, (assoc_L (++)) in H6, H7. split; [by eapply queueOK_popSynth|by exists sent, tail|done| |done].
  etrans; [|exact H6]. by eexists.
Qed.
Lemma lined_idle broken : (forall s, head (rq_q r) = Some s -> isSynth s = false) -> pc = RDrain -> lined r pend out due pc broken ->
  lined r pend out due RIdle broken.
Proof. intros Hh -> [H1 H2 H3 H4 H5]. split; try done. intros _. by apply H5. Qed.
End lined.

Lemma lined_mono (F F' : slot -> pendReply -> Prop) r pend out due pc broken :
  (forall s x, s ∈ rq_q r -> F s x -> F' s x) -> lined F r pend out due pc broken -> lined F' r pend out due pc broken.
Proof.
  intros Hm [H1 (sent & tail & E1 & E2 & E3) H3 H4 H5]. split; try done. exists sent, tail. split_and!; [done| |done].
  assert (forall s, s ∈ sent -> s ∈ rq_q r) as Hin.
  { intros s Hs. assert (s ∈ fwds (rq_q r)) as Hf by (rewrite E1, elem_of_app; by left). apply list_elem_of_In, filter_In in Hf as [Hf _]. by apply list_elem_of_In. }
  clear -Hm E2 Hin. induction E2 as [|s x sent pend' HF E2 IH]; constructor; [apply Hm; [apply Hin; left|done]|]. apply IH. intros y Hy. apply Hin. by right.
Qed.

(** What an operation does to the queue. *)
Section effects.
Context {S T : Type} `{SessionStore S} `{SliceStore T}.
Context (l : pending) (id : Z).
Definition sameQ (c c' : conn S T) : Prop := co_rq c' = co_rq c /\ co_up c' = co_up c /\ co_out c' = co_out c.
Definition effect (c : conn S T) (o : op) (c' : conn S T) (x : opResult) : Prop :=
  match o with
  | StartUpstream => co_rq c' = co_rq c /\ co_up c' = true /\ co_out c' = co_out c /\ x = Went None
  | Forward a s f =>
      (co_up c' = co_up c /\ co_out c' = co_out c /\ co_rq c' = pushFwd l s (co_rq c) /\ (x = Went (Some a) \/ x = Stop \/ x = Skip)) \/
      (sameQ c c' /\ (x = Stop \/ x = Skip))
  | Answer b =>
      (co_up c = false /\ co_up c' = false /\ co_rq c' = co_rq c /\ co_out c' = co_out c ++ [b] /\ x = Went None) \/
      (co_up c = true /\ co_up c' = true /\ co_out c' = co_out c /\
       ((rq_fwd (co_rq c) = 0 /\ co_rq c' = pushSynth l b (pushFwd l dropSlot (co_rq c)) /\ (x = Went (Some ["PING"]) \/ x = Unsent)) \/
        (rq_fwd (co_rq c) <> 0 /\ co_rq c' = pushSynth l b (co_rq c) /\ x = Went None)))
  | AwaitSelect _ | Report _ _ => sameQ c c' /\ x = Went None
  | WriteNoSlot _ => False
  | CloseConn => sameQ c c' /\ x = Stop
  end.

Lemma failed_effect f (c c' : conn S T) x : failed_ id f c = (c', x) -> sameQ c c' /\ (x = Stop \/ x = Skip).
Proof. unfold sameQ. destruct f; intros [= <- <-]; auto. Qed.
Lemma runOp_effect revoked wr o (c c' : conn S T) x : runOp l id revoked wr o c = (c', x) -> okOp o = true -> effect c o c' x.
Proof.
  intros Hr Hok. destruct o as [|a s f|b|n|a|ud out|]; cbn in Hr |- *; try done; try (by injection Hr as <- <-).
  - unfold forward in Hr. destruct revoked.
    { right. apply failed_effect in Hr as [(E1 & E2 & E3) Hx]. split; [|done]. unfold sameQ. rewrite E1, E2, E3. unfold runDoneOf. by destruct (s_done s). }
    left. destruct (_ || _); [apply failed_effect in Hr as [(-> & -> & ->) Hx]; tauto|]. injection Hr as <- <-. auto.
  - unfold reply in Hr. destruct (co_up c) eqn:Eu; cbn in Hr; [right|left; by injection Hr as <- <-].
    destruct (Z.eqb_spec (rq_fwd (co_rq c)) 0); injection Hr as <- <-; (split_and!; [done..|]); [left|right; by auto]. destruct wr; auto.
Qed.
Lemma runOp_got revoked wr o (c c' : conn S T) x : runOp l id revoked wr o c = (c', x) -> co_got c' = co_got c.
Proof.
  assert (forall f (c0 c1 : conn S T) y, failed_ id f c0 = (c1, y) -> co_got c1 = co_got c0) as Hf by (by intros [| |ud] c0 c1 y [= <- _]).
  intros Hr. destruct o as [|a s f|b|n|a|ud out|]; cbn in Hr; try (by injection Hr as <- _).
  - unfold forward in Hr. destruct revoked; [rewrite (Hf _ _ _ _ Hr); unfold runDoneOf; by destruct (s_done s)|].
    destruct (_ || _); [by rewrite (Hf _ _ _ _ Hr)|by injection Hr as <- _].
  - unfold reply in Hr. destruct (co_up c); cbn in Hr; [|by injection Hr as <- _]. by destruct (_ =? 0); injection Hr as <- _.
Qed.
End effects.
