(* ===== verification/ConnOrder.v ===== *)
(** * Replies in order, outcomes told truly

    The queue of slots and the replies of Redis under way stay in step; on
    that rest the order of the client's replies and the truth of the outcomes
    reported to Done. *)

From S2P Require Import Prelude GoLib Resp Classify ClassifyFacts Policy Stores Guard GuardScope GuardCheck GuardFrames GuardFacts Decide Accounting Conn ConnDecide ConnWorld ConnFacts ConnInv ConnReplies.

Section inv.
Context {R S T P : Type} `{Server R} `{!ServerLaws R} `{SessionStore S} `{SliceStore T} `{Policy P}.
Context (l : pending) (id : Z).
Context (perm : forall A : Type, list A -> list A) (clock : nat -> Z).
Context (checkReplacements : nat -> Unit -> option Denial * option (list string)) (auditStart : nat -> Unit -> bool -> option Denial * bool).
Hypothesis receipts_are_scripts : forall i u r, checkReplacements i u = (None, Some r) -> redisName r = "EVAL".
Abbreviation world := (world R S T P).
Abbreviation step := (cstep (R := R) (S := S) (T := T) (P := P) l id clientOK perm clock checkReplacements auditStart).
Abbreviation mediated := (mediated (R := R) (S := S) (T := T) (P := P) checkReplacements).

(** ** A slot and its reply *)
Definition fits (w : world) (s : slot) (x : pendReply) : Prop :=
  exists info v, frameOf (pe_reply x) info v /\
  forall ud, s_done s = Some ud -> exists ak, w_asked w !! ud_id ud = Some ak /\ dc_deny (ak_d ak) = None /\
    if committed s info then unitBody (ak_p ak) (ak_d ak) = [] \/ ud_id ud ∈ tags w
    else UKind (dc_unit (ak_d ak)) = UnitTxn -> ud_id ud ∉ tags w.

Lemma fits_mono (w w' : world) s x : (forall i ak, w_asked w !! i = Some ak -> w_asked w' !! i = Some ak) ->
  (forall i, i ∈ slotID s -> i ∈ tags w <-> i ∈ tags w') -> fits w s x -> fits w' s x.
Proof.
  intros Ha Ht (info & v & Hf & Hd). exists info, v. split; [done|]. intros ud Hud. destruct (Hd ud Hud) as (ak & E1 & E2 & E3).
  exists ak. split_and!; [by apply Ha|done|]. assert (ud_id ud ∈ slotID s) as Hin by (unfold slotID; rewrite Hud; in_list).
  specialize (Ht _ Hin). destruct (committed s info); [|intros Hk; specialize (E3 Hk)]; tauto.
Qed.
(** The slot of a command Redis took fits its reply. *)
Lemma send_fits (w : world) a s f ops revoked wr c args r ran b : mediated w -> w_life w = Serving -> w_prog w = Forward a s f :: ops -> w_broken w = false ->
  runOp l id revoked wr (Forward a s f) (w_conn w) = (c, Went (Some args)) -> srv_call (w_srv w) args r ran b ->
  (forall ak, last (w_asked w) = Some ak -> slotID s <> [] -> tells (ak_d ak) (Forward a s f)) ->
  fits (delivered (Forward a s f) r ran b (set_conn c (set_prog ops (set_due (w_due w) w)))) s
    (mkPend (if opGated (Forward a s f) then Some (pred (length (w_asked w))) else None) ran b).
Proof.
  intros Hi Hl Hp Hb Hr Hc Htl. destruct (send_leads _ _ _ _ _ _ _ _ _ _ _ _ _ Hi Hl Hp Hb Hr Hc) as (Hu & K & HK & Hok & Hpm & _).
  injection Hu as ->. destruct (sl_frame _ _ _ _ _ Hc) as (info & v & Hf). exists info, v. split; [done|]. intros ud Hud.
  assert (ud_id ud ∈ slotID s) as Hin by (unfold slotID; rewrite Hud; in_list).
  destruct (md_prog _ _ Hi (ud_id ud)) as (Hlen & Hnt & _). { rewrite Hp. unfold idsOf, opIDs. cbn. rewrite !elem_of_app. auto. }
  destruct (last (w_asked w)) as [ak|] eqn:El; [|apply last_None in El; rewrite El in Hlen; done].
  assert (w_asked w !! ud_id ud = Some ak) as Hak. { rewrite last_lookup, <- Hlen in El. exact El. }
  destruct (Htl ak eq_refl) as [Hdn Hkind]; [by intros Hn; rewrite Hn in Hin; apply elem_of_nil in Hin|by rewrite Hud|]. exists ak. split_and!; [done..|].
  rewrite tags_delivered. cbn [w_asked set_conn set_prog set_due]. change (tags (set_conn c (set_prog ops (set_due (w_due w) w)))) with (tags w).
  assert (pred (length (w_asked w)) = ud_id ud) as -> by lia. destruct Hok as [Hex Hbare]. unfold committed. destruct (s_exec s) eqn:Ee; cbn [opGated].
  - destruct (Hex eq_refl) as (-> & [x Hm] & HKb). pose proof (sl_exec _ _ _ _ _ _ Hc Hf) as Hse. rewrite Hm in Hse. specialize (Hse ltac:(done)).
    unfold isArray in Hse. cbn [negb orb]. rewrite Ee. cbn [orb]. rewrite <- andb_assoc in Hse. destruct (negb (IsError info) && _).
    + injection Hse as ->. destruct (HK _ (HKb _ Hm)) as (ak' & E1 & _ & -> & _). rewrite El in E1. injection E1 as <-.
      destruct (unitBody (ak_p ak) (ak_d ak)); [by left|right]. rewrite elem_of_app. right. in_list.
    + subst ran. intros _. by rewrite app_nil_r.
  - destruct (Hbare eq_refl) as (Hm & Hg & Hdr); [by rewrite Hud|]. rewrite Ee, Hg, Hdr. cbn [negb orb andb]. rewrite andb_true_r. destruct (IsError info) eqn:Ei; cbn [negb].
    + intros Hk. rewrite (Hkind eq_refl) in Hk. done.
    + right. destruct (sl_done _ _ _ _ _ _ _ Hc Hf Hm Ei) as [->|Hn]; [rewrite elem_of_app; right; in_list|]. exfalso.
      by rewrite (control_ungated _ Hn) in Hg.
Qed.

(** ** The invariant *)
Record paired (w : world) : Prop := {
  pr_prog : forallb okOp (w_prog w) = true;
  pr_down : co_up (w_conn w) = false -> rq_q (co_rq (w_conn w)) = [] /\ w_pend w = [] /\ w_reply w = RIdle /\
    (w_life w = Serving -> boots (w_prog w) (cm_principal (w_cm w) = None));
  pr_lined : lined (fits w) (co_rq (w_conn w)) (w_pend w) (co_out (w_conn w)) (w_due w) (w_reply w) (w_broken w);
  pr_count : w_life w = Serving -> w_broken w = false -> (length (w_due w) + visibles (w_prog w))%nat = w_count w;
  pr_tells : Forall (fun o => slotIDs o <> [] -> forall ak, last (w_asked w) = Some ak -> tells (ak_d ak) o) (w_prog w);
}.

(** A handler begins. *)
Lemma start_paired (w : world) x : paired w -> w_life w = Serving -> w_prog w = [] -> tidy (snd x) ->
  (cm_principal (w_cm w) = None -> boots (snd x) (cm_principal (fst (fst x)) = None)) -> idsOf (snd x) = [] -> paired (start x w).
Proof.
  intros Hp Hl Hpr [Hok Hv] Hb Hid. destruct x as [[c a] ops]. cbn [fst snd] in *. split; try apply Hp; try done.
  - intros Hu. destruct (pr_down _ Hp Hu) as (E1 & E2 & E3 & E4). split_and!; [done..|]. intros _. specialize (E4 Hl). rewrite Hpr in E4. by apply Hb.
  - intros _ Hbr. pose proof (pr_count _ Hp Hl Hbr) as Hc. rewrite Hpr in Hc.
    change (length (w_due w) + visibles ops = Datatypes.S (w_count w))%nat. rewrite Hv, <- Hc. unfold visibles. cbn. lia.
  - apply Forall_forall. intros o Ho Hs. exfalso. apply Hs. cbn in Ho. clear -Hid Ho. induction Ho as [|o' o ops Ho IH]; cbn in Hid; apply app_eq_nil in Hid as [Hn Hid]; [|by apply IH].
    by apply app_eq_nil in Hn as [? _].
Qed.
Lemma ask_paired (w : world) ak g tick pol x : paired w -> w_life w = Serving -> w_prog w = [] -> tidy (snd x) -> is_Some (cm_principal (w_cm w)) ->
  Forall (tells (ak_d ak)) (snd x) -> paired (start x (decidedAs ak g tick pol w)).
Proof.
  intros Hp Hl Hpr [Hok Hv] [p0 Hpn] Htl. destruct x as [[c a] ops]. cbn [fst snd] in *. split; try apply Hp; try done.
  - intros Hu. destruct (pr_down _ Hp Hu) as (E1 & E2 & E3 & E4). specialize (E4 Hl). rewrite Hpr in E4. cbn in E4. congruence.
  - eapply lined_mono; [|apply Hp]. intros s x _. apply fits_mono; [|done]. intros i y Hy. by apply lookup_app_l_Some.
  - intros _ Hbr. pose proof (pr_count _ Hp Hl Hbr) as Hc. rewrite Hpr in Hc.
    change (length (w_due w) + visibles ops = Datatypes.S (w_count w))%nat. rewrite Hv, <- Hc. unfold visibles. cbn. lia.
  - eapply Forall_impl; [exact Htl|]. cbn. intros o Ho _ ak'. rewrite last_snoc. by intros [= <-].
Qed.

(** ** Operations *)
Lemma paired_tail (w : world) o ops : paired w -> w_prog w = o :: ops -> okOp o = true /\ forallb okOp ops = true /\
  Forall (fun o => slotIDs o <> [] -> forall ak, last (w_asked w) = Some ak -> tells (ak_d ak) o) ops /\
  (slotIDs o <> [] -> forall ak, last (w_asked w) = Some ak -> tells (ak_d ak) o).
Proof.
  intros Hp Ho. pose proof (pr_prog _ Hp) as E1. pose proof (pr_tells _ Hp) as E2. rewrite Ho in E1, E2. cbn in E1. apply andb_prop in E1 as [? ?].
  apply Forall_cons in E2 as [? ?]. done.
Qed.
Lemma op_paired (w : world) o ops revoked wr c : paired w -> w_life w = Serving -> w_prog w = o :: ops ->
  runOp l id revoked wr o (w_conn w) = (c, Went None) -> paired (set_conn c (set_prog ops (set_due (w_due w ++ dueOf o) w))).
Proof.
  intros Hp Hl Ho Hr. destruct (paired_tail _ _ _ Hp Ho) as (Hok & Hoks & Htl & _). apply runOp_effect in Hr; [|done].
  pose proof (pr_lined _ Hp) as HL. pose proof (pr_count _ Hp Hl) as Hc. rewrite Ho in Hc. unfold visibles in Hc. cbn in Hc.
  assert (co_up (w_conn w) = false -> boots (o :: ops) (cm_principal (w_cm w) = None)) as Hbo by (intros Hu; rewrite <- Ho; by apply (pr_down _ Hp Hu)).
  split; try done; cbn; [| |intros _ Hb; rewrite <- (Hc Hb), length_app; unfold visibles]; clear Hc.
  all: destruct o as [|a s f|b|n|a|ud out|]; cbn in Hr, Hbo; cbn [dueOf length visible]; try done; try lia; rewrite ?app_nil_r.
  all: try (by destruct Hr as [_ ?]). all: try (destruct Hr as [(E1 & E2 & E3) _]; rewrite ?E1, ?E2, ?E3).
  - destruct Hr as (_ & E1 & _). congruence.
  - destruct Hr as [(_ & _ & _ & [?|[?|?]])|[_ [?|?]]]; done.
  - destruct Hr as [(E1 & E2 & E3 & E4 & _)|(E1 & E2 & _)]; [|congruence]. intros _. rewrite E3. destruct (pr_down _ Hp E1) as (? & ? & ? & _). auto.
  - intros Hu. destruct (pr_down _ Hp Hu) as (? & ? & ? & _). auto.
  - intros Hu. destruct (pr_down _ Hp Hu) as (? & ? & ? & _). auto.
  - destruct Hr as (E1 & _ & E2 & _). by rewrite E1, E2.
  - destruct Hr as [(_ & _ & _ & [?|[?|?]])|[_ [?|?]]]; done.
  - destruct Hr as [(E1 & E2 & E3 & E4 & _)|(E1 & E2 & E3 & [(_ & _ & [?|?])|(E4 & E5 & _)])]; [|done..|].
    + rewrite E3, E4. destruct (pr_down _ Hp E1) as (? & ? & ? & _). by apply lined_write.
    + rewrite E3, E5. by apply lined_synth.
  - done.
  - done.
  - destruct Hr as [(_ & _ & _ & [?|[?|?]])|[_ [?|?]]]; done.
Qed.

(** Redis runs no unit whose slot waits already. *)
Lemma send_tags (w : world) o ops revoked wr c args r ran b i : mediated w -> w_life w = Serving -> w_prog w = o :: ops -> w_broken w = false ->
  runOp l id revoked wr o (w_conn w) = (c, Went (Some args)) -> srv_call (w_srv w) args r ran b -> i ∈ touched (w_conn w) ->
  i ∈ tags w <-> i ∈ tags (delivered o r ran b (set_conn c (set_prog ops (set_due (w_due w ++ dueOf o) w)))).
Proof.
  intros Hi Hl Hp Hb Hr Hc Hin. destruct (send_leads _ _ _ _ _ _ _ _ _ _ _ _ _ Hi Hl Hp Hb Hr Hc) as (_ & K & HK & _ & Hpm & _).
  rewrite tags_delivered, elem_of_app. split; [by left|]. intros [?|Hx]; [done|]. exfalso. destruct ran as [|a0 ran]; [by apply elem_of_nil in Hx|].
  destruct (opGated o) eqn:Eo; [|by apply elem_of_nil in Hx]. apply list_elem_of_singleton in Hx as ->.
  destruct Hpm as [?|[[? _]|[_ HKe]]]; [done|congruence|]. destruct (HK _ HKe) as (ak & _ & _ & _ & _ & _ & Hnt). done.
Qed.
Lemma send_paired (w : world) o ops revoked wr c args r ran b : mediated w -> paired w -> w_life w = Serving -> w_prog w = o :: ops -> w_broken w = false ->
  runOp l id revoked wr o (w_conn w) = (c, Went (Some args)) -> srv_call (w_srv w) args r ran b ->
  paired (delivered o r ran b (set_conn c (set_prog ops (set_due (w_due w ++ dueOf o) w)))).
Proof.
  intros Hm Hp Hl Ho Hb Hr Hc. destruct (paired_tail _ _ _ Hp Ho) as (Hok & Hoks & Htl & Hto). pose proof (runOp_effect _ _ _ _ _ _ _ _ Hr Hok) as He.
  set (w' := delivered _ _ _ _ _). pose proof (pr_count _ Hp Hl Hb) as Hn. rewrite Ho in Hn. unfold visibles in Hn. cbn in Hn.
  assert (lined (fits w') (co_rq (w_conn w)) (w_pend w) (co_out (w_conn w)) (w_due w) (w_reply w) false) as HL.
  { rewrite <- Hb. eapply lined_mono; [|apply Hp]. intros s x Hs. apply fits_mono; [done|]. intros i Hi. eapply send_tags; try done.
    unfold touched. rewrite elem_of_app. right. apply list_elem_of_bind. by exists s. }
  assert (co_up (w_conn w) = false -> boots (o :: ops) (cm_principal (w_cm w) = None)) as Hbo by (intros Hu; rewrite <- Ho; by apply (pr_down _ Hp Hu)).
  destruct o as [|a s f|b0|n|a|ud out|]; cbn in He; try done; try (by destruct He as [_ ?]); try (by destruct He as (_ & _ & _ & ?)).
  - destruct He as [(E1 & E2 & E3 & [Ea|[?|?]])|[_ [?|?]]]; try done. cbn in Hok. apply andb_prop in Hok as [Hs1 Hs2].
    apply negb_true_iff in Hs1, Hs2. assert (fits w' s (mkPend (if opGated (Forward a s f) then Some (pred (length (w_asked w))) else None) ran b)) as Hft.
    { eapply (send_fits w a s f ops); try done. intros ak Hak Hid. by apply Hto. }
    split; try done; cbn.
    + rewrite E1. intros Hu. by specialize (Hbo Hu).
    + rewrite E2, E3, Hb, app_nil_r. exact (lined_push l (fits w') _ _ _ _ _ s _ Hs1 Hs2 Hft HL).
    + intros _ _. unfold visibles. rewrite app_nil_r, length_app. cbn in Hn. destruct (s_drop s); cbn; lia.
  - destruct He as [(_ & _ & _ & _ & ?)|(E1 & E2 & E3 & [(E4 & E5 & _)|(_ & _ & ?)])]; try done.
    assert (fits w' dropSlot (mkPend None ran b)) as Hft by (destruct (sl_frame _ _ _ _ _ Hc) as (info & v & Hf); by exists info, v).
    split; try done; cbn.
    + congruence.
    + rewrite E3, E5, Hb, app_nil_r. apply lined_synth; [cbn; lia|]. rewrite <- (app_nil_r (w_due w)).
      exact (lined_push l (fits w') _ _ _ _ _ dropSlot _ eq_refl eq_refl Hft HL).
    + intros _ _. unfold visibles. rewrite !length_app. cbn in Hn |- *. lia.
Qed.
Lemma unsent_paired (w : world) o ops revoked wr c : paired w -> w_life w = Serving -> w_prog w = o :: ops ->
  runOp l id revoked wr o (w_conn w) = (c, Unsent) -> paired (set_conn c (set_prog ops (set_due (w_due w ++ dueOf o) (set_broken true w)))).
Proof.
  intros Hp Hl Ho Hr. destruct (paired_tail _ _ _ Hp Ho) as (Hok & Hoks & Htl & _). apply runOp_effect in Hr; [|done].
  destruct o as [|a s f|b0|n|a|ud out|]; cbn in Hr; try done; try (by destruct Hr as [_ ?]); try (by destruct Hr as (_ & _ & _ & ?)).
  { destruct Hr as [(_ & _ & _ & [?|[?|?]])|[_ [?|?]]]; done. }
  destruct Hr as [(_ & _ & _ & _ & ?)|(E1 & E2 & E3 & [(E4 & E5 & _)|(_ & _ & ?)])]; try done. split; try done; cbn; [congruence|].
  rewrite E3, E5. apply lined_synth; [cbn; lia|]. eapply lined_unsent; [done..|]. apply Hp.
Qed.
Lemma fail_paired (w : world) o ops revoked wr c x lf : paired w -> w_life w = Serving -> w_prog w = o :: ops ->
  runOp l id revoked wr o (w_conn w) = (c, x) -> (x = Stop /\ lf = Ended) \/ (x = Skip /\ lf = Serving) ->
  paired (set_conn c (set_prog [] (set_life lf (set_broken true w)))).
Proof.
  intros Hp Hl Ho Hr Hx. destruct (paired_tail _ _ _ Hp Ho) as (Hok & Hoks & Htl & _). apply runOp_effect in Hr; [|done].
  assert (x = Stop \/ x = Skip) as Hx' by tauto.
  pose proof (lined_break _ _ _ _ _ _ _ (pr_lined _ Hp)) as HL.
  assert (co_up (w_conn w) = false -> boots (o :: ops) (cm_principal (w_cm w) = None)) as Hbo by (intros Hu; rewrite <- Ho; by apply (pr_down _ Hp Hu)).
  destruct o as [|a s f|b0|n|a|ud out|]; cbn in Hr; try done.
  - destruct Hr as (_ & _ & _ & ->). by destruct Hx' as [?|?].
  - destruct Hr as [(E1 & E2 & E3 & _)|[(E1 & E2 & E3) _]]; split; try done; cbn; try (intros Hu; rewrite ?E1, ?E2 in Hu; by specialize (Hbo Hu)).
    + rewrite E2, E3. cbn in Hok. apply andb_prop in Hok as [Hs1 Hs2]. apply negb_true_iff in Hs1, Hs2. by eapply lined_unsent.
    + by rewrite E1, E3.
  - destruct Hr as [(_ & _ & _ & _ & ->)|(_ & _ & _ & [(_ & _ & [->| ->])|(_ & _ & ->)])]; by destruct Hx' as [?|?].
  - destruct Hr as [_ ->]. by destruct Hx' as [?|?].
  - destruct Hr as [_ ->]. by destruct Hx' as [?|?].
  - destruct Hr as [(E1 & E2 & E3) ->]. destruct Hx as [[_ ->]|[? _]]; [|done]. split; try done; cbn; [|by rewrite E1, E3].
    intros Hu. rewrite E2 in Hu. destruct (pr_down _ Hp Hu) as (? & ? & ? & _). rewrite E1. split_and!; done.
Qed.

(** ** The reply goroutine *)

(** A reply of Redis finds its slot at the head of the queue. *)
Lemma paired_head (w : world) x pend : paired w -> w_reply w = RIdle -> w_pend w = x :: pend ->
  exists s q, rq_q (co_rq (w_conn w)) = s :: q /\ isSynth s = false /\ s_toRaw s = false /\ rq_raw (co_rq (w_conn w)) = false /\ fits w s x.
Proof.
  intros Hp Hr Hx. pose proof (pr_lined _ Hp) as [[Hraw _ Hto] (sent & tail & E1 & E2 & _) Hh _ _]. rewrite Hx in E2.
  apply Forall2_cons_inv_r in E2 as (s & sent' & HF & E2 & ->). destruct (rq_q (co_rq (w_conn w))) as [|s' q]; [done|].
  specialize (Hh Hr _ eq_refl). rewrite fwds_fwd in E1 by done. injection E1 as -> _. apply Forall_cons in Hto as [[Ht _] _]. by exists s, q.
Qed.
Lemma frame_paired (w : world) x pend y c : paired w -> w_reply w = RIdle -> w_pend w = x :: pend ->
  frame l id (pe_reply x) (w_conn w) = (y, c) ->
  match y with Ok rest => rest = "" /\ paired (set_reply RDrain (set_pend pend (set_conn c w)))
             | Err e => e <> FDesync /\ paired (set_reply RDead (set_pend pend (set_conn c w))) end.
Proof.
  intros Hp Hr Hx Hf. destruct (paired_head _ _ _ Hp Hr Hx) as (s & q & Hq & Hs & Ht & Hraw & (info & v & Hfo & _)).
  destruct (frame_pops l id s q _ _ _ (w_conn w) Hfo Hraw Hq Hs Ht) as (c1 & y1 & E & Hy). rewrite Hf in E. injection E as <- <-.
  destruct (lined_meets l _ _ _ _ _ _ _ _ _ _ _ Hq Hs Hx (pr_lined _ Hp)) as (_ & HL1 & HL2).
  assert (co_up (w_conn w) <> false) as Hup by (intros Hu; destruct (pr_down _ Hp Hu) as (E1 & _); congruence).
  destruct y as [rest|e]; destruct Hy as [E HV]; (split; [done|]); injection HV as E1 E2 E3 _ _.
  - split; try apply Hp; cbn; [congruence|]. rewrite E1, E3. apply HL1. by rewrite Hr.
  - split; try apply Hp; cbn; [congruence|]. by rewrite E1, E3.
Qed.
Lemma synth_paired (w : world) c : paired w -> w_reply w = RDrain -> writeSynth l (w_conn w) = Some c -> paired (set_conn c w).
Proof.
  intros Hp Hr Hw. unfold writeSynth in Hw. destruct (rq_q (co_rq (w_conn w))) as [|s q] eqn:Hq; [done|]. destruct (s_synth s) as [b|] eqn:Hs; [|done].
  injection Hw as <-. pose proof (pr_lined _ Hp) as HL. rewrite Hr in HL. split; try apply Hp.
  - cbn. intros Hu. destruct (pr_down _ Hp Hu) as (E1 & _). congruence.
  - cbn. rewrite Hr. exact (lined_popSynth l _ _ _ _ _ _ s q b _ Hq Hs eq_refl HL).
Qed.
Lemma drained_paired (w : world) : paired w -> w_reply w = RDrain -> writeSynth l (w_conn w) = None -> paired (set_reply RIdle w).
Proof.
  intros Hp Hr Hw. split; try apply Hp.
  - intros Hu. destruct (pr_down _ Hp Hu) as (E1 & E2 & _ & E4). done.
  - cbn. eapply lined_idle; [|exact Hr|apply Hp]. intros s Hs. unfold writeSynth in Hw. unfold isSynth.
    destruct (rq_q (co_rq (w_conn w))) as [|s' q]; [done|]. injection Hs as ->. by destruct (s_synth s).
Qed.

Lemma handle_tidy e (w : world) args : clientOK args -> mediated w -> actionAll (fun _ => tidy) (handle e w args).
Proof.
  intros Hok Hi. unfold handle. destruct (cm_principal (w_cm w)); [apply tidy_command; [done|apply Hi]|apply tidy_preAuth].
Qed.
Lemma handle_boots e (w : world) args : cm_principal (w_cm w) = None ->
  actionAll (fun c' ops => boots ops (cm_principal c' = None)) (handle e w args).
Proof. intros Hn. unfold handle. rewrite Hn. by apply boots_preAuth. Qed.

Lemma step_paired (w w' : world) : step w w' -> mediated w -> (w_life w <> Retired -> paired w) -> w_life w' <> Retired -> paired w'.
Proof.
  intros Hs Hm Hp Hl'. destruct Hs as [e args cm a ops Hl Hpr He Ha Hh|e args p u k d g tick pol Hl Hpr He Ha Hh Hd|e args user pass k r Hl Hpr He Ha Hh
    |o ops revoked wr c Hl Hpr Hw Hb Ho|o ops revoked wr c args r ran b Hl Hpr Hb Ho Hc|o ops revoked wr c Hl Hpr Ho|o ops revoked wr c Hl Hpr Hb Ho|o ops revoked wr c Hl Hpr Hb Ho
    |n ops v Hl Hpr Hg|Hl Hpr|x pend c Hl Hr Hx Hf|x pend e c Hl Hr Hx Hf|c Hl Hr Hw|Hl Hr Hw|Hl|r Hmu Hdb|g tick pol]; try (specialize (Hp ltac:(congruence))).
  - pose proof (handle_tidy e w args Ha Hm) as Ht. pose proof (handle_names e w args) as Hn. pose proof (handle_boots e w args) as Hb.
    rewrite Hh in Ht, Hn, Hb. by apply start_paired.
  - pose proof (handle_tidy e w args Ha Hm) as Ht. rewrite Hh in Ht. destruct (cm_principal (w_cm w)) as [p0|] eqn:Epr.
    2: { exfalso. unfold handle in Hh. rewrite Epr in Hh. pose proof (preAuth_asks e (w_cm w) (co_at (w_conn w)) args) as Hq. by rewrite Hh in Hq. }
    apply ask_paired; [done..|apply Ht|by rewrite Epr|]. unfold handle in Hh. rewrite Epr in Hh.
    pose proof (tells_command e p0 (w_cm w) (co_at (w_conn w)) args) as Htl. rewrite Hh in Htl. apply Htl. intros Hdn.
    apply core_UKind. by destruct (decideUnit_passes _ _ _ _ _ _ _ _ _ _ _ _ _ _ _ Hd Hdn).
  - pose proof (handle_tidy e w args Ha Hm) as Ht. pose proof (handle_names e w args) as Hn. pose proof (handle_boots e w args) as Hb.
    rewrite Hh in Ht, Hn, Hb. apply start_paired; [done..|apply Ht|intros Hq; by apply Hb|apply Hn].
  - by eapply op_paired.
  - eapply send_paired; try done. apply runOp_some in Ho as [_ ->]. destruct (w_broken w); [by specialize (Hb eq_refl)|done].
  - by eapply unsent_paired.
  - eapply fail_paired; try done. by left.
  - replace (set_broken true w) with (set_life Serving (set_broken true w)) by (rewrite <- Hl; by destruct w). eapply fail_paired; try done. by right.
  - pose proof (pr_down _ Hp) as Hdn. pose proof (paired_tail _ _ _ Hp Hpr) as (_ & Hoks & Htl & _). pose proof (pr_count _ Hp) as Hc. rewrite Hpr in Hc, Hdn.
    assert (forall cm, cm_principal cm = cm_principal (w_cm w) -> paired (set_prog ops (set_conn (setGot None (w_conn w)) (set_cm cm w)))) as Haw.
    { intros cm Hcm. split; try done; [|apply Hp]. cbn. rewrite Hcm. exact Hdn. }
    apply Haw. by destruct (VType v =? "+")%char.
  - split; try apply Hp; try done. cbn. intros Hu. destruct (pr_down _ Hp Hu) as (? & ? & ? & _). done.
  - pose proof (frame_paired _ _ _ _ _ Hp Hr Hx Hf) as [_ ?]. done.
  - pose proof (frame_paired _ _ _ _ _ Hp Hr Hx Hf) as [_ ?]. done.
  - by apply synth_paired.
  - by apply drained_paired.
  - done.
  - specialize (Hp Hl'). split; apply Hp.
  - specialize (Hp Hl'). split; apply Hp.
Qed.
End inv.
