(* ===== verification/ConnOutcomes.v ===== *)
(** * Outcomes reported to Done

    The outcomes told to the policy are true of what Redis ran, and each
    decision that is owed a call of Done gets one. *)

From S2P Require Import Prelude GoLib Resp Classify ClassifyFacts Policy Stores Guard GuardScope GuardCheck GuardFrames GuardFacts Decide Accounting Conn ConnDecide ConnWorld ConnFacts ConnInv ConnReplies ConnOrder.

(** ** The calls of an operation *)
Section calls.
Context {S T : Type} `{SessionStore S} `{SliceStore T}.
Context (l : pending) (id : Z).
Abbreviation reports c := (m_reports (co_mem c)).

Definition verdictCalls (ud : unitDone) (o : Outcome) : list (nat * Outcome) := if ud_verdict ud then [(ud_id ud, o)] else [].
Lemma reports_runDone ud o (c : conn S T) : reports (runDone ud o c) = reports c ++ verdictCalls ud o.
Proof. unfold verdictCalls. cbn. destruct (ud_verdict ud); [done|by rewrite app_nil_r]. Qed.
Lemma reports_doneOf s o (c : conn S T) : reports (runDoneOf s o c) = reports c ++ doneCalls s o.
Proof. unfold runDoneOf, doneCalls. destruct (s_done s) as [ud|]; [apply reports_runDone|by rewrite app_nil_r]. Qed.
Definition failCalls (f : failMode) : list (nat * Outcome) := match f with LostOnErr ud => verdictCalls ud (mkOutcome true false true id) | _ => [] end.
Lemma reports_failed f (c c' : conn S T) x : failed_ id f c = (c', x) -> reports c' = reports c ++ failCalls f.
Proof. destruct f as [| |ud]; intros [= <- _]; [by rewrite app_nil_r..|]. apply reports_runDone. Qed.

Lemma runOp_reports revoked wr o (c c' : conn S T) x : runOp l id revoked wr o c = (c', x) ->
  exists new, reports c' = reports c ++ new /\
    match o, x with
    | Forward _ s f, Went _ => new = []
    | Forward _ s f, _ => (co_rq c' = pushFwd l s (co_rq c) /\ new = failCalls f) \/
        (co_rq c' = co_rq c /\ new = doneCalls s (mkOutcome false false false id) ++ failCalls f)
    | Report ud out, _ => new = verdictCalls ud out
    | _, _ => new = []
    end.
Proof.
  intros Hr. destruct o as [|a s f|b|n|a|ud out|]; cbn in Hr.
  2: { unfold forward in Hr. destruct revoked.
    { pose proof (reports_failed _ _ _ _ Hr) as Hf. rewrite reports_doneOf, <- app_assoc in Hf. eexists. split; [exact Hf|].
      apply failed_effect in Hr as [(E & _) Hx]. assert (co_rq c' = co_rq c) as Hq by (rewrite E; unfold runDoneOf; by destruct (s_done s)).
      destruct x; auto; by destruct Hx. }
    destruct (_ || _); [|injection Hr as <- <-; exists []; by rewrite app_nil_r]. pose proof (reports_failed _ _ _ _ Hr) as Hf. eexists. split; [exact Hf|].
    apply failed_effect in Hr as [(E & _) Hx]. destruct x; auto; by destruct Hx. }
  5: { injection Hr as <- <-. eexists. split; [apply reports_runDone|done]. }
  2: { unfold reply in Hr. exists []. rewrite app_nil_r. destruct (co_up c); cbn in Hr; [|by injection Hr as <- <-]. by destruct (_ =? 0); injection Hr as <- <-. }
  all: injection Hr as <- <-; exists []; by rewrite app_nil_r.
Qed.
Lemma retire_reports (c : conn S T) : reports (retire id c) = reports c ++ (rq_q (co_rq c) ≫= fun s => doneCalls s (mkOutcome true false true id)).
Proof.
  unfold retire. set (c0 := setRQ _ c). assert (reports c = reports c0) as -> by done. clearbody c0. generalize (rq_q (co_rq c)). intros q. revert c0.
  induction q as [|s q IH]; intros c0; cbn; [by rewrite app_nil_r|]. by rewrite IH, reports_doneOf, <- app_assoc.
Qed.
Lemma doneCalls_in s o i out : (i, out) ∈ doneCalls s o -> i ∈ slotID s /\ out = o.
Proof.
  unfold doneCalls, slotID. destruct (s_done s) as [ud|]; [|by intros ?%elem_of_nil]. destruct (ud_verdict ud); [|by intros ?%elem_of_nil].
  intros [= -> ->]%list_elem_of_singleton. split; [in_list|done].
Qed.
Lemma failCalls_in f i out : (i, out) ∈ failCalls f -> i ∈ failIDs f /\ Committed out = false.
Proof.
  destruct f as [| |ud]; [by intros ?%elem_of_nil..|]. cbn. unfold verdictCalls. destruct (ud_verdict ud); [|by intros ?%elem_of_nil].
  intros [= -> ->]%list_elem_of_singleton. split; [in_list|done].
Qed.
End calls.

(** ** Decisions that are owed a call *)
Definition owes (d : decision) : bool := match dc_deny d with Some _ => dc_verdictDone d | None => dc_done d end.

Definition verdictID (ud : unitDone) : list nat := if ud_verdict ud then [ud_id ud] else [].
Definition slotCall (s : slot) : list nat := match s_done s with Some ud => verdictID ud | None => [] end.
Definition opCall (o : op) : list nat := match o with Forward _ s _ => slotCall s | Report ud _ => verdictID ud | _ => [] end.
Definition calls (ops : list op) : list nat := ops ≫= opCall.
Definition failCall (f : failMode) : list nat := match f with LostOnErr ud => verdictID ud | _ => [] end.

(** Where the operations may stop, the call is made. *)
Fixpoint safeOps (i : nat) (ops : list op) : Prop :=
  match ops with
  | [] => True
  | o :: ops =>
      match o with
      | Forward _ s f => i ∈ calls ops -> i ∈ slotCall s \/ i ∈ failCall f
      | CloseConn | WriteNoSlot _ | AwaitSelect _ => i ∉ calls ops
      | _ => True
      end /\ safeOps i ops
  end.
Lemma safe_none i ops : (i ∉ calls ops) -> safeOps i ops.
Proof.
  induction ops as [|o ops IH]; [done|]. unfold calls. cbn. rewrite elem_of_app. intros Hn. split; [|apply IH; unfold calls; tauto].
  destruct o; unfold calls; tauto.
Qed.
Lemma safe_last i a s f : safeOps i [Forward a s f].
Proof. split; [|done]. by intros ?%elem_of_nil. Qed.
Lemma calls_ids ops i : i ∈ calls ops -> i ∈ idsOf ops.
Proof.
  unfold calls, idsOf. rewrite !list_elem_of_bind. intros (o & Hi & Ho). exists o. split; [|done]. unfold opIDs. rewrite elem_of_app. left.
  destruct o as [|a s f|b|n|a|ud out|]; try (by apply elem_of_nil in Hi); cbn in Hi |- *.
  - unfold slotCall, slotID in *. destruct (s_done s) as [ud|]; [|by apply elem_of_nil in Hi]. unfold verdictID in Hi.
    destruct (ud_verdict ud); [exact Hi|by apply elem_of_nil in Hi].
  - unfold verdictID in Hi. destruct (ud_verdict ud); [exact Hi|by apply elem_of_nil in Hi].
Qed.

Definition owesAction (x : action) : Prop :=
  match x with
  | AskPolicy _ _ k => forall d, owes d = true -> dc_id d ∈ calls (snd (k d)) /\ (usedIDs d = [] -> safeOps (dc_id d) (snd (k d)))
  | _ => True
  end.
Ltac owes_tac :=
  repeat (match goal with
          | |- owesAction (if ?b then _ else _) => destruct b
          | |- owesAction (match ?x with _ => _ end) => destruct x
          | |- context [let '(_, _) := ?x in _] => destruct x eqn:?
          end; try done).
Lemma owes_refused e d r ops : dc_deny d = Some r -> owes d = true -> calls ops = [] ->
  dc_id d ∈ calls (reportRefused e d ++ ops) /\ safeOps (dc_id d) (reportRefused e d ++ ops).
Proof.
  unfold owes, reportRefused. intros -> Hv Hc. rewrite Hv. split.
  - unfold calls. cbn. unfold verdictID. cbn. rewrite Hv. left.
  - split; [done|]. change (safeOps (dc_id d) ops). apply safe_none. rewrite Hc. apply not_elem_of_nil.
Qed.
Lemma slotCall_commit d : dc_done d = true -> match commitOnSuccess d with Some ud => verdictID ud | None => [] end = [dc_id d].
Proof. intros Hd. unfold commitOnSuccess. rewrite Hd, andb_false_r. done. Qed.
Lemma owes_command e p c a args : owesAction (command e p c a args).
Proof.
  unfold command. destruct (Classify args) as [info|]; [|done]. destruct (cm_subscribed c); [done|]. destruct (cm_txn c) as [t|].
  { unfold inTxn, exec. owes_tac. intros d Hd. cbn [snd]. destruct (dc_deny d) as [r|] eqn:Ed; [by destruct (owes_refused e d r (refuseTxn r) Ed Hd eq_refl)|].
    unfold owes in Hd. rewrite Ed in Hd. assert (slotCall (execSlot p d) = [dc_id d]) as Hs by (by apply slotCall_commit). split.
    - unfold admitTxn, calls. rewrite !bind_app, !elem_of_app. right; right. cbn. rewrite Hs. left.
    - intros Hu. unfold admitTxn. rewrite Hu. cbn [fmap list_fmap app]. destruct (dc_receipt d) as [r|]; [|apply safe_last].
      split; [|apply safe_last]. intros _. right. rewrite Hd. left. }
  unfold bare, auth, hello, selectDB, byClass, gateBare, subscribe. owes_tac.
  all: intros d Hd; cbn [snd]; destruct (dc_deny d) as [r|] eqn:Ed;
    [by destruct (owes_refused e d r [Answer (denialReply r)] Ed Hd eq_refl)|unfold owes in Hd; rewrite Ed in Hd].
  all: (split; [unfold calls; cbn; unfold slotCall; cbn; rewrite (slotCall_commit d Hd); left|]); intros _; apply safe_last.
Qed.
Lemma owes_preAuth e c a args : owesAction (preAuth e c a args).
Proof. unfold preAuth, auth, hello. owes_tac. Qed.

Section inv.
Context {R S T P : Type} `{Server R} `{!ServerLaws R} `{SessionStore S} `{SliceStore T} `{Policy P}.
Context (l : pending) (id : Z).
Context (perm : forall A : Type, list A -> list A) (clock : nat -> Z).
Context (checkReplacements : nat -> Unit -> option Denial * option (list string)) (auditStart : nat -> Unit -> bool -> option Denial * bool).
Hypothesis receipts_are_scripts : forall i u r, checkReplacements i u = (None, Some r) -> redisName r = "EVAL".
Abbreviation world := (world R S T P).
Abbreviation step := (cstep (R := R) (S := S) (T := T) (P := P) l id clientOK perm clock checkReplacements auditStart).
Abbreviation mediated := (mediated (R := R) (S := S) (T := T) (P := P) checkReplacements).
Abbreviation reports w := (m_reports (co_mem (w_conn w))).

(** ** Truth *)
Definition toldOK (w : world) (r : nat * Outcome) : Prop :=
  exists ak, w_asked w !! fst r = Some ak /\
  if Committed (snd r) then dc_deny (ak_d ak) = None /\ (unitBody (ak_p ak) (ak_d ak) = [] \/ fst r ∈ tags w)
  else Lost (snd r) = false -> Forwarded (snd r) = false \/ UKind (dc_unit (ak_d ak)) = UnitTxn -> fst r ∉ tags w.
Definition truthful (w : world) : Prop := Forall (toldOK w) (reports w).

Lemma toldOK_mono (w w' : world) r : (forall i ak, w_asked w !! i = Some ak -> w_asked w' !! i = Some ak) ->
  (fst r ∈ tags w <-> fst r ∈ tags w') -> toldOK w r -> toldOK w' r.
Proof.
  intros Ha Ht (ak & E1 & E2). exists ak. split; [by apply Ha|]. destruct (Committed (snd r)); [|intros Hk1 Hk2; specialize (E2 Hk1 Hk2)]; tauto.
Qed.
Lemma truthful_mono (w w' : world) : (forall i ak, w_asked w !! i = Some ak -> w_asked w' !! i = Some ak) ->
  (forall i, i ∈ touched (w_conn w) -> i ∈ tags w <-> i ∈ tags w') -> truthful w -> Forall (toldOK w') (reports w).
Proof.
  intros Ha Ht Hw. unfold truthful in Hw. apply Forall_forall. intros r Hr. rewrite Forall_forall in Hw. eapply toldOK_mono; [exact Ha| |by apply Hw].
  apply Ht. unfold touched. rewrite elem_of_app. left. apply list_elem_of_fmap. eauto.
Qed.

(** A decision that can still be reported did not run. *)
Lemma op_told (w : world) o ops revoked wr c x : mediated w -> paired w -> w_prog w = o :: ops -> runOp l id revoked wr o (w_conn w) = (c, x) ->
  truthful w -> Forall (toldOK w) (m_reports (co_mem c)).
Proof.
  intros Hi Hp Hpr Ho Hw. destruct (paired_tail _ _ _ Hp Hpr) as (_ & _ & _ & Htl). destruct (runOp_reports _ _ _ _ _ _ _ _ Ho) as (new & -> & Hn).
  apply Forall_app. split; [done|]. apply Forall_forall. intros [i out] Hin.
  assert (i ∈ opIDs o /\ (Committed out = false \/ exists ud, o = Report ud out)) as [Hid Hcm].
  { unfold opIDs. rewrite elem_of_app. destruct o as [|a s f|b|n|a|ud out'|]; try (subst new; by apply elem_of_nil in Hin).
    - assert (new = [] \/ new = failCalls id f \/ new = doneCalls s (mkOutcome false false false id) ++ failCalls id f) as [->|[->| ->]] by (destruct x; tauto).
      + by apply elem_of_nil in Hin.
      + apply failCalls_in in Hin as [? ?]. auto.
      + apply elem_of_app in Hin as [[? ->]%doneCalls_in|[? ?]%failCalls_in]; auto.
    - subst new. unfold verdictCalls in Hin. destruct (ud_verdict ud); [|by apply elem_of_nil in Hin]. apply list_elem_of_singleton in Hin as [= -> ->].
      split; [left; in_list|right; by exists ud]. }
  destruct (md_prog _ _ Hi i) as (Hlen & Hnt & _); [rewrite Hpr; unfold idsOf; cbn; rewrite elem_of_app; by left|].
  destruct (last (w_asked w)) as [ak|] eqn:El; [|apply last_None in El; rewrite El in Hlen; done].
  exists ak. split; [rewrite last_lookup, <- Hlen in El; exact El|]. cbn [fst snd]. assert (Committed out = false) as ->; [|done].
  destruct Hcm as [?|(ud & ->)]; [done|]. by apply (Htl ltac:(done) ak).
Qed.
Lemma frame_told (w : world) x pend y c : paired w -> w_reply w = RIdle -> w_pend w = x :: pend -> mediated w ->
  frame l id (pe_reply x) (w_conn w) = (y, c) -> truthful w -> Forall (toldOK w) (m_reports (co_mem c)).
Proof.
  intros Hp Hr Hx Hi Hf Hw. destruct (paired_head _ _ _ Hp Hr Hx) as (s & q & Hq & Hs & Ht & Hraw & (info & v & Hfo & Hd)).
  destruct (frame_pops l id s q _ _ _ (w_conn w) Hfo Hraw Hq Hs Ht) as (c1 & y1 & E & Hy). rewrite Hf in E. injection E as <- <-.
  assert (exists o, m_reports (co_mem c) = reports w ++ doneCalls s o /\ (Lost o = true /\ Committed o = false \/ o = mkOutcome true (committed s info) false id)) as (o & -> & Ho).
  { destruct y as [rest|e]; destruct Hy as [E HV]; injection HV as _ _ _ -> _; eexists; (split; [reflexivity|]); auto. }
  apply Forall_app. split; [done|]. unfold doneCalls. destruct (s_done s) as [ud|] eqn:Eud; [|done]. destruct (ud_verdict ud); [|done].
  apply Forall_singleton. destruct (Hd ud eq_refl) as (ak & E1 & E2 & E3). exists ak. split; [done|]. cbn [fst snd].
  destruct Ho as [[Ho1 Ho2]| ->]; [by rewrite Ho1, Ho2|]. cbn [Committed Lost Forwarded]. destruct (committed s info); [done|]. intros _ [?|Hk]; [done|]. by apply E3.
Qed.

Lemma step_truthful (w w' : world) : step w w' -> mediated w -> (w_life w <> Retired -> paired w) -> truthful w -> truthful w'.
Proof.
  intros Hs Hm Hp Hw. destruct Hs as [e args cm a ops Hl Hpr He Ha Hh|e args p u k d g tick pol Hl Hpr He Ha Hh Hd|e args user pass k r Hl Hpr He Ha Hh
    |o ops revoked wr c Hl Hpr Hwa Hb Ho|o ops revoked wr c args r ran b Hl Hpr Hb Ho Hc|o ops revoked wr c Hl Hpr Ho|o ops revoked wr c Hl Hpr Hb Ho|o ops revoked wr c Hl Hpr Hb Ho
    |n ops v Hl Hpr Hg|Hl Hpr|x pend c Hl Hr Hx Hf|x pend e c Hl Hr Hx Hf|c Hl Hr Hwr|Hl Hr Hwr|Hl|r Hmu Hdb|g tick pol]; try exact Hw; try (specialize (Hp ltac:(congruence))).
  - destruct (k d) as [[cm a] ops]. apply (truthful_mono w); [|done|done]. intros i y Hy. by apply lookup_app_l_Some.
  - by destruct (k r) as [[cm a] ops].
  - exact (op_told w o ops revoked wr c _ Hm Hp Hpr Ho Hw).
  - assert (w_broken w = false) as Hbr. { apply runOp_some in Ho as [_ ->]. destruct (w_broken w); [by specialize (Hb eq_refl)|done]. }
    destruct (runOp_reports _ _ _ _ _ _ _ _ Ho) as (new & Hnew & Hn). apply runOp_some in Ho as Hu. destruct Hu as [Hu _].
    assert (new = []) as -> by (by destruct o). rewrite app_nil_r in Hnew. unfold truthful. cbn. rewrite Hnew. apply (truthful_mono w); [done| |done].
    intros i Hin. by eapply send_tags.
  - exact (op_told w o ops revoked wr c _ Hm Hp Hpr Ho Hw).
  - exact (op_told w o ops revoked wr c _ Hm Hp Hpr Ho Hw).
  - exact (op_told w o ops revoked wr c _ Hm Hp Hpr Ho Hw).
  - exact (frame_told w x pend _ c Hp Hr Hx Hm Hf Hw).
  - exact (frame_told w x pend _ c Hp Hr Hx Hm Hf Hw).
  - unfold writeSynth in Hwr. destruct (rq_q (co_rq (w_conn w))) as [|s q]; [done|]. destruct (s_synth s); [|done]. by injection Hwr as <-.
  - unfold truthful. cbn [w_conn set_conn]. rewrite retire_reports. apply Forall_app. split; [done|]. apply Forall_forall. intros [i out] Hin.
    apply list_elem_of_bind in Hin as (s & [Hi ->]%doneCalls_in & Hq). assert (i < length (w_asked w))%nat as Hlt.
    { apply (md_touched _ _ Hm). unfold touched. rewrite elem_of_app. right. apply list_elem_of_bind. by exists s. }
    apply lookup_lt_is_Some in Hlt as [ak Hak]. exists ak. by split.
Qed.

(** ** Calls made *)
Definition called (c : conn S T) : list nat := (fst <$> m_reports (co_mem c)) ++ (rq_q (co_rq c) ≫= slotCall).

Lemma in_done s out (c c' : conn S T) i : m_reports (co_mem c') = m_reports (co_mem c) ++ doneCalls s out ->
  i ∈ (fst <$> m_reports (co_mem c)) \/ i ∈ slotCall s -> i ∈ (fst <$> m_reports (co_mem c')).
Proof.
  intros -> Hi. rewrite fmap_app, elem_of_app. destruct Hi as [?|Hi]; [by left|right]. unfold slotCall, doneCalls in *.
  destruct (s_done s) as [ud|]; [|done]. unfold verdictID in Hi. by destruct (ud_verdict ud).
Qed.
Lemma runOp_called revoked wr o (c c' : conn S T) x i : runOp l id revoked wr o c = (c', x) -> okOp o = true ->
  i ∈ called c \/ i ∈ opCall o \/ (exists a s f, o = Forward a s f /\ i ∈ failCall f /\ (x = Stop \/ x = Skip)) -> i ∈ called c'.
Proof.
  intros Hr Hok Hi. pose proof (runOp_effect _ _ _ _ _ _ _ _ Hr Hok) as He. destruct (runOp_reports _ _ _ _ _ _ _ _ Hr) as (new & Hn & Hnew).
  assert (i ∈ called c -> i ∈ called c') as Hold.
  { unfold called. rewrite Hn, fmap_app, !elem_of_app. intros [?|Hq]; [auto|right]. revert Hq.
    destruct o; cbn in He; try done; unfold sameQ in He;
      [destruct He as (-> & _)|destruct He as [(_ & _ & -> & _)|[(-> & _) _]]|destruct He as [(_ & _ & -> & _)|(_ & _ & _ & [(_ & -> & _)|(_ & -> & _)])]|destruct He as [(-> & _) _]..];
      cbn; rewrite ?bind_app, ?elem_of_app; auto. }
  destruct Hi as [?|[Hi|(a & s & f & -> & Hi & Hx)]]; [auto|..].
  - destruct o as [|a s f|b|n|a|ud out|]; try (by apply elem_of_nil in Hi); cbn in Hi, He.
    + unfold called. rewrite elem_of_app. destruct He as [(_ & _ & -> & _)|[(Hq & _) Hx]]; [right; cbn; rewrite bind_app, elem_of_app; right; cbn; by rewrite app_nil_r|].
      assert ((co_rq c' = pushFwd l s (co_rq c) /\ new = failCalls id f) \/ (co_rq c' = co_rq c /\ new = doneCalls s (mkOutcome false false false id) ++ failCalls id f)) as Hc
        by (destruct Hx as [->| ->]; exact Hnew). destruct Hc as [[Hq' _]|[_ ->]].
      * right. rewrite Hq'. cbn. rewrite bind_app, elem_of_app. right. cbn. by rewrite app_nil_r.
      * left. rewrite Hn, !fmap_app, !elem_of_app. right; left. unfold slotCall, doneCalls in *. destruct (s_done s) as [ud|]; [|done]. unfold verdictID in Hi.
        by destruct (ud_verdict ud).
    + subst new. unfold called. rewrite Hn, fmap_app, !elem_of_app. left; right. unfold verdictCalls, verdictID in *. by destruct (ud_verdict ud).
  - unfold called. rewrite Hn, fmap_app, !elem_of_app. left; right. assert (i ∈ (fst <$> failCalls id f)) as Hf.
    { destruct f as [| |ud]; try done. cbn in Hi |- *. unfold verdictCalls, verdictID in *. by destruct (ud_verdict ud). }
    assert ((co_rq c' = pushFwd l s (co_rq c) /\ new = failCalls id f) \/ (co_rq c' = co_rq c /\ new = doneCalls s (mkOutcome false false false id) ++ failCalls id f)) as Hc
      by (destruct Hx as [->| ->]; exact Hnew). destruct Hc as [[_ ->]|[_ ->]]; [done|]. rewrite fmap_app, elem_of_app. by right.
Qed.
Lemma frame_called (w : world) x pend y c i : paired w -> w_reply w = RIdle -> w_pend w = x :: pend ->
  frame l id (pe_reply x) (w_conn w) = (y, c) -> i ∈ called (w_conn w) -> i ∈ called c.
Proof.
  intros Hp Hr Hx Hf. destruct (paired_head _ _ _ Hp Hr Hx) as (s & q & Hq & Hs & Ht & Hraw & (info & v & Hfo & Hd)).
  destruct (frame_pops l id s q _ _ _ (w_conn w) Hfo Hraw Hq Hs Ht) as (c1 & y1 & E & Hy). rewrite Hf in E. injection E as <- <-.
  assert (exists o, m_reports (co_mem c) = m_reports (co_mem (w_conn w)) ++ doneCalls s o /\ rq_q (co_rq c) = q) as (o & Ho & Hq').
  { destruct y as [rest|e]; destruct Hy as [E HV]; injection HV as -> _ _ -> _; by eexists. }
  unfold called. rewrite Hq, Hq'. cbn. rewrite !elem_of_app. intros [?|[?|?]]; [left; eapply in_done; eauto..|by right].
Qed.
Lemma retire_q (c : conn S T) : rq_q (co_rq (retire id c)) = [].
Proof.
  unfold retire. assert (rq_q (co_rq (setRQ (setQ [] (co_rq c)) c)) = []) as Hz by done. revert Hz. generalize (setRQ (setQ [] (co_rq c)) c).
  generalize (rq_q (co_rq c)). intros q. induction q as [|s q IH]; intros c0 Hz; [done|]. apply IH. unfold runDoneOf. by destruct (s_done s).
Qed.
Lemma retire_called (c : conn S T) i : i ∈ called c -> i ∈ called (retire id c).
Proof.
  unfold called. rewrite retire_reports, !fmap_app, !elem_of_app. intros [?|Hi]; [auto|]. left; right. apply list_elem_of_bind in Hi as (s & Hi & Hs).
  apply list_elem_of_fmap. unfold slotCall, verdictID in Hi. destruct (s_done s) as [ud|] eqn:Ed; [|by apply elem_of_nil in Hi].
  destruct (ud_verdict ud) eqn:Ev; [|by apply elem_of_nil in Hi]. apply list_elem_of_singleton in Hi as ->. eexists (ud_id ud, _). split; [done|].
  apply list_elem_of_bind. exists s. split; [|done]. unfold doneCalls. rewrite Ed, Ev. left.
Qed.

Definition owing (w : world) (i : nat) : Prop := exists ak, w_asked w !! i = Some ak /\ owes (ak_d ak) = true /\ usedIDs (ak_d ak) = [].
Record owed (w : world) : Prop := {
  ow_calls : forall i, owing w i -> i ∈ called (w_conn w) \/ (w_life w = Serving /\ i ∈ calls (w_prog w));
  ow_safe : forall i, owing w i -> safeOps i (w_prog w);
  ow_end : w_life w = Retired -> rq_q (co_rq (w_conn w)) = [];
}.

Lemma owed_op (w : world) o ops revoked wr c x i : owed w -> paired w -> w_prog w = o :: ops -> runOp l id revoked wr o (w_conn w) = (c, x) -> owing w i ->
  safeOps i ops /\ (i ∈ called c \/ (x <> Stop /\ x <> Skip /\ i ∈ calls ops)).
Proof.
  intros Hw Hp Hpr Ho Hi. destruct (paired_tail _ _ _ Hp Hpr) as (Hok & _). pose proof (ow_safe _ Hw _ Hi) as Hs. rewrite Hpr in Hs. destruct Hs as [Hs Hss].
  split; [done|]. pose proof (runOp_called _ _ _ _ _ _ i Ho Hok) as Hca. destruct (ow_calls _ Hw _ Hi) as [?|[_ Hc]]; [left; auto|].
  rewrite Hpr in Hc. unfold calls in Hc. cbn in Hc. apply elem_of_app in Hc as [?|Hc]; [left; auto|]. change (i ∈ calls ops) in Hc.
  pose proof (runOp_effect _ _ _ _ _ _ _ _ Ho Hok) as He. assert ((x <> Stop /\ x <> Skip) \/ (x = Stop \/ x = Skip)) as [Hx|Hx] by (destruct x; auto); [right; tauto|left].
  destruct o as [|a s f|b|n|a|ud out|]; cbn in He; try done.
  - destruct He as (_ & _ & _ & ->). by destruct Hx.
  - apply Hca. destruct (Hs Hc); [auto|]. right; right. by exists a, s, f.
  - destruct He as [(_ & _ & _ & _ & ->)|(_ & _ & _ & [(_ & _ & [->| ->])|(_ & _ & ->)])]; by destruct Hx.
  - destruct He as [_ ->]. by destruct Hx.
Qed.

Lemma owed_start (w : world) x : owed w -> w_life w = Serving -> w_prog w = [] -> idsOf (snd x) = [] -> owed (start x w).
Proof.
  intros Hw Hl Hpr Hid. destruct x as [[c a] ops]. cbn [snd] in Hid. split.
  - intros i Hi. destruct (ow_calls _ Hw i Hi) as [?|[_ Hc]]; [by left|]. rewrite Hpr in Hc. by apply elem_of_nil in Hc.
  - intros i Hi. apply safe_none. intros Hc%calls_ids. change (i ∈ idsOf ops) in Hc. rewrite Hid in Hc. by apply elem_of_nil in Hc.
  - cbn. by rewrite Hl.
Qed.
Lemma owed_ask (w : world) ak g tick pol x : owed w -> w_life w = Serving -> w_prog w = [] -> dc_id (ak_d ak) = length (w_asked w) ->
  (forall i, i ∈ idsOf (snd x) -> i = dc_id (ak_d ak)) ->
  (owes (ak_d ak) = true -> dc_id (ak_d ak) ∈ calls (snd x) /\ (usedIDs (ak_d ak) = [] -> safeOps (dc_id (ak_d ak)) (snd x))) ->
  owed (start x (decidedAs ak g tick pol w)).
Proof.
  intros Hw Hl Hpr Hlen Hid Hx. destruct x as [[c a] ops]. cbn [snd] in *.
  assert (forall i, owing (start (c, a, ops) (decidedAs ak g tick pol w)) i ->
    (owing w i /\ i <> dc_id (ak_d ak)) \/ (i = dc_id (ak_d ak) /\ owes (ak_d ak) = true /\ usedIDs (ak_d ak) = [])) as Hcase.
  { intros i (ak' & Hak & Ho & Hu). cbn in Hak. apply lookup_app_Some in Hak as [Hak|[Hge Hak]].
    - left. split; [by exists ak'|]. apply lookup_lt_Some in Hak. lia.
    - right. apply list_lookup_singleton_Some in Hak as [Hz <-]. split; [lia|done]. }
  split.
  - intros i [[Hi Hne]|(-> & Ho & Hu)]%Hcase; [|right; split; [done|]; by apply Hx]. left.
    destruct (ow_calls _ Hw i Hi) as [?|[_ Hc]]; [done|]. rewrite Hpr in Hc. by apply elem_of_nil in Hc.
  - intros i [[Hi Hne]|(-> & Ho & Hu)]%Hcase; [|by apply Hx]. apply safe_none. intros Hc%calls_ids. by apply Hne, Hid.
  - cbn. by rewrite Hl.
Qed.
Lemma owed_went (w w' : world) o ops revoked wr x : owed w -> paired w -> w_prog w = o :: ops -> runOp l id revoked wr o (w_conn w) = (w_conn w', x) ->
  w_prog w' = ops -> w_asked w' = w_asked w -> w_life w' = Serving -> owed w'.
Proof.
  intros Hw Hp Hpr Ho Hops Hask Hl. assert (forall i, owing w' i -> owing w i) as Hi by (unfold owing; by rewrite Hask).
  split; [intros i Hj%Hi|intros i Hj%Hi|by rewrite Hl]; destruct (owed_op _ _ _ _ _ _ _ _ Hw Hp Hpr Ho Hj) as [? Hc]; rewrite Hops; [|done]. tauto.
Qed.
Lemma owed_conn (w w' : world) : owed w -> (forall i, i ∈ called (w_conn w) -> i ∈ called (w_conn w')) -> w_prog w' = w_prog w -> w_asked w' = w_asked w ->
  w_life w' = w_life w -> (w_life w = Retired -> rq_q (co_rq (w_conn w')) = []) -> owed w'.
Proof.
  intros Hw Hc Hpr Hask Hl He. split; unfold owing; rewrite ?Hpr, ?Hask, ?Hl; [|apply Hw|done]. intros i Hi. destruct (ow_calls _ Hw i Hi); auto.
Qed.
Lemma handle_owes e (w : world) args : owesAction (handle e w args).
Proof. unfold handle. destruct (cm_principal (w_cm w)); [apply owes_command|apply owes_preAuth]. Qed.

Lemma step_owed (w w' : world) : step w w' -> mediated w -> (w_life w <> Retired -> paired w) -> owed w -> owed w'.
Proof.
  intros Hs Hm Hp Hw. destruct Hs as [e args cm a ops Hl Hpr He Ha Hh|e args p u k d g tick pol Hl Hpr He Ha Hh Hd|e args user pass k r Hl Hpr He Ha Hh
    |o ops revoked wr c Hl Hpr Hwa Hb Ho|o ops revoked wr c args r ran b Hl Hpr Hb Ho Hc|o ops revoked wr c Hl Hpr Ho|o ops revoked wr c Hl Hpr Hb Ho|o ops revoked wr c Hl Hpr Hb Ho
    |n ops v Hl Hpr Hg|Hl Hpr|x pend c Hl Hr Hx Hf|x pend e c Hl Hr Hx Hf|c Hl Hr Hwr|Hl Hr Hwr|Hl|r Hmu Hdb|g tick pol]; try (specialize (Hp ltac:(congruence))).
  - pose proof (handle_names e w args) as Hn. rewrite Hh in Hn. by apply owed_start.
  - pose proof (handle_names e w args) as Hn. pose proof (handle_owes e w args) as Hx. rewrite Hh in Hn, Hx.
    apply owed_ask; [done..|by eapply decideUnit_id|apply Hn|apply Hx].
  - pose proof (handle_names e w args) as Hn. rewrite Hh in Hn. apply owed_start; [done..|apply Hn].
  - by eapply (owed_went w _ o ops revoked wr).
  - by eapply (owed_went w _ o ops revoked wr).
  - by eapply (owed_went w _ o ops revoked wr).
  - split; [intros i Hi|done|done]. left. by destruct (owed_op _ _ _ _ _ _ _ _ Hw Hp Hpr Ho Hi) as [? [?|(? & _ & ?)]].
  - split; [intros i Hi|done|by cbn; rewrite Hl]. left. by destruct (owed_op _ _ _ _ _ _ _ _ Hw Hp Hpr Ho Hi) as [? [?|(_ & ? & ?)]].
  - assert (forall cm, owed (set_prog ops (set_conn (setGot None (w_conn w)) (set_cm cm w)))) as Haw by
      (intros cm; by eapply (owed_went (set_conn (setGot None (w_conn w)) w) _ (AwaitSelect n) ops false false); [split; apply Hw|split; apply Hp|..]).
    apply Haw.
  - split; [|done|done]. intros i Hi. left. destruct (ow_calls _ Hw i Hi) as [?|[_ Hc]]; [done|]. pose proof (ow_safe _ Hw i Hi) as Hsa.
    destruct Hpr as [Hpr|(n & ops & Hpr)]; rewrite Hpr in Hc, Hsa; [by apply elem_of_nil in Hc|]. by destruct Hsa.
  - eapply owed_conn; [exact Hw|..]; try done. intros i. by eapply frame_called.
  - eapply owed_conn; [exact Hw|..]; try done. intros i. by eapply frame_called.
  - eapply owed_conn; [exact Hw|..]; try done. intros i. unfold writeSynth in Hwr. unfold called.
    destruct (rq_q (co_rq (w_conn w))) as [|s q] eqn:Eq; [done|]. destruct (s_synth s) eqn:Es; [|done]. injection Hwr as <-.
    pose proof (qo_plain _ (ln_queue _ _ _ _ _ _ _ (pr_lined _ Hp))) as Hq. rewrite Eq in Hq. apply Forall_cons in Hq as [[_ Hq] _].
    cbn. rewrite !elem_of_app. unfold slotCall at 1. rewrite Hq by (unfold isSynth; by rewrite Es). intros [?|[?%elem_of_nil|?]]; auto. done.
  - eapply owed_conn; [exact Hw|..]; done.
  - split; [|by intros i Hi; apply (ow_safe _ Hw)|]. 
    + intros i Hi. left. apply retire_called. by destruct (ow_calls _ Hw i Hi) as [?|[? _]]; [|congruence].
    + intros _. apply retire_q.
  - eapply owed_conn; [exact Hw|..]; try done. apply Hw.
  - eapply owed_conn; [exact Hw|..]; try done. apply Hw.
Qed.
End inv.
