(* ===== verification/ConnDB.v ===== *)
(** * The database of a connection

    The proxy decides a unit for the database it believes the connection is
    in, and waits for the reply of SELECT before it believes anything else.
    Redis runs the unit in that database. *)

From S2P Require Import Prelude GoLib Resp Classify ClassifyFacts Policy Stores Guard GuardScope GuardCheck GuardFrames GuardFacts Decide Accounting Conn ConnDecide ConnWorld ConnFacts ConnInv ConnReplies ConnOrder.

(** ** The operations of a handler *)
Definition selNames : list string := ["SELECT"; "RESET"].
Definition notSel (a : list string) : Prop := redisName a ∉ selNames.
Definition isSel (s : slot) : bool := match s_hook s with Some HSelect => true | _ => false end.
Definition dbOp (o : op) : Prop :=
  match o with
  | Forward a s _ => notSel a /\ isSel s = false
  | WriteNoSlot _ | AwaitSelect _ => False
  | _ => True
  end.
Inductive selProg : list op -> Prop :=
  | sp_bad a f : redisName a = "SELECT" -> selectArg a < 0 -> selProg [Forward a plainSlot f]
  | sp_good a f : redisName a = "SELECT" -> 0 <= selectArg a -> selProg [Forward a (hookSlot false HSelect) f; AwaitSelect (selectArg a)].

Definition dbAction (out : Prop) (x : action) : Prop :=
  match x with
  | Run _ _ ops => Forall dbOp ops \/ (selProg ops /\ out)
  | AskPolicy p u k => forall d, decidedFine u d -> Forall dbOp (snd (k d))
  | AskAuth _ _ k => forall r, Forall dbOp (snd (k r))
  | GoPanic => True
  end.

Lemma dbs_answer b : Forall dbOp [Answer b].
Proof. by repeat constructor. Qed.
Lemma dbs_ensure up dialed f rest : Forall dbOp rest -> Forall dbOp (ensureUpstream up dialed f rest).
Proof.
  intros Hr. unfold ensureUpstream. destruct up; [done|]. destruct dialed; [|by repeat constructor]. repeat (apply Forall_cons; split); [done| |done].
  split; [|done]. unfold notSel, selNames. vm_compute. set_solver.
Qed.
Lemma dbOp_setName e p s f : isSel s = false -> dbOp (Forward (setName e p) s f).
Proof. intros Hs. split; [|done]. unfold notSel, selNames. cbn. set_solver. Qed.
Lemma db_auth out e up f c a args : dbAction out (auth e up f c a args).
Proof.
  unfold auth. assert (forall p dialed, Forall dbOp (ensureUpstream up dialed f [Forward (setName e p) dropSlot f; Answer ("+OK" +:+ CRLF)])) as Hd.
  { intros p dialed. apply dbs_ensure, Forall_cons. split; [by apply dbOp_setName|apply dbs_answer]. }
  destruct args as [|x [|y [|z [|]]]]; try (left; apply dbs_answer); intros [|p dialed]; try apply dbs_answer; apply Hd.
Qed.
Lemma db_helloEnd e up dialed f ver p c a : Forall dbOp (snd (helloEnd e up dialed f ver p c a)).
Proof.
  unfold helloEnd. destruct (ver =s ""); apply dbs_ensure, Forall_singleton; (split; [|done]); unfold notSel, selNames; cbn; set_solver.
Qed.
Lemma db_hello out e up f c a args : dbAction out (hello e up f c a args).
Proof.
  unfold hello. destruct (_ && _ && _); [left; apply dbs_answer|]. destruct (helloOpts _ _) as [[[user pass]|]|r]; [| |left; apply dbs_answer].
  - intros [|p dialed]; [apply dbs_answer|apply db_helloEnd].
  - destruct (cm_principal c) as [p|]; [|left; apply dbs_answer]. pose proof (db_helloEnd e up true f (default "" (args !! 1%nat)) p c a) as Hn.
    destruct (helloEnd _ _ _ _ _ _ _ _) as [[c' a'] ops]. by left.
Qed.
Lemma db_preAuth out e c a args : dbAction out (preAuth e c a args).
Proof.
  unfold preAuth. destruct (Classify args) as [info|]; [|done]. destruct (_ =s "AUTH"); [apply db_auth|]. destruct (_ =s "HELLO"); [apply db_hello|].
  destruct (_ =s "QUIT"); left; by repeat constructor.
Qed.

Lemma dbs_refused e d ops : Forall dbOp ops -> Forall dbOp (reportRefused e d ++ ops).
Proof. unfold reportRefused. destruct (dc_verdictDone d); [|done]. intros Ho. by apply Forall_cons. Qed.
Lemma dbs_refuseTxn r : Forall dbOp (refuseTxn r).
Proof. apply Forall_cons. split; [|apply dbs_answer]. split; [|done]. unfold notSel, selNames. vm_compute. set_solver. Qed.
Lemma dbs_admit p d : (forall r, dc_receipt d = Some r -> redisName r = "EVAL") -> Forall dbOp (admitTxn p d).
Proof.
  intros Hr. unfold admitTxn. rewrite !Forall_app. split_and!.
  - apply Forall_fmap, Forall_true. intros i. split; [|done]. unfold notSel, selNames. cbn. set_solver.
  - destruct (dc_receipt d) as [r|]; [|done]. apply Forall_singleton. split; [|done]. unfold notSel, selNames. rewrite (Hr r eq_refl). set_solver.
  - apply Forall_singleton. split; [|done]. unfold notSel, selNames. vm_compute. set_solver.
Qed.
Lemma notSel_sent args info : Classify args = Some info -> (Name info ∉ selNames) -> notSel (sentArgs args info).
Proof. intros Hc Hn. by apply sentArgs_not. Qed.
Lemma notSel_bareArgs p args info d : Classify args = Some info -> (Name info ∉ selNames) -> rewrittenOK (rewrite_ (dc_unit d)) -> notSel (bareArgs p args d).
Proof.
  intros Hc Hn Hr. unfold bareArgs. destruct (rewrite_ (dc_unit d)) as [r|]; [destruct Hr as [[x ->]|[x ->]]; unfold notSel, selNames; cbn; set_solver|].
  destruct (Allocation (dc_unit d)) as [counter n]. destruct (counter =s "nextinode"); [unfold notSel, selNames; cbn; set_solver|]. by eapply redisName_not.
Qed.
Lemma db_command e p c a args : clientOK args -> cm_subscribed c = false -> dbAction (cm_txn c = None) (command e p c a args).
Proof.
  intros Hok Hs. unfold command. destruct (Classify args) as [info|] eqn:Hc; [|done]. rewrite Hs. fold (sentArgs args info). destruct (Hok _ Hc) as (Hps & _ & Hsel).
  assert (forall n s f, Name info = n -> (n ∉ selNames) -> isSel s = false -> Forall dbOp [Forward (sentArgs args info) s f]) as Hfwd.
  { intros n s f <- Hn Hi. apply Forall_singleton. split; [by apply notSel_sent|done]. }
  destruct (cm_txn c) as [t|].
  - unfold inTxn. destruct (_ =s "EXEC") eqn:E1.
    { unfold exec. destruct (tx_poison t); [left; apply dbs_refuseTxn|]. intros d Hd. cbn [snd]. destruct (dc_deny d) eqn:Ed; [apply dbs_refused, dbs_refuseTxn|].
      apply dbs_admit. by apply (Hd Ed). }
    destruct (_ =s "DISCARD") eqn:E2; [apply eqs_true in E2; left; eapply Hfwd; [exact E2|unfold selNames; set_solver|done]|].
    case_bool_decide as E3; [left; elem_inv E3; (eapply Hfwd; [exact E3|unfold selNames; set_solver|done])|].
    destruct (stateful _ _) eqn:E4; [left; apply dbs_answer|]. left. eapply Hfwd; [done| |done]. unfold stateful in E4. apply orb_false_elim in E4 as [E4 E5].
    apply bool_decide_eq_false in E4, E5. intros Hi. unfold selNames in Hi. elem_inv Hi; [apply E4; rewrite Hi; in_list|].
    apply E5. rewrite (reset_forbidden _ _ Hc Hi). in_list.
  - unfold bare. destruct (_ =s "AUTH"); [apply db_auth|]. destruct (_ =s "HELLO"); [apply db_hello|].
    destruct (_ =s "QUIT") eqn:E1; [apply eqs_true in E1; left; eapply Hfwd; [exact E1|unfold selNames; set_solver|done]|].
    destruct (_ =s "SELECT") eqn:E2.
    { apply eqs_true in E2. assert (sentArgs args info = args) as -> by (apply sentArgs_plain; [done|rewrite E2; unfold evalNames; set_solver]).
      specialize (Hsel E2). unfold selectDB. destruct (Z.ltb_spec (selectArg args) 0); [right; split; [by apply sp_bad|done]|].
      destruct (_ && _); [left; apply dbs_answer|right; split; [by apply sp_good|done]]. }
    apply eqs_false in E2. destruct (_ =s "MULTI") eqn:E3; [apply eqs_true in E3; left; eapply Hfwd; [exact E3|unfold selNames; set_solver|done]|].
    case_bool_decide as E4; [left; elem_inv E4; (eapply Hfwd; [exact E4|unfold selNames; set_solver|done])|].
    destruct (_ =s "WATCH") eqn:E5; [apply eqs_true in E5; left; eapply Hfwd; [exact E5|unfold selNames; set_solver|done]|].
    destruct (_ && _); [left; apply Forall_singleton; by apply dbOp_setName|].
    unfold byClass. destruct (decide (Name info = "RESET")) as [Er|Er]; [rewrite (reset_forbidden _ _ Hc Er); left; apply dbs_answer|].
    assert (Name info ∉ selNames) as Hn by (unfold selNames; set_solver).
    assert (dbAction True (gateBare e p c a (sentArgs args info) info)) as Hg.
    { intros d Hd. cbn [snd]. destruct (dc_deny d) eqn:Ed; [apply dbs_refused, dbs_answer|]. apply Forall_singleton. split; [|unfold bareHook, isSel; cbn].
      - destruct (Hd Ed) as (_ & Hr & _). destruct (sentArgs_classify _ _ Hc) as (info' & E6 & _ & E7). eapply notSel_bareArgs; [exact E6| |done].
        destruct E7 as [->|[_ Hi]]; [done|]. unfold evalNames in Hi. unfold selNames. elem_inv Hi; rewrite Hi; set_solver.
      - destruct (Allocation _) as [counter n]. by repeat destruct (_ =s _). }
    destruct (CClass info) eqn:Ecl; try done; try (left; apply dbs_answer).
    all: try (destruct (needsGate info); [exact Hg|left; by eapply Hfwd]).
Qed.

(** ** The invariant *)
Definition noSel (q : list slot) : Prop := Forall (fun s => isSel s = false) q.
Definition queuedPlain (m : txnView) : Prop := match m with Some (Some b) => Forall notSel b | _ => True end.

Lemma txn_plain m a m' ran : txn_step m a m' ran -> queuedPlain m -> notSel a -> queuedPlain m' /\ Forall notSel ran.
Proof.
  intros Hs Hq Ha. assert (Forall notSel [a]) as Ha1 by (by apply Forall_singleton).
  destruct Hs as [| ? ? ? [->| ->]| | | | | |]; cbn in *; split; try done; try (by apply Forall_nil_2). by apply Forall_app.
Qed.
Lemma notSel_names a : notSel a -> redisName a <> "SELECT" /\ redisName a <> "RESET".
Proof. intros Hn. split; intros He; apply Hn; unfold selNames; rewrite He; in_list. Qed.
Lemma selectArg_ok s n : 0 <= n -> is_i64 n -> selectArg [s; FormatInt n] = n.
Proof. intros Hn Hi. unfold selectArg. rewrite ParseInt_FormatInt by done. destruct (Z.leb_spec 0 n); [done|lia]. Qed.

Section inv.
Context {R S T P : Type} `{Server R} `{!ServerLaws R} `{SessionStore S} `{SliceStore T} `{Policy P}.
Context (l : pending) (id : Z).
Context (perm : forall A : Type, list A -> list A) (clock : nat -> Z).
Context (checkReplacements : nat -> Unit -> option Denial * option (list string)) (auditStart : nat -> Unit -> bool -> option Denial * bool).
Hypothesis receipts_are_scripts : forall i u r, checkReplacements i u = (None, Some r) -> redisName r = "EVAL".
Abbreviation world := (world R S T P).
Abbreviation step := (cstep (R := R) (S := S) (T := T) (P := P) l id clientOK perm clock checkReplacements auditStart).
Abbreviation mediated := (mediated (R := R) (S := S) (T := T) (P := P) checkReplacements).
Abbreviation qOf w := (rq_q (co_rq (w_conn w))).

(** The two agree and no SELECT is under way. *)
Definition settled (w : world) : Prop := srv_db (w_srv w) = cm_db (w_cm w) /\ co_got (w_conn w) = None /\ noSel (qOf w).

(** The reply [v] of SELECT [n] says where Redis is. *)
Definition tellsDB (w : world) (n : Z) (v : Value) : Prop := srv_db (w_srv w) = if Ascii.eqb (VType v) "+" then n else cm_db (w_cm w).
Definition coming (w : world) (n : Z) : Prop :=
  exists q pend x info v, qOf w = q ++ [hookSlot false HSelect] /\ noSel q /\ w_pend w = pend ++ [x] /\ frameOf (pe_reply x) info v /\ tellsDB w n v.
Definition waits (w : world) (n : Z) : Prop :=
  (co_got (w_conn w) = None /\ coming w n) \/
  (exists v, co_got (w_conn w) = Some v /\ noSel (qOf w) /\ tellsDB w n v) \/
  (co_got (w_conn w) = None /\ noSel (qOf w) /\ w_reply w = RDead).

Definition dbState (w : world) : Prop :=
  (Forall dbOp (w_prog w) /\ settled w) \/
  (selProg (w_prog w) /\ srv_multi (w_srv w) = None /\ settled w) \/
  (exists n, w_prog w = [AwaitSelect n] /\ waits w n).
Definition based (w : world) : Prop := w_life w = Serving -> w_broken w = false -> queuedPlain (srv_multi (w_srv w)) /\ dbState w.

Lemma based_start (w w' : world) out : based w -> mediated w -> w_life w = Serving -> w_prog w = [] -> w_broken w' = w_broken w -> w_srv w' = w_srv w ->
  cm_db (w_cm w') = cm_db (w_cm w) -> co_got (w_conn w') = co_got (w_conn w) -> co_rq (w_conn w') = co_rq (w_conn w) ->
  (out -> cm_txn (w_cm w) = None) -> Forall dbOp (w_prog w') \/ (selProg (w_prog w') /\ out) -> based w'.
Proof.
  intros Hb Hm Hl Hp Eb Es Ed Eg Eq Ho Hpr _ Hbr. rewrite Eb in Hbr. destruct (Hb Hl Hbr) as [Hqp Hst]. rewrite Es. split; [done|].
  assert (settled w') as Hse.
  { unfold settled. rewrite Es, Ed, Eg, Eq. destruct Hst as [[_ ?]|[[Hs _]|(n & Hn & _)]]; [done|rewrite Hp in Hs; inversion Hs|congruence]. }
  destruct Hpr as [?|[Hs Hout]]; [by left|]. right; left. split_and!; [done| |done]. rewrite Es.
  destruct (ready_synced _ _ Hm Hl Hp) as (m & Hsy & Hmm). rewrite <- (Hmm Hbr). apply (synced_out _ _ Hsy), Ho, Hout.
Qed.

Lemma noSel_effect o (c c' : conn S T) x : effect l c o c' x -> dbOp o -> noSel (rq_q (co_rq c)) -> noSel (rq_q (co_rq c')).
Proof.
  intros He Hd Hn. assert (forall s, isSel s = false -> noSel (rq_q (co_rq c) ++ [s])) as Happ.
  { intros s Hs. apply Forall_app. split; [done|by apply Forall_singleton]. }
  destruct o; cbn in He; try done.
  - by destruct He as (-> & _).
  - destruct He as [(_ & _ & -> & _)|[(-> & _) _]]; [|done]. apply Happ, Hd.
  - destruct He as [(_ & _ & -> & _)|(_ & _ & _ & [(_ & -> & _)|(_ & -> & _)])]; [done| |by apply Happ].
    cbn. apply Forall_app. split; [by apply Happ|by apply Forall_singleton].
  - by destruct He as [(-> & _) _].
  - by destruct He as [(-> & _) _].
Qed.

Lemma based_op (w : world) o ops revoked wr c : based w -> paired w -> w_life w = Serving -> w_prog w = o :: ops -> isAwait o = false ->
  runOp l id revoked wr o (w_conn w) = (c, Went None) -> based (set_conn c (set_prog ops (set_due (w_due w ++ dueOf o) w))).
Proof.
  intros Hb Hpa Hl Hp Hw Ho _ Hbr. destruct (Hb Hl Hbr) as [Hqp Hst]. split; [done|]. destruct (paired_tail _ _ _ Hpa Hp) as (Hok & _).
  pose proof (runOp_none _ _ _ _ _ _ _ Ho) as Hsi. destruct Hst as [[Hd (E1 & E2 & E3)]|[[Hs _]|(n & Hn & _)]].
  - left. rewrite Hp in Hd. apply Forall_cons in Hd as [Hd Hds]. split; [done|]. split; [done|]. cbn. split; [by rewrite (runOp_got _ _ _ _ _ _ _ _ Ho)|].
    eapply noSel_effect; [by eapply runOp_effect|done..].
  - rewrite Hp in Hs. by inversion Hs; subst.
  - rewrite Hp in Hn. by injection Hn as -> _.
Qed.

(** Redis took a command. *)
Lemma based_send (w : world) o ops revoked wr c args r ran b : based w -> mediated w -> paired w -> w_life w = Serving -> w_prog w = o :: ops -> w_broken w = false ->
  runOp l id revoked wr o (w_conn w) = (c, Went (Some args)) -> srv_call (w_srv w) args r ran b ->
  based (delivered o r ran b (set_conn c (set_prog ops (set_due (w_due w ++ dueOf o) w)))) /\ srv_db (w_srv w) = cm_db (w_cm w).
Proof.
  intros Hb Hm Hpa Hl Hp Hbr Ho Hc. destruct (Hb Hl Hbr) as [Hqp Hst]. destruct (paired_tail _ _ _ Hpa Hp) as (Hok & _).
  pose proof (runOp_effect _ _ _ _ _ _ _ _ Ho Hok) as He. pose proof (runOp_got _ _ _ _ _ _ _ _ Ho) as Hg. destruct (runOp_some _ _ _ _ _ _ _ _ Ho) as [Hu _].
  assert (plainTxn (srv_multi (w_srv w)) args) as Hpt.
  { destruct (md_leads _ _ Hm Hl Hbr) as (K & _ & HL). rewrite Hp in HL. destruct HL as (_ & HL & _). by apply HL. }
  pose proof (sl_txn _ _ _ _ _ Hc Hpt) as Htx. destruct Hst as [[Hd (E1 & E2 & E3)]|[(Hs & Hmu & E1 & E2 & E3)|(n & Hn & _)]].
  - rewrite Hp in Hd. apply Forall_cons in Hd as [Hd Hds]. split; [|done]. assert (notSel args) as Hns.
    { destruct o; cbn in Hu, Hd; try done; injection Hu as <-; [by destruct Hd|]. unfold notSel, selNames. vm_compute. set_solver. }
    destruct (txn_plain _ _ _ _ Htx Hqp Hns) as [Hqp' Hran]. intros _ _. split; [done|]. left. split; [done|]. split; cbn; [|split; [by rewrite Hg|by eapply noSel_effect]].
    rewrite <- E1. destruct (notSel_names _ Hns). eapply sl_db; [exact Hc|done..|]. eapply Forall_impl; [exact Hran|]. intros x Hx. by apply notSel_names.
  - split; [|done]. intros _ _. rewrite Hp in Hs.
    assert (srv_multi r = None) as Hmr by (rewrite Hmu in Htx; inversion Hs; subst; injection Hu as <-; apply (txn_out _ _ _ Htx); congruence).
    split; [cbn; by rewrite Hmr|]. destruct (sl_frame _ _ _ _ _ Hc) as (info & v & Hf). inversion Hs as [a f Hna Har Eo|a f Hna Har Eo]; subst; injection Hu as <-.
    all: pose proof (sl_select _ _ _ _ _ _ _ Hc Hf Hna Hmu) as Hse; destruct He as [(_ & _ & Hq & _)|[_ [?|?]]]; try done.
    + left. split; [by apply Forall_nil_2|]. split; cbn; [|split; [by rewrite Hg|rewrite Hq; apply Forall_app; split; [done|by apply Forall_singleton]]].
      destruct (VType v =? "+")%char; [|congruence]. destruct Hse as (n & s & -> & ? & ? & _). rewrite selectArg_ok in Har; [lia|done..].
    + right; right. eexists. split; [done|]. left. cbn. split; [by rewrite Hg|]. exists (qOf w), (w_pend w). eexists _, info, v. split_and!; [cbn; by rewrite Hq|done..|].
      unfold tellsDB. cbn. destruct (VType v =? "+")%char; [|congruence]. destruct Hse as (n & s & -> & ? & ? & ->). by rewrite selectArg_ok.
  - rewrite Hp in Hn. injection Hn as -> _. done.
Qed.

(** The reply goroutine. *)
Lemma gotBy_plain s v old : isSel s = false -> gotBy s v old = old.
Proof. unfold isSel, gotBy. intros Hs. destruct (_ || _); [done|]. destruct (s_hook s) as [[]|]; done. Qed.
Lemma based_frame (w : world) x pend y c pc : based w -> paired w -> w_reply w = RIdle -> w_pend w = x :: pend -> frame l id (pe_reply x) (w_conn w) = (y, c) ->
  match y with Ok _ => pc = RDrain | Err _ => pc = RDead end -> based (set_reply pc (set_pend pend (set_conn c w))).
Proof.
  intros Hb Hp Hr Hx Hf Hpc Hl Hbr. destruct (Hb Hl Hbr) as [Hqp Hst]. split; [done|].
  destruct (paired_head _ _ _ Hp Hr Hx) as (s & q & Hq & Hs & Ht & Hraw & (info & v & Hfo & _)).
  destruct (frame_pops l id s q _ _ _ (w_conn w) Hfo Hraw Hq Hs Ht) as (c1 & y1 & E & Hy). rewrite Hf in E. injection E as <- <-.
  assert (rq_q (co_rq c) = q /\ co_got c = match y with Ok _ => gotBy s v (co_got (w_conn w)) | Err _ => co_got (w_conn w) end) as [Hq' Hg].
  { destruct y; destruct Hy as [_ HV]; injection HV as -> _ _ _ ->; done. }
  assert (forall g, isSel s = false -> co_got (w_conn w) = g -> co_got c = g) as Hkeep by (intros g Hns <-; rewrite Hg; destruct y; [by apply gotBy_plain|done]).
  assert (settled w -> settled (set_reply pc (set_pend pend (set_conn c w)))) as Hset.
  { intros (E1 & E2 & E3). rewrite Hq in E3. apply Forall_cons in E3 as [E3 E4]. split; [done|]. cbn. rewrite Hq'. split; [by apply Hkeep|done]. }
  destruct Hst as [[Hd Hst]|[(Hd & Hmu & Hst)|(n & Hn & Hw)]]; [left; auto|right; left; auto|]. right; right. exists n. split; [done|].
  destruct Hw as [[Eg (q1 & pend1 & x1 & info1 & v1 & Eq & En & Ep & Ef & Et)]|[(v1 & Eg & En & Et)|(_ & _ & ?)]]; [| |congruence].
  - rewrite Hq in Eq. destruct q1 as [|s1 q1]; injection Eq as -> ->.
    + destruct pend1 as [|x2 pend1]; [|exfalso]; rewrite Ep in Hx; injection Hx as -> Hx.
      2: { pose proof (lined_full _ _ _ _ _ _ (eq_rect _ (lined _ _ _ _ _ _) (pr_lined _ Hp) _ Hbr)) as Hlen. rewrite Hq, Ep, fwds_fwd in Hlen by done.
           cbn in Hlen. rewrite length_app in Hlen. cbn in Hlen. lia. }
      destruct Hfo as (_ & Hv & _), Ef as (_ & Hv1 & _). rewrite Hv in Hv1. injection Hv1 as <-. destruct y.
      * right; left. exists v. cbn. rewrite Hg, Hq'. split_and!; [done|by apply Forall_nil_2|done].
      * right; right. cbn. rewrite Hg, Hq'. split_and!; [done|by apply Forall_nil_2|done].
    + apply Forall_cons in En as [En1 En]. destruct pend1 as [|x2 pend1]; [exfalso|]; rewrite Ep in Hx; injection Hx as -> Hx.
      { pose proof (lined_full _ _ _ _ _ _ (eq_rect _ (lined _ _ _ _ _ _) (pr_lined _ Hp) _ Hbr)) as Hlen. rewrite Hq, Ep, fwds_fwd, fwds_app in Hlen by done.
        cbn in Hlen. rewrite length_app in Hlen. cbn in Hlen. lia. }
      left. cbn. split; [by apply Hkeep|]. exists q1, pend1, x1, info1, v1. cbn. rewrite Hq'. done.
  - rewrite Hq in En. apply Forall_cons in En as [En1 En]. right; left. exists v1. cbn. rewrite Hq'. split_and!; [by apply Hkeep|done|done].
Qed.
Lemma based_synth (w : world) c : based w -> writeSynth l (w_conn w) = Some c -> based (set_conn c w).
Proof.
  intros Hb Hw Hl Hbr. destruct (Hb Hl Hbr) as [Hqp Hst]. split; [done|]. unfold writeSynth in Hw. destruct (qOf w) as [|s q] eqn:Eq; [done|].
  destruct (s_synth s) as [b|] eqn:Es; [|done]. injection Hw as <-.
  assert (noSel (s :: q) -> noSel q) as Htl by (by intros [_ ?]%Forall_cons).
  assert (settled w -> settled (set_conn (write b (setRQ (popSynth l b q (co_rq (w_conn w))) (w_conn w))) w)) as Hset.
  { intros (E1 & E2 & E3). rewrite Eq in E3. split; [done|]. cbn. auto. }
  destruct Hst as [[Hd Hst]|[(Hd & Hmu & Hst)|(n & Hn & Hwt)]]; [left; auto|right; left; auto|]. right; right. exists n. split; [done|].
  destruct Hwt as [[Eg (q1 & pend1 & x1 & info1 & v1 & Eq1 & En & Ep & Ef & Et)]|[(v1 & Eg & En & Et)|(Eg & En & Er)]].
  - left. split; [done|]. rewrite Eq in Eq1. destruct q1 as [|s1 q1]; injection Eq1 as -> ->; [done|]. apply Forall_cons in En as [_ En]. by exists q1, pend1, x1, info1, v1.
  - right; left. rewrite Eq in En. exists v1. split_and!; [done|by apply Htl|done].
  - right; right. rewrite Eq in En. split_and!; [done|by apply Htl|done].
Qed.

Lemma handle_dbs e (w : world) args : clientOK args -> mediated w -> dbAction (cm_txn (w_cm w) = None) (handle e w args).
Proof. intros Hok Hm. unfold handle. destruct (cm_principal (w_cm w)); [apply db_command; [done|apply Hm]|apply db_preAuth]. Qed.

Lemma step_based (w w' : world) : step w w' -> mediated w -> (w_life w <> Retired -> paired w) -> based w -> based w'.
Proof.
  intros Hs Hm Hp Hb. destruct Hs as [e args cm a ops Hl Hpr He Ha Hh|e args p u k d g tick pol Hl Hpr He Ha Hh Hd|e args user pass k r Hl Hpr He Ha Hh
    |o ops revoked wr c Hl Hpr Hwa Hbr Ho|o ops revoked wr c args r ran b Hl Hpr Hbr Ho Hc|o ops revoked wr c Hl Hpr Ho|o ops revoked wr c Hl Hpr Hbr Ho|o ops revoked wr c Hl Hpr Hbr Ho
    |n ops v Hl Hpr Hg|Hl Hpr|x pend c Hl Hr Hx Hf|x pend e c Hl Hr Hx Hf|c Hl Hr Hwr|Hl Hr Hwr|Hl|r Hmu Hdb|g tick pol];
    try (specialize (Hp ltac:(congruence))); try (by intros ? ?).
  - pose proof (handle_dbs e w args Ha Hm) as Hx. pose proof (handle_db e w args) as Hd. rewrite Hh in Hx, Hd. eapply (based_start w _ (cm_txn (w_cm w) = None)); done.
  - pose proof (handle_dbs e w args Ha Hm) as Hx. pose proof (handle_db e w args) as Hdb. rewrite Hh in Hx, Hdb.
    pose proof (handle_asks e w args) as Hask. rewrite Hh in Hask. destruct Hask as [Hrw _]. specialize (Hdb d). assert (decidedFine u d) as Hdf.
    { intros Hdn. destruct (decideUnit_passes _ _ _ _ _ _ _ _ _ _ _ _ _ _ _ Hd Hdn) as [E1 _ E2 _ _ _ (rc & E3 & E4)]. split_and!; [done|by apply E1|].
      intros r0 Hr0. eapply receipts_are_scripts. rewrite E3, <- E4. by rewrite Hr0. }
    specialize (Hx d Hdf). destruct (k d) as [[cm a] ops]. eapply (based_start w _ False); try done. by left.
  - pose proof (handle_dbs e w args Ha Hm) as Hx. pose proof (handle_db e w args) as Hdb. rewrite Hh in Hx, Hdb. specialize (Hx r). specialize (Hdb r).
    destruct (k r) as [[cm a] ops]. eapply (based_start w _ False); try done. by left.
  - by apply (based_op w o ops revoked wr).
  - eapply based_send; try done. apply runOp_some in Ho as [_ ->]. destruct (w_broken w); [by specialize (Hbr eq_refl)|done].
  - intros _ Hbk. destruct (Hb Hl Hbk) as [Hqp Hst]. split; [done|]. destruct Hst as [[Hd _]|[(Hs & _)|(n' & Hn & Hw)]].
    + rewrite Hpr in Hd. by apply Forall_cons in Hd as [? _].
    + rewrite Hpr in Hs. inversion Hs.
    + rewrite Hpr in Hn. injection Hn as <- ->. left. split; [by apply Forall_nil_2|].
      destruct Hw as [[Eg _]|[(v1 & Eg & En & Et)|(Eg & _)]]; [congruence| |congruence]. rewrite Hg in Eg. injection Eg as <-.
      unfold tellsDB in Et. split; [|done]. cbn. rewrite Et. by destruct (VType v =? "+")%char.
  - by eapply based_frame.
  - by eapply based_frame.
  - by apply based_synth.
  - intros Hl' Hbr. destruct (Hb Hl' Hbr) as [Hqp Hst]. split; [done|]. destruct Hst as [?|[?|(n & Hn & Hw)]]; [by left|by right; left|]. right; right. exists n. split; [done|].
    destruct Hw as [?|[?|(_ & _ & ?)]]; [by left|by right; left|congruence].
  - intros Hl Hbr. destruct (Hb Hl Hbr) as [Hqp Hst]. cbn. rewrite Hmu. split; [done|]. unfold dbState, settled, waits, coming, tellsDB in *. cbn. rewrite Hdb, Hmu. exact Hst.
  - exact Hb.
Qed.

(** ** Where units ran *)
Definition ranIn (asked : list ask) (r : run) : Prop := forall i ak, rn_unit r = Some i -> asked !! i = Some ak -> rn_db r = DB (ak_u ak).

Lemma step_ranIn (w w' : world) : step w w' -> mediated w -> (w_life w <> Retired -> paired w) -> based w ->
  Forall (ranIn (w_asked w)) (w_ran w) -> Forall (ranIn (w_asked w')) (w_ran w').
Proof.
  intros Hs Hm Hp Hb Hr. assert (forall x (v : world), w_asked (start x v) = w_asked v /\ w_ran (start x v) = w_ran v) as Hst by (by intros [[? ?] ?] v).
  destruct Hs as [e args cm a ops Hl Hpr He Ha Hh|e args p u k d g tick pol Hl Hpr He Ha Hh Hd|e args user pass k r Hl Hpr He Ha Hh
    |o ops revoked wr c Hl Hpr Hwa Hbr Ho|o ops revoked wr c args r ran b Hl Hpr Hbr Ho Hc|o ops revoked wr c Hl Hpr Ho|o ops revoked wr c Hl Hpr Hbr Ho|o ops revoked wr c Hl Hpr Hbr Ho
    |n ops v Hl Hpr Hg|Hl Hpr|x pend c Hl Hrp Hx Hf|x pend e c Hl Hrp Hx Hf|c Hl Hrp Hwr|Hl Hrp Hwr|Hl|r Hmu Hdb|g tick pol]; try exact Hr.
  - rewrite (proj1 (Hst _ _)), (proj2 (Hst _ _)). apply Forall_forall. intros r0 Hr0 i ak Hi. destruct (md_once _ _ Hm) as [_ Hlt]. rewrite Forall_forall in Hlt. rewrite Forall_forall in Hr.
    assert (i < length (w_asked w))%nat as Hil by (apply Hlt; apply list_elem_of_omap; by exists r0). cbn. rewrite lookup_app_l by done. by apply (Hr r0).
  - by rewrite (proj1 (Hst _ _)), (proj2 (Hst _ _)).
  - specialize (Hp ltac:(congruence)). assert (w_broken w = false) as Hbk. { apply runOp_some in Ho as [_ ->]. destruct (w_broken w); [by specialize (Hbr eq_refl)|done]. }
    destruct (based_send _ _ _ _ _ _ _ _ _ _ Hb Hm Hp Hl Hpr Hbk Ho Hc) as [_ Hdb].
    destruct (send_leads _ _ _ _ _ _ _ _ _ _ _ _ _ Hm Hl Hpr Hbk Ho Hc) as (_ & K & HK & _ & Hpm & _). apply Forall_app. split; [done|].
    destruct ran as [|a0 ran]; [by apply Forall_nil_2|]. apply Forall_singleton. intros i ak Hi Hak. cbn in Hi, Hak |- *. destruct (opGated o) eqn:Eo; [|done]. injection Hi as <-.
    destruct Hpm as [?|[[? _]|[_ HKe]]]; [done|congruence|]. destruct (HK _ HKe) as (ak' & E1 & _ & _ & E2 & _). rewrite last_lookup, Hak in E1. injection E1 as <-. congruence.
Qed.
End inv.
