(* ===== verification/ConnRuns.v ===== *)
(** * A concrete Redis and runs of a connection

    [miniRedis] keeps the MULTI state and the database of one Redis
    connection, answers as Redis documents, and runs at most eight commands in
    a transaction; it satisfies [ServerLaws].  [runs] drives a connection
    along a list of choices, and every run is one of [cstep]. *)

From S2P Require Import Prelude GoLib GoTime Resp Classify ClassifyFacts Policy Stores Guard GuardScope GuardCheck GuardTheorems Decide Conn ConnDecide ConnWorld ConnFacts.

(** ** Redis *)
Module miniRedis.
Record t : Type := mk { multi : txnView; db : Z }.

Definition ok : string := "+OK" +:+ CRLF.
Definition queued : string := "+QUEUED" +:+ CRLF.
Definition arity : string := "-ERR wrong number of arguments" +:+ CRLF.
Definition nested : string := "-ERR Command not allowed inside a transaction" +:+ CRLF.
Definition outside : string := "-ERR without MULTI" +:+ CRLF.
Definition aborted : string := "-EXECABORT Transaction discarded because of previous errors." +:+ CRLF.
Definition range : string := "-ERR DB index is out of range" +:+ CRLF.

Definition maxBody : nat := 8.
Definition results (n : nat) : string := "*" +:+ FormatInt (Z.of_nat n) +:+ CRLF +:+ String.concat "" (replicate n ok).

(** SELECT changes the database; every other command leaves it. *)
Definition selects (a : list string) : option Z :=
  match a with
  | [_; s] => let '(n, good) := ParseInt s in if good && (0 <=? n) && (n <? 16) && (FormatInt n =s s) then Some n else None
  | _ => None
  end.
Definition runDB (d : Z) (a : list string) : Z := if redisName a =s "SELECT" then default d (selects a) else d.

Definition call (r : t) (a : list string) : t * list (list string) * string :=
  let n := redisName a in
  let one := Nat.eqb (length a) 1 in
  match multi r with
  | None =>
      if n =s "MULTI" then (if one then (mk (Some (Some [])) (db r), [], ok) else (r, [], arity))
      else if bool_decide (n ∈ ["EXEC"; "DISCARD"; "RESET"]) then (r, [], outside)
      else if bool_decide (n ∈ ["WATCH"; "UNWATCH"]) then (r, [], ok)
      else if n =s "SELECT" then
        match selects a with Some d => (mk None d, [a], ok) | None => (r, [], range) end
      else (r, [a], ok)
  | Some m =>
      if bool_decide (n ∈ ["EXEC"; "DISCARD"]) then
        if negb one then (mk (Some None) (db r), [], arity)
        else if n =s "DISCARD" then (mk None (db r), [], ok)
        else match m with
             | Some body => if Nat.leb (length body) maxBody then (mk None (foldl runDB (db r) body), body, results (length body))
                            else (mk None (db r), [], aborted)
             | None => (mk None (db r), [], aborted)
             end
      else if bool_decide (n ∈ ["MULTI"; "WATCH"; "QUIT"; "RESET"]) then (r, [], nested)
      else (mk (Some ((fun b => b ++ [a]) <$> m)) (db r), [], queued)
  end.
End miniRedis.

#[export] Instance mini_redis : Server miniRedis.t := {
  srv_call r a r' ran b := miniRedis.call r a = (r', ran, b);
  srv_multi := miniRedis.multi;
  srv_db := miniRedis.db;
}.

(** What a reply is. *)
Definition infoOf (b : string) : FrameInfo := match CopyFrame upBuf b with Ok (i, _, _) => i | Err _ => mkFrameInfo " " false end.
Definition valueOf (b : string) : Value := match ReadValue teeBuf b with Ok (v, _) => v | Err _ => mkValue " " "" 0 [] true end.
Lemma frameOf_fun b info v : frameOf b info v -> info = infoOf b /\ v = valueOf b.
Proof. intros (E1 & E2 & _). unfold infoOf, valueOf. by rewrite E1, E2. Qed.

Definition replies : list string :=
  [miniRedis.ok; miniRedis.queued; miniRedis.arity; miniRedis.nested; miniRedis.outside; miniRedis.aborted; miniRedis.range] ++
  (miniRedis.results <$> seq 0 9).
Definition isFrame (b : string) : bool :=
  match CopyFrame upBuf b, ReadValue teeBuf b, b with
  | Ok (_, b', rest), Ok (_, rest'), String t _ => (b' =s b) && (rest =s "") && (rest' =s "") && negb (Ascii.eqb t ">")
  | _, _, _ => false
  end.
Lemma isFrame_frameOf b : isFrame b = true -> frameOf b (infoOf b) (valueOf b).
Proof.
  unfold isFrame, frameOf, infoOf, valueOf. destruct (CopyFrame upBuf b) as [[[info b'] rest]|]; [|done]. destruct (ReadValue teeBuf b) as [[v rest']|]; [|done].
  destruct b as [|t r]; [done|]. rewrite !andb_true_iff. intros [[[->%eqs_true ->%eqs_true] ->%eqs_true] Ht]. split_and!; [done..|].
  exists t, r. split; [done|]. intros ->. done.
Qed.
Lemma replies_frames b : b ∈ replies -> frameOf b (infoOf b) (valueOf b).
Proof.
  intros Hb. apply isFrame_frameOf. assert (forallb isFrame replies = true) as Hall by (vm_compute; reflexivity).
  rewrite forallb_forall in Hall. apply Hall. by apply list_elem_of_In.
Qed.
Lemma call_replies r a r' ran b : miniRedis.call r a = (r', ran, b) -> b ∈ replies.
Proof.
  unfold miniRedis.call, replies. rewrite elem_of_app.
  repeat (match goal with |- (match ?x with _ => _ end) = _ -> _ => destruct x eqn:? end); intros [= <- <- <-]; try (left; in_list).
  right. apply list_elem_of_fmap. eexists. split; [done|]. apply elem_of_seq. unfold miniRedis.maxBody in *.
  match goal with E : Nat.leb _ _ = true |- _ => apply Nat.leb_le in E end. lia.
Qed.

Lemma runDB_plain d a : redisName a <> "SELECT" -> miniRedis.runDB d a = d.
Proof. intros Hn. unfold miniRedis.runDB. destruct (_ =s "SELECT") eqn:E; [by apply eqs_true in E|done]. Qed.
Lemma runDB_body body d : Forall (fun c => redisName c <> "SELECT" /\ redisName c <> "RESET") body -> foldl miniRedis.runDB d body = d.
Proof. induction 1 as [|a body [Ha _] _ IH]; [done|]. cbn. by rewrite runDB_plain. Qed.
Lemma selects_spec a n : miniRedis.selects a = Some n -> exists s, a = [s; FormatInt n] /\ 0 <= n /\ is_i64 n.
Proof.
  unfold miniRedis.selects. destruct a as [|s [|s' [|]]]; try done. destruct (ParseInt s') as [m good] eqn:Ep. destruct (_ && _) eqn:E; [|done]. intros [= <-].
  rewrite !andb_true_iff in E. destruct E as [[[_ E2] E3] <-%eqs_true]. exists s. split; [done|]. apply ParseInt_range in Ep. split; [lia|done].
Qed.

Lemma mini_txn r a r' ran b : miniRedis.call r a = (r', ran, b) -> plainTxn (miniRedis.multi r) a ->
  txn_step (miniRedis.multi r) a (miniRedis.multi r') ran.
Proof.
  unfold miniRedis.call, plainTxn. destruct r as [[m|] d]; cbn [miniRedis.multi miniRedis.db].
  - intros Hc (Hq & Hr & Hlen). case_bool_decide as E1.
    + rewrite (Hlen E1) in Hc. cbn [Nat.eqb negb] in Hc. destruct (_ =s "DISCARD") eqn:E2.
      { apply eqs_true in E2. injection Hc as <- <- <-. by apply t_discard; auto. }
      apply eqs_false in E2. assert (redisName a = "EXEC") as He by (elem_inv E1; done).
      destruct m as [body|]; [|injection Hc as <- <- <-; apply t_abort; auto]. destruct (Nat.leb _ _); injection Hc as <- <- <-; [apply t_exec|apply t_abort]; auto.
    + case_bool_decide as E2.
      * injection Hc as <- <- <-. apply t_nested. elem_inv E2; try done; rewrite E2; in_list.
      * injection Hc as <- <- <-. assert (redisName a ∉ ["EXEC"; "DISCARD"; "QUIT"; "RESET"]) as Hn by (intros Hi; elem_inv Hi; first [done|apply E1; rewrite Hi; in_list]).
        destruct m as [body|]; [|by apply t_error]. apply t_queue. unfold inMultiNames. intros Hi.
        elem_inv Hi; try done; first [apply E1; rewrite Hi; in_list|apply E2; rewrite Hi; in_list].
  - intros Hc Hlen. destruct (_ =s "MULTI") eqn:E1.
    + apply eqs_true in E1. rewrite (Hlen E1) in Hc. injection Hc as <- <- <-. apply t_multi; auto.
    + apply eqs_false in E1. repeat (match type of Hc with (match ?x with _ => _ end) = _ => destruct x end); injection Hc as <- <- <-; apply t_bare; auto.
Qed.
Lemma mini_exec r r' ran b : miniRedis.call r ["EXEC"] = (r', ran, b) -> miniRedis.multi r <> None ->
  if isArray (infoOf b) then miniRedis.multi r = Some (Some ran) else ran = [].
Proof.
  unfold miniRedis.call. destruct r as [[m|] d]; [|done]. intros Hc _. cbn [miniRedis.multi miniRedis.db] in *.
  destruct m as [body|]; [|injection Hc as <- <- <-; by vm_compute].
  change ((if Nat.leb (length body) miniRedis.maxBody then (miniRedis.mk None (foldl miniRedis.runDB d body), body, miniRedis.results (length body))
           else (miniRedis.mk None d, [], miniRedis.aborted)) = (r', ran, b)) in Hc.
  destruct (Nat.leb (length body) miniRedis.maxBody) eqn:E; injection Hc as _ <- <-.
  - assert (forallb (fun n => isArray (infoOf (miniRedis.results n))) (seq 0 9) = true) as Hall by (vm_compute; reflexivity).
    rewrite forallb_forall in Hall. rewrite Hall; [done|]. apply in_seq. apply Nat.leb_le in E. unfold miniRedis.maxBody in E. lia.
  - by vm_compute.
Qed.
#[export] Instance mini_laws : ServerLaws miniRedis.t.
Proof.
  split; cbn [srv_call srv_multi srv_db mini_redis].
  - apply mini_txn.
  - intros r a r' ran b Hc. eexists _, _. by apply replies_frames, (call_replies r a r' ran).
  - intros r a r' ran b info v Hc [-> ->]%frameOf_fun Hm He. unfold miniRedis.call in Hc. rewrite Hm in Hc.
    repeat (match type of Hc with (match ?x with _ => _ end) = _ => destruct x eqn:? end); injection Hc as <- <- <-; try done; auto.
    + right. match goal with E : (_ =s _) = true |- _ => apply eqs_true in E; rewrite E end. in_list.
    + right. match goal with E : bool_decide (_ ∈ ["WATCH"; _]) = true |- _ => apply bool_decide_eq_true in E; elem_inv E; rewrite E; in_list end.
  - intros r r' ran b info v Hc [-> ->]%frameOf_fun Hm. by eapply mini_exec.
  - intros r a r' ran b info v Hc [-> ->]%frameOf_fun Hn Hm. unfold miniRedis.call in Hc. rewrite Hm, Hn in Hc.
    change (match miniRedis.selects a with Some d => (miniRedis.mk None d, [a], miniRedis.ok) | None => (r, [], miniRedis.range) end = (r', ran, b)) in Hc.
    destruct (miniRedis.selects a) as [n|] eqn:Es.
    + assert (r' = miniRedis.mk None n /\ b = miniRedis.ok) as [-> ->] by (by injection Hc as <- <- <-). cbn.
      destruct (selects_spec _ _ Es) as (s & -> & ? & ?). exists n, s. auto.
    + assert (r' = r /\ b = miniRedis.range) as [-> ->] by (by injection Hc as <- <- <-). done.
  - intros r a r' ran b Hc Hs Hr Hran. unfold miniRedis.call in Hc. apply eqs_false in Hs.
    repeat (match type of Hc with (match ?x with _ => _ end) = _ => destruct x eqn:? end); injection Hc as <- <- <-; try done; try congruence.
    cbn. by apply runDB_body.
Qed.

(** ** Runs *)
Definition clientOKb (args : list string) : bool :=
  match Classify args with
  | None => true
  | Some info => negb (bool_decide (CClass info = ClassPubSub)) &&
      (negb (bool_decide (Name info ∈ ["MULTI"; "DISCARD"])) || ((redisName args =s Name info) && Nat.eqb (length args) 1)) &&
      (negb (Name info =s "SELECT") || (redisName args =s "SELECT"))
  end.
Lemma clientOKb_spec args : clientOKb args = true -> clientOK args.
Proof.
  unfold clientOKb, clientOK. intros Hb info Hc. rewrite Hc, !andb_true_iff, !orb_true_iff, !andb_true_iff in Hb. destruct Hb as [[Hp Hn] Hs].
  apply negb_true_iff, bool_decide_eq_false in Hp. split; [done|]. split; [intros Hi|].
  2: { intros Hi. destruct Hs as [Hs|Hs]; [|by apply eqs_true]. apply negb_true_iff, eqs_false in Hs. done. }
  destruct Hn as [Hn|[Hn Hl]]; [by apply negb_true_iff, bool_decide_eq_false in Hn|]. apply eqs_true in Hn. by apply Nat.eqb_eq in Hl.
Qed.

(** What happens next: a client command (with the authenticator's answer), an
    operation, a frame or proxy-made reply, the SELECT's reply, the end. *)
Inductive choice : Type :=
  | Says (e : env) (args : list string) (r : authOutcome)
  | Does (revoked wr : bool)
  | Reads
  | Awaits
  | Ends
  | Retires.

Section runs.
Context {S T P : Type} `{SessionStore S} `{SliceStore T} `{Policy P}.
Context (l : pending) (id : Z) (allowed : list string -> bool).
Context (perm : forall A : Type, list A -> list A) (clock : nat -> Z).
Context (checkReplacements : nat -> Unit -> option Denial * option (list string)) (auditStart : nat -> Unit -> bool -> option Denial * bool).
Abbreviation world := (world miniRedis.t S T P).

Definition says (e : env) (args : list string) (r : authOutcome) (w : world) : option world :=
  if negb (Z.eqb (e_id e) id) || negb (allowed args) then None
  else match handle e w args with
       | Run cm a ops => Some (start (cm, a, ops) w)
       | AskPolicy p u k =>
           match decideUnit perm clock checkReplacements auditStart e (length (w_asked w)) p u (m_guard (co_mem (w_conn w))) (w_tick w) (w_pol w) with
           | Some (d, g, tick, pol) => Some (start (k d) (decidedAs (mkAsk e p u d) g tick pol w))
           | None => None
           end
       | AskAuth _ _ k => Some (start (k r) w)
       | GoPanic => None
       end.
Definition does (revoked wr : bool) (o : op) (ops : list op) (w : world) : option world :=
  if isAwait o || (w_broken w && wr) then None
  else match runOp l id revoked wr o (w_conn w) with
       | (c, Went None) => Some (set_conn c (set_prog ops (set_due (w_due w ++ dueOf o) w)))
       | (c, Went (Some args)) =>
           let '(r, ran, b) := miniRedis.call (w_srv w) args in
           Some (delivered o r ran b (set_conn c (set_prog ops (set_due (w_due w ++ dueOf o) w))))
       | (c, Unsent) => Some (set_conn c (set_prog ops (set_due (w_due w ++ dueOf o) (set_broken true w))))
       | (c, Stop) => Some (set_conn c (set_prog [] (set_life Ended (set_broken true w))))
       | (c, Skip) => Some (set_conn c (set_prog [] (set_broken true w)))
       end.
Definition reads (w : world) : option world :=
  match w_reply w, w_pend w with
  | RIdle, x :: pend =>
      match frame l id (pe_reply x) (w_conn w) with
      | (Ok rest, c) => if rest =s "" then Some (set_reply RDrain (set_pend pend (set_conn c w))) else None
      | (Err e, c) => Some (set_reply RDead (set_pend pend (set_conn c w)))
      end
  | RDrain, _ => match writeSynth l (w_conn w) with Some c => Some (set_conn c w) | None => Some (set_reply RIdle w) end
  | _, _ => None
  end.
Definition next (ch : choice) (w : world) : option world :=
  match ch, w_life w, w_prog w with
  | Says e args r, Serving, [] => says e args r w
  | Does revoked wr, Serving, o :: ops => does revoked wr o ops w
  | Reads, (Serving | Ended), _ => reads w
  | Awaits, Serving, AwaitSelect n :: ops =>
      match co_got (w_conn w) with
      | Some v => Some (set_prog ops (set_conn (setGot None (w_conn w))
                    (set_cm (if Ascii.eqb (VType v) "+" then setDB n (w_cm w) else w_cm w) w)))
      | None => None
      end
  | Ends, Serving, [] => Some (set_prog [] (set_life Ended w))
  | Retires, Ended, _ => Some (set_conn (retire id (w_conn w)) (set_reply RDead (set_pend [] (set_life Retired w))))
  | _, _, _ => None
  end.
Fixpoint runs (chs : list choice) (w : world) : option world :=
  match chs with
  | [] => Some w
  | ch :: chs => match next ch w with Some w' => runs chs w' | None => None end
  end.

Context (ok : list string -> Prop) (Hok : forall a, allowed a = true -> ok a).
Abbreviation step := (cstep (R := miniRedis.t) (S := S) (T := T) (P := P) l id ok perm clock checkReplacements auditStart).
Lemma says_step e args r w w' : w_life w = Serving -> w_prog w = [] -> says e args r w = Some w' -> step w w'.
Proof.
  intros Hl Hp. unfold says. destruct (negb _ || negb _) eqn:E; [done|]. apply orb_false_elim in E as [E1 E2]. apply negb_false_iff in E1, E2. apply Z.eqb_eq in E1.
  destruct (handle e w args) as [cm a ops|p u k|user pass k|] eqn:Eh; try done.
  - intros [= <-]. eapply c_run; eauto.
  - destruct (decideUnit _ _ _ _ _ _ _ _ _ _ _) as [[[[d g] tick] pol]|] eqn:Ed; [|done]. intros [= <-]. eapply c_ask; eauto.
  - intros [= <-]. eapply c_auth; eauto.
Qed.
Lemma does_step revoked wr o ops w w' : w_life w = Serving -> w_prog w = o :: ops -> does revoked wr o ops w = Some w' -> step w w'.
Proof.
  intros Hl Hp. unfold does. destruct (isAwait o || _) eqn:E; [done|]. apply orb_false_elim in E as [E1 E2].
  assert (w_broken w = true -> wr = false) as Hb by (intros Hb; by rewrite Hb in E2).
  destruct (runOp l id revoked wr o (w_conn w)) as [c [[args|]| | |]] eqn:Er.
  - destruct (miniRedis.call (w_srv w) args) as [[r ran] b] eqn:Ec. intros [= <-]. by eapply c_send.
  - intros [= <-]. by eapply c_op.
  - intros [= <-]. by eapply c_unsent.
  - intros [= <-]. by eapply c_stop.
  - intros [= <-]. by eapply c_skip.
Qed.
Lemma reads_step w w' : w_life w <> Retired -> reads w = Some w' -> step w w'.
Proof.
  intros Hl. unfold reads. destruct (w_reply w) eqn:Er; [|destruct (writeSynth l (w_conn w)) eqn:Ew; intros [= <-]; [by apply c_synth|by apply c_drained]|done].
  destruct (w_pend w) as [|x pend] eqn:Ex; [done|]. destruct (frame l id (pe_reply x) (w_conn w)) as [[rest|e] c] eqn:Ef.
  - destruct (rest =s "") eqn:E; [|done]. apply eqs_true in E as ->. intros [= <-]. by eapply c_frame.
  - intros [= <-]. by eapply c_frameErr.
Qed.
Lemma next_step ch w w' : next ch w = Some w' -> step w w'.
Proof.
  unfold next. destruct ch as [e args r|revoked wr| | | |], (w_life w) eqn:Hl, (w_prog w) as [|o ops] eqn:Hp; try done; intros E;
    try (by eapply says_step); try (by eapply does_step); try (eapply reads_step; [congruence|exact E]).
  - destruct o; try done. destruct (co_got (w_conn w)) as [v|] eqn:Eg; [|done]. injection E as <-. by eapply c_await.
  - injection E as <-. apply c_end; auto.
  - injection E as <-. by apply c_retire.
  - injection E as <-. by apply c_retire.
Qed.
Lemma runs_steps chs w w' : runs chs w = Some w' -> rtc step w w'.
Proof.
  revert w. induction chs as [|ch chs IH]; intros w; cbn; [intros [= ->]; done|]. destruct (next ch w) as [w1|] eqn:E; [|done].
  intros Hr. eapply rtc_l; [by eapply next_step|by apply IH].
Qed.
End runs.
