(* ===== verification/ConnTheorems.v ===== *)
(** * Theorems of client connections

    What Redis runs for a connection, the order of the client's replies, the
    outcomes reported to Done, and where the proxy and Redis part. *)

From stdpp Require Import sorting.
From S2P Require Import Prelude GoLib GoTime Resp Classify ClassifyFacts Policy Stores Guard GuardScope GuardCheck GuardFrames GuardFacts GuardTheorems Decide Accounting Conn ConnDecide ConnWorld ConnFacts ConnInv ConnReplies ConnOrder ConnOutcomes ConnDB ConnRuns.

(** ** Concrete connections *)
Module ConnExamples.
#[export] Existing Instance AllowProjectWrites.
Definition lim : pending := mkPending (2 ^ 20) 1000.
Definition env1 : env := mkEnv 1 ModeEnforce false None false false (fun _ => Ok None) (Ok 0) (Ok tt) [0] (fun _ => miniRedis.ok).
Definition noReplacement (i : nat) (u : Unit) : option Denial * option (list string) := (None, None).
(** An audit log: every admitted unit is to be reported. *)
Definition audited (i : nat) (u : Unit) (done : bool) : option Denial * bool := (None, true).
Definition world1 : Type := world miniRedis.t (gmap Z string) MemSliceStore.t unit.
Definition w0 : world1 := accepted GuardExamples.g0 [] 0 tt (miniRedis.mk None 0).

Definition say (a : list string) : choice := Says env1 a AuthRefused.
Definition one : choice := Does false true.
Definition login : list choice := Says env1 ["AUTH"; "alice"; "pw"] (LoggedIn GuardExamples.mac true) :: replicate 4 one.
Definition go (ok : list string -> bool) (chs : list choice) : option world1 :=
  runs lim 1 ok GuardExamples.order GuardExamples.ticks noReplacement audited chs w0.
End ConnExamples.

Section theorems.
Context {R S T P : Type} `{Server R} `{!ServerLaws R} `{SessionStore S} `{SliceStore T} `{Policy P}.
Context (l : pending) (id : Z).
Context (perm : forall A : Type, list A -> list A) (clock : nat -> Z).
Context (checkReplacements : nat -> Unit -> option Denial * option (list string)) (auditStart : nat -> Unit -> bool -> option Denial * bool).
Hypothesis receipts_are_scripts : forall i u r, checkReplacements i u = (None, Some r) -> redisName r = "EVAL".
Abbreviation world := (world R S T P).

(** The worlds a connection reaches. *)
Definition reached (w : world) : Prop :=
  exists g inodes tick pol r, srv_multi r = None /\ srv_db r = 0 /\
  rtc (cstep l id clientOK perm clock checkReplacements auditStart) (accepted g inodes tick pol r) w.

Record sound (w : world) : Prop := {
  sd_mediated : mediated checkReplacements w;
  sd_paired : w_life w <> Retired -> paired w;
  sd_out : co_out (w_conn w) `prefix_of` w_due w;
  sd_truthful : truthful w;
  sd_owed : owed w;
  sd_based : based w;
  sd_ranIn : Forall (ranIn (w_asked w)) (w_ran w);
}.
Lemma accepted_sound g inodes tick pol r : srv_multi r = None -> srv_db r = 0 -> sound (accepted g inodes tick pol r).
Proof.
  intros Hr Hdb. split; [split|intros _; split|..]; try done; cbn; try (by intros i ?%elem_of_nil); try (by apply Forall_nil_2); try (by constructor).
  - intros _ _. exists None. split; [done|]. by rewrite Hr.
  - split; [constructor|by apply Forall_nil_2].
  - split; try done. by exists [], [].
  - by split; [intros i (ak & Hak & _)..|].
  - intros _ _. cbn. rewrite Hr. split; [done|]. left. split; [by apply Forall_nil_2|]. split_and!; [done..|by apply Forall_nil_2].
Qed.
Lemma out_due (w w' : world) : cstep l id clientOK perm clock checkReplacements auditStart w w' -> (w_life w' <> Retired -> paired w') ->
  co_out (w_conn w) `prefix_of` w_due w -> co_out (w_conn w') `prefix_of` w_due w'.
Proof.
  intros Hs Hp Hd. destruct (w_life w') eqn:El; try (apply (ln_out _ _ _ _ _ _ _ (pr_lined _ (Hp ltac:(done))))).
  assert (forall x (v : world), co_out (w_conn (start x v)) = co_out (w_conn v) /\ w_due (start x v) = w_due v) as Hst by (by intros [[? ?] ?] v).
  destruct Hs; try (rewrite (proj1 (Hst _ _)), (proj2 (Hst _ _)); exact Hd); cbn in El; try congruence; try done.
  cbn. assert (forall (q : list slot) (c : conn S T), co_out (foldl (fun c s => runDoneOf s (mkOutcome true false true id) c) c q) = co_out c) as Hq.
  { induction q as [|s q IH]; intros c; [done|]. cbn. rewrite IH. unfold runDoneOf. by destruct (s_done s). }
  unfold retire. by rewrite Hq.
Qed.
Lemma reached_sound w : reached w -> sound w.
Proof.
  intros (g & inodes & tick & pol & r & Hm & Hdb & Hr). pose proof (accepted_sound g inodes tick pol r Hm Hdb) as Hs. revert Hs.
  induction Hr as [w|w w1 w2 Hst _ IH]; [done|]. intros [E1 E2 E3 E4 E5 E6 E7]. apply IH.
  pose proof (step_mediated _ _ _ _ _ _ receipts_are_scripts _ _ Hst E1) as E1'.
  assert (w_life w1 <> Retired -> paired w1) as E2' by (by eapply step_paired). split; [done..| | | | |].
  - by eapply out_due.
  - by eapply step_truthful.
  - by eapply step_owed.
  - by eapply step_based.
  - by eapply step_ranIn.
Qed.


(** C4: a client gets the replies of its commands, in their order.  What was
    written to it is a prefix of what it is due, one reply per command: the
    reply of Redis to that command with appended results stripped, or the
    proxy's own.  A reply of Redis never finds the queue out of step.  When
    the command goroutine is between two commands and nothing failed, every
    command so far has its reply due, and once Redis's replies are read the
    client has them all. *)
Theorem replies_in_order w : reached w ->
  co_out (w_conn w) `prefix_of` w_due w /\
  (w_life w <> Retired -> w_reply w = RIdle -> forall x pend, w_pend w = x :: pend -> fst (frame l id (pe_reply x) (w_conn w)) <> Err FDesync) /\
  (w_life w = Serving -> w_broken w = false -> w_prog w = [] ->
    length (w_due w) = w_count w /\ (w_pend w = [] -> w_reply w = RIdle -> co_out (w_conn w) = w_due w)).
Proof.
  intros Hr. pose proof (reached_sound _ Hr) as Hs. split; [exact (sd_out _ Hs)|split].
  - intros Hl Hi x pend Hx. pose proof (sd_paired _ Hs Hl) as Hp. destruct (frame l id (pe_reply x) (w_conn w)) as [y c] eqn:Ef.
    pose proof (frame_paired _ _ _ _ _ _ _ Hp Hi Hx Ef) as Hy. cbn. destruct y; [done|]. destruct Hy as [Hy _]. congruence.
  - intros Hl Hb Hpr. pose proof (sd_paired _ Hs ltac:(congruence)) as Hp. pose proof (pr_count _ Hp Hl Hb) as Hc. rewrite Hpr in Hc. unfold visibles in Hc. cbn in Hc.
    split; [lia|]. intros Hx Hi. pose proof (pr_lined _ Hp) as HL. rewrite Hb, Hx, Hi in HL. pose proof (lined_full _ _ _ _ _ _ HL) as Hf.
    destruct HL as [_ _ Hh _ Hd]. destruct (Hd ltac:(done)) as [_ He]. rewrite (He Hf). destruct (rq_q (co_rq (w_conn w))) as [|s q]; [by rewrite app_nil_r|].
    rewrite fwds_fwd in Hf; [done|]. by apply Hh.
Qed.


(** C27: Done is called once for each decision that is owed a call, by the time
    its connection has gone: no decision is reported twice, and every one with
    a Done is reported, unless the unit links slices for the first time. *)
Theorem done_is_called_once w : reached w ->
  NoDup (fst <$> m_reports (co_mem (w_conn w))) /\
  (w_life w = Retired -> forall i ak, w_asked w !! i = Some ak -> owes (ak_d ak) = true -> usedIDs (ak_d ak) = [] -> i ∈ (fst <$> m_reports (co_mem (w_conn w)))).
Proof.
  intros Hr. pose proof (reached_sound _ Hr) as Hs. split.
  - pose proof (md_done _ _ (sd_mediated _ Hs)) as Hd. unfold touched in Hd. by apply NoDup_app in Hd as [? _].
  - intros Hl i ak E1 E2 E3. destruct (ow_calls _ (sd_owed _ Hs) i) as [Hc|[? _]]; [by exists ak| |congruence].
    unfold called in Hc. rewrite (ow_end _ (sd_owed _ Hs) Hl), elem_of_app in Hc. destruct Hc as [?|Hc]; [done|by apply elem_of_nil in Hc].
Qed.

End theorems.

(** ** Runs *)
Import ConnExamples.
#[local] Existing Instance AllowProjectWrites.

Definition ready : list choice := login ++ replicate 5 Reads.
Definition session : list choice :=
  ready ++ [say ["WATCH"; "i5"]; one; say ["MULTI"]; one; say ["SET"; "i5"; "x"]; one; say ["INCRBY"; "usedSpace"; "4096"]; one; say ["EXEC"]; one] ++
  replicate 10 Reads.
Definition served : world1 := default w0 (go clientOKb session).
Definition gone : world1 := default w0 (go clientOKb (session ++ [Ends; Retires])).

Lemma go_reached chs w : go clientOKb chs = Some w -> reached lim 1 GuardExamples.order GuardExamples.ticks noReplacement audited w.
Proof. intros Hg. exists GuardExamples.g0, [], 0%nat, tt, (miniRedis.mk None 0). split_and!; [done..|]. eapply runs_steps; [|exact Hg]. apply clientOKb_spec. Qed.
Lemma served_reached : reached lim 1 GuardExamples.order GuardExamples.ticks noReplacement audited served.
Proof. apply (go_reached session). vm_compute. reflexivity. Qed.
Lemma gone_reached : reached lim 1 GuardExamples.order GuardExamples.ticks noReplacement audited gone.
Proof. apply (go_reached (session ++ [Ends; Retires])). vm_compute. reflexivity. Qed.
Lemma no_receipts i u r : noReplacement i u = (None, Some r) -> redisName r = "EVAL".
Proof. done. Qed.

Lemma replies_in_order_witness : w_count served = 6%nat /\ co_out (w_conn served) = w_due served.
Proof.
  split; [vm_compute; reflexivity|].
  apply (replies_in_order lim 1 GuardExamples.order GuardExamples.ticks noReplacement audited no_receipts served served_reached); vm_compute; reflexivity.
Defined.
Lemma done_is_called_once_witness : w_life gone = Retired /\ 0%nat ∈ (fst <$> m_reports (co_mem (w_conn gone))).
Proof.
  split; [vm_compute; reflexivity|].
  destruct (done_is_called_once lim 1 GuardExamples.order GuardExamples.ticks noReplacement audited no_receipts gone gone_reached) as [_ Ho].
  destruct (w_asked gone !! 0%nat) as [ak|] eqn:E; [|by vm_compute in E].
  apply (Ho ltac:(vm_compute; reflexivity) 0%nat ak E); apply (f_equal (fun x => from_option (fun a => owes (ak_d a)) false x)) in E as E1; apply (f_equal (fun x => from_option (fun a => usedIDs (ak_d a)) [] x)) in E as E2;
    [exact (eq_sym E1)|exact (eq_sym E2)].
Defined.

(** ** Where the proxy and Redis part *)
Abbreviation anySteps := (rtc (cstep (R := miniRedis.t) lim 1 (fun _ => True) GuardExamples.order GuardExamples.ticks noReplacement audited)).
Lemma go_steps chs w : go (fun _ => true) chs = Some w -> anySteps w0 w.
Proof. apply runs_steps. done. Qed.

Definition bypass : list choice := ready ++ [say ["MULTI"; "x"]; one; Reads; Reads; say ["SET"; "i5"; "x"]; one; Reads; Reads].
Definition misreport : list choice :=
  ready ++ [say ["MULTI"]; one; say ["DISCARD"; "x"]; one; say ["SET"; "i5"; "x"]; one] ++ replicate 6 Reads.
Definition forgotten : list choice :=
  ready ++ [say ["MULTI"]; one; say ["RPUSH"; "c6_0"; GuardExamples.elem 9 100]; one; say ["EXEC"]; Does false false; Retires].


(** A DISCARD with an argument makes the proxy report a write that never
    happened.  Redis refuses it and the transaction goes on, but the proxy
    believes it is over.  The next write is decided and sent on its own;
    Redis only queues it, and the proxy takes QUEUED for success. *)
Theorem discard_argument_misreports : exists w ak, anySteps w0 w /\
  m_reports (co_mem (w_conn w)) = [(0%nat, mkOutcome true true false 1)] /\
  w_asked w !! 0%nat = Some ak /\ unitBody (ak_p ak) (ak_d ak) = [["SET"; "i5"; "x"]] /\ Forall (fun r => rn_unit r = None) (w_ran w).
Proof.
  set (w := default w0 (go (fun _ => true) misreport)). assert (go (fun _ => true) misreport = Some w) as E1 by (vm_compute; reflexivity).
  assert ((fun ak => unitBody (ak_p ak) (ak_d ak)) <$> w_asked w = [[["SET"; "i5"; "x"]]]) as E2 by (vm_compute; reflexivity).
  assert (forallb (fun r => bool_decide (rn_unit r = None)) (w_ran w) = true) as E3 by (vm_compute; reflexivity).
  assert (m_reports (co_mem (w_conn w)) = [(0%nat, mkOutcome true true false 1)]) as E4 by (vm_compute; reflexivity). clearbody w.
  destruct (w_asked w) as [|ak asked] eqn:Ea; [discriminate E2|]. injection E2 as E2 _. exists w, ak. split; [exact (go_steps _ _ E1)|]. clear E1. split_and!; [done|by rewrite Ea|done|].
  apply Forall_forall. intros r Hr%list_elem_of_In. rewrite forallb_forall in E3. specialize (E3 _ Hr). by apply bool_decide_eq_true in E3.
Qed.

(** Done is not called for a transaction that links a slice for the first
    time if the SETBIT the proxy appends to it cannot be written. *)
Theorem failed_append_forgets_done : exists w ak, reached lim 1 GuardExamples.order GuardExamples.ticks noReplacement audited w /\
  w_life w = Retired /\ w_asked w !! 0%nat = Some ak /\ dc_deny (ak_d ak) = None /\ owes (ak_d ak) = true /\ m_reports (co_mem (w_conn w)) = [].
Proof.
  set (w := default w0 (go clientOKb forgotten)). assert (go clientOKb forgotten = Some w) as E1 by (vm_compute; reflexivity).
  assert ((fun ak => (dc_deny (ak_d ak), owes (ak_d ak))) <$> w_asked w = [(None, true)]) as E2 by (vm_compute; reflexivity).
  assert (w_life w = Retired /\ m_reports (co_mem (w_conn w)) = []) as [E3 E4] by (vm_compute; auto). clearbody w.
  destruct (w_asked w) as [|ak asked] eqn:Ea; [discriminate E2|]. injection E2 as E2 E5 _. exists w, ak. split; [exact (go_reached _ _ E1)|]. clear E1. by rewrite Ea.
Qed.
