(* ===== verification/RedisRanges.v ===== *)
(** * Who an id was allocated to, in Redis (internal/respproxy/proxy.go)

    redisRanges keeps the owners of slice ids and of inode numbers: a sorted
    set of Redis with one member per range, changed by two Lua scripts, and a
    small cache of ranges in memory.  Scripts are functions on the sorted set.
    Their numbers are doubles in Lua; they are [Z] here, which is the same
    below 2^53, and the theorems are about such ids. *)

From stdpp Require Import sorting.
From S2P Require Import Prelude GoLib Policy Stores Conn.

(** ** Sorted sets *)

(** Members with their scores. *)
Abbreviation zset := (gmap string Z) (only parsing).

(** The order of a sorted set: by score, then by member. *)
Definition zle (p q : string * Z) : Prop := snd p < snd q \/ (snd p = snd q /\ String.le (fst p) (fst q)).
#[global] Instance zle_dec : RelDecision zle.
Proof. intros p q. unfold zle. apply _. Defined.

Definition within (lo : Z) (hi : option Z) (s : Z) : bool := (lo <=? s) && match hi with Some h => s <=? h | None => true end.

(** ZRANGE key lo hi BYSCORE; no [hi] is +inf. *)
Definition zrange (lo : Z) (hi : option Z) (z : zset) : list string :=
  fst <$> merge_sort zle (filter (fun p => within lo hi (snd p) = true) (map_to_list z)).

(** ** The scripts *)

(** string.match(m, '^(%d+):(%d+):(.+)$'): digits have no colon, so the
    captures are the parts between the colons. *)
Definition luaMatch (m : string) : option (string * string * string) :=
  match SplitN m ":" 3 with
  | [a; b; c] => if negb (a =s "") && all_digits a && negb (b =s "") && all_digits b && negb (c =s "") then Some (a, b, c) else None
  | _ => None
  end.
Definition tonumber (s : string) : Z := default 0 (parse_dec 0 s).

Definition rangeMember (lo hi owner : string) : string := lo +:+ ":" +:+ hi +:+ ":" +:+ owner.

(** The loop over the ranges that end just below; [mergeRangeLua] keeps [lo]
    as a string. *)
Definition mergePrev (owner : string) (s : string * zset) (m : string) : string * zset :=
  match luaMatch m with
  | Some (plo, phi, pown) => if (pown =s owner) && (tonumber phi + 1 =? tonumber (fst s)) then (plo, delete m (snd s)) else s
  | None => s
  end.
Definition mergeRange (lo hi owner : string) (z : zset) : zset :=
  let '(lo', z') := foldl (mergePrev owner) (lo, z) (zrange (tonumber lo - 1) (Some (tonumber lo - 1)) z) in
  <[rangeMember lo' hi owner := tonumber hi]> z'.

(** The keys of the inode allocator: nextinode, the mark and the owners. *)
Record inodeKeys : Type := mkInodes { ik_next : option Z; ik_mark : option Z; ik_owners : zset }.

Definition setMark (k : inodeKeys) : inodeKeys :=
  match ik_mark k with
  | Some _ => k
  | None => mkInodes (ik_next k) (Some (default 0 (ik_next k))) (ik_owners k)
  end.

(** [inodeMarkLua]: the mark. *)
Definition inodeMark_ (k : inodeKeys) : Z * inodeKeys := let k := setMark k in (default 0 (ik_mark k), k).

(** Proxy.inodeMark: the cached mark, or what the script answered. *)
Definition inodeMark (cache : option Z) (reply : result ioerr string) : result ioerr Z * option Z :=
  match cache with
  | Some n => (Ok n, cache)
  | None =>
      match reply with
      | Err e => (Err e, None)
      | Ok s => match ParseUint s with Some n => (Ok n, Some n) | None => (Err IOErr, None) end
      end
  end.

(** [inodeAllocLua], whose loop keeps [lo] as a number and prints it. *)
Definition allocPrev (owner : string) (s : Z * zset) (m : string) : Z * zset :=
  match luaMatch m with
  | Some (plo, phi, pown) => if (pown =s owner) && (tonumber phi + 1 =? fst s) then (tonumber plo, delete m (snd s)) else s
  | None => s
  end.
Definition inodeAlloc (n : Z) (owner : string) (k : inodeKeys) : Z * inodeKeys :=
  let k := setMark k in
  let hi := default 0 (ik_next k) + n in
  let lo := hi - n + 1 in
  let '(lo, z) := foldl (allocPrev owner) (lo, ik_owners k) (zrange (lo - 1) (Some (lo - 1)) (ik_owners k)) in
  (hi, mkInodes (Some hi) (ik_mark k) (<[rangeMember (FormatUint lo) (FormatUint hi) owner := hi]> z)).

(** ** redisRanges *)

(** Owner's search of the cache, most recent first. *)
Fixpoint cacheFind (id : Z) (revCache : list sliceRange) : option string :=
  match revCache with
  | [] => None
  | r :: rest => if (sr_lo r <=? id) && (id <=? sr_hi r) then Some (sr_owner r) else cacheFind id rest
  end.
Definition cached_ (id : Z) (cache : list sliceRange) : option string := cacheFind id (rev cache).

(** ZRANGE key id +inf BYSCORE LIMIT 0 1, and what Owner makes of it. *)
Definition readFirst (id : Z) (z : zset) : list string := take 1 (zrange id None z).
Definition ownerReply (id : Z) (elems : list string) : result ioerr (option sliceRange) :=
  match elems with
  | [] => Ok None
  | m :: _ =>
      match SplitN m ":" 3 with
      | [a; b; c] =>
          match ParseUint a, ParseUint b with
          | Some lo, Some hi => if (id <? lo) || (hi <? id) then Ok None else Ok (Some (mkRange lo hi c))
          | _, _ => Ok None
          end
      | _ => Err IOErr
      end
  end.

(** Record's script. *)
Definition recordRange (r : sliceRange) (z : zset) : zset := mergeRange (FormatUint (sr_lo r)) (FormatUint (sr_hi r)) (sr_owner r) z.

(** ** Calls of several goroutines and Redis *)

(** Ranges that allocators handed out are not empty and do not overlap, and
    principals have names. *)
Definition overlap (r r' : sliceRange) : Prop := sr_lo r <= sr_hi r' /\ sr_lo r' <= sr_hi r.
Definition validRange (r : sliceRange) : Prop := 0 <= sr_lo r <= sr_hi r /\ sr_hi r < 2^53 /\ sr_owner r <> "".

(** [rg_begun]: ranges that were allocated; [rg_flight]: scripts sent and not
    yet run; [rg_merged]: scripts that ran; [rg_asks]: calls of Owner that read
    Redis, with its reply; [rg_answers]: what Owner returned. *)
Record rgworld : Type := mkRG {
  rg_cache : list sliceRange;
  rg_zset : zset;
  rg_begun : list sliceRange;
  rg_flight : list sliceRange;
  rg_merged : list sliceRange;
  rg_asks : list (Z * option (list string));
  rg_answers : list (Z * option string);
}.

Definition with_asks (a : list (Z * option (list string))) (w : rgworld) : rgworld :=
  mkRG (rg_cache w) (rg_zset w) (rg_begun w) (rg_flight w) (rg_merged w) a (rg_answers w).
Definition with_cache (c : list sliceRange) (w : rgworld) : rgworld :=
  mkRG c (rg_zset w) (rg_begun w) (rg_flight w) (rg_merged w) (rg_asks w) (rg_answers w).
Definition answered (id : Z) (o : option string) (w : rgworld) : rgworld :=
  mkRG (rg_cache w) (rg_zset w) (rg_begun w) (rg_flight w) (rg_merged w) (rg_asks w) (rg_answers w ++ [(id, o)]).

Definition newRange (w : rgworld) (r : sliceRange) : Prop := validRange r /\ forall r', r' ∈ rg_begun w -> ~ overlap r r'.

(** [g_alloc] is a batch of inodes, recorded by the script that allocates it;
    its hook fills the cache afterwards ([g_hook]). *)
Inductive gstep (w : rgworld) : rgworld -> Prop :=
  | g_record r : newRange w r ->
      gstep w (mkRG (remember r (rg_cache w)) (rg_zset w) (rg_begun w ++ [r]) (rg_flight w ++ [r]) (rg_merged w) (rg_asks w) (rg_answers w))
  | g_alloc r : newRange w r ->
      gstep w (mkRG (rg_cache w) (recordRange r (rg_zset w)) (rg_begun w ++ [r]) (rg_flight w) (rg_merged w ++ [r]) (rg_asks w) (rg_answers w))
  | g_hook r : r ∈ rg_begun w -> gstep w (with_cache (remember r (rg_cache w)) w)
  | g_run l1 r l2 : rg_flight w = l1 ++ r :: l2 ->
      gstep w (mkRG (rg_cache w) (recordRange r (rg_zset w)) (rg_begun w) (l1 ++ l2) (rg_merged w ++ [r]) (rg_asks w) (rg_answers w))
  | g_lost l1 r l2 : rg_flight w = l1 ++ r :: l2 ->
      gstep w (mkRG (rg_cache w) (rg_zset w) (rg_begun w) (l1 ++ l2) (rg_merged w) (rg_asks w) (rg_answers w))
  | g_hit id o : cached_ id (rg_cache w) = Some o -> gstep w (answered id (Some o) w)
  | g_ask id : is_u64 id -> cached_ id (rg_cache w) = None -> gstep w (with_asks (rg_asks w ++ [(id, None)]) w)
  | g_read l1 id l2 : rg_asks w = l1 ++ (id, None) :: l2 -> gstep w (with_asks (l1 ++ (id, Some (readFirst id (rg_zset w))) :: l2) w)
  | g_found l1 id elems l2 r : rg_asks w = l1 ++ (id, Some elems) :: l2 -> ownerReply id elems = Ok (Some r) ->
      gstep w (answered id (Some (sr_owner r)) (with_cache (remember r (rg_cache w)) (with_asks (l1 ++ l2) w)))
  | g_none l1 id elems l2 : rg_asks w = l1 ++ (id, Some elems) :: l2 -> ownerReply id elems = Ok None ->
      gstep w (answered id None (with_asks (l1 ++ l2) w))
  | g_fail l1 a l2 : rg_asks w = l1 ++ a :: l2 -> gstep w (with_asks (l1 ++ l2) w)
  | g_restart : gstep w (with_asks [] (with_cache [] w)).

Definition noRanges : rgworld := mkRG [] ∅ [] [] [] [] [].

(** A call of Owner with nothing else under way. *)
Definition rangeOwner (id : Z) (w : rgworld) : result ioerr (option string) :=
  match cached_ id (rg_cache w) with
  | Some o => Ok (Some o)
  | None => match ownerReply id (readFirst id (rg_zset w)) with Ok r => Ok (sr_owner <$> r) | Err e => Err e end
  end.
