(* ===== verification/RangeFacts.v ===== *)
(** * Ownership of ids survives merging, caching and lost calls *)

From stdpp Require Import sorting.
From S2P Require Import Prelude GoLib Policy Stores Conn RedisRanges.

(** ** Sorted sets *)
#[global] Instance zle_trans : Transitive zle.
Proof. intros p q r [?|[? Hp]] [?|[? Hq]]; [left; lia..|right]. split; [lia|]. by transitivity (fst q). Qed.
#[global] Instance zle_total : Total zle.
Proof. intros p q. unfold zle. destruct (Z.lt_total (snd p) (snd q)) as [?|[?|?]]; [auto| |auto]. destruct (total String.le (fst p) (fst q)); auto. Qed.

Lemma zrange_elem lo hi z m : m ∈ zrange lo hi z <-> exists s, z !! m = Some s /\ within lo hi s = true.
Proof.
  unfold zrange. rewrite merge_sort_Permutation, list_elem_of_fmap. split.
  - intros ([m' s] & -> & [Hs Hm%elem_of_map_to_list]%list_elem_of_filter). by exists s.
  - intros (s & Hm & Hs). exists (m, s). split; [done|]. apply list_elem_of_filter. split; [done|by apply elem_of_map_to_list].
Qed.

Lemma zrange_NoDup lo hi z : NoDup (zrange lo hi z).
Proof.
  unfold zrange. rewrite merge_sort_Permutation. apply (NoDup_fmap_fst).
  - intros m s s' [_ H1%elem_of_map_to_list]%list_elem_of_filter [_ H2%elem_of_map_to_list]%list_elem_of_filter. congruence.
  - apply NoDup_filter, NoDup_map_to_list.
Qed.

(** The first member has the least score. *)
Lemma zrange_first lo hi z m ms : zrange lo hi z = m :: ms -> exists s, z !! m = Some s /\ within lo hi s = true /\
  forall m' s', z !! m' = Some s' -> within lo hi s' = true -> s <= s'.
Proof.
  intros Hz. destruct (proj1 (zrange_elem lo hi z m)) as (s & Hm & Hs); [rewrite Hz; set_solver|]. exists s. split_and!; [done..|].
  intros m' s' Hm' Hs'. unfold zrange in Hz. pose proof (StronglySorted_merge_sort zle (filter (fun p => within lo hi (snd p) = true) (map_to_list z))) as Hsort.
  assert ((m', s') ∈ merge_sort zle (filter (fun p => within lo hi (snd p) = true) (map_to_list z))) as Hin.
  { rewrite merge_sort_Permutation, list_elem_of_filter. split; [done|by apply elem_of_map_to_list]. }
  assert ((m, s) ∈ merge_sort zle (filter (fun p => within lo hi (snd p) = true) (map_to_list z))) as Hin'.
  { rewrite merge_sort_Permutation, list_elem_of_filter. split; [done|by apply elem_of_map_to_list]. }
  destruct (merge_sort zle _) as [|[m0 s0] l] eqn:El; [done|]. cbn in Hz. injection Hz as -> _.
  assert (s0 = s) as ->. { assert ((m, s0) ∈ filter (fun p => within lo hi (snd p) = true) (map_to_list z)) as [_ Hq%elem_of_map_to_list]%list_elem_of_filter by (rewrite <- merge_sort_Permutation, El; set_solver). congruence. }
  apply StronglySorted_inv in Hsort as [_ Hf]. rewrite Forall_forall in Hf. apply elem_of_cons in Hin as [[= -> ->]|Hin]; [done|].
  destruct (Hf _ Hin) as [?|[? _]]; cbn in *; lia.
Qed.

(** ** Members *)
Definition rangeText (r : sliceRange) : string := rangeMember (FormatUint (sr_lo r)) (FormatUint (sr_hi r)) (sr_owner r).

Lemma SplitN_step a b n : all_digits a = true -> SplitN (a +:+ ":" +:+ b) ":" (S (S n)) = a :: SplitN b ":" (S n).
Proof.
  intros Ha. change (":" +:+ b) with (String ":" b). cbn [SplitN]. rewrite (IndexByte_app_skip a b ":") by (by apply all_digits_IndexByte).
  rewrite stake_app. f_equal. replace (S (String.length a)) with (String.length (a +:+ ":")) by (rewrite slength_app; cbn; lia).
  change (String ":" b) with (":" +:+ b). by rewrite <- sapp_assoc, sdrop_app.
Qed.
Lemma SplitN_member a b c : all_digits a = true -> all_digits b = true -> SplitN (rangeMember a b c) ":" 3 = [a; b; c].
Proof. intros Ha Hb. unfold rangeMember. by rewrite !SplitN_step. Qed.

Section ranges.
Context (r : sliceRange) (Hr : validRange r).

Lemma range_u64 : is_u64 (sr_lo r) /\ is_u64 (sr_hi r).
Proof using Hr. destruct Hr as (? & ? & _). unfold is_u64. lia. Qed.
Lemma text_split : SplitN (rangeText r) ":" 3 = [FormatUint (sr_lo r); FormatUint (sr_hi r); sr_owner r].
Proof using Hr. destruct Hr as (? & ? & _). apply SplitN_member; apply all_digits_FormatUint; lia. Qed.
Lemma tonumber_Format n : 0 <= n < 2^53 -> tonumber (FormatUint n) = n.
Proof. intros Hn. unfold tonumber. by rewrite parse_FormatUint by lia. Qed.
Lemma luaMatch_text : luaMatch (rangeText r) = Some (FormatUint (sr_lo r), FormatUint (sr_hi r), sr_owner r).
Proof using Hr.
  unfold luaMatch. rewrite text_split. destruct Hr as (? & ? & Ho). rewrite !all_digits_FormatUint by lia.
  rewrite (proj2 (eqs_false _ _)) by apply FormatUint_nonempty. rewrite (proj2 (eqs_false _ _)) by apply FormatUint_nonempty. by rewrite (proj2 (eqs_false _ _)).
Qed.
Lemma ownerReply_text id ms : ownerReply id (rangeText r :: ms) = Ok (if (id <? sr_lo r) || (sr_hi r <? id) then None else Some r).
Proof using Hr.
  unfold ownerReply. rewrite text_split. destruct range_u64. rewrite !ParseUint_FormatUint by done. case_match; [done|]. by destruct r.
Qed.
End ranges.

Lemma text_inj r r' : validRange r -> validRange r' -> rangeText r = rangeText r' -> r = r'.
Proof.
  intros H1 H2 Ht. pose proof (text_split r H1) as S1. rewrite Ht, (text_split r' H2) in S1. injection S1 as E1 E2 E3.
  destruct (range_u64 r H1), (range_u64 r' H2). apply FormatUint_inj in E1, E2; [|done..]. destruct r, r'; cbn in *; congruence.
Qed.

(** ** A sorted set that holds ranges *)
Record zrep (z : zset) (rs : list sliceRange) : Prop := {
  zr_rows m s : z !! m = Some s <-> exists r, r ∈ rs /\ m = rangeText r /\ s = sr_hi r;
  zr_valid r : r ∈ rs -> validRange r;
  zr_apart r r' : r ∈ rs -> r' ∈ rs -> overlap r r' -> r = r';
}.

Definition covers (r : sliceRange) (id : Z) : Prop := sr_lo r <= id <= sr_hi r.
Definition owned (rs : list sliceRange) (id : Z) (o : string) : Prop := exists r, r ∈ rs /\ covers r id /\ sr_owner r = o.

Lemma zrep_empty : zrep ∅ [].
Proof. split; [|set_solver..]. intros m s. rewrite lookup_empty. split; [done|]. intros (r & Hr & _). set_solver. Qed.

(** What a read of the range of [id] gives. *)
Lemma read_rep z rs id : zrep z rs -> readFirst id z = [] /\ (forall r, r ∈ rs -> ~ covers r id) \/
  exists r, r ∈ rs /\ readFirst id z = [rangeText r] /\ forall r', r' ∈ rs -> covers r' id -> r' = r.
Proof.
  intros HZ. unfold readFirst. destruct (zrange id None z) as [|m ms] eqn:Ez; cbn.
  - left. split; [done|]. intros r Hr Hc. assert (rangeText r ∈ zrange id None z) as Hin; [|rewrite Ez in Hin; by apply elem_of_nil in Hin].
    apply zrange_elem. exists (sr_hi r). split; [apply (zr_rows _ _ HZ); eauto|]. unfold within, covers in *. rewrite andb_true_r. lia.
  - right. destruct (zrange_first _ _ _ _ _ Ez) as (s & Hm & Hs & Hmin). apply (zr_rows _ _ HZ) in Hm as (r & Hr & -> & ->). exists r. split_and!; [done|by rewrite take_0|].
    intros r' Hr' Hc. symmetry. apply (zr_apart _ _ HZ); [done..|]. unfold within, covers in *. rewrite andb_true_r in Hs.
    assert (sr_hi r <= sr_hi r') as Hle. { apply (Hmin (rangeText r')); [apply (zr_rows _ _ HZ); eauto|]. rewrite andb_true_r. lia. }
    pose proof (zr_valid _ _ HZ r Hr) as (? & _). split; lia.
Qed.

#[global] Instance sliceRange_eq : EqDecision sliceRange.
Proof. solve_decision. Defined.

Lemma prev_rep z rs lo : zrep z rs -> zrange (lo - 1) (Some (lo - 1)) z = [] \/
  exists r, r ∈ rs /\ sr_hi r = lo - 1 /\ zrange (lo - 1) (Some (lo - 1)) z = [rangeText r].
Proof.
  intros HZ. assert (forall m, m ∈ zrange (lo - 1) (Some (lo - 1)) z -> exists r, r ∈ rs /\ sr_hi r = lo - 1 /\ m = rangeText r) as Hel.
  { intros m (s & Hm & Hs)%zrange_elem. apply (zr_rows _ _ HZ) in Hm as (r & Hr & -> & ->). exists r. unfold within in Hs. split_and!; [done|lia|done]. }
  pose proof (zrange_NoDup (lo - 1) (Some (lo - 1)) z) as Hn. destruct (zrange (lo - 1) (Some (lo - 1)) z) as [|m [|m' ms]]; [by left|right|exfalso].
  - destruct (Hel m) as (r & ? & ? & ->); [set_solver|]. eauto.
  - destruct (Hel m) as (r & Hr & Eh & ->); [set_solver|]. destruct (Hel m') as (r' & Hr' & Eh' & ->); [set_solver|].
    assert (r = r') as -> by (apply (zr_apart _ _ HZ); try done; destruct (zr_valid _ _ HZ r Hr) as [? _], (zr_valid _ _ HZ r' Hr') as [? _]; split; lia).
    inversion Hn. set_solver.
Qed.

Lemma insert_rep z rs r : zrep z rs -> validRange r -> (forall r', r' ∈ rs -> ~ overlap r r') -> zrep (<[rangeText r := sr_hi r]> z) (r :: rs).
Proof.
  intros HZ Hv Hn. split.
  - intros m s. rewrite lookup_insert_Some. split.
    + intros [[<- <-]|[Hne (r' & ? & ? & ?)%(zr_rows _ _ HZ)]]; [exists r; set_solver|exists r'; set_solver].
    + intros (r' & [->|Hr']%elem_of_cons & -> & ->); [by left|]. right. split; [|apply (zr_rows _ _ HZ); eauto].
      intros ->%text_inj; [|done|by apply (zr_valid _ _ HZ)]. apply (Hn _ Hr'). destruct Hv as [? _]. split; lia.
  - intros r' [->|?]%elem_of_cons; [done|by apply (zr_valid _ _ HZ)].
  - intros r1 r2 [->|H1]%elem_of_cons [->|H2]%elem_of_cons Ho; [done|by apply Hn in Ho| |by apply (zr_apart _ _ HZ)].
    exfalso. apply (Hn _ H1). by destruct Ho.
Qed.

Lemma delete_rep z rs r : zrep z rs -> r ∈ rs -> zrep (delete (rangeText r) z) (filter (fun r' => r' <> r) rs).
Proof.
  intros HZ Hr. split.
  - intros m s. rewrite lookup_delete_Some. split.
    + intros [Hne (r' & ? & -> & ->)%(zr_rows _ _ HZ)]. exists r'. split_and!; [|done..]. apply list_elem_of_filter. naive_solver.
    + intros (r' & [Hne Hr']%list_elem_of_filter & -> & ->). split; [|apply (zr_rows _ _ HZ); eauto].
      intros E. apply Hne. symmetry. apply text_inj; [by apply (zr_valid _ _ HZ)..|done].
  - intros r' [_ ?]%list_elem_of_filter. by apply (zr_valid _ _ HZ).
  - intros r1 r2 [_ ?]%list_elem_of_filter [_ ?]%list_elem_of_filter. by apply (zr_apart _ _ HZ).
Qed.

(** A new range joins the sorted set, on its own or with the one below it. *)
Lemma joined_rep z rs r r' : zrep z rs -> validRange r -> (forall x, x ∈ rs -> ~ overlap r x) -> r' ∈ rs -> sr_hi r' = sr_lo r - 1 -> sr_owner r' = sr_owner r ->
  let j := mkRange (sr_lo r') (sr_hi r) (sr_owner r) in
  zrep (<[rangeText j := sr_hi r]> (delete (rangeText r') z)) (j :: filter (fun x => x <> r') rs) /\
  forall id o, owned (j :: filter (fun x => x <> r') rs) id o <-> owned rs id o \/ owned [r] id o.
Proof.
  intros HZ Hv Hn Hr' Eh Eo j. pose proof (zr_valid _ _ HZ _ Hr') as Hv'. split.
  - apply (insert_rep _ _ j); [by apply delete_rep|destruct Hv as (? & ? & ?), Hv' as (? & ? & ?); split_and!; cbn; try done; lia|].
    intros x [Hne Hx]%list_elem_of_filter [O1 O2]. cbn in *. destruct (Z.le_gt_cases (sr_lo x) (sr_hi r')) as [Hle|Hgt].
    + apply Hne. apply (zr_apart _ _ HZ); [done..|]. by split.
    + apply (Hn x Hx). destruct (zr_valid _ _ HZ x Hx) as [? _]. split; lia.
  - intros id o. unfold owned, covers. setoid_rewrite elem_of_cons. setoid_rewrite list_elem_of_filter. split.
    + intros (x & [->|[Hne Hx]] & Hc & Ho); [|left; eauto]. cbn in *. destruct (Z.le_gt_cases id (sr_hi r')).
      * left. exists r'. split_and!; [done|lia|lia|congruence].
      * right. exists r. split_and!; [by left|lia|lia|done].
    + intros [(x & Hx & Hc & Ho)|(x & [->|Hx] & Hc & Ho)]; [| |by apply elem_of_nil in Hx].
      * destruct (decide (x = r')) as [->|]; [|exists x; auto]. exists j. cbn. destruct Hv as [? _]. split_and!; [by left|lia|lia|congruence].
      * exists j. cbn. destruct Hv' as [? _]. split_and!; [by left|lia|lia|done].
Qed.

Lemma record_rep z rs r : zrep z rs -> validRange r -> (forall r', r' ∈ rs -> ~ overlap r r') ->
  exists rs', zrep (recordRange r z) rs' /\ forall id o, owned rs' id o <-> owned rs id o \/ owned [r] id o.
Proof.
  intros HZ Hv Hn. pose proof Hv as (Hlo & Hhi & Ho). unfold recordRange, mergeRange. rewrite !tonumber_Format by lia.
  assert (zrep (<[rangeText r := sr_hi r]> z) (r :: rs) /\ forall id o, owned (r :: rs) id o <-> owned rs id o \/ owned [r] id o) as Halone.
  { split; [by apply insert_rep|]. intros id o. unfold owned. set_solver. }
  destruct (prev_rep z rs (sr_lo r) HZ) as [->|(r' & Hr' & Eh & ->)]; cbn [foldl]; [eauto|].
  unfold mergePrev. rewrite luaMatch_text by (by apply (zr_valid _ _ HZ)). cbn [fst snd].
  destruct (zr_valid _ _ HZ r' Hr') as (? & ? & _). rewrite !tonumber_Format by lia. rewrite Eh, (proj2 (Z.eqb_eq _ _)), andb_true_r by lia.
  destruct (sr_owner r' =s sr_owner r) eqn:Eo; [|eauto]. apply eqs_true in Eo. eexists. exact (joined_rep _ _ _ _ HZ Hv Hn Hr' Eh Eo).
Qed.

(** ** The invariant of the calls *)
Definition backed (begun : list sliceRange) (r : sliceRange) : Prop := forall id, covers r id -> owned begun id (sr_owner r).

Record ranged (w : rgworld) : Prop := {
  ra_valid r : r ∈ rg_begun w -> validRange r;
  ra_apart r r' : r ∈ rg_begun w -> r' ∈ rg_begun w -> overlap r r' -> r = r';
  ra_once : NoDup (rg_merged w ++ rg_flight w);
  ra_known r : r ∈ rg_merged w ++ rg_flight w -> r ∈ rg_begun w;
  ra_zset : exists rs, zrep (rg_zset w) rs /\ forall id o, owned rs id o <-> owned (rg_merged w) id o;
  ra_cache r : r ∈ rg_cache w -> backed (rg_begun w) r;
  ra_asks id elems : (id, Some elems) ∈ rg_asks w -> elems = [] \/ exists r, elems = [rangeText r] /\ validRange r /\ backed (rg_begun w) r;
  ra_answers id o : (id, Some o) ∈ rg_answers w -> owned (rg_begun w) id o;
}.

Lemma owned_app l1 l2 id o : owned (l1 ++ l2) id o <-> owned l1 id o \/ owned l2 id o.
Proof. unfold owned. set_solver. Qed.
Lemma backed_self l r : r ∈ l -> backed l r.
Proof. intros Hr id Hc. by exists r. Qed.
Lemma backed_app l l' r : backed l r -> backed (l ++ l') r.
Proof. intros Hb id Hc. apply owned_app. left. by apply Hb. Qed.
Lemma remember_elem r cache x : x ∈ remember r cache -> x = r \/ x ∈ cache.
Proof.
  unfold remember. rewrite elem_of_app, list_elem_of_singleton. case_match; [|tauto]. intros [Hx|?]; [right|by left].
  rewrite <- (take_drop (length cache / 2) cache). set_solver.
Qed.

Lemma cacheFind_backed begun id cache o : (forall r, r ∈ cache -> backed begun r) -> cacheFind id cache = Some o -> owned begun id o.
Proof.
  induction cache as [|r cache IH]; cbn; [done|]. intros Hb. case_match eqn:Hc.
  - intros [= <-]. apply (Hb r); [set_solver|]. unfold covers. lia.
  - apply IH. set_solver.
Qed.
Lemma cached_backed begun id cache o : (forall r, r ∈ cache -> backed begun r) -> cached_ id cache = Some o -> owned begun id o.
Proof. intros Hb. apply cacheFind_backed. intros r Hr%list_elem_of_In%in_rev%list_elem_of_In. auto. Qed.

(** A script that runs for a range of its own. *)
Lemma run_rep z rs (merged begun : list sliceRange) r : zrep z rs -> (forall id o, owned rs id o <-> owned merged id o) -> (forall x, x ∈ merged -> x ∈ begun) ->
  (forall x, x ∈ begun -> overlap r x -> r = x) -> r ∉ merged -> validRange r ->
  exists rs', zrep (recordRange r z) rs' /\ forall id o, owned rs' id o <-> owned (merged ++ [r]) id o.
Proof.
  intros HZ Ho Hm Ha Hn Hv. destruct (record_rep z rs r HZ Hv) as (rs' & HZ' & Ho').
  - intros x Hx [O1 O2]. pose proof (zr_valid _ _ HZ x Hx) as [? _]. destruct Hv as [? _].
    assert (owned merged (Z.max (sr_lo r) (sr_lo x)) (sr_owner x)) as (y & Hy & Hc & _). { apply Ho. exists x. split_and!; [done| |done]. unfold covers. lia. }
    assert (r = y) as ->; [|done]. apply Ha; [auto|]. unfold covers, overlap in *. lia.
  - exists rs'. split; [done|]. intros id o. by rewrite Ho', owned_app, Ho.
Qed.

Lemma begun_grows w r : ranged w -> newRange w r ->
  (forall x, x ∈ rg_begun w ++ [r] -> validRange x) /\ (forall x y, x ∈ rg_begun w ++ [r] -> y ∈ rg_begun w ++ [r] -> overlap x y -> x = y) /\ r ∉ rg_begun w.
Proof.
  intros HR [Hv Hn]. split_and!.
  - intros x [?| ->%list_elem_of_singleton]%elem_of_app; [by apply (ra_valid _ HR)|done].
  - intros x y [?| ->%list_elem_of_singleton]%elem_of_app [?| ->%list_elem_of_singleton]%elem_of_app Hov; [by apply (ra_apart _ HR)| | |done]; exfalso; [|by eapply Hn].
    eapply Hn; [done|]. by destruct Hov.
  - intros Hr. apply (Hn r Hr). destruct Hv as [? _]. split; lia.
Qed.

Lemma moved_perm (l1 l2 : list sliceRange) r : (l1 ++ [r]) ++ l2 ≡ₚ r :: l1 ++ l2.
Proof. by rewrite (Permutation_app_comm l1 [r]). Qed.

Lemma flight_perm (l l1 l2 : list sliceRange) r : l ++ l1 ++ r :: l2 ≡ₚ r :: l ++ l1 ++ l2.
Proof. by rewrite <- Permutation_middle, <- Permutation_middle. Qed.

Lemma asks_backed w l1 l2 id elems r : ranged w -> rg_asks w = l1 ++ (id, Some elems) :: l2 -> ownerReply id elems = Ok (Some r) ->
  backed (rg_begun w) r /\ covers r id.
Proof.
  intros HR Ha Ho. destruct (ra_asks _ HR id elems) as [->|(x & -> & Hv & Hb)]; [rewrite Ha; set_solver|done|].
  rewrite ownerReply_text in Ho by done. case_match; simplify_eq. split; [done|]. unfold covers. lia.
Qed.

Lemma step_ranged w w' : ranged w -> gstep w w' -> ranged w'.
Proof.
  intros HR. pose proof HR as [R1 R2 R3 R4 R5 R6 R7 R8].
  assert (forall a, (forall id elems, (id, Some elems) ∈ a -> (id, Some elems) ∈ rg_asks w) -> ranged (with_asks a w)) as Hasks by (intros a Ha; split; cbn; eauto).
  destruct 1 as [r Hn|r Hn|r Hr|l1 r l2 Hf|l1 r l2 Hf|id o Hc|id Hu Hc|l1 id l2 Ha|l1 id elems l2 r Ha Ho|l1 id elems l2 Ha Ho|l1 a l2 Ha|].
  - destruct (begun_grows w r HR Hn) as (B1 & B2 & B3). split; cbn; try done.
    + rewrite (assoc_L (++)), NoDup_app. split_and!; [done| |by apply NoDup_singleton]. intros x Hx ->%list_elem_of_singleton. by apply B3, R4.
    + intros x. rewrite (assoc_L (++)), !(elem_of_app _ [r]). naive_solver.
    + intros x [->|?]%remember_elem; [apply backed_self; set_solver|by apply backed_app, R6].
    + intros id elems [?|(x & ? & ? & ?)]%R7; [by left|right]. exists x. eauto using backed_app.
    + intros id o ?%R8. apply owned_app. by left.
  - destruct (begun_grows w r HR Hn) as (B1 & B2 & B3). split; cbn; try done.
    + rewrite moved_perm. constructor; [|done]. intros Hx. by apply B3, R4.
    + intros x. rewrite moved_perm, elem_of_cons. set_solver.
    + destruct R5 as (rs & HZ & Hrs). apply (run_rep _ rs _ (rg_begun w ++ [r])); [done|done|set_solver| |set_solver|apply Hn].
      intros x Hx. apply B2; set_solver.
    + intros x Hx. by apply backed_app, R6.
    + intros id elems [?|(x & ? & ? & ?)]%R7; [by left|right]. exists x. eauto using backed_app.
    + intros id o ?%R8. apply owned_app. by left.
  - split; cbn; try done. intros x [->|?]%remember_elem; [by apply backed_self|auto].
  - rewrite Hf, flight_perm in R3. setoid_rewrite Hf in R4. setoid_rewrite flight_perm in R4. apply NoDup_cons in R3 as [Hr Hn].
    assert (r ∈ rg_begun w) as Hb by (apply R4; set_solver). split; cbn; try done.
    + rewrite moved_perm. by constructor.
    + intros x. rewrite moved_perm. apply R4.
    + destruct R5 as (rs & HZ & Hrs). apply (run_rep _ rs _ (rg_begun w)); [done|done|set_solver|by auto|set_solver|by apply R1].
  - rewrite Hf, flight_perm in R3. setoid_rewrite Hf in R4. setoid_rewrite flight_perm in R4. apply NoDup_cons in R3 as [Hr Hn].
    split; cbn; try done. intros x Hx. apply R4. set_solver.
  - split; cbn; try done. intros i o' [?|[= <- <-]%list_elem_of_singleton]%elem_of_app; [auto|]. by eapply cached_backed.
  - apply Hasks. intros i elems [?|Hx%list_elem_of_singleton]%elem_of_app; [done|discriminate].
  - split; cbn; try done. intros i elems. rewrite elem_of_app, elem_of_cons. intros [?|[[= -> ->]|?]]; [apply (R7 i); rewrite Ha; set_solver| |apply (R7 i); rewrite Ha; set_solver].
    destruct R5 as (rs & HZ & Hrs). destruct (read_rep _ _ id HZ) as [[-> _]|(r & Hr & -> & _)]; [by left|right]. exists r. split_and!; [done|by apply (zr_valid _ _ HZ)|].
    intros j Hc. destruct (proj1 (Hrs j (sr_owner r))) as (x & Hx & ? & ?); [by exists r|]. exists x. split_and!; [apply R4; set_solver|done..].
  - destruct (asks_backed _ _ _ _ _ _ HR Ha Ho) as [Hb Hc]. split; cbn; try done.
    + intros x [->|?]%remember_elem; auto.
    + intros i e Hx. apply (R7 i). rewrite Ha. set_solver.
    + intros i o' [?|[= -> ->]%list_elem_of_singleton]%elem_of_app; auto.
  - split; cbn; try done.
    + intros i e Hx. apply (R7 i). rewrite Ha. set_solver.
    + intros i o' [?|Hx%list_elem_of_singleton]%elem_of_app; [auto|discriminate].
  - apply Hasks. intros i e Hx. rewrite Ha. set_solver.
  - split; cbn; try done; set_solver.
Qed.

(** C14: the recorded owner of an id is the principal it was allocated to.
    Whatever scripts run late or never, whatever the cache forgets and
    however often the proxy restarts: Owner names a principal only for ids
    allocated to it, once a range's script ran every id of it is found, and
    ids that were not allocated have no owner. *)
Theorem range_owner_is_allocator w : rtc gstep noRanges w ->
  (forall id o, (id, Some o) ∈ rg_answers w -> owned (rg_begun w) id o) /\
  (forall id o, owned (rg_merged w) id o -> rangeOwner id w = Ok (Some o)) /\
  (forall id, (forall o, ~ owned (rg_begun w) id o) -> rangeOwner id w = Ok None) /\
  (forall id o o', owned (rg_begun w) id o -> owned (rg_begun w) id o' -> o = o').
Proof.
  intros Hr. assert (ranged w) as HR.
  { revert w Hr. apply (rtc_ind_r ranged noRanges); [|intros x y _ Hxy HR; by eapply step_ranged].
    split; cbn; try done; try set_solver; [by constructor|]. exists []. split; [apply zrep_empty|done]. }
  assert (forall id o o', owned (rg_begun w) id o -> owned (rg_begun w) id o' -> o = o') as Huniq.
  { intros id o o' (r & Hr1 & Hc & <-) (r' & Hr' & Hc' & <-). f_equal. apply (ra_apart _ HR); [done..|]. unfold covers, overlap in *. lia. }
  assert (forall id o, owned (rg_merged w) id o -> owned (rg_begun w) id o) as Hsub.
  { intros id o (r & Hm & ? & ?). exists r. split_and!; [apply (ra_known _ HR); set_solver|done..]. }
  destruct (ra_zset _ HR) as (rs & HZ & Hrs). split_and!; [apply (ra_answers _ HR)| | |done].
  - intros id o Ho. unfold rangeOwner. destruct (cached_ id (rg_cache w)) as [o'|] eqn:Ec.
    + do 2 f_equal. apply (Huniq id); [|auto]. by eapply cached_backed; [apply (ra_cache _ HR)|].
    + apply Hrs in Ho as (x & Hx & Hc & <-). destruct (read_rep _ _ id HZ) as [[_ Hn]|(r & Hr1 & -> & Hu)]; [by apply Hn in Hc|].
      pose proof (Hu x Hx Hc) as ->. rewrite ownerReply_text by (by apply (zr_valid _ _ HZ)). unfold covers in Hc. case_match eqn:Hcc; [lia|done].
  - intros id Hno. unfold rangeOwner. destruct (cached_ id (rg_cache w)) as [o'|] eqn:Ec.
    + exfalso. apply (Hno o'). by eapply cached_backed; [apply (ra_cache _ HR)|].
    + destruct (read_rep _ _ id HZ) as [[-> _]|(r & Hr1 & -> & Hu)]; [done|]. rewrite ownerReply_text by (by apply (zr_valid _ _ HZ)).
      case_match eqn:Hcc; [done|]. exfalso. apply (Hno (sr_owner r)), Hsub, Hrs. exists r. split_and!; [done| |done]. unfold covers. lia.
Qed.

(** ** Inode numbers *)

(** The allocation script records its batch as Record would. *)
Lemma alloc_records z rs n owner next : zrep z rs -> 0 <= next -> 1 <= n -> next + n < 2^53 ->
  (let '(lo, z') := foldl (allocPrev owner) (next + 1, z) (zrange next (Some next) z) in
   <[rangeMember (FormatUint lo) (FormatUint (next + n)) owner := next + n]> z') = recordRange (mkRange (next + 1) (next + n) owner) z.
Proof.
  intros HZ H0 Hn Hb. unfold recordRange, mergeRange. cbn [sr_lo sr_hi sr_owner]. rewrite !tonumber_Format by lia. replace (next + 1 - 1) with next by lia.
  pose proof (prev_rep z rs (next + 1) HZ) as Hp. replace (next + 1 - 1) with next in Hp by lia.
  destruct Hp as [->|(r & Hr & Eh & ->)]; cbn [foldl]; [done|]. unfold allocPrev, mergePrev. rewrite luaMatch_text by (by apply (zr_valid _ _ HZ)). cbn [fst snd].
  destruct (zr_valid _ _ HZ r Hr) as (? & ? & _). rewrite !tonumber_Format by lia. by repeat case_match; simplify_eq.
Qed.

(** What the proxy and its clients do to the keys. *)
Inductive inodeOp : Type := IAlloc (n : Z) (owner : string) | IMark.
Definition inodeRun (o : inodeOp) (s : inodeKeys * list sliceRange) : inodeKeys * list sliceRange :=
  match o with
  | IAlloc n owner => let '(hi, k) := inodeAlloc n owner (fst s) in (k, snd s ++ [mkRange (hi - n + 1) hi owner])
  | IMark => (snd (inodeMark_ (fst s)), snd s)
  end.
Definition goodOp (o : inodeOp) : Prop := match o with IAlloc n owner => 1 <= n /\ owner <> "" | IMark => True end.

Record inodesOK (s : inodeKeys * list sliceRange) : Prop := {
  io_next : 0 <= default 0 (ik_next (fst s));
  io_zset : exists rs, zrep (ik_owners (fst s)) rs /\ forall id o, owned rs id o <-> owned (snd s) id o;
  io_all id m : ik_mark (fst s) = Some m -> (exists o, owned (snd s) id o) <-> m < id <= default 0 (ik_next (fst s));
  io_mark : ik_mark (fst s) = None -> snd s = [];
  io_low m : ik_mark (fst s) = Some m -> m <= default 0 (ik_next (fst s));
}.

Lemma setMark_ok k b : inodesOK (k, b) -> inodesOK (setMark k, b) /\ ik_next (setMark k) = ik_next k /\ ik_owners (setMark k) = ik_owners k /\ is_Some (ik_mark (setMark k)).
Proof.
  intros HI. unfold setMark. destruct (ik_mark k) eqn:Em; [by eauto|]. split_and!; [|by eauto..]. destruct HI as [I1 I2 I3 I4 I5]. split; cbn in *; try done; [|intros m [= <-]; lia].
  intros id m [= <-]. rewrite (I4 Em). unfold owned. split; [|lia]. intros (o & r & Hr & _). set_solver.
Qed.

Lemma inodeRun_ok o k b : inodesOK (k, b) -> goodOp o -> default 0 (ik_next (fst (inodeRun o (k, b)))) < 2^53 -> inodesOK (inodeRun o (k, b)).
Proof.
  intros HI. destruct (setMark_ok k b HI) as (HS & En & Eo & [m Hm]). destruct o as [n owner|]; cbn; [|by intros _ _].
  unfold inodeAlloc. set (k1 := setMark k) in *. set (next := default 0 (ik_next k1)). intros [Hn Ho]. destruct HS as [I1 (rs & HZ & Hrs) I3 I4 I5]. cbn in *. fold next in I1, I3, I5.
  replace (next + n - n + 1 - 1) with next by lia. replace (next + n - n + 1) with (next + 1) by lia.
  pose proof (alloc_records (ik_owners k1) rs n owner next HZ I1 Hn) as Hal. destruct (foldl _ _ _) as [lo z']. cbn. intros Hb. rewrite (Hal Hb). clear Hal.
  destruct (record_rep _ rs (mkRange (next + 1) (next + n) owner) HZ) as (rs' & HZ' & Hrs').
  { split_and!; cbn; [lia..|done]. }
  { intros x Hx [O1 O2]. cbn in *. pose proof (zr_valid _ _ HZ x Hx) as (? & _). destruct (I3 (sr_hi x) m Hm) as [I3' _].
    enough (m < sr_hi x <= next) by lia. apply I3'. exists (sr_owner x). apply Hrs. exists x. unfold covers. split_and!; [done|lia|lia|done]. }
  replace (next + n - n + 1) with (next + 1) by lia. split; cbn; [lia| | |congruence|intros m' Hm'; apply I5 in Hm'; lia].
  - exists rs'. split; [done|]. intros id o. by rewrite Hrs', owned_app, Hrs.
  - intros id m' Hm'. rewrite Hm in Hm'. injection Hm' as <-. setoid_rewrite owned_app. split.
    + intros (o & [Ho'|(r & ->%list_elem_of_singleton & Hc & _)]); [assert (m < id <= next) by (apply I3; eauto); lia|]. unfold covers in Hc. cbn in Hc.
      specialize (I5 m Hm). lia.
    + intros Hid. destruct (Z.le_gt_cases id next); [destruct (proj2 (I3 id m Hm)) as [o ?]; [lia|eauto]|]. exists owner. right. eexists. split; [by apply list_elem_of_singleton|].
      unfold covers. cbn. split; [lia|done].
Qed.

(** The mark never changes, so a cached mark is right. *)
Lemma mark_fixed o k b m : ik_mark k = Some m -> ik_mark (fst (inodeRun o (k, b))) = Some m.
Proof. intros Hk. destruct o; cbn; unfold inodeAlloc, inodeMark_, setMark; rewrite Hk; [destruct (foldl _ _ _)|]; done. Qed.
Lemma marks_fixed ops s m : ik_mark (fst s) = Some m -> ik_mark (fst (foldl (flip inodeRun) s ops)) = Some m.
Proof. revert s. induction ops as [|o ops IH]; intros [k b] Hk; cbn; [done|]. by apply IH, mark_fixed. Qed.
Lemma mark_answers ops s cache m : is_u64 m -> ik_mark (fst s) = Some m -> cache = None \/ cache = Some m ->
  let k := fst (foldl (flip inodeRun) s ops) in inodeMark cache (Ok (FormatUint (fst (inodeMark_ k)))) = (Ok m, Some m).
Proof.
  intros Hu Hm Hc k. pose proof (marks_fixed ops s m Hm) as Hk. fold k in Hk. unfold inodeMark, inodeMark_, setMark. rewrite Hk. cbn. rewrite Hk. cbn.
  rewrite ParseUint_FormatUint by done. by destruct Hc as [->| ->].
Qed.

Lemma next_grows o k b : goodOp o -> default 0 (ik_next k) <= default 0 (ik_next (fst (inodeRun o (k, b)))).
Proof.
  destruct o as [n owner|]; cbn; unfold inodeAlloc, inodeMark_, setMark; [|intros _; by case_match]. intros [Hn _].
  destruct (foldl _ _ _) as [lo z]. cbn. case_match; cbn; lia.
Qed.

Lemma inodeRuns_ok ops s : inodesOK s -> Forall goodOp ops -> default 0 (ik_next (fst (foldl (flip inodeRun) s ops))) < 2^53 -> inodesOK (foldl (flip inodeRun) s ops).
Proof.
  revert s. induction ops as [|o ops IH]; intros [k b] HI; cbn; [done|]. intros [Ho Hops]%Forall_cons Hb. apply IH; [|done..]. apply inodeRun_ok; [done..|].
  revert Hb. generalize (inodeRun o (k, b)). clear -Hops. induction ops as [|o ops IH]; intros [k b]; cbn; [done|]. apply Forall_cons in Hops as [Ho Hops].
  intros Hb%(IH Hops). pose proof (next_grows o k b Ho). lia.
Qed.

(** C15: every inode number above the mark is recorded.  After any number of
    batches and reads of the mark, a number above the mark and up to nextinode
    is found with the principal whose batch it was in, and no other number
    has an owner.  The mark is nextinode as it was at the first of them. *)
Theorem inode_numbers_are_recorded ops next k batches : 0 <= next -> Forall goodOp ops ->
  foldl (flip inodeRun) (mkInodes (Some next) None ∅, []) ops = (k, batches) -> default 0 (ik_next k) < 2^53 ->
  (ops <> [] -> ik_mark k = Some next) /\
  forall id, (forall b, b ∈ batches -> covers b id -> next < id <= default 0 (ik_next k) /\ exists r, ownerReply id (readFirst id (ik_owners k)) = Ok (Some r) /\ sr_owner r = sr_owner b) /\
    (next < id <= default 0 (ik_next k) -> exists b, b ∈ batches /\ covers b id) /\
    ((forall b, b ∈ batches -> ~ covers b id) -> ownerReply id (readFirst id (ik_owners k)) = Ok None).
Proof.
  intros H0 Hops Hrun Hb.
  assert (inodesOK (mkInodes (Some next) None ∅, [])) as Hinit by (split; cbn; try done; exists []; split; [apply zrep_empty|done]).
  pose proof (inodeRuns_ok ops _ Hinit Hops) as HI. rewrite Hrun in HI. specialize (HI Hb).
  assert (ops <> [] -> ik_mark k = Some next) as Hmark.
  { intros Hne. destruct ops as [|o ops]; [done|]. cbn in Hrun. pose proof (marks_fixed ops (inodeRun o (mkInodes (Some next) None ∅, [])) next) as Hkeep.
    rewrite Hrun in Hkeep. apply Hkeep. destruct o; cbn; [destruct (foldl _ _ _)|]; done. }
  split; [done|]. destruct HI as [_ (rs & HZ & Hrs) I3 I4 _]. cbn in *. intros id.
  assert (forall m, ik_mark k = Some m -> m = next) as Hm. { intros m Hk. destruct ops as [|o ops]; [cbn in Hrun; simplify_eq; done|]. specialize (Hmark ltac:(done)). congruence. }
  split_and!.
  - intros b Hin Hc. destruct (ik_mark k) as [m|] eqn:Ek; [|rewrite I4 in Hin by done; by apply elem_of_nil in Hin]. rewrite (Hm m eq_refl) in *.
    assert (owned batches id (sr_owner b)) as Hob by (by exists b). split; [apply (I3 id next eq_refl); eauto|]. apply Hrs in Hob as (x & Hx & Hcx & <-).
    destruct (read_rep _ _ id HZ) as [[_ Hn]|(r & Hr1 & -> & Hu)]; [by apply Hn in Hcx|]. pose proof (Hu x Hx Hcx) as ->. exists r. split; [|done].
    rewrite ownerReply_text by (by apply (zr_valid _ _ HZ)). unfold covers in Hcx. case_match eqn:Hcc; [lia|done].
  - intros Hid. destruct ops as [|o ops]; [cbn in Hrun; simplify_eq; cbn in Hid; lia|]. specialize (Hmark ltac:(done)).
    destruct (proj2 (I3 id next Hmark)) as (o' & b & ? & ? & _); [done|]. eauto.
  - intros Hno. destruct (read_rep _ _ id HZ) as [[-> _]|(r & Hr1 & -> & Hu)]; [done|]. rewrite ownerReply_text by (by apply (zr_valid _ _ HZ)).
    case_match eqn:Hcc; [done|]. exfalso. assert (owned batches id (sr_owner r)) as (b & Hb1 & Hb2 & _); [|by eapply Hno].
    apply Hrs. exists r. split_and!; [done| |done]. unfold covers. lia.
Qed.

(** ** Examples: two batches of one writer, then a restart *)
Definition batch1 : sliceRange := mkRange 1 4096 "mac-a".
Definition batch2 : sliceRange := mkRange 4097 8192 "mac-a".
Definition restarted : rgworld := mkRG [] (recordRange batch2 (recordRange batch1 ∅)) [batch1; batch2] [] [batch1; batch2] [] [].

Lemma restarted_runs : rtc gstep noRanges restarted.
Proof.
  assert (validRange batch1 /\ validRange batch2) as [H1 H2] by (split; (split; [cbn; lia|split; [reflexivity|discriminate]])).
  eapply rtc_l; [apply (g_record _ batch1); split; [done|set_solver]|]. eapply rtc_l; [apply (g_run _ [] batch1 []); reflexivity|].
  eapply rtc_l; [apply (g_record _ batch2); split; [done|]|].
  { intros r ->%list_elem_of_singleton [O1 O2]. cbn in *. lia. }
  eapply rtc_l; [apply (g_run _ [] batch2 []); reflexivity|]. eapply rtc_l; [apply g_restart|]. apply rtc_refl.
Qed.

Lemma range_owner_is_allocator_witness : size (rg_zset restarted) = 1%nat /\ rangeOwner 5000 restarted = Ok (Some "mac-a").
Proof.
  split; [vm_compute; reflexivity|]. apply (proj1 (proj2 (range_owner_is_allocator restarted restarted_runs))).
  exists batch2. unfold covers. cbn. split_and!; [set_solver|lia|lia|reflexivity].
Defined.

Definition allocs : list inodeOp := [IMark; IAlloc 1024 "mac-a"; IAlloc 1024 "mac-b"].
Lemma inode_numbers_are_recorded_witness :
  let s := foldl (flip inodeRun) (mkInodes (Some 100) None ∅, []) allocs in ik_mark (fst s) = Some 100 /\ ik_next (fst s) = Some 2148.
Proof.
  cbn zeta. split; [|vm_compute; reflexivity].
  destruct (foldl (flip inodeRun) (mkInodes (Some 100) None ∅, []) allocs) as [k batches] eqn:E.
  assert (ik_next k = Some 2148) as Hk by (change (ik_next (fst (k, batches)) = Some 2148); rewrite <- E; vm_compute; reflexivity).
  refine (proj1 (inode_numbers_are_recorded allocs 100 k batches _ _ E _) _); [lia| |rewrite Hk; reflexivity|discriminate].
  constructor; [exact I|]. constructor; [split; [lia|discriminate]|]. constructor; [split; [lia|discriminate]|]. constructor.
Defined.
