(* ===== verification/RedisSessions.v ===== *)
(** * Session owners and used bits in Redis (internal/respproxy/proxy.go)

    redisSessions keeps the principal of each juicefs session in a hash of
    Redis, redisSlices a bit per slice id that was linked; each has a cache in
    memory.  Calls of several goroutines interleave with the commands Redis
    runs for them.  With nothing else under way the session store is an
    instance of the guard's interface. *)

From S2P Require Import Prelude GoLib Policy Stores.

(** ** redisSessions *)
Definition sessionField (sid : Z) : string := FormatUint sid.

Definition sessionCacheMax : nat := 100 * 1000.
Definition rememberSession (sid : Z) (owner : string) (cache : gmap Z string) : gmap Z string :=
  <[sid := owner]> (if Nat.ltb sessionCacheMax (size cache) then ∅ else cache).

(** HSETNX and HDEL on the hash. *)
Definition hsetnx (f v : string) (h : gmap string string) : gmap string string := match h !! f with Some _ => h | None => <[f := v]> h end.
Definition hdel (fs : list string) (h : gmap string string) : gmap string string := foldl (fun h f => delete f h) h fs.

(** *** Calls one after the other *)
Record sessions_ : Type := mkSessions { se_cache : gmap Z string; se_hash : gmap string string }.

Definition Owner_ (sid : Z) (s : sessions_) : option string * sessions_ :=
  match se_cache s !! sid with
  | Some o => (Some o, s)
  | None =>
      match se_hash s !! sessionField sid with
      | None => (None, s)
      | Some o => (Some o, mkSessions (rememberSession sid o (se_cache s)) (se_hash s))
      end
  end.

(** An owner that cannot be read after the claim is an error. *)
Definition Claim_ (sid : Z) (owner : string) (s : sessions_) : result ioerr string * sessions_ :=
  match Owner_ sid (mkSessions (se_cache s) (hsetnx (sessionField sid) owner (se_hash s))) with
  | (Some o, s) => (Ok o, s)
  | (None, s) => (Err IOErr, s)
  end.

Definition Release_ (sids : list Z) (s : sessions_) : sessions_ :=
  mkSessions (foldl (fun c sid => delete sid c) (se_cache s) sids) (hdel (sessionField <$> sids) (se_hash s)).

(** *** Calls of several goroutines *)

(** [sn_claimed]: sessions and the principals they were allocated to;
    [sn_ran]: those whose claim Redis ran; [sn_released]: sessions that were
    released; [sn_asks]: calls of Owner that read Redis; [sn_sent]: commands on
    their way to Redis. *)
Inductive sessCmd : Type := CmdClaim (sid : Z) (owner : string) | CmdRelease (sids : list Z).
Record snworld : Type := mkSN {
  sn_store : sessions_;
  sn_claimed : list (Z * string);
  sn_ran : list Z;
  sn_released : list Z;
  sn_sent : list sessCmd;
  sn_asks : list (Z * option (option string));
  sn_answers : list (Z * option string);
}.

Definition runSess (c : sessCmd) (s : sessions_) : sessions_ :=
  match c with
  | CmdClaim sid owner => mkSessions (se_cache s) (hsetnx (sessionField sid) owner (se_hash s))
  | CmdRelease sids => mkSessions (se_cache s) (hdel (sessionField <$> sids) (se_hash s))
  end.

(** A claim is followed by a call of Owner, which is a step of its own.  A
    session id was allocated once ([n_claim]). *)
Inductive nstep (w : snworld) : snworld -> Prop :=
  | n_claim sid owner : is_u64 sid -> (forall o, (sid, o) ∈ sn_claimed w -> o = owner) ->
      nstep w (mkSN (sn_store w) (sn_claimed w ++ [(sid, owner)]) (sn_ran w) (sn_released w) (sn_sent w ++ [CmdClaim sid owner]) (sn_asks w) (sn_answers w))
  | n_release sids : Forall is_u64 sids ->
      nstep w (mkSN (mkSessions (foldl (fun c sid => delete sid c) (se_cache (sn_store w)) sids) (se_hash (sn_store w)))
                 (sn_claimed w) (sn_ran w) (sn_released w ++ sids) (sn_sent w ++ [CmdRelease sids]) (sn_asks w) (sn_answers w))
  | n_run l1 c l2 : sn_sent w = l1 ++ c :: l2 ->
      nstep w (mkSN (runSess c (sn_store w)) (sn_claimed w) (sn_ran w ++ match c with CmdClaim sid _ => [sid] | _ => [] end) (sn_released w) (l1 ++ l2) (sn_asks w) (sn_answers w))
  | n_lost l1 c l2 : sn_sent w = l1 ++ c :: l2 -> nstep w (mkSN (sn_store w) (sn_claimed w) (sn_ran w) (sn_released w) (l1 ++ l2) (sn_asks w) (sn_answers w))
  | n_hit sid o : se_cache (sn_store w) !! sid = Some o ->
      nstep w (mkSN (sn_store w) (sn_claimed w) (sn_ran w) (sn_released w) (sn_sent w) (sn_asks w) (sn_answers w ++ [(sid, Some o)]))
  | n_ask sid : is_u64 sid -> se_cache (sn_store w) !! sid = None ->
      nstep w (mkSN (sn_store w) (sn_claimed w) (sn_ran w) (sn_released w) (sn_sent w) (sn_asks w ++ [(sid, None)]) (sn_answers w))
  | n_read l1 sid l2 : sn_asks w = l1 ++ (sid, None) :: l2 ->
      nstep w (mkSN (sn_store w) (sn_claimed w) (sn_ran w) (sn_released w) (sn_sent w) (l1 ++ (sid, Some (se_hash (sn_store w) !! sessionField sid)) :: l2) (sn_answers w))
  | n_found l1 sid o l2 : sn_asks w = l1 ++ (sid, Some (Some o)) :: l2 ->
      nstep w (mkSN (mkSessions (rememberSession sid o (se_cache (sn_store w))) (se_hash (sn_store w))) (sn_claimed w) (sn_ran w) (sn_released w) (sn_sent w) (l1 ++ l2)
                 (sn_answers w ++ [(sid, Some o)]))
  | n_none l1 sid l2 : sn_asks w = l1 ++ (sid, Some None) :: l2 ->
      nstep w (mkSN (sn_store w) (sn_claimed w) (sn_ran w) (sn_released w) (sn_sent w) (l1 ++ l2) (sn_answers w ++ [(sid, None)]))
  | n_fail l1 a l2 : sn_asks w = l1 ++ a :: l2 -> nstep w (mkSN (sn_store w) (sn_claimed w) (sn_ran w) (sn_released w) (sn_sent w) (l1 ++ l2) (sn_answers w))
  | n_restart : nstep w (mkSN (mkSessions ∅ (se_hash (sn_store w))) (sn_claimed w) (sn_ran w) (sn_released w) (sn_sent w) [] (sn_answers w)).

Definition noSessions : snworld := mkSN (mkSessions ∅ ∅) [] [] [] [] [] [].

(** ** redisSlices: the used bits *)

(** A bit of Redis: its key and its offset. *)
Definition usedBit (id : Z) : string * Z := (UsedBitKey id, UsedBitOffset id).

Definition usedCacheMax : nat := 1000 * 1000.
Definition cacheUsed (id : Z) (used : gset Z) : gset Z := {[id]} ∪ (if Nat.ltb usedCacheMax (size used) then ∅ else used).

(** [ud_marked]: ids the proxy has begun to mark; [ud_sent]: SETBITs on their
    way; [ud_asks]: calls of Used that read Redis. *)
Record udworld : Type := mkUD {
  ud_cache : gset Z;
  ud_bits : gset (string * Z);
  ud_marked : list Z;
  ud_sent : list Z;
  ud_asks : list (Z * option bool);
  ud_answers : list (Z * bool);
}.

(** [u_exec]: the EXEC of a unit ran with the SETBIT the proxy appended; then
    [u_note] is MarkUsed without persist, [u_mark] MarkUsed with it. *)
Inductive dstep_ (w : udworld) : udworld -> Prop :=
  | u_exec id : is_u64 id -> dstep_ w (mkUD (ud_cache w) ({[usedBit id]} ∪ ud_bits w) (ud_marked w ++ [id]) (ud_sent w) (ud_asks w) (ud_answers w))
  | u_note id : usedBit id ∈ ud_bits w -> is_u64 id -> dstep_ w (mkUD (cacheUsed id (ud_cache w)) (ud_bits w) (ud_marked w) (ud_sent w) (ud_asks w) (ud_answers w))
  | u_mark id : is_u64 id ->
      dstep_ w (mkUD (cacheUsed id (ud_cache w)) (ud_bits w) (ud_marked w ++ [id]) (ud_sent w ++ [id]) (ud_asks w) (ud_answers w))
  | u_run l1 id l2 : ud_sent w = l1 ++ id :: l2 ->
      dstep_ w (mkUD (ud_cache w) ({[usedBit id]} ∪ ud_bits w) (ud_marked w) (l1 ++ l2) (ud_asks w) (ud_answers w))
  | u_lost l1 id l2 : ud_sent w = l1 ++ id :: l2 -> dstep_ w (mkUD (ud_cache w) (ud_bits w) (ud_marked w) (l1 ++ l2) (ud_asks w) (ud_answers w))
  | u_hit id : id ∈ ud_cache w -> dstep_ w (mkUD (ud_cache w) (ud_bits w) (ud_marked w) (ud_sent w) (ud_asks w) (ud_answers w ++ [(id, true)]))
  | u_ask id : is_u64 id -> id ∉ ud_cache w -> dstep_ w (mkUD (ud_cache w) (ud_bits w) (ud_marked w) (ud_sent w) (ud_asks w ++ [(id, None)]) (ud_answers w))
  | u_read l1 id l2 : ud_asks w = l1 ++ (id, None) :: l2 ->
      dstep_ w (mkUD (ud_cache w) (ud_bits w) (ud_marked w) (ud_sent w) (l1 ++ (id, Some (bool_decide (usedBit id ∈ ud_bits w))) :: l2) (ud_answers w))
  | u_found l1 id b l2 : ud_asks w = l1 ++ (id, Some b) :: l2 ->
      dstep_ w (mkUD (if b then cacheUsed id (ud_cache w) else ud_cache w) (ud_bits w) (ud_marked w) (ud_sent w) (l1 ++ l2) (ud_answers w ++ [(id, b)]))
  | u_fail l1 a l2 : ud_asks w = l1 ++ a :: l2 -> dstep_ w (mkUD (ud_cache w) (ud_bits w) (ud_marked w) (ud_sent w) (l1 ++ l2) (ud_answers w))
  | u_restart : dstep_ w (mkUD ∅ (ud_bits w) (ud_marked w) (ud_sent w) [] (ud_answers w)).

Definition noBits : udworld := mkUD ∅ ∅ [] [] [] [].

(** A call of Used with nothing else under way. *)
Definition Used_ (id : Z) (w : udworld) : bool := bool_decide (id ∈ ud_cache w) || bool_decide (usedBit id ∈ ud_bits w).
