(* ===== verification/RedisSessionFacts.v ===== *)
(** * What the stores of sessions and used bits promise *)

From S2P Require Import Prelude GoLib Policy Stores RedisSessions.

Lemma field_inj a b : is_u64 a -> is_u64 b -> sessionField a = sessionField b -> a = b.
Proof. apply FormatUint_inj. Qed.

Lemma hsetnx_lookup f v h f' : hsetnx f v h !! f' = if decide (f = f') then Some (default v (h !! f)) else h !! f'.
Proof.
  unfold hsetnx. destruct (h !! f) as [o|] eqn:E; case_decide as Hd; [by subst|done|subst; by rewrite lookup_insert_eq|by rewrite lookup_insert_ne].
Qed.
Lemma hdel_lookup fs h f : hdel fs h !! f = if decide (f ∈ fs) then None else h !! f.
Proof.
  unfold hdel. revert h. induction fs as [|x fs IH]; intros h; cbn; [by rewrite decide_False by set_solver|]. rewrite IH.
  destruct (decide (f ∈ fs)), (decide (f ∈ x :: fs)); try done; try set_solver; [assert (f = x) as -> by set_solver; by rewrite lookup_delete_eq|by rewrite lookup_delete_ne by set_solver].
Qed.
Lemma remembered sid o cache x o' : rememberSession sid o cache !! x = Some o' -> (x = sid /\ o' = o) \/ cache !! x = Some o'.
Proof. unfold rememberSession. rewrite lookup_insert_Some. intros [[-> ->]|[_ Hx]]; [by left|]. case_match; [by rewrite lookup_empty in Hx|by right]. Qed.

(** ** Sessions of several goroutines *)
Record sessOK (w : snworld) : Prop := {
  so_claims sid o o' : (sid, o) ∈ sn_claimed w -> (sid, o') ∈ sn_claimed w -> o = o';
  so_u64 sid o : (sid, o) ∈ sn_claimed w -> is_u64 sid;
  so_hash f o : se_hash (sn_store w) !! f = Some o -> exists sid, f = sessionField sid /\ (sid, o) ∈ sn_claimed w;
  so_cache sid o : se_cache (sn_store w) !! sid = Some o -> (sid, o) ∈ sn_claimed w;
  so_sent sid o : CmdClaim sid o ∈ sn_sent w -> (sid, o) ∈ sn_claimed w;
  so_release sids : CmdRelease sids ∈ sn_sent w -> Forall is_u64 sids /\ sids ⊆ sn_released w;
  so_ran sid : sid ∈ sn_ran w -> is_u64 sid /\ (sid ∉ sn_released w -> is_Some (se_hash (sn_store w) !! sessionField sid));
  so_asks sid o : (sid, Some (Some o)) ∈ sn_asks w -> (sid, o) ∈ sn_claimed w;
  so_asked sid x : (sid, x) ∈ sn_asks w -> is_u64 sid;
  so_answers sid o : (sid, Some o) ∈ sn_answers w -> (sid, o) ∈ sn_claimed w;
}.

Lemma hash_claimed w sid o : sessOK w -> is_u64 sid -> se_hash (sn_store w) !! sessionField sid = Some o -> (sid, o) ∈ sn_claimed w.
Proof. intros HW Hu (sid' & Hf & Hin)%(so_hash _ HW). apply field_inj in Hf as ->; [done|done|by eapply so_u64]. Qed.

Lemma claim_sess w sid owner : sessOK w -> is_u64 sid -> (forall o, (sid, o) ∈ sn_claimed w -> o = owner) ->
  sessOK (mkSN (sn_store w) (sn_claimed w ++ [(sid, owner)]) (sn_ran w) (sn_released w) (sn_sent w ++ [CmdClaim sid owner]) (sn_asks w) (sn_answers w)).
Proof.
  intros [S1 S2 S3 S4 S5 S6 S7 S8 S9 S10] Hu Hone. split; cbn; try done; try (by intros; apply elem_of_app; left; eauto).
  - intros s o o'. rewrite !elem_of_app, !list_elem_of_singleton. intros [?|E1] [?|E2]; simplify_eq; [by eapply S1|by apply Hone|symmetry; by apply Hone|done].
  - intros s o. rewrite elem_of_app, list_elem_of_singleton. intros [?|E1]; simplify_eq; [by eapply S2|done].
  - intros f o (s & -> & ?)%S3. exists s. set_solver.
  - intros s o [?|E1%list_elem_of_singleton]%elem_of_app; [apply elem_of_app; left; eauto|simplify_eq; set_solver].
  - intros sids [?|E1%list_elem_of_singleton]%elem_of_app; [eauto|discriminate].
Qed.

Lemma run_sess w l1 c l2 : sessOK w -> sn_sent w = l1 ++ c :: l2 ->
  sessOK (mkSN (runSess c (sn_store w)) (sn_claimed w) (sn_ran w ++ match c with CmdClaim sid _ => [sid] | _ => [] end) (sn_released w) (l1 ++ l2) (sn_asks w) (sn_answers w)).
Proof.
  intros HW Hs. pose proof HW as [S1 S2 S3 S4 S5 S6 S7 S8 S9 S10].
  assert (forall x, x ∈ l1 ++ l2 -> x ∈ sn_sent w) as Hsub by (intros x; rewrite Hs; set_solver). assert (c ∈ sn_sent w) as Hc by (rewrite Hs; set_solver).
  destruct c as [sid owner|sids]; split; cbn; eauto.
  - intros f o. rewrite hsetnx_lookup. case_decide as Hf; [|eauto]. intros [= Ho]. destruct (se_hash (sn_store w) !! sessionField sid) as [x|] eqn:E; cbn in Ho; subst; [eauto|].
    exists sid. auto.
  - intros s Hin. assert (is_u64 s) as Hu by (apply elem_of_app in Hin as [?%S7| ->%list_elem_of_singleton]; [tauto|eauto]). split; [done|]. intros Hr.
    rewrite hsetnx_lookup. case_decide as Hf; [by eexists|]. apply elem_of_app in Hin as [?| ->%list_elem_of_singleton]; [by apply S7|done].
  - intros f o. rewrite hdel_lookup. case_decide; [done|eauto].
  - rewrite app_nil_r. intros s Hin. destruct (S7 s Hin) as [Hu Hk]. split; [done|]. intros Hr. rewrite hdel_lookup. destruct (S6 sids Hc) as [Hus Hsubs].
    rewrite decide_False; [by apply Hk|]. intros (s' & Hf & Hs')%list_elem_of_fmap. rewrite Forall_forall in Hus. apply field_inj in Hf as ->; [|done|by apply Hus]. by apply Hr, Hsubs.
Qed.

(** Steps that leave the hash and the claims alone. *)
Lemma mem_sess w store sent asks answers : sessOK w -> se_hash store = se_hash (sn_store w) ->
  (forall sid o, se_cache store !! sid = Some o -> (sid, o) ∈ sn_claimed w) -> (forall c, c ∈ sent -> c ∈ sn_sent w) ->
  (forall sid o, (sid, Some (Some o)) ∈ asks -> (sid, o) ∈ sn_claimed w) -> (forall sid x, (sid, x) ∈ asks -> is_u64 sid) ->
  (forall sid o, (sid, Some o) ∈ answers -> (sid, o) ∈ sn_claimed w) ->
  sessOK (mkSN store (sn_claimed w) (sn_ran w) (sn_released w) sent asks answers).
Proof. intros [S1 S2 S3 S4 S5 S6 S7 S8 S9 S10] Hh Hc Hs H1 H2 H3. split; cbn; rewrite ?Hh; eauto. Qed.

Lemma release_sess w sids : sessOK w -> Forall is_u64 sids ->
  sessOK (mkSN (mkSessions (foldl (fun c sid => delete sid c) (se_cache (sn_store w)) sids) (se_hash (sn_store w)))
            (sn_claimed w) (sn_ran w) (sn_released w ++ sids) (sn_sent w ++ [CmdRelease sids]) (sn_asks w) (sn_answers w)).
Proof.
  intros [S1 S2 S3 S4 S5 S6 S7 S8 S9 S10] Hu. split; cbn; try done.
  - intros s o. rewrite lookup_foldl_delete. case_decide; [done|eauto].
  - intros s o [?|E%list_elem_of_singleton]%elem_of_app; [eauto|discriminate].
  - intros l [Hl|[= ->]%list_elem_of_singleton]%elem_of_app; [destruct (S6 l Hl); split; [done|set_solver]|]. split; [done|set_solver].
  - intros s Hs. destruct (S7 s Hs) as [? Hk]. split; [done|]. intros Hn. apply Hk. intros ?. apply Hn, elem_of_app. by left.
Qed.

Lemma elem_skip {A} (x a : A) l1 l2 l : l = l1 ++ a :: l2 -> x ∈ l1 ++ l2 -> x ∈ l.
Proof. intros ->. rewrite !elem_of_app, elem_of_cons. tauto. Qed.

Lemma step_sess w w' : sessOK w -> nstep w w' -> sessOK w'.
Proof.
  intros HW. pose proof HW as [S1 S2 S3 S4 S5 S6 S7 S8 S9 S10].
  destruct 1 as [sid owner Hu Hone|sids Hu|l1 c l2 Hs|l1 c l2 Hs|sid o Hc|sid Hu Hc|l1 sid l2 Ha|l1 sid o l2 Ha|l1 sid l2 Ha|l1 a l2 Ha|].
  - by apply claim_sess.
  - by apply release_sess.
  - by apply run_sess.
  - apply mem_sess; eauto using elem_skip.
  - apply mem_sess; eauto. intros s o' [?|[= -> ->]%list_elem_of_singleton]%elem_of_app; eauto.
  - apply mem_sess; eauto.
    + intros s o [?|E%list_elem_of_singleton]%elem_of_app; [eauto|discriminate].
    + intros s x [?|[= -> ->]%list_elem_of_singleton]%elem_of_app; eauto.
  - assert (is_u64 sid) as Hu by (eapply S9; rewrite Ha; apply elem_of_app; right; left). apply mem_sess; eauto.
    + intros s o. rewrite elem_of_app, elem_of_cons. intros [?|[[= -> Ho]|?]]; [| by eapply hash_claimed|]; (eapply S8; rewrite Ha, elem_of_app, elem_of_cons; eauto).
    + intros s x. rewrite elem_of_app, elem_of_cons. intros [?|[[= -> Ho]|?]]; [|done|]; (eapply S9; rewrite Ha, elem_of_app, elem_of_cons; eauto).
  - assert ((sid, o) ∈ sn_claimed w) as Hin by (eapply S8; rewrite Ha; apply elem_of_app; right; left). apply mem_sess; eauto using elem_skip.
    + intros s o' [[-> ->]|?]%remembered; eauto.
    + intros s o' [?|[= -> ->]%list_elem_of_singleton]%elem_of_app; eauto.
  - apply mem_sess; eauto using elem_skip. intros s o' [?|E%list_elem_of_singleton]%elem_of_app; [eauto|discriminate].
  - apply mem_sess; eauto using elem_skip.
  - apply mem_sess; eauto; [cbn; intros s o Hx; by rewrite lookup_empty in Hx|intros s o Hx; by apply elem_of_nil in Hx..].
Qed.

(** C16: the owner of a session is the principal its id was allocated to.  In
    every interleaving of claims, releases and lookups with Redis, late or
    lost commands and restarts included, Owner names only that principal, it
    does so from the moment the claim ran until a release, and never for an
    id that was not allocated. *)
Theorem session_owner_is_claimant w : rtc nstep noSessions w ->
  (forall sid o, (sid, Some o) ∈ sn_answers w -> (sid, o) ∈ sn_claimed w) /\
  (forall sid o o', (sid, o) ∈ sn_claimed w -> (sid, o') ∈ sn_claimed w -> o = o') /\
  (forall sid, sid ∈ sn_ran w -> sid ∉ sn_released w -> exists o, (sid, o) ∈ sn_claimed w /\ fst (Owner_ sid (sn_store w)) = Some o) /\
  (forall sid, is_u64 sid -> (forall o, (sid, o) ∉ sn_claimed w) -> fst (Owner_ sid (sn_store w)) = None).
Proof.
  intros Hr. assert (sessOK w) as HW.
  { revert w Hr. apply (rtc_ind_r sessOK noSessions); [|intros x y _ Hxy HW; by eapply step_sess]. split; cbn; intros; try (by set_solver); by rewrite lookup_empty in *. }
  split_and!; [apply (so_answers _ HW)|apply (so_claims _ HW)| |].
  - intros sid Hran Hrel. destruct (so_ran _ HW sid Hran) as [Hu Hk]. destruct (Hk Hrel) as [o Ho]. pose proof (hash_claimed w sid o HW Hu Ho) as Hin. exists o. split; [done|].
    unfold Owner_. destruct (se_cache (sn_store w) !! sid) as [o'|] eqn:Ec; [|by rewrite Ho]. cbn. f_equal. by eapply (so_claims _ HW); [apply (so_cache _ HW)|].
  - intros sid Hu Hno. unfold Owner_. destruct (se_cache (sn_store w) !! sid) as [o|] eqn:Ec; [by apply (so_cache _ HW), Hno in Ec|].
    destruct (se_hash (sn_store w) !! sessionField sid) as [o|] eqn:Eh; [|done]. by apply hash_claimed, Hno in Eh.
Qed.

(** ** The session store as an instance of the guard's interface *)

(** The cache shows what the hash has, for ids that are uint64s. *)
Definition coherent (s : sessions_) : Prop :=
  forall sid o, se_cache s !! sid = Some o -> is_u64 sid /\ se_hash s !! sessionField sid = Some o.

Lemma owner_coherent sid s : is_u64 sid -> coherent s -> coherent (snd (Owner_ sid s)) /\ fst (Owner_ sid s) = se_hash s !! sessionField sid /\ se_hash (snd (Owner_ sid s)) = se_hash s.
Proof.
  intros Hu Hs. unfold Owner_. destruct (se_cache s !! sid) as [o|] eqn:Ec; [destruct (Hs _ _ Ec) as [_ Hh]; by rewrite Hh|].
  destruct (se_hash s !! sessionField sid) as [o|] eqn:Eh; [|done]. split; [|done]. intros x o' [[-> ->]|Hx]%remembered; cbn; [done|by apply Hs].
Qed.

(** The ids of the store are the uint64s: no other number has an owner. *)
Definition redisSessions : Type := { s : sessions_ | coherent s }.

Lemma claim_coherent sid owner s : is_u64 sid -> coherent s -> coherent (snd (Claim_ sid owner s)) /\
  fst (Claim_ sid owner s) = Ok (default owner (se_hash s !! sessionField sid)) /\
  se_hash (snd (Claim_ sid owner s)) = hsetnx (sessionField sid) owner (se_hash s).
Proof.
  intros Hu Hs. unfold Claim_. set (s1 := mkSessions (se_cache s) (hsetnx (sessionField sid) owner (se_hash s))).
  assert (coherent s1) as H1. { intros x o Hx. destruct (Hs x o Hx) as [? Hh]. split; [done|]. cbn. rewrite hsetnx_lookup. case_decide as Hd; [|done]. rewrite Hd, Hh. done. }
  destruct (owner_coherent sid s1 Hu H1) as (H2 & H3 & H4). cbn in H3. rewrite hsetnx_lookup, decide_True in H3 by done.
  destruct (Owner_ sid s1) as [r s2]. cbn in *. subst r. done.
Qed.

Lemma release_coherent sids s : Forall is_u64 sids -> coherent s -> coherent (Release_ sids s).
Proof.
  intros Hu Hs x o. cbn. rewrite lookup_foldl_delete. case_decide as Hd; [done|]. intros Hx. destruct (Hs x o Hx) as [Hxu Hh]. split; [done|].
  rewrite hdel_lookup, decide_False; [done|]. intros (y & Hf & Hy)%list_elem_of_fmap. rewrite Forall_forall in Hu. apply field_inj in Hf as ->; auto.
Qed.

#[global] Instance is_u64_dec n : Decision (is_u64 n).
Proof. unfold is_u64. apply _. Defined.

#[export] Program Instance redis_session_store : SessionStore redisSessions := {
  sessOwner s sid := Ok (if decide (is_u64 sid) then fst (Owner_ sid (`s)) else None);
  sessClaim s sid owner := if decide (is_u64 sid) then (fst (Claim_ sid owner (`s)), snd (Claim_ sid owner (`s)) ↾ _) else (Err IOErr, s);
  sessRelease s sids := (Ok tt, Release_ (filter is_u64 sids) (`s) ↾ _);
}.
Next Obligation. intros [s Hs] sid owner Hu. by apply claim_coherent. Qed.
Next Obligation. intros [s Hs] sids. apply release_coherent; [|done]. apply Forall_forall. by intros x [? _]%list_elem_of_filter. Qed.

(** With the connection to Redis up, the store keeps the interface's laws. *)
#[export] Instance redis_session_store_laws : SessionStoreLaws redisSessions.
Proof.
  split; cbn.
  - intros [s Hs] sid o o' s' Hc. case_decide as Hu; [|done]. injection Hc as Ho <-. cbn. destruct (claim_coherent sid o s Hu Hs) as (H1 & H2 & H3). rewrite H2 in Ho. injection Ho as Ho.
    destruct (owner_coherent sid _ Hu H1) as (_ & -> & _). by rewrite H3, hsetnx_lookup, decide_True, Ho.
  - intros [s Hs] sid o o' s' Hc Hn. case_decide as Hu; [|done]. injection Hc as Ho <-. destruct (claim_coherent sid o s Hu Hs) as (_ & H2 & _). rewrite H2 in Ho.
    cbn in Hn. destruct (owner_coherent sid s Hu Hs) as (_ & H3 & _). rewrite H3 in Hn. injection Hn as Hn. rewrite Hn in Ho. by injection Ho as <-.
  - intros [s Hs] sid o o' s' x Hc Hn. case_decide as Hu; [|done]. injection Hc as Ho <-. destruct (claim_coherent sid o s Hu Hs) as (_ & H2 & _). rewrite H2 in Ho.
    cbn in Hn. destruct (owner_coherent sid s Hu Hs) as (_ & H3 & _). rewrite H3 in Hn. injection Hn as Hn. rewrite Hn in Ho. by injection Ho as <-.
  - intros [s Hs] sid o r s' sid' Hc Hne. case_decide as Hu; [|by injection Hc as <- <-]. injection Hc as _ <-. cbn. case_decide as Hu'; [|done].
    destruct (claim_coherent sid o s Hu Hs) as (H1 & _ & H3). destruct (owner_coherent sid' _ Hu' H1) as (_ & -> & _), (owner_coherent sid' s Hu' Hs) as (_ & -> & _).
    rewrite H3, hsetnx_lookup, decide_False; [done|]. intros Hf. apply field_inj in Hf; [congruence|done..].
  - intros [s Hs] sids s' sid Hr Hin. injection Hr as <-. cbn. case_decide as Hu; [|done]. unfold Owner_. cbn. rewrite lookup_foldl_delete, hdel_lookup.
    assert (sid ∈ filter is_u64 sids) by (by apply list_elem_of_filter). rewrite !decide_True; [done|by apply list_elem_of_fmap_2|done].
  - intros [s Hs] sids r s' sid Hr Hin. injection Hr as <- <-. cbn. case_decide as Hu; [|done]. unfold Owner_. cbn. rewrite lookup_foldl_delete, hdel_lookup.
    rewrite !decide_False; [by case_match; [|case_match]| |].
    + intros (y & Hf & [Hy ?]%list_elem_of_filter)%list_elem_of_fmap. apply field_inj in Hf as ->; done.
    + by intros [_ ?]%list_elem_of_filter.
Qed.

(** ** Used bits *)
Lemma usedBit_inj a b : is_u64 a -> is_u64 b -> usedBit a = usedBit b -> a = b.
Proof.
  unfold is_u64. intros Ha Hb [= Hk Ho].
  assert (Z.shiftr a 20 = Z.shiftr b 20) as Hs. { apply FormatUint_inj; [..|done]; unfold is_u64; rewrite Z.shiftr_div_pow2 by lia; (split; [apply Z.div_pos; lia|apply Z.div_lt_upper_bound; lia]). }
  unfold UsedBitOffset in Ho. change (2^20 - 1) with (Z.ones 20) in Ho. rewrite !Z.land_ones, !Z.shiftr_div_pow2 in * by lia.
  rewrite (Z.div_mod a (2^20)), (Z.div_mod b (2^20)) by lia. congruence.
Qed.

Record bitsOK (w : udworld) : Prop := {
  bo_bits b : b ∈ ud_bits w -> exists id, b = usedBit id /\ id ∈ ud_marked w;
  bo_u64 id : id ∈ ud_marked w -> is_u64 id;
  bo_cache id : id ∈ ud_cache w -> id ∈ ud_marked w;
  bo_sent id : id ∈ ud_sent w -> id ∈ ud_marked w;
  bo_asks id b : (id, b) ∈ ud_asks w -> is_u64 id /\ (b = Some true -> id ∈ ud_marked w);
  bo_answers id : (id, true) ∈ ud_answers w -> id ∈ ud_marked w;
}.

Lemma bit_marked w id : bitsOK w -> is_u64 id -> usedBit id ∈ ud_bits w -> id ∈ ud_marked w.
Proof. intros HW Hu (x & Hx & Hm)%(bo_bits _ HW). apply usedBit_inj in Hx as ->; [done|done|by apply (bo_u64 _ HW)]. Qed.
Lemma cacheUsed_elem id used x : x ∈ cacheUsed id used -> x = id \/ x ∈ used.
Proof. unfold cacheUsed. case_match; set_solver. Qed.

(** Steps that leave the bits and the marks alone. *)
Lemma mem_bits w cache sent asks answers : bitsOK w -> (forall id, id ∈ cache -> id ∈ ud_marked w) -> (forall id, id ∈ sent -> id ∈ ud_marked w) ->
  (forall id b, (id, b) ∈ asks -> is_u64 id /\ (b = Some true -> id ∈ ud_marked w)) -> (forall id, (id, true) ∈ answers -> id ∈ ud_marked w) ->
  bitsOK (mkUD cache (ud_bits w) (ud_marked w) sent asks answers).
Proof. intros [B1 B2 B3 B4 B5 B6] ? ? ? ?. by split. Qed.

Lemma marks_bits w id cache sent bits : bitsOK w -> is_u64 id -> (forall x, x ∈ cache -> x = id \/ x ∈ ud_cache w) -> (forall x, x ∈ sent -> x = id \/ x ∈ ud_sent w) ->
  (forall b, b ∈ bits -> b = usedBit id \/ b ∈ ud_bits w) -> bitsOK (mkUD cache bits (ud_marked w ++ [id]) sent (ud_asks w) (ud_answers w)).
Proof.
  intros [B1 B2 B3 B4 B5 B6] Hu Hc Hs Hb. assert (id ∈ ud_marked w ++ [id]) by set_solver. assert (forall x, x ∈ ud_marked w -> x ∈ ud_marked w ++ [id]) by set_solver. split; cbn.
  - intros b [->|(x & -> & ?)%B1]%Hb; eauto.
  - intros x [?| ->%list_elem_of_singleton]%elem_of_app; auto.
  - intros x [->|?]%Hc; auto.
  - intros x [->|?]%Hs; auto.
  - intros x b Hx. destruct (B5 x b Hx). auto.
  - auto.
Qed.

Lemma step_bits w w' : bitsOK w -> dstep_ w w' -> bitsOK w'.
Proof.
  intros HW. pose proof HW as [B1 B2 B3 B4 B5 B6].
  destruct 1 as [id Hu|id Hb Hu|id Hu|l1 id l2 Hs|l1 id l2 Hs|id Hc|id Hu Hc|l1 id l2 Ha|l1 id b l2 Ha|l1 a l2 Ha|].
  - apply marks_bits; auto. set_solver.
  - apply mem_bits; auto. intros x [->|?]%cacheUsed_elem; [by apply bit_marked|auto].
  - apply marks_bits; auto; [apply cacheUsed_elem|set_solver].
  - assert (id ∈ ud_marked w) as Hm by (apply B4; rewrite Hs; set_solver). split; cbn; eauto using elem_skip.
    intros b [->%elem_of_singleton|?]%elem_of_union; eauto.
  - apply mem_bits; eauto using elem_skip.
  - apply mem_bits; auto. intros x [?|[= ->]%list_elem_of_singleton]%elem_of_app; auto.
  - apply mem_bits; auto. intros x b [?|[= -> ->]%list_elem_of_singleton]%elem_of_app; [auto|done].
  - assert (is_u64 id) as Hu by (eapply B5; rewrite Ha; apply elem_of_app; right; left). apply mem_bits; auto.
    intros x b. rewrite elem_of_app, elem_of_cons. intros [?|[[= -> ->]|?]]; [apply B5; rewrite Ha, elem_of_app, elem_of_cons; auto| |apply B5; rewrite Ha, elem_of_app, elem_of_cons; auto].
    split; [done|]. intros [= Hb%bool_decide_eq_true]. by apply bit_marked.
  - destruct (B5 id (Some b)) as [Hu Hm]; [rewrite Ha; set_solver|]. apply mem_bits; eauto using elem_skip.
    + destruct b; [|done]. intros x [->|?]%cacheUsed_elem; auto.
    + intros x [?|[= -> <-]%list_elem_of_singleton]%elem_of_app; auto.
  - apply mem_bits; eauto using elem_skip.
  - apply mem_bits; auto; set_solver.
Qed.

Lemma bits_kept w w' : rtc dstep_ w w' -> ud_bits w ⊆ ud_bits w'.
Proof. induction 1 as [|w1 w2 w3 Hs _ IH]; [done|]. etrans; [|exact IH]. destruct Hs; cbn; set_solver. Qed.

(** A slice that was linked stays used.  Used says so only of slices
    that the proxy marked, and once the bit of a slice is set in Redis, by the
    unit that linked it or afterwards, it says so for ever, whatever the cache
    forgets.  No two slice ids share a bit. *)
Theorem used_bits_are_kept w w' : rtc dstep_ noBits w -> rtc dstep_ w w' ->
  (forall id, (id, true) ∈ ud_answers w -> id ∈ ud_marked w) /\
  (forall id, is_u64 id -> usedBit id ∈ ud_bits w -> id ∈ ud_marked w /\ Used_ id w' = true) /\
  (forall id, is_u64 id -> id ∉ ud_marked w -> Used_ id w = false).
Proof.
  intros Hr Hr'. assert (bitsOK w) as HW.
  { revert w Hr Hr'. assert (forall w, rtc dstep_ noBits w -> bitsOK w); [|auto]. apply (rtc_ind_r bitsOK noBits); [|intros x y _ Hxy HW; by eapply step_bits]. split; cbn; set_solver. }
  split_and!; [apply (bo_answers _ HW)| |].
  - intros id Hu Hb. split; [by apply bit_marked|]. unfold Used_. rewrite (bool_decide_eq_true_2 (usedBit id ∈ ud_bits w')), orb_true_r; [done|]. by apply (bits_kept w w').
  - intros id Hu Hn. unfold Used_. rewrite !bool_decide_eq_false_2; [done|intros ?%bit_marked; done|intros ?%(bo_cache _ HW); done].
Qed.

(** ** Examples *)
Definition oneSession : snworld :=
  mkSN (mkSessions ∅ {["7" := "mac-a"]}) [(7, "mac-a")] [7] [] [] [] [].
Lemma session_owner_is_claimant_witness : rtc nstep noSessions oneSession /\ exists o, fst (Owner_ 7 (sn_store oneSession)) = Some o.
Proof.
  assert (rtc nstep noSessions oneSession) as Hr.
  { eapply rtc_l; [apply (n_claim _ 7 "mac-a"); [done|set_solver]|]. eapply rtc_l; [apply (n_run _ [] (CmdClaim 7 "mac-a") []); reflexivity|]. apply rtc_refl. }
  split; [exact Hr|]. destruct (proj1 (proj2 (proj2 (session_owner_is_claimant oneSession Hr))) 7) as (o & _ & Ho); [left|apply not_elem_of_nil|]. exists o. exact Ho.
Defined.

Definition oneBit : udworld := mkUD ∅ {[usedBit 5]} [5] [] [] [].
Lemma used_bits_are_kept_witness : rtc dstep_ noBits oneBit /\ Used_ 5 oneBit = true.
Proof.
  assert (rtc dstep_ noBits oneBit) as Hr.
  { eapply rtc_l; [apply (u_exec _ 5); done|]. eapply rtc_l; [apply u_restart|]. cbn. rewrite (right_id_L ∅ (∪)). apply rtc_refl. }
  split; [exact Hr|]. apply (proj2 (proj1 (proj2 (used_bits_are_kept oneBit oneBit Hr (rtc_refl _ _))) 5 ltac:(done) ltac:(cbn; set_solver))).
Defined.
