(* ===== verification/Singleton.v ===== *)
(** * The singleton key of the proxy (internal/respproxy/proxy.go)

    Start, fenced, renewLoop and Close: a proxy takes a key of Redis with a
    lifetime, renews it, and refuses every write once it cannot prove that it
    still owns the key.  Several proxies run against one Redis; the world has
    their goroutines, the requests under way, and two clocks, one of the
    proxies and one of Redis.  Times are in nanoseconds. *)

From S2P Require Import Prelude GoLib Resp Policy.

(** ** The commands and scripts of the key, in Redis *)

(** The key: its value and when it expires on the clock of Redis. *)
Definition singletonKey : Type := option (string * Z).

Definition intValue (n : Z) : Value := mkValue ":" "" n [] false.
Definition nullValue : Value := mkValue "$" "" 0 [] true.
Definition okValue : Value := mkValue "+" "OK" 0 [] false.
Definition errValue : Value := mkValue "-" "ERR invalid expire time" 0 [] false.

(** SET key inc NX PX ms. *)
Definition setNXPX (now ms : Z) (inc : string) (k : singletonKey) : Value * singletonKey :=
  if ms <=? 0 then (errValue, k)
  else match k with
       | Some _ => (nullValue, k)
       | None => (okValue, Some (inc, now + ms * 10^6))
       end.

(** [renewLua]; PEXPIRE with no time left deletes the key. *)
Definition renewLua (now ms : Z) (inc : string) (k : singletonKey) : Value * singletonKey :=
  match k with
  | Some (v, _) =>
      if v =s inc then (intValue 1, if ms <=? 0 then None else Some (v, now + ms * 10^6)) else (intValue (-1), k)
  | None => (intValue 0, k)
  end.

Definition releaseLua (inc : string) (k : singletonKey) : Value * singletonKey :=
  match k with
  | Some (v, _) => if v =s inc then (intValue 1, None) else (intValue 0, k)
  | None => (intValue 0, k)
  end.

(** ** A proxy *)
Record singleCfg : Type := mkSingleCfg { Singleton : bool; StageBirth : bool; SingletonTTL : Z }.

(** A call of Redis that waits for its reply, and the reply once it is there. *)
Record pendCall : Type := mkCall { c_no : nat; c_start : Z; c_got : option Value }.

Inductive startPC : Type := SNone | SAsk (c : pendCall) | SPoll | SEnd.
Inductive renewPC : Type := ROff | RWait | RAsk (c : pendCall) | ROver.

(** [x_checks]: calls of fenced by connections that have loaded lastRenew. *)
Record prox : Type := mkProx {
  x_inc : string;
  x_started : bool;
  x_start : startPC;
  x_renew : renewPC;
  x_closed : bool;
  x_released : bool;
  x_lost : bool;
  x_last : option Z;
  x_checks : list Z;
  x_calls : nat;
}.
Definition newProx : prox := mkProx "" false SNone ROff false false false None [] 0.

Definition with_start (pc : startPC) (x : prox) : prox :=
  mkProx (x_inc x) (x_started x) pc (x_renew x) (x_closed x) (x_released x) (x_lost x) (x_last x) (x_checks x) (x_calls x).
Definition with_renew (pc : renewPC) (x : prox) : prox :=
  mkProx (x_inc x) (x_started x) (x_start x) pc (x_closed x) (x_released x) (x_lost x) (x_last x) (x_checks x) (x_calls x).
Definition with_lost (x : prox) : prox :=
  mkProx (x_inc x) (x_started x) (x_start x) (x_renew x) (x_closed x) (x_released x) true (x_last x) (x_checks x) (x_calls x).
Definition with_last (t : Z) (x : prox) : prox :=
  mkProx (x_inc x) (x_started x) (x_start x) (x_renew x) (x_closed x) (x_released x) (x_lost x) (Some t) (x_checks x) (x_calls x).
Definition with_closed (x : prox) : prox :=
  mkProx (x_inc x) (x_started x) (x_start x) (x_renew x) true (x_released x) (x_lost x) (x_last x) (x_checks x) (x_calls x).
Definition with_released (x : prox) : prox :=
  mkProx (x_inc x) (x_started x) (x_start x) (x_renew x) (x_closed x) true (x_lost x) (x_last x) (x_checks x) (x_calls x).
Definition with_checks (l : list Z) (x : prox) : prox :=
  mkProx (x_inc x) (x_started x) (x_start x) (x_renew x) (x_closed x) (x_released x) (x_lost x) (x_last x) l (x_calls x).

Section proxy.
Context (cfg : singleCfg).

(** SingletonTTL.Milliseconds(). *)
Definition ttlMillis : Z := Z.quot (SingletonTTL cfg) (10^6).

(** *** fenced, from the load of lastRenew on *)
Definition fencedSince (now last : Z) (x : prox) : bool * prox :=
  if SingletonTTL cfg - Z.quot (SingletonTTL cfg) 5 <=? now - last then (true, with_lost x) else (false, x).

(** Its loads: [inl]: the answer, [inr]: lastRenew. *)
Definition fencedLoad (x : prox) : bool + Z :=
  if negb (Singleton cfg) then inl false
  else if x_lost x || x_closed x then inl true
  else match x_last x with None => inl true | Some last => inr last end.

Definition fenced (now : Z) (x : prox) : bool * prox :=
  match fencedLoad x with inl b => (b, x) | inr last => fencedSince now last x end.

(** *** Start *)
Definition startBegin (now : Z) (inc : string) (x : prox) : prox :=
  mkProx inc true (SAsk (mkCall (x_calls x) now None)) (x_renew x) (x_closed x) (x_released x) (x_lost x) (x_last x) (x_checks x)
    (S (x_calls x)).

(** The reply of SET; [None] is a transport error.  Close of a staging proxy
    that is too late is its own step: here only closed is set. *)
Definition startReply (now start : Z) (r : option Value) (x : prox) : prox :=
  match r with
  | None => with_start SEnd x
  | Some v =>
      if VNull v then with_start SEnd x
      else if bool_decide (is_Some (ValueErr v)) then with_start SEnd x
      else if negb (Ascii.eqb (VType v) "+") || negb (VStr v =s "OK") then with_start SEnd x
      else
        let '(f, x) := fenced now (with_last start x) in
        if f then with_start SEnd (if StageBirth cfg then with_closed x else x)
        else with_start SPoll (if StageBirth cfg then x else with_renew RWait x)
  end.

(** After pollMode. *)
Definition startPolled (now : Z) (m : Mode) (x : prox) : prox :=
  if StageBirth cfg then
    let '(f, x) := if bool_decide (m = ModeEnforce) then fenced now x else (true, x) in
    with_start SEnd (if f then with_closed x else with_renew RWait x)
  else with_start SEnd x.

(** *** renewLoop: its tick, and the reply of the renewal *)
Definition renewTick (now : Z) (x : prox) : bool * prox :=
  let '(f, x) := fenced now x in
  if f then (false, with_renew ROver (with_lost x))
  else (true, mkProx (x_inc x) (x_started x) (x_start x) (RAsk (mkCall (x_calls x) now None)) (x_closed x) (x_released x)
                (x_lost x) (x_last x) (x_checks x) (S (x_calls x))).

Definition renewReply (now start : Z) (r : option Value) (x : prox) : prox :=
  let '(f, x) := fenced now x in
  if f then with_renew ROver (with_lost x)
  else match r with
       | None => with_renew RWait x
       | Some v =>
           if bool_decide (is_Some (ValueErr v)) then with_renew RWait x
           else if negb (Ascii.eqb (VType v) ":") || negb (VInt v =? 1) then with_renew ROver (with_lost x)
           else with_renew RWait (with_last start x)
       end.

(** ** The proxies, their requests and Redis *)
Inductive sreq : Type := ReqSet | ReqRenew | ReqRelease.
Record smsg : Type := mkMsg { sm_px : nat; sm_req : sreq; sm_no : nat }.

Record sworld : Type := mkSWorld {
  sw_now : Z;
  sw_rnow : Z;
  sw_key : singletonKey;
  sw_px : gmap nat prox;
  sw_msgs : list smsg;
  sw_hist : list nat;
  sw_log : list nat;
}.

(** Redis runs a request. *)
Definition execReq (rnow : Z) (inc : string) (q : sreq) (k : singletonKey) : Value * singletonKey :=
  match q with
  | ReqSet => setNXPX rnow ttlMillis inc k
  | ReqRenew => renewLua rnow ttlMillis inc k
  | ReqRelease => releaseLua inc k
  end.

(** Its reply reaches the call that waits for it, if it still does. *)
Definition deliver (m : smsg) (v : Value) (x : prox) : prox :=
  match sm_req m, x_start x, x_renew x with
  | ReqSet, SAsk c, _ => if Nat.eqb (c_no c) (sm_no m) then with_start (SAsk (mkCall (c_no c) (c_start c) (Some v))) x else x
  | ReqRenew, _, RAsk c => if Nat.eqb (c_no c) (sm_no m) then with_renew (RAsk (mkCall (c_no c) (c_start c) (Some v))) x else x
  | _, _, _ => x
  end.

(** [sw_hist] has the proxies whose SET made the key, in their order. *)
Definition execMsg (m : smsg) (x : prox) (msgs : list smsg) (w : sworld) : sworld :=
  let '(v, k) := execReq (sw_rnow w) (x_inc x) (sm_req m) (sw_key w) in
  mkSWorld (sw_now w) (sw_rnow w) k (<[sm_px m := deliver m v x]> (sw_px w)) msgs
    (sw_hist w ++ match sm_req m, sw_key w, k with ReqSet, None, Some _ => [sm_px m] | _, _, _ => [] end) (sw_log w).

Definition setPx (i : nat) (x : prox) (w : sworld) : sworld :=
  mkSWorld (sw_now w) (sw_rnow w) (sw_key w) (<[i := x]> (sw_px w)) (sw_msgs w) (sw_hist w) (sw_log w).
Definition send (m : smsg) (w : sworld) : sworld :=
  mkSWorld (sw_now w) (sw_rnow w) (sw_key w) (sw_px w) (sw_msgs w ++ [m]) (sw_hist w) (sw_log w).
Definition admitBy (i : nat) (w : sworld) : sworld :=
  mkSWorld (sw_now w) (sw_rnow w) (sw_key w) (sw_px w) (sw_msgs w) (sw_hist w) (sw_log w ++ [i]).

(** A call returns with its reply or with a transport error. *)
Definition returns (c : pendCall) (r : option Value) : Prop := r = None \/ r = c_got c.

(** [Close] has nothing left to wait for: the connections and the loop ended. *)
Definition quiet (x : prox) : bool :=
  bool_decide (x_checks x = []) && match x_renew x with ROff | ROver => true | _ => false end.

Inductive sstep (w : sworld) : sworld -> Prop :=
  | s_tick dp dr : 0 <= dp -> 0 <= dr -> 5 * dr <= 6 * dp ->
      sstep w (mkSWorld (sw_now w + dp) (sw_rnow w + dr) (sw_key w) (sw_px w) (sw_msgs w) (sw_hist w) (sw_log w))
  | s_expire v d : sw_key w = Some (v, d) -> d <= sw_rnow w ->
      sstep w (mkSWorld (sw_now w) (sw_rnow w) None (sw_px w) (sw_msgs w) (sw_hist w) (sw_log w))
  | s_exec l1 m l2 x : sw_msgs w = l1 ++ m :: l2 -> sw_px w !! sm_px m = Some x -> sstep w (execMsg m x (l1 ++ l2) w)
  | s_drop l1 m l2 : sw_msgs w = l1 ++ m :: l2 ->
      sstep w (mkSWorld (sw_now w) (sw_rnow w) (sw_key w) (sw_px w) (l1 ++ l2) (sw_hist w) (sw_log w))
  | s_new i : sw_px w !! i = None -> sstep w (setPx i newProx w)
  | s_start i x inc : sw_px w !! i = Some x -> x_started x = false -> x_closed x = false ->
      (forall j y, sw_px w !! j = Some y -> x_started y = true -> x_inc y <> inc) ->
      sstep w (send (mkMsg i ReqSet (x_calls x)) (setPx i (startBegin (sw_now w) inc x) w))
  | s_started i x c r : sw_px w !! i = Some x -> x_start x = SAsk c -> returns c r ->
      sstep w (setPx i (startReply (sw_now w) (c_start c) r x) w)
  | s_polled i x m : sw_px w !! i = Some x -> x_start x = SPoll -> sstep w (setPx i (startPolled (sw_now w) m x) w)
  | s_renew i x x' : sw_px w !! i = Some x -> x_renew x = RWait -> renewTick (sw_now w) x = (true, x') ->
      sstep w (send (mkMsg i ReqRenew (x_calls x)) (setPx i x' w))
  | s_over i x x' : sw_px w !! i = Some x -> x_renew x = RWait -> renewTick (sw_now w) x = (false, x') -> sstep w (setPx i x' w)
  | s_stop i x : sw_px w !! i = Some x -> x_renew x = RWait -> x_closed x = true -> sstep w (setPx i (with_renew ROff x) w)
  | s_renewed i x c r : sw_px w !! i = Some x -> x_renew x = RAsk c -> returns c r ->
      sstep w (setPx i (renewReply (sw_now w) (c_start c) r x) w)
  | s_check i x last : sw_px w !! i = Some x -> fencedLoad x = inr last -> sstep w (setPx i (with_checks (x_checks x ++ [last]) x) w)
  | s_refuse i x l1 last l2 x' : sw_px w !! i = Some x -> x_checks x = l1 ++ last :: l2 ->
      fencedSince (sw_now w) last (with_checks (l1 ++ l2) x) = (true, x') -> sstep w (setPx i x' w)
  | s_admits i x l1 last l2 x' : sw_px w !! i = Some x -> x_checks x = l1 ++ last :: l2 ->
      fencedSince (sw_now w) last (with_checks (l1 ++ l2) x) = (false, x') -> sstep w (admitBy i (setPx i x' w))
  | s_close i x : sw_px w !! i = Some x -> x_closed x = false -> sstep w (setPx i (with_closed x) w)
  | s_release i x : sw_px w !! i = Some x -> x_closed x = true -> x_released x = false -> x_started x = true -> quiet x = true ->
      sstep w (send (mkMsg i ReqRelease 0) (setPx i (with_released x) w)).

Definition noProxies : sworld := mkSWorld 0 0 None ∅ [] [] [].
Definition singleRuns (w : sworld) : Prop := rtc sstep noProxies w.
End proxy.
