(* ===== verification/SingletonFacts.v ===== *)
(** * One proxy at a time

    A proxy whose fence lets a write through owns the singleton key at that
    moment, and the proxies of a Redis follow one another: none lets a write
    through after another one did. *)

From stdpp Require Import sorting.
From S2P Require Import Prelude GoLib Resp Policy Singleton.

Section facts.
Context (cfg : singleCfg).
Context (HS : Singleton cfg = true) (HT : 26 * 10^6 <= SingletonTTL cfg).

(** The time a proof of ownership is good for, and the life of the key. *)
Definition proofTime : Z := SingletonTTL cfg - Z.quot (SingletonTTL cfg) 5.
Definition keyLife : Z := ttlMillis cfg * 10^6.

Lemma ttl_pos : 0 < ttlMillis cfg.
Proof using HT. unfold ttlMillis. rewrite Z.quot_div_nonneg by lia. pose proof (Z.div_mod (SingletonTTL cfg) (10^6)). pose proof (Z.mod_pos_bound (SingletonTTL cfg) (10^6)). lia. Qed.

(** The fifth of the lifetime is more than a fast clock of Redis and the
    rounding to milliseconds take. *)
Lemma margin : 0 < proofTime /\ 25 * keyLife >= 24 * SingletonTTL cfg + 24 - 25 * 10^6 + SingletonTTL cfg /\ 5 * proofTime <= 4 * SingletonTTL cfg + 4.
Proof using HT.
  unfold proofTime, keyLife, ttlMillis. rewrite !Z.quot_div_nonneg by lia.
  pose proof (Z.div_mod (SingletonTTL cfg) (10^6)). pose proof (Z.mod_pos_bound (SingletonTTL cfg) (10^6)).
  pose proof (Z.div_mod (SingletonTTL cfg) 5). pose proof (Z.mod_pos_bound (SingletonTTL cfg) 5). lia.
Qed.
Lemma drift dp dr : 0 <= dp -> 0 <= dr -> 5 * dr <= 6 * dp -> proofTime * dr <= keyLife * dp.
Proof using HT. intros. destruct margin as (? & ? & ?). nia. Qed.

(** ** The invariant *)

(** What a proxy relies on: starts of requests that proved its ownership. *)
Inductive claims (x : prox) : Z -> Prop :=
  | cl_check s : s ∈ x_checks x -> claims x s
  | cl_last s : x_closed x = false -> x_last x = Some s -> claims x s
  | cl_start c v : x_closed x = false -> x_start x = SAsk c -> c_got c = Some v -> VType v = "+"%char -> claims x (c_start c)
  | cl_renew c v : x_closed x = false -> x_renew x = RAsk c -> c_got c = Some v -> VType v = ":"%char -> VInt v = 1 -> claims x (c_start c).

Definition proven (w : sworld) (x : prox) (s : Z) : Prop :=
  s <= sw_now w /\ (proofTime <= sw_now w - s \/
    exists d, sw_key w = Some (x_inc x, d) /\ keyLife * (proofTime - (sw_now w - s)) <= proofTime * (d - sw_rnow w)).

Definition asked (x : prox) (t : Z) : Prop :=
  (exists c, x_start x = SAsk c /\ c_start c = t) \/ (exists c, x_renew x = RAsk c /\ c_start c = t).

(** [i] came to own the key no later than [j]. *)
Definition before (h : list nat) (i j : nat) : Prop := i = j \/ exists a b c, h = a ++ i :: b ++ j :: c.

Definition setter (m : smsg) : option nat := match sm_req m with ReqSet => Some (sm_px m) | _ => None end.

Record single (w : sworld) : Prop := {
  si_incs i j x y : sw_px w !! i = Some x -> sw_px w !! j = Some y -> x_started x = true -> x_started y = true -> x_inc x = x_inc y -> i = j;
  si_key v d : sw_key w = Some (v, d) -> exists i x, sw_px w !! i = Some x /\ x_started x = true /\ x_inc x = v /\ last (sw_hist w) = Some i;
  si_msgs m : m ∈ sw_msgs w -> exists x, sw_px w !! sm_px m = Some x /\ x_started x = true;
  si_hist : NoDup (sw_hist w ++ omap (M := list) setter (sw_msgs w));
  si_owners i : i ∈ sw_hist w -> exists x, sw_px w !! i = Some x /\ x_started x = true;
  si_proofs i x s : sw_px w !! i = Some x -> claims x s -> x_started x = true /\ proven w x s;
  si_asked i x t : sw_px w !! i = Some x -> asked x t -> x_started x = true /\ t <= sw_now w;
  si_release m x : m ∈ sw_msgs w -> sm_req m = ReqRelease -> sw_px w !! sm_px m = Some x -> x_closed x = true /\ x_checks x = [];
  si_log : StronglySorted (before (sw_hist w)) (sw_log w);
  si_logged i : i ∈ sw_log w -> i ∈ sw_hist w;
}.

(** *** Steps of one proxy that leave Redis alone *)
Record calm (w : sworld) (x x' : prox) : Prop := {
  ca_inc : x_inc x' = x_inc x;
  ca_started : x_started x' = x_started x;
  ca_claims s : claims x' s -> claims x s \/ (x_started x = true /\ proven w x s);
  ca_asked t : asked x' t -> asked x t \/ (x_started x = true /\ t <= sw_now w);
  ca_closed : x_closed x = true -> x_closed x' = true /\ (x_checks x = [] -> x_checks x' = []);
}.

Lemma calm_trans w x y z : calm w x y -> calm w y z -> calm w x z.
Proof.
  intros [A1 A2 A3 A4 A5] [B1 B2 B3 B4 B5]. split; [congruence|congruence| | |].
  - intros s [?%A3|[? Hp]]%B3; [done|]. right. unfold proven in *. rewrite A1 in Hp. split; [congruence|done].
  - intros t [Ht|[? ?]]%B4; [by apply A4|right; split; [congruence|done]].
  - intros Hc. destruct (A5 Hc) as [Hc' Hk]. destruct (B5 Hc') as [? ?]. eauto.
Qed.
Lemma calm_refl w x : calm w x x.
Proof. split; auto. Qed.

Lemma single_px w i x x' : single w -> sw_px w !! i = Some x -> calm w x x' -> single (setPx i x' w).
Proof.
  intros HI Hx Hc. pose proof (ca_started _ _ _ Hc) as Est. pose proof (ca_inc _ _ _ Hc) as Einc.
  assert (forall j y, <[i := x']> (sw_px w) !! j = Some y -> exists y0, sw_px w !! j = Some y0 /\ x_inc y = x_inc y0 /\ x_started y = x_started y0 /\ calm w y0 y) as Hback.
  { intros j y. destruct (decide (i = j)) as [<-|]; [rewrite lookup_insert_eq|rewrite lookup_insert_ne by done]; intros [= <-] || intros Hy.
    - by exists x.
    - exists y. split_and!; [done..|apply calm_refl]. }
  assert (forall j y, sw_px w !! j = Some y -> exists y', <[i := x']> (sw_px w) !! j = Some y' /\ x_inc y' = x_inc y /\ x_started y' = x_started y) as Hfwd.
  { intros j y Hy. destruct (decide (i = j)) as [<-|]; [rewrite lookup_insert_eq|rewrite lookup_insert_ne by done]; [|by exists y].
    exists x'. split_and!; [done|congruence..]. }
  destruct HI as [I1 I2 I3 I4 I5 I6 I7 I8 I9 I10]. split; cbn [sw_px sw_key sw_msgs sw_hist sw_log sw_now sw_rnow setPx]; try done.
  - intros j k y z (y0 & ? & ? & ? & _)%Hback (z0 & ? & ? & ? & _)%Hback ? ? ?. eapply I1; eauto; congruence.
  - intros v d (j & y & Hy & ? & ? & ?)%I2. destruct (Hfwd j y Hy) as (y' & ? & ? & ?). exists j, y'. split_and!; congruence.
  - intros m (y & Hy & ?)%I3. destruct (Hfwd _ y Hy) as (y' & ? & ? & ?). exists y'. split; congruence.
  - intros j (y & Hy & ?)%I5. destruct (Hfwd _ y Hy) as (y' & ? & ? & ?). exists y'. split; congruence.
  - intros j y s (y0 & Hy & Hi & ? & Hk)%Hback Hs.
    assert (x_started y0 = true /\ proven w y0 s) as [? Hp] by (destruct (ca_claims _ _ _ Hk s Hs); [by eapply I6|done]).
    split; [congruence|]. unfold proven in *. cbn. by rewrite Hi.
  - intros j y t (y0 & Hy & Hi & ? & Hk)%Hback [Ht|[? ?]]%(ca_asked _ _ _ Hk); [|split; [congruence|done]].
    destruct (I7 _ _ _ Hy Ht). split; [congruence|done].
  - intros m y Hm Hr (y0 & Hy & _ & _ & Hk)%Hback. destruct (I8 m y0 Hm Hr Hy) as [Hc1 Hc2]. destruct (ca_closed _ _ _ Hk Hc1). auto.
Qed.

(** *** What the functions of a proxy do to its claims *)
Ltac claims_tac := let H := fresh in intros ? H; inversion H; subst; cbn in *; try congruence; try (left; by eauto using claims).
Lemma lost_calm w x : calm w x (with_lost x).
Proof. split; try done; [|auto]. claims_tac. Qed.
Lemma fenced_calm w now x : calm w x (snd (fenced cfg now x)).
Proof. unfold fenced, fencedSince. repeat (case_match; cbn); apply calm_refl || apply lost_calm. Qed.
Lemma closed_calm w x : calm w x (with_closed x).
Proof. split; try done; [|auto]. claims_tac. Qed.
Lemma start_calm w x pc : (forall c, pc <> SAsk c) -> calm w x (with_start pc x).
Proof. intros Hp. split; try done; [claims_tac|]. intros t [(c & Hc & _)|Ht]; [cbn in Hc; congruence|left; by right]. Qed.
Lemma renew_calm w x pc : (forall c, pc <> RAsk c) -> calm w x (with_renew pc x).
Proof. intros Hp. split; try done; [claims_tac|]. intros t [Ht|(c & Hc & _)]; [left; by left|cbn in Hc; congruence]. Qed.
Lemma last_calm w x s : (x_closed x = false -> claims x s) -> calm w x (with_last s x).
Proof. intros Hs. split; try done; [|auto]. claims_tac. simplify_eq. auto. Qed.

Lemma checks_calm w x l : (forall s, s ∈ l -> claims x s) -> (x_closed x = true -> x_checks x = [] -> l = []) -> calm w x (with_checks l x).
Proof. intros Hs Hc. split; try done; [claims_tac|auto|auto]. Qed.

Lemma startReply_calm w now c r x : x_start x = SAsk c -> returns c r -> calm w x (startReply cfg now (c_start c) r x).
Proof.
  intros Hp Hr. unfold startReply. destruct r as [v|]; [|by apply start_calm].
  repeat (case_match; [by apply start_calm|]). destruct Hr as [|Hg]; [done|].
  assert (calm w x (with_last (c_start c) x)) as Hl.
  { apply last_calm. intros Hc. eapply cl_start; eauto. destruct (Ascii.eqb_spec (VType v) "+"); [done|]. cbn in *. congruence. }
  pose proof (fenced_calm w now (with_last (c_start c) x)) as Hf. destruct (fenced cfg now (with_last (c_start c) x)) as [[] y]; cbn in Hf.
  - eapply calm_trans; [exact Hl|]. eapply calm_trans; [exact Hf|]. destruct (StageBirth cfg); [eapply calm_trans; [apply closed_calm|]|]; by apply start_calm.
  - eapply calm_trans; [exact Hl|]. eapply calm_trans; [exact Hf|]. destruct (StageBirth cfg); [|eapply calm_trans; [by apply (renew_calm _ _ RWait)|]]; by apply start_calm.
Qed.

Lemma startPolled_calm w now m x : calm w x (startPolled cfg now m x).
Proof.
  unfold startPolled. destruct (StageBirth cfg); [|by apply start_calm].
  assert (forall f y, (if bool_decide (m = ModeEnforce) then fenced cfg now x else (true, x)) = (f, y) -> calm w x y) as Hc.
  { intros f y. case_match; [|intros [= <- <-]; apply calm_refl]. intros Hf. pose proof (fenced_calm w now x) as Hk. by rewrite Hf in Hk. }
  destruct (if bool_decide (m = ModeEnforce) then fenced cfg now x else (true, x)) as [f y]. specialize (Hc f y eq_refl).
  eapply calm_trans; [exact Hc|]. destruct f; [eapply calm_trans; [apply closed_calm|]|eapply calm_trans; [by apply (renew_calm _ _ RWait)|]]; by apply start_calm.
Qed.

Lemma renewReply_calm w now c r x : x_renew x = RAsk c -> returns c r -> calm w x (renewReply cfg now (c_start c) r x).
Proof.
  intros Hp Hr. unfold renewReply. pose proof (fenced_calm w now x) as Hf.
  assert (snd (fenced cfg now x) = x \/ snd (fenced cfg now x) = with_lost x) as Hy by (unfold fenced, fencedSince; repeat (case_match; cbn); auto).
  destruct (fenced cfg now x) as [[] y]; cbn in Hf, Hy.
  { eapply calm_trans; [exact Hf|]. eapply calm_trans; [apply lost_calm|]. by apply renew_calm. }
  destruct r as [v|]; [|eapply calm_trans; [exact Hf|by apply renew_calm]].
  destruct (bool_decide _); [eapply calm_trans; [exact Hf|by apply renew_calm]|].
  destruct (Ascii.eqb_spec (VType v) ":") as [Ht|]; cbn [negb orb];
    [destruct (Z.eqb_spec (VInt v) 1) as [Hv|]; cbn [negb]|]; [|eapply calm_trans; [exact Hf|]; eapply calm_trans; [apply lost_calm|]; by apply renew_calm..].
  destruct Hr as [|Hg]; [done|]. eapply calm_trans; [exact Hf|]. eapply calm_trans; [apply (last_calm w y (c_start c))|by apply renew_calm].
  intros Hc. eapply cl_renew; eauto; destruct Hy as [->| ->]; eauto.
Qed.

Lemma renewTick_calm w x b x' : x_renew x = RWait -> (forall s, claims x s -> x_started x = true) -> renewTick cfg (sw_now w) x = (b, x') -> calm w x x'.
Proof.
  intros Hp Hs. unfold renewTick. pose proof (fenced_calm w (sw_now w) x) as Hf. unfold fenced in *.
  destruct (fencedLoad cfg x) as [[]|l] eqn:El; cbn in Hf.
  - intros [= <- <-]. eapply calm_trans; [apply lost_calm|]. by apply renew_calm.
  - exfalso. unfold fencedLoad in El. rewrite HS in El. cbn in El. repeat case_match; congruence.
  - assert (x_started x = true) as Hst.
    { apply (Hs l). unfold fencedLoad in El. rewrite HS in El. cbn in El. destruct (x_lost x); [done|]. destruct (x_closed x) eqn:?; [done|]. cbn in El.
      destruct (x_last x) eqn:?; simplify_eq. by apply cl_last. }
    unfold fencedSince in *. case_match; cbn in Hf; intros [= <- <-].
    + eapply calm_trans; [apply lost_calm|]. eapply calm_trans; [apply lost_calm|]. by apply renew_calm.
    + split; try done; [claims_tac; simplify_eq; done|].
      intros t [Ht|(c & [= <-] & <-)]; [left; by left|]. cbn. right. split; [done|lia].
Qed.

(** ** Requests *)
Lemma single_drop w l1 m l2 : single w -> sw_msgs w = l1 ++ m :: l2 ->
  single (mkSWorld (sw_now w) (sw_rnow w) (sw_key w) (sw_px w) (l1 ++ l2) (sw_hist w) (sw_log w)).
Proof.
  intros [I1 I2 I3 I4 I5 I6 I7 I8 I9 I10] Hm. rewrite Hm in *. split; cbn; try done.
  - intros m' ?. apply I3. set_solver.
  - revert I4. rewrite !omap_app. cbn. destruct (setter m); [|done]. rewrite (assoc_L (++)), <- Permutation_middle, NoDup_cons, <- (assoc_L (++)). by intros [_ ?].
  - intros m' x ?. apply I8. set_solver.
Qed.

Lemma single_send w m x : single w -> sw_px w !! sm_px m = Some x -> x_started x = true -> (forall i, setter m = Some i -> i ∉ sw_hist w ++ omap setter (sw_msgs w)) ->
  (sm_req m = ReqRelease -> x_closed x = true /\ x_checks x = []) -> single (send m w).
Proof.
  intros [I1 I2 I3 I4 I5 I6 I7 I8 I9 I10] Hx Hst Hnew Hrel. split; cbn; try done.
  - intros m' [?| ->%list_elem_of_singleton]%elem_of_app; eauto.
  - rewrite omap_app, (assoc_L (++)). apply NoDup_app. split_and!; [done| |cbn; destruct (setter m); by repeat constructor; set_solver].
    intros i Hi. cbn. destruct (setter m) as [j|]; [|set_solver]. specialize (Hnew j eq_refl). set_solver.
  - intros m' y [?| ->%list_elem_of_singleton]%elem_of_app ? Hy; [eauto|]. rewrite Hx in Hy. injection Hy as <-. auto.
Qed.

Lemma before_app h h' i j : before h i j -> before (h ++ h') i j.
Proof. intros [->|(a & b & c & ->)]; [by left|right]. exists a, b, (c ++ h'). by simplify_list_eq. Qed.
Lemma before_last h i j : i ∈ h -> last h = Some j -> before h i j.
Proof.
  intros (a & b & ->)%list_elem_of_split Hl. destruct (last_Some (a ++ i :: b) j) as [(l & Hl') _]; [done|].
  destruct b as [|y b] using rev_ind; [left; rewrite last_snoc in Hl; congruence|clear IHb].
  right. rewrite app_comm_cons, (assoc_L (++)), last_snoc in Hl. injection Hl as ->. by exists a, b, [].
Qed.

Lemma before_antisym h (i j : nat) a b c a' b' c' : NoDup h -> h = a ++ i :: b ++ j :: c -> h = a' ++ j :: b' ++ i :: c' -> False.
Proof.
  intros Hn E1 E2. assert (h !! length a = Some i) as L1 by (rewrite E1; by apply list_lookup_middle).
  assert (h !! (length a + S (length b))%nat = Some j) as L2. { rewrite E1, app_comm_cons, (assoc_L (++)). apply list_lookup_middle. rewrite length_app. done. }
  assert (h !! length a' = Some j) as L3 by (rewrite E2; by apply list_lookup_middle).
  assert (h !! (length a' + S (length b'))%nat = Some i) as L4. { rewrite E2, app_comm_cons, (assoc_L (++)). apply list_lookup_middle. rewrite length_app. done. }
  pose proof (NoDup_lookup _ _ _ _ Hn L1 L4). pose proof (NoDup_lookup _ _ _ _ Hn L2 L3). lia.
Qed.
Lemma sorted_before h h' l : StronglySorted (before h) l -> StronglySorted (before (h ++ h')) l.
Proof. induction 1 as [|i l _ IH Hf]; constructor; [done|]. eapply Forall_impl; [exact Hf|]. intros. by apply before_app. Qed.

(** Redis changes the key. *)
Lemma single_rekey w k h : single w ->
  (forall v d, k = Some (v, d) -> exists i x, sw_px w !! i = Some x /\ x_started x = true /\ x_inc x = v /\ last (sw_hist w ++ h) = Some i) ->
  NoDup ((sw_hist w ++ h) ++ omap setter (sw_msgs w)) -> (forall i, i ∈ h -> exists x, sw_px w !! i = Some x /\ x_started x = true) ->
  (forall i x s d, sw_px w !! i = Some x -> x_started x = true -> claims x s -> 0 <= sw_now w - s < proofTime -> sw_key w = Some (x_inc x, d) ->
    keyLife * (proofTime - (sw_now w - s)) <= proofTime * (d - sw_rnow w) ->
    exists d', k = Some (x_inc x, d') /\ keyLife * (proofTime - (sw_now w - s)) <= proofTime * (d' - sw_rnow w)) ->
  single (mkSWorld (sw_now w) (sw_rnow w) k (sw_px w) (sw_msgs w) (sw_hist w ++ h) (sw_log w)).
Proof.
  intros [I1 I2 I3 I4 I5 I6 I7 I8 I9 I10] Hk Hn Hh Hp. split; cbn; try done.
  - intros i [?|?]%elem_of_app; auto.
  - intros i x s Hx Hs. destruct (I6 i x s Hx Hs) as [? [? Hq]]. split; [done|]. split; [done|]. cbn.
    destruct (Z.le_gt_cases proofTime (sw_now w - s)); [by left|right]. destruct Hq as [?|(d & Hd & Hle)]; [lia|]. eapply Hp; eauto; lia.
  - by apply sorted_before.
  - intros i ?%I10. set_solver.
Qed.

(** A reply on its way proves ownership from the start of its request on. *)
Lemma deliver_calm w m v x : (forall t, asked x t -> x_started x = true /\ t <= sw_now w) ->
  (VType v = "+"%char \/ VType v = ":"%char /\ VInt v = 1 -> forall t, t <= sw_now w -> proven w x t) \/ sm_req m = ReqRelease ->
  (sm_req m = ReqSet -> VType v <> ":"%char) -> (sm_req m = ReqRenew -> VType v <> "+"%char) -> calm w x (deliver m v x).
Proof.
  intros Ha Hp H1 H2. unfold deliver. destruct (sm_req m); [|destruct (x_renew x) as [| |c|] eqn:Er|apply calm_refl]; try apply calm_refl.
  - destruct (x_start x) as [|c| |] eqn:Es; try apply calm_refl. case_match; [|apply calm_refl]. destruct Hp as [Hp|]; [|done].
    destruct (Ha (c_start c)) as [Hst Ht]; [left; by exists c|]. split; try done; [|].
    + intros s Hs. inversion Hs as [| |c' v' ? Hc Hg Hv|]; subst; cbn in *; try (left; by eauto using claims). simplify_eq. cbn in *. simplify_eq. right. auto.
    + intros t [(c' & [= <-] & <-)|?]; [|left; by right]. right. auto.
  - case_match; [|apply calm_refl]. destruct Hp as [Hp|]; [|done].
    destruct (Ha (c_start c)) as [Hst Ht]; [right; by exists c|]. split; try done; [|].
    + intros s Hs. inversion Hs as [| | |c' v' ? Hc Hg Hv Hi]; subst; cbn in *; try (left; by eauto using claims). simplify_eq. cbn in *. simplify_eq. right. auto.
    + intros t [?|(c' & [= <-] & <-)]; [left; by left|]. right. auto.
Qed.

Lemma proven_fresh w x t : (exists d, sw_key w = Some (x_inc x, d) /\ d = sw_rnow w + keyLife) -> t <= sw_now w -> proven w x t.
Proof.
  intros (d & Hk & ->) Ht. split; [done|]. right. eexists. split; [done|].
  destruct margin as (? & _ & _). assert (0 < keyLife) by (unfold keyLife; pose proof ttl_pos; lia). nia.
Qed.

(** Redis runs the request of [x], proxy [i], after it left the network. *)
Lemma exec_set w i x v k : single w -> sw_px w !! i = Some x -> x_started x = true -> i ∉ sw_hist w ++ omap setter (sw_msgs w) ->
  setNXPX (sw_rnow w) (ttlMillis cfg) (x_inc x) (sw_key w) = (v, k) ->
  single (mkSWorld (sw_now w) (sw_rnow w) k (sw_px w) (sw_msgs w) (sw_hist w ++ match sw_key w, k with None, Some _ => [i] | _, _ => [] end) (sw_log w)) /\
  VType v <> ":"%char /\ (VType v = "+"%char -> exists d, k = Some (x_inc x, d) /\ d = sw_rnow w + keyLife).
Proof.
  intros HI Hx Hst Hnew. unfold setNXPX. pose proof ttl_pos. rewrite (proj2 (Z.leb_gt _ _)) by done.
  destruct (sw_key w) as [[v0 d0]|] eqn:Ek; intros [= <- <-].
  - split; [|done]. rewrite app_nil_r, <- Ek. by destruct w.
  - split; [|split; [done|by eauto]]. apply single_rekey; [done|..].
    + intros v' d' [= <- <-]. exists i, x. by rewrite last_snoc.
    + rewrite <- (assoc_L (++)). pose proof (si_hist _ HI) as Hn. rewrite NoDup_app in Hn. destruct Hn as (? & Hd & ?). rewrite NoDup_app. split_and!; [done|set_solver|].
      constructor; [set_solver|done].
    + intros j ->%list_elem_of_singleton. eauto.
    + intros. congruence.
Qed.

Lemma exec_renew w i x v k : single w -> sw_px w !! i = Some x -> x_started x = true ->
  renewLua (sw_rnow w) (ttlMillis cfg) (x_inc x) (sw_key w) = (v, k) ->
  single (mkSWorld (sw_now w) (sw_rnow w) k (sw_px w) (sw_msgs w) (sw_hist w) (sw_log w)) /\
  VType v <> "+"%char /\ (VInt v = 1 -> exists d, k = Some (x_inc x, d) /\ d = sw_rnow w + keyLife).
Proof.
  intros HI Hx Hst. unfold renewLua. pose proof ttl_pos. rewrite (proj2 (Z.leb_gt _ _)) by done.
  destruct (sw_key w) as [[v0 d0]|] eqn:Ek; [|intros [= <- <-]; split; [rewrite <- Ek; by destruct w|done]].
  destruct (v0 =s x_inc x) eqn:Ev; intros [= <- <-]; [|split; [rewrite <- Ek; by destruct w|done]].
  apply eqs_true in Ev as ->. split; [|split; [done|by eauto]]. pose proof (single_rekey w (Some (x_inc x, sw_rnow w + ttlMillis cfg * 10^6)) [] HI) as Hr. rewrite !app_nil_r in Hr. apply Hr.
  - intros v' d' [= <- <-]. destruct (si_key _ HI _ _ Ek) as (j & y & ? & ? & ? & ?). by exists j, y.
  - apply HI.
  - set_solver.
  - intros j y s d Hy Hys _ Hs Hi _. rewrite Ek in Hi. injection Hi as Hi _. eexists. split; [by rewrite <- Hi|]. fold keyLife. destruct margin as (? & _ & _).
    assert (0 < keyLife) by (unfold keyLife; lia). nia.
Qed.

Lemma exec_release w i x v k : single w -> sw_px w !! i = Some x -> x_started x = true -> x_closed x = true -> x_checks x = [] ->
  releaseLua (x_inc x) (sw_key w) = (v, k) -> single (mkSWorld (sw_now w) (sw_rnow w) k (sw_px w) (sw_msgs w) (sw_hist w) (sw_log w)).
Proof.
  intros HI Hx Hst Hc Hk. unfold releaseLua. destruct (sw_key w) as [[v0 d0]|] eqn:Ek; [|intros [= <- <-]; rewrite <- Ek; by destruct w].
  destruct (v0 =s x_inc x) eqn:Ev; intros [= <- <-]; [|rewrite <- Ek; by destruct w]. apply eqs_true in Ev as ->.
  pose proof (single_rekey w None [] HI) as Hr. rewrite !app_nil_r in Hr. apply Hr; [done|apply HI|set_solver|].
  intros j y s d Hy Hys Hcl _ Hd _. rewrite Ek in Hd. injection Hd as Hi _. assert (i = j) as <- by (eapply (si_incs _ HI); eauto).
  rewrite Hx in Hy. injection Hy as <-. exfalso. destruct Hcl as [s Hs|s Hf _|c v' Hf _ _ _|c v' Hf _ _ _ _]; try congruence. rewrite Hk in Hs. set_solver.
Qed.

Lemma single_exec w l1 m l2 x : single w -> sw_msgs w = l1 ++ m :: l2 -> sw_px w !! sm_px m = Some x -> single (execMsg cfg m x (l1 ++ l2) w).
Proof.
  intros HI Hm Hx. pose proof (single_drop _ _ _ _ HI Hm) as HD.
  assert (x_started x = true) as Hst. { destruct (si_msgs _ HI m) as (y & Hy & ?); [rewrite Hm; set_solver|congruence]. }
  assert (m ∈ sw_msgs w) as Hin by (rewrite Hm; set_solver).
  pose proof (fun t => si_asked _ HI _ _ t Hx) as Ha. unfold execMsg, execReq. destruct (sm_req m) eqn:Eq.
  - destruct (setNXPX _ _ _ _) as [v k] eqn:Es. destruct (exec_set _ (sm_px m) x v k HD Hx Hst) as (H1 & H2 & H3); [|exact Es|].
    { pose proof (si_hist _ HI) as Hn. rewrite Hm, omap_app in Hn. cbn in Hn |- *. unfold setter in Hn at 2. rewrite Eq in Hn.
         rewrite (assoc_L (++)), <- Permutation_middle, NoDup_cons in Hn. rewrite omap_app, (assoc_L (++)). by destruct Hn. }
    refine (single_px _ _ _ _ H1 Hx _). apply deliver_calm; [done| |by intros _|congruence]. left. intros [?|[? _]]; [|done]. intros t Ht. apply proven_fresh; cbn; auto.
  - destruct (renewLua _ _ _ _) as [v k] eqn:Es. destruct (exec_renew _ (sm_px m) x v k HD Hx Hst Es) as (H1 & H2 & H3).
    cbn [sw_key]. rewrite app_nil_r. refine (single_px _ _ _ _ H1 Hx _). apply deliver_calm; [done| |congruence|by intros _]. left. intros [?|[_ ?]]; [done|].
    intros t Ht. apply proven_fresh; cbn; auto.
  - destruct (releaseLua _ _) as [v k] eqn:Es. destruct (si_release _ HI m x Hin Eq Hx) as [? ?].
    apply (exec_release _ (sm_px m) x v k HD Hx Hst) in Es; [|done..]. rewrite app_nil_r. refine (single_px _ _ _ _ Es Hx _). apply deliver_calm; [done|by right|congruence..].
Qed.

(** ** Every step keeps the invariant *)
Lemma single_fresh w i x' : single w -> (forall x, sw_px w !! i = Some x -> x_started x = false) -> (forall s, ~ claims x' s) ->
  (forall t, asked x' t -> x_started x' = true /\ t <= sw_now w) ->
  (x_started x' = true -> forall j y, sw_px w !! j = Some y -> x_started y = true -> x_inc y <> x_inc x') -> single (setPx i x' w).
Proof.
  intros [I1 I2 I3 I4 I5 I6 I7 I8 I9 I10] Hi Hcl Ha Hinc.
  assert (forall j y, sw_px w !! j = Some y -> x_started y = true -> <[i := x']> (sw_px w) !! j = Some y) as Hfwd.
  { intros j y Hy Hs. rewrite lookup_insert_ne; [done|]. intros <-. specialize (Hi _ Hy). congruence. }
  assert (forall j y, <[i := x']> (sw_px w) !! j = Some y -> (j = i /\ y = x') \/ sw_px w !! j = Some y) as Hback.
  { intros j y. rewrite lookup_insert_Some. naive_solver. }
  split; cbn; try done.
  - intros j k y z [[-> ->]|Hy]%Hback [[-> ->]|Hz]%Hback Hs Ht E; [done| | |by eapply I1]; exfalso; [eapply Hinc; eauto|]. eapply (Hinc Ht j y); eauto.
  - intros v d (j & y & ? & ? & ? & ?)%I2. exists j, y. auto.
  - intros m (y & ? & ?)%I3. exists y. auto.
  - intros j (y & ? & ?)%I5. exists y. auto.
  - intros j y s [[-> ->]|Hy]%Hback Hs; [by apply Hcl in Hs|]. by eapply I6.
  - intros j y t [[-> ->]|Hy]%Hback Ht; [by apply Ha|]. by eapply I7.
  - intros m y Hm Hr [[Hj ->]|Hy]%Hback; [|by eapply I8]. exfalso. destruct (I3 m Hm) as (y0 & Hy0 & ?). rewrite Hj in Hy0. specialize (Hi _ Hy0). congruence.
Qed.

Lemma single_tick w dp dr : single w -> 0 <= dp -> 0 <= dr -> 5 * dr <= 6 * dp ->
  single (mkSWorld (sw_now w + dp) (sw_rnow w + dr) (sw_key w) (sw_px w) (sw_msgs w) (sw_hist w) (sw_log w)).
Proof.
  intros [I1 I2 I3 I4 I5 I6 I7 I8 I9 I10] Hp Hr Hd. pose proof (drift dp dr Hp Hr Hd). split; cbn; try done.
  - intros i x s Hx Hs. destruct (I6 i x s Hx Hs) as [? [? Hq]]. split; [done|]. split; cbn; [lia|].
    destruct Hq as [?|(d & Hk & Hle)]; [left; lia|right]. exists d. split; [done|]. lia.
  - intros i x t Hx Ht. destruct (I7 i x t Hx Ht). split; [done|lia].
Qed.

Lemma single_expire w v d : single w -> sw_key w = Some (v, d) -> d <= sw_rnow w ->
  single (mkSWorld (sw_now w) (sw_rnow w) None (sw_px w) (sw_msgs w) (sw_hist w) (sw_log w)).
Proof.
  intros HI Hk Hd. pose proof (single_rekey w None [] HI) as Hr. rewrite !app_nil_r in Hr. apply Hr; [done|apply HI|set_solver|].
  intros i x s d' Hx Hs Hcl Ht Hk' Hle. rewrite Hk in Hk'. injection Hk' as -> ->. exfalso.
  destruct margin as (? & _ & _). assert (0 < keyLife) by (unfold keyLife; pose proof ttl_pos; lia). nia.
Qed.

(** A connection that gets past the fence. *)
Lemma admits_owns w i x t : single w -> sw_px w !! i = Some x -> t ∈ x_checks x -> sw_now w - t < proofTime ->
  exists d, sw_key w = Some (x_inc x, d) /\ sw_rnow w < d /\ last (sw_hist w) = Some i.
Proof.
  intros HI Hx Ht Hlt. destruct (si_proofs _ HI i x t Hx) as [Hst [? Hq]]; [by apply cl_check|]. destruct Hq as [?|(d & Hk & Hle)]; [lia|].
  destruct margin as (? & _ & _). assert (0 < keyLife) by (unfold keyLife; pose proof ttl_pos; lia).
  exists d. split_and!; [done|nia|]. destruct (si_key _ HI _ _ Hk) as (j & y & Hy & ? & ? & Hl). assert (j = i) as -> by (eapply (si_incs _ HI); eauto). done.
Qed.

Lemma single_admit w i : single w -> last (sw_hist w) = Some i -> single (admitBy i w).
Proof.
  intros [I1 I2 I3 I4 I5 I6 I7 I8 I9 I10] Hl. assert (i ∈ sw_hist w) by (by apply last_Some_elem_of). split; cbn; try done.
  - apply StronglySorted_app_2; [|done|by repeat constructor]. intros j k Hj ->%list_elem_of_singleton. apply before_last; auto.
  - intros j [?| ->%list_elem_of_singleton]%elem_of_app; auto.
Qed.

Lemma fencedLoad_claims x t : fencedLoad cfg x = inr t -> x_closed x = false /\ claims x t.
Proof.
  unfold fencedLoad. rewrite HS. cbn. destruct (x_lost x); [done|]. destruct (x_closed x) eqn:Hc; [done|]. cbn. case_match; [|done].
  intros [= <-]. split; [done|]. by apply cl_last.
Qed.

Lemma fencedSince_calm w now t x : calm w x (snd (fencedSince cfg now t x)).
Proof. unfold fencedSince. case_match; apply lost_calm || apply calm_refl. Qed.

Lemma decided_calm w x l1 t l2 b x' : x_checks x = l1 ++ t :: l2 -> fencedSince cfg (sw_now w) t (with_checks (l1 ++ l2) x) = (b, x') -> calm w x x'.
Proof.
  intros Hx Hf. eapply calm_trans; [apply (checks_calm w x (l1 ++ l2))|pose proof (fencedSince_calm w (sw_now w) t (with_checks (l1 ++ l2) x)) as Hc; by rewrite Hf in Hc].
  - intros s Hs. apply cl_check. rewrite Hx. set_solver.
  - intros _ Hn. rewrite Hn in Hx. by destruct l1.
Qed.

Lemma step_single w w' : single w -> sstep cfg w w' -> single w'.
Proof.
  intros HI. destruct 1 as [dp dr|v d|l1 m l2 x|l1 m l2|i|i x inc Hx Hs Hc Hinc|i x c r|i x m|i x x' Hx Hr Ht|i x x' Hx Hr Ht|i x|i x c r|i x t Hx Hl|
    i x l1 t l2 x' Hx Hl Hf|i x l1 t l2 x' Hx Hl Hf|i x|i x Hx Hc Hrel Hst Hq].
  - by apply single_tick.
  - by eapply single_expire.
  - by apply single_exec.
  - by eapply single_drop.
  - apply single_fresh; [done|congruence|..]; cbn; try done; [claims_tac; set_solver|]. intros t [(c & ? & _)|(c & ? & _)]; done.
  - assert (forall s, ~ claims x s) as Hno by (intros s Hcl; destruct (si_proofs _ HI _ _ _ Hx Hcl); congruence).
    apply (single_send _ _ (startBegin (sw_now w) inc x)); cbn; [|by rewrite lookup_insert_eq|done| |done].
    + apply single_fresh; [done|naive_solver| | |by cbn].
      * intros s Hcl. apply (Hno s). inversion Hcl; subst; cbn in *; simplify_eq; eauto using claims.
      * intros t [(c & [= <-] & <-)|(c & Hr & Ht)]; cbn; [split; [done|lia]|]. split; [done|]. apply (si_asked _ HI i x t Hx). right. by exists c.
    + intros j [= <-] [Hj|Hj]%elem_of_app.
      * apply (si_owners _ HI) in Hj as (y & ? & ?). congruence.
      * apply list_elem_of_omap in Hj as (m & Hm & Hj). apply (si_msgs _ HI) in Hm as (y & Hy & ?). unfold setter in Hj. destruct (sm_req m); [|done..]. injection Hj as Hj. congruence.
  - intros. eapply single_px; eauto. by apply startReply_calm.
  - intros. eapply single_px; eauto. apply startPolled_calm.
  - assert (calm w x x') as Hk. { eapply renewTick_calm; eauto. intros s Hcl. by destruct (si_proofs _ HI _ _ _ Hx Hcl). }
    apply (single_send _ _ x'); cbn; [by eapply single_px|by rewrite lookup_insert_eq| |done|done].
    rewrite (ca_started _ _ _ Hk). revert Ht. unfold renewTick, fenced. destruct (fencedLoad cfg x) as [[]|t] eqn:El; [done| |].
    + unfold fencedLoad in El. rewrite HS in El. cbn in El. repeat case_match; congruence.
    + intros _. apply fencedLoad_claims in El as [_ Hcl]. by destruct (si_proofs _ HI _ _ _ Hx Hcl).
  - eapply single_px; eauto. eapply renewTick_calm; eauto. intros s Hcl. by destruct (si_proofs _ HI _ _ _ Hx Hcl).
  - intros. eapply single_px; eauto. by apply renew_calm.
  - intros. eapply single_px; eauto. by apply renewReply_calm.
  - eapply single_px; eauto. apply fencedLoad_claims in Hl as [? ?]. apply checks_calm; [|congruence].
    intros s [?| ->%list_elem_of_singleton]%elem_of_app; [by apply cl_check|done].
  - eapply single_px; eauto. by eapply decided_calm.
  - apply single_admit; [eapply single_px; eauto; by eapply decided_calm|]. cbn.
    destruct (admits_owns w i x t) as (d & _ & _ & ?); [done|done|rewrite Hl; set_solver| |done]. revert Hf. unfold fencedSince. fold proofTime. case_match; [done|]. lia.
  - intros. eapply single_px; eauto. apply closed_calm.
  - apply (single_send _ _ (with_released x)); cbn; [|by rewrite lookup_insert_eq|done|done|].
    + eapply single_px; [done|exact Hx|]. split; try done; [claims_tac|auto].
    + intros _. unfold quiet in Hq. apply andb_prop in Hq as [Hq _]. split; [done|by apply bool_decide_eq_true in Hq].
Qed.

Lemma runs_single w : singleRuns cfg w -> single w.
Proof.
  intros Hr. revert w Hr. apply (rtc_ind_r single noProxies); [|intros x y _ Hxy HI; by eapply step_single].
  split; cbn; try done; try (by intros; set_solver); by constructor.
Qed.

(** C6: one proxy at a time.  A proxy whose fence lets a write through owns
    the singleton key in Redis at that moment, and a proxy lets no write
    through once another one has.  This holds for requests that Redis runs
    late, replies that are lost, proxies that stop for any time at any point,
    and a clock of Redis that runs up to a fifth faster than theirs. *)
Theorem one_proxy_at_a_time w : singleRuns cfg w ->
  (forall i x t, sw_px w !! i = Some x -> t ∈ x_checks x -> fst (fencedSince cfg (sw_now w) t x) = false ->
    exists d, sw_key w = Some (x_inc x, d) /\ sw_rnow w < d) /\
  (forall i j l1 l2 l3 l4, sw_log w = l1 ++ i :: l2 ++ j :: l3 ++ i :: l4 -> i = j).
Proof.
  intros Hr%runs_single. split.
  - intros i x t Hx Ht Hf. destruct (admits_owns w i x t Hr Hx Ht) as (d & ? & ? & _); [|by exists d].
    revert Hf. unfold fencedSince. fold proofTime. case_match; [done|]. lia.
  - intros i j l1 l2 l3 l4 Hl. pose proof (si_log _ Hr) as Hs. rewrite Hl in Hs. apply StronglySorted_app_1_r in Hs.
    inversion Hs as [|? ? Hs1 Hf1]; subst. apply StronglySorted_app_1_r in Hs1. inversion Hs1 as [|? ? Hs2 Hf2]; subst.
    rewrite Forall_forall in Hf1, Hf2. assert (before (sw_hist w) i j) as [?|(a & b & c & E1)] by (apply Hf1; set_solver); [done|].
    assert (before (sw_hist w) j i) as [?|(a' & b' & c' & E2)] by (apply Hf2; set_solver); [done|].
    exfalso. pose proof (si_hist _ Hr) as Hn%NoDup_app. destruct Hn as [Hn _]. by eapply (before_antisym (sw_hist w)).
Qed.
End facts.

(** ** The fence is final *)
Definition stuck (x : prox) : bool := x_lost x || x_closed x.

Section final.
Context (cfg : singleCfg).
Hypothesis (HS : Singleton cfg = true).

Lemma fenced_sticks now x : stuck x = true -> fenced cfg now x = (true, x).
Proof using HS. unfold stuck, fenced, fencedLoad. rewrite HS. by intros ->. Qed.
Lemma fenced_stuck now x : x_last x <> None -> fst (fenced cfg now x) = true -> stuck (snd (fenced cfg now x)) = true.
Proof using HS.
  unfold fenced, fencedLoad, fencedSince, stuck. rewrite HS. cbn. destruct (x_lost x || x_closed x) eqn:E; [done|].
  destruct (x_last x); [|done]. intros _. case_match; done.
Qed.

Lemma step_stuck w w' i x : sstep cfg w w' -> sw_px w !! i = Some x -> stuck x = true -> exists x', sw_px w' !! i = Some x' /\ stuck x' = true.
Proof using HS.
  intros Hs Hx Ht.
  assert (forall j y y', sw_px w !! j = Some y -> (stuck y = true -> stuck y' = true) -> exists x', <[j := y']> (sw_px w) !! i = Some x' /\ stuck x' = true) as Hset.
  { intros j y y' Hy Hk. destruct (decide (j = i)) as [->|]; [rewrite lookup_insert_eq|rewrite lookup_insert_ne by done; eauto]. exists y'. split; [done|]. apply Hk. congruence. }
  destruct Hs as [dp dr|v d|l1 m l2 y|l1 m l2|j|j y inc|j y c r|j y m|j y y' ? ? Hr|j y y' ? ? Hr|j y|j y c r|j y t|j y l1 t l2 y' ? ? Hr|j y l1 t l2 y' ? ? Hr|j y|j y]; cbn; try by eauto.
  - unfold execMsg. destruct (execReq cfg _ _ _ _) as [v k]. cbn. eapply Hset; eauto. unfold deliver. repeat case_match; done.
  - rewrite lookup_insert_ne; [eauto|]. intros ->. congruence.
  - eapply Hset; eauto. intros Hk. unfold startReply. rewrite fenced_sticks by done. repeat case_match; simplify_eq; try done. unfold stuck. cbn. by rewrite orb_true_r.
  - eapply Hset; eauto. intros Hk. unfold startPolled. rewrite fenced_sticks by done. repeat case_match; simplify_eq; try done; unfold stuck; cbn; by rewrite orb_true_r.
  - eapply Hset; eauto. intros Hk. unfold renewTick in Hr. rewrite fenced_sticks in Hr by done. done.
  - eapply Hset; eauto. intros Hk. unfold renewTick in Hr. rewrite fenced_sticks in Hr by done. by simplify_eq.
  - eapply Hset; eauto. intros Hk. unfold renewReply. by rewrite fenced_sticks.
  - eapply Hset; eauto. intros Hk. unfold fencedSince in Hr. case_match; by simplify_eq.
  - eapply Hset; eauto. intros Hk. unfold fencedSince in Hr. case_match; by simplify_eq.
  - eapply Hset; eauto. intros _. unfold stuck. cbn. by rewrite orb_true_r.
Qed.

(** Losing the proof of ownership is irreversible.  Once fenced has
    answered that a started proxy is fenced, every later call answers the
    same, whatever is renewed, received or taken in between. *)
Theorem fence_is_final w i x w' x' : sw_px w !! i = Some x -> x_last x <> None -> fst (fenced cfg (sw_now w) x) = true ->
  rtc (sstep cfg) (setPx i (snd (fenced cfg (sw_now w) x)) w) w' -> sw_px w' !! i = Some x' -> fst (fenced cfg (sw_now w') x') = true.
Proof using HS.
  intros Hx Hl Hf Hr Hx'. pose proof (fenced_stuck _ _ Hl Hf) as Hk.
  assert (exists y, sw_px w' !! i = Some y /\ stuck y = true) as (y & Hy & Hs).
  { assert (exists y, sw_px (setPx i (snd (fenced cfg (sw_now w) x)) w) !! i = Some y /\ stuck y = true) as H0 by (eexists; cbn; by rewrite lookup_insert_eq).
    revert H0. clear -Hr HS. induction Hr as [|a b c Hab Hbc IH]; [done|]. intros (y & Hy & Hs). apply IH. by eapply step_stuck. }
  rewrite Hx' in Hy. injection Hy as <-. by rewrite fenced_sticks.
Qed.
End final.

(** ** A run: a proxy serves and stops, another one takes over *)
Module SingletonExamples.
Definition tenSeconds : singleCfg := mkSingleCfg true false (10 * 10^9).

(** What a proxy does in a run; [Wait]: time passes on both clocks. *)
Inductive act : Type := Wait (t : Z) | Expire | Exec | New (i : nat) | Begin (i : nat) (inc : string) | Began (i : nat) | Polled (i : nat) | Load (i : nat) | Pass (i : nat).

Definition incFree (inc : string) (w : sworld) : bool :=
  forallb (fun p => negb (x_started (snd p)) || negb (x_inc (snd p) =s inc)) (map_to_list (sw_px w)).

Definition doAct (c : act) (w : sworld) : option sworld :=
  match c with
  | Wait t => if 0 <=? t then Some (mkSWorld (sw_now w + t) (sw_rnow w + t) (sw_key w) (sw_px w) (sw_msgs w) (sw_hist w) (sw_log w)) else None
  | Expire => match sw_key w with
              | Some (_, d) => if d <=? sw_rnow w then Some (mkSWorld (sw_now w) (sw_rnow w) None (sw_px w) (sw_msgs w) (sw_hist w) (sw_log w)) else None
              | None => None
              end
  | Exec => match sw_msgs w with m :: msgs => x ← sw_px w !! sm_px m; Some (execMsg tenSeconds m x msgs w) | [] => None end
  | New i => match sw_px w !! i with None => Some (setPx i newProx w) | Some _ => None end
  | Begin i inc =>
      x ← sw_px w !! i;
      if negb (x_started x) && negb (x_closed x) && incFree inc w
      then Some (send (mkMsg i ReqSet (x_calls x)) (setPx i (startBegin (sw_now w) inc x) w)) else None
  | Began i => x ← sw_px w !! i; match x_start x with SAsk c => Some (setPx i (startReply tenSeconds (sw_now w) (c_start c) (c_got c) x) w) | _ => None end
  | Polled i => x ← sw_px w !! i; match x_start x with SPoll => Some (setPx i (startPolled tenSeconds (sw_now w) ModeEnforce x) w) | _ => None end
  | Load i => x ← sw_px w !! i; match fencedLoad tenSeconds x with inr t => Some (setPx i (with_checks (x_checks x ++ [t]) x) w) | inl _ => None end
  | Pass i =>
      x ← sw_px w !! i;
      match x_checks x with
      | t :: l => match fencedSince tenSeconds (sw_now w) t (with_checks l x) with (false, x') => Some (admitBy i (setPx i x' w)) | _ => None end
      | [] => None
      end
  end.

Lemma doAct_step c w w' : doAct c w = Some w' -> sstep tenSeconds w w'.
Proof.
  destruct c as [t| | |i|i inc|i|i|i|i]; cbn [doAct]; intros Hd.
  - case_match; simplify_eq. apply s_tick; lia.
  - case_match; [|done]. destruct p as [v d]. case_match; simplify_eq. eapply s_expire; [done|lia].
  - destruct (sw_msgs w) as [|m msgs] eqn:Em; [done|]. destruct (sw_px w !! sm_px m) as [x|] eqn:Ex; [|done]. cbn [mbind option_bind] in Hd. simplify_eq. by apply (s_exec _ _ [] m msgs).
  - case_match; simplify_eq. by apply s_new.
  - destruct (sw_px w !! i) as [x|] eqn:Ex; [|done]. cbn [mbind option_bind] in Hd. destruct (x_started x) eqn:Es; [done|]. destruct (x_closed x) eqn:Ec; [done|]. cbn [mbind option_bind] in Hd.
    destruct (incFree inc w) eqn:Ei; cbn [negb andb] in Hd; simplify_eq. apply s_start; try done. intros j y Hy Hs Hi. unfold incFree in Ei. rewrite forallb_forall in Ei.
    specialize (Ei (j, y)). cbn [snd] in Ei. rewrite Hs, Hi, eqs_refl in Ei. discriminate Ei. apply list_elem_of_In. by apply elem_of_map_to_list.
  - destruct (sw_px w !! i) as [x|] eqn:Ex; [|done]. cbn [mbind option_bind] in Hd. destruct (x_start x) as [|c| |] eqn:Es; simplify_eq. eapply s_started; [done..|]. by right.
  - destruct (sw_px w !! i) as [x|] eqn:Ex; [|done]. cbn [mbind option_bind] in Hd. destruct (x_start x) eqn:Es; simplify_eq. exact (s_polled tenSeconds w i x ModeEnforce Ex Es).
  - destruct (sw_px w !! i) as [x|] eqn:Ex; [|done]. cbn [mbind option_bind] in Hd. destruct (fencedLoad tenSeconds x) as [|t] eqn:El; simplify_eq. by apply s_check.
  - destruct (sw_px w !! i) as [x|] eqn:Ex; [|done]. cbn [mbind option_bind] in Hd. destruct (x_checks x) as [|t l] eqn:El; [done|].
    destruct (fencedSince _ _ _ _) as [[] x'] eqn:Ef; simplify_eq. by apply (s_admits _ _ i x [] t l x').
Qed.

Definition doActs (cs : list act) (w : sworld) : option sworld := foldl (fun o c => o ≫= doAct c) (Some w) cs.
Lemma doActs_run cs w : doActs cs noProxies = Some w -> singleRuns tenSeconds w.
Proof.
  unfold doActs, singleRuns. revert w. induction cs as [|c cs IH] using rev_ind; intros w; cbn; [by intros [= <-]|].
  rewrite foldl_app. cbn. destruct (foldl _ _ cs) as [w1|] eqn:E; [|done]. cbn. intros Hd%doAct_step. eapply rtc_r; [by apply IH|done].
Qed.

(** The second proxy starts eleven seconds after the first one stopped. *)
Definition takeover : list act :=
  [New 0; Begin 0 "a:1"; Wait (10^6); Exec; Began 0; Polled 0; Load 0; Wait (3 * 10^9); Pass 0; Wait (11 * 10^9); Expire;
   New 1; Begin 1 "b:2"; Exec; Began 1; Polled 1; Load 1; Pass 1; Load 1].
Definition takenOver : sworld := default noProxies (doActs takeover noProxies).
Lemma takenOver_runs : singleRuns tenSeconds takenOver.
Proof. apply (doActs_run takeover). vm_compute. reflexivity. Qed.
End SingletonExamples.
Import SingletonExamples.

Lemma one_proxy_at_a_time_witness : sw_log takenOver = [0; 1]%nat /\
  (forall i j l1 l2 l3 l4, sw_log takenOver = l1 ++ i :: l2 ++ j :: l3 ++ i :: l4 -> i = j).
Proof.
  split; [vm_compute; reflexivity|]. assert (26 * 10^6 <= SingletonTTL tenSeconds) as HT by (vm_compute; discriminate).
  exact (proj2 (one_proxy_at_a_time tenSeconds eq_refl HT takenOver takenOver_runs)).
Defined.

Lemma fence_is_final_witness : exists x, sw_px takenOver !! 0%nat = Some x /\ x_last x <> None /\
  fst (fenced tenSeconds (sw_now takenOver) (snd (fenced tenSeconds (sw_now takenOver) x))) = true.
Proof.
  assert (x_last <$> sw_px takenOver !! 0%nat = Some (Some 0)) as E1 by (vm_compute; reflexivity).
  assert (fst ∘ fenced tenSeconds (sw_now takenOver) <$> sw_px takenOver !! 0%nat = Some true) as E2 by (vm_compute; reflexivity).
  set (w := takenOver) in *. clearbody w. destruct (sw_px w !! 0%nat) as [x|] eqn:E; [|discriminate E1]. injection E1 as E1. injection E2 as E2. exists x.
  assert (x_last x <> None) as E3 by (rewrite E1; discriminate). split; [reflexivity|]. split; [exact E3|].
  exact (fence_is_final tenSeconds eq_refl w 0 x _ _ E E3 E2 (rtc_refl _ _) (lookup_insert_eq _ _ _)).
Defined.
