(* ===== verification/PreAuth.v ===== *)
(** * Connections before AUTH (internal/respproxy/proxy.go)

    Serve counts the connections of each address that have not logged in and
    refuses those above its limits; enterPreAuth waits for one of the few slots
    of the address; leavePreAuth gives slot and place back, when the client
    logs in or its connection ends.  The theorem is that the counts stay
    right, so that the limits hold and nothing waits or fails on a gate. *)

From S2P Require Import Prelude GoLib.

Record gateCfg : Type := mkGateCfg { MaxConns : Z; MaxPreAuthPerIP : Z; MaxPreAuthQueuePerIP : Z; MaxPreAuthTotal : Z }.

(** [ig_sem]: how many entries the channel holds. *)
Record ipGate : Type := mkGate { ig_sem : Z; ig_queued : Z }.
Record lobby : Type := mkLobby { lb_gates : gmap string ipGate; lb_total : Z; lb_conns : Z }.

(** A connection: preAuthIP and preAuthSlot. *)
Record visitor : Type := mkVisitor { vi_ip : string; vi_slot : bool }.

(** A step on a gate ends, waits for the channel, or is a nil dereference. *)
Inductive gated_ : Type := Done (v : visitor) (l : lobby) | Blocks | NilGate.

Section gate.
Context (cfg : gateCfg).

(** Serve's part of one accepted connection from [ip]. *)
Definition admission (closed : bool) (ip : string) (l : lobby) : bool * lobby :=
  if (MaxConns cfg <=? lb_conns l) || closed then (false, l)
  else
    let gate := default (mkGate 0 0) (lb_gates l !! ip) in
    if (MaxPreAuthQueuePerIP cfg <=? ig_queued gate) || (MaxPreAuthTotal cfg <=? lb_total l)
    then (false, mkLobby (if ig_queued gate =? 0 then delete ip (lb_gates l) else <[ip := gate]> (lb_gates l)) (lb_total l) (lb_conns l))
    else (true, mkLobby (<[ip := mkGate (ig_sem gate) (ig_queued gate + 1)]> (lb_gates l)) (lb_total l + 1) (lb_conns l + 1)).

Definition enterPreAuth (v : visitor) (l : lobby) : gated_ :=
  match lb_gates l !! vi_ip v with
  | None => NilGate
  | Some g =>
      if ig_sem g <? MaxPreAuthPerIP cfg
      then Done (mkVisitor (vi_ip v) true) (mkLobby (<[vi_ip v := mkGate (ig_sem g + 1) (ig_queued g)]> (lb_gates l)) (lb_total l) (lb_conns l))
      else Blocks
  end.

Definition leavePreAuth (v : visitor) (l : lobby) : gated_ :=
  if vi_ip v =s "" then Done v l
  else match lb_gates l !! vi_ip v with
       | None => NilGate
       | Some g =>
           if vi_slot v && (ig_sem g <=? 0) then Blocks
           else
             let g := mkGate (if vi_slot v then ig_sem g - 1 else ig_sem g) (ig_queued g - 1) in
             Done (mkVisitor "" false)
               (mkLobby (if ig_queued g <=? 0 then delete (vi_ip v) (lb_gates l) else <[vi_ip v := g]> (lb_gates l)) (lb_total l - 1) (lb_conns l))
       end.

(** ** The proxy's connections *)
Record hall : Type := mkHall { ha_lobby : lobby; ha_conns : list visitor }.

(** A connection enters once, leaves when it logs in, and leaves for good
    after its handler called leavePreAuth again. *)
Inductive hstep (h : hall) : hall -> Prop :=
  | h_accept ip l : ip <> "" -> admission false ip (ha_lobby h) = (true, l) -> hstep h (mkHall l (mkVisitor ip false :: ha_conns h))
  | h_refuse closed ip l : ip <> "" -> admission closed ip (ha_lobby h) = (false, l) -> hstep h (mkHall l (ha_conns h))
  | h_enter l1 v l2 v' l : ha_conns h = l1 ++ v :: l2 -> vi_slot v = false -> vi_ip v <> "" -> enterPreAuth v (ha_lobby h) = Done v' l ->
      hstep h (mkHall l (l1 ++ v' :: l2))
  | h_leave l1 v l2 v' l : ha_conns h = l1 ++ v :: l2 -> leavePreAuth v (ha_lobby h) = Done v' l -> hstep h (mkHall l (l1 ++ v' :: l2))
  | h_end l1 v l2 : ha_conns h = l1 ++ v :: l2 -> vi_ip v = "" ->
      hstep h (mkHall (mkLobby (lb_gates (ha_lobby h)) (lb_total (ha_lobby h)) (lb_conns (ha_lobby h) - 1)) (l1 ++ l2)).

Definition nobody : hall := mkHall (mkLobby ∅ 0 0) [].

(** ** The invariant *)
Definition waitingAt (ip : string) (vs : list visitor) : Z := Z.of_nat (length (filter (fun v => vi_ip v = ip) vs)).
Definition slotsAt (ip : string) (vs : list visitor) : Z := Z.of_nat (length (filter (fun v => vi_ip v = ip /\ vi_slot v = true) vs)).
Definition inLobby (vs : list visitor) : Z := Z.of_nat (length (filter (fun v => vi_ip v <> "") vs)).

Record counted (h : hall) : Prop := {
  ct_gate ip g : lb_gates (ha_lobby h) !! ip = Some g -> ip <> "" /\ ig_queued g = waitingAt ip (ha_conns h) /\ 0 < ig_queued g <= MaxPreAuthQueuePerIP cfg /\
    ig_sem g = slotsAt ip (ha_conns h) /\ ig_sem g <= Z.max 0 (MaxPreAuthPerIP cfg);
  ct_none ip : ip <> "" -> lb_gates (ha_lobby h) !! ip = None -> waitingAt ip (ha_conns h) = 0;
  ct_total : lb_total (ha_lobby h) = inLobby (ha_conns h) /\ lb_total (ha_lobby h) <= Z.max 0 (MaxPreAuthTotal cfg);
  ct_conns : lb_conns (ha_lobby h) = Z.of_nat (length (ha_conns h)) /\ lb_conns (ha_lobby h) <= Z.max 0 (MaxConns cfg);
  ct_slots : Forall (fun v => vi_slot v = true -> vi_ip v <> "") (ha_conns h);
}.

Lemma counts_cons ip v vs :
  waitingAt ip (v :: vs) = (if decide (vi_ip v = ip) then 1 else 0) + waitingAt ip vs /\
  slotsAt ip (v :: vs) = (if decide (vi_ip v = ip /\ vi_slot v = true) then 1 else 0) + slotsAt ip vs /\
  inLobby (v :: vs) = (if decide (vi_ip v <> "") then 1 else 0) + inLobby vs.
Proof. unfold waitingAt, slotsAt, inLobby. rewrite !filter_cons. split_and!; case_decide; cbn [length]; lia. Qed.

(** The order of the connections does not matter. *)
Lemma counted_perm l vs vs' : vs ≡ₚ vs' -> counted (mkHall l vs) -> counted (mkHall l vs').
Proof.
  intros Hp [C1 C2 C3 C4 C5]. split; cbn in *; unfold waitingAt, slotsAt, inLobby in *; setoid_rewrite <- Hp; done.
Qed.

Lemma counts_nonneg ip vs : 0 <= slotsAt ip vs <= waitingAt ip vs.
Proof.
  induction vs as [|v vs IH]; [unfold slotsAt, waitingAt; cbn; lia|].
  destruct (counts_cons ip v vs) as (-> & -> & _). repeat case_decide; naive_solver lia.
Qed.

Lemma accept_counted l ip l' vs : counted (mkHall l vs) -> ip <> "" -> admission false ip l = (true, l') -> counted (mkHall l' (mkVisitor ip false :: vs)).
Proof.
  intros [C1 C2 C3 C4 C5] Hip. unfold admission. cbn in *. rewrite orb_false_r. case_match; [done|]. case_match; [done|]. intros [= <-].
  assert (ig_queued (default (mkGate 0 0) (lb_gates l !! ip)) = waitingAt ip vs /\ ig_sem (default (mkGate 0 0) (lb_gates l !! ip)) = slotsAt ip vs /\
    ig_sem (default (mkGate 0 0) (lb_gates l !! ip)) <= Z.max 0 (MaxPreAuthPerIP cfg)) as (Hq & Hs & Hm).
  { destruct (lb_gates l !! ip) as [g|] eqn:Eg; cbn; [by apply C1 in Eg as (_ & ? & _ & ? & ?)|]. specialize (C2 ip Hip Eg). pose proof (counts_nonneg ip vs). lia. }
  split; cbn.
  - intros ip' g. destruct (counts_cons ip' (mkVisitor ip false) vs) as (-> & -> & _). cbn. rewrite lookup_insert_Some. intros [[<- <-]|[Hne Hg]]; cbn.
    + rewrite decide_True, decide_False by naive_solver. pose proof (counts_nonneg ip vs). split_and!; try done; lia.
    + rewrite !decide_False by naive_solver. by apply C1 in Hg.
  - intros ip' Hip'. rewrite lookup_insert_None. intros [Hg Hne]. destruct (counts_cons ip' (mkVisitor ip false) vs) as (-> & _ & _). cbn. rewrite decide_False by done. by apply C2.
  - destruct (counts_cons ip (mkVisitor ip false) vs) as (_ & _ & ->). cbn. rewrite decide_True by done. lia.
  - lia.
  - by constructor.
Qed.

Lemma refuse_counted l closed ip l' vs : counted (mkHall l vs) -> ip <> "" -> admission closed ip l = (false, l') -> counted (mkHall l' vs).
Proof.
  intros HC Hip. unfold admission. case_match; [by intros [= <-]|]. case_match; [|done]. intros [= <-].
  destruct HC as [C1 C2 C3 C4 C5]. cbn in *. destruct (lb_gates l !! ip) as [g|] eqn:Eg; cbn.
  - destruct (C1 _ _ Eg) as (_ & _ & ? & _). rewrite (proj2 (Z.eqb_neq _ _)), insert_id by (done || lia). by split.
  - rewrite delete_id by done. by split.
Qed.

Lemma enter_counted l v l' v' vs : counted (mkHall l (v :: vs)) -> vi_slot v = false -> vi_ip v <> "" -> enterPreAuth v l = Done v' l' -> counted (mkHall l' (v' :: vs)).
Proof.
  intros [C1 C2 C3 C4 C5] Hs Hip. unfold enterPreAuth. destruct (lb_gates l !! vi_ip v) as [g|] eqn:Eg; [|done]. case_match; [|done]. intros [= <- <-]. cbn in *.
  assert (forall ip, waitingAt ip (mkVisitor (vi_ip v) true :: vs) = waitingAt ip (v :: vs) /\ inLobby (mkVisitor (vi_ip v) true :: vs) = inLobby (v :: vs) /\
    slotsAt ip (mkVisitor (vi_ip v) true :: vs) = (if decide (vi_ip v = ip) then 1 else 0) + slotsAt ip (v :: vs)) as Hc.
  { intros ip. destruct (counts_cons ip v vs) as (-> & -> & ->), (counts_cons ip (mkVisitor (vi_ip v) true) vs) as (-> & -> & ->). cbn. rewrite Hs.
    repeat case_decide; naive_solver lia. }
  split; cbn.
  - intros ip g'. destruct (Hc ip) as (-> & _ & ->). rewrite lookup_insert_Some. intros [[<- <-]|[Hne Hg]]; cbn.
    + destruct (C1 _ _ Eg) as (? & ? & ? & ? & ?). rewrite decide_True by done. split_and!; try done; lia.
    + rewrite decide_False by done. by apply C1 in Hg.
  - intros ip Hi. rewrite lookup_insert_None. intros [Hg Hne]. destruct (Hc ip) as (-> & _). by apply C2.
  - destruct (Hc "") as (_ & -> & _). done.
  - done.
  - constructor; [done|]. by inversion C5.
Qed.

Lemma leave_counted l v l' v' vs : counted (mkHall l (v :: vs)) -> leavePreAuth v l = Done v' l' -> counted (mkHall l' (v' :: vs)).
Proof.
  intros HC. unfold leavePreAuth. destruct (vi_ip v =s "") eqn:Hip; [by intros [= <- <-]|apply eqs_false in Hip]. destruct HC as [C1 C2 C3 C4 C5]. cbn in *.
  destruct (lb_gates l !! vi_ip v) as [g|] eqn:Eg; [|done]. case_match; [done|]. intros [= <- <-].
  assert (forall ip, ip <> "" -> waitingAt ip (mkVisitor "" false :: vs) = waitingAt ip (v :: vs) - (if decide (vi_ip v = ip) then 1 else 0) /\
    slotsAt ip (mkVisitor "" false :: vs) = slotsAt ip (v :: vs) - (if decide (vi_ip v = ip /\ vi_slot v = true) then 1 else 0)) as Hc.
  { intros ip Hi. destruct (counts_cons ip v vs) as (-> & -> & _), (counts_cons ip (mkVisitor "" false) vs) as (-> & -> & _). cbn.
    split; repeat case_decide; naive_solver lia. }
  destruct (C1 _ _ Eg) as (_ & Hq & Hb & Hs & Hm). destruct (Hc _ Hip) as [Hw Hsl]. rewrite decide_True in Hw by done.
  split; cbn.
  - intros ip g' Hg. assert (vi_ip v <> ip /\ lb_gates l !! ip = Some g' \/ vi_ip v = ip /\ g' = mkGate (if vi_slot v then ig_sem g - 1 else ig_sem g) (ig_queued g - 1) /\ 0 < ig_queued g - 1) as [[Hne Hg']|(<- & -> & Hpos)].
    { revert Hg. cbn [ig_queued]. destruct (Z.leb_spec (ig_queued g - 1) 0); [rewrite lookup_delete_Some; naive_solver|]. rewrite lookup_insert_Some. naive_solver lia. }
    + destruct (C1 _ _ Hg') as (Hi & ? & ? & ? & ?). destruct (Hc ip Hi) as [-> ->]. rewrite !decide_False by naive_solver. split_and!; try done; lia.
    + cbn. rewrite Hw, Hsl. destruct (vi_slot v); [rewrite decide_True by done|rewrite decide_False by naive_solver]; split_and!; try done; lia.
  - intros ip Hi Hg. destruct (Hc ip Hi) as [-> _]. destruct (decide (vi_ip v = ip)) as [<-|Hd].
    + revert Hg. cbn [ig_queued]. destruct (Z.leb_spec (ig_queued g - 1) 0); [intros _; lia|]. by rewrite lookup_insert_eq.
    + rewrite C2; [lia|done|]. revert Hg. cbn [ig_queued]. destruct (Z.leb_spec (ig_queued g - 1) 0); [by rewrite lookup_delete_ne by done|by rewrite lookup_insert_ne by done].
  - destruct (counts_cons "" v vs) as (_ & _ & Ha), (counts_cons "" (mkVisitor "" false) vs) as (_ & _ & ->). rewrite decide_True in Ha by done. rewrite decide_False by (cbn; naive_solver). cbn. lia.
  - done.
  - inversion C5. by constructor.
Qed.

Lemma end_counted l v vs : counted (mkHall l (v :: vs)) -> vi_ip v = "" -> counted (mkHall (mkLobby (lb_gates l) (lb_total l) (lb_conns l - 1)) vs).
Proof.
  intros [C1 C2 C3 C4 C5] Hip. cbn in *.
  assert (forall ip, ip <> "" -> waitingAt ip (v :: vs) = waitingAt ip vs /\ slotsAt ip (v :: vs) = slotsAt ip vs) as Hc.
  { intros ip Hi. destruct (counts_cons ip v vs) as (-> & -> & _). rewrite !decide_False by naive_solver. lia. }
  split; cbn.
  - intros ip g Hg. destruct (C1 ip g Hg) as (Hi & H1). destruct (Hc ip Hi) as [<- <-]. done.
  - intros ip Hi Hg. destruct (Hc ip Hi) as [<- _]. by apply C2.
  - destruct (counts_cons "" v vs) as (_ & _ & Ha). rewrite decide_False in Ha by naive_solver. lia.
  - lia.
  - by inversion C5.
Qed.

Lemma step_counted h h' : counted h -> hstep h h' -> counted h'.
Proof.
  destruct h as [l vs]. intros HC. destruct 1 as [ip l' Hip Ha|closed ip l' Hip Ha|l1 v l2 v' l' Hv Hs Hip He|l1 v l2 v' l' Hv Hl|l1 v l2 Hv Hip]; cbn in *.
  1: by eapply accept_counted. 1: by eapply refuse_counted.
  all: subst vs; apply (counted_perm _ _ (v :: l1 ++ l2)) in HC; [|by rewrite Permutation_middle].
  - apply (counted_perm _ (v' :: l1 ++ l2)); [by rewrite Permutation_middle|]. by eapply enter_counted.
  - apply (counted_perm _ (v' :: l1 ++ l2)); [by rewrite Permutation_middle|]. by eapply leave_counted.
  - by eapply end_counted.
Qed.

(** C23: the limits on connections that have not logged in hold.  However
    connections come, log in and end, there are never more than MaxConns of
    them, MaxPreAuthTotal that have not logged in, MaxPreAuthQueuePerIP of
    those from an address and MaxPreAuthPerIP in its slots.  Leaving never
    waits for a slot and no gate is missing, and when nobody waits no gate
    is left. *)
Theorem lobby_is_bounded h : rtc hstep nobody h ->
  let l := ha_lobby h in
  Z.of_nat (length (ha_conns h)) <= Z.max 0 (MaxConns cfg) /\ inLobby (ha_conns h) <= Z.max 0 (MaxPreAuthTotal cfg) /\
  (forall ip, ip <> "" -> waitingAt ip (ha_conns h) <= Z.max 0 (MaxPreAuthQueuePerIP cfg) /\ slotsAt ip (ha_conns h) <= Z.max 0 (MaxPreAuthPerIP cfg)) /\
  (forall v, v ∈ ha_conns h -> (exists v' l', leavePreAuth v l = Done v' l') /\ (vi_ip v <> "" -> enterPreAuth v l <> NilGate)) /\
  (inLobby (ha_conns h) = 0 -> lb_gates l = ∅ /\ lb_total l = 0).
Proof.
  intros Hr l. assert (counted h) as HC.
  { revert h Hr l. apply (rtc_ind_r counted nobody); [|intros x y _ Hxy HC; by eapply step_counted]. split; cbn; try done; unfold inLobby; cbn; lia. }
  destruct HC as [C1 C2 C3 C4 C5]. fold l in C1, C2, C3, C4.
  assert (forall v, v ∈ ha_conns h -> vi_ip v <> "" -> exists g, lb_gates l !! vi_ip v = Some g /\ (vi_slot v = true -> 0 < ig_sem g)) as Hgate.
  { intros v Hv Hip. apply list_elem_of_split in Hv as (l1 & l2 & Hv). assert (ha_conns h ≡ₚ v :: l1 ++ l2) as Hp by (rewrite Hv; by rewrite Permutation_middle).
    destruct (lb_gates l !! vi_ip v) as [g|] eqn:Eg.
    - exists g. split; [done|]. intros Hs. destruct (C1 _ _ Eg) as (_ & _ & _ & -> & _). unfold slotsAt. rewrite Hp, filter_cons_True by done. cbn. lia.
    - specialize (C2 _ Hip Eg). unfold waitingAt in C2. rewrite Hp, filter_cons_True in C2 by done. cbn in C2. lia. }
  split_and!; [lia|lia|..].
  - intros ip Hip. destruct (lb_gates l !! ip) as [g|] eqn:Eg; [apply C1 in Eg as (_ & ? & ? & ? & ?); lia|]. specialize (C2 ip Hip Eg). pose proof (counts_nonneg ip (ha_conns h)). lia.
  - intros v Hv. unfold leavePreAuth, enterPreAuth. destruct (vi_ip v =s "") eqn:Hip.
    + apply eqs_true in Hip. split; [eauto|done].
    + apply eqs_false in Hip. destruct (Hgate v Hv Hip) as (g & -> & Hs). split; [|intros _; case_match; done].
      destruct (vi_slot v); cbn; [|eauto]. rewrite (proj2 (Z.leb_gt _ _)) by auto. eauto.
  - intros H0. split; [|lia]. apply map_empty. intros ip. destruct (lb_gates l !! ip) as [g|] eqn:Eg; [|done]. destruct (C1 _ _ Eg) as (Hip & Hq & Hb & _).
    exfalso. unfold inLobby, waitingAt in *. assert (length (filter (fun v => vi_ip v <> "") (ha_conns h)) = 0)%nat as Hn%nil_length_inv by lia.
    destruct (filter (fun v => vi_ip v = ip) (ha_conns h)) as [|v vs] eqn:Ev; [cbn in Hq; lia|].
    assert (v ∈ filter (fun v => vi_ip v <> "") (ha_conns h)) as Hv; [|rewrite Hn in Hv; by apply elem_of_nil in Hv].
    assert (v ∈ filter (fun v => vi_ip v = ip) (ha_conns h)) as [? ?]%list_elem_of_filter by (rewrite Ev; set_solver). apply list_elem_of_filter. split; [congruence|done].
Qed.
End gate.

(** The default limits; a client connects, gets a slot and logs in, and a
    second one waits. *)
Definition defaultGates : gateCfg := mkGateCfg 4096 16 1024 256.
Definition oneIn : hall :=
  mkHall (mkLobby {["10.0.0.7" := mkGate 0 1]} 1 2) [mkVisitor "10.0.0.7" false; mkVisitor "" false].

Lemma lobby_is_bounded_witness : rtc (hstep defaultGates) nobody oneIn /\ inLobby (ha_conns oneIn) <= Z.max 0 (MaxPreAuthTotal defaultGates).
Proof.
  assert (rtc (hstep defaultGates) nobody oneIn) as Hr; [|split; [exact Hr|exact (proj1 (proj2 (lobby_is_bounded defaultGates oneIn Hr)))]].
  eapply rtc_l; [eapply (h_accept _ _ "10.0.0.7"); [discriminate|vm_compute; reflexivity]|].
  eapply rtc_l; [eapply (h_enter _ _ [] _ []); [vm_compute; reflexivity|reflexivity|discriminate|vm_compute; reflexivity]|].
  eapply rtc_l; [eapply (h_accept _ _ "10.0.0.7"); [discriminate|vm_compute; reflexivity]|].
  eapply rtc_l; [eapply (h_leave _ _ [_] _ []); [vm_compute; reflexivity|vm_compute; reflexivity]|].
  vm_compute. apply rtc_refl.
Defined.
