(* ===== verification/SidePool.v ===== *)
(** * The proxy's own connections to Redis (internal/respproxy/proxy.go)

    SidePool: Do takes an idle connection or dials one, selects the database
    if the connection is not known to be in it, runs the command and gives the
    connection back unless something failed.  The theorem is that commands run
    in the database they are meant for. *)

From S2P Require Import Prelude GoLib.

(** A connection of the pool: its number and the database it is taken to be
    in ([sideConn.db]). *)
Record sideConn : Type := mkSide { sc_id : nat; sc_db : Z }.
Record sidePool : Type := mkPool { sp_idle : list sideConn; sp_closed : bool; sp_max : nat }.

(** Redis: the database selected on each connection, and the commands run,
    with the database each was meant for. *)
Record sideRedis : Type := mkSideRedis { sr_dbs : gmap nat Z; sr_runs : list (Z * Z) }.

(** What happens to a round trip: nothing is sent, it is lost after Redis ran
    it, Redis answers an error, or it succeeds. *)
Inductive trip : Type := TripUnsent | TripLost | TripError | TripOk.

(** [get]: [None] is an error; a dialed connection gets a name first. *)
Definition getSide (next : nat) (named : bool) (p : sidePool) (r : sideRedis) : option (sideConn * sidePool * sideRedis) :=
  if sp_closed p then None
  else match last (sp_idle p) with
       | Some sc => Some (sc, mkPool (removelast (sp_idle p)) false (sp_max p), r)
       | None => if named then Some (mkSide next 0, p, mkSideRedis (<[next := 0]> (sr_dbs r)) (sr_runs r)) else None
       end.

Definition putSide (sc : sideConn) (p : sidePool) : sidePool :=
  if sp_closed p || Nat.leb (sp_max p) (length (sp_idle p)) then p else mkPool (sp_idle p ++ [sc]) (sp_closed p) (sp_max p).

(** SELECT when the connection is in another database. *)
Definition selectSide (db : Z) (t : trip) (sc : sideConn) (r : sideRedis) : option sideConn * sideRedis :=
  if sc_db sc =? db then (Some sc, r)
  else match t with
       | TripUnsent | TripError => (None, r)
       | TripLost => (None, mkSideRedis (<[sc_id sc := db]> (sr_dbs r)) (sr_runs r))
       | TripOk => (Some (mkSide (sc_id sc) db), mkSideRedis (<[sc_id sc := db]> (sr_dbs r)) (sr_runs r))
       end.

(** The command itself; an error reply of Redis is a reply. *)
Definition runSide (db : Z) (t : trip) (sc : sideConn) (r : sideRedis) : bool * sideRedis :=
  match t with
  | TripUnsent => (false, r)
  | _ => (negb (match t with TripLost => true | _ => false end),
          mkSideRedis (sr_dbs r) (sr_runs r ++ [(db, default 0 (sr_dbs r !! sc_id sc))]))
  end.

(** ** Calls of several goroutines: a call has a connection of its own *)
Record sideWorld : Type := mkSideW { sd_pool : sidePool; sd_redis : sideRedis; sd_next : nat; sd_busy : list (sideConn * Z) }.

Inductive pstep (w : sideWorld) : sideWorld -> Prop :=
  | p_get db named sc p r : getSide (sd_next w) named (sd_pool w) (sd_redis w) = Some (sc, p, r) -> pstep w (mkSideW p r (S (sd_next w)) (sd_busy w ++ [(sc, db)]))
  | p_select l1 sc db l2 t sc' r : sd_busy w = l1 ++ (sc, db) :: l2 -> selectSide db t sc (sd_redis w) = (Some sc', r) ->
      pstep w (mkSideW (sd_pool w) r (sd_next w) (l1 ++ (sc', db) :: l2))
  | p_stuck l1 sc db l2 t r : sd_busy w = l1 ++ (sc, db) :: l2 -> selectSide db t sc (sd_redis w) = (None, r) ->
      pstep w (mkSideW (sd_pool w) r (sd_next w) (l1 ++ l2))
  | p_done l1 sc db l2 t r : sd_busy w = l1 ++ (sc, db) :: l2 -> sc_db sc = db -> runSide db t sc (sd_redis w) = (true, r) ->
      pstep w (mkSideW (putSide sc (sd_pool w)) r (sd_next w) (l1 ++ l2))
  | p_failed l1 sc db l2 t r : sd_busy w = l1 ++ (sc, db) :: l2 -> sc_db sc = db -> runSide db t sc (sd_redis w) = (false, r) ->
      pstep w (mkSideW (sd_pool w) r (sd_next w) (l1 ++ l2))
  | p_close : pstep w (mkSideW (mkPool [] true (sp_max (sd_pool w))) (sd_redis w) (sd_next w) (sd_busy w)).

Definition noSide (max : nat) : sideWorld := mkSideW (mkPool [] false max) (mkSideRedis ∅ []) 0 [].

Definition sideConns (w : sideWorld) : list sideConn := sp_idle (sd_pool w) ++ (fst <$> sd_busy w).

Record sideOK (w : sideWorld) : Prop := {
  sk_ids : NoDup (sc_id <$> sideConns w);
  sk_next sc : sc ∈ sideConns w -> (sc_id sc < sd_next w)%nat;
  sk_dbs sc : sc ∈ sideConns w -> sr_dbs (sd_redis w) !! sc_id sc = Some (sc_db sc);
  sk_runs : Forall (fun x => fst x = snd x) (sr_runs (sd_redis w));
}.

(** Connections that leave or change places. *)
Lemma side_sub w p r next busy : sideOK w -> (sc_id <$> sp_idle p ++ (fst <$> busy)) ⊆+ (sc_id <$> sideConns w) -> (forall sc, sc ∈ sp_idle p ++ (fst <$> busy) -> sc ∈ sideConns w) ->
  (forall sc, sc ∈ sp_idle p ++ (fst <$> busy) -> sr_dbs r !! sc_id sc = Some (sc_db sc)) -> (sd_next w <= next)%nat ->
  Forall (fun x => fst x = snd x) (sr_runs r) -> sideOK (mkSideW p r next busy).
Proof.
  intros [K1 K2 K3 K4] Hs Hin Hd Hn Hr. split; try done.
  - destruct (submseteq_Permutation _ _ Hs) as [k Hk]. rewrite Hk in K1. by apply NoDup_app in K1 as [? _].
  - intros sc Hsc. specialize (K2 sc (Hin sc Hsc)). cbn. lia.
Qed.

Lemma busy_perm w l1 sc db l2 : sd_busy w = l1 ++ (sc, db) :: l2 -> sideConns w ≡ₚ sc :: sp_idle (sd_pool w) ++ (fst <$> l1 ++ l2).
Proof. intros Hb. unfold sideConns. by rewrite Hb, !fmap_app, fmap_cons, <- !Permutation_middle. Qed.

(** The database of one connection changes. *)
Lemma other_dbs w l1 sc db l2 x v : sideOK w -> sd_busy w = l1 ++ (sc, db) :: l2 -> x ∈ sp_idle (sd_pool w) ++ (fst <$> l1 ++ l2) ->
  <[sc_id sc := v]> (sr_dbs (sd_redis w)) !! sc_id x = Some (sc_db x).
Proof.
  intros HW Hb Hx. pose proof (busy_perm _ _ _ _ _ Hb) as Hp. rewrite lookup_insert_ne; [apply (sk_dbs _ HW); rewrite Hp; set_solver|].
  pose proof (sk_ids _ HW) as Hn. rewrite Hp in Hn. cbn in Hn. apply NoDup_cons in Hn as [Hn _]. intros E. apply Hn, list_elem_of_fmap. eauto.
Qed.

Lemma dropped w l1 sc db l2 r : sideOK w -> sd_busy w = l1 ++ (sc, db) :: l2 -> Forall (fun x => fst x = snd x) (sr_runs r) ->
  (sr_dbs r = sr_dbs (sd_redis w) \/ exists v, sr_dbs r = <[sc_id sc := v]> (sr_dbs (sd_redis w))) -> sideOK (mkSideW (sd_pool w) r (sd_next w) (l1 ++ l2)).
Proof.
  intros HW Hb Hr Hd. pose proof (busy_perm _ _ _ _ _ Hb) as Hp. apply (side_sub w); try done; [rewrite Hp; cbn; by apply submseteq_cons|intros x Hx; rewrite Hp; set_solver|].
  intros x Hx. destruct Hd as [->|(v & ->)]; [apply (sk_dbs _ HW); rewrite Hp; set_solver|by eapply other_dbs].
Qed.

Lemma runSide_ok w sc db l1 l2 t b r : sideOK w -> sd_busy w = l1 ++ (sc, db) :: l2 -> sc_db sc = db -> runSide db t sc (sd_redis w) = (b, r) ->
  sr_dbs r = sr_dbs (sd_redis w) /\ Forall (fun x => fst x = snd x) (sr_runs r).
Proof.
  intros HW Hb Hd Hr. assert (sr_dbs (sd_redis w) !! sc_id sc = Some db) as Hl. { rewrite <- Hd. apply (sk_dbs _ HW). rewrite (busy_perm _ _ _ _ _ Hb). set_solver. }
  revert Hr. unfold runSide. destruct t; intros [= <- <-]; cbn; (split; [done|]); rewrite ?Hl; try apply Forall_app_2; try apply (sk_runs _ HW); by repeat constructor.
Qed.

Lemma step_side w w' : sideOK w -> pstep w w' -> sideOK w'.
Proof.
  intros HW. destruct 1 as [db named sc p r Hg|l1 sc db l2 t sc' r Hb Hs|l1 sc db l2 t r Hb Hs|l1 sc db l2 t r Hb Hd Hr|l1 sc db l2 t r Hb Hd Hr|].
  - unfold getSide in Hg. destruct (sp_closed (sd_pool w)) eqn:Ec; [done|]. destruct (last (sp_idle (sd_pool w))) as [x|] eqn:El.
    + injection Hg as <- <- <-. apply last_Some in El as [l' El]. rewrite El, removelast_last.
      assert (l' ++ (fst <$> sd_busy w ++ [(x, db)]) ≡ₚ sideConns w) as Hp. { unfold sideConns. rewrite El, fmap_app. cbn. by rewrite <- (assoc_L (++)), (Permutation_app_comm [x]). }
      apply (side_sub w); cbn; [done|by rewrite Hp|intros ?; by rewrite Hp| |lia|apply (sk_runs _ HW)]. intros s. rewrite Hp. apply (sk_dbs _ HW).
    + destruct named; [|done]. injection Hg as <- <- <-. apply last_None in El.
      assert (forall s, s ∈ sideConns w -> sc_id s <> sd_next w) as Hfresh by (intros s Hs%(sk_next _ HW); lia).
      set (w' := mkSideW _ _ _ _). assert (sideConns w' = sideConns w ++ [mkSide (sd_next w) 0]) as Hp by (unfold sideConns; cbn; by rewrite fmap_app, (assoc_L (++))).
      split; rewrite ?Hp; cbn [w' sd_redis sd_next sr_dbs sr_runs].
      * rewrite fmap_app, NoDup_app. split_and!; [apply (sk_ids _ HW)| |by apply NoDup_singleton]. intros i (s & -> & Hs)%list_elem_of_fmap Hi%list_elem_of_singleton. by apply Hfresh in Hs.
      * intros s [Hs%(sk_next _ HW)| ->%list_elem_of_singleton]%elem_of_app; cbn; lia.
      * intros s [Hs| ->%list_elem_of_singleton]%elem_of_app; [|by rewrite lookup_insert_eq]. rewrite lookup_insert_ne by (apply not_eq_sym; auto). by apply (sk_dbs _ HW).
      * apply (sk_runs _ HW).
  - unfold selectSide in Hs. case_match eqn:Ed; [injection Hs as <- <-; destruct w; cbn in *; by subst|]. destruct t; simplify_eq.
    pose proof (busy_perm _ _ _ _ _ Hb) as Hp. set (w' := mkSideW _ _ _ _). assert (sideConns w' ≡ₚ mkSide (sc_id sc) db :: sp_idle (sd_pool w) ++ (fst <$> l1 ++ l2)) as Hp' by (by apply (busy_perm w' l1 _ db l2)).
    split; cbn [sd_redis sd_next w' sr_dbs sr_runs]; [|intros s; rewrite Hp'|intros s; rewrite Hp'|apply (sk_runs _ HW)].
    + pose proof (sk_ids _ HW) as Hn. rewrite Hp in Hn. by rewrite Hp'.
    + intros [->|Hin]%elem_of_cons; cbn; apply (sk_next _ HW); rewrite Hp; set_solver.
    + intros [->|Hin]%elem_of_cons; cbn; [by rewrite lookup_insert_eq|by eapply other_dbs].
  - unfold selectSide in Hs. case_match; [done|]. destruct t; simplify_eq; eapply dropped; eauto; apply (sk_runs _ HW).
  - destruct (runSide_ok _ _ _ _ _ _ _ _ HW Hb Hd Hr) as [Hdbs Hruns]. unfold putSide. case_match; [eapply dropped; eauto|].
    pose proof (busy_perm _ _ _ _ _ Hb) as Hp. assert ((sp_idle (sd_pool w) ++ [sc]) ++ (fst <$> l1 ++ l2) ≡ₚ sideConns w) as Hp' by (by rewrite Hp, (Permutation_app_comm _ [sc])).
    apply (side_sub w); cbn; [done|by rewrite Hp'|intros ?; by rewrite Hp'| |done|done]. intros s. rewrite Hp', Hdbs. apply (sk_dbs _ HW).
  - destruct (runSide_ok _ _ _ _ _ _ _ _ HW Hb Hd Hr) as [Hdbs Hruns]. eapply dropped; eauto.
  - apply (side_sub w); cbn; [done|unfold sideConns; rewrite fmap_app; by apply submseteq_inserts_l|unfold sideConns; set_solver| |done|apply (sk_runs _ HW)].
    intros s Hs. apply (sk_dbs _ HW). unfold sideConns. set_solver.
Qed.

(** Commands of the side pool run in the database they are meant for: in
    every interleaving of calls, with selects and commands that fail or are
    lost after Redis ran them. *)
Theorem side_commands_run_where_meant max w : rtc pstep (noSide max) w -> Forall (fun x => fst x = snd x) (sr_runs (sd_redis w)).
Proof.
  intros Hr. enough (sideOK w) as HW by apply (sk_runs _ HW).
  revert w Hr. apply (rtc_ind_r sideOK (noSide max)); [|intros x y _ Hxy HW; by eapply step_side]. split; cbn; try set_solver; by constructor.
Qed.
