(* ===== verification/Json.v ===== *)
(** * What the code uses of encoding/json

    [marshal] prints a value as json.Marshal does (no spaces, HTML characters
    and invalid UTF-8 escaped) and [parse] reads a text as json.Unmarshal's
    scanner and decoder do, into a value that the caller then decodes into its
    struct.  [parse_marshal], in the second part, is the round trip. *)

From S2P Require Import Prelude GoLib.
From Stdlib Require Import String.
Local Open Scope string_scope.
Local Open Scope Z_scope.
Local Open Scope go_scope.

(** ** Runes of a byte string (package utf8) *)
Inductive rune :=
  | RAscii (c : ascii)
  | RMulti (s : string)      (* a valid sequence of two to four bytes *)
  | RBad (c : ascii).        (* a byte that starts no valid sequence *)

Definition inRange (lo hi : Z) (c : ascii) : bool := (lo <=? bval c) && (bval c <=? hi).
Definition cont (c : ascii) : bool := inRange 128 191 c.

(** The second byte that utf8's table of first bytes accepts. *)
Definition second3 (a b : ascii) : bool :=
  if bval a =? 224 then inRange 160 191 b else if bval a =? 237 then inRange 128 159 b else inRange 225 239 a && cont b.
Definition second4 (a b : ascii) : bool :=
  if bval a =? 240 then inRange 144 191 b else if bval a =? 244 then inRange 128 143 b else inRange 241 243 a && cont b.

(** DecodeRune on [a] followed by [s]. *)
Definition runeAt (a : ascii) (s : string) : rune * string :=
  if bval a <? 128 then (RAscii a, s) else
  match s with
  | "" => (RBad a, s)
  | String b s2 =>
    if inRange 194 223 a && cont b then (RMulti (String a (String b "")), s2) else
    match s2 with
    | "" => (RBad a, s)
    | String c s3 =>
      if second3 a b && cont c then (RMulti (String a (String b (String c ""))), s3) else
      match s3 with
      | "" => (RBad a, s)
      | String d s4 =>
        if second4 a b && cont c && cont d then (RMulti (String a (String b (String c (String d "")))), s4) else (RBad a, s)
      end
    end
  end.

Fixpoint runesGo (fuel : nat) (s : string) : list rune :=
  match fuel, s with
  | O, _ | _, "" => []
  | S n, String a s1 => let '(r, s2) := runeAt a s1 in r :: runesGo n s2
  end.
Definition runes (s : string) : list rune := runesGo (String.length s) s.

Definition sconcat (l : list string) : string := foldr String.append "" l.

(** U+FFFD, which stands for a byte that is not UTF-8. *)
Definition replacement : string := String "239" (String "191" (String "189" "")).
Definition lineSep : string := String "226" (String "128" (String "168" "")).
Definition paraSep : string := String "226" (String "128" (String "169" "")).

(** ** Values *)
Inductive jvalue :=
  | JNull
  | JBool (b : bool)
  | JNum (lit : string)
  | JStr (s : string)
  | JArr (l : list jvalue)
  | JObj (l : list (string * jvalue)).

(** ** Printing: appendString with escapeHTML, and the compact form *)
Definition hexDigit (d : Z) : ascii := if d <? 10 then byte_of (48 + d) else byte_of (87 + d).

Definition quote : ascii := "034".
Definition backslash : ascii := "092".

(** The bytes htmlSafeSet lets through. *)
Definition htmlSafe (c : ascii) : bool :=
  (32 <=? bval c) && negb (existsb (Z.eqb (bval c)) [34; 92; 60; 62; 38]).

Definition escapeAscii (c : ascii) : string :=
  if htmlSafe c then String c "" else
  match bval c with
  | 34 | 92 => String backslash (String c "")
  | 8 => String backslash "b"
  | 12 => String backslash "f"
  | 10 => String backslash "n"
  | 13 => String backslash "r"
  | 9 => String backslash "t"
  | z => String backslash (String "u" (String "0" (String "0" (String (hexDigit (z / 16)) (String (hexDigit (z mod 16)) "")))))
  end.

Definition escapeRune (r : rune) : string :=
  match r with
  | RAscii c => escapeAscii c
  | RBad _ => String backslash "ufffd"
  | RMulti s =>
    if s =s lineSep then String backslash "u2028" else if s =s paraSep then String backslash "u2029" else s
  end.

Definition quoteBody (s : string) : string := sconcat (escapeRune <$> runes s).
Definition quoted (s : string) : string := String quote (quoteBody s +:+ String quote "").

Fixpoint commas (l : list string) : string :=
  match l with
  | [] => ""
  | [x] => x
  | x :: l' => x +:+ "," +:+ commas l'
  end.

Fixpoint marshal (v : jvalue) : string :=
  match v with
  | JNull => "null"
  | JBool true => "true"
  | JBool false => "false"
  | JNum lit => lit
  | JStr s => quoted s
  | JArr l => "[" +:+ commas (map marshal l) +:+ "]"
  | JObj l => "{" +:+ commas (map (fun kv => quoted kv.1 +:+ ":" +:+ marshal kv.2) l) +:+ "}"
  end.

(** ** Reading *)
Definition hexVal (c : ascii) : option Z :=
  if inRange 48 57 c then Some (bval c - 48) else
  if inRange 97 102 c then Some (bval c - 87) else
  if inRange 65 70 c then Some (bval c - 55) else None.

(** getu4, after the backslash and the u. *)
Definition getu4 (s : string) : option (Z * string) :=
  match s with
  | String a (String b (String c (String d r))) =>
    match hexVal a, hexVal b, hexVal c, hexVal d with
    | Some w, Some x, Some y, Some z => Some (4096 * w + 256 * x + 16 * y + z, r)
    | _, _, _, _ => None
    end
  | _ => None
  end.

(** utf8.AppendRune of a code point that is not a surrogate. *)
Definition encodeRune (z : Z) : string :=
  if z <? 128 then String (byte_of z) "" else
  if z <? 2048 then String (byte_of (192 + z / 64)) (String (byte_of (128 + z mod 64)) "") else
  if z <? 65536 then
    String (byte_of (224 + z / 4096)) (String (byte_of (128 + z / 64 mod 64)) (String (byte_of (128 + z mod 64)) ""))
  else
    String (byte_of (240 + z / 262144))
      (String (byte_of (128 + z / 4096 mod 64)) (String (byte_of (128 + z / 64 mod 64)) (String (byte_of (128 + z mod 64)) ""))).

Definition isSurrogate (z : Z) : bool := (55296 <=? z) && (z <? 57344).

(** What follows a surrogate [z]: a second half makes one rune, otherwise the
    surrogate alone is U+FFFD. *)
Definition surrogate (z : Z) (r : string) : string * string :=
  match r with
  | String bs (String u r1) =>
    if (bval bs =? 92) && (bval u =? 117) then
      match getu4 r1 with
      | Some (z2, r2) =>
        if (z <? 56320) && (56320 <=? z2) && (z2 <? 57344)
        then (encodeRune ((z - 55296) * 1024 + (z2 - 56320) + 65536), r2)
        else (replacement, r)
      | None => (replacement, r)
      end
    else (replacement, r)
  | _ => (replacement, r)
  end.

(** One escape, after its backslash: the bytes it stands for and the rest. *)
Definition unescape (s : string) : option (string * string) :=
  match s with
  | "" => None
  | String c r =>
    match bval c with
    | 34 | 92 | 47 => Some (String c "", r)
    | 98 => Some (String "008" "", r)
    | 102 => Some (String "012" "", r)
    | 110 => Some (String "010" "", r)
    | 114 => Some (String "013" "", r)
    | 116 => Some (String "009" "", r)
    | 117 =>
      match getu4 r with
      | Some (z, r1) => Some (if isSurrogate z then surrogate z r1 else (encodeRune z, r1))
      | None => None
      end
    | _ => None
    end
  end.

(** A string literal, after its opening quote. *)
Fixpoint strBody (fuel : nat) (s : string) : option (string * string) :=
  match fuel, s with
  | O, _ | _, "" => None
  | S n, String a s1 =>
    if bval a =? 34 then Some ("", s1) else
    if bval a =? 92 then
      match unescape s1 with
      | Some (d, r) => match strBody n r with Some (t, r2) => Some (d +:+ t, r2) | None => None end
      | None => None
      end
    else if bval a <? 32 then None else
    let '(r, s2) := runeAt a s1 in
    let d := match r with RAscii c => String c "" | RMulti m => m | RBad _ => replacement end in
    match strBody n s2 with Some (t, r2) => Some (d +:+ t, r2) | None => None end
  end.
Definition parseString (s : string) : option (string * string) := strBody (String.length s) s.

Definition isDigit (c : ascii) : bool := inRange 48 57 c.

Fixpoint numDigits (s : string) : string * string :=
  match s with
  | String c r => if isDigit c then let '(d, r2) := numDigits r in (String c d, r2) else ("", s)
  | "" => ("", s)
  end.

(** The fraction and the exponent: [None] when they are begun and not ended. *)
Definition fraction (s : string) : option (string * string) :=
  match s with
  | String c r =>
    if bval c =? 46 then match numDigits r with ("", _) => None | (d, r2) => Some (String c d, r2) end else Some ("", s)
  | "" => Some ("", s)
  end.
Definition exponent (s : string) : option (string * string) :=
  match s with
  | String c r =>
    if (bval c =? 101) || (bval c =? 69) then
      let '(sg, r1) :=
        match r with
        | String g r1 => if (bval g =? 43) || (bval g =? 45) then (String g "", r1) else ("", r)
        | "" => ("", r)
        end in
      match numDigits r1 with ("", _) => None | (d, r2) => Some (String c (sg +:+ d), r2) end
    else Some ("", s)
  | "" => Some ("", s)
  end.
Definition magnitude (s : string) : option (string * string) :=
  match s with
  | String c r => if bval c =? 48 then Some (String c "", r) else if isDigit c then Some (numDigits s) else None
  | "" => None
  end.

(** A number literal: the scanner's states from a minus sign or a digit. *)
Definition parseNumber (s : string) : option (string * string) :=
  let '(sg, s1) :=
    match s with String c r => if bval c =? 45 then (String c "", r) else ("", s) | "" => ("", s) end in
  match magnitude s1 with
  | None => None
  | Some (m, s2) =>
    match fraction s2 with
    | None => None
    | Some (f, s3) =>
      match exponent s3 with
      | None => None
      | Some (e, s4) => Some (sg +:+ m +:+ f +:+ e, s4)
      end
    end
  end.

Definition jsonSpace (c : ascii) : bool := existsb (Z.eqb (bval c)) [32; 9; 13; 10].
Fixpoint skipSpace (s : string) : string :=
  match s with
  | String c r => if jsonSpace c then skipSpace r else s
  | "" => ""
  end.

(** The scanner's limit on nested arrays and objects. *)
Definition maxNestingDepth : nat := 10000.

Section parsers.
Variable value : nat -> string -> option (jvalue * string).

(** The elements after an opening bracket that is not closed at once. *)
Fixpoint elements (fuel d : nat) (s : string) : option (list jvalue * string) :=
  match fuel with
  | O => None
  | S n =>
    match value d s with
    | None => None
    | Some (v, r) =>
      match skipSpace r with
      | String c r1 =>
        if bval c =? 93 then Some ([v], r1) else
        if bval c =? 44 then match elements n d r1 with Some (l, r2) => Some (v :: l, r2) | None => None end
        else None
      | "" => None
      end
    end
  end.

(** A key with its colon. *)
Definition keyColon (s : string) : option (string * string) :=
  match skipSpace s with
  | String q r =>
    if bval q =? 34 then
      match parseString r with
      | None => None
      | Some (k, r1) =>
        match skipSpace r1 with
        | String c r2 => if bval c =? 58 then Some (k, r2) else None
        | "" => None
        end
      end
    else None
  | "" => None
  end.

Fixpoint members (fuel d : nat) (s : string) : option (list (string * jvalue) * string) :=
  match fuel with
  | O => None
  | S n =>
    match keyColon s with
    | None => None
    | Some (k, r) =>
      match value d r with
      | None => None
      | Some (v, r1) =>
        match skipSpace r1 with
        | String c r2 =>
          if bval c =? 125 then Some ([(k, v)], r2) else
          if bval c =? 44 then match members n d r2 with Some (l, r3) => Some ((k, v) :: l, r3) | None => None end
          else None
        | "" => None
        end
      end
    end
  end.
End parsers.

(** One value; [fuel] bounds the nesting that is still read, [d] is the
    nesting so far. *)
Fixpoint parseValue (fuel d : nat) (s : string) : option (jvalue * string) :=
  match fuel with
  | O => None
  | S n =>
    match skipSpace s with
    | "" => None
    | String c r =>
      if bval c =? 34 then match parseString r with Some (t, r1) => Some (JStr t, r1) | None => None end else
      if bval c =? 123 then
        if (maxNestingDepth <=? d)%nat then None else
        match skipSpace r with
        | String c2 r1 =>
          if bval c2 =? 125 then Some (JObj [], r1) else
          match members (parseValue n) (String.length r) (S d) r with
          | Some (l, r2) => Some (JObj l, r2)
          | None => None
          end
        | "" => None
        end
      else if bval c =? 91 then
        if (maxNestingDepth <=? d)%nat then None else
        match skipSpace r with
        | String c2 r1 =>
          if bval c2 =? 93 then Some (JArr [], r1) else
          match elements (parseValue n) (String.length r) (S d) r with
          | Some (l, r2) => Some (JArr l, r2)
          | None => None
          end
        | "" => None
        end
      else
      match cut_prefix "null" (String c r), cut_prefix "true" (String c r), cut_prefix "false" (String c r) with
      | Some r1, _, _ => Some (JNull, r1)
      | _, Some r1, _ => Some (JBool true, r1)
      | _, _, Some r1 => Some (JBool false, r1)
      | _, _, _ => match parseNumber (String c r) with Some (t, r1) => Some (JNum t, r1) | None => None end
      end
    end
  end.

(** A whole text. *)
Definition parse (s : string) : option jvalue :=
  match parseValue (S maxNestingDepth) 0 s with
  | Some (v, r) => match skipSpace r with "" => Some v | _ => None end
  | None => None
  end.

(** ** Decoding into struct fields

    The kind of a Go field, and whether a value decodes into it without an
    error; null leaves any field as it is. *)
Inductive kind :=
  | KU64
  | KI64
  | KBool
  | KStr
  | KArr (k : kind)
  | KObj (fs : list (string * kind)).

(** foldName: ASCII letters in upper case, and the two runes outside ASCII
    that fold to one. *)
Fixpoint foldName (s : string) : string :=
  match s with
  | String "197" (String "191" r) => String "S" (foldName r)
  | String "226" (String "132" (String "170" r)) => String "K" (foldName r)
  | String c r => String (up_ascii c) (foldName r)
  | "" => ""
  end.

(** The field a key names: its exact name, else its folded name. *)
Definition fieldNamed {A} (fs : list (string * A)) (k : string) : option (string * A) :=
  match List.find (fun f => f.1 =s k) fs with
  | Some f => Some f
  | None => List.find (fun f => foldName f.1 =s foldName k) fs
  end.

Fixpoint fits (k : kind) (v : jvalue) {struct v} : bool :=
  match v, k with
  | JNull, _ => true
  | JBool _, KBool => true
  | JStr _, KStr => true
  | JNum lit, KU64 => match ParseUint lit with Some _ => true | None => false end
  | JNum lit, KI64 => (ParseInt lit).2
  | JArr l, KArr k' => forallb (fits k') l
  | JObj l, KObj fs => forallb (fun kv => match fieldNamed fs kv.1 with Some f => fits f.2 kv.2 | None => true end) l
  | _, _ => false
  end.

(** The last value a key of the object gives field [f], null excepted. *)
Definition lastOf {A} (fs : list (string * A)) (f : string) (l : list (string * jvalue)) : option jvalue :=
  foldl (fun acc kv =>
    match fieldNamed fs kv.1 with
    | Some g => if g.1 =s f then match kv.2 with JNull => acc | v => Some v end else acc
    | None => acc
    end) None l.

Definition u64Of (v : option jvalue) : Z := match v with Some (JNum lit) => default 0 (ParseUint lit) | _ => 0 end.
Definition i64Of (v : option jvalue) : Z := match v with Some (JNum lit) => (ParseInt lit).1 | _ => 0 end.
Definition strOf (v : option jvalue) : string := match v with Some (JStr s) => s | _ => "" end.

(** * The round trip of encoding/json

    What [Json.marshal] prints, [Json.parse] reads back, with U+FFFD in the
    place of every byte that is not UTF-8 ([clean]); and a printed text holds
    no line feed, so that a file of such texts can be split into lines. *)

(** ** What reading makes of a value *)
Definition cleanRune (r : rune) : string :=
  match r with RAscii c => String c "" | RMulti s => s | RBad _ => replacement end.
Definition clean (s : string) : string := sconcat (cleanRune <$> runes s).

Fixpoint cleanJ (v : jvalue) : jvalue :=
  match v with
  | JStr s => JStr (clean s)
  | JArr l => JArr (map cleanJ l)
  | JObj l => JObj (map (fun kv => (clean kv.1, cleanJ kv.2)) l)
  | _ => v
  end.

Fixpoint depth (v : jvalue) : nat :=
  match v with
  | JArr l => S (list_max (map depth l))
  | JObj l => S (list_max (map (fun kv => depth kv.2) l))
  | _ => 0
  end.

(** What may follow a value: nothing a number could go on with. *)
Definition delim (s : string) : bool :=
  match s with
  | "" => true
  | String c _ => negb (isDigit c || existsb (Z.eqb (bval c)) [46; 101; 69])
  end.

(** A literal of a number, with the head the value parser looks at. *)
Definition numHead (c : ascii) : bool := isDigit c || (bval c =? 45).
Definition numLit (lit : string) : Prop :=
  (exists c r, lit = String c r /\ numHead c = true) /\ IndexByte lit LF = None /\
  forall rest, delim rest = true -> parseNumber (lit +:+ rest) = Some (lit, rest).

Inductive okJ : jvalue -> Prop :=
  | okNull : okJ JNull
  | okBool b : okJ (JBool b)
  | okNum lit : numLit lit -> okJ (JNum lit)
  | okStr s : okJ (JStr s)
  | okArr l : Forall okJ l -> okJ (JArr l)
  | okObj l : Forall (fun kv => okJ kv.2) l -> okJ (JObj l).
Create HintDb json.
#[export] Hint Constructors okJ : json.

Section induction.
Variable P : jvalue -> Prop.
Hypothesis Hnull : P JNull.
Hypothesis Hbool : forall b, P (JBool b).
Hypothesis Hnum : forall lit, P (JNum lit).
Hypothesis Hstr : forall s, P (JStr s).
Hypothesis Harr : forall l, Forall P l -> P (JArr l).
Hypothesis Hobj : forall l, Forall (fun kv : string * jvalue => P kv.2) l -> P (JObj l).

Fixpoint jvalue_nested_ind (v : jvalue) : P v :=
  match v with
  | JNull => Hnull
  | JBool b => Hbool b
  | JNum lit => Hnum lit
  | JStr s => Hstr s
  | JArr l => Harr l ((fix go l : Forall P l := match l with [] => Forall_nil_2 _ | x :: l' => Forall_cons_2 _ _ _ (jvalue_nested_ind x) (go l') end) l)
  | JObj l => Hobj l ((fix go l : Forall (fun kv => P kv.2) l := match l with [] => Forall_nil_2 _ | x :: l' => Forall_cons_2 _ _ _ (jvalue_nested_ind x.2) (go l') end) l)
  end.
End induction.

Lemma sconcat_cons x l : sconcat (x :: l) = x +:+ sconcat l.
Proof. done. Qed.

(** ** Runes *)
Definition okRune (r : rune) : Prop :=
  match r with
  | RAscii c => bval c < 128
  | RMulti s => exists a t, s = String a t /\ 128 <= bval a /\ IndexByte s LF = None /\
      forall rest, runeAt a (t +:+ rest) = (RMulti s, rest)
  | RBad _ => True
  end.

Lemma high_LF c : 128 <= bval c -> Ascii.eqb c LF = false.
Proof. intros H. destruct (Ascii.eqb_spec c LF) as [-> |]; [| done]. by vm_compute in H. Qed.

Lemma second_high a b : cont b = true \/ second3 a b = true \/ second4 a b = true -> 128 <= bval b.
Proof. unfold second3, second4, cont, inRange. intros H. repeat case_match; lia. Qed.

Lemma IndexByte_high c r : 128 <= bval c -> IndexByte r LF = None -> IndexByte (String c r) LF = None.
Proof. intros Hc Hr. cbn. by rewrite high_LF, Hr by done. Qed.

Lemma runeAt_ok a s : okRune (runeAt a s).1.
Proof.
  unfold runeAt. destruct (bval a <? 128) eqn:Ha; [to_prop; done |].
  assert (128 <= bval a) by lia.
  destruct s as [| b [| c [| d s]]]; repeat case_match; cbn [fst okRune]; try done;
    (eexists a, _; split; [done |]; split; [done |]);
    repeat match goal with H : _ && _ = true |- _ => apply andb_prop in H as [] end;
    (split; [repeat apply IndexByte_high; first [done | apply (second_high a); auto] |]; intros rest; unfold runeAt; rewrite Ha; cbn);
    repeat match goal with H : _ = false |- _ => rewrite H end; repeat match goal with H : _ = true |- _ => rewrite H end; done.
Qed.

Lemma runes_ok s : Forall okRune (runes s).
Proof.
  unfold runes. generalize (String.length s) at 1. intros n. revert s.
  induction n as [| n IH]; intros [| a s]; cbn; try constructor.
  pose proof (runeAt_ok a s) as H. destruct (runeAt a s) as [r s2]. constructor; [done | apply IH].
Qed.

Lemma escapeAscii_read c n rest : bval c < 128 ->
  strBody (S n) (escapeAscii c +:+ rest) = match strBody n rest with Some (t, r) => Some (String c t, r) | None => None end.
Proof.
  intros H. destruct c as [[] [] [] [] [] [] [] []]; try (vm_compute in H; discriminate H); cbn; try reflexivity.
Qed.

Lemma escapeRune_read r n rest : okRune r ->
  strBody (S n) (escapeRune r +:+ rest) = match strBody n rest with Some (t, r') => Some (cleanRune r +:+ t, r') | None => None end.
Proof.
  destruct r as [c | s | c]; intros H.
  - by apply escapeAscii_read.
  - destruct H as (a & t & -> & Ha & _ & Hr). cbn [escapeRune cleanRune].
    destruct (String a t =s lineSep) eqn:E1; [apply eqs_true in E1; rewrite E1; reflexivity |].
    destruct (String a t =s paraSep) eqn:E2; [apply eqs_true in E2; rewrite E2; reflexivity |].
    cbn [strBody String.append]. rewrite Hr.
    replace (bval a =? 34) with false by lia. replace (bval a =? 92) with false by lia.
    replace (bval a <? 32) with false by lia. by destruct (strBody n rest) as [[]|].
  - reflexivity.
Qed.

Lemma strBody_runes rs : Forall okRune rs -> forall n rest, (List.length rs < n)%nat ->
  strBody n (sconcat (escapeRune <$> rs) +:+ String quote rest) = Some (sconcat (cleanRune <$> rs), rest).
Proof.
  induction 1 as [| r rs Hr _ IH]; intros [| n] rest Hn; cbn in Hn; try lia; [done |].
  rewrite !fmap_cons, !sconcat_cons, sapp_assoc, escapeRune_read, IH by (done || lia). done.
Qed.

Lemma escapeAscii_nonempty c : escapeAscii c <> "".
Proof. destruct c as [[] [] [] [] [] [] [] []]; done. Qed.

Lemma escapeRune_nonempty r : okRune r -> escapeRune r <> "".
Proof.
  destruct r as [c | s |]; cbn; [intros _; apply escapeAscii_nonempty | | done].
  intros (a & t & -> & _). by repeat case_match.
Qed.

Lemma sconcat_length l : Forall (fun s => s <> "") l -> (List.length l <= String.length (sconcat l))%nat.
Proof.
  induction 1 as [| s l Hs _ IH]; [done |]. rewrite sconcat_cons, slength_app. cbn. destruct s; [done | cbn; lia].
Qed.

Lemma quoteBody_read s rest : parseString (quoteBody s +:+ String quote rest) = Some (clean s, rest).
Proof.
  apply strBody_runes; [apply runes_ok |]. rewrite slength_app. cbn.
  assert (List.length (runes s) <= String.length (quoteBody s))%nat; [| lia].
  rewrite <- (length_fmap escapeRune). apply sconcat_length, Forall_fmap.
  eapply Forall_impl; [apply runes_ok |]. apply escapeRune_nonempty.
Qed.

(** ASCII text is not changed by reading it back. *)
Fixpoint asciiText (s : string) : bool :=
  match s with "" => true | String c r => (bval c <? 128) && asciiText r end.

Lemma clean_ascii s : asciiText s = true -> clean s = s.
Proof.
  unfold clean, runes. induction s as [| c s IH]; cbn; [done |]. intros [Hc Hs]%andb_prop.
  unfold runeAt. rewrite Hc. cbn. f_equal. apply IH, Hs.
Qed.

(** ** Numbers *)
Lemma digits_all s : all_digits s = true -> forall rest, delim rest = true -> numDigits (s +:+ rest) = (s, rest).
Proof.
  intros Hs rest Hr. induction s as [| c s IH].
  - destruct rest as [| c r]; [done |]. cbn in *. by destruct (isDigit c).
  - cbn in Hs. destruct (char_digit c) as [d |] eqn:Hc; [| done].
    assert (isDigit c = true) as Hd.
    { apply char_digit_inv in Hc as [Hd <-]. unfold isDigit, inRange, digit_char.
      rewrite bval_byte_of by lia. lia. }
    cbn. rewrite Hd, (IH Hs). done.
Qed.

Lemma delim_fraction rest : delim rest = true -> fraction rest = Some ("", rest) /\ exponent rest = Some ("", rest).
Proof.
  destruct rest as [| c r]; cbn; [done |].
  destruct (isDigit c), (bval c =? 46), (bval c =? 101), (bval c =? 69); done.
Qed.

Lemma magnitude_digits s : all_digits s = true -> canonical s -> forall rest, delim rest = true ->
  magnitude (s +:+ rest) = Some (s, rest).
Proof.
  intros Hs Hc rest Hr. pose proof (digits_all s Hs rest Hr) as Hd. destruct s as [| c s]; [done |].
  unfold magnitude. cbn [String.append] in *. cbn in Hs, Hc.
  assert (isDigit c = true) as Hi by (unfold isDigit, inRange, char_digit in *; by destruct (_ && _)).
  destruct (bval c =? 48) eqn:E0; [| by rewrite Hi, Hd].
  destruct Hc as [Hc | ->]; [| done]. exfalso. apply Hc. unfold char_digit.
  apply Z.eqb_eq in E0. rewrite E0. done.
Qed.

Lemma parseNumber_digits s : all_digits s = true -> canonical s -> forall rest, delim rest = true ->
  parseNumber (s +:+ rest) = Some (s, rest) /\ parseNumber (String "-" s +:+ rest) = Some (String "-" s, rest).
Proof.
  intros Hs Hc rest Hr. pose proof (magnitude_digits s Hs Hc rest Hr) as Hm. destruct (delim_fraction rest Hr) as [Hf He].
  unfold parseNumber. destruct s as [| c s]; [done |].
  assert ((bval c =? 45) = false) as Hd.
  { cbn in Hs. unfold char_digit in Hs. destruct (48 <=? bval c) eqn:E; [| done]. lia. }
  cbn [String.append] in *. rewrite Hd. change (bval "-" =? 45) with true. cbn [String.append].
  rewrite Hm, Hf, He. by rewrite !sapp_nil_r.
Qed.

Lemma numLit_FormatUint n : is_u64 n -> numLit (FormatUint n).
Proof.
  intros Hn. assert (all_digits (FormatUint n) = true) as Hd by (apply all_digits_FormatUint; unfold is_u64 in Hn; lia).
  split.
  - destruct (digit_head n Hn) as (c & r & -> & [d Hc]). exists c, r. split; [done |].
    unfold numHead, isDigit, inRange. unfold char_digit in Hc. by destruct (_ && _).
  - split; [by apply all_digits_IndexByte |].
    intros rest Hr. by apply parseNumber_digits; [| apply canonical_FormatUint |].
Qed.

Lemma numLit_FormatInt n : is_i64 n -> numLit (FormatInt n).
Proof.
  unfold is_i64, FormatInt. intros Hn. destruct (n <? 0) eqn:E; [| apply numLit_FormatUint; unfold is_u64; lia].
  split; [by eexists _, _ |]. split.
  { cbn. by rewrite all_digits_IndexByte by (done || (apply all_digits_FormatUint; lia)). }
  intros rest Hr.
  apply parseNumber_digits; [apply all_digits_FormatUint; lia | apply canonical_FormatUint; unfold is_u64; lia | done].
Qed.
#[export] Hint Resolve numLit_FormatUint numLit_FormatInt : json.

(** ** Values *)
Definition plainHead (c : ascii) : Prop := jsonSpace c = false /\ bval c <> 93 /\ bval c <> 125.

Lemma numHead_plain c : numHead c = true -> plainHead c /\ existsb (Z.eqb (bval c)) [34; 123; 91; 110; 116; 102] = false.
Proof. destruct c as [[] [] [] [] [] [] [] []]; intros H; vm_compute in H; try discriminate H; by repeat split. Qed.

Lemma marshal_head v : okJ v -> exists c r, marshal v = String c r /\ plainHead c.
Proof.
  intros H. destruct H as [| [] | lit [(c & r & -> & Hc) _] | | |]; try (by eexists _, _; repeat split).
  exists c, r. split; [done |]. by apply numHead_plain.
Qed.

Lemma skipSpace_plain c r : jsonSpace c = false -> skipSpace (String c r) = String c r.
Proof. intros H. cbn [skipSpace]. by rewrite H. Qed.

Lemma map_cons' {A B} (f : A -> B) x l : map f (x :: l) = f x :: map f l.
Proof. done. Qed.

Lemma commas_cons x l : l <> [] -> commas (x :: l) = x +:+ "," +:+ commas l.
Proof. by destruct l. Qed.

Lemma commas_length l : Forall (fun s => s <> "") l -> (List.length l <= String.length (commas l))%nat.
Proof.
  induction 1 as [| s l Hs Hl IH]; [done |]. assert (1 <= String.length s)%nat by (destruct s; [done | cbn; lia]).
  destruct l as [| t l]; [cbn; lia |]. rewrite commas_cons by done. rewrite !slength_app. cbn [List.length String.length] in *. lia.
Qed.

Section containers.
Variable value : nat -> string -> option (jvalue * string).
Variable d : nat.

Definition reads (v : jvalue) : Prop :=
  forall rest, delim rest = true -> value d (marshal v +:+ rest) = Some (cleanJ v, rest).

Lemma elements_read l : l <> [] -> Forall reads l -> forall n rest, (List.length l <= n)%nat ->
  elements value n d (commas (map marshal l) +:+ String "]" rest) = Some (map cleanJ l, rest).
Proof.
  intros Hne Hl. induction Hl as [| v l Hv Hl IH]; [done |]. intros [| n] rest Hn; cbn [List.length] in Hn; [lia |].
  destruct l as [| w l].
  - cbn [map commas elements]. by rewrite Hv by done.
  - specialize (IH ltac:(done) n rest ltac:(lia)). rewrite !(map_cons' _ _ (w :: l)), commas_cons by done.
    set (C := commas (map marshal (w :: l))) in *. clearbody C. cbn [elements]. rewrite sapp_assoc, Hv by done. cbn [String.append].
    rewrite skipSpace_plain by done. change (bval "," =? 93) with false. change (bval "," =? 125) with false.
    change (bval "," =? 44) with true. by rewrite IH.
Qed.

Lemma keyColon_read k rest : keyColon (quoted k +:+ String ":" rest) = Some (clean k, rest).
Proof.
  unfold keyColon, quoted. cbn [String.append]. rewrite skipSpace_plain by done. change (bval quote =? 34) with true.
  rewrite sapp_assoc. cbn [String.append]. by rewrite quoteBody_read.
Qed.

Lemma members_read l : l <> [] -> Forall (fun kv => reads kv.2) l -> forall n rest, (List.length l <= n)%nat ->
  members value n d (commas (map (fun kv => quoted kv.1 +:+ ":" +:+ marshal kv.2) l) +:+ String "}" rest) =
  Some (map (fun kv => (clean kv.1, cleanJ kv.2)) l, rest).
Proof.
  intros Hne Hl. induction Hl as [| [k v] l Hv Hl IH]; [done |]. intros [| n] rest Hn; cbn [List.length] in Hn; [lia |].
  cbn [fst snd] in Hv. destruct l as [| w l].
  - cbn [map commas members fst snd]. rewrite sapp_assoc. cbn [String.append]. by rewrite keyColon_read, Hv by done.
  - specialize (IH ltac:(done) n rest ltac:(lia)). rewrite !(map_cons' _ _ (w :: l)), commas_cons by done.
    set (C := commas (map _ (w :: l))) in *. clearbody C. cbn [members fst snd]. rewrite !sapp_assoc. cbn [String.append].
    rewrite keyColon_read, Hv by done. cbn [String.append].
    rewrite skipSpace_plain by done. change (bval "," =? 93) with false. change (bval "," =? 125) with false.
    change (bval "," =? 44) with true. by rewrite IH.
Qed.
End containers.

Lemma parseNumber_value lit n d rest : numLit lit -> delim rest = true ->
  parseValue (S n) d (lit +:+ rest) = Some (JNum lit, rest).
Proof.
  intros [(c & r & -> & Hc) [_ Hp]] Hr. specialize (Hp rest Hr). destruct (numHead_plain c Hc) as [[Hs _] Hq].
  cbn [parseValue]. change (String c r +:+ rest) with (String c (r +:+ rest)) in *. rewrite skipSpace_plain by done.
  rewrite Hp. clear -Hq. destruct c as [[] [] [] [] [] [] [] []]; vm_compute in Hq; try discriminate Hq; done.
Qed.

Lemma list_max_elem x l : x ∈ l -> (x <= list_max l)%nat.
Proof. intros H. pose proof (proj1 (list_max_le l (list_max l)) (le_n _)) as Hm. rewrite Forall_forall in Hm. by apply Hm. Qed.

Lemma quoted_nonempty k r : quoted k +:+ r <> "".
Proof. done. Qed.

Lemma parseValue_arr n d C l rest : (d < maxNestingDepth)%nat -> (exists c r, C = String c r /\ plainHead c) ->
  elements (parseValue n) (String.length (C +:+ String "]" rest)) (S d) (C +:+ String "]" rest) = Some (l, rest) ->
  parseValue (S n) d (String "[" (C +:+ String "]" rest)) = Some (JArr l, rest).
Proof.
  intros Hd (c & r & -> & Hs & H1 & H2) He. cbn [parseValue]. rewrite skipSpace_plain by done.
  change (bval "[" =? 34) with false. change (bval "[" =? 123) with false. change (bval "[" =? 91) with true.
  destruct (Nat.leb_spec maxNestingDepth d); [lia |]. rewrite He. cbn [String.append]. rewrite skipSpace_plain by done.
  by apply Z.eqb_neq in H1 as ->.
Qed.

Lemma parseValue_obj n d C l rest : (d < maxNestingDepth)%nat -> (exists c r, C = String c r /\ plainHead c) ->
  members (parseValue n) (String.length (C +:+ String "}" rest)) (S d) (C +:+ String "}" rest) = Some (l, rest) ->
  parseValue (S n) d (String "{" (C +:+ String "}" rest)) = Some (JObj l, rest).
Proof.
  intros Hd (c & r & -> & Hs & H1 & H2) He. cbn [parseValue]. rewrite skipSpace_plain by done.
  change (bval "{" =? 34) with false. change (bval "{" =? 123) with true.
  destruct (Nat.leb_spec maxNestingDepth d); [lia |]. rewrite He. cbn [String.append]. rewrite skipSpace_plain by done.
  by apply Z.eqb_neq in H2 as ->.
Qed.

Lemma commas_head x l : (exists c r, x = String c r /\ plainHead c) -> exists c r, commas (x :: l) = String c r /\ plainHead c.
Proof. intros (c & r & -> & Hc). destruct l; [by exists c, r |]. rewrite commas_cons by done. by eexists c, _. Qed.

(** A container of depth at most [n] has children of depth below [n]. *)
Lemma child_depth {A} (f : A -> nat) (l : list A) n x : (S (list_max (map f l)) <= n)%nat -> x ∈ l -> (S (f x) <= n)%nat.
Proof. intros H Hx. pose proof (list_max_elem (f x) (map f l)) as Hm. rewrite list_elem_of_In, in_map_iff in Hm.
  assert (f x <= list_max (map f l))%nat; [| lia]. apply Hm. exists x. by rewrite <- list_elem_of_In. Qed.

(** What is printed is read back, in any context a value can stand in. *)
Lemma parseValue_marshal v : okJ v -> forall n d rest, (depth v <= n)%nat -> (d + depth v <= maxNestingDepth)%nat ->
  delim rest = true -> parseValue (S n) d (marshal v +:+ rest) = Some (cleanJ v, rest).
Proof.
  induction v as [| b | lit | s | l IH | l IH] using jvalue_nested_ind; intros Hok n d rest Hn Hd Hr.
  - done.
  - by destruct b.
  - apply parseNumber_value; [by inversion Hok | done].
  - cbn [marshal quoted parseValue]. unfold quoted. cbn [String.append]. rewrite skipSpace_plain by done.
    change (bval quote =? 34) with true. rewrite sapp_assoc. cbn [String.append]. by rewrite quoteBody_read.
  - inversion Hok as [| | | | ? Hl |]; subst. cbn [marshal cleanJ]. cbn [depth] in Hn, Hd. cbn [String.append].
    destruct l as [| v l]; [cbn [map commas String.append]; cbn [parseValue]; destruct (Nat.leb_spec maxNestingDepth d); [lia | done] |].
    rewrite sapp_assoc. cbn [String.append]. apply parseValue_arr; [lia | apply commas_head, marshal_head; by inversion Hl |].
    apply elements_read; [done | |].
    + rewrite Forall_forall in *. intros x Hx rest' Hr'. destruct n as [| n]; [lia |].
      apply IH; [done | by apply Hl | | | done]; pose proof (child_depth depth (v :: l) (S n) x Hn Hx);
        pose proof (child_depth depth (v :: l) (maxNestingDepth - d) x ltac:(lia) Hx); lia.
    + rewrite slength_app. etrans; [| apply Nat.le_add_r]. rewrite <- (length_map marshal). apply commas_length.
      apply Forall_map. eapply Forall_impl; [exact Hl |]. intros x Hx. by destruct (marshal_head x Hx) as (? & ? & -> & _).
  - inversion Hok as [| | | | | ? Hl]; subst. cbn [marshal cleanJ]. cbn [depth] in Hn, Hd. cbn [String.append].
    destruct l as [| v l]; [cbn [map commas String.append]; cbn [parseValue]; destruct (Nat.leb_spec maxNestingDepth d); [lia | done] |].
    rewrite sapp_assoc. cbn [String.append]. apply parseValue_obj; [lia | apply commas_head; by eexists quote, _ |].
    apply members_read; [done | |].
    + rewrite Forall_forall in *. intros x Hx rest' Hr'. destruct n as [| n]; [lia |].
      apply IH; [done | by apply Hl | | | done]; pose proof (child_depth (fun kv => depth kv.2) (v :: l) (S n) x Hn Hx);
        pose proof (child_depth (fun kv => depth kv.2) (v :: l) (maxNestingDepth - d) x ltac:(lia) Hx); cbn beta in *; lia.
    + rewrite slength_app. etrans; [| apply Nat.le_add_r]. rewrite <- (length_map (fun kv => quoted kv.1 +:+ ":" +:+ marshal kv.2)).
      apply commas_length, Forall_map, Forall_true. done.
Qed.

(** The round trip. *)
Theorem parse_marshal v : okJ v -> (depth v <= maxNestingDepth)%nat -> parse (marshal v) = Some (cleanJ v).
Proof.
  intros Hv Hd. unfold parse. rewrite <- (sapp_nil_r (marshal v)), parseValue_marshal by (done || lia). done.
Qed.

(** ** A printed text is one line *)
Lemma IndexByte_none_app a b c : IndexByte a c = None -> IndexByte b c = None -> IndexByte (a +:+ b) c = None.
Proof.
  intros Ha Hb. induction a as [| x a IH]; [done |]. cbn in *. destruct (Ascii.eqb x c); [done |].
  destruct (IndexByte a c); [done |]. by rewrite IH.
Qed.

Lemma escapeRune_LF r : okRune r -> IndexByte (escapeRune r) LF = None.
Proof.
  destruct r as [c | s | c]; cbn [escapeRune okRune].
  - intros _. destruct c as [[] [] [] [] [] [] [] []]; done.
  - intros (a & t & -> & _ & H & _). by repeat case_match.
  - done.
Qed.

Lemma sconcat_LF l : Forall (fun s => IndexByte s LF = None) l -> IndexByte (sconcat l) LF = None.
Proof. induction 1; [done |]. rewrite sconcat_cons. by apply IndexByte_none_app. Qed.

Lemma commas_LF l : Forall (fun s => IndexByte s LF = None) l -> IndexByte (commas l) LF = None.
Proof.
  induction 1 as [| x l Hx Hl IH]; [done |]. destruct l as [| y l]; [done |]. rewrite commas_cons by done.
  repeat apply IndexByte_none_app; done.
Qed.

Lemma quoted_LF s : IndexByte (quoted s) LF = None.
Proof.
  unfold quoted. change (String quote ?x) with (String quote "" +:+ x).
  repeat apply IndexByte_none_app; try done. apply sconcat_LF, Forall_fmap.
  eapply Forall_impl; [apply runes_ok |]. apply escapeRune_LF.
Qed.

Lemma marshal_LF v : okJ v -> IndexByte (marshal v) LF = None.
Proof.
  induction v as [| [] | lit | s | l IH | l IH] using jvalue_nested_ind; intros Hok; try done.
  - inversion Hok as [| | ? [_ [H _]] | | |]; subst. done.
  - apply quoted_LF.
  - inversion Hok as [| | | | ? Hl |]; subst. cbn [marshal]. repeat apply IndexByte_none_app; try done.
    apply commas_LF, Forall_map. rewrite Forall_forall in *. auto.
  - inversion Hok as [| | | | | ? Hl]; subst. cbn [marshal]. repeat apply IndexByte_none_app; try done.
    apply commas_LF, Forall_map. rewrite Forall_forall in *. intros x Hx. repeat apply IndexByte_none_app; try done; [apply quoted_LF | auto].
Qed.
