(* ===== verification/AuditRecord.v ===== *)
(** * One line of the audit log (auditlog/auditlog.go)

    The record, the text json.Marshal makes of it, the stub the writer puts in
    the place of a record that is too large, and the fields of a line that the
    readers look at.  [readHdr_encode] says that a reader finds the fields the
    writer wrote. *)

From S2P Require Import Prelude GoLib Json Sha1 Sha256.
From Stdlib Require Import String.
Local Open Scope string_scope.
Local Open Scope Z_scope.
Local Open Scope go_scope.

(** ** Data *)
Definition TypeIntent : string := "intent".
Definition TypeOutcome : string := "outcome".
Definition TypeRefused : string := "refused".
Definition TypeModified : string := "modified".
Definition TypeGap : string := "gap".
Definition TypeOpen : string := "open".
Definition TypeRetention : string := "retention".

Record Project := mkProject { pj_Ino : Z; pj_Path : string }.

Record Op := mkOp {
  op_Op : string; op_Parent : Z; op_Name : string; op_Ino : Z; op_Dir : bool; op_Trash : bool; op_Path : string }.

Record Row := mkRow { rw_Hash : string; rw_Ino : Z; rw_Op : string; rw_Value : string; rw_Path : string }.

Record AttrChange := mkAttrChange { ac_Ino : Z; ac_Field : string; ac_Old : string; ac_New : string }.

(** Who a record is about: its fields from Principal to AgentName. *)
Record Who := mkWho {
  wh_Principal : string; wh_Kind : string; wh_Host : string; wh_Person : string; wh_PersonName : string;
  wh_Agent : string; wh_AgentName : string }.

(** The fields from Inode to NotCommitted, of modified and collapsed records. *)
Record Window := mkWindow {
  wi_Inode : Z; wi_First : Z; wi_Last : Z; wi_Count : Z; wi_Committed : Z; wi_Unknown : Z; wi_NotCommitted : Z }.

Record ARecord := mkARecord {
  a_Seq : Z; a_TS : Z; a_Type : string; a_Unit : Z; a_Outcome : string; a_Reason : string; a_Detail : string;
  a_Who : Who; a_Action : string; a_Projects : list Project; a_Ops : list Op; a_Inodes : list Z; a_Rows : list Row;
  a_Window : Window; a_Dropped : Z; a_Attrs : list AttrChange; a_StartSeq : Z; a_StartPrev : string;
  a_Omitted : Z; a_Digest : string; a_Prev : string }.

Definition noWho : Who := mkWho "" "" "" "" "" "" "".
Definition noWindow : Window := mkWindow 0 0 0 0 0 0 0.

(** The records the writer makes of its own: open, gap and retention. *)
Definition ownRecord (seq ts : Z) (type detail : string) (dropped startSeq : Z) (startPrev : string) : ARecord :=
  mkARecord seq ts type 0 "" "" detail noWho "" [] [] [] [] noWindow dropped [] startSeq startPrev 0 "" "".

Definition setSeqTS (r : ARecord) (seq ts : Z) : ARecord :=
  mkARecord seq ts (a_Type r) (a_Unit r) (a_Outcome r) (a_Reason r) (a_Detail r) (a_Who r) (a_Action r) (a_Projects r)
    (a_Ops r) (a_Inodes r) (a_Rows r) (a_Window r) (a_Dropped r) (a_Attrs r) (a_StartSeq r) (a_StartPrev r)
    (a_Omitted r) (a_Digest r) (a_Prev r).
Definition setPrev (r : ARecord) (prev : string) : ARecord :=
  mkARecord (a_Seq r) (a_TS r) (a_Type r) (a_Unit r) (a_Outcome r) (a_Reason r) (a_Detail r) (a_Who r) (a_Action r)
    (a_Projects r) (a_Ops r) (a_Inodes r) (a_Rows r) (a_Window r) (a_Dropped r) (a_Attrs r) (a_StartSeq r)
    (a_StartPrev r) (a_Omitted r) (a_Digest r) prev.
Definition setStart (r : ARecord) (startSeq : Z) (startPrev detail : string) : ARecord :=
  mkARecord (a_Seq r) (a_TS r) (a_Type r) (a_Unit r) (a_Outcome r) (a_Reason r) detail (a_Who r) (a_Action r)
    (a_Projects r) (a_Ops r) (a_Inodes r) (a_Rows r) (a_Window r) (a_Dropped r) (a_Attrs r) startSeq
    startPrev (a_Omitted r) (a_Digest r) (a_Prev r).

(** ** Encoding: the JSON tags of the structs *)
Definition jU (n : Z) : option jvalue := Some (JNum (FormatUint n)).
Definition jI (n : Z) : option jvalue := Some (JNum (FormatInt n)).
Definition jS (s : string) : option jvalue := Some (JStr s).
Definition oU (n : Z) : option jvalue := if n =? 0 then None else jU n.
Definition oI (n : Z) : option jvalue := if n =? 0 then None else jI n.
Definition oS (s : string) : option jvalue := if s =s "" then None else jS s.
Definition oB (b : bool) : option jvalue := if b then Some (JBool true) else None.
Definition oL {A} (f : A -> jvalue) (l : list A) : option jvalue :=
  match l with [] => None | _ => Some (JArr (map f l)) end.

(** The members of a struct that omitempty leaves. *)
Definition present (l : list (string * option jvalue)) : list (string * jvalue) :=
  omap (fun kv => (fun v => (kv.1, v)) <$> kv.2) l.

Definition projectMembers (p : Project) : list (string * option jvalue) :=
  [("ino", jU (pj_Ino p)); ("path", oS (pj_Path p))].
Definition opMembers (o : Op) : list (string * option jvalue) :=
  [("op", jS (op_Op o)); ("parent", jU (op_Parent o)); ("name", jS (op_Name o)); ("ino", oU (op_Ino o));
   ("dir", oB (op_Dir o)); ("trash", oB (op_Trash o)); ("path", oS (op_Path o))].
Definition rowMembers (w : Row) : list (string * option jvalue) :=
  [("hash", jS (rw_Hash w)); ("ino", jU (rw_Ino w)); ("op", jS (rw_Op w)); ("value", oS (rw_Value w));
   ("path", oS (rw_Path w))].
Definition attrMembers (c : AttrChange) : list (string * option jvalue) :=
  [("ino", jU (ac_Ino c)); ("field", jS (ac_Field c)); ("old", oS (ac_Old c)); ("new", oS (ac_New c))].

Definition recordMembers (r : ARecord) : list (string * option jvalue) :=
  [("seq", jU (a_Seq r)); ("ts_ms", jI (a_TS r)); ("type", jS (a_Type r)); ("unit", oU (a_Unit r));
   ("outcome", oS (a_Outcome r)); ("reason", oS (a_Reason r)); ("detail", oS (a_Detail r));
   ("principal", oS (wh_Principal (a_Who r))); ("kind", oS (wh_Kind (a_Who r))); ("host", oS (wh_Host (a_Who r)));
   ("person", oS (wh_Person (a_Who r))); ("person_name", oS (wh_PersonName (a_Who r)));
   ("agent", oS (wh_Agent (a_Who r))); ("agent_name", oS (wh_AgentName (a_Who r)));
   ("action", oS (a_Action r));
   ("projects", oL (fun p => JObj (present (projectMembers p))) (a_Projects r));
   ("ops", oL (fun o => JObj (present (opMembers o))) (a_Ops r));
   ("inodes", oL (fun i => JNum (FormatUint i)) (a_Inodes r));
   ("rows", oL (fun w => JObj (present (rowMembers w))) (a_Rows r));
   ("inode", oU (wi_Inode (a_Window r))); ("first_ms", oI (wi_First (a_Window r)));
   ("last_ms", oI (wi_Last (a_Window r))); ("count", oI (wi_Count (a_Window r)));
   ("committed", oI (wi_Committed (a_Window r))); ("unknown", oI (wi_Unknown (a_Window r)));
   ("not_committed", oI (wi_NotCommitted (a_Window r))); ("dropped", oU (a_Dropped r));
   ("attrs", oL (fun c => JObj (present (attrMembers c))) (a_Attrs r));
   ("start_seq", oU (a_StartSeq r)); ("start_prev", oS (a_StartPrev r)); ("omitted", oI (a_Omitted r));
   ("digest", oS (a_Digest r)); ("prev", jS (a_Prev r))].

(** json.Marshal of a record. *)
Definition encode (r : ARecord) : string := marshal (JObj (present (recordMembers r))).

(** ** Stubs *)
Definition MaxRecordBytes : Z := 4 * 2^20.

Definition clip (v : string) : string := if 256 <? slen v then stake 256 v else v.

Definition entriesOf (r : ARecord) : Z :=
  Z.of_nat (List.length (a_Ops r) + List.length (a_Rows r) + List.length (a_Inodes r) + List.length (a_Attrs r) + List.length (a_Projects r)).

Definition stubOf (r : ARecord) (line : string) : ARecord :=
  let w := a_Who r in
  mkARecord (a_Seq r) (a_TS r) (a_Type r) (a_Unit r) (a_Outcome r) (clip (a_Reason r))
    ("record not written: it encoded to " +:+ FormatInt (slen line) +:+ " bytes, more than the limit of " +:+ FormatInt MaxRecordBytes)
    (mkWho (clip (wh_Principal w)) (clip (wh_Kind w)) (clip (wh_Host w)) (clip (wh_Person w)) (clip (wh_PersonName w))
       (clip (wh_Agent w)) (clip (wh_AgentName w)))
    (clip (a_Action r)) [] [] [] [] noWindow 0 [] 0 ""
    (Z.max 1 (entriesOf r))
    (clip (a_Digest r)) (a_Prev r).

(** The line writeBatch writes for a record whose Prev is set, and whether it
    is a stub. *)
Definition lineOf (r : ARecord) : string * bool :=
  let line := encode r in
  if MaxRecordBytes <? slen line then (encode (stubOf r line), true) else (line, false).

(** ** Decoding: the fields the readers use *)
Definition projectFields : list (string * kind) := [("ino", KU64); ("path", KStr)].
Definition opFields : list (string * kind) :=
  [("op", KStr); ("parent", KU64); ("name", KStr); ("ino", KU64); ("dir", KBool); ("trash", KBool); ("path", KStr)].
Definition rowFields : list (string * kind) :=
  [("hash", KStr); ("ino", KU64); ("op", KStr); ("value", KStr); ("path", KStr)].
Definition attrFields : list (string * kind) := [("ino", KU64); ("field", KStr); ("old", KStr); ("new", KStr)].

Definition recordFields : list (string * kind) :=
  [("seq", KU64); ("ts_ms", KI64); ("type", KStr); ("unit", KU64); ("outcome", KStr); ("reason", KStr); ("detail", KStr);
   ("principal", KStr); ("kind", KStr); ("host", KStr); ("person", KStr); ("person_name", KStr); ("agent", KStr);
   ("agent_name", KStr); ("action", KStr); ("projects", KArr (KObj projectFields)); ("ops", KArr (KObj opFields));
   ("inodes", KArr KU64); ("rows", KArr (KObj rowFields)); ("inode", KU64); ("first_ms", KI64); ("last_ms", KI64);
   ("count", KI64); ("committed", KI64); ("unknown", KI64); ("not_committed", KI64); ("dropped", KU64);
   ("attrs", KArr (KObj attrFields)); ("start_seq", KU64); ("start_prev", KStr); ("omitted", KI64); ("digest", KStr);
   ("prev", KStr)].

(** The fields of a Record that chainCheck.line and firstRecord read. *)
Record Hdr := mkHdr {
  h_Seq : Z; h_TS : Z; h_Type : string; h_Detail : string; h_StartSeq : Z; h_StartPrev : string; h_Prev : string }.

(** json.Unmarshal into a Record; [None]: the line is not a record. *)
Definition readHdr (line : string) : option Hdr :=
  match parse line with
  | Some JNull => Some (mkHdr 0 0 "" "" 0 "" "")
  | Some (JObj l) =>
    if fits (KObj recordFields) (JObj l) then
      let get f := lastOf recordFields f l in
      Some (mkHdr (u64Of (get "seq")) (i64Of (get "ts_ms")) (strOf (get "type")) (strOf (get "detail"))
              (u64Of (get "start_seq")) (strOf (get "start_prev")) (strOf (get "prev")))
    else None
  | _ => None
  end.

(** json.Unmarshal into tail's struct, which has only Seq. *)
Definition readSeq (line : string) : option Z :=
  match parse line with
  | Some JNull => Some 0
  | Some (JObj l) =>
    if fits (KObj [("seq", KU64)]) (JObj l) then Some (u64Of (lastOf [("seq", KU64)] "seq" l)) else None
  | _ => None
  end.

(** The hash of a line, as hex.EncodeToString of its SHA-256. *)
Definition lineHash (line : string) : string := sha256_hex line.
Definition zeroHash : string := "0000000000000000000000000000000000000000000000000000000000000000".

(** ** Reading back what was written *)

(** The integers of a record are in the range of their Go types, and so is the
    number of its entries. *)
Definition okRecord (r : ARecord) : Prop :=
  Forall is_u64 (a_Seq r :: a_Unit r :: wi_Inode (a_Window r) :: a_Dropped r :: a_StartSeq r :: a_Inodes r) /\
  Forall is_i64 [a_TS r; wi_First (a_Window r); wi_Last (a_Window r); wi_Count (a_Window r); wi_Committed (a_Window r);
    wi_Unknown (a_Window r); wi_NotCommitted (a_Window r); a_Omitted r] /\
  Forall (fun p => is_u64 (pj_Ino p)) (a_Projects r) /\
  Forall (fun o => is_u64 (op_Parent o) /\ is_u64 (op_Ino o)) (a_Ops r) /\
  Forall (fun w => is_u64 (rw_Ino w)) (a_Rows r) /\
  Forall (fun c => is_u64 (ac_Ino c)) (a_Attrs r) /\
  is_i64 (entriesOf r).

(** A member with the kind of its field: its name is the field's, it prints
    well, it is shallow and it decodes. *)
Definition okMember (d : nat) (fs : list (string * kind)) (kv : string * option jvalue) : Prop :=
  clean kv.1 = kv.1 /\
  exists k, fieldNamed fs kv.1 = Some (kv.1, k) /\
    forall v, kv.2 = Some v -> okJ v /\ (depth v <= d)%nat /\ fits k (cleanJ v) = true /\ cleanJ v <> JNull.

Lemma okMember_intro d fs name o k : clean name = name -> fieldNamed fs name = Some (name, k) ->
  (forall v, o = Some v -> okJ v /\ (depth v <= d)%nat /\ fits k (cleanJ v) = true /\ cleanJ v <> JNull) -> okMember d fs (name, o).
Proof. intros H1 H2 H3. split; [done |]. exists k. by split. Qed.

Lemma okU d n v : is_u64 n -> jU n = Some v -> okJ v /\ (depth v <= d)%nat /\ fits KU64 (cleanJ v) = true /\ cleanJ v <> JNull.
Proof. intros Hn [= <-]. split; [auto with json |]. split; [cbn; lia |]. cbn. by rewrite ParseUint_FormatUint. Qed.
Lemma okI d n v : is_i64 n -> jI n = Some v -> okJ v /\ (depth v <= d)%nat /\ fits KI64 (cleanJ v) = true /\ cleanJ v <> JNull.
Proof. intros Hn [= <-]. split; [auto with json |]. split; [cbn; lia |]. cbn. by rewrite ParseInt_FormatInt. Qed.
Lemma okS d s v : jS s = Some v -> okJ v /\ (depth v <= d)%nat /\ fits KStr (cleanJ v) = true /\ cleanJ v <> JNull.
Proof. intros [= <-]. split; [auto with json |]. cbn. split; [lia | done]. Qed.

Lemma ok_oU d n v : is_u64 n -> oU n = Some v -> okJ v /\ (depth v <= d)%nat /\ fits KU64 (cleanJ v) = true /\ cleanJ v <> JNull.
Proof. unfold oU. case_match; [done |]. apply okU. Qed.
Lemma ok_oI d n v : is_i64 n -> oI n = Some v -> okJ v /\ (depth v <= d)%nat /\ fits KI64 (cleanJ v) = true /\ cleanJ v <> JNull.
Proof. unfold oI. case_match; [done |]. apply okI. Qed.
Lemma ok_oS d s v : oS s = Some v -> okJ v /\ (depth v <= d)%nat /\ fits KStr (cleanJ v) = true /\ cleanJ v <> JNull.
Proof. unfold oS. case_match; [done |]. apply okS. Qed.
Lemma ok_oB d b v : oB b = Some v -> okJ v /\ (depth v <= d)%nat /\ fits KBool (cleanJ v) = true /\ cleanJ v <> JNull.
Proof. destruct b; [| done]. intros [= <-]. split; [auto with json |]. cbn. split; [lia | done]. Qed.

Lemma ok_oL {A} (f : A -> jvalue) d k l v :
  Forall (fun x => okJ (f x) /\ (depth (f x) <= d)%nat /\ fits k (cleanJ (f x)) = true) l ->
  oL f l = Some v -> okJ v /\ (depth v <= S d)%nat /\ fits (KArr k) (cleanJ v) = true /\ cleanJ v <> JNull.
Proof.
  intros Hl. unfold oL. destruct l as [| x l]; [done |]. intros [= <-]. rewrite <- map_cons'.
  assert (Hl' := Hl). rewrite Forall_forall in Hl'. split; [| split; [| split; [| done]]].
  - constructor. apply Forall_map. eapply Forall_impl; [exact Hl |]. by intros ? [].
  - cbn [depth]. apply le_n_S, list_max_le, Forall_map, Forall_map. eapply Forall_impl; [exact Hl |]. by intros ? (? & ? & ?).
  - cbn [cleanJ fits]. rewrite forallb_forall. intros y (z & <- & (u & <- & Hu)%in_map_iff)%in_map_iff.
    apply Hl'. by apply list_elem_of_In.
Qed.

(** The members of a struct print well and decode into its fields. *)
Lemma present_ok d fs m : Forall (okMember d fs) m ->
  okJ (JObj (present m)) /\ (depth (JObj (present m)) <= S d)%nat /\ fits (KObj fs) (cleanJ (JObj (present m))) = true.
Proof.
  intros Hm. assert (Hp : Forall (fun kv => okMember d fs (kv.1, Some kv.2)) (present m)).
  { induction Hm as [| [k [v |]] m H _ IH]; cbn; [done | by constructor | done]. }
  split; [| split].
  - constructor. eapply Forall_impl; [exact Hp |]. intros kv (_ & k & _ & H). by apply H.
  - cbn [depth]. apply le_n_S, list_max_le, Forall_map. eapply Forall_impl; [exact Hp |]. intros kv (_ & k & _ & H). by apply H.
  - cbn [cleanJ fits]. rewrite forallb_forall. intros [n v] ([n' v'] & [= <- <-] & Hin)%in_map_iff.
    rewrite Forall_forall in Hp. destruct (Hp (n', v')) as (Hc & k & Hf & H); [by apply list_elem_of_In |].
    cbn [fst snd] in *. rewrite Hc, Hf. by apply H.
Qed.

(** The value of member [f]. *)
Definition memberOf (f : string) (m : list (string * option jvalue)) : option jvalue :=
  foldl (fun acc kv => if kv.1 =s f then match kv.2 with Some v => Some (cleanJ v) | None => acc end else acc) None m.

Lemma lastOf_present d fs f m : Forall (okMember d fs) m ->
  lastOf fs f (map (fun kv => (clean kv.1, cleanJ kv.2)) (present m)) = memberOf f m.
Proof.
  intros Hm. unfold lastOf, memberOf. generalize (@None jvalue).
  induction Hm as [| [n [v |]] m (Hc & k & Hf & H) _ IH]; intros acc; cbn [fst snd] in *.
  - done.
  - change (present ((n, Some v) :: m)) with ((n, v) :: present m). rewrite map_cons'. cbn [foldl fst snd].
    rewrite Hc, Hf. cbn [fst]. destruct (H v eq_refl) as (_ & _ & _ & Hn). destruct (n =s f); [| apply IH].
    rewrite <- IH. by destruct (cleanJ v).
  - change (present ((n, None) :: m)) with (present m). rewrite IH. cbn [foldl fst snd]. by destruct (n =s f).
Qed.

Ltac ok_member :=
  eapply okMember_intro; [vm_compute; reflexivity | vm_compute; reflexivity |];
  intros ?; first [apply okS | apply ok_oS | apply ok_oB | apply okU | apply okI | apply ok_oU | apply ok_oI]; try done.

Ltac ok_members := repeat (apply Forall_cons_2; [ok_member |]); apply Forall_nil_2.

Lemma projectMembers_ok p : is_u64 (pj_Ino p) -> Forall (okMember 0 projectFields) (projectMembers p).
Proof. intros. ok_members. Qed.
Lemma opMembers_ok o : is_u64 (op_Parent o) -> is_u64 (op_Ino o) -> Forall (okMember 0 opFields) (opMembers o).
Proof. intros. ok_members. Qed.
Lemma rowMembers_ok w : is_u64 (rw_Ino w) -> Forall (okMember 0 rowFields) (rowMembers w).
Proof. intros. ok_members. Qed.
Lemma attrMembers_ok c : is_u64 (ac_Ino c) -> Forall (okMember 0 attrFields) (attrMembers c).
Proof. intros. ok_members. Qed.

Lemma inodes_ok l : Forall is_u64 l ->
  Forall (fun i => okJ (JNum (FormatUint i)) /\ (depth (JNum (FormatUint i)) <= 1)%nat /\ fits KU64 (cleanJ (JNum (FormatUint i))) = true) l.
Proof. intros Hl. eapply Forall_impl; [exact Hl |]. intros i Hi. destruct (okU 1 i _ Hi eq_refl) as (? & ? & ? & ?). done. Qed.

Lemma recordMembers_ok r : okRecord r -> Forall (okMember 2 recordFields) (recordMembers r).
Proof.
  intros (Hu & Hi & Hp & Ho & Hw & Hc & _). rewrite !Forall_cons in Hu. rewrite !Forall_cons in Hi. destruct_and!.
  repeat (apply Forall_cons_2; [first
    [ by ok_member
    | eapply okMember_intro; [vm_compute; reflexivity | vm_compute; reflexivity |]; intros ?; apply ok_oL ] |]);
    try apply Forall_nil_2; try by apply inodes_ok.
  - eapply Forall_impl; [exact Hp |]. intros. by apply present_ok, projectMembers_ok.
  - eapply Forall_impl; [exact Ho |]. intros ? []. by apply present_ok, opMembers_ok.
  - eapply Forall_impl; [exact Hw |]. intros. by apply present_ok, rowMembers_ok.
  - eapply Forall_impl; [exact Hc |]. intros. by apply present_ok, attrMembers_ok.
Qed.

(** A line is one line. *)
Lemma encode_LF r : okRecord r -> IndexByte (encode r) LF = None.
Proof. intros Hr. apply marshal_LF. by apply (present_ok 2 recordFields), recordMembers_ok. Qed.

Lemma parse_encode r : okRecord r ->
  parse (encode r) = Some (JObj (map (fun kv => (clean kv.1, cleanJ kv.2)) (present (recordMembers r)))).
Proof.
  intros Hr. destruct (present_ok 2 recordFields _ (recordMembers_ok r Hr)) as (Ho & Hd & _).
  unfold encode. rewrite parse_marshal; [done | done |]. etrans; [exact Hd |]. by apply Nat.leb_le.
Qed.

Lemma u64Of_oU n : is_u64 n -> u64Of (cleanJ <$> oU n) = n.
Proof. intros Hn. unfold oU. destruct (Z.eqb_spec n 0) as [-> |]; [done |]. cbn. by rewrite ParseUint_FormatUint. Qed.
Lemma strOf_oS s : strOf (cleanJ <$> oS s) = clean s.
Proof. unfold oS. destruct (s =s "") eqn:E; [apply eqs_true in E as -> | ]; done. Qed.

(** What a reader finds in a line is what the writer encoded. *)
Theorem readHdr_encode r : okRecord r ->
  readHdr (encode r) = Some (mkHdr (a_Seq r) (a_TS r) (clean (a_Type r)) (clean (a_Detail r)) (a_StartSeq r)
    (clean (a_StartPrev r)) (clean (a_Prev r))).
Proof.
  intros Hr. pose proof (recordMembers_ok r Hr) as Hm. unfold readHdr. rewrite (parse_encode r Hr).
  destruct (present_ok _ _ _ Hm) as (_ & _ & Hf). cbn [cleanJ] in Hf. rewrite Hf.
  destruct Hr as (Hu & Hi & _). rewrite !Forall_cons in Hu. rewrite !Forall_cons in Hi. destruct_and!.
  rewrite !(lastOf_present _ _ _ _ Hm).
  change (memberOf "seq" (recordMembers r)) with (cleanJ <$> jU (a_Seq r)).
  change (memberOf "ts_ms" (recordMembers r)) with (cleanJ <$> jI (a_TS r)).
  change (memberOf "type" (recordMembers r)) with (cleanJ <$> jS (a_Type r)).
  change (memberOf "detail" (recordMembers r)) with (cleanJ <$> oS (a_Detail r)).
  change (memberOf "start_seq" (recordMembers r)) with (cleanJ <$> oU (a_StartSeq r)).
  change (memberOf "start_prev" (recordMembers r)) with (cleanJ <$> oS (a_StartPrev r)).
  change (memberOf "prev" (recordMembers r)) with (cleanJ <$> jS (a_Prev r)).
  rewrite u64Of_oU, !strOf_oS by done. cbn. by rewrite ParseUint_FormatUint, ParseInt_FormatInt by done.
Qed.

(** ** tail reads the same seq as the readers of whole records *)
Lemma fieldNamed_spec {A} (fs : list (string * A)) k f : fieldNamed fs k = Some f -> In f fs /\ foldName f.1 = foldName k.
Proof.
  unfold fieldNamed. destruct (List.find _ fs) eqn:E; [intros [= <-] | clear E; intros E]; apply find_some in E as [Hin H%eqs_true];
    split; try done. by rewrite H.
Qed.

Lemma fieldNamed_fold {A} (fs : list (string * A)) k : fieldNamed fs k = None -> forall f, In f fs -> foldName f.1 <> foldName k.
Proof.
  unfold fieldNamed. destruct (List.find _ fs); [done |]. intros H f Hin Hf.
  pose proof (find_none _ _ H f Hin) as Hn. cbn in Hn. by apply eqs_false in Hn.
Qed.

Lemma recordFields_seq f : In f recordFields -> foldName f.1 = "SEQ" -> f = ("seq", KU64).
Proof. unfold recordFields. intros H. repeat (destruct H as [<- | H]; [by intros H; vm_compute in H |]). done. Qed.

Lemma fieldNamed_seq k :
  (fieldNamed recordFields k = Some ("seq", KU64) /\ fieldNamed [("seq", KU64)] k = Some ("seq", KU64)) \/
  ((forall f, fieldNamed recordFields k = Some f -> f.1 <> "seq") /\ fieldNamed [("seq", KU64)] k = None).
Proof.
  destruct (fieldNamed [("seq", KU64)] k) as [f |] eqn:E.
  - left. apply fieldNamed_spec in E as [[<- | []] Hf]. split; [| done].
    destruct (fieldNamed recordFields k) as [g |] eqn:G.
    + apply fieldNamed_spec in G as [Hin Hg]. f_equal. apply recordFields_seq; [done |]. by rewrite Hg, <- Hf.
    + exfalso. by apply (fieldNamed_fold _ _ G ("seq", KU64)); [left |].
  - right. split; [| done]. intros f Hf Hs. apply fieldNamed_spec in Hf as [_ Hf]. rewrite Hs in Hf.
    by apply (fieldNamed_fold _ _ E ("seq", KU64)); [left |].
Qed.

Lemma lastOf_seq l : lastOf [("seq", KU64)] "seq" l = lastOf recordFields "seq" l.
Proof.
  unfold lastOf. generalize (@None jvalue). induction l as [| [k v] l IH]; intros acc; [done |].
  cbn [foldl fst snd]. destruct (fieldNamed_seq k) as [[-> ->] | [Hr ->]]; [apply IH |].
  rewrite IH. f_equal. destruct (fieldNamed recordFields k) as [f |]; [| done].
  specialize (Hr f eq_refl). by apply eqs_false in Hr as ->.
Qed.

Theorem readSeq_readHdr line h : readHdr line = Some h -> readSeq line = Some (h_Seq h).
Proof.
  unfold readHdr, readSeq. destruct (parse line) as [[| | | | | l] |]; try done; [by intros [= <-] |].
  destruct (fits (KObj recordFields) (JObj l)) eqn:Ef; [| done]. intros [= <-]. cbn [h_Seq]. rewrite lastOf_seq.
  enough (fits (KObj [("seq", KU64)]) (JObj l) = true) as -> by done.
  cbn [fits] in *. rewrite forallb_forall in *. intros [k v] Hin. specialize (Ef _ Hin). cbn [fst snd] in *.
  destruct (fieldNamed_seq k) as [[Hk ->] | [_ ->]]; [| done]. by rewrite Hk in Ef.
Qed.
