(* ===== verification/AuditRead.v ===== *)
(** * Readers of the audit log (auditlog/read.go)

    The files of the log, their lines, the check of the chain with and without
    the Manager's anchors ([VerifyAnchors], [Follow]), and the checks of
    retention records.  The directory is the list of its segments in the order
    of their first seq, which is the order [segments] lists them in; a problem
    a report names is a constructor instead of a text. *)

From S2P Require Import Prelude GoLib AuditRecord.
From Stdlib Require Import String.
Local Open Scope string_scope.
Local Open Scope Z_scope.
Local Open Scope go_scope.

(** ** Files *)
Record Segment := mkSegment { sg_first : Z; sg_data : string }.

(** audit-<first seq>.jsonl, with the seq in 20 digits. *)
Fixpoint zeros (n : nat) : string := match n with O => "" | S m => String "0" (zeros m) end.
Definition segName (first : Z) : string :=
  let s := FormatUint first in "audit-" +:+ zeros (20 - String.length s) +:+ s +:+ ".jsonl".

(** The lines of a file that end in a newline, without it, and what follows
    the last newline. *)
Fixpoint splitLines (s : string) : list string * string :=
  match s with
  | "" => ([], "")
  | String c r =>
    let '(ls, t) := splitLines r in
    if Ascii.eqb c LF then ("" :: ls, t) else
    match ls with
    | [] => ([], String c t)
    | l :: ls' => (String c l :: ls', t)
    end
  end.
Definition linesOf (data : string) : list string := (splitLines data).1.
Definition tornOf (data : string) : string := (splitLines data).2.

(** The lines of the log. *)
Definition dirLines (d : list Segment) : list string := List.concat (map (fun sg => linesOf (sg_data sg)) d).

(** ** scanLines *)

(** The reader's buffer is 1 MiB; a line is collected while at most maxLine
    bytes of it were read, so the newline must be among the first 17 MiB. *)
Definition maxLine : Z := 16 * 2^20.
Definition tooLong (line : string) : bool := maxLine + 2^20 <=? slen line.

Inductive scanEnd := ScanEOF | ScanStop | ScanErr.

(** [fn] gets the offset and the line; [false] is errStop. *)
Fixpoint scanGo {S} (fn : S -> Z -> string -> S * bool) (s : S) (off : Z) (ls : list string) (torn : string) : S * scanEnd :=
  match ls with
  | [] => (s, if tooLong torn then ScanErr else ScanEOF)
  | l :: ls' =>
    if tooLong l then (s, ScanErr) else
    let '(s1, go) := fn s off l in
    if go then scanGo fn s1 (off + slen l + 1) ls' torn else (s1, ScanStop)
  end.
Definition scanLines {S} (fn : S -> Z -> string -> S * bool) (s : S) (data : string) (start : Z) : S * scanEnd :=
  let '(ls, torn) := splitLines (sdrop (Z.to_nat start) data) in scanGo fn s start ls torn.

(** ** Reports *)
Record Anchor := mkAnchor { an_Seq : Z; an_Hash : string; an_Segment : Z; an_Offset : Z; an_End : Z; an_TS : Z }.
Definition noAnchor : Anchor := mkAnchor 0 "" 0 0 0 0.

Record RetentionRec := mkRetentionRec { rt_Seq : Z; rt_TS : Z; rt_StartSeq : Z; rt_StartPrev : string; rt_Detail : string }.

Inductive problem :=
  | NotARecord (seg n : Z)
  | ChainBroken (seg n seq : Z)
  | SeqOrder (seg n seq : Z)
  | AnchorMismatch (seg n seq : Z)
  | UnnamedStart (seq : Z)
  | TailRemoved (seq : Z)
  | AnchorsMissing (n : Z)
  | AnchorGone (seq : Z).

Record Report := mkReport {
  rp_OK : bool; rp_Records : Z; rp_Segments : Z; rp_LastSeq : Z; rp_Head : string; rp_StartSeq : Z; rp_Anchors : Z;
  rp_Retentions : list RetentionRec; rp_Problem : option problem; rp_BadSeq : Z }.
Definition emptyReport (segs : Z) : Report := mkReport false 0 segs 0 "" 0 0 [] None 0.

Definition rp_start (r : Report) (seq : Z) : Report :=
  mkReport (rp_OK r) (rp_Records r) (rp_Segments r) (rp_LastSeq r) (rp_Head r) seq (rp_Anchors r) (rp_Retentions r)
    (rp_Problem r) (rp_BadSeq r).
Definition rp_problem (r : Report) (p : problem) (bad : Z) : Report :=
  mkReport (rp_OK r) (rp_Records r) (rp_Segments r) (rp_LastSeq r) (rp_Head r) (rp_StartSeq r) (rp_Anchors r)
    (rp_Retentions r) (Some p) bad.
Definition rp_line (r : Report) (rets : list RetentionRec) : Report :=
  mkReport (rp_OK r) (rp_Records r + 1) (rp_Segments r) (rp_LastSeq r) (rp_Head r) (rp_StartSeq r) (rp_Anchors r)
    rets (rp_Problem r) (rp_BadSeq r).
Definition rp_anchors (r : Report) (n : Z) : Report :=
  mkReport (rp_OK r) (rp_Records r) (rp_Segments r) (rp_LastSeq r) (rp_Head r) (rp_StartSeq r) n
    (rp_Retentions r) (rp_Problem r) (rp_BadSeq r).
Definition rp_ok (r : Report) (last : Z) (head : string) : Report :=
  mkReport true (rp_Records r) (rp_Segments r) last head (rp_StartSeq r) (rp_Anchors r) (rp_Retentions r)
    (rp_Problem r) (rp_BadSeq r).

Definition maxRetentions : nat := 64.

(** ** The check of the chain *)
Record chainCheck := mkChainCheck {
  cc_rep : Report; cc_prev : string; cc_lastSeq : Z; cc_started : bool; cc_startPrev : string; cc_retainedOK : bool;
  cc_head : Anchor; cc_bySeq : gmap Z string; cc_anchorsHit : Z }.

Definition cc_problem (c : chainCheck) (p : problem) (bad : Z) : chainCheck :=
  mkChainCheck (rp_problem (cc_rep c) p bad) (cc_prev c) (cc_lastSeq c) (cc_started c) (cc_startPrev c) (cc_retainedOK c)
    (cc_head c) (cc_bySeq c) (cc_anchorsHit c).

(** The first line says where the log starts. *)
Definition cc_begin (c : chainCheck) (r : Hdr) : chainCheck :=
  if cc_started c then c else
  mkChainCheck (rp_start (cc_rep c) (h_Seq r)) (h_Prev r) (cc_lastSeq c) true (h_Prev r) (cc_retainedOK c)
    (cc_head c) (cc_bySeq c) (cc_anchorsHit c).

(** The rest of chainCheck.line, for a line whose hash is [h] and that no
    anchor contradicts. *)
Definition cc_accept (c : chainCheck) (seg off : Z) (line h : string) (r : Hdr) : chainCheck :=
  let rep := cc_rep c in
  let isRet := h_Type r =s TypeRetention in
  let rets :=
    if isRet then
      ((if (List.length (rp_Retentions rep) =? maxRetentions)%nat then drop 1 (rp_Retentions rep) else rp_Retentions rep)
        ++ [mkRetentionRec (h_Seq r) (h_TS r) (h_StartSeq r) (h_StartPrev r) (h_Detail r)])%list
    else rp_Retentions rep in
  mkChainCheck (rp_line rep rets) h (h_Seq r) (cc_started c) (cc_startPrev c)
    (cc_retainedOK c || (isRet && (h_StartSeq r =? rp_StartSeq rep) && (h_StartPrev r =s cc_startPrev c)))
    (mkAnchor (h_Seq r) h seg off (off + slen line + 1) 0) (cc_bySeq c)
    (cc_anchorsHit c + if bool_decide (is_Some (cc_bySeq c !! h_Seq r)) then 1 else 0).

Definition cc_line (seg n : Z) (c : chainCheck) (off : Z) (line : string) : chainCheck * bool :=
  match readHdr line with
  | None => (cc_problem c (NotARecord seg n) (rp_BadSeq (cc_rep c)), false)
  | Some r =>
    let c := cc_begin c r in
    if negb (h_Prev r =s cc_prev c) then (cc_problem c (ChainBroken seg n (h_Seq r)) (h_Seq r), false) else
    if negb (cc_lastSeq c =? 0) && (h_Seq r <=? cc_lastSeq c) then (cc_problem c (SeqOrder seg n (h_Seq r)) (h_Seq r), false) else
    let h := lineHash line in
    match cc_bySeq c !! h_Seq r with
    | Some want =>
      if negb (want =s h) then (cc_problem c (AnchorMismatch seg n (h_Seq r)) (h_Seq r), false)
      else (cc_accept c seg off line h r, true)
    | None => (cc_accept c seg off line h r, true)
    end
  end.

(** The closure given to scanLines counts the lines of its segment. *)
Definition cc_fn (seg : Z) (s : chainCheck * Z) (off : Z) (line : string) : (chainCheck * Z) * bool :=
  let n := s.2 + 1 in let '(c, go) := cc_line seg n s.1 off line in ((c, n), go).

(** The loop over the segments, from offset [start] in the first of them. *)
Fixpoint cc_segs (c : chainCheck) (start : Z) (segs : list Segment) : chainCheck * scanEnd :=
  match segs with
  | [] => (c, ScanEOF)
  | sg :: segs' =>
    match scanLines (cc_fn (sg_first sg)) (c, 0) (sg_data sg) start with
    | ((c1, _), ScanEOF) => cc_segs c1 0 segs'
    | ((c1, _), e) => (c1, e)
    end
  end.

Definition anchorMap (anchors : list Anchor) : gmap Z string :=
  foldl (fun m a => <[an_Seq a := an_Hash a]> m) ∅ anchors.

(** The loop over the anchors after the chain was read: the first one past
    the end of the log, or how many the log should have. *)
Fixpoint countAnchors (start last n : Z) (anchors : list Anchor) : result (Anchor * Z) Z :=
  match anchors with
  | [] => Ok n
  | a :: l =>
    if last <? an_Seq a then Err (a, n) else countAnchors start last (if start <=? an_Seq a then n + 1 else n) l
  end.

(** The report, the head of the log, and whether every file could be read. *)
Definition VerifyAnchors (d : list Segment) (anchors : list Anchor) : Report * Anchor * bool :=
  let c0 := mkChainCheck (emptyReport (Z.of_nat (List.length d))) zeroHash 0 false "" false noAnchor (anchorMap anchors) 0 in
  match cc_segs c0 0 d with
  | (c, ScanErr) => (cc_rep c, cc_head c, false)
  | (c, ScanStop) => (cc_rep c, cc_head c, true)
  | (c, ScanEOF) =>
    let rep := cc_rep c in
    if cc_started c && negb (cc_startPrev c =s zeroHash) && negb (cc_retainedOK c)
    then (rp_problem rep (UnnamedStart (rp_StartSeq rep)) (rp_StartSeq rep), cc_head c, true) else
    match countAnchors (rp_StartSeq rep) (cc_lastSeq c) 0 anchors with
    | Err (a, n) => (rp_problem (rp_anchors rep n) (TailRemoved (an_Seq a)) (an_Seq a), cc_head c, true)
    | Ok n =>
      let rep := rp_anchors rep n in
      if negb (n =? cc_anchorsHit c) then (rp_problem rep (AnchorsMissing (n - cc_anchorsHit c)) (rp_BadSeq rep), cc_head c, true) else
      (rp_ok rep (cc_lastSeq c) (if 0 <? rp_Records rep then cc_prev c else rp_Head rep), cc_head c, true)
    end
  end.

Definition Verify (d : list Segment) : Report * bool := let '(r, _, e) := VerifyAnchors d [] in (r, e).

(** ** Follow

    From an anchor to the head.  [maxSeq] is the durable seq of the writer. *)
Definition fo_fn (seg maxSeq : Z) (s : (chainCheck * Z) * Anchor) (off : Z) (line : string) : ((chainCheck * Z) * Anchor) * bool :=
  let '((c, n), head) := s in
  let '(c1, go) := cc_line seg (n + 1) c off line in
  (((c1, n + 1), if go && ((maxSeq =? 0) || (an_Seq (cc_head c1) <=? maxSeq)) then cc_head c1 else head), go).

Fixpoint fo_segs (maxSeq : Z) (c : chainCheck) (head : Anchor) (start : Z) (segs : list Segment) : chainCheck * Anchor * scanEnd :=
  match segs with
  | [] => (c, head, ScanEOF)
  | sg :: segs' =>
    match scanLines (fo_fn (sg_first sg) maxSeq) ((c, 0), head) (sg_data sg) start with
    | (((c1, _), head1), ScanEOF) => fo_segs maxSeq c1 head1 0 segs'
    | (((c1, _), head1), e) => (c1, head1, e)
    end
  end.

(** The segments from the one with the anchor's name on. *)
Fixpoint fromSegment (first : Z) (d : list Segment) : list Segment :=
  match d with
  | [] => []
  | sg :: d' => if sg_first sg =? first then d else fromSegment first d'
  end.

Definition TrimNewline (s : string) : string :=
  if bool_decide (byte_at s (String.length s - 1) = Some LF) then stake (String.length s - 1) s else s.

(** The head, the report and whether there was no error. *)
Definition Follow (d : list Segment) (a : Anchor) (maxSeq : Z) : Anchor * Report * bool :=
  let rep := emptyReport (Z.of_nat (List.length d)) in
  match fromSegment (an_Segment a) d with
  | [] =>
    let '(r, head, ok) := VerifyAnchors d [a] in
    (if negb (maxSeq =? 0) && (maxSeq <? an_Seq head) then a else head, r, ok)
  | (sg :: _) as segs =>
    if (an_End a <=? an_Offset a) || (maxLine + 1 <? an_End a - an_Offset a) then (a, rep, false) else
    let buf := sub (sg_data sg) (Z.to_nat (an_Offset a)) (Z.to_nat (an_End a)) in
    if (an_Offset a <? 0) || (slen (sg_data sg) <? an_End a) || negb (bool_decide (byte_at buf (String.length buf - 1) = Some LF))
       || negb (lineHash (TrimNewline buf) =s an_Hash a)
    then (a, rp_problem rep (AnchorGone (an_Seq a)) (an_Seq a), true) else
    let c0 := mkChainCheck rep (an_Hash a) (an_Seq a) true "" false a ∅ 0 in
    match fo_segs maxSeq c0 a (an_End a) segs with
    | (c, _, ScanErr) => (a, cc_rep c, false)
    | (c, _, ScanStop) => (a, cc_rep c, true)
    | (c, head, ScanEOF) => (head, rp_ok (cc_rep c) (cc_lastSeq c) (cc_prev c), true)
    end
  end.

(** ** Retention records against the policy and the anchors *)
Record RetPolicy := mkRetPolicy { po_RetainBytes : Z; po_RetainAge : Z; po_SegmentBytes : Z }.
Definition retentionSlack : Z := 120 * 10^9.

(** [now] and the age are in nanoseconds; [None]: the removal fits.  The list of
    reasons is what the message joins. *)
Inductive misfit := NoLimit | FarBelowSize (kept : Z) | WithinAge (seq after : Z).

Fixpoint keptBytes (start : Z) (d : list Segment) (kept seg : Z) : Z * Z :=
  match d with
  | [] => (kept, seg)
  | sg :: d' =>
    if start <=? sg_first sg then keptBytes start d' (kept + slen (sg_data sg)) (Z.max seg (slen (sg_data sg)))
    else keptBytes start d' kept seg
  end.

Fixpoint insertAnchor (a : Anchor) (l : list Anchor) : list Anchor :=
  match l with
  | [] => [a]
  | b :: l' => if an_Seq a <? an_Seq b then a :: l else b :: insertAnchor a l'
  end.
Definition sortAnchors (l : list Anchor) : list Anchor := foldl (fun acc a => insertAnchor a acc) [] l.

(** The last two anchors before the start, the older one first. *)
Definition removedAnchors (start : Z) (sorted : list Anchor) : option (Anchor * Anchor) :=
  match rev (List.filter (fun a => an_Seq a <? start) sorted) with
  | b :: a :: _ => Some (a, b)
  | _ => None
  end.

Definition CheckRetention (d : list Segment) (r : RetentionRec) (anchors : list Anchor) (p : RetPolicy) (now : Z) : option (list misfit) :=
  let why0 := if (po_RetainBytes p <=? 0) && (po_RetainAge p <=? 0) then [NoLimit] else [] in
  let size :=
    if 0 <? po_RetainBytes p then
      let '(kept, seg) := keptBytes (rt_StartSeq r) d 0 (if po_SegmentBytes p <=? 0 then 64 * 2^20 else po_SegmentBytes p) in
      if po_RetainBytes p <? kept + 2 * seg then None else Some [FarBelowSize kept]
    else Some [] in
  match size with
  | None => None
  | Some why1 =>
    if 0 <? po_RetainAge p then
      match removedAnchors (rt_StartSeq r) (sortAnchors anchors) with
      | None => None
      | Some (a, b) =>
        if po_RetainAge p - retentionSlack <? now - an_TS a * 10^6 then None
        else Some (why0 ++ why1 ++ [WithinAge (an_Seq b) (an_TS a)])%list
      end
    else Some (why0 ++ why1)%list
  end.

(** A retention record the Manager saw, and whether it had a problem. *)
Definition Uncovered (anchors : list Anchor) (start : Z) (seen : list (RetentionRec * bool)) : list Anchor :=
  List.filter (fun a =>
    (an_Seq a <? start) &&
    negb (existsb (fun s => negb s.2 && (an_Seq a <? rt_StartSeq s.1) && (rt_StartSeq s.1 <=? start)) seen)) anchors.

(** firstRecord: the first line of a segment. *)
Definition firstRecord (sg : Segment) : option (Z * string) :=
  match linesOf (sg_data sg) with
  | [] => None
  | l :: _ => if tooLong l then None else match readHdr l with Some r => Some (h_Seq r, h_Prev r) | None => None end
  end.

(** tail: the hash and the largest seq of the complete lines of a segment,
    how many there are, where the last one ends and the size of the file. *)
Definition tail (sg : Segment) : string * Z * Z * Z * Z :=
  let ls := linesOf (sg_data sg) in
  let hash := match last ls with Some l => lineHash l | None => "" end in
  let seq := foldl (fun m l => match readSeq l with Some n => Z.max m n | None => m end) 0 ls in
  (hash, seq, Z.of_nat (List.length ls), slen (sg_data sg) - slen (tornOf (sg_data sg)), slen (sg_data sg)).
