(* ===== verification/AuditWriter.v ===== *)
(** * The writer of the audit log (auditlog/auditlog.go, maintain.go)

    Append, AppendDurable, Sync, the batches of the writer goroutine with
    rotation, failure, recovery and retention.  A function per critical section
    of [mu] and per file operation; the results of file operations (errors, how
    much of a failed write stays in the file, how many files a removal removed)
    are arguments.  The goroutine's program counter and the steps are at the
    end. *)

From S2P Require Import Prelude GoLib AuditRecord AuditRead.
From Stdlib Require Import String.
Local Open Scope string_scope.
Local Open Scope Z_scope.
Local Open Scope go_scope.

(** ** State *)
(** [o_AgeText] is RetainAge.String(). *)
Record Options := mkOptions {
  o_SegmentBytes : Z; o_QueueLen : Z; o_RetainBytes : Z; o_RetainAge : Z; o_AgeText : string }.

Inductive aerr := ErrUnavailable | ErrQueueFull | ErrClosed | ErrTimeout | ErrInactive | ErrTooLarge.
#[export] Instance aerr_eq_dec : EqDecision aerr.
Proof. solve_decision. Defined.

(** Where a record in the writer's hands comes from.  Only [Carried] is a
    field of the code (carried); the others say which statement made it. *)
Inductive source := Appended | Announced | Gap | Carried.
#[export] Instance source_eq_dec : EqDecision source.
Proof. solve_decision. Defined.

Record Entry := mkEntry { e_rec : ARecord; e_src : source }.
Definition e_seq (e : Entry) : Z := a_Seq (e_rec e).
Definition carried (e : Entry) : bool := bool_decide (e_src e = Carried).

(** The fields st and tooLarge of a record, by its seq. *)
Inductive recState := StDurable | StLost.
#[export] Instance recState_eq_dec : EqDecision recState.
Proof. solve_decision. Defined.

Record Writer := mkWriter {
  w_nextSeq : Z; w_queue : list Entry; w_failed : option string; w_dropped : Z; w_durable : Z;
  w_closed : bool; w_exited : bool; w_active : bool; w_lost : Z; w_removed : Z;
  w_st : gmap Z recState; w_tooLarge : gset Z;
  (* the goroutine's own *)
  w_f : option Z; w_unnamed : option ARecord; w_segSize : Z; w_lastHash : string }.

Definition newWriter : Writer := mkWriter 0 [] None 0 0 false false false 0 0 ∅ ∅ None None 0 "".

Definition set_queue (w : Writer) (q : list Entry) : Writer :=
  mkWriter (w_nextSeq w) q (w_failed w) (w_dropped w) (w_durable w) (w_closed w) (w_exited w) (w_active w) (w_lost w)
    (w_removed w) (w_st w) (w_tooLarge w) (w_f w) (w_unnamed w) (w_segSize w) (w_lastHash w).
Definition set_nextSeq (w : Writer) (n : Z) : Writer :=
  mkWriter n (w_queue w) (w_failed w) (w_dropped w) (w_durable w) (w_closed w) (w_exited w) (w_active w) (w_lost w)
    (w_removed w) (w_st w) (w_tooLarge w) (w_f w) (w_unnamed w) (w_segSize w) (w_lastHash w).
Definition set_failed (w : Writer) (e : option string) : Writer :=
  mkWriter (w_nextSeq w) (w_queue w) e (w_dropped w) (w_durable w) (w_closed w) (w_exited w) (w_active w) (w_lost w)
    (w_removed w) (w_st w) (w_tooLarge w) (w_f w) (w_unnamed w) (w_segSize w) (w_lastHash w).
Definition set_dropped (w : Writer) (n : Z) : Writer :=
  mkWriter (w_nextSeq w) (w_queue w) (w_failed w) n (w_durable w) (w_closed w) (w_exited w) (w_active w) (w_lost w)
    (w_removed w) (w_st w) (w_tooLarge w) (w_f w) (w_unnamed w) (w_segSize w) (w_lastHash w).
Definition set_durable (w : Writer) (n : Z) (st : gmap Z recState) : Writer :=
  mkWriter (w_nextSeq w) (w_queue w) (w_failed w) (w_dropped w) n (w_closed w) (w_exited w) (w_active w) (w_lost w)
    (w_removed w) st (w_tooLarge w) (w_f w) (w_unnamed w) (w_segSize w) (w_lastHash w).
Definition set_life (w : Writer) (closed exited active : bool) : Writer :=
  mkWriter (w_nextSeq w) (w_queue w) (w_failed w) (w_dropped w) (w_durable w) closed exited active (w_lost w)
    (w_removed w) (w_st w) (w_tooLarge w) (w_f w) (w_unnamed w) (w_segSize w) (w_lastHash w).
Definition set_lost (w : Writer) (dropped lost : Z) (st : gmap Z recState) : Writer :=
  mkWriter (w_nextSeq w) (w_queue w) (w_failed w) dropped (w_durable w) (w_closed w) (w_exited w) (w_active w) lost
    (w_removed w) st (w_tooLarge w) (w_f w) (w_unnamed w) (w_segSize w) (w_lastHash w).
Definition set_removed (w : Writer) (n : Z) : Writer :=
  mkWriter (w_nextSeq w) (w_queue w) (w_failed w) (w_dropped w) (w_durable w) (w_closed w) (w_exited w) (w_active w) (w_lost w)
    n (w_st w) (w_tooLarge w) (w_f w) (w_unnamed w) (w_segSize w) (w_lastHash w).
Definition set_file (w : Writer) (f : option Z) (size : Z) (hash : string) : Writer :=
  mkWriter (w_nextSeq w) (w_queue w) (w_failed w) (w_dropped w) (w_durable w) (w_closed w) (w_exited w) (w_active w) (w_lost w)
    (w_removed w) (w_st w) (w_tooLarge w) f (w_unnamed w) size hash.
Definition set_tooLarge (w : Writer) (s : gset Z) : Writer :=
  mkWriter (w_nextSeq w) (w_queue w) (w_failed w) (w_dropped w) (w_durable w) (w_closed w) (w_exited w) (w_active w) (w_lost w)
    (w_removed w) (w_st w) s (w_f w) (w_unnamed w) (w_segSize w) (w_lastHash w).
Definition set_unnamed (w : Writer) (u : option ARecord) : Writer :=
  mkWriter (w_nextSeq w) (w_queue w) (w_failed w) (w_dropped w) (w_durable w) (w_closed w) (w_exited w) (w_active w) (w_lost w)
    (w_removed w) (w_st w) (w_tooLarge w) (w_f w) u (w_segSize w) (w_lastHash w).

Definition closeFile (w : Writer) : Writer := set_file w None (w_segSize w) (w_lastHash w).

(** ** What callers do *)
Definition Append (o : Options) (w : Writer) (r : ARecord) (now : Z) : result aerr Z * Writer :=
  if w_closed w then (Err ErrClosed, w) else
  if negb (w_active w) then (Err ErrInactive, w) else
  if bool_decide (is_Some (w_failed w)) then (Err ErrUnavailable, set_dropped w (w_dropped w + 1)) else
  if o_QueueLen o <=? Z.of_nat (List.length (w_queue w)) then (Err ErrQueueFull, set_dropped w (w_dropped w + 1)) else
  let seq := w_nextSeq w in
  let e := mkEntry (setSeqTS r seq (if a_TS r =? 0 then now else a_TS r)) Appended in
  (Ok seq, set_queue (set_nextSeq w (seq + 1)) (w_queue w ++ [e])%list).

(** AppendDurable after its Append gave [seq]: what it returns in a state in
    which its wait loop ends, [None] while it waits. *)
Definition durableResult (w : Writer) (seq : Z) (expired : bool) : option (Z * option aerr) :=
  match w_st w !! seq with
  | Some StDurable => Some (seq, if bool_decide (seq ∈ w_tooLarge w) then Some ErrTooLarge else None)
  | Some StLost => Some (seq, Some ErrUnavailable)
  | None => if w_exited w then Some (seq, Some ErrClosed) else if expired then Some (seq, Some ErrTimeout) else None
  end.

Definition Healthy (w : Writer) : bool := bool_decide (w_failed w = None) && negb (w_closed w) && w_active w.

(** Sync, in one turn of its loop; [target] is nextSeq - 1 at the call. *)
Definition syncResult (w : Writer) (target : Z) : option (option aerr) :=
  if target <=? w_durable w then Some None else
  if bool_decide (is_Some (w_failed w)) then Some (Some ErrUnavailable) else
  if w_exited w then Some (Some ErrClosed) else None.

Definition Close (w : Writer) : Writer :=
  if w_closed w then w else
  if w_active w then set_life w true (w_exited w) true else set_life w true true false.

(** ** Files *)
Definition extend (first : Z) (data : string) (d : list Segment) : list Segment :=
  map (fun sg => if sg_first sg =? first then mkSegment first (sg_data sg +:+ data) else sg) d.

Fixpoint insertSegment (first : Z) (d : list Segment) : list Segment :=
  match d with
  | [] => [mkSegment first ""]
  | sg :: d' => if first <? sg_first sg then mkSegment first "" :: d else sg :: insertSegment first d'
  end.

Definition hasSegment (first : Z) (d : list Segment) : bool := existsb (fun sg => sg_first sg =? first) d.

(** The results of rotate and of the write with its fsync.  [kept]: the bytes
    of a failed write that stay in the file (the cut back can fail as well). *)
Inductive rotateIO := RotateOK | RotateFail (err : string) (created : bool).
Inductive writeIO := WriteOK | WriteFail (err : string) (kept : nat).

(** The loop of writeBatch: the records with their Prev, their lines, and
    whether a line is a stub. *)
Fixpoint chainLines (h : string) (batch : list Entry) : list (Entry * string * bool) :=
  match batch with
  | [] => []
  | e :: l =>
    let r := setPrev (e_rec e) h in
    let '(line, big) := lineOf r in
    (mkEntry r (e_src e), line, big) :: chainLines (lineHash line) l
  end.
Definition batchLines (h : string) (batch : list Entry) : list string := map (fun x => x.1.2) (chainLines h batch).
Definition lastHashOf (h : string) (ls : list string) : string := match last ls with Some l => lineHash l | None => h end.
Definition joinLines (ls : list string) : string := foldr (fun l acc => l +:+ String LF acc) "" ls.

(** rotate, with the file of the given name created exclusively. *)
Definition rotate (io : rotateIO) (first : Z) (d : list Segment) (w : Writer) : option string * list Segment * Writer :=
  if hasSegment first d then (Some "file exists", d, w) else
  match io with
  | RotateFail err created => (Some err, if created then insertSegment first d else d, w)
  | RotateOK => (None, insertSegment first d, set_file w (Some first) 0 (w_lastHash w))
  end.

(** writeBatch: the error, the files and the writer after it. *)
Definition writeBatch (o : Options) (rio : rotateIO) (wio : writeIO) (d : list Segment) (w : Writer) (batch : list Entry)
  : option string * list Segment * Writer :=
  match w_f w with
  | None => (Some "auditlog: sink unavailable", d, w)
  | Some _ =>
    let ls := batchLines (w_lastHash w) batch in
    let buf := joinLines ls in
    let big : gset Z := list_to_set (omap (fun x : Entry * string * bool => if x.2 then Some (e_seq x.1.1) else None) (chainLines (w_lastHash w) batch)) in
    let w := set_tooLarge w (w_tooLarge w ∪ big) in
    let '(rerr, d, w) :=
      if (0 <? w_segSize w) && (o_SegmentBytes o <? w_segSize w + slen buf)
      then rotate rio (match batch with e :: _ => e_seq e | [] => 0 end) d w
      else (None, d, w) in
    match rerr with
    | Some err => (Some err, d, w)
    | None =>
      let f := default 0 (w_f w) in
      match wio with
      | WriteFail err kept => (Some err, extend f (stake kept buf) d, w)
      | WriteOK => (None, extend f buf d, set_file w (Some f) (w_segSize w + slen buf) (lastHashOf (w_lastHash w) ls))
      end
    end
  end.

(** reopen: the torn end of the last segment is cut, the head of the chain is
    read from the last segment that has a line, and the last segment is opened
    (the first one is created).  [ReopenFail]: an error, before or after the
    cut; a first segment that was created but not synced is as good as none. *)
Inductive reopenIO := ReopenOK | ReopenFail (err : string) (cut : bool).

Fixpoint cutTorn (d : list Segment) : list Segment * Z :=
  match d with
  | [] => ([], 0)
  | [sg] =>
    let torn := slen (tornOf (sg_data sg)) in
    ([mkSegment (sg_first sg) (stake (String.length (sg_data sg) - Z.to_nat torn) (sg_data sg))], torn)
  | sg :: d' => let '(d1, t) := cutTorn d' in (sg :: d1, t)
  end.

(** The head of the chain: from the last segment backwards. *)
Fixpoint chainHead (rd : list Segment) : string * Z :=
  match rd with
  | [] => (zeroHash, 0)
  | sg :: rd' => let '(h, seq, lines, _, _) := tail sg in if 0 <? lines then (h, seq) else chainHead rd'
  end.

Definition reopen (io : reopenIO) (d : list Segment) (w : Writer) : option string * list Segment * Writer * Z :=
  let '(d1, torn) := cutTorn d in
  match io with
  | ReopenFail err cut => (Some err, if cut then d1 else d, closeFile w, 0)
  | ReopenOK =>
    let '(h, lastSeq) := chainHead (rev d1) in
    let first := if w_nextSeq w <=? lastSeq then lastSeq + 1 else w_nextSeq w in
    let d2 := match d1 with [] => [mkSegment (Z.max first 1) ""] | _ => d1 end in
    let '(f, size) := match last d2 with Some sg => (sg_first sg, slen (sg_data sg)) | None => (0, 0) end in
    (None, d2, set_nextSeq (set_file w (Some f) size h) first, torn)
  end.

(** ** start and activate *)
Definition openDetail (torn : Z) : string :=
  if 0 <? torn then "opened; cut " +:+ FormatInt torn +:+ " bytes of a torn last line" else "opened".

Definition start (o : Options) (pio : reopenIO) (rio : rotateIO) (wio : writeIO) (now : Z) (d : list Segment) (w : Writer)
  : option string * list Segment * Writer * list Entry :=
  let '(err, d, w, torn) := reopen pio d w in
  match err with
  | Some e => (Some e, d, w, [])
  | None =>
    let seq := w_nextSeq w in
    let open := mkEntry (ownRecord seq now TypeOpen (openDetail torn) 0 0 "") Announced in
    let '(err, d1, w1) := writeBatch o rio wio d (set_nextSeq w (seq + 1)) [open] in
    match err with
    | Some e => (Some e, d1, w1, [])
    | None => (None, d1, set_durable w1 seq (w_st w1), [open])
    end
  end.

Definition activate (o : Options) (pio : reopenIO) (rio : rotateIO) (wio : writeIO) (now : Z) (d : list Segment) (w : Writer)
  : list Segment * Writer * list Entry :=
  let '(err, d, w, acked) := start o pio rio wio now d w in
  let w := match err with Some e => set_failed (closeFile w) (Some e) | None => w end in
  (d, set_life w (w_closed w) (w_exited w) true, acked).

(** ** Retention *)
Record retentionPlan := mkPlan { p_k : nat; p_freed : Z; p_start : Z * string; p_why : string }.

(** The loop of planRetention over the sizes and modification times, oldest
    first; [n] is how many segments may still be taken. *)
Fixpoint planGo (o : Options) (now total : Z) (n : nat) (sm : list (Z * Z)) (k : nat) (freed : Z) (why : string) : nat * Z * string :=
  match n, sm with
  | S n', (size, mod_) :: sm' =>
    let over := (0 <? o_RetainBytes o) && (o_RetainBytes o <? total - freed) in
    let old := (0 <? o_RetainAge o) && (o_RetainAge o <? now - mod_) in
    if over then planGo o now total n' sm' (S k) (freed + size) ("size limit " +:+ FormatInt (o_RetainBytes o) +:+ " bytes")
    else if old then planGo o now total n' sm' (S k) (freed + size) (if why =s "" then "age limit " +:+ o_AgeText o else why)
    else (k, freed, why)
  | _, _ => (k, freed, why)
  end.

(** [mods] are the modification times; [None] also when a Stat fails. *)
Definition planRetention (o : Options) (now : Z) (mods : option (list Z)) (d : list Segment) (w : Writer) : option retentionPlan :=
  match w_f w, mods with
  | Some _, Some ms =>
    if (List.length d <? 2)%nat then None else
    let sizes := map (fun sg => slen (sg_data sg)) d in
    let '(k, freed, why) := planGo o now (foldr Z.add 0 sizes) (List.length d - 1) (combine sizes ms) 0 0 "" in
    if (k =? 0)%nat then None else
    match d !! k with
    | Some sg => match firstRecord sg with Some st => Some (mkPlan k freed st why) | None => None end
    | None => None
    end
  | _, _ => None
  end.

Definition planDetail (p : retentionPlan) : string :=
  "removing " +:+ FormatInt (Z.of_nat (p_k p)) +:+ " segment(s), " +:+ FormatInt (p_freed p) +:+ " bytes, records before seq "
    +:+ FormatUint (p_start p).1 +:+ " (" +:+ p_why p +:+ ")".
Definition planRecord (p : retentionPlan) (seq now : Z) : Entry :=
  mkEntry (ownRecord seq now TypeRetention (planDetail p) 0 (p_start p).1 (p_start p).2) Announced.

(** removeSegments, when os.Remove fails after [n] files: the files left, the
    writer, and the new first record if a file was removed. *)
Definition removeSegments (n : nat) (p : retentionPlan) (d : list Segment) (w : Writer) : list Segment * Writer * option (Z * string) :=
  let removed := Nat.min n (p_k p) in
  let st := if (removed <? p_k p)%nat then default (0, "") (match d !! removed with Some sg => firstRecord sg | None => None end) else p_start p in
  (drop removed d, set_removed w (w_removed w + Z.of_nat removed), if (0 <? removed)%nat then Some st else None).

(** ** Critical sections of the goroutine *)
Definition markAll (s : recState) (batch : list Entry) (st : gmap Z recState) : gmap Z recState :=
  foldl (fun m e => <[e_seq e := s]> m) st batch.

(** The queue is taken, with what retain adds to it. *)
Definition takeQueue (w : Writer) : list Entry * Writer := (w_queue w, set_queue w []).
Definition takeRetain (p : retentionPlan) (now : Z) (w : Writer) : list Entry * Writer :=
  let '(batch, w) := takeQueue w in
  ((batch ++ [planRecord p (w_nextSeq w) now])%list, set_nextSeq w (w_nextSeq w + 1)).

(** A batch is on disk. *)
Definition ackBatch (batch : list Entry) (w : Writer) : Writer :=
  set_durable w (match last batch with Some e => e_seq e | None => w_durable w end) (markAll StDurable batch (w_st w)).

(** countLost: a carried gap record gives its count back. *)
Definition countLost (batch : list Entry) (w : Writer) : Writer :=
  set_lost w
    (foldl (fun n e => n + if carried e then a_Dropped (e_rec e) else 1) (w_dropped w) batch)
    (foldl (fun n e => n + if carried e then 0 else 1) (w_lost w) batch)
    (markAll StLost batch (w_st w)).

Definition fail (err : string) (batch : list Entry) (w : Writer) : Writer :=
  countLost batch (set_failed (closeFile w) (Some err)).

(** The records recover adds to the batch: the retention record, when there is
    one to write, and the gap record. *)
Definition recoverRecords (plan : option retentionPlan) (now : Z) (w : Writer) : option Entry * Entry * Writer :=
  let '(ret, w) :=
    match plan, w_unnamed w with
    | Some p, _ => (Some (planRecord p (w_nextSeq w) now), set_nextSeq w (w_nextSeq w + 1))
    | None, Some u => (Some (mkEntry (setSeqTS u (w_nextSeq w) now) Announced), set_nextSeq w (w_nextSeq w + 1))
    | None, None => (None, w)
    end in
  let gap := mkEntry (ownRecord (w_nextSeq w) now TypeGap ("sink failed: " +:+ default "" (w_failed w)) (w_dropped w) 0 "") Gap in
  (ret, gap, set_nextSeq w (w_nextSeq w + 1)).

(** The record of a retention that removed segments first. *)
Definition removedDetail (p : retentionPlan) (err : string) : string :=
  planDetail p +:+ "; removed before this record was written, while the log could not write: " +:+ err.
Definition unnamedOf (p : retentionPlan) (st : Z * string) (err : string) : ARecord :=
  ownRecord 0 0 TypeRetention (removedDetail p err) 0 st.1 st.2.
Definition renamed (p : retentionPlan) (st : Z * string) (err : string) (ret : Entry) : Entry :=
  mkEntry (setStart (e_rec ret) st.1 st.2 (removedDetail p err)) (e_src ret).

(** The last critical section of recover: the refusals since the gap record
    was made go into a second one at the head of the queue. *)
Definition recoverDone (all : list Entry) (gap : Entry) (now : Z) (w : Writer) : Writer :=
  let w := set_unnamed w None in
  let w := set_dropped w (w_dropped w - a_Dropped (e_rec gap)) in
  let w := set_durable w (e_seq gap) (markAll StDurable all (w_st w)) in
  let w :=
    if 0 <? w_dropped w then
      let c := mkEntry (ownRecord (w_nextSeq w) now TypeGap (a_Detail (e_rec gap) +:+ "; refused while the log was recovering")
                          (w_dropped w) 0 "") Carried in
      set_dropped (set_nextSeq (set_queue w (c :: w_queue w)) (w_nextSeq w + 1)) 0
    else w in
  set_failed w None.

(** ** The goroutine and its steps

    [PIdle] is the goroutine before it takes the queue, at its select or at the
    head of its inner loop: a timer can wake it at any time. *)
Inductive PC :=
  | PNew                                                (* not activated *)
  | PIdle
  | PTook (batch : list Entry) (closing failed : bool)  (* the queue is taken *)
  | PWritten (batch : list Entry) (rotated : bool)      (* writeBatch returned nil *)
  | PFailed (err : string) (batch : list Entry)         (* writeBatch of the loop or of retain failed *)
  | PPlanned (p : retentionPlan)                        (* retain has a plan *)
  | PRetain (p : retentionPlan) (all : list Entry)
  | PRetained (p : retentionPlan) (all : list Entry)    (* its record is written *)
  | PRemove (p : retentionPlan)
  | PReopened (batch : list Entry) (closing : bool) (plan : option retentionPlan)
  | PRecover (batch : list Entry) (closing : bool) (plan : option retentionPlan) (ret : option Entry) (gap : Entry)
  | PRecovered (plan : option retentionPlan) (all : list Entry) (gap : Entry)   (* all is written; the plan is still to be carried out *)
  | PLost (batch : list Entry) (closing : bool)         (* recover returned false *)
  | PDone.

(** What the theorems remember: the records Append took, refusals and losses
    since the process started, the records acknowledged in that time and the
    lines acknowledged ever, and the lines that retention removed. *)
Record Ghost := mkGhost {
  g_taken : list Entry; g_refused : Z; g_lost : list Entry; g_acked : list Entry;
  g_durable : list string; g_removed : list string }.

Record World := mkWorld { wd_disk : list Segment; wd_w : Writer; wd_pc : PC; wd_g : Ghost }.

Definition g_append (g : Ghost) (w w' : Writer) (res : result aerr Z) : Ghost :=
  match res with
  | Ok _ => mkGhost (g_taken g ++ drop (List.length (w_queue w)) (w_queue w'))%list (g_refused g) (g_lost g) (g_acked g) (g_durable g) (g_removed g)
  | Err ErrUnavailable | Err ErrQueueFull =>
    mkGhost (g_taken g) (g_refused g + 1) (g_lost g) (g_acked g) (g_durable g) (g_removed g)
  | Err _ => g
  end.
Definition g_ack (g : Ghost) (batch : list Entry) : Ghost :=
  mkGhost (g_taken g) (g_refused g) (g_lost g) (g_acked g ++ batch)%list (g_durable g) (g_removed g).
Definition g_write (g : Ghost) (ls : list string) : Ghost :=
  mkGhost (g_taken g) (g_refused g) (g_lost g) (g_acked g) (g_durable g ++ ls)%list (g_removed g).
Definition g_lose (g : Ghost) (batch : list Entry) : Ghost :=
  mkGhost (g_taken g) (g_refused g) (g_lost g ++ batch)%list (g_acked g) (g_durable g) (g_removed g).
Definition g_remove (g : Ghost) (d : list Segment) (n : nat) : Ghost :=
  mkGhost (g_taken g) (g_refused g) (g_lost g) (g_acked g) (g_durable g) (g_removed g ++ dirLines (take n d))%list.
Definition g_restart (g : Ghost) : Ghost := mkGhost [] 0 [] [] (g_durable g) (g_removed g).

(** writeBatch with the lines it acknowledges. *)
Definition wb (o : Options) rio wio (d : list Segment) (w : Writer) (batch : list Entry) (g : Ghost)
  : option string * list Segment * Writer * Ghost :=
  let '(err, d1, w1) := writeBatch o rio wio d w batch in
  (err, d1, w1, match err with None => g_write g (batchLines (w_lastHash w) batch) | Some _ => g end).

Definition allOf (batch : list Entry) (ret : option Entry) (gap : Entry) : list Entry :=
  (batch ++ option_list ret ++ [gap])%list.

(** The assumptions under which the log verifies, each about a rare event.
    [calm_cut]: when recover tries a second write, the first one left nothing
    behind, neither bytes in the file nor a new file it does not use.
    [calm_remove]: no removal stops halfway.  [calm_exit]: the process does not
    end while the newest segment has no line yet, nor between a removal that
    had to come first and the record that names the new start. *)
Record Calm := mkCalm { calm_cut : bool; calm_remove : bool; calm_exit : bool }.
Definition calm : Calm := mkCalm true true true.

(** What Go's types and the callers give: integers in range, short types and
    outcomes; texts of errors are short. *)
Definition okAppend (r : ARecord) (now : Z) : Prop :=
  okRecord r /\ is_i64 now /\ slen (a_Type r) <= 256 /\ slen (a_Outcome r) <= 256.
Definition maxErrText : Z := 2^16.
Definition leftNothing (rio : rotateIO) (wio : writeIO) : Prop :=
  match rio with RotateFail _ true => False | _ => True end /\ match wio with WriteFail _ (S _) => False | _ => True end.
Definition newestHasLine (d : list Segment) : Prop := forall sg, last d = Some sg -> linesOf (sg_data sg) <> [].

Section steps.
Context (o : Options) (c : Calm).

Inductive astep : World -> World -> Prop :=
  | S_append d w pc g r now res w' :
      okAppend r now ->
      Append o w r now = (res, w') ->
      astep (mkWorld d w pc g) (mkWorld d w' pc (g_append g w w' res))
  | S_close d w pc g :
      astep (mkWorld d w pc g) (mkWorld d (Close w) pc g)
  (* Open, or Activate of a Lazy writer *)
  | S_activate d w g pio rio wio now d1 w1 acked :
      w_closed w = false -> w_active w = false -> is_i64 now ->
      activate o pio rio wio now d w = (d1, w1, acked) ->
      let h := match reopen pio d w with (_, _, w0, _) => w_lastHash w0 end in
      astep (mkWorld d w PNew g) (mkWorld d1 w1 PIdle (g_ack (g_write g (batchLines h acked)) acked))
  (* the inner loop *)
  | S_take d w g batch w1 :
      takeQueue w = (batch, w1) ->
      astep (mkWorld d w PIdle g)
        (mkWorld d w1 (PTook batch (w_closed w) (bool_decide (is_Some (w_failed w)))) g)
  | S_idle d w g closing :
      astep (mkWorld d w (PTook [] closing false) g)
        (mkWorld d (if closing then set_life (closeFile w) (w_closed w) true (w_active w) else w) (if closing then PDone else PIdle) g)
  | S_write d w g batch closing rio wio err d1 w1 g1 :
      batch <> [] ->
      wb o rio wio d w batch g = (err, d1, w1, g1) ->
      astep (mkWorld d w (PTook batch closing false) g)
        (mkWorld d1 w1 (match err with None => PWritten batch (bool_decide (w_f w1 <> w_f w)) | Some e => PFailed e batch end) g1)
  | S_ack d w g batch rotated now mods :
      astep (mkWorld d w (PWritten batch rotated) g)
        (mkWorld d (ackBatch batch w)
           (if rotated then match planRetention o now mods d w with Some p => PPlanned p | None => PIdle end else PIdle)
           (g_ack g batch))
  | S_fail d w g err batch :
      astep (mkWorld d w (PFailed err batch) g) (mkWorld d (fail err batch w) PIdle (g_lose g batch))
  (* retain: at the start of the loop and at every maintenance tick *)
  | S_plan d w g now mods p :
      planRetention o now mods d w = Some p ->
      astep (mkWorld d w PIdle g) (mkWorld d w (PPlanned p) g)
  | S_retain_take d w g p now all w1 :
      is_i64 now ->
      takeRetain p now w = (all, w1) ->
      astep (mkWorld d w (PPlanned p) g) (mkWorld d w1 (PRetain p all) g)
  | S_retain_write d w g p all rio wio err d1 w1 g1 :
      wb o rio wio d w all g = (err, d1, w1, g1) ->
      astep (mkWorld d w (PRetain p all) g)
        (mkWorld d1 w1 (match err with None => PRetained p all | Some e => PFailed e all end) g1)
  | S_retain_ack d w g p all :
      astep (mkWorld d w (PRetained p all) g) (mkWorld d (ackBatch all w) (PRemove p) (g_ack g all))
  | S_remove d w g p n d1 w1 st :
      (calm_remove c = true -> p_k p <= n)%nat ->
      removeSegments n p d w = (d1, w1, st) ->
      astep (mkWorld d w (PRemove p) g) (mkWorld d1 w1 PIdle (g_remove g d (Nat.min n (p_k p))))
  (* recover *)
  | S_reopen d w g batch closing pio now mods err d1 w1 torn :
      reopen pio d w = (err, d1, w1, torn) ->
      astep (mkWorld d w (PTook batch closing true) g)
        (mkWorld d1 w1 (match err with None => PReopened batch closing (planRetention o now mods d1 w1) | Some _ => PLost batch closing end) g)
  | S_recover_records d w g batch closing plan now ret gap w1 :
      is_i64 now ->
      recoverRecords plan now w = (ret, gap, w1) ->
      astep (mkWorld d w (PReopened batch closing plan) g) (mkWorld d w1 (PRecover batch closing plan ret gap) g)
  | S_recover_write d w g batch closing plan ret gap rio d1 w1 g1 :
      wb o rio WriteOK d w (allOf batch ret gap) g = (None, d1, w1, g1) ->
      astep (mkWorld d w (PRecover batch closing plan ret gap) g)
        (mkWorld d1 w1 (PRecovered plan (allOf batch ret gap) gap) g1)
  | S_recover_stuck d w g batch closing plan ret gap rio wio e d1 w1 g1 n :
      wb o rio wio d w (allOf batch ret gap) g = (Some e, d1, w1, g1) ->
      match plan with Some p => (removeSegments n p d1 w1).2 = None | None => True end ->
      astep (mkWorld d w (PRecover batch closing plan ret gap) g)
        (mkWorld d1 (closeFile w1) (PLost batch closing) g1)
  (* nothing can be written: segments are removed first, then it is tried again *)
  | S_recover_remove d w g batch closing p ret gap rio wio e d1 w1 g1 n d2 w2 st rio2 wio2 err2 d3 w3 g3 :
      (calm_cut c = true -> leftNothing rio wio) -> (calm_remove c = true -> p_k p <= n)%nat -> slen e <= maxErrText ->
      wb o rio wio d w (allOf batch (Some ret) gap) g = (Some e, d1, w1, g1) ->
      removeSegments n p d1 w1 = (d2, w2, Some st) ->
      let all := allOf batch (Some (renamed p st e ret)) gap in
      let w2' := set_unnamed w2 (Some (unnamedOf p st e)) in
      wb o rio2 wio2 d2 w2' all (g_remove g1 d1 (Nat.min n (p_k p))) = (err2, d3, w3, g3) ->
      astep (mkWorld d w (PRecover batch closing (Some p) (Some ret) gap) g)
        (match err2 with
         | None => mkWorld d3 w3 (PRecovered None all gap) g3
         | Some _ => mkWorld d3 (closeFile w3) (PLost batch closing) g3
         end)
  | S_recover_done d w g all gap now :
      is_i64 now ->
      astep (mkWorld d w (PRecovered None all gap) g) (mkWorld d (recoverDone all gap now w) PIdle (g_ack g all))
  | S_recover_retain d w g p all gap n d1 w1 st :
      (calm_remove c = true -> p_k p <= n)%nat ->
      removeSegments n p d w = (d1, w1, st) ->
      astep (mkWorld d w (PRecovered (Some p) all gap) g)
        (mkWorld d1 w1 (PRecovered None all gap) (g_remove g d (Nat.min n (p_k p))))
  | S_lose d w g batch closing :
      astep (mkWorld d w (PLost batch closing) g)
        (mkWorld d (let w1 := countLost batch w in if closing then set_life (closeFile w1) (w_closed w1) true (w_active w1) else w1)
           (if closing then PDone else PIdle) (g_lose g batch))
  (* the process ends, and a new one starts with what is in the files *)
  | S_restart d w pc g :
      (calm_exit c = true -> w_unnamed w = None /\ newestHasLine d) ->
      astep (mkWorld d w pc g) (mkWorld d newWriter PNew (g_restart g)).
End steps.

Definition freshWorld : World := mkWorld [] newWriter PNew (mkGhost [] 0 [] [] [] []).
