(* ===== verification/AuditChain.v ===== *)
(** * Lines, the chain and the files of the audit log

    First the lines of a file and the bounds of a line; then the chain as its
    readers check it ([VerifyAnchors_ok], [Verify_chain], [Follow_ok]); then
    what the writer's operations do to the files ([writeBatch_spec],
    [reopen_spec]).

    How [splitLines] goes together with appending to a file and with a write
    that stops halfway; that no line the writer makes is longer than
    MaxRecordBytes; and the reader's view of a line the writer made. *)

From S2P Require Import Prelude GoLib Json Sha1 Sha256 AuditRecord AuditRead AuditWriter.
From Stdlib Require Import String Sorted.
Local Open Scope string_scope.
Local Open Scope Z_scope.
Local Open Scope go_scope.

Definition noLF (s : string) : Prop := IndexByte s LF = None.

(** ** splitLines *)
Lemma splitLines_noLF s : noLF s -> splitLines s = ([], s).
Proof.
  unfold noLF. induction s as [| c s IH]; cbn; [done |]. destruct (Ascii.eqb c LF); [done |].
  destruct (IndexByte s LF); [done |]. by rewrite IH.
Qed.

Lemma splitLines_parts s : Forall noLF (linesOf s) /\ noLF (tornOf s) /\ s = joinLines (linesOf s) +:+ tornOf s.
Proof.
  unfold linesOf, tornOf. induction s as [| c s (Hl & Ht & He)]; cbn; [done |].
  destruct (splitLines s) as [ls t] eqn:E. cbn in *. destruct (Ascii.eqb_spec c LF) as [-> | Hc].
  - cbn. split; [by constructor |]. split; [done |]. by rewrite <- He.
  - assert (Ascii.eqb c LF = false) as Hb by (by apply Ascii.eqb_neq).
    destruct ls as [| l ls]; cbn in *.
    + split; [done |]. split; [unfold noLF; cbn; by rewrite Hb, Ht | by rewrite <- He].
    + inversion_clear Hl. split; [constructor; [unfold noLF in *; cbn; rewrite Hb | done] | split; [done | by rewrite <- He]].
      by match goal with H : IndexByte l LF = None |- _ => rewrite H end.
Qed.

Lemma splitLines_cons l b : noLF l -> splitLines (l +:+ String LF b) = (l :: linesOf b, tornOf b).
Proof.
  unfold noLF, linesOf, tornOf. induction l as [| c l IH]; intros H.
  - cbn. by destruct (splitLines b).
  - cbn in *. destruct (Ascii.eqb c LF); [done |]. destruct (IndexByte l LF); [done |]. by rewrite IH.
Qed.

Lemma joinLines_cons l ls : joinLines (l :: ls) = l +:+ String LF (joinLines ls).
Proof. done. Qed.

Lemma splitLines_join ls t : Forall noLF ls -> noLF t -> splitLines (joinLines ls +:+ t) = (ls, t).
Proof.
  intros Hl Ht. induction Hl as [| l ls Hl _ IH]; [by apply splitLines_noLF |].
  rewrite joinLines_cons, sapp_assoc. cbn [String.append]. rewrite splitLines_cons by done. unfold linesOf, tornOf. by rewrite IH.
Qed.

Lemma joinLines_app a b : joinLines (a ++ b)%list = joinLines a +:+ joinLines b.
Proof. induction a as [| l a IH]; [done |]. cbn [app]. rewrite !joinLines_cons, IH, sapp_assoc. done. Qed.

(** Appending to a file that ends with a newline. *)
Lemma splitLines_extend a ls t : tornOf a = "" -> Forall noLF ls -> noLF t ->
  splitLines (a +:+ joinLines ls +:+ t) = ((linesOf a ++ ls)%list, t).
Proof.
  intros Ha Hl Ht. destruct (splitLines_parts a) as (Hp & _ & He). rewrite Ha, sapp_nil_r in He.
  rewrite He at 1. rewrite <- sapp_assoc, <- joinLines_app. apply splitLines_join; [| done]. by apply Forall_app.
Qed.

Lemma noLF_stake n s : noLF s -> noLF (stake n s).
Proof.
  unfold noLF. revert n. induction s as [| c s IH]; intros [| n]; cbn; try done.
  destruct (Ascii.eqb c LF); [done |]. intros H. destruct (IndexByte s LF) eqn:E; [done |]. by rewrite IH.
Qed.

Lemma stake_app_le n a b : (n <= String.length a)%nat -> stake n (a +:+ b) = stake n a.
Proof. revert n. induction a as [| c a IH]; intros [| n] H; cbn in *; try lia; [by destruct b | done |]. f_equal. apply IH. lia. Qed.

(** A write that stops halfway leaves whole lines and a part of the next. *)
Lemma stake_join n ls : Forall noLF ls -> exists j t,
  stake n (joinLines ls) = joinLines (take j ls) +:+ t /\ noLF t /\
  (t = "" \/ exists l, ls !! j = Some l /\ slen t <= slen l).
Proof.
  intros Hl. revert n. induction Hl as [| l ls Hl _ IH]; intros n.
  - exists 0%nat, "". split; [by destruct n | split; [done | by left]].
  - rewrite joinLines_cons. destruct (decide (n <= String.length l)%nat) as [Hn | Hn].
    + exists 0%nat, (stake n l). rewrite stake_app_le by done. split; [done |]. split; [by apply noLF_stake |].
      right. exists l. split; [done |]. unfold slen. rewrite length_stake. lia.
    + destruct (IH (n - String.length l - 1)%nat) as (j & t & He & Ht & Hj). exists (S j), t.
      split; [| split; [done |]; destruct Hj as [| (l' & ? & ?)]; [by left | right; by exists l']].
      rewrite stake_app_ge by lia. replace (n - String.length l)%nat with (S (n - String.length l - 1)) by lia.
      cbn [stake take]. rewrite He, joinLines_cons, sapp_assoc. done.
Qed.

(** ** Hashes are 64 ASCII characters *)
Lemma hex_word_ascii n w acc : asciiText acc = true -> asciiText (hex_word n w acc) = true.
Proof.
  revert w acc. induction n as [| n IH]; intros w acc H; cbn; [done |]. apply IH. cbn. rewrite H, andb_true_r.
  pose proof (Z.mod_pos_bound w 16 eq_refl). generalize dependent (w mod 16). intros z Hz.
  assert (z = 0 \/ z = 1 \/ z = 2 \/ z = 3 \/ z = 4 \/ z = 5 \/ z = 6 \/ z = 7 \/ z = 8 \/ z = 9 \/ z = 10 \/ z = 11 \/ z = 12 \/ z = 13
    \/ z = 14 \/ z = 15) as Hc by lia. clear Hz. by repeat destruct Hc as [-> | Hc]; [.. | subst].
Qed.
Lemma hex_word_length n w acc : String.length (hex_word n w acc) = (n + String.length acc)%nat.
Proof. revert w acc. induction n as [| n IH]; intros w acc; cbn; [done |]. rewrite IH. cbn. lia. Qed.

Lemma lineHash_ascii l : asciiText (lineHash l) = true.
Proof. unfold lineHash, sha256_hex. generalize (digest256 l). induction l0; [done |]. cbn [foldr]. by apply hex_word_ascii. Qed.
Lemma lineHash_length l : String.length (lineHash l) = 64%nat.
Proof. unfold lineHash, sha256_hex, digest256. cbn [foldr]. by rewrite !hex_word_length. Qed.

(** What the previous line's hash can be. *)
Definition isHash (h : string) : Prop := asciiText h = true /\ slen h = 64.
Lemma isHash_line l : isHash (lineHash l).
Proof. split; [apply lineHash_ascii |]. unfold slen. by rewrite lineHash_length. Qed.
Lemma isHash_zero : isHash zeroHash.
Proof. by split. Qed.
#[export] Hint Resolve isHash_line isHash_zero : json.

(** ** How long a line can be *)
Lemma escapeAscii_length c : (String.length (escapeAscii c) <= 6)%nat.
Proof. apply Nat.leb_le. by destruct c as [[] [] [] [] [] [] [] []]. Qed.

Lemma runeAt_length a s : (String.length (escapeRune (runeAt a s).1) + 6 * String.length (runeAt a s).2 <= 6 * S (String.length s))%nat.
Proof.
  unfold runeAt. destruct (bval a <? 128); [pose proof (escapeAscii_length a); cbn [fst snd escapeRune]; lia |].
  destruct s as [| b [| c [| d s]]]; repeat case_match; cbn [fst snd escapeRune]; repeat case_match; cbn [String.length]; lia.
Qed.

Lemma quoteBody_length s : (String.length (quoteBody s) <= 6 * String.length s)%nat.
Proof.
  unfold quoteBody, runes. generalize (String.length s) at 1. intros n. revert s.
  induction n as [| n IH]; intros [| a s]; cbn [runesGo fmap list_fmap sconcat foldr String.length]; try lia.
  pose proof (runeAt_length a s) as H. destruct (runeAt a s) as [r s2]. cbn [fst snd] in H.
  rewrite fmap_cons, sconcat_cons, slength_app. specialize (IH s2). lia.
Qed.

Lemma slen_quoted s : slen (quoted s) <= 2 + 6 * slen s.
Proof. unfold slen, quoted. cbn [String.length]. rewrite slength_app. pose proof (quoteBody_length s). cbn [String.length]. lia. Qed.

Lemma slen_FormatUint n : slen (FormatUint n) <= 20.
Proof. unfold slen. pose proof (length_FormatUint n). lia. Qed.
Lemma slen_cons a s : slen (String a s) = slen s + 1.
Proof. unfold slen. cbn [String.length]. lia. Qed.
Lemma slen_FormatInt n : slen (FormatInt n) <= 21.
Proof. unfold FormatInt. case_match; [rewrite slen_cons |]; [pose proof (slen_FormatUint (- n)) | pose proof (slen_FormatUint n)]; lia. Qed.

Definition mlen (kv : string * option jvalue) : Z :=
  match kv.2 with None => 0 | Some v => slen (quoted kv.1) + 2 + slen (marshal v) end.
Definition sumZ (l : list Z) : Z := foldr Z.add 0 l.

Lemma sumZ_cons x l : sumZ (x :: l) = x + sumZ l.
Proof. done. Qed.

Lemma slen_commas l : slen (commas l) <= sumZ (map (fun s => slen s + 1) l).
Proof.
  induction l as [| x l IH]; [done |]. destruct l as [| y l]; [cbn; lia |].
  rewrite commas_cons, !slen_app by done. cbn [map sumZ foldr] in *. change (slen ",") with 1. unfold sumZ in *. cbn [map foldr] in IH. lia.
Qed.

Lemma slen_members m : slen (marshal (JObj (present m))) <= 2 + sumZ (map mlen m).
Proof.
  cbn [marshal]. rewrite !slen_app. change (slen "{") with 1. change (slen "}") with 1.
  pose proof (slen_commas (map (fun kv => quoted kv.1 +:+ ":" +:+ marshal kv.2) (present m))) as H.
  enough (sumZ (map (fun s => slen s + 1) (map (fun kv => quoted kv.1 +:+ ":" +:+ marshal kv.2) (present m))) <= sumZ (map mlen m)) by lia.
  clear H. induction m as [| [k [v |]] m IH]; [done | |].
  - change (present ((k, Some v) :: m)) with ((k, v) :: present m). rewrite !map_cons', !sumZ_cons. cbn [fst snd].
    change (mlen (k, Some v)) with (slen (quoted k) + 2 + slen (marshal v)). rewrite !slen_app. change (slen ":") with 1. lia.
  - change (present ((k, None) :: m)) with (present m). rewrite map_cons', sumZ_cons. change (mlen (k, None)) with 0. lia.
Qed.

Lemma mlen_jU k n : mlen (k, jU n) <= 24 + 6 * slen k.
Proof. unfold mlen. cbn [fst snd jU marshal]. pose proof (slen_quoted k). pose proof (slen_FormatUint n). lia. Qed.
Lemma mlen_jI k n : mlen (k, jI n) <= 25 + 6 * slen k.
Proof. unfold mlen. cbn [fst snd jI marshal]. pose proof (slen_quoted k). pose proof (slen_FormatInt n). lia. Qed.
Lemma mlen_jS k s : mlen (k, jS s) <= 6 + 6 * slen k + 6 * slen s.
Proof. unfold mlen. cbn [fst snd jS marshal]. pose proof (slen_quoted k). pose proof (slen_quoted s). lia. Qed.
Lemma mlen_none k : mlen (k, None) = 0.
Proof. done. Qed.
Lemma mlen_oU k n : mlen (k, oU n) <= 24 + 6 * slen k.
Proof. unfold oU. case_match; [rewrite mlen_none; pose proof (slen_nonneg k); lia | apply mlen_jU]. Qed.
Lemma mlen_oI k n : mlen (k, oI n) <= 25 + 6 * slen k.
Proof. unfold oI. case_match; [rewrite mlen_none; pose proof (slen_nonneg k); lia | apply mlen_jI]. Qed.
Lemma mlen_oS k s : mlen (k, oS s) <= 6 + 6 * slen k + 6 * slen s.
Proof. unfold oS. case_match; [rewrite mlen_none; pose proof (slen_nonneg k); pose proof (slen_nonneg s); lia | apply mlen_jS]. Qed.

Definition whoLen (w : Who) : Z :=
  slen (wh_Principal w) + slen (wh_Kind w) + slen (wh_Host w) + slen (wh_Person w) + slen (wh_PersonName w) + slen (wh_Agent w)
  + slen (wh_AgentName w).
Definition textLen (r : ARecord) : Z :=
  slen (a_Type r) + slen (a_Outcome r) + slen (a_Reason r) + slen (a_Detail r) + whoLen (a_Who r) + slen (a_Action r)
  + slen (a_StartPrev r) + slen (a_Digest r) + slen (a_Prev r).

(** A record without lists is not much longer than its texts. *)
Lemma encode_length r : entriesOf r = 0 -> slen (encode r) <= 5000 + 6 * textLen r.
Proof.
  unfold entriesOf. intros He. etrans; [apply slen_members |].
  destruct r as [seq ts ty unit out reason detail who act [| ] [| ] [| ] [| ] win drp [| ] sseq sprev om dig prev];
    cbn in He; try lia.
  unfold recordMembers, textLen, whoLen. cbn [map sumZ foldr oL a_Seq a_TS a_Type a_Unit a_Outcome a_Reason a_Detail a_Who a_Action
    a_Projects a_Ops a_Inodes a_Rows a_Window a_Dropped a_Attrs a_StartSeq a_StartPrev a_Omitted a_Digest a_Prev].
  rewrite !mlen_none.
  repeat match goal with
  | |- context [mlen (?k, jU ?n)] => pose proof (mlen_jU k n); generalize dependent (mlen (k, jU n)); intros
  | |- context [mlen (?k, jI ?n)] => pose proof (mlen_jI k n); generalize dependent (mlen (k, jI n)); intros
  | |- context [mlen (?k, jS ?n)] => pose proof (mlen_jS k n); generalize dependent (mlen (k, jS n)); intros
  | |- context [mlen (?k, oU ?n)] => pose proof (mlen_oU k n); generalize dependent (mlen (k, oU n)); intros
  | |- context [mlen (?k, oI ?n)] => pose proof (mlen_oI k n); generalize dependent (mlen (k, oI n)); intros
  | |- context [mlen (?k, oS ?n)] => pose proof (mlen_oS k n); generalize dependent (mlen (k, oS n)); intros
  end.
  repeat match goal with H : context [slen (String ?a ?b)] |- _ => let v := eval vm_compute in (slen (String a b)) in change (slen (String a b)) with v in H end.
  lia.
Qed.

Lemma slen_clip v : slen (clip v) <= 256.
Proof.
  unfold clip. destruct (256 <? slen v) eqn:E; [| apply Z.ltb_ge in E; lia]. unfold slen. rewrite length_stake. lia.
Qed.

Lemma okRecord_stub r line : okRecord r -> okRecord (stubOf r line).
Proof.
  intros (Hu & Hi & _ & _ & _ & _ & He). rewrite !Forall_cons in Hu. rewrite !Forall_cons in Hi. destruct_and!.
  unfold okRecord, stubOf. cbn. rewrite !Forall_cons, !Forall_nil. unfold is_i64, is_u64, entriesOf in *. cbn. repeat split; try lia.
Qed.

Lemma okRecord_setPrev r h : okRecord (setPrev r h) <-> okRecord r.
Proof. done. Qed.

(** Types and outcomes are a word long. *)
Definition shortRecord (r : ARecord) : Prop := slen (a_Type r) <= 256 /\ slen (a_Outcome r) <= 256.

Lemma stub_length r line : shortRecord r -> isHash (a_Prev r) -> slen (encode (stubOf r line)) <= MaxRecordBytes.
Proof.
  intros [Ht Ho] [_ Hp]. etrans; [by apply encode_length |]. unfold textLen, whoLen, stubOf.
  cbn [a_Type a_Outcome a_Reason a_Detail a_Who a_Action a_StartPrev a_Digest a_Prev wh_Principal wh_Kind wh_Host wh_Person
    wh_PersonName wh_Agent wh_AgentName].
  rewrite !slen_app. pose proof (slen_FormatInt (slen line)). pose proof (slen_FormatInt MaxRecordBytes).
  repeat match goal with |- context [slen (clip ?x)] => pose proof (slen_clip x); generalize dependent (slen (clip x)); intros end.
  repeat match goal with |- context [slen (String ?a ?b)] => let v := eval vm_compute in (slen (String a b)) in change (slen (String a b)) with v end.
  generalize dependent (slen (FormatInt MaxRecordBytes)). intros. unfold MaxRecordBytes. change (slen "") with 0. lia.
Qed.

(** What a reader sees of a line the writer made. *)
Theorem lineOf_spec r : okRecord r -> shortRecord r -> isHash (a_Prev r) ->
  let '(line, big) := lineOf r in
  noLF line /\ slen line <= MaxRecordBytes /\
  exists h, readHdr line = Some h /\ h_Seq h = a_Seq r /\ h_Prev h = a_Prev r /\
    (big = false -> line = encode r /\ h_Type h = clean (a_Type r) /\ h_StartSeq h = a_StartSeq r /\ h_StartPrev h = clean (a_StartPrev r)).
Proof.
  intros Hr Hs Hp. unfold lineOf. pose proof Hp as [Ha _]. destruct (MaxRecordBytes <? slen (encode r)) eqn:E.
  - assert (Hr' := okRecord_stub r (encode r) Hr). split; [by apply encode_LF |]. split; [by apply stub_length |].
    eexists. split; [exact (readHdr_encode _ Hr') |]. cbn [h_Seq h_Prev]. split; [reflexivity |]. split; [exact (clean_ascii _ Ha) | discriminate].
  - split; [by apply encode_LF |]. split; [lia |]. eexists. split; [exact (readHdr_encode _ Hr) |]. cbn [h_Seq h_Prev h_Type h_StartSeq h_StartPrev].
    split; [reflexivity |]. split; [exact (clean_ascii _ Ha) |]. intros _. repeat split.
Qed.

Lemma short_line line : slen line <= MaxRecordBytes -> tooLong line = false.
Proof. unfold tooLong, MaxRecordBytes, maxLine. lia. Qed.

(** A record with short texts and no lists is written as it is. *)
Lemma lineOf_own r : entriesOf r = 0 -> textLen r <= 2^18 -> (lineOf r).2 = false.
Proof.
  intros He Ht. unfold lineOf. pose proof (encode_length r He). destruct (MaxRecordBytes <? slen (encode r)) eqn:E; [| done].
  unfold MaxRecordBytes in E. lia.
Qed.

Lemma lineOf_encode r : (lineOf r).2 = false -> (lineOf r).1 = encode r.
Proof. unfold lineOf. destruct (MaxRecordBytes <? slen (encode r)); cbn [fst snd]; intros H; [discriminate H | exact eq_refl]. Qed.

(** * The chain of the audit log, as its readers check it

    What [VerifyAnchors] has checked when it reports no problem, that it
    reports none on a chain as the writer makes it, and that two logs which
    agree on one hash agree on every line before it. *)

#[local] Opaque lineHash readHdr encode.

Definition seqOf (l : string) : Z := match readHdr l with Some h => h_Seq h | None => 0 end.
Definition prevOf (l : string) : string := match readHdr l with Some h => h_Prev h | None => "" end.

(** [ls] continues a log whose last line hashes to [prev] and has seq [last]
    (0: there is none, or its seq is 0). *)
Fixpoint chain (prev : string) (last : Z) (ls : list string) : Prop :=
  match ls with
  | [] => True
  | l :: r =>
    (exists h, readHdr l = Some h) /\ prevOf l = prev /\ (last = 0 \/ last < seqOf l) /\ tooLong l = false /\
    chain (lineHash l) (seqOf l) r
  end.

Definition lastSeqOf (last : Z) (ls : list string) : Z := match list.last ls with Some l => seqOf l | None => last end.

Lemma lastHashOf_cons h l ls : lastHashOf h (l :: ls) = lastHashOf (lineHash l) ls.
Proof. unfold lastHashOf. rewrite last_cons. by destruct (list.last ls). Qed.
Lemma lastSeqOf_cons n l ls : lastSeqOf n (l :: ls) = lastSeqOf (seqOf l) ls.
Proof. unfold lastSeqOf. rewrite last_cons. by destruct (list.last ls). Qed.
Lemma lastHashOf_app h a b : lastHashOf h (a ++ b)%list = lastHashOf (lastHashOf h a) b.
Proof. revert h. induction a as [| l a IH]; intros h; [done |]. cbn [app]. by rewrite !lastHashOf_cons, IH. Qed.
Lemma lastSeqOf_app n a b : lastSeqOf n (a ++ b)%list = lastSeqOf (lastSeqOf n a) b.
Proof. revert n. induction a as [| l a IH]; intros h; [done |]. cbn [app]. by rewrite !lastSeqOf_cons, IH. Qed.

Lemma chain_app prev last a b : chain prev last (a ++ b)%list <->
  chain prev last a /\ chain (lastHashOf prev a) (lastSeqOf last a) b.
Proof.
  revert prev last. induction a as [| l a IH]; intros prev last; [cbn; tauto |].
  cbn [app chain]. rewrite IH, lastHashOf_cons, lastSeqOf_cons. tauto.
Qed.

Lemma u64Of_nonneg v : 0 <= u64Of v.
Proof.
  destruct v as [[] |]; cbn; try lia. unfold ParseUint. destruct lit as [| c s]; [done |].
  destruct (parse_dec 0 (String c s)) as [z |] eqn:E; [| done]. apply parse_dec_lower in E; [| done].
  cbn. by destruct (z <? 2^64).
Qed.

Lemma seqOf_nonneg l : 0 <= seqOf l.
Proof.
  unfold seqOf. destruct (readHdr l) as [h |] eqn:E; [| done]. Transparent readHdr. unfold readHdr in E. Opaque readHdr.
  repeat case_match; simplify_eq; cbn [h_Seq]; [done | apply u64Of_nonneg].
Qed.

(** Seqs grow, once they are not 0. *)
Lemma chain_above prev last ls l : 0 <= last -> chain prev last ls -> l ∈ ls -> last = 0 \/ last < seqOf l.
Proof.
  revert prev last. induction ls as [| k ls IH]; intros prev last Hl Hc Hin; [by apply not_elem_of_nil in Hin |].
  destruct Hc as (_ & _ & Hk & _ & Hc). apply elem_of_cons in Hin as [-> | Hin]; [done |].
  destruct (IH _ _ (seqOf_nonneg k) Hc Hin); lia.
Qed.

Lemma chain_nodup prev last ls : chain prev last ls -> NoDup (filter (fun s => s <> 0) (seqOf <$> ls)).
Proof.
  revert prev last. induction ls as [| l ls IH]; intros prev last Hc; [constructor |].
  destruct Hc as (_ & _ & _ & _ & Hc). rewrite fmap_cons, filter_cons. destruct (decide (seqOf l <> 0)) as [Hn |]; [| by eapply IH].
  constructor; [| by eapply IH]. rewrite list_elem_of_filter, list_elem_of_fmap. intros [_ (k & Heq & Hk)].
  destruct (chain_above _ _ _ _ (seqOf_nonneg l) Hc Hk); lia.
Qed.

(** ** What one line does to the check *)
Lemma cc_line_inv seg n c off l c' : cc_line seg n c off l = (c', true) -> exists h, readHdr l = Some h /\
  h_Prev h = cc_prev (cc_begin c h) /\ (cc_lastSeq c = 0 \/ cc_lastSeq c < h_Seq h) /\
  (forall want, cc_bySeq c !! h_Seq h = Some want -> want = lineHash l) /\
  c' = cc_accept (cc_begin c h) seg off l (lineHash l) h.
Proof.
  unfold cc_line. destruct (readHdr l) as [h |]; [| done]. intros H. exists h. split; [done |]. revert H. cbv zeta.
  assert (cc_lastSeq (cc_begin c h) = cc_lastSeq c /\ cc_bySeq (cc_begin c h) = cc_bySeq c) as [-> ->]
    by (unfold cc_begin; by destruct (cc_started c)).
  destruct (h_Prev h =s cc_prev (cc_begin c h)) eqn:E1; [| done]. apply eqs_true in E1. cbn [negb] in *.
  destruct (negb (cc_lastSeq c =? 0) && (h_Seq h <=? cc_lastSeq c)) eqn:E2; [done |].
  assert (cc_lastSeq c = 0 \/ cc_lastSeq c < h_Seq h) by lia.
  destruct (cc_bySeq c !! h_Seq h) as [want |] eqn:E3.
  - destruct (want =s lineHash l) eqn:E4; [| done]. apply eqs_true in E4. cbn. intros [= <-].
    repeat split; try done. intros ? [= <-]. done.
  - intros [= <-]. repeat split; done.
Qed.

Lemma cc_line_ok seg n c off l h : readHdr l = Some h -> h_Prev h = cc_prev (cc_begin c h) ->
  cc_lastSeq c = 0 \/ cc_lastSeq c < h_Seq h -> (forall want, cc_bySeq c !! h_Seq h = Some want -> want = lineHash l) ->
  cc_line seg n c off l = (cc_accept (cc_begin c h) seg off l (lineHash l) h, true).
Proof.
  intros Hh Hp Hs Hw. unfold cc_line. rewrite Hh. cbv zeta.
  assert (cc_lastSeq (cc_begin c h) = cc_lastSeq c /\ cc_bySeq (cc_begin c h) = cc_bySeq c) as [-> ->]
    by (unfold cc_begin; by destruct (cc_started c)).
  rewrite Hp, eqs_refl. cbn [negb]. replace (negb (cc_lastSeq c =? 0) && (h_Seq h <=? cc_lastSeq c)) with false by lia.
  destruct (cc_bySeq c !! h_Seq h) as [want |]; [| done]. by rewrite (Hw want eq_refl), eqs_refl.
Qed.

(** ** A whole log *)
Inductive reads : chainCheck -> list string -> chainCheck -> Prop :=
  | reads_nil c : reads c [] c
  | reads_cons seg n off c c1 c2 l ls :
      tooLong l = false -> cc_line seg n c off l = (c1, true) -> reads c1 ls c2 -> reads c (l :: ls) c2.

Lemma reads_app c ls c1 ls' c2 : reads c ls c1 -> reads c1 ls' c2 -> reads c (ls ++ ls')%list c2.
Proof. induction 1; [done |]. intros. econstructor; eauto. Qed.

Lemma scanGo_reads seg ls torn : forall c n off c' n',
  scanGo (cc_fn seg) (c, n) off ls torn = ((c', n'), ScanEOF) -> reads c ls c'.
Proof.
  induction ls as [| l ls IH]; intros c n off c' n'; cbn [scanGo].
  - case_match; [done |]. intros [= <- <-]. constructor.
  - destruct (tooLong l) eqn:El; [done |]. unfold cc_fn. cbn [fst snd].
    destruct (cc_line seg (n + 1) c off l) as [c1 []] eqn:E; [| done]. intros H. econstructor; [done | done | by eapply IH].
Qed.

Lemma sdrop_0 s : sdrop 0 s = s.
Proof. by destruct s. Qed.

Lemma cc_segs_reads d : forall c c', cc_segs c 0 d = (c', ScanEOF) -> reads c (dirLines d) c'.
Proof.
  induction d as [| sg d IH]; intros c c'; cbn [cc_segs]; [intros [= <-]; constructor |].
  unfold scanLines. cbn [Z.to_nat]. rewrite sdrop_0. destruct (splitLines (sg_data sg)) as [ls torn] eqn:Es.
  destruct (scanGo _ _ _ _ _) as [[c1 n1] []] eqn:E; [| done | done]. intros H.
  change (dirLines (sg :: d)) with (linesOf (sg_data sg) ++ dirLines d)%list. unfold linesOf. rewrite Es.
  eapply reads_app; [by eapply scanGo_reads | by apply IH].
Qed.

(** A line that is a retention record naming the start. *)
Definition names (start : Z) (startPrev : string) (l : string) : bool :=
  match readHdr l with
  | Some h => (h_Type h =s TypeRetention) && (h_StartSeq h =? start) && (h_StartPrev h =s startPrev)
  | None => false
  end.

Definition hits (m : gmap Z string) (ls : list string) : list Z := filter (fun s => is_Some (m !! s)) (seqOf <$> ls).

Lemma hits_empty ls : hits ∅ ls = [].
Proof.
  unfold hits. induction ls as [| l ls IH]; [done |]. rewrite fmap_cons, filter_cons, IH. by case_decide as H; [destruct H |].
Qed.

(** What the check knows after [ls] lines, in terms of the lines. *)
Record read_all (c : chainCheck) (ls : list string) (c' : chainCheck) : Prop := mkReadAll {
  ra_started : cc_started c' = true;
  ra_bySeq : cc_bySeq c' = cc_bySeq c;
  ra_startPrev : cc_startPrev c' = cc_startPrev c;
  ra_start : rp_StartSeq (cc_rep c') = rp_StartSeq (cc_rep c);
  ra_problem : rp_Problem (cc_rep c') = rp_Problem (cc_rep c) /\ rp_OK (cc_rep c') = rp_OK (cc_rep c);
  ra_records : rp_Records (cc_rep c') = rp_Records (cc_rep c) + Z.of_nat (List.length ls);
  ra_prev : cc_prev c' = lastHashOf (cc_prev c) ls;
  ra_last : cc_lastSeq c' = lastSeqOf (cc_lastSeq c) ls;
  ra_chain : chain (cc_prev c) (cc_lastSeq c) ls;
  ra_hash : forall l want, l ∈ ls -> cc_bySeq c !! seqOf l = Some want -> want = lineHash l;
  ra_hits : cc_anchorsHit c' = cc_anchorsHit c + Z.of_nat (List.length (hits (cc_bySeq c) ls));
  ra_named : cc_retainedOK c' = cc_retainedOK c || existsb (names (rp_StartSeq (cc_rep c)) (cc_startPrev c)) ls }.

Lemma reads_all c ls c' : reads c ls c' -> cc_started c = true -> read_all c ls c'.
Proof.
  induction 1 as [c | seg n off c c1 c2 l ls Hl Hc _ IH]; intros Hs.
  - split; try done; cbn; try lia; [by intros ? ? ?%not_elem_of_nil | by rewrite orb_false_r].
  - apply cc_line_inv in Hc as (h & Hh & Hp & Hq & Hw & ->).
    assert (cc_begin c h = c) as Hb by (unfold cc_begin; by rewrite Hs). rewrite Hb in *.
    destruct (IH Hs) as [R1 R2 R3 R4 [R5 R5'] R6 R7 R8 R9 R10 R11 R12].
    assert (seqOf l = h_Seq h /\ prevOf l = h_Prev h) as [Hsq Hpv] by (unfold seqOf, prevOf; by rewrite Hh).
    split.
    + done.
    + by rewrite R2.
    + by rewrite R3.
    + by rewrite R4.
    + by rewrite R5, R5'.
    + rewrite R6. cbn [cc_accept cc_rep rp_line rp_Records List.length]. lia.
    + rewrite R7. by rewrite lastHashOf_cons.
    + rewrite R8, lastSeqOf_cons. by rewrite Hsq.
    + cbn [chain]. rewrite Hsq, Hpv. split; [eauto |]. split; [done |]. split; [done |]. by split.
    + intros k want [-> | Hk]%elem_of_cons; [rewrite Hsq; by apply Hw | by apply R10].
    + rewrite R11. unfold hits. rewrite fmap_cons, filter_cons, Hsq. cbn [cc_accept cc_anchorsHit cc_bySeq].
      destruct (decide (is_Some (cc_bySeq c !! h_Seq h))) as [Hd | Hd]; [rewrite bool_decide_true by done | rewrite bool_decide_false by done];
        cbn [List.length]; lia.
    + rewrite R12. cbn [existsb]. unfold names at 2. rewrite Hh. cbn [cc_accept cc_retainedOK cc_rep rp_StartSeq rp_line cc_startPrev].
      by rewrite orb_assoc.
Qed.

(** ** The first line *)
Lemma cc_begin_line seg n c off l h : readHdr l = Some h -> cc_line seg n (cc_begin c h) off l = cc_line seg n c off l.
Proof.
  intros Hh. unfold cc_line. rewrite Hh. cbv zeta. assert (cc_begin (cc_begin c h) h = cc_begin c h) as ->; [| done].
  unfold cc_begin. destruct (cc_started c) eqn:E; [by rewrite E | done].
Qed.

Lemma reads_first c l ls c' : reads c (l :: ls) c' -> exists h, readHdr l = Some h /\ read_all (cc_begin c h) (l :: ls) c'.
Proof.
  intros H. inversion H as [| seg n off ? c1 ? ? ? Hl Hc Hr]; subst. pose proof Hc as (h & Hh & _)%cc_line_inv.
  exists h. split; [done |]. apply reads_all; [| unfold cc_begin; by destruct (cc_started c) eqn:?].
  econstructor; [done | | done]. by rewrite (cc_begin_line seg n c off l h Hh).
Qed.

(** The check never claims success on its own. *)
Lemma cc_line_OK seg n c off l : rp_OK (cc_rep (cc_line seg n c off l).1) = rp_OK (cc_rep c).
Proof. unfold cc_line. destruct (readHdr l) as [h |]; [| done]. cbv zeta. unfold cc_begin. repeat case_match; done. Qed.

Lemma scanGo_OK seg ls torn : forall c n off, rp_OK (cc_rep (scanGo (cc_fn seg) (c, n) off ls torn).1.1) = rp_OK (cc_rep c).
Proof.
  induction ls as [| l ls IH]; intros c n off; cbn [scanGo]; [done |]. destruct (tooLong l); [done |].
  unfold cc_fn. cbn [fst snd]. pose proof (cc_line_OK seg (n + 1) c off l) as H.
  destruct (cc_line seg (n + 1) c off l) as [c1 []]; cbn [fst] in *; [by rewrite IH | done].
Qed.

Lemma cc_segs_OK d : forall c s, rp_OK (cc_rep (cc_segs c s d).1) = rp_OK (cc_rep c).
Proof.
  induction d as [| sg d IH]; intros c s; [done |]. cbn [cc_segs]. unfold scanLines.
  destruct (splitLines _) as [ls torn]. pose proof (scanGo_OK (sg_first sg) ls torn c 0 s) as H.
  destruct (scanGo _ _ _ _ _) as [[c1 n1] []]; cbn [fst] in *; [by rewrite IH | done | done].
Qed.

(** ** What a good report means *)
Record verified (d : list Segment) (anchors : list Anchor) (start : Z) (l : string) (ls : list string) : Prop := mkVerified {
  vf_lines : dirLines d = l :: ls;
  vf_start : start = seqOf l;
  vf_chain : chain (prevOf l) 0 (l :: ls);
  vf_named : prevOf l = zeroHash \/ exists k, k ∈ l :: ls /\ names (seqOf l) (prevOf l) k = true;
  vf_hash : forall k want, k ∈ l :: ls -> anchorMap anchors !! seqOf k = Some want -> want = lineHash k;
  vf_count : countAnchors (seqOf l) (lastSeqOf 0 (l :: ls)) 0 anchors = Ok (Z.of_nat (List.length (hits (anchorMap anchors) (l :: ls)))) }.

Lemma VerifyAnchors_ok d anchors rep head : VerifyAnchors d anchors = (rep, head, true) -> rp_OK rep = true ->
  (dirLines d = [] /\ countAnchors 0 0 0 anchors = Ok 0) \/ exists l ls, verified d anchors (rp_StartSeq rep) l ls.
Proof.
  unfold VerifyAnchors. set (c0 := mkChainCheck _ _ _ _ _ _ _ _ _).
  pose proof (cc_segs_OK d c0 0) as HOK. destruct (cc_segs c0 0 d) as [c []] eqn:E; cbn [fst] in HOK;
    [| by intros [= <- <-]; rewrite HOK | by intros [=]].
  apply cc_segs_reads in E. destruct (cc_started c && _ && _) eqn:Est; [by intros [= <- <-]; cbn; rewrite HOK |].
  destruct (countAnchors _ _ _ _) as [n | [a n]] eqn:En; [| by intros [= <- <-]; cbn; rewrite HOK].
  destruct (n =? cc_anchorsHit c) eqn:Eh; cbn [negb]; [| by intros [= <- <-]; cbn; rewrite HOK].
  apply Z.eqb_eq in Eh. subst n. intros [= <- _] _. cbn [rp_ok rp_anchors rp_StartSeq].
  destruct (dirLines d) as [| l ls] eqn:Ed; [left; inversion E; subst; by split |]. right. exists l, ls.
  apply reads_first in E as (h & Hh & [R1 R2 R3 R4 _ _ R7 R8 R9 R10 R11 R12]).
  assert (seqOf l = h_Seq h /\ prevOf l = h_Prev h) as [Hsq Hpv] by (unfold seqOf, prevOf; by rewrite Hh).
  cbn in R2, R3, R4, R7, R8, R9, R10, R11, R12. rewrite <- Hpv, <- Hsq in *. split; try done.
  - rewrite R1, R3, R12 in Est. cbn in Est. destruct (prevOf l =s zeroHash) eqn:Ez; [left; by apply eqs_true |]. right.
    cbn in Est. destruct (names (seqOf l) (prevOf l) l || existsb (names (seqOf l) (prevOf l)) ls) eqn:Ex; [| done].
    change (existsb (names (seqOf l) (prevOf l)) (l :: ls) = true) in Ex. apply existsb_exists in Ex as (k & Hk & Hn).
    exists k. split; [by apply list_elem_of_In | done].
  - by rewrite R4, R8, R11 in En.
Qed.

(** ** Every anchor that should be in the log is *)
Lemma countAnchors_ok start last anchors : forall n0 n, countAnchors start last n0 anchors = Ok n ->
  n = n0 + Z.of_nat (List.length (filter (fun a => start <= an_Seq a) anchors)).
Proof.
  induction anchors as [| a l IH]; intros n0 n; cbn [countAnchors]; [intros [= <-]; cbn; lia |].
  destruct (last <? an_Seq a); [done |]. intros H%IH. rewrite H, filter_cons.
  destruct (start <=? an_Seq a) eqn:E; [rewrite decide_True by lia | rewrite decide_False by lia]; cbn [List.length]; lia.
Qed.

Definition okAnchors (anchors : list Anchor) : Prop :=
  NoDup (an_Seq <$> anchors) /\ Forall (fun a => 0 < an_Seq a) anchors.

Lemma anchorMap_go anchors : forall m : gmap Z string, NoDup (an_Seq <$> anchors) ->
  (forall a, a ∈ anchors -> foldl (fun m a => <[an_Seq a := an_Hash a]> m) m anchors !! an_Seq a = Some (an_Hash a)) /\
  (forall s, s ∉ an_Seq <$> anchors -> foldl (fun m a => <[an_Seq a := an_Hash a]> m) m anchors !! s = m !! s).
Proof.
  induction anchors as [| b l IH]; intros m Hn; cbn [foldl]; [split; [by intros ? ?%not_elem_of_nil | done] |].
  rewrite fmap_cons in Hn. apply NoDup_cons in Hn as [Hb Hn]. destruct (IH (<[an_Seq b := an_Hash b]> m) Hn) as [I1 I2]. split.
  - intros a [-> | Ha]%elem_of_cons; [| by apply I1]. rewrite I2 by done. apply lookup_insert_eq.
  - intros s Hs. rewrite fmap_cons, not_elem_of_cons in Hs. destruct Hs as [Hs1 Hs2]. rewrite I2 by done. by apply lookup_insert_ne.
Qed.

Lemma anchorMap_in anchors a : okAnchors anchors -> a ∈ anchors -> anchorMap anchors !! an_Seq a = Some (an_Hash a).
Proof. intros [Hn _]. by apply anchorMap_go. Qed.
Lemma anchorMap_dom anchors s : okAnchors anchors -> is_Some (anchorMap anchors !! s) -> s ∈ an_Seq <$> anchors.
Proof.
  intros [Hn _] Hs. destruct (decide (s ∈ an_Seq <$> anchors)) as [| Hi]; [done |].
  unfold anchorMap in Hs. rewrite (proj2 (anchorMap_go anchors ∅ Hn) s Hi), lookup_empty in Hs. by destruct Hs.
Qed.

Lemma hits_nodup anchors prev last ls : okAnchors anchors -> chain prev last ls -> NoDup (hits (anchorMap anchors) ls).
Proof.
  intros Ha Hc. enough (hits (anchorMap anchors) ls = filter (fun s => is_Some (anchorMap anchors !! s)) (filter (fun s => s <> 0) (seqOf <$> ls))) as ->
    by (eapply NoDup_filter, chain_nodup; done).
  rewrite list_filter_filter. apply list_filter_iff. intros s. split; [| tauto]. intros Hs. split; [done |].
  intros ->. apply anchorMap_dom in Hs; [| done]. apply list_elem_of_fmap in Hs as (a & H0 & Hin).
  destruct Ha as [_ Hp]. rewrite Forall_forall in Hp. specialize (Hp a Hin). cbn in Hp. lia.
Qed.

Lemma verified_anchor d anchors start l ls a : verified d anchors start l ls -> okAnchors anchors -> a ∈ anchors ->
  start <= an_Seq a -> exists k, k ∈ l :: ls /\ seqOf k = an_Seq a /\ lineHash k = an_Hash a.
Proof.
  intros [_ -> Hc _ Hh Hn] Ha Hin Hs. set (lines := l :: ls) in *. set (K := an_Seq <$> filter (fun a => seqOf l <= an_Seq a) anchors).
  assert (hits (anchorMap anchors) lines ≡ₚ K) as HK.
  { apply submseteq_length_Permutation.
    - apply NoDup_submseteq; [by eapply hits_nodup |]. intros s. unfold hits. rewrite list_elem_of_filter. intros [Hd Hl].
      apply anchorMap_dom, list_elem_of_fmap in Hd as (b & -> & Hb); [| done].
      apply list_elem_of_fmap. exists b. split; [done |]. apply list_elem_of_filter. split; [| done].
      apply list_elem_of_fmap in Hl as (k & -> & Hk). subst lines. apply elem_of_cons in Hk as [-> | Hk]; [lia |].
      destruct Hc as (_ & _ & _ & _ & Hc). destruct (chain_above _ _ _ _ (seqOf_nonneg l) Hc Hk); [| lia]. pose proof (seqOf_nonneg k). lia.
    - unfold K. rewrite length_fmap. apply countAnchors_ok in Hn. lia. }
  assert (an_Seq a ∈ hits (anchorMap anchors) lines) as Hhit.
  { rewrite HK. apply list_elem_of_fmap. exists a. split; [done |]. by apply list_elem_of_filter. }
  unfold hits in Hhit. apply list_elem_of_filter in Hhit as [_ (k & Hk & Hkl)%list_elem_of_fmap].
  exists k. split; [done |]. split; [done |]. symmetry. apply (Hh k); [done |]. rewrite <- Hk. by apply anchorMap_in.
Qed.

(** ** Two chains that agree on one line agree on what comes before it *)
Lemma chain_prev prev last p k l q : chain prev last (p ++ k :: l :: q)%list -> prevOf l = lineHash k.
Proof. intros H. apply chain_app in H as [_ H]. by destruct H as (_ & _ & _ & _ & _ & H & _). Qed.

Lemma chain_first prev last l q : chain prev last (l :: q) -> prevOf l = prev.
Proof. by intros (_ & ? & _). Qed.

Lemma chain_back p : forall p' l q q' prev prev' n n',
  chain prev n (p ++ l :: q)%list -> chain prev' n' (p' ++ l :: q')%list ->
  (forall x y, x ∈ p -> y ∈ p' -> lineHash x = lineHash y -> x = y) ->
  p' `suffix_of` p \/ p `suffix_of` p' /\ p <> p'.
Proof.
  induction p as [| k p IH] using rev_ind; intros p' l q q' prev prev' n n' Hc Hc' Hinj.
  - destruct p' as [| k' p']; [left; by exists [] | right; split; [apply suffix_nil | done]].
  - destruct p' as [| k' p' _] using rev_ind; [left; apply suffix_nil |].
    rewrite <- app_assoc in Hc, Hc'. cbn [app] in Hc, Hc'.
    assert (k = k') as <-.
    { apply Hinj; [apply elem_of_app; right; by left | apply elem_of_app; right; by left |].
      rewrite <- (chain_prev _ _ _ _ _ _ Hc). apply (chain_prev _ _ _ _ _ _ Hc'). }
    destruct (IH p' k (l :: q) (l :: q') prev prev' n n') as [H | [H Hne]]; try done.
    + intros x y Hx Hy. apply Hinj; apply elem_of_app; by left.
    + left. destruct H as [z ->]. exists z. by rewrite (assoc_L (++)).
    + right. split; [destruct H as [z ->]; exists z; by rewrite (assoc_L (++)) |]. intros H'. by apply app_inj_tail in H' as [-> _].
Qed.

(** ** A chain as the writer makes it passes the check *)
Lemma scanGo_chain seg ls torn : forall c n off, chain (cc_prev c) (cc_lastSeq c) ls -> cc_started c = true ->
  cc_bySeq c = ∅ -> tooLong torn = false -> exists c' n', scanGo (cc_fn seg) (c, n) off ls torn = ((c', n'), ScanEOF).
Proof.
  induction ls as [| l ls IH]; intros c n off Hc Hs Hm Ht; cbn [scanGo]; [rewrite Ht; eauto |].
  destruct Hc as ((h & Hh) & Hp & Hq & Hl & Hc). rewrite Hl.
  assert (cc_begin c h = c) as Hb by (unfold cc_begin; by rewrite Hs).
  assert (seqOf l = h_Seq h /\ prevOf l = h_Prev h) as [Hsq Hpv] by (unfold seqOf, prevOf; by rewrite Hh).
  unfold cc_fn. cbn [fst snd]. rewrite (cc_line_ok _ _ _ _ _ h), Hb; rewrite ?Hb; try done.
  - apply IH; try done. cbn [cc_accept cc_prev cc_lastSeq]. by rewrite <- Hsq.
  - by rewrite <- Hpv.
  - by rewrite <- Hsq.
  - intros want. by rewrite Hm, lookup_empty.
Qed.

Definition wholeEnds (d : list Segment) : Prop := Forall (fun sg => tooLong (tornOf (sg_data sg)) = false) d.

Lemma cc_segs_chain d : forall c, chain (cc_prev c) (cc_lastSeq c) (dirLines d) -> cc_started c = true ->
  cc_bySeq c = ∅ -> wholeEnds d -> exists c', cc_segs c 0 d = (c', ScanEOF).
Proof.
  induction d as [| sg d IH]; intros c Hc Hs Hm Hw; [by exists c |]. cbn [cc_segs]. unfold scanLines. cbn [Z.to_nat]. rewrite sdrop_0.
  change (dirLines (sg :: d)) with (linesOf (sg_data sg) ++ dirLines d)%list in Hc. apply chain_app in Hc as [Hc1 Hc2].
  apply Forall_cons in Hw as [Hw1 Hw2]. unfold linesOf, tornOf in *. destruct (splitLines (sg_data sg)) as [ls torn].
  cbn [fst snd] in *. destruct (scanGo_chain (sg_first sg) ls torn c 0 0 Hc1 Hs Hm Hw1) as (c' & n' & He). rewrite He.
  apply scanGo_reads, reads_all in He as [R1 R2 R3 R4 R5 R6 R7 R8 R9 R10 R11 R12]; [| done].
  apply IH; try done; [by rewrite R7, R8 | by rewrite R2].
Qed.

Lemma cc_segs_begin d l ls h : forall c, dirLines d = l :: ls -> readHdr l = Some h -> tooLong l = false -> wholeEnds d ->
  cc_segs c 0 d = cc_segs (cc_begin c h) 0 d.
Proof.
  induction d as [| sg d IH]; intros c Hd Hh Hl Hw; [done |]. cbn [cc_segs]. unfold scanLines. cbn [Z.to_nat]. rewrite sdrop_0.
  change (dirLines (sg :: d)) with (linesOf (sg_data sg) ++ dirLines d)%list in Hd.
  apply Forall_cons in Hw as [Hw1 Hw2]. unfold linesOf, tornOf in *. destruct (splitLines (sg_data sg)) as [[| k ks] torn]; cbn [fst snd] in *.
  - cbn [scanGo app] in *. rewrite Hw1. by apply IH.
  - cbn [app] in Hd. injection Hd as -> _. cbn [scanGo]. rewrite Hl. unfold cc_fn. cbn [fst snd]. by rewrite cc_begin_line.
Qed.

(** The check of a good chain whose start is named. *)
Theorem Verify_chain d : wholeEnds d ->
  match dirLines d with
  | [] => True
  | l :: ls => chain (prevOf l) 0 (l :: ls) /\ (prevOf l = zeroHash \/ existsb (names (seqOf l) (prevOf l)) (l :: ls) = true)
  end ->
  (Verify d).2 = true /\ rp_OK (Verify d).1 = true /\ rp_Problem (Verify d).1 = None /\
  rp_Records (Verify d).1 = Z.of_nat (List.length (dirLines d)) /\
  rp_LastSeq (Verify d).1 = lastSeqOf 0 (dirLines d).
Proof.
  intros Hw Hd. unfold Verify, VerifyAnchors. set (c0 := mkChainCheck _ _ _ _ _ _ _ _ _).
  destruct (dirLines d) as [| l ls] eqn:El.
  - assert (exists c', cc_segs c0 0 d = (c', ScanEOF)) as [c' Hc'].
    { clear -Hw El. generalize c0. induction d as [| sg d IH]; intros c; [by eexists |]. cbn [cc_segs]. unfold scanLines. cbn [Z.to_nat].
      rewrite sdrop_0. apply app_eq_nil in El as [H1 H2]. apply Forall_cons in Hw as [Hw1 Hw2]. unfold linesOf, tornOf in *.
      destruct (splitLines (sg_data sg)) as [ls torn]. cbn [fst snd] in *. subst ls. cbn [scanGo]. rewrite Hw1. by apply IH. }
    pose proof Hc' as Hr%cc_segs_reads. rewrite El in Hr. inversion Hr; subst c'. by rewrite Hc'.
  - destruct Hd as [Hc Hn]. pose proof Hc as ((h & Hh) & _ & _ & Hl & _).
    assert (seqOf l = h_Seq h /\ prevOf l = h_Prev h) as [Hsq Hpv] by (unfold seqOf, prevOf; by rewrite Hh).
    rewrite (cc_segs_begin d l ls h c0 El Hh Hl Hw).
    destruct (cc_segs_chain d (cc_begin c0 h)) as [c' Hc']; try done; [by rewrite El; cbn; rewrite <- Hpv |].
    rewrite Hc'. apply cc_segs_reads in Hc'. rewrite El in Hc'.
    apply reads_all in Hc' as [R1 R2 R3 R4 [R5 R5'] R6 R7 R8 R9 R10 R11 R12]; [| done].
    assert (cc_startPrev c' = prevOf l) as -> by (rewrite R3; by rewrite Hpv).
    assert (cc_retainedOK c' = existsb (names (seqOf l) (prevOf l)) (l :: ls)) as -> by (rewrite R12, Hsq, Hpv; done).
    assert (cc_started c' && negb (prevOf l =s zeroHash) && negb (existsb (names (seqOf l) (prevOf l)) (l :: ls)) = false) as ->.
    { rewrite R1. destruct Hn as [-> | ->]; [done |]. by rewrite andb_false_r. }
    cbn [countAnchors]. assert (cc_anchorsHit c' = 0) as ->.
    { rewrite R11. change (cc_bySeq (cc_begin c0 h)) with (∅ : gmap Z string). by rewrite hits_empty. }
    cbn [fst snd rp_ok rp_anchors rp_OK rp_Problem rp_Records rp_LastSeq Z.eqb negb]. rewrite R5, R6, R8. repeat split; try done.
Qed.

(** ** Follow *)
(** [h] is an anchor of one of [ls], not past [maxSeq]. *)
Definition anchoredIn (maxSeq : Z) (ls : list string) (h : Anchor) : Prop :=
  exists l, l ∈ ls /\ an_Seq h = seqOf l /\ an_Hash h = lineHash l /\ (maxSeq = 0 \/ an_Seq h <= maxSeq).

Lemma anchoredIn_app maxSeq a b h : anchoredIn maxSeq a h \/ anchoredIn maxSeq b h -> anchoredIn maxSeq (a ++ b)%list h.
Proof. intros [(l & H & K) | (l & H & K)]; exists l; rewrite elem_of_app; auto. Qed.

Lemma cc_line_head seg n c off l c' : cc_line seg n c off l = (c', true) ->
  an_Seq (cc_head c') = seqOf l /\ an_Hash (cc_head c') = lineHash l.
Proof. intros (h & Hh & _ & _ & _ & ->)%cc_line_inv. unfold seqOf. by rewrite Hh. Qed.

Lemma scanGo_follow seg maxSeq ls torn : forall c n head off c' n' head',
  scanGo (fo_fn seg maxSeq) ((c, n), head) off ls torn = (((c', n'), head'), ScanEOF) ->
  reads c ls c' /\ (head' = head \/ anchoredIn maxSeq ls head').
Proof.
  induction ls as [| l ls IH]; intros c n head off c' n' head'; cbn [scanGo].
  - case_match; [done |]. intros [= <- <- <-]. split; [constructor | by left].
  - destruct (tooLong l) eqn:El; [done |]. unfold fo_fn at 1.
    destruct (cc_line seg (n + 1) c off l) as [c1 []] eqn:E; [| done]. cbn [andb]. intros [H1 H2]%IH. split; [by econstructor |].
    destruct H2 as [-> | (k & K1 & K2)]; [| right; exists k; split; [by right | done]].
    destruct ((maxSeq =? 0) || (an_Seq (cc_head c1) <=? maxSeq)) eqn:Em; [| by left]. right. exists l.
    destruct (cc_line_head _ _ _ _ _ _ E) as [-> ->]. split; [by left |]. split; [done |]. split; [done |].
    apply orb_prop in Em as [Em%Z.eqb_eq | Em%Z.leb_le]; [by left |]. right. by rewrite <- (proj1 (cc_line_head _ _ _ _ _ _ E)).
Qed.

Lemma fo_segs_follow maxSeq d : forall c head c' head',
  fo_segs maxSeq c head 0 d = (c', head', ScanEOF) -> reads c (dirLines d) c' /\ (head' = head \/ anchoredIn maxSeq (dirLines d) head').
Proof.
  induction d as [| sg d IH]; intros c head c' head'; cbn [fo_segs]; [intros [= <- <-]; split; [constructor | by left] |].
  unfold scanLines. cbn [Z.to_nat]. rewrite sdrop_0. destruct (splitLines (sg_data sg)) as [ls torn] eqn:Es.
  destruct (scanGo _ _ _ _ _) as [[[c1 n1] head1] []] eqn:E; [| done | done]. intros [H1 H2]%IH. apply scanGo_follow in E as [E1 E2].
  change (dirLines (sg :: d)) with (linesOf (sg_data sg) ++ dirLines d)%list. unfold linesOf. rewrite Es.
  split; [by eapply reads_app |]. destruct H2 as [-> | H2]; [| right; apply anchoredIn_app; by right].
  destruct E2 as [-> | E2]; [by left | right; apply anchoredIn_app; by left].
Qed.

Lemma scanGo_follow_OK seg maxSeq ls torn : forall c n head off,
  rp_OK (cc_rep (scanGo (fo_fn seg maxSeq) ((c, n), head) off ls torn).1.1.1) = rp_OK (cc_rep c).
Proof.
  induction ls as [| l ls IH]; intros c n head off; cbn [scanGo]; [done |]. destruct (tooLong l); [done |].
  unfold fo_fn at 1. pose proof (cc_line_OK seg (n + 1) c off l) as H.
  destruct (cc_line seg (n + 1) c off l) as [c1 []]; cbn [fst] in *; [by rewrite IH | done].
Qed.

Lemma fo_segs_OK maxSeq d : forall c head s, rp_OK (cc_rep (fo_segs maxSeq c head s d).1.1) = rp_OK (cc_rep c).
Proof.
  induction d as [| sg d IH]; intros c head s; [done |]. cbn [fo_segs]. unfold scanLines.
  destruct (splitLines _) as [ls torn]. pose proof (scanGo_follow_OK (sg_first sg) maxSeq ls torn c 0 head s) as H.
  destruct (scanGo _ _ _ _ _) as [[[c1 n1] head1] []]; cbn [fst] in *; [by rewrite IH | done | done].
Qed.

(** The lines behind the anchored one. *)
Definition behind (a : Anchor) (d : list Segment) : list string :=
  match fromSegment (an_Segment a) d with
  | [] => []
  | sg :: r => (linesOf (sdrop (Z.to_nat (an_End a)) (sg_data sg)) ++ dirLines r)%list
  end.

(** When Follow finds the segment of its anchor and no problem, the lines
    behind the anchor continue its chain up to the head it reports, and the
    anchor it returns is the old one or one of a line behind it, not past the
    limit. *)
Theorem Follow_ok d a maxSeq head rep : Follow d a maxSeq = (head, rep, true) -> rp_OK rep = true -> fromSegment (an_Segment a) d <> [] ->
  chain (an_Hash a) (an_Seq a) (behind a d) /\ rp_Head rep = lastHashOf (an_Hash a) (behind a d) /\
  (head = a \/ anchoredIn maxSeq (behind a d) head).
Proof.
  unfold Follow, behind. destruct (fromSegment (an_Segment a) d) as [| sg r]; [done |]. intros H Hok _.
  destruct (_ || _); [done |]. destruct (_ || _ || _ || _); [by injection H as <- <-; cbn in Hok |].
  set (c0 := mkChainCheck _ _ _ _ _ _ _ _ _) in H. pose proof (fo_segs_OK maxSeq (sg :: r) c0 a (an_End a)) as HOK.
  destruct (fo_segs maxSeq c0 a (an_End a) (sg :: r)) as [[c h] []] eqn:E; [| injection H as <- <-; cbn in HOK; congruence | done].
  injection H as <- <-. clear HOK Hok. cbn [fo_segs] in E. unfold scanLines in E. unfold linesOf.
  destruct (splitLines (sdrop _ _)) as [ls torn]. cbn [fst].
  destruct (scanGo _ _ _ _ _) as [[[c1 n1] h1] []] eqn:E1; [| done | done].
  apply scanGo_follow in E1 as [R1 A1]. apply fo_segs_follow in E as [R2 A2].
  destruct (reads_all _ _ _ (reads_app _ _ _ _ _ R1 R2) eq_refl) as [_ _ _ _ _ _ P _ C _ _ _]. split; [exact C |]. split; [exact P |].
  destruct A2 as [-> | A2]; [| right; apply anchoredIn_app; by right]. destruct A1 as [-> | A1]; [by left | right; apply anchoredIn_app; by left].
Qed.

(** * The files of the audit log under the writer's operations

    What [writeBatch] and [reopen] do to the lines of the log and to the
    writer's view of the file it has open. *)

#[local] Opaque lineHash readHdr encode lineOf.

(** ** Directories *)
Definition whole (sg : Segment) : Prop := tornOf (sg_data sg) = "".

(** Segments in the order of their numbers; only the last can end in a part
    of a line, which is no longer than a line. *)
Definition tidy (d : list Segment) : Prop :=
  StronglySorted Z.lt (sg_first <$> d) /\
  (d = [] \/ exists i sg, d = (i ++ [sg])%list /\ Forall whole i /\ slen (tornOf (sg_data sg)) <= MaxRecordBytes).

Lemma dirLines_app a b : dirLines (a ++ b)%list = (dirLines a ++ dirLines b)%list.
Proof. unfold dirLines. by rewrite map_app, concat_app. Qed.
Lemma dirLines_one sg : dirLines [sg] = linesOf (sg_data sg).
Proof. unfold dirLines. cbn. by rewrite app_nil_r. Qed.

Lemma sorted_snoc (l : list Z) x : StronglySorted Z.lt (l ++ [x])%list <-> StronglySorted Z.lt l /\ Forall (fun y => y < x) l.
Proof.
  induction l as [| y l IH]; cbn [app].
  - split; [intros _; split; constructor | intros _; repeat constructor].
  - split.
    + intros H. apply StronglySorted_inv in H as [H1 H2]. apply IH in H1 as [H1 H3]. apply Forall_app in H2 as [H2 H4].
      inversion_clear H4. split; by constructor.
    + intros [H1 H2]. apply StronglySorted_inv in H1 as [H1 H3]. inversion_clear H2. constructor; [by apply IH |].
      apply Forall_app. split; [done | by repeat constructor].
Qed.

Lemma extend_last i sg data : StronglySorted Z.lt (sg_first <$> i ++ [sg])%list ->
  extend (sg_first sg) data (i ++ [sg])%list = (i ++ [mkSegment (sg_first sg) (sg_data sg +:+ data)])%list.
Proof.
  rewrite fmap_app. cbn [fmap list_fmap]. rewrite sorted_snoc. intros [_ H]. unfold extend. rewrite map_app. cbn [map].
  rewrite Z.eqb_refl. f_equal. induction i as [| s i IH]; [done |]. rewrite fmap_cons in H. inversion_clear H as [| ? ? Hs Hi].
  cbn [map]. rewrite (IH Hi). destruct (Z.eqb_spec (sg_first s) (sg_first sg)); [lia | done].
Qed.

Lemma insertSegment_end f d : Forall (fun sg => sg_first sg < f) d -> insertSegment f d = (d ++ [mkSegment f ""])%list.
Proof.
  induction 1 as [| sg d H _ IH]; [done |]. cbn [insertSegment app]. rewrite IH. destruct (Z.ltb_spec f (sg_first sg)); [lia | done].
Qed.

Lemma hasSegment_above f d : Forall (fun sg => sg_first sg < f) d -> hasSegment f d = false.
Proof.
  induction 1 as [| sg d H _ IH]; [done |]. unfold hasSegment in *. cbn [existsb]. rewrite IH.
  destruct (Z.eqb_spec (sg_first sg) f); [lia | done].
Qed.

(** [d1] is [d] with [ls] more lines at its end. *)
Definition grows (d : list Segment) (ls : list string) (d1 : list Segment) : Prop :=
  (List.length d <= List.length d1)%nat /\ dirLines d1 = (dirLines d ++ ls)%list /\
  forall k, (k < List.length d)%nat -> take k d1 = take k d /\ dirLines (drop k d1) = (dirLines (drop k d) ++ ls)%list.

Lemma grows_snoc i sg sg1 t ls : linesOf (sg_data sg1) = (linesOf (sg_data sg) ++ ls)%list -> dirLines t = [] ->
  grows (i ++ [sg])%list ls (i ++ sg1 :: t)%list.
Proof.
  intros Hl Ht. assert (dirLines (sg1 :: t) = (linesOf (sg_data sg) ++ ls)%list) as Ht'.
  { change (sg1 :: t) with ([sg1] ++ t)%list. by rewrite dirLines_app, dirLines_one, Ht, app_nil_r. }
  split; [rewrite !length_app; cbn; lia |]. split; [by rewrite !dirLines_app, Ht', dirLines_one, app_assoc |].
  intros k Hk. rewrite length_app in Hk. cbn in Hk. rewrite !take_app_le, !drop_app_le by lia.
  split; [done |]. by rewrite !dirLines_app, Ht', dirLines_one, app_assoc.
Qed.

Lemma grows_refl d : grows d [] d.
Proof. split; [done |]. rewrite app_nil_r. split; [done |]. intros. by rewrite app_nil_r. Qed.

Lemma grows_trans a l b l' c : grows a l b -> grows b l' c -> grows a (l ++ l')%list c.
Proof.
  intros (H1 & H2 & H3) (K1 & K2 & K3). split; [lia |]. split; [by rewrite K2, H2, app_assoc |].
  intros k Hk. destruct (H3 k Hk) as [T D]. destruct (K3 k ltac:(lia)) as [T' D']. by rewrite T', T, D', D, app_assoc.
Qed.

(** ** The lines of a batch *)
Definition okEntry (e : Entry) : Prop := okRecord (e_rec e) /\ shortRecord (e_rec e).

Fixpoint ascends (n : Z) (l : list Z) : Prop := match l with [] => True | s :: r => n < s /\ ascends s r end.
Definition lastZ (n : Z) (l : list Z) : Z := default n (last l).

Lemma lastZ_cons n s l : lastZ n (s :: l) = lastZ s l.
Proof. unfold lastZ. rewrite last_cons. by destruct (last l). Qed.
Lemma ascends_app n a b : ascends n (a ++ b)%list <-> ascends n a /\ ascends (lastZ n a) b.
Proof. revert n. induction a as [| s a IH]; intros n; cbn [app ascends]; [tauto |]. rewrite IH, lastZ_cons. tauto. Qed.
Lemma ascends_le n m l : n <= m -> ascends m l -> ascends n l.
Proof. destruct l; cbn; [done |]. intros ? []. split; [lia | done]. Qed.
Lemma ascends_elem n l s : ascends n l -> s ∈ l -> n < s.
Proof.
  revert n. induction l as [| x l IH]; intros n H Hs; [by apply not_elem_of_nil in Hs |].
  destruct H as [H1 H2]. apply elem_of_cons in Hs as [-> | Hs]; [done |]. pose proof (IH x H2 Hs). lia.
Qed.
Lemma ascends_last n l : ascends n l -> n <= lastZ n l.
Proof. revert n. induction l as [| x l IH]; intros n H; [done |]. destruct H as [H1 H2]. rewrite lastZ_cons. specialize (IH x H2). lia. Qed.
Lemma ascends_nodup n l : ascends n l -> NoDup l.
Proof.
  revert n. induction l as [| x l IH]; intros n H; [constructor |]. destruct H as [H1 H2]. constructor; [| by eapply IH].
  intros Hx. pose proof (ascends_elem x l x H2 Hx). lia.
Qed.

Lemma chainLines_cons h e l : batchLines h (e :: l) =
  (lineOf (setPrev (e_rec e) h)).1 :: batchLines (lineHash (lineOf (setPrev (e_rec e) h)).1) l.
Proof. unfold batchLines. cbn [chainLines]. by destruct (lineOf _) as [line big]. Qed.

(** The line of an entry, with the header a reader finds. *)
Lemma entry_line e h : okEntry e -> isHash h ->
  let l := (lineOf (setPrev (e_rec e) h)).1 in
  noLF l /\ slen l <= MaxRecordBytes /\ (exists x, readHdr l = Some x) /\ seqOf l = e_seq e /\ prevOf l = h.
Proof.
  intros [Ho Hs] Hh. pose proof (lineOf_spec (setPrev (e_rec e) h) Ho Hs Hh) as H. cbv zeta. destruct (lineOf _) as [l big].
  destruct H as (H1 & H2 & x & Hx & H3 & H4 & _). cbn [fst]. split; [done |]. split; [done |]. split; [by exists x |].
  unfold seqOf, prevOf. rewrite Hx. by rewrite H3, H4.
Qed.

Lemma batchLines_ok batch : forall h, Forall okEntry batch -> isHash h ->
  Forall noLF (batchLines h batch) /\ Forall (fun l => slen l <= MaxRecordBytes) (batchLines h batch) /\
  (seqOf <$> batchLines h batch) = (e_seq <$> batch) /\
  (forall n, ascends n (e_seq <$> batch) -> chain h n (batchLines h batch)).
Proof.
  induction batch as [| e l IH]; intros h Hb Hh; [by repeat split; try constructor |].
  inversion_clear Hb as [| ? ? He Hl]. rewrite chainLines_cons. destruct (entry_line e h He Hh) as (H1 & H2 & H3 & H4 & H5).
  set (line := (lineOf (setPrev (e_rec e) h)).1) in *. clearbody line.
  destruct (IH (lineHash line) Hl (isHash_line line)) as (I1 & I2 & I3 & I4).
  split; [by constructor |]. split; [by constructor |]. split; [by rewrite !fmap_cons, H4, I3 |].
  intros n [Hn Ha]. cbn [chain]. rewrite H4, H5. split; [done |]. split; [done |]. split; [by right |].
  split; [by apply short_line |]. by apply I4.
Qed.

Lemma lastSeqOf_lastZ n ls : lastSeqOf n ls = lastZ n (seqOf <$> ls).
Proof. unfold lastSeqOf, lastZ. rewrite fmap_last. by destruct (last ls). Qed.
Lemma lastHashOf_hash h ls : isHash h -> isHash (lastHashOf h ls).
Proof. intros. unfold lastHashOf. destruct (last ls); [apply isHash_line | done]. Qed.

(** ** writeBatch *)

(** The open file is the last segment, it ends with a line, and the writer
    knows its size. *)
Definition clean (d : list Segment) (w : Writer) : Prop :=
  exists i sg, d = (i ++ [sg])%list /\ w_f w = Some (sg_first sg) /\ Forall whole i /\ whole sg /\ w_segSize w = slen (sg_data sg).

(** Lines of a segment have seqs from its number on. *)
Definition numbered (d : list Segment) : Prop :=
  Forall (fun sg => Forall (fun l => sg_first sg <= seqOf l) (linesOf (sg_data sg))) d.

Definition firstsTo (n : Z) (d : list Segment) : Prop := Forall (fun sg => sg_first sg <= n) d.

(** [w1] differs from [w] in the fields of the file and in tooLarge, which
    only grows. *)
Definition fileOnly (w w1 : Writer) : Prop :=
  exists f s h t, w1 = set_tooLarge (set_file w f s h) t /\ w_tooLarge w ⊆ t.

Lemma fileOnly_refl w : fileOnly w w.
Proof. exists (w_f w), (w_segSize w), (w_lastHash w), (w_tooLarge w). by destruct w. Qed.

Lemma whole_lines sg : whole sg -> sg_data sg <> "" -> linesOf (sg_data sg) <> [].
Proof.
  intros Hw Hn Hl. destruct (splitLines_parts (sg_data sg)) as (_ & _ & He). rewrite Hw, Hl in He. done.
Qed.

Lemma extend_lines sg ls t : whole sg -> Forall noLF ls -> noLF t ->
  let sg1 := mkSegment (sg_first sg) (sg_data sg +:+ joinLines ls +:+ t) in
  linesOf (sg_data sg1) = (linesOf (sg_data sg) ++ ls)%list /\ tornOf (sg_data sg1) = t.
Proof. intros Hw Hl Ht. unfold linesOf at 1, tornOf. cbn [sg_data]. by rewrite splitLines_extend. Qed.

Lemma numbered_snoc i sg sg1 ls : numbered (i ++ [sg])%list -> sg_first sg1 = sg_first sg ->
  linesOf (sg_data sg1) = (linesOf (sg_data sg) ++ ls)%list -> Forall (fun l => sg_first sg <= seqOf l) ls -> numbered (i ++ [sg1])%list.
Proof.
  unfold numbered. rewrite !Forall_app, !Forall_singleton. intros [H1 H2] Hf Hl Hs. split; [done |].
  rewrite Hf, Hl. by apply Forall_app.
Qed.

(** The write itself, in a file that is clean. *)
Lemma write_ok i sg ls : StronglySorted Z.lt (sg_first <$> i ++ [sg])%list -> Forall whole i -> whole sg -> Forall noLF ls ->
  exists sg1, extend (sg_first sg) (joinLines ls) (i ++ [sg])%list = (i ++ [sg1])%list /\ sg_first sg1 = sg_first sg /\
    linesOf (sg_data sg1) = (linesOf (sg_data sg) ++ ls)%list /\ whole sg1 /\ slen (sg_data sg1) = slen (sg_data sg) + slen (joinLines ls).
Proof.
  intros Hs Hi Hw Hl. eexists. split; [by apply extend_last |]. destruct (extend_lines sg ls "" Hw Hl eq_refl) as [H1 H2].
  rewrite sapp_nil_r in H1, H2. cbn [sg_first sg_data] in *. rewrite slen_app. done.
Qed.

Lemma write_fail i sg ls kept : StronglySorted Z.lt (sg_first <$> i ++ [sg])%list -> Forall whole i -> whole sg ->
  Forall noLF ls -> Forall (fun l => slen l <= MaxRecordBytes) ls ->
  exists j sg1, extend (sg_first sg) (stake kept (joinLines ls)) (i ++ [sg])%list = (i ++ [sg1])%list /\ sg_first sg1 = sg_first sg /\
    linesOf (sg_data sg1) = (linesOf (sg_data sg) ++ take j ls)%list /\ slen (tornOf (sg_data sg1)) <= MaxRecordBytes /\
    (kept = 0%nat -> take j ls = [] /\ sg1 = sg).
Proof.
  intros Hs Hi Hw Hl Hm. destruct kept as [| kept].
  - exists 0%nat, sg. rewrite extend_last by done. replace (stake 0 (joinLines ls)) with "" by (by destruct (joinLines ls)).
    rewrite sapp_nil_r, take_0, app_nil_r. unfold whole in Hw. destruct sg as [f data]. cbn [sg_first sg_data] in *. rewrite Hw. by repeat split.
  - destruct (stake_join (S kept) ls Hl) as (j & t & He & Ht & Hj). rewrite extend_last, He by done. exists j. eexists.
    split; [done |]. split; [done |]. destruct (extend_lines sg (take j ls) t Hw) as [H1 H2]; [by apply Forall_take | done |].
    cbn [sg_data] in *. rewrite H1, H2. split; [done |]. split; [| done].
    destruct Hj as [-> | (l & Hlj & Hlen)]; [by unfold MaxRecordBytes |]. rewrite Forall_lookup in Hm. specialize (Hm j l Hlj). cbn in Hm. lia.
Qed.

(** The two ends of writeBatch after the file is chosen. *)
Definition writePart (wio : writeIO) (d : list Segment) (w : Writer) (ls : list string) : option string * list Segment * Writer :=
  let f := default 0 (w_f w) in
  match wio with
  | WriteFail err kept => (Some err, extend f (stake kept (joinLines ls)) d, w)
  | WriteOK => (None, extend f (joinLines ls) d, set_file w (Some f) (w_segSize w + slen (joinLines ls)) (lastHashOf (w_lastHash w) ls))
  end.

Record batchWrote (quiet : Prop) (d : list Segment) (w : Writer) (n : Z) (ls : list string)
  (err : option string) (d1 : list Segment) (w1 : Writer) (added : list string) : Prop := mkWrote {
  wr_prefix : added `prefix_of` ls;
  wr_grows : grows d added d1;
  wr_tidy : tidy d1;
  wr_numbered : numbered d1;
  wr_firsts : firstsTo n d1;
  wr_same : fileOnly w w1;
  wr_ok : err = None -> added = ls /\ clean d1 w1 /\ w_lastHash w1 = lastHashOf (w_lastHash w) ls;
  wr_fail : quiet -> err <> None -> added = [] /\ clean d1 w1 /\ w_lastHash w1 = w_lastHash w }.

Lemma writePart_spec wio d w ls n err d1 w1 : clean d w -> StronglySorted Z.lt (sg_first <$> d) -> numbered d -> firstsTo n d ->
  Forall noLF ls -> Forall (fun l => slen l <= MaxRecordBytes) ls -> Forall (fun l => n <= seqOf l) ls ->
  writePart wio d w ls = (err, d1, w1) ->
  exists added, batchWrote (match wio with WriteFail _ (S _) => False | _ => True end) d w n ls err d1 w1 added.
Proof.
  intros (i & sg & -> & Hf & Hi & Hsg & Hsz) Hs Hn Hto Hl Hm Hq. unfold writePart. rewrite Hf. cbn [default].
  assert (sg_first sg <= n) as Hfn by (unfold firstsTo in Hto; rewrite Forall_app, Forall_singleton in Hto; tauto).
  assert (Hfst : forall sg1, sg_first sg1 = sg_first sg -> sg_first <$> (i ++ [sg1])%list = sg_first <$> (i ++ [sg])%list)
    by (intros sg1 H; rewrite !fmap_app; cbn; by rewrite H).
  assert (Hto1 : forall sg1, sg_first sg1 = sg_first sg -> firstsTo n (i ++ [sg1])%list).
  { intros sg1 H. unfold firstsTo in *. rewrite Forall_app, Forall_singleton in *. by rewrite H. }
  destruct wio as [| e kept]; intros [= <- <- <-].
  - destruct (write_ok i sg ls Hs Hi Hsg Hl) as (sg1 & He & H1 & H2 & H3 & H4). rewrite He. exists ls. split.
    + done.
    + by apply grows_snoc.
    + split; [by rewrite Hfst |]. right. exists i, sg1. split; [done |]. split; [done |]. by rewrite H3.
    + eapply numbered_snoc; eauto. eapply Forall_impl; [exact Hq |]. intros ? ?. cbn in *. lia.
    + by apply Hto1.
    + by exists (Some (sg_first sg)), (w_segSize w + slen (joinLines ls)), (lastHashOf (w_lastHash w) ls), (w_tooLarge w).
    + intros _. split; [done |]. split; [| done]. exists i, sg1. cbn. rewrite H1, H4, Hsz. done.
    + done.
  - destruct (write_fail i sg ls kept Hs Hi Hsg Hl Hm) as (j & sg1 & He & H1 & H2 & H3 & H4). rewrite He. exists (take j ls). split.
    + apply prefix_take.
    + by apply grows_snoc.
    + split; [by rewrite Hfst |]. right. exists i, sg1. done.
    + eapply numbered_snoc; eauto. apply Forall_take. eapply Forall_impl; [exact Hq |]. intros ? ?. cbn in *. lia.
    + by apply Hto1.
    + apply fileOnly_refl.
    + done.
    + intros Hk _. destruct kept as [| kept]; [| done]. destruct (H4 eq_refl) as [-> ->]. split; [done |]. split; [| done]. by exists i, sg.
Qed.

Lemma clean_tidy d w : clean d w -> StronglySorted Z.lt (sg_first <$> d) -> tidy d.
Proof.
  intros (i & sg & -> & _ & Hi & Hsg & _) Hs. split; [done |]. right. exists i, sg. split; [done |]. split; [done |].
  rewrite Hsg. done.
Qed.

Lemma writeBatch_unfold o rio wio d w batch e0 rest : w_f w <> None -> batch = e0 :: rest ->
  let ls := batchLines (w_lastHash w) batch in
  let big : gset Z := list_to_set (omap (fun x : Entry * string * bool => if x.2 then Some (e_seq x.1.1) else None) (chainLines (w_lastHash w) batch)) in
  let w' := set_tooLarge w (w_tooLarge w ∪ big) in
  writeBatch o rio wio d w batch =
  if (0 <? w_segSize w) && (o_SegmentBytes o <? w_segSize w + slen (joinLines ls)) then
    let '(rerr, d2, w2) := rotate rio (e_seq e0) d w' in
    match rerr with Some err => (Some err, d2, w2) | None => writePart wio d2 w2 ls end
  else writePart wio d w' ls.
Proof.
  intros Hf ->. cbv zeta. unfold writeBatch. destruct (w_f w) as [f |] eqn:Ef; [| done]. clear Hf.
  cbn [w_segSize set_tooLarge]. destruct (_ && _); [| done]. destruct (rotate _ _ _ _) as [[[err |] d2] w2] eqn:Er; [done |].
  unfold writePart. assert (w_lastHash w2 = w_lastHash w) as ->; [| done].
  unfold rotate in Er. repeat case_match; simplify_eq; done.
Qed.

Lemma lastSeqOf_one n l : lastSeqOf n [l] = seqOf l.
Proof. done. Qed.

(** A file that is not empty has a smaller number than the next record. *)
Lemma firsts_below d w e0 : clean d w -> StronglySorted Z.lt (sg_first <$> d) -> numbered d -> 0 < w_segSize w ->
  lastSeqOf 0 (dirLines d) < e0 -> Forall (fun sg => sg_first sg < e0) d.
Proof.
  intros (i & sg & -> & _ & _ & Hw & Hsz) Hs Hn Hpos Hlast. rewrite Hsz in Hpos.
  assert (sg_data sg <> "") as Hne by (intros H; rewrite H in Hpos; done).
  assert (exists ls l, linesOf (sg_data sg) = (ls ++ [l])%list) as (ls & l & Hl).
  { pose proof (whole_lines sg Hw Hne). destruct (linesOf (sg_data sg)) as [| l ls _] using rev_ind; [done | eauto]. }
  unfold numbered in Hn. rewrite Forall_app, Forall_singleton in Hn. destruct Hn as [_ Hn]. rewrite Hl in Hn.
  apply Forall_app in Hn as [_ Hn]. rewrite Forall_singleton in Hn.
  rewrite dirLines_app, dirLines_one, Hl, !lastSeqOf_app, lastSeqOf_one in Hlast.
  rewrite fmap_app, fmap_cons, fmap_nil in Hs. apply sorted_snoc in Hs as [_ Hs]. apply Forall_app. split; [| constructor; [lia | done]].
  rewrite Forall_fmap in Hs. eapply Forall_impl; [exact Hs |]. intros x Hx. cbn in Hx. lia.
Qed.

Definition bigMarks (h : string) (batch : list Entry) (t : gset Z) : Prop :=
  forall x, x ∈ chainLines h batch -> x.2 = true -> e_seq x.1.1 ∈ t.

Lemma bigMarks_in h batch (t : gset Z) :
  bigMarks h batch (t ∪ list_to_set (omap (fun x : Entry * string * bool => if x.2 then Some (e_seq x.1.1) else None) (chainLines h batch))).
Proof.
  intros x Hx Hb. apply elem_of_union. right. apply elem_of_list_to_set, list_elem_of_omap. exists x. by rewrite Hb.
Qed.

Theorem writeBatch_spec o rio wio d w batch e0 rest err d1 w1 : batch = e0 :: rest ->
  clean d w -> tidy d -> numbered d -> firstsTo (e_seq e0) d -> Forall okEntry batch -> isHash (w_lastHash w) ->
  ascends (lastSeqOf 0 (dirLines d)) (e_seq <$> batch) ->
  writeBatch o rio wio d w batch = (err, d1, w1) ->
  bigMarks (w_lastHash w) batch (w_tooLarge w1) /\
  exists added, batchWrote (leftNothing rio wio) d w (e_seq e0) (batchLines (w_lastHash w) batch) err d1 w1 added.
Proof.
  intros Hb Hc [Hs _] Hn Hto He Hh Ha. assert (w_f w <> None) as Hf by (destruct Hc as (? & ? & _ & -> & _); done).
  rewrite (writeBatch_unfold o rio wio d w batch e0 rest Hf Hb). cbv zeta.
  destruct (batchLines_ok batch (w_lastHash w) He Hh) as (L1 & L2 & L3 & L4). set (ls := batchLines (w_lastHash w) batch) in *.
  pose proof (bigMarks_in (w_lastHash w) batch (w_tooLarge w)) as Hbig. set (t := w_tooLarge w ∪ _) in *.
  assert (Hq : Forall (fun l => e_seq e0 <= seqOf l) ls).
  { assert (Forall (fun s => e_seq e0 <= s) (seqOf <$> ls)) as H; [| by rewrite Forall_fmap in H].
    rewrite L3, Hb. rewrite Hb in Ha. destruct Ha as [_ Ha]. rewrite fmap_cons.
    constructor; [lia |]. apply Forall_forall. intros s Hin. pose proof (ascends_elem _ _ _ Ha Hin). lia. }
  assert (Hct : clean d (set_tooLarge w t)) by exact Hc.
  assert (Hst : w_tooLarge w ⊆ t) by (subst t; set_solver).
  destruct ((0 <? w_segSize w) && _) eqn:Erot.
  - assert (Hbelow : Forall (fun sg => sg_first sg < e_seq e0) d).
    { apply andb_prop in Erot as [Erot _]. apply Z.ltb_lt in Erot. apply (firsts_below d w (e_seq e0)); try done.
      rewrite Hb in Ha. by destruct Ha. }
    unfold rotate. rewrite (hasSegment_above _ _ Hbelow), (insertSegment_end _ _ Hbelow).
    assert (Hc2 : clean (d ++ [mkSegment (e_seq e0) ""])%list (set_file (set_tooLarge w t) (Some (e_seq e0)) 0 (w_lastHash w))).
    { exists d, (mkSegment (e_seq e0) ""). repeat split; try done. destruct Hc as (i & sg & -> & _ & Hi & Hsg & _).
      apply Forall_app. split; [done | by constructor]. }
    assert (Hs2 : StronglySorted Z.lt (sg_first <$> d ++ [mkSegment (e_seq e0) ""])%list).
    { rewrite fmap_app, fmap_cons, fmap_nil. apply sorted_snoc. split; [done |]. by apply Forall_fmap. }
    assert (Hn2 : numbered (d ++ [mkSegment (e_seq e0) ""])%list) by (apply Forall_app; split; [done | by repeat constructor]).
    assert (Hto2 : firstsTo (e_seq e0) (d ++ [mkSegment (e_seq e0) ""])%list).
    { apply Forall_app. split; [done | constructor; [cbn; lia | done]]. }
    assert (Hg2 : grows d [] (d ++ [mkSegment (e_seq e0) ""])%list).
    { destruct Hc as (i & sg & -> & _). rewrite <- app_assoc. apply grows_snoc; [by rewrite app_nil_r | done]. }
    destruct rio as [| rerr created].
    + cbn [w_lastHash set_tooLarge]. intros Hw. destruct (writePart_spec _ _ _ ls _ _ _ _ Hc2 Hs2 Hn2 Hto2 L1 L2 Hq Hw) as (added & [P1 P2 P3 P4 P5 P6 P7 P8]).
      destruct P6 as (f' & s' & h' & t' & -> & Ht'). cbn in Ht'. split; [intros x Hx Hb'; apply Ht'; by apply (Hbig x) |].
      exists added. split; try done; [apply (grows_trans _ _ _ _ _ Hg2 P2) | exists f', s', h', t'; split; [done | set_solver] |].
      intros [_ H]. by apply P8.
    + intros [= <- <- <-]. split; [exact Hbig |]. exists []. destruct created.
      * split; try done; [apply prefix_nil | by eapply clean_tidy | by exists (w_f w), (w_segSize w), (w_lastHash w), t | by intros [[] _]].
      * split; try done; [apply prefix_nil | apply grows_refl | by eapply clean_tidy | by exists (w_f w), (w_segSize w), (w_lastHash w), t].
  - intros Hw. destruct (writePart_spec _ _ _ ls _ _ _ _ Hct Hs Hn Hto L1 L2 Hq Hw) as (added & [P1 P2 P3 P4 P5 P6 P7 P8]).
    destruct P6 as (f' & s' & h' & t' & -> & Ht'). cbn in Ht'. split; [intros x Hx Hb'; apply Ht'; by apply (Hbig x) |].
    exists added. split; try done; [exists f', s', h', t'; split; [done | set_solver] |]. intros [_ H]. by apply P8.
Qed.

(** ** reopen *)
Lemma cutTorn_snoc i sg : cutTorn (i ++ [sg])%list =
  ((i ++ [mkSegment (sg_first sg) (stake (String.length (sg_data sg) - Z.to_nat (slen (tornOf (sg_data sg)))) (sg_data sg))])%list,
   slen (tornOf (sg_data sg))).
Proof.
  induction i as [| s i IH]; [done |]. cbn [app]. destruct (i ++ [sg])%list as [| x y] eqn:E; [by destruct i |].
  rewrite <- E in *. cbn [cutTorn]. rewrite E, <- E. by rewrite IH.
Qed.

Lemma cut_lines sg (sg1 := mkSegment (sg_first sg) (stake (String.length (sg_data sg) - Z.to_nat (slen (tornOf (sg_data sg)))) (sg_data sg))) :
  linesOf (sg_data sg1) = linesOf (sg_data sg) /\ whole sg1.
Proof.
  destruct (splitLines_parts (sg_data sg)) as (Hl & Ht & He). unfold whole. subst sg1. cbn [sg_data].
  assert (stake (String.length (sg_data sg) - Z.to_nat (slen (tornOf (sg_data sg)))) (sg_data sg) = joinLines (linesOf (sg_data sg))) as ->.
  { rewrite He at 1 3. unfold slen. rewrite slength_app, Nat2Z.id, Nat.add_sub. apply stake_app. }
  unfold linesOf at 1, tornOf. rewrite <- (sapp_nil_r (joinLines _)), splitLines_join by done. done.
Qed.

Lemma cutTorn_spec d d1 torn : tidy d -> numbered d -> cutTorn d = (d1, torn) ->
  grows d [] d1 /\ sg_first <$> d1 = sg_first <$> d /\ numbered d1 /\ List.length d1 = List.length d /\
  (d = [] \/ exists i sg, d1 = (i ++ [sg])%list /\ Forall whole i /\ whole sg).
Proof.
  intros [Hs [-> | (i & sg & -> & Hi & Ht)]] Hn.
  - intros [= <- <-]. split; [apply grows_refl |]. repeat split; try done. by left.
  - rewrite cutTorn_snoc. intros [= <- <-]. destruct (cut_lines sg) as [Hl Hw]. set (sg1 := mkSegment _ _) in *.
    split; [apply grows_snoc; [by rewrite Hl, app_nil_r | done] |]. split; [by rewrite !fmap_app |].
    split; [| split; [by rewrite !length_app | right; by exists i, sg1]].
    eapply numbered_snoc; [done | done | by rewrite Hl, app_nil_r | constructor].
Qed.

Lemma chain_weaken prev n ls : chain prev n ls -> chain prev 0 ls.
Proof. destruct ls; [done |]. intros (H1 & H2 & _ & H3). split; [done |]. split; [done |]. split; [by left | done]. Qed.

Lemma chain_max ls : forall prev n, 0 <= n -> chain prev n ls ->
  foldl (fun m l => match readSeq l with Some s => Z.max m s | None => m end) n ls = lastSeqOf n ls.
Proof.
  induction ls as [| l ls IH]; intros prev n Hn Hc; [done |]. destruct Hc as ((h & Hh) & _ & Hq & _ & Hc).
  cbn [foldl]. rewrite (readSeq_readHdr _ _ Hh), lastSeqOf_cons. assert (h_Seq h = seqOf l) as -> by (unfold seqOf; by rewrite Hh).
  pose proof (seqOf_nonneg l). rewrite Z.max_r by lia. by apply (IH (lineHash l)).
Qed.

Lemma chainHead_spec prev d : chain prev 0 (dirLines d) ->
  chainHead (rev d) = (lastHashOf zeroHash (dirLines d), lastSeqOf 0 (dirLines d)).
Proof.
  induction d as [| sg d IH] using rev_ind; [done |]. rewrite dirLines_app, dirLines_one, rev_app_distr. intros Hc.
  apply chain_app in Hc as [Hc1 Hc2]. cbn [rev app chainHead tail].
  destruct (linesOf (sg_data sg)) as [| l ls _] eqn:El using rev_ind.
  - cbn. rewrite app_nil_r. by apply IH.
  - rewrite last_snoc, length_app, lastHashOf_app, lastSeqOf_app. cbn [List.length].
    destruct (Z.ltb_spec 0 (Z.of_nat (List.length ls + 1))); [| lia]. f_equal.
    + rewrite lastHashOf_app. done.
    + rewrite (chain_max _ _ 0 ltac:(lia) (chain_weaken _ _ _ Hc2)), !lastSeqOf_app. done.
Qed.

Record reopened (d : list Segment) (w : Writer) (d2 : list Segment) (w1 : Writer) : Prop := mkReopened {
  ro_lines : forall k, dirLines (drop k d2) = dirLines (drop k d);
  ro_length : (List.length d <= List.length d2)%nat;
  ro_tidy : tidy d2;
  ro_numbered : numbered d2;
  ro_clean : clean d2 w1;
  ro_hash : w_lastHash w1 = lastHashOf zeroHash (dirLines d);
  ro_next : w_nextSeq w1 = Z.max (w_nextSeq w) (lastSeqOf 0 (dirLines d) + 1);
  ro_firsts : sg_first <$> d2 = sg_first <$> d \/ (d = [] /\ sg_first <$> d2 = [Z.max (w_nextSeq w1) 1]);
  ro_same : exists f s h n, w1 = set_nextSeq (set_file w f s h) n }.

Theorem reopen_spec prev d w d2 w1 torn : tidy d -> numbered d -> chain prev 0 (dirLines d) ->
  reopen ReopenOK d w = (None, d2, w1, torn) -> reopened d w d2 w1.
Proof.
  intros Ht Hn Hc. unfold reopen. destruct (cutTorn d) as [d1 t] eqn:Ec.
  destruct (cutTorn_spec d d1 t Ht Hn Ec) as ((G1 & G2 & G3) & Hf & Hn1 & Hlen & Hend). rewrite app_nil_r in G2.
  rewrite (chainHead_spec prev d1), G2 by (by rewrite G2). set (h := lastHashOf _ _). set (s := lastSeqOf _ _).
  assert (Hnext : (if w_nextSeq w <=? s then s + 1 else w_nextSeq w) = Z.max (w_nextSeq w) (s + 1)) by (destruct (Z.leb_spec (w_nextSeq w) s); lia).
  rewrite Hnext. destruct Hend as [-> | (i & sg & -> & Hi & Hsg)].
  - destruct d1; [| done]. cbn [last]. intros [= <- <- _]. split.
    + intros [| k]; [done |]. cbn [drop]. by rewrite drop_nil.
    + cbn. lia.
    + split; [by repeat constructor |]. right. by exists [], (mkSegment (Z.max (Z.max (w_nextSeq w) (s + 1)) 1) "").
    + by repeat constructor.
    + by exists [], (mkSegment (Z.max (Z.max (w_nextSeq w) (s + 1)) 1) "").
    + done.
    + done.
    + by right.
    + by eexists _, _, _, _.
  - assert (match (i ++ [sg])%list with [] => [mkSegment (Z.max (Z.max (w_nextSeq w) (s + 1)) 1) ""] | _ => (i ++ [sg])%list end = (i ++ [sg])%list) as ->
      by (clear; destruct i; reflexivity).
    rewrite last_snoc. intros [= <- <- _]. destruct Ht as [Hs _]. split.
    + intros k. destruct (decide (k < List.length d)%nat) as [Hk | Hk].
      * rewrite (proj2 (G3 k Hk)). by rewrite app_nil_r.
      * rewrite !drop_ge by lia. done.
    + lia.
    + split; [by rewrite Hf |]. right. exists i, sg. rewrite Hsg. done.
    + done.
    + by exists i, sg.
    + done.
    + done.
    + by left.
    + by eexists _, _, _, _.
Qed.
