(* ===== verification/AuditAccount.v ===== *)
(** * No record of the audit log is lost in silence

    Every record Append took is on disk, in the writer's hands or lost, and
    what was refused or lost is counted: in gap records that are on disk, in
    one that waits to be written, or in [dropped], which the next one takes
    over.  The second part: sequence numbers are used once, and a record that
    was acknowledged has its line ([recorded_reach]). *)

From S2P Require Import Prelude GoLib AuditRecord AuditRead AuditWriter AuditChain.
From Stdlib Require Import String.
Local Open Scope string_scope.
Local Open Scope Z_scope.
Local Open Scope go_scope.
#[local] Opaque encode lineOf batchLines writeBatch planDetail removedDetail.

(** ** Counting *)
Definition total {A} (f : A -> Z) (l : list A) : Z := foldr (fun x n => f x + n) 0 l.

Lemma total_nil {A} (f : A -> Z) : total f [] = 0.
Proof. done. Qed.
Lemma total_cons {A} (f : A -> Z) x l : total f (x :: l) = f x + total f l.
Proof. done. Qed.
Lemma total_app {A} (f : A -> Z) a b : total f (a ++ b)%list = total f a + total f b.
Proof. induction a as [| x a IH]; [done |]. cbn [app]. rewrite !total_cons, IH. lia. Qed.

(** What a record counts on disk: the Dropped of a gap record. *)
Definition gapCount (e : Entry) : Z := match e_src e with Gap | Carried => a_Dropped (e_rec e) | _ => 0 end.
(** What a record carries until it is written. *)
Definition carriedCount (e : Entry) : Z := if carried e then a_Dropped (e_rec e) else 0.
(** One for a record whose loss is a loss. *)
Definition lossCount (e : Entry) : Z := if carried e then 0 else 1.

(** ** The records in the goroutine's hands *)
Definition inflight (pc : PC) : list Entry :=
  match pc with
  | PTook b _ _ | PWritten b _ | PFailed _ b | PRetain _ b | PRetained _ b | PReopened b _ _ | PLost b _ => b
  | PRecover b _ _ ret gap => allOf b ret gap
  | PRecovered _ all _ => all
  | PNew | PIdle | PPlanned _ | PRemove _ | PDone => []
  end.

Definition notGap (e : Entry) : Prop := e_src e <> Gap.

Definition handsOK (pc : PC) : Prop :=
  match pc with
  | PRecover b _ _ ret gap => Forall notGap b /\ Forall notGap (option_list ret) /\ e_src gap = Gap
  | PRecovered _ all gap => exists b, all = (b ++ [gap])%list /\ Forall notGap b /\ e_src gap = Gap
  | _ => Forall notGap (inflight pc)
  end.

Definition fromAppend (e : Entry) : Prop := e_src e = Appended.
#[export] Instance fromAppend_dec e : Decision (fromAppend e).
Proof. unfold fromAppend. solve_decision. Defined.

Record counted (wd : World) : Prop := mkCounted {
  cn_hands : handsOK (wd_pc wd);
  cn_queue : Forall notGap (w_queue (wd_w wd));
  cn_sum : g_refused (wd_g wd) + total lossCount (g_lost (wd_g wd)) =
           total gapCount (g_acked (wd_g wd)) + w_dropped (wd_w wd) + total carriedCount (inflight (wd_pc wd) ++ w_queue (wd_w wd))%list;
  cn_taken : filter fromAppend (g_acked (wd_g wd) ++ g_lost (wd_g wd) ++ inflight (wd_pc wd) ++ w_queue (wd_w wd))%list
             ≡ₚ g_taken (wd_g wd) }.

(** ** What the operations do to these counts *)
Lemma gapCount_notGap l : Forall notGap l -> total gapCount l = total carriedCount l.
Proof.
  induction 1 as [| e l He _ IH]; [done |]. rewrite !total_cons, IH. f_equal. unfold gapCount, carriedCount, carried, notGap in *.
  by destruct (e_src e).
Qed.

Lemma foldl_total {A} (f : A -> Z) l : forall n, foldl (fun n x => n + f x) n l = n + total f l.
Proof. induction l as [| x l IH]; intros n; cbn [foldl]; [cbn; lia |]. rewrite IH, total_cons. lia. Qed.

Lemma countLost_dropped b w : w_dropped (countLost b w) = w_dropped w + total carriedCount b + total lossCount b.
Proof.
  unfold countLost. cbn [w_dropped set_lost]. generalize (w_dropped w). induction b as [| e b IH]; intros n; cbn [foldl]; [cbn; lia |].
  rewrite IH, !total_cons. unfold carriedCount, lossCount. destruct (carried e); lia.
Qed.

Lemma writeBatch_shared o rio wio d w b err d1 w1 : writeBatch o rio wio d w b = (err, d1, w1) ->
  w_queue w1 = w_queue w /\ w_dropped w1 = w_dropped w /\ w_nextSeq w1 = w_nextSeq w /\ w_failed w1 = w_failed w /\
  w_st w1 = w_st w /\ w_unnamed w1 = w_unnamed w /\ w_closed w1 = w_closed w /\ w_active w1 = w_active w /\ w_durable w1 = w_durable w.
Proof. Transparent writeBatch. unfold writeBatch, rotate. Opaque writeBatch. intros H. repeat case_match; simplify_eq; by repeat split. Qed.

Lemma reopen_shared io d w err d1 w1 t : reopen io d w = (err, d1, w1, t) ->
  w_queue w1 = w_queue w /\ w_dropped w1 = w_dropped w /\ w_failed w1 = w_failed w /\ w_st w1 = w_st w /\ w_unnamed w1 = w_unnamed w /\
  w_tooLarge w1 = w_tooLarge w /\ w_closed w1 = w_closed w /\ w_active w1 = w_active w.
Proof. unfold reopen. intros H. repeat case_match; simplify_eq; by repeat split. Qed.

Lemma activate_shared o pio rio wio now d w d1 w1 acked : activate o pio rio wio now d w = (d1, w1, acked) ->
  w_queue w1 = w_queue w /\ w_dropped w1 = w_dropped w /\ w_st w1 = w_st w /\ w_unnamed w1 = w_unnamed w /\
  Forall (fun e => e_src e = Announced) acked.
Proof.
  unfold activate, start. destruct (reopen pio d w) as [[[e1 d2] w2] t] eqn:Er. apply reopen_shared in Er.
  destruct e1 as [e1 |]; [intros [= <- <- <-]; cbn; repeat split; try constructor; tauto |].
  destruct (writeBatch _ _ _ _ _ _) as [[e2 d3] w3] eqn:Ew. apply writeBatch_shared in Ew. cbn in Ew.
  destruct e2; intros [= <- <- <-]; cbn; repeat split; repeat constructor; intuition congruence.
Qed.

Lemma filter_app_announced l : Forall (fun e => e_src e = Announced) l -> filter fromAppend l = [] /\ total gapCount l = 0.
Proof.
  induction 1 as [| e l He _ [IH1 IH2]]; [done |]. rewrite filter_cons, total_cons, IH1, IH2. split; [| unfold gapCount; by rewrite He].
  rewrite decide_False; [done |]. unfold fromAppend. by rewrite He.
Qed.

(** What Append adds to the queue. *)
Lemma Append_cases o w r now res w1 : Append o w r now = (res, w1) ->
  (exists e, res = Ok (w_nextSeq w) /\ e_seq e = w_nextSeq w /\ e_src e = Appended /\ w_active w = true /\ w_closed w = false /\ w_failed w = None /\
     e_rec e = setSeqTS r (w_nextSeq w) (if a_TS r =? 0 then now else a_TS r) /\
     w1 = set_queue (set_nextSeq w (w_nextSeq w + 1)) (w_queue w ++ [e])%list) \/
  (exists x, res = Err x /\ (x = ErrUnavailable \/ x = ErrQueueFull) /\ w1 = set_dropped w (w_dropped w + 1)) \/
  (exists x, res = Err x /\ x <> ErrUnavailable /\ x <> ErrQueueFull /\ w1 = w).
Proof.
  unfold Append. destruct (w_closed w) eqn:E1; [intros [= <- <-]; right; right; by eexists |].
  destruct (w_active w) eqn:E2; cbn [negb]; [| intros [= <- <-]; right; right; by eexists].
  destruct (bool_decide _) eqn:E3; [intros [= <- <-]; right; left; eexists; split; [done |]; split; [by left | done] |].
  destruct (_ <=? _); [intros [= <- <-]; right; left; eexists; split; [done |]; split; [by right | done] |].
  intros [= <- <-]. left. exists (mkEntry (setSeqTS r (w_nextSeq w) (if a_TS r =? 0 then now else a_TS r)) Appended).
  apply bool_decide_eq_false in E3.
  assert (w_failed w = None) by (destruct (w_failed w); [exfalso; by apply E3 | done]). done.
Qed.

Lemma recoverRecords_src plan now w ret gap w1 : recoverRecords plan now w = (ret, gap, w1) ->
  Forall (fun e => e_src e = Announced) (option_list ret) /\ e_src gap = Gap /\ a_Dropped (e_rec gap) = w_dropped w /\
  w_queue w1 = w_queue w /\ w_dropped w1 = w_dropped w.
Proof. unfold recoverRecords. intros H. repeat case_match; simplify_eq; cbn; repeat split; repeat constructor. Qed.

Lemma carriedCount_carried e : e_src e = Carried -> carriedCount e = a_Dropped (e_rec e).
Proof. intros H. unfold carriedCount, carried. by rewrite bool_decide_true. Qed.

Lemma recoverDone_counts all gap now w :
  let w1 := recoverDone all gap now w in
  exists q, w_queue w1 = (q ++ w_queue w)%list /\ Forall (fun e => e_src e = Carried) q /\
    w_dropped w1 + total carriedCount q = w_dropped w - a_Dropped (e_rec gap).
Proof.
  unfold recoverDone. cbn [w_dropped set_durable set_dropped set_unnamed]. cbv zeta.
  destruct (Z.ltb_spec 0 (w_dropped w - a_Dropped (e_rec gap))).
  - eexists [_]. split; [reflexivity |]. split; [by repeat constructor |]. rewrite total_cons, total_nil, carriedCount_carried by done.
    cbn. lia.
  - exists []. cbn. split; [done |]. split; [done |]. lia.
Qed.

(** ** Every step keeps the counts *)
Ltac wcbn := cbn [wd_disk wd_w wd_pc wd_g g_taken g_refused g_lost g_acked w_queue w_dropped set_queue set_nextSeq set_dropped set_failed
  set_durable set_life set_lost set_removed set_file set_tooLarge set_unnamed closeFile g_ack g_lose g_remove g_write g_restart] in *.

Lemma filter_notapp e : e_src e <> Appended -> filter fromAppend [e] = [].
Proof. intros H. rewrite filter_cons, decide_False; done. Qed.

Lemma notGap_announced l : Forall (fun e => e_src e = Announced) l -> Forall notGap l.
Proof. intros H. eapply Forall_impl; [exact H |]. unfold notGap. by intros e ->. Qed.

Lemma counted_fresh : counted freshWorld.
Proof. split; [constructor | constructor | done | done]. Qed.

Lemma total_carried_announced l : Forall (fun e => e_src e = Announced) l -> total carriedCount l = 0.
Proof. intros H. rewrite <- gapCount_notGap by (by apply notGap_announced). by apply filter_app_announced. Qed.

Section steps.
Context (o : Options) (c : Calm).

Lemma wb_shared rio wio d w b g err d1 w1 g1 : wb o rio wio d w b g = (err, d1, w1, g1) ->
  w_queue w1 = w_queue w /\ w_dropped w1 = w_dropped w /\
  g_taken g1 = g_taken g /\ g_refused g1 = g_refused g /\ g_lost g1 = g_lost g /\ g_acked g1 = g_acked g.
Proof.
  unfold wb. destruct (writeBatch _ _ _ _ _ _) as [[e d'] w'] eqn:E. apply writeBatch_shared in E as (E1 & E2 & _).
  intros [= <- <- <- <-]. by destruct e.
Qed.

(** A step that only moves the goroutine on, with the same records. *)
Lemma counted_same wd wd' : counted wd -> handsOK (wd_pc wd') ->
  total carriedCount (inflight (wd_pc wd')) = total carriedCount (inflight (wd_pc wd)) ->
  filter fromAppend (inflight (wd_pc wd')) = filter fromAppend (inflight (wd_pc wd)) ->
  w_queue (wd_w wd') = w_queue (wd_w wd) -> w_dropped (wd_w wd') = w_dropped (wd_w wd) ->
  g_taken (wd_g wd') = g_taken (wd_g wd) -> g_refused (wd_g wd') = g_refused (wd_g wd) ->
  g_lost (wd_g wd') = g_lost (wd_g wd) -> g_acked (wd_g wd') = g_acked (wd_g wd) -> counted wd'.
Proof.
  intros [H1 H2 H3 H4] Hh Hc Hf Hq Hd G1 G2 G3 G4. split; [done | by rewrite Hq | |].
  - rewrite G2, G3, G4, Hd, Hq, total_app, Hc. by rewrite total_app in H3.
  - rewrite G1, G3, G4, Hq, <- H4. rewrite !filter_app, Hf. done.
Qed.

(** A batch is acknowledged. *)
Lemma counted_ack d w pc g b w' pc' : counted (mkWorld d w pc g) -> inflight pc = b -> Forall notGap b ->
  inflight pc' = [] -> handsOK pc' -> w_queue w' = w_queue w -> w_dropped w' = w_dropped w ->
  counted (mkWorld d w' pc' (g_ack g b)).
Proof.
  intros [H1 H2 H3 H4] Hi Hb Hi' Hh Hq Hd. cbn [wd_w wd_pc wd_g wd_disk] in *. split; cbn [wd_w wd_pc wd_g g_ack g_refused g_lost g_acked g_taken]; [done | by rewrite Hq | |].
  - rewrite Hi', Hq, Hd, total_app, (gapCount_notGap b Hb). rewrite Hi, total_app in H3. cbn [app]. lia.
  - rewrite Hi', Hq, <- H4, Hi. cbn [app]. apply filter_Permutation. rewrite <- !app_assoc. apply Permutation_app_head.
    rewrite !app_assoc. apply Permutation_app_tail. apply Permutation_app_comm.
Qed.

(** A batch is lost. *)
Lemma counted_lose d w pc g b w' pc' : counted (mkWorld d w pc g) -> inflight pc = b ->
  inflight pc' = [] -> handsOK pc' -> w_queue w' = w_queue w ->
  w_dropped w' = w_dropped w + total carriedCount b + total lossCount b ->
  counted (mkWorld d w' pc' (g_lose g b)).
Proof.
  intros [H1 H2 H3 H4] Hi Hi' Hh Hq Hd. cbn [wd_w wd_pc wd_g wd_disk] in *. split; cbn [wd_w wd_pc wd_g g_lose g_refused g_lost g_acked g_taken]; [done | by rewrite Hq | |].
  - rewrite Hi', Hq, Hd, total_app. rewrite Hi, total_app in H3. cbn [app]. lia.
  - rewrite Hi', Hq, <- H4, Hi. cbn [app]. by rewrite <- !app_assoc.
Qed.

(** The queue is taken, with records of the writer's own behind it. *)
Lemma counted_take d w g pc' own w' : counted (mkWorld d w PIdle g) \/ (exists p, counted (mkWorld d w (PPlanned p) g)) ->
  inflight pc' = (w_queue w ++ own)%list -> handsOK pc' -> Forall (fun e => e_src e = Announced) own ->
  w_queue w' = [] -> w_dropped w' = w_dropped w -> counted (mkWorld d w' pc' g).
Proof.
  intros H Hi Hh Ho Hq Hd. assert (counted (mkWorld d w PIdle g)) as [H1 H2 H3 H4] by (destruct H as [H | [p [H1 H2 H3 H4]]]; [done | by split]).
  cbn [wd_w wd_pc wd_g wd_disk] in *. split; cbn [wd_w wd_pc wd_g]; [done | by rewrite Hq | |].
  - rewrite Hi, Hq, Hd, app_nil_r, total_app, (total_carried_announced own Ho). cbn [inflight app] in H3. lia.
  - rewrite Hi, Hq, app_nil_r, <- H4. cbn [inflight app]. rewrite !filter_app, (proj1 (filter_app_announced own Ho)), app_nil_r. done.
Qed.

(** Append. *)
Lemma counted_append d w pc g r now res w1 : counted (mkWorld d w pc g) -> Append o w r now = (res, w1) ->
  counted (mkWorld d w1 pc (g_append g w w1 res)).
Proof.
  intros [H1 H2 H3 H4] Ha. cbn [wd_w wd_pc wd_g wd_disk] in *.
  destruct (Append_cases _ _ _ _ _ _ Ha) as [(e & -> & _ & Hs & _ & _ & _ & _ & ->) | [(x & -> & Hx & ->) | (x & -> & Hx1 & Hx2 & ->)]].
  - assert (g_append g w (set_queue (set_nextSeq w (w_nextSeq w + 1)) (w_queue w ++ [e])%list) (Ok (w_nextSeq w)) =
      mkGhost (g_taken g ++ [e])%list (g_refused g) (g_lost g) (g_acked g) (g_durable g) (g_removed g)) as ->
      by (cbn; by rewrite drop_app_length).
    split; wcbn; [done | | |].
    + apply Forall_app. split; [done |]. constructor; [| done]. unfold notGap. by rewrite Hs.
    + rewrite app_assoc, total_app, total_cons, total_nil. unfold carriedCount at 2, carried. rewrite Hs.
      rewrite bool_decide_false by done. lia.
    + rewrite <- H4, !app_assoc, filter_app. apply Permutation_app_head. rewrite filter_cons. by rewrite decide_True.
  - destruct Hx as [-> | ->]; split; wcbn; cbn [g_append]; wcbn; try done; lia.
  - destruct x; try done; by split.
Qed.

Lemma notGap_app a b : Forall notGap a -> Forall (fun e => e_src e = Announced) b -> Forall notGap (a ++ b)%list.
Proof. intros. apply Forall_app. split; [done | by apply notGap_announced]. Qed.

Lemma carried_gap gap : e_src gap = Gap -> carriedCount gap = 0 /\ filter fromAppend [gap] = [].
Proof.
  intros H. split; [unfold carriedCount, carried; rewrite bool_decide_false; [done | by rewrite H] |]. apply filter_notapp. by rewrite H.
Qed.

Lemma allOf_counts b ret gap : Forall (fun e => e_src e = Announced) (option_list ret) -> e_src gap = Gap ->
  total carriedCount (allOf b ret gap) = total carriedCount b /\ filter fromAppend (allOf b ret gap) = filter fromAppend b.
Proof.
  intros Hr Hg. unfold allOf. destruct (carried_gap gap Hg) as [H1 H2]. destruct (filter_app_announced _ Hr) as [H3 _].
  rewrite !total_app, !filter_app, H2, H3, total_cons, total_nil, H1, (total_carried_announced _ Hr), !app_nil_r. split; [lia | done].
Qed.

Lemma announced_renamed p st e ret : e_src (renamed p st e ret) = e_src ret.
Proof. done. Qed.

(** The retention record of recover is the writer's own. *)
Definition retAnnounced (pc : PC) : Prop :=
  match pc with PRecover _ _ _ ret _ => Forall (fun e => e_src e = Announced) (option_list ret) | _ => True end.

Lemma retAnnounced_step wd wd' : astep o c wd wd' -> retAnnounced (wd_pc wd) -> retAnnounced (wd_pc wd').
Proof.
  intros Hs Hr. destruct Hs; cbn [wd_pc retAnnounced] in *; try done; try (by repeat case_match).
  by match goal with H : recoverRecords _ _ _ = _ |- _ => apply recoverRecords_src in H as [H _] end.
Qed.

Lemma counted_activate d w g pio rio wio now d1 w1 acked h : counted (mkWorld d w PNew g) ->
  activate o pio rio wio now d w = (d1, w1, acked) ->
  counted (mkWorld d1 w1 PIdle (g_ack (g_write g (batchLines h acked)) acked)).
Proof.
  intros [H1 H2 H3 H4] (Hq & Hd & _ & _ & Ha)%activate_shared. destruct (filter_app_announced _ Ha) as [F1 F2].
  wcbn. split; wcbn; [constructor | by rewrite Hq | by rewrite Hq, Hd, total_app, F2; cbn [inflight] in *; lia |].
  rewrite Hq, <- H4. cbn [inflight app]. rewrite !filter_app, F1, app_nil_r. done.
Qed.

Lemma counted_done d w g all gap now : counted (mkWorld d w (PRecovered None all gap) g) ->
  counted (mkWorld d (recoverDone all gap now w) PIdle (g_ack g all)).
Proof.
  intros [(b & -> & Hb & Hg) H2 H3 H4]. wcbn. destruct (recoverDone_counts (b ++ [gap])%list gap now w) as (q & Hq & Hc & Hd).
  destruct (carried_gap gap Hg) as [C1 C2]. assert (Forall notGap q) as Hn by (eapply Forall_impl; [exact Hc |]; unfold notGap; by intros e ->).
  split; wcbn; [constructor | rewrite Hq; by apply Forall_app | |].
  - rewrite Hq. cbn [inflight app] in *. rewrite !total_app, total_cons, total_nil in *. rewrite (gapCount_notGap b Hb).
    assert (gapCount gap = a_Dropped (e_rec gap)) by (unfold gapCount; by rewrite Hg). lia.
  - rewrite Hq, <- H4. cbn [inflight app]. assert (filter fromAppend q = []) as Hf.
    { clear -Hc. induction Hc as [| e q He _ IH]; [done |]. rewrite filter_cons, IH, decide_False; [done |]. unfold fromAppend. by rewrite He. }
    rewrite !filter_app, C2, Hf, !app_nil_r. cbn [app]. rewrite <- !app_assoc. apply Permutation_app_head.
    rewrite !app_assoc. apply Permutation_app_tail, Permutation_app_comm.
Qed.

Lemma countLost_queue b w : w_queue (countLost b w) = w_queue w.
Proof. done. Qed.

Theorem counted_step wd wd' : astep o c wd wd' -> retAnnounced (wd_pc wd) -> counted wd -> counted wd'.
Proof.
  intros Hs Hr H. pose proof (cn_hands _ H) as Hh. destruct Hs; wcbn.
  - by eapply counted_append.
  - eapply counted_same; [exact H | ..]; wcbn; try done; unfold Close; by repeat case_match.
  - by eapply counted_activate.
  - unfold takeQueue in *. simplify_eq. eapply (counted_take _ _ _ _ []); [by left | by rewrite app_nil_r | | done..]. apply (cn_queue _ H).
  - eapply counted_same; [exact H | ..]; wcbn; destruct closing; try done; constructor.
  - match goal with H : wb _ _ _ _ _ _ _ = _ |- _ => apply wb_shared in H as (? & ? & ? & ? & ? & ?) end.
    eapply counted_same; [exact H | ..]; wcbn; try done; by destruct err.
  - eapply counted_ack; [exact H | done | done | ..]; try done; repeat case_match; first [done | constructor].
  - eapply counted_lose; [exact H | done | done | constructor | done |]. unfold fail. by rewrite countLost_dropped.
  - eapply counted_same; [exact H | ..]; done.
  - unfold takeRetain, takeQueue in *. simplify_eq. eapply (counted_take _ _ _ _ [planRecord p (w_nextSeq w) now]); [right; by exists p | done | | by repeat constructor | done | done].
    apply notGap_app; [apply (cn_queue _ H) | by repeat constructor].
  - match goal with H : wb _ _ _ _ _ _ _ = _ |- _ => apply wb_shared in H as (? & ? & ? & ? & ? & ?) end.
    eapply counted_same; [exact H | ..]; wcbn; try done; by destruct err.
  - eapply counted_ack; [exact H | done | done | ..]; try done; constructor.
  - unfold removeSegments in *. simplify_eq. eapply counted_same; [exact H | ..]; done.
  - match goal with H : reopen _ _ _ = _ |- _ => apply reopen_shared in H as (? & ? & _) end.
    eapply counted_same; [exact H | ..]; wcbn; try done; by destruct err.
  - match goal with H : recoverRecords _ _ _ = _ |- _ => apply recoverRecords_src in H as (R1 & R2 & _ & R4 & R5) end.
    destruct (allOf_counts batch ret gap R1 R2) as [A1 A2].
    eapply counted_same; [exact H | ..]; wcbn; try done. split; [done |]. split; [by apply notGap_announced | done].
  - match goal with H : wb _ _ _ _ _ _ _ = _ |- _ => apply wb_shared in H as (? & ? & ? & ? & ? & ?) end.
    destruct Hh as (B1 & B2 & B3). eapply counted_same; [exact H | ..]; wcbn; try done.
    exists (batch ++ option_list ret)%list. unfold allOf. split; [by rewrite app_assoc |]. split; [by apply Forall_app | done].
  - match goal with H : wb _ _ _ _ _ _ _ = _ |- _ => apply wb_shared in H as (? & ? & ? & ? & ? & ?) end.
    destruct Hh as (B1 & B2 & B3). destruct (allOf_counts batch ret gap Hr B3) as [A1 A2].
    eapply counted_same; [exact H | ..]; wcbn; done.
  - unfold removeSegments in *. simplify_eq. subst all w2'.
    repeat match goal with H : wb _ _ _ _ _ _ _ = _ |- _ => apply wb_shared in H as (? & ? & ? & ? & ? & ?) end.
    destruct Hh as (B1 & B2 & B3). destruct (allOf_counts batch (Some ret) gap Hr B3) as [A1 A2].
    cbn [option_list retAnnounced] in Hr. inversion_clear Hr as [| ? ? Hret _].
    destruct (allOf_counts batch (Some (renamed p st e ret)) gap ltac:(by repeat constructor) B3) as [A3 A4]. wcbn.
    assert (handsOK (PRecovered None (allOf batch (Some (renamed p st e ret)) gap) gap)).
    { exists (batch ++ [renamed p st e ret])%list. unfold allOf. cbn [option_list]. split; [by rewrite <- app_assoc |]. split; [| done].
      apply Forall_app. split; [done |]. constructor; [| done]. unfold notGap. by rewrite announced_renamed, Hret. }
    destruct err2; (eapply counted_same; [exact H | ..]; wcbn; cbn [inflight]; try done; congruence).
  - by apply counted_done.
  - unfold removeSegments in *. simplify_eq. eapply counted_same; [exact H | ..]; done.
  - eapply counted_lose; [exact H | done | by destruct closing | destruct closing; constructor | by destruct closing |].
    destruct closing; wcbn; by rewrite countLost_dropped.
  - split; wcbn; [constructor | constructor | done | done].
Qed.

Theorem counted_reach wd : rtc (astep o c) freshWorld wd -> counted wd.
Proof.
  intros Hr. enough (counted wd /\ retAnnounced (wd_pc wd)) by tauto.
  revert wd Hr. apply (rtc_ind_r (fun wd => counted wd /\ retAnnounced (wd_pc wd)) freshWorld); [split; [apply counted_fresh | done] |].
  intros y z _ Hyz []. split; [by eapply counted_step | by eapply retAnnounced_step].
Qed.
End steps.

(** * A record that was acknowledged is in the log *)

#[local] Opaque encode lineOf batchLines writeBatch planDetail removedDetail lineHash.

(** ** Sequence numbers are used once *)
Definition inHands (wd : World) : list Entry :=
  (g_acked (wd_g wd) ++ g_lost (wd_g wd) ++ inflight (wd_pc wd) ++ w_queue (wd_w wd))%list.

Definition once (n : Z) (l : list Z) : Prop := NoDup l /\ Forall (fun s => s < n) l.

Lemma submseteq_NoDup {A} (l k : list A) : l ⊆+ k -> NoDup k -> NoDup l.
Proof.
  intros Hs Hk. apply submseteq_Permutation in Hs as [r Hr]. rewrite Hr in Hk. by apply NoDup_app in Hk as [? _].
Qed.

Lemma once_keep n n' l l' fresh : once n l -> l' ⊆+ (l ++ fresh)%list -> n <= n' -> NoDup fresh -> Forall (fun s => n <= s < n') fresh -> once n' l'.
Proof.
  intros [H1 H2] Hs Hn Hf Hr. rewrite Forall_forall in *. split.
  - eapply submseteq_NoDup; [exact Hs |]. apply NoDup_app. split; [done |]. split; [| done].
    intros s Hl Hk. pose proof (H2 s Hl). pose proof (Hr s Hk). cbn in *. lia.
  - apply Forall_forall. intros s Hl. apply (elem_of_submseteq _ _ _ Hl) in Hs. apply elem_of_app in Hs as [Hs | Hs]; [pose proof (H2 s Hs) | pose proof (Hr s Hs)]; cbn in *; lia.
Qed.

(** ** Lines of the records that were written *)
Definition written (pc : PC) : list Entry :=
  match pc with PWritten b _ | PRetained _ b | PRecovered _ b _ => b | _ => [] end.

(** The line of [e], behind some line, is among [ls]; a record that was too
    large for one is marked. *)
Definition hasLine (ls : list string) (big : gset Z) (e : Entry) : Prop :=
  exists h, (lineOf (setPrev (e_rec e) h)).1 ∈ ls /\ ((lineOf (setPrev (e_rec e) h)).2 = true -> e_seq e ∈ big).

Lemma hasLine_mono ls ls' (big big' : gset Z) e : ls ⊆ ls' -> big ⊆ big' -> hasLine ls big e -> hasLine ls' big' e.
Proof. intros Hl Hb (h & H1 & H2). exists h. split; [by apply Hl |]. intros H. by apply Hb, H2. Qed.

Lemma chainLines_hasLine h b (big : gset Z) : bigMarks h b big -> Forall (hasLine (batchLines h b) big) b.
Proof.
  Transparent batchLines. unfold bigMarks, batchLines. revert h. induction b as [| e b IH]; intros h Hb; [done |].
  cbn [chainLines] in *. destruct (lineOf (setPrev (e_rec e) h)) as [l x] eqn:El. cbn [map]. constructor.
  - exists h. rewrite El. cbn. split; [by left |]. intros ->. by apply (Hb _ ltac:(by left)).
  - eapply Forall_impl; [apply (IH (lineHash l)) |].
    + intros y Hy. apply Hb. by right.
    + intros y Hy. eapply hasLine_mono; [| | exact Hy]; [| done]. intros z Hz. by right.
Qed.
#[local] Opaque batchLines.

Lemma writeBatch_marks o rio wio d w b err d1 w1 : writeBatch o rio wio d w b = (err, d1, w1) ->
  w_tooLarge w ⊆ w_tooLarge w1 /\ (err = None -> bigMarks (w_lastHash w) b (w_tooLarge w1)).
Proof.
  Transparent writeBatch. unfold writeBatch, rotate. Opaque writeBatch. intros H.
  destruct (w_f w) eqn:Ef; [| simplify_eq; done].
  assert (w_tooLarge w1 = w_tooLarge w ∪ list_to_set (omap (fun x : Entry * string * bool => if x.2 then Some (e_seq x.1.1) else None) (chainLines (w_lastHash w) b))) as ->
    by (repeat case_match; simplify_eq; done).
  split; [set_solver |]. intros _. apply bigMarks_in.
Qed.

(** ** The invariant *)
Record recorded (wd : World) : Prop := mkRecorded {
  rc_once : once (w_nextSeq (wd_w wd)) (e_seq <$> inHands wd);
  rc_lines : Forall (hasLine (g_durable (wd_g wd)) (w_tooLarge (wd_w wd))) (g_acked (wd_g wd) ++ written (wd_pc wd))%list;
  rc_durable : forall s, w_st (wd_w wd) !! s = Some StDurable -> s ∈ e_seq <$> g_acked (wd_g wd);
  rc_lost : forall s, w_st (wd_w wd) !! s = Some StLost -> s ∈ e_seq <$> g_lost (wd_g wd) }.

Lemma markAll_lookup x b : forall st s y, markAll x b st !! s = Some y -> (y = x /\ s ∈ e_seq <$> b) \/ st !! s = Some y.
Proof.
  unfold markAll. induction b as [| e b IH]; intros st s y; cbn [foldl]; [by right |]. intros [[-> Hs] | H]%IH.
  - left. split; [done |]. rewrite fmap_cons. by right.
  - destruct (decide (s = e_seq e)) as [-> | Hne]; [rewrite lookup_insert_eq in H | rewrite lookup_insert_ne in H by done; by right].
    simplify_eq. left. split; [done |]. rewrite fmap_cons. by left.
Qed.

Section steps.
Context (o : Options) (c : Calm).

(** A step that acknowledges nothing and loses nothing. *)
Lemma recorded_same wd wd' fresh : recorded wd ->
  g_acked (wd_g wd') = g_acked (wd_g wd) -> g_lost (wd_g wd') = g_lost (wd_g wd) -> w_st (wd_w wd') = w_st (wd_w wd) ->
  e_seq <$> (inflight (wd_pc wd') ++ w_queue (wd_w wd'))%list ⊆+ ((e_seq <$> (inflight (wd_pc wd) ++ w_queue (wd_w wd))%list) ++ fresh)%list ->
  w_nextSeq (wd_w wd) <= w_nextSeq (wd_w wd') -> NoDup fresh -> Forall (fun s => w_nextSeq (wd_w wd) <= s < w_nextSeq (wd_w wd')) fresh ->
  g_durable (wd_g wd) ⊆ g_durable (wd_g wd') -> w_tooLarge (wd_w wd) ⊆ w_tooLarge (wd_w wd') ->
  Forall (hasLine (g_durable (wd_g wd')) (w_tooLarge (wd_w wd'))) (written (wd_pc wd')) -> recorded wd'.
Proof.
  intros [R1 R2 R3 R4] Ha Hl Hst Hs Hn Hf Hr Hd Hb Hw. split.
  - eapply once_keep; [exact R1 | | exact Hn | exact Hf | exact Hr]. unfold inHands. rewrite Ha, Hl, !(fmap_app _ (g_acked _)), !(fmap_app _ (g_lost _)).
    rewrite <- !app_assoc. by do 2 apply submseteq_skips_l.
  - apply Forall_app. split; [| done]. rewrite Ha. apply Forall_app in R2 as [R2 _]. eapply Forall_impl; [exact R2 |].
    intros e. by apply hasLine_mono.
  - intros s. rewrite Hst, Ha. apply R3.
  - intros s. rewrite Hst, Hl. apply R4.
Qed.

Lemma recorded_move wd wd' : recorded wd ->
  g_acked (wd_g wd') = g_acked (wd_g wd) -> g_lost (wd_g wd') = g_lost (wd_g wd) -> w_st (wd_w wd') = w_st (wd_w wd) ->
  e_seq <$> (inflight (wd_pc wd') ++ w_queue (wd_w wd'))%list ⊆+ e_seq <$> (inflight (wd_pc wd) ++ w_queue (wd_w wd))%list ->
  w_nextSeq (wd_w wd) <= w_nextSeq (wd_w wd') -> g_durable (wd_g wd) ⊆ g_durable (wd_g wd') -> w_tooLarge (wd_w wd) ⊆ w_tooLarge (wd_w wd') ->
  Forall (hasLine (g_durable (wd_g wd')) (w_tooLarge (wd_w wd'))) (written (wd_pc wd')) -> recorded wd'.
Proof.
  intros H ? ? ? ? ? ? ? ?. apply (recorded_same wd wd' []); rewrite ?app_nil_r; try done; constructor.
Qed.

Lemma recorded_ack d w pc g b w' pc' fresh : recorded (mkWorld d w pc g) -> inflight pc = b -> written pc = b -> inflight pc' = [] -> written pc' = [] ->
  e_seq <$> w_queue w' = ((e_seq <$> w_queue w) ++ fresh)%list \/ e_seq <$> w_queue w' = (fresh ++ (e_seq <$> w_queue w))%list ->
  w_nextSeq w <= w_nextSeq w' -> NoDup fresh -> Forall (fun s => w_nextSeq w <= s < w_nextSeq w') fresh ->
  w_tooLarge w' = w_tooLarge w -> w_st w' = markAll StDurable b (w_st w) -> recorded (mkWorld d w' pc' (g_ack g b)).
Proof.
  intros [R1 R2 R3 R4] Hi Hw Hi' Hw' Hq Hn Hf Hr Hb Hst. unfold inHands in *. cbn [wd_w wd_pc wd_g wd_disk] in *.
  rewrite Hi in *. rewrite Hw in *. split; unfold inHands; cbn [wd_w wd_pc wd_g g_ack g_acked g_lost g_durable]; rewrite ?Hi', ?Hw', ?Hb, ?app_nil_r; cbn [app].
  - eapply once_keep; [exact R1 | | exact Hn | exact Hf | exact Hr]. rewrite !fmap_app. destruct Hq as [-> | ->]; solve_submseteq.
  - done.
  - intros s. rewrite Hst. rewrite fmap_app. intros [[_ Hs] | Hs]%markAll_lookup; apply elem_of_app; [by right | left; by apply R3].
  - intros s. rewrite Hst. intros [[? _] | Hs]%markAll_lookup; [done | by apply R4].
Qed.

Lemma recorded_lose d w pc g b w' pc' : recorded (mkWorld d w pc g) -> inflight pc = b -> inflight pc' = [] -> written pc' = [] ->
  w_queue w' = w_queue w -> w_nextSeq w' = w_nextSeq w ->
  w_tooLarge w' = w_tooLarge w -> w_st w' = markAll StLost b (w_st w) -> recorded (mkWorld d w' pc' (g_lose g b)).
Proof.
  intros [R1 R2 R3 R4] Hi Hi' Hw' Hq Hn Hb Hst. unfold inHands in *. cbn [wd_w wd_pc wd_g wd_disk] in *.
  rewrite Hi in *. split; unfold inHands; cbn [wd_w wd_pc wd_g g_lose g_acked g_lost g_durable]; rewrite ?Hi', ?Hw', ?Hb, ?Hq, ?Hn, ?app_nil_r; cbn [app].
  - by rewrite <- app_assoc.
  - by apply Forall_app in R2 as [? _].
  - intros s. rewrite Hst. intros [[? _] | Hs]%markAll_lookup; [done | by apply R3].
  - intros s. rewrite Hst. rewrite fmap_app. intros [[_ Hs] | Hs]%markAll_lookup; apply elem_of_app; [by right | left; by apply R4].
Qed.

Lemma wb_records rio wio d w b g err d1 w1 g1 : wb o rio wio d w b g = (err, d1, w1, g1) ->
  w_queue w1 = w_queue w /\ w_nextSeq w1 = w_nextSeq w /\ w_st w1 = w_st w /\ g_acked g1 = g_acked g /\ g_lost g1 = g_lost g /\
  g_durable g ⊆ g_durable g1 /\ w_tooLarge w ⊆ w_tooLarge w1 /\
  (err = None -> Forall (hasLine (g_durable g1) (w_tooLarge w1)) b).
Proof.
  unfold wb. destruct (writeBatch o rio wio d w b) as [[e1 d2] w2] eqn:Ew. intros [= <- <- <- <-].
  pose proof (writeBatch_marks _ _ _ _ _ _ _ _ _ Ew) as [M1 M2]. apply writeBatch_shared in Ew as (S1 & S2 & S3 & S4 & S5 & _).
  repeat (split; [by destruct e1 |]). split; [destruct e1; cbn; set_solver |]. split; [done |].
  intros ->. cbn [g_write g_durable]. eapply Forall_impl; [by apply chainLines_hasLine, M2 |]. intros e. apply hasLine_mono; set_solver.
Qed.

Lemma reopen_next pio d w err d1 w1 t : reopen pio d w = (err, d1, w1, t) -> w_nextSeq w <= w_nextSeq w1.
Proof. unfold reopen. intros H. repeat case_match; simplify_eq; cbn; lia. Qed.

Lemma activate_records pio rio wio now d w d1 w1 acked : activate o pio rio wio now d w = (d1, w1, acked) ->
  let h := match reopen pio d w with (_, _, w0, _) => w_lastHash w0 end in
  w_nextSeq w <= w_nextSeq w1 /\ NoDup (e_seq <$> acked) /\ Forall (fun s => w_nextSeq w <= s < w_nextSeq w1) (e_seq <$> acked) /\
  w_tooLarge w ⊆ w_tooLarge w1 /\ Forall (hasLine (batchLines h acked) (w_tooLarge w1)) acked.
Proof.
  unfold activate, start. destruct (reopen pio d w) as [[[e1 d2] w2] t] eqn:Er. pose proof (reopen_next _ _ _ _ _ _ _ Er) as Hn.
  apply reopen_shared in Er as (_ & _ & _ & _ & _ & Hb & _).
  destruct e1 as [e1 |]; [intros [= <- <- <-]; cbn; rewrite Hb; (split; [done |]); (split; [apply NoDup_nil_2 |]); (split; [apply Forall_nil_2 |]); (split; [done | apply Forall_nil_2]) |].
  destruct (writeBatch _ _ _ _ _ _) as [[e2 d3] w3] eqn:Ew. pose proof (writeBatch_marks _ _ _ _ _ _ _ _ _ Ew) as [M1 M2].
  apply writeBatch_shared in Ew as (_ & _ & Hn3 & _). cbn [w_tooLarge w_nextSeq w_lastHash set_nextSeq] in *. rewrite Hb in M1.
  destruct e2; intros [= <- <- <-]; cbn [w_nextSeq w_tooLarge set_life set_failed closeFile set_file set_durable]; rewrite Hn3.
  - split; [lia |]. split; [apply NoDup_nil_2 |]. split; [apply Forall_nil_2 |]. split; [done | apply Forall_nil_2].
  - split; [lia |]. split; [cbn; apply NoDup_singleton |]. split; [cbn; constructor; [unfold e_seq; cbn; lia | done] |].
    split; [done |]. by apply chainLines_hasLine, M2.
Qed.

Lemma recorded_activate d w g pio rio wio now d1 w1 acked : recorded (mkWorld d w PNew g) -> activate o pio rio wio now d w = (d1, w1, acked) ->
  let h := match reopen pio d w with (_, _, w0, _) => w_lastHash w0 end in
  recorded (mkWorld d1 w1 PIdle (g_ack (g_write g (batchLines h acked)) acked)).
Proof.
  intros [R1 R2 R3 R4] Ha h. destruct (activate_records _ _ _ _ _ _ _ _ _ Ha) as (A1 & A2 & A3 & A4 & A5).
  apply activate_shared in Ha as (S1 & _ & S3 & _). unfold inHands in *.
  split; unfold inHands; cbn [wd_w wd_pc wd_g g_ack g_write g_acked g_lost g_durable inflight written app] in *; rewrite ?app_nil_r in *.
  - eapply once_keep; [exact R1 | | exact A1 | exact A2 | exact A3]. rewrite S1, !fmap_app. solve_submseteq.
  - apply Forall_app. split; [eapply Forall_impl; [exact R2 |] | eapply Forall_impl; [exact A5 |]]; intros e; apply hasLine_mono; set_solver.
  - intros s. rewrite S3, fmap_app. intros Hs%R3. apply elem_of_app. by left.
  - by rewrite S3.
Qed.

Lemma recoverRecords_seqs plan now w ret gap w1 : recoverRecords plan now w = (ret, gap, w1) ->
  w_nextSeq w <= w_nextSeq w1 /\ NoDup (e_seq <$> (option_list ret ++ [gap])%list) /\
  Forall (fun s => w_nextSeq w <= s < w_nextSeq w1) (e_seq <$> (option_list ret ++ [gap])%list) /\
  w_st w1 = w_st w /\ w_queue w1 = w_queue w /\ w_tooLarge w1 = w_tooLarge w.
Proof.
  unfold recoverRecords. intros H.
  assert (forall r : option Entry, (r = None \/ exists e, r = Some e /\ e_seq e = w_nextSeq w) -> forall g n, e_seq g = n -> n = w_nextSeq w + Z.of_nat (List.length (option_list r)) ->
    w_nextSeq w <= n + 1 /\ NoDup (e_seq <$> (option_list r ++ [g])%list) /\ Forall (fun s => w_nextSeq w <= s < n + 1) (e_seq <$> (option_list r ++ [g])%list)) as K.
  { intros r Hr g n <- Hn. destruct Hr as [-> | (e & -> & He)]; cbn in *; rewrite ?NoDup_cons, ?Forall_cons, ?He;
      (split; [lia |]; split; [rewrite ?list_elem_of_singleton; intuition (try lia; try apply NoDup_nil_2; try by eapply not_elem_of_nil) | split; [lia |]; first [done | split; [lia | done]]]). }
  destruct plan as [p |]; [| destruct (w_unnamed w) as [u |]]; simplify_eq; cbn [w_nextSeq w_st w_queue w_tooLarge set_nextSeq];
    (edestruct K as (K1 & K2 & K3); [| | | split; [exact K1 | split; [exact K2 | split; [exact K3 | done]]]]);
    first [by left | right; eexists; split; reflexivity | reflexivity | cbn; lia].
Qed.

Lemma recorded_append d w pc g r now res w1 : recorded (mkWorld d w pc g) -> Append o w r now = (res, w1) ->
  recorded (mkWorld d w1 pc (g_append g w w1 res)).
Proof.
  intros H Ha. pose proof (rc_lines _ H) as HL. apply Forall_app in HL as [_ HL].
  destruct (Append_cases _ _ _ _ _ _ Ha) as [(e & -> & Hs & _ & _ & _ & _ & _ & ->) | [(x & -> & Hx & ->) | (x & -> & Hx1 & Hx2 & ->)]].
  - eapply (recorded_same _ _ [e_seq e]); [exact H | ..]; cbn [g_append]; cbn [wd_w wd_pc wd_g g_acked g_lost g_durable w_queue w_nextSeq w_st w_tooLarge set_queue set_nextSeq]; try done.
    + by rewrite !fmap_app, app_assoc.
    + lia.
    + apply NoDup_singleton.
    + apply Forall_singleton. rewrite Hs. lia.
  - eapply recorded_move; [exact H | ..]; destruct Hx as [-> | ->]; done.
  - eapply recorded_move; [exact H | ..]; destruct x; try done.
Qed.

Lemma recorded_done d w g all gap now : recorded (mkWorld d w (PRecovered None all gap) g) ->
  recorded (mkWorld d (recoverDone all gap now w) PIdle (g_ack g all)).
Proof.
  intros H. unfold recoverDone. cbv zeta. cbn [w_dropped set_durable set_dropped set_unnamed]. case_match.
  - eapply (recorded_ack _ _ _ _ _ _ _ [w_nextSeq w]); [exact H | ..]; try done; [by right | cbn; lia | apply NoDup_singleton | apply Forall_singleton; cbn; lia].
  - eapply (recorded_ack _ _ _ _ _ _ _ []); [exact H | ..]; try done; [by right | apply NoDup_nil_2].
Qed.

Ltac same_queue := match goal with H : w_queue _ = w_queue _ |- _ => rewrite H end; done.

Lemma recorded_remove d w g batch closing p ret gap rio wio e d1 w1 g1 n d2 w2 st rio2 wio2 err2 d3 w3 g3 :
  recorded (mkWorld d w (PRecover batch closing (Some p) (Some ret) gap) g) ->
  wb o rio wio d w (allOf batch (Some ret) gap) g = (Some e, d1, w1, g1) -> removeSegments n p d1 w1 = (d2, w2, Some st) ->
  let all := allOf batch (Some (renamed p st e ret)) gap in
  let w2' := set_unnamed w2 (Some (unnamedOf p st e)) in
  wb o rio2 wio2 d2 w2' all (g_remove g1 d1 (Nat.min n (p_k p))) = (err2, d3, w3, g3) ->
  recorded (match err2 with None => mkWorld d3 w3 (PRecovered None all gap) g3 | Some _ => mkWorld d3 (closeFile w3) (PLost batch closing) g3 end).
Proof.
  intros H Hw1 Hrm all w2' Hw2. unfold removeSegments in Hrm. injection Hrm as <- <- _.
  assert (Hall : e_seq <$> all = e_seq <$> allOf batch (Some ret) gap) by (subst all; unfold allOf; by rewrite !fmap_app).
  apply wb_records in Hw1 as (A1 & A2 & A3 & A4 & A5 & A6 & A7 & _). apply wb_records in Hw2 as (B1 & B2 & B3 & B4 & B5 & B6 & B7 & B8).
  subst w2'. cbn [w_queue w_nextSeq w_st w_tooLarge set_removed set_unnamed g_acked g_lost g_durable g_remove] in *.
  destruct err2; (eapply recorded_move; [exact H | ..]); cbn [wd_w wd_pc wd_g inflight written w_queue w_nextSeq w_st w_tooLarge closeFile set_file];
    rewrite ?B1, ?B2, ?B3, ?B4, ?B5, ?A1, ?A2, ?A3, ?A4, ?A5; try done; try (by etrans).
  - unfold allOf. rewrite !fmap_app. solve_submseteq.
  - rewrite (fmap_app _ all), Hall, <- fmap_app. done.
  - by apply B8.
Qed.

Lemma recorded_step wd wd' : astep o c wd wd' -> recorded wd -> recorded wd'.
Proof.
  intros Hs H. pose proof (rc_lines _ H) as HL. apply Forall_app in HL as [_ HL]. destruct Hs;
    try (match goal with H : wb _ _ _ _ _ _ _ = _ |- _ => apply wb_records in H as (? & ? & ? & ? & ? & ? & ? & ?) end;
         match goal with H : wb _ _ _ _ _ _ _ = _ |- _ => fail 1 | _ => idtac end).
  - by eapply recorded_append.
  - eapply recorded_move; [exact H | ..]; unfold Close; cbn [wd_w wd_pc wd_g]; repeat case_match; done.
  - by eapply recorded_activate.
  - unfold takeQueue in *. simplify_eq. eapply recorded_move; [exact H | ..]; wcbn; try done. cbn [inflight w_queue set_queue]. by rewrite app_nil_r.
  - eapply recorded_move; [exact H | ..]; wcbn; destruct closing; done.
  - eapply recorded_move; [exact H | ..]; wcbn; try congruence; try lia; destruct err; cbn [inflight written]; try congruence; auto; same_queue.
  - eapply recorded_ack; [exact H | ..]; repeat case_match; try done; try apply NoDup_nil_2; try apply Forall_nil_2; try (left; by rewrite app_nil_r); cbn; lia.
  - by eapply recorded_lose.
  - eapply recorded_move; [exact H | ..]; done.
  - unfold takeRetain, takeQueue in *. simplify_eq. eapply (recorded_same _ _ [w_nextSeq w]); [exact H | ..]; wcbn; try done; cbn [inflight w_queue w_nextSeq set_queue set_nextSeq app].
    + by rewrite app_nil_r, fmap_app.
    + lia.
    + apply NoDup_singleton.
    + apply Forall_singleton. lia.
  - eapply recorded_move; [exact H | ..]; wcbn; try congruence; try lia; destruct err; cbn [inflight written]; try congruence; auto; same_queue.
  - eapply recorded_ack; [exact H | ..]; try done; try apply NoDup_nil_2; try apply Forall_nil_2; try (left; by rewrite app_nil_r); cbn; lia.
  - unfold removeSegments in *. simplify_eq. eapply recorded_move; [exact H | ..]; done.
  - match goal with H : reopen _ _ _ = _ |- _ => pose proof (reopen_next _ _ _ _ _ _ _ H); apply reopen_shared in H as (? & ? & ? & ? & ? & ? & ?) end.
    eapply recorded_move; [exact H | ..]; wcbn; try congruence; try done; destruct err; cbn [inflight written]; try done; try congruence; same_queue.
  - match goal with H : recoverRecords _ _ _ = _ |- _ => apply recoverRecords_seqs in H as (R1 & R2 & R3 & R4 & R5 & R6) end.
    eapply (recorded_same _ _ (e_seq <$> (option_list ret ++ [gap])%list)); [exact H | ..]; wcbn; try done.
    + cbn [inflight]. unfold allOf. rewrite R5, !fmap_app. solve_submseteq.
    + by rewrite R6.
  - eapply recorded_move; [exact H | ..]; wcbn; try congruence; try lia; cbn [inflight written]; try congruence; auto; same_queue.
  - eapply recorded_move; [exact H | ..]; wcbn; cbn [inflight written w_queue w_nextSeq w_st w_tooLarge closeFile set_file]; try done; try congruence; try lia.
    match goal with H : w_queue w1 = _ |- _ => rewrite H end. unfold allOf. rewrite !fmap_app. solve_submseteq.
  - by eapply recorded_remove.
  - by apply recorded_done.
  - unfold removeSegments in *. simplify_eq. eapply recorded_move; [exact H | ..]; done.
  - eapply recorded_lose; [exact H | ..]; destruct closing; done.
  - split; wcbn; [split; [apply NoDup_nil_2 | constructor] | constructor | done | done].
Qed.

Lemma recorded_reach wd : rtc (astep o c) freshWorld wd -> recorded wd.
Proof.
  intros Hr. revert wd Hr. apply (rtc_ind_r (fun wd => recorded wd) freshWorld).
  - split; [split; [apply NoDup_nil_2 | constructor] | constructor | done | done].
  - intros y z _ Hyz. by apply recorded_step.
Qed.
End steps.
