(* ===== verification/AuditInv.v ===== *)
(** * What always holds of the audit log and its writer

    The lines of the log, with those retention removed before them, are one
    chain from the zero hash; what was acknowledged is in it; the records the
    writer still has are numbered above it; and the first line of the log is
    the very first one or is named by a retention record, or by the one the
    writer has still to write.  The second part goes through the steps. *)

From S2P Require Import Prelude GoLib Json AuditRecord AuditRead AuditWriter AuditChain AuditAccount.
From Stdlib Require Import String Sorted.
Local Open Scope string_scope.
Local Open Scope Z_scope.
Local Open Scope go_scope.
#[local] Opaque lineHash readHdr encode lineOf writeBatch planDetail removedDetail.

(** ** The log on disk *)
Record disk_ok (d : list Segment) (rem dur : list string) : Prop := mkDiskOK {
  do_chain : chain zeroHash 0 (rem ++ dirLines d)%list;
  do_pos : Forall (fun l => 0 < seqOf l) (rem ++ dirLines d)%list;
  do_tidy : tidy d;
  do_num : numbered d;
  do_removed : rem <> [] -> dirLines d <> [];
  do_durable : dur `sublist_of` (rem ++ dirLines d)%list }.

Definition headSeq (d : list Segment) : Z := lastSeqOf 0 (dirLines d).

Lemma last_of_log d rem dur : disk_ok d rem dur ->
  lastSeqOf 0 (rem ++ dirLines d)%list = headSeq d /\ lastHashOf zeroHash (rem ++ dirLines d)%list = lastHashOf zeroHash (dirLines d).
Proof.
  intros [_ _ _ _ Hr _]. unfold headSeq. destruct (dirLines d) as [| l ls].
  - destruct rem as [| x r]; [done |]. exfalso. by apply Hr.
  - rewrite lastSeqOf_app, lastHashOf_app, !lastSeqOf_cons, !lastHashOf_cons. done.
Qed.

Lemma lastHashOf_nil h : lastHashOf h [] = h.
Proof. done. Qed.

Lemma headSeq_nonneg d : 0 <= headSeq d.
Proof. unfold headSeq, lastSeqOf. destruct (last (dirLines d)); [apply seqOf_nonneg | done]. Qed.

Lemma chain_isHash prev n ls l : isHash prev -> chain prev n ls -> l ∈ ls -> isHash (prevOf l).
Proof.
  revert prev n. induction ls as [| k ls IH]; intros prev n Hp Hc Hl; [by apply not_elem_of_nil in Hl |].
  destruct Hc as (_ & Hk & _ & _ & Hc). apply elem_of_cons in Hl as [-> | Hl]; [by rewrite Hk |].
  eapply (IH (lineHash k)); [apply isHash_line | done | done].
Qed.

Lemma chain_dir d rem dur : disk_ok d rem dur -> exists p n, isHash p /\ chain p n (dirLines d).
Proof.
  intros [Hc _ _ _ _ _]. apply chain_app in Hc as [_ Hc]. eexists _, _. split; [| exact Hc]. apply lastHashOf_hash, isHash_zero.
Qed.

(** More lines at the end, all of one batch. *)
Lemma prefix_lastZ (n : Z) (p l : list Z) : p `prefix_of` l -> ascends n l -> lastZ n p <= lastZ n l.
Proof.
  intros [k ->] H. apply ascends_app in H as [_ H]. unfold lastZ at 2. rewrite last_app.
  destruct (last k) as [x |] eqn:E; [| unfold lastZ; by destruct (last p)]. cbn.
  apply ascends_last in H. unfold lastZ at 2 in H. rewrite E in H. exact H.
Qed.

Lemma ascends_after n (p l q : list Z) : p `prefix_of` l -> ascends n (l ++ q)%list -> ascends (lastZ n p) q.
Proof. intros Hp H. apply ascends_app in H as [H1 H2]. eapply ascends_le; [| exact H2]. by apply prefix_lastZ. Qed.

Lemma disk_grow d rem dur h batch added d1 : disk_ok d rem dur -> h = lastHashOf zeroHash (dirLines d) ->
  Forall okEntry batch -> ascends (headSeq d) (e_seq <$> batch) ->
  added `prefix_of` batchLines h batch -> grows d added d1 -> tidy d1 -> numbered d1 ->
  disk_ok d1 rem dur /\ disk_ok d1 rem (dur ++ added)%list /\ headSeq d1 = lastZ (headSeq d) (seqOf <$> added) /\
  lastHashOf zeroHash (dirLines d1) = lastHashOf h added.
Proof.
  intros HD -> He Ha Hp (_ & Hl & _) Ht Hn. pose proof (last_of_log _ _ _ HD) as [L1 L2]. destruct HD as [D1 D2 D3 D4 D5 D6].
  set (h := lastHashOf zeroHash (dirLines d)) in *.
  destruct (batchLines_ok batch h He (lastHashOf_hash _ _ isHash_zero)) as (_ & _ & B3 & B4). specialize (B4 _ Ha).
  assert (chain h (headSeq d) added) as Hc by (destruct Hp as [k Hk]; rewrite Hk in B4; by apply chain_app in B4 as [B4 _]).
  assert (Hpos : Forall (fun l => 0 < seqOf l) added).
  { apply Forall_forall. intros l Hin. assert (seqOf l ∈ e_seq <$> batch) as Hs.
    { rewrite <- B3. apply list_elem_of_fmap. exists l. split; [done |]. destruct Hp as [k ->]. apply elem_of_app. by left. }
    pose proof (ascends_elem _ _ _ Ha Hs). pose proof (headSeq_nonneg d). lia. }
  assert (chain zeroHash 0 (rem ++ dirLines d1)%list) by (rewrite Hl, app_assoc; apply chain_app; by rewrite L1, L2).
  assert (Forall (fun l => 0 < seqOf l) (rem ++ dirLines d1)%list) by (rewrite Hl, app_assoc; by apply Forall_app).
  assert (rem <> [] -> dirLines d1 <> []) by (intros Hr Hz; rewrite Hl in Hz; apply app_eq_nil in Hz as [Hz _]; by apply D5).
  split; [| split; [| split]].
  - split; try done. rewrite Hl, app_assoc. by apply sublist_inserts_r.
  - split; try done. rewrite Hl, app_assoc. by apply sublist_app.
  - unfold headSeq. by rewrite Hl, lastSeqOf_app, lastSeqOf_lastZ.
  - by rewrite Hl, lastHashOf_app.
Qed.

Lemma disk_reopen d rem dur d2 w w1 : disk_ok d rem dur -> reopened d w d2 w1 -> disk_ok d2 rem dur /\ dirLines d2 = dirLines d.
Proof.
  intros [D1 D2 D3 D4 D5 D6] [R1 R2 R3 R4 _ _ _ _ _]. specialize (R1 0%nat). rewrite !drop_0 in R1.
  split; [| done]. by split; rewrite ?R1.
Qed.

(** The oldest [k] segments are removed. *)
Lemma dirLines_split k d : dirLines d = (dirLines (take k d) ++ dirLines (drop k d))%list.
Proof. by rewrite <- dirLines_app, take_drop. Qed.

Lemma tidy_drop k d : tidy d -> tidy (drop k d).
Proof.
  intros [Hs He]. split.
  - rewrite <- (take_drop k d), fmap_app in Hs. clear He. revert Hs. generalize (sg_first <$> take k d), (sg_first <$> drop k d).
    intros a b. induction a as [| x a IH]; [done |]. intros H. inversion_clear H. auto.
  - destruct He as [-> | (i & sg & -> & Hi & Ht)]; [left; by rewrite drop_nil |].
    destruct (decide (k <= List.length i)%nat) as [Hk | Hk].
    + right. exists (drop k i), sg. rewrite drop_app_le by done. split; [done |]. split; [by apply Forall_drop | done].
    + left. apply drop_ge. rewrite length_app. cbn. lia.
Qed.

Lemma disk_remove k d rem dur : disk_ok d rem dur -> dirLines (drop k d) <> [] ->
  disk_ok (drop k d) (rem ++ dirLines (take k d))%list dur /\ headSeq (drop k d) = headSeq d /\
  lastHashOf zeroHash (dirLines (drop k d)) = lastHashOf zeroHash (dirLines d).
Proof.
  intros [D1 D2 D3 D4 D5 D6] Hne. assert (E : ((rem ++ dirLines (take k d)) ++ dirLines (drop k d) = rem ++ dirLines d)%list)
    by (by rewrite <- app_assoc, <- dirLines_split).
  split; [split; rewrite ?E; try done; [by apply tidy_drop | by apply Forall_drop] |].
  unfold headSeq. rewrite (dirLines_split k d), lastSeqOf_app, lastHashOf_app.
  destruct (dirLines (drop k d)) as [| l ls]; [done |]. rewrite !lastSeqOf_cons, !lastHashOf_cons. done.
Qed.

(** ** Retention records and plans *)
Definition okOptions (o : Options) : Prop := slen (o_AgeText o) <= 100.

(** [e] is a retention record that says the log starts at [st]. *)
Definition announces (e : Entry) (st : Z * string) : Prop :=
  a_Type (e_rec e) = TypeRetention /\ entriesOf (e_rec e) = 0 /\ textLen (e_rec e) <= 2^17 /\
  a_StartSeq (e_rec e) = st.1 /\ a_StartPrev (e_rec e) = st.2 /\ isHash st.2.

Lemma textLen_setPrev r h : textLen (setPrev r h) <= textLen r + slen h.
Proof. unfold textLen, setPrev. cbn. pose proof (slen_nonneg (a_Prev r)). lia. Qed.

Lemma names_line e st h : okEntry e -> announces e st -> isHash h -> names st.1 st.2 (lineOf (setPrev (e_rec e) h)).1 = true.
Proof.
  intros [Ho Hs] (A1 & A2 & A3 & A4 & A5 & [A6 _]) Hh. pose proof (lineOf_spec (setPrev (e_rec e) h) Ho Hs Hh) as H.
  pose proof (textLen_setPrev (e_rec e) h) as Hlen. destruct Hh as [_ Hh]. rewrite Hh in Hlen.
  pose proof (lineOf_own (setPrev (e_rec e) h) A2 ltac:(lia)) as Hb. destruct (lineOf _) as [l big]. cbn [fst snd] in *. subst big.
  destruct H as (_ & _ & x & Hx & _ & _ & H). destruct (H eq_refl) as (_ & H1 & H2 & H3). unfold names. rewrite Hx, H1, H2, H3.
  change (a_Type (setPrev (e_rec e) h)) with (a_Type (e_rec e)). change (a_StartSeq (setPrev (e_rec e) h)) with (a_StartSeq (e_rec e)).
  change (a_StartPrev (setPrev (e_rec e) h)) with (a_StartPrev (e_rec e)). rewrite A1, A4, A5, clean_ascii, Z.eqb_refl by done.
  rewrite clean_ascii by done. by rewrite !eqs_refl.
Qed.

Lemma batch_names e st batch : forall h, e ∈ batch -> Forall okEntry batch -> announces e st -> isHash h ->
  exists l, l ∈ batchLines h batch /\ names st.1 st.2 l = true.
Proof.
  induction batch as [| b batch IH]; intros h Hin Hok Ha Hh; [by apply not_elem_of_nil in Hin |].
  inversion_clear Hok as [| ? ? Hb Hok']. rewrite chainLines_cons. apply elem_of_cons in Hin as [<- | Hin].
  - eexists. split; [by left | by apply names_line].
  - destruct (IH (lineHash (lineOf (setPrev (e_rec b) h)).1) Hin Hok' Ha (isHash_line _)) as (l & Hl & Hn). exists l. split; [by right | done].
Qed.

(** A plan says where the log will start. *)
Definition planOK (d : list Segment) (p : retentionPlan) : Prop :=
  (1 <= p_k p < List.length d)%nat /\ slen (planDetail p) <= 2^10 /\
  exists l r, dirLines (drop (p_k p) d) = l :: r /\ p_start p = (seqOf l, prevOf l).

Lemma planOK_grows d ls d1 p : planOK d p -> grows d ls d1 -> planOK d1 p.
Proof.
  intros (H1 & H2 & l & r & H3 & H4) (G1 & _ & G3). split; [lia |]. split; [done |]. exists l, (r ++ ls)%list.
  rewrite (proj2 (G3 (p_k p) ltac:(lia))), H3. done.
Qed.

Lemma planGo_spec o now total n sm : forall k freed why k' freed' why', okOptions o -> slen why <= 150 ->
  planGo o now total n sm k freed why = (k', freed', why') -> (k <= k' <= k + n)%nat /\ slen why' <= 150.
Proof.
  revert sm. induction n as [| n IH]; intros sm k freed why k' freed' why' Ho Hw; cbn [planGo]; [intros [= <- _ <-]; split; [lia | done] |].
  destruct sm as [| [size m] sm]; [intros [= <- _ <-]; split; [lia | done] |].
  destruct ((0 <? o_RetainBytes o) && _); [| destruct ((0 <? o_RetainAge o) && _)]; intros H.
  - apply IH in H as [H1 H2]; [split; [lia | done] | done |].
    rewrite !slen_app. pose proof (slen_FormatInt (o_RetainBytes o)). change (slen "size limit ") with 11. change (slen " bytes") with 6. lia.
  - apply IH in H as [H1 H2]; [split; [lia | done] | done |].
    destruct (why =s ""); [| done]. rewrite slen_app. unfold okOptions in Ho. change (slen "age limit ") with 10. lia.
  - simplify_eq. split; [lia | done].
Qed.

Lemma planDetail_length p : slen (p_why p) <= 150 -> slen (planDetail p) <= 2^10.
Proof.
  Transparent planDetail. unfold planDetail. Opaque planDetail. rewrite !slen_app. intros H.
  pose proof (slen_FormatInt (Z.of_nat (p_k p))). pose proof (slen_FormatInt (p_freed p)). pose proof (slen_FormatUint (p_start p).1).
  repeat match goal with |- context [slen (String ?a ?b)] => let v := eval vm_compute in (slen (String a b)) in change (slen (String a b)) with v end.
  lia.
Qed.

Lemma firstRecord_spec sg st : firstRecord sg = Some st -> exists l r, linesOf (sg_data sg) = l :: r /\ st = (seqOf l, prevOf l).
Proof.
  unfold firstRecord. destruct (linesOf (sg_data sg)) as [| l r]; [done |]. destruct (tooLong l); [done |].
  destruct (readHdr l) as [h |] eqn:E; [| done]. intros [= <-]. exists l, r. unfold seqOf, prevOf. by rewrite E.
Qed.

Lemma planRetention_ok o now mods d w p : okOptions o -> planRetention o now mods d w = Some p -> planOK d p.
Proof.
  intros Ho. unfold planRetention. destruct (w_f w), mods as [ms |]; try done. destruct (List.length d <? 2)%nat eqn:El; [done |].
  destruct (planGo _ _ _ _ _ _ _ _) as [[k freed] why] eqn:Ep. apply planGo_spec in Ep as [Hk Hw]; [| done | done].
  destruct (k =? 0)%nat eqn:E0; [done |]. destruct (d !! k) as [sg |] eqn:Ek; [| done].
  destruct (firstRecord sg) as [st |] eqn:Ef; [| done]. intros [= <-]. apply firstRecord_spec in Ef as (l & r & Hl & ->).
  apply Nat.eqb_neq in E0. apply Nat.ltb_ge in El. split; [cbn; lia |]. split; [by apply planDetail_length |].
  cbn [p_k p_start]. exists l, (r ++ dirLines (drop (S k) d))%list. split; [| done].
  rewrite (drop_S d sg k Ek). change (dirLines (sg :: drop (S k) d)) with (linesOf (sg_data sg) ++ dirLines (drop (S k) d))%list. by rewrite Hl.
Qed.

Lemma removedDetail_length p e : slen (planDetail p) <= 2^10 -> slen e <= maxErrText -> slen (removedDetail p e) <= 2^16 + 2^12.
Proof.
  Transparent removedDetail. unfold removedDetail, maxErrText. Opaque removedDetail. rewrite !slen_app. intros H1 H2.
  repeat match goal with |- context [slen (String ?a ?b)] => let v := eval vm_compute in (slen (String a b)) in change (slen (String a b)) with v end.
  lia.
Qed.

(** The writer's own records. *)
Lemma ownRecord_text seq ts type detail dropped ss sp :
  textLen (ownRecord seq ts type detail dropped ss sp) = slen type + slen detail + slen sp.
Proof. unfold textLen, whoLen, ownRecord. cbn. change (slen "") with 0. lia. Qed.

Lemma ownRecord_ok seq ts type detail dropped ss sp src : is_u64 seq -> is_i64 ts -> is_u64 dropped -> is_u64 ss -> slen type <= 256 ->
  okEntry (mkEntry (ownRecord seq ts type detail dropped ss sp) src).
Proof.
  intros. split; [| done]. unfold okRecord. cbn. rewrite !Forall_cons, !Forall_nil. unfold is_u64, is_i64, entriesOf in *. cbn.
  repeat split; lia.
Qed.

Lemma u64_seqOf l : is_u64 (seqOf l).
Proof.
  split; [apply seqOf_nonneg |]. unfold seqOf. destruct (readHdr l) as [h |] eqn:E; [| done].
  Transparent readHdr. unfold readHdr in E. Opaque readHdr. repeat case_match; simplify_eq; cbn [h_Seq]; [done |].
  generalize (lastOf recordFields "seq" l0). intros [[] |]; cbn; try done. unfold ParseUint. destruct lit as [| a s]; [done |].
  destruct (parse_dec 0 (String a s)) as [z |]; [| done]. cbn. destruct (z <? 2^64) eqn:Ez; [cbn; lia | done].
Qed.

(** ** The writer *)

(** The records the goroutine is about to write. *)
Definition todo (pc : PC) : list Entry :=
  match pc with
  | PTook b _ _ | PRetain _ b | PReopened b _ _ => b
  | PRecover b _ _ ret gap => allOf b ret gap
  | _ => []
  end.

Definition named (d : list Segment) (st : Z * string) : Prop := exists k, k ∈ dirLines d /\ names st.1 st.2 k = true.
Definition startNamed (d : list Segment) : Prop :=
  match dirLines d with [] => True | l :: _ => prevOf l = zeroHash \/ named d (seqOf l, prevOf l) end.
Definition startOK (d : list Segment) (w : Writer) : Prop :=
  startNamed d \/ exists u l r, w_unnamed w = Some u /\ dirLines d = l :: r /\ a_StartSeq u = seqOf l /\ a_StartPrev u = prevOf l.

Definition okUnnamed (u : ARecord) : Prop :=
  exists p st e, u = unnamedOf p st e /\ slen (planDetail p) <= 2^10 /\ slen e <= maxErrText /\ is_u64 st.1 /\ isHash st.2.

Definition recovering (w : Writer) : Prop := w_queue w = [] /\ w_failed w <> None.
Definition gapOK (w : Writer) (gap : Entry) : Prop := 0 <= a_Dropped (e_rec gap) <= w_dropped w.

Definition pc_ok (d : list Segment) (w : Writer) (pc : PC) : Prop :=
  match pc with
  | PTook _ _ true => recovering w
  | PLost _ _ => recovering w /\ w_f w = None
  | PReopened _ _ plan => recovering w /\ w_f w <> None /\ forall p, plan = Some p -> planOK d p
  | PRecover _ _ plan ret gap =>
    recovering w /\ w_f w <> None /\ gapOK w gap /\
    match plan with
    | Some p => planOK d p /\ exists e, ret = Some e /\ announces e (p_start p) /\ textLen (e_rec e) <= 2^12
    | None => match w_unnamed w with Some u => exists e, ret = Some e /\ announces e (a_StartSeq u, a_StartPrev u) | None => ret = None end
    end
  | PRecovered plan _ gap =>
    recovering w /\ gapOK w gap /\
    match plan with Some p => planOK d p /\ named (drop (p_k p) d) (p_start p) | None => startNamed d end
  | PPlanned p => planOK d p
  | PRetain p all => planOK d p /\ exists e, e ∈ all /\ announces e (p_start p)
  | PRetained p _ | PRemove p => planOK d p /\ named (drop (p_k p) d) (p_start p)
  | _ => True
  end.

(** The log was opened by this process: its numbers are above those on disk.
    Otherwise nothing is in the writer's hands. *)
Definition opened (d : list Segment) (w : Writer) : Prop := headSeq d < w_nextSeq w /\ firstsTo (w_nextSeq w) d /\ d <> [].
Definition unopened (d : list Segment) (w : Writer) (pc : PC) : Prop :=
  newestHasLine d /\ 0 <= w_nextSeq w /\ w_queue w = [] /\ w_f w = None /\ w_unnamed w = None /\
  match pc with
  | PNew => w_active w = false
  | PIdle | PTook [] _ true | PLost [] _ | PDone => w_failed w <> None
  | _ => False
  end.

Definition noFail (pc : PC) : Prop := match pc with PFailed _ _ => False | _ => True end.

Record writer_ok (d : list Segment) (w : Writer) (pc : PC) : Prop := mkWriterOK {
  wo_open : (pc <> PNew /\ opened d w) \/ unopened d w pc;
  wo_pend : ascends (headSeq d) (e_seq <$> (todo pc ++ w_queue w)%list);
  wo_ents : Forall (fun e => okEntry e /\ e_seq e < w_nextSeq w /\ firstsTo (e_seq e) d) (todo pc ++ w_queue w)%list;
  wo_clean : w_f w <> None -> noFail pc -> clean d w /\ w_lastHash w = lastHashOf zeroHash (dirLines d);
  wo_counts : 0 <= w_dropped w /\ Forall (fun e => 0 <= a_Dropped (e_rec e)) (inflight pc ++ w_queue w)%list;
  wo_start : startOK d w;
  wo_unnamed : forall u, w_unnamed w = Some u -> okUnnamed u;
  wo_pc : pc_ok d w pc }.

Definition sane (w : Writer) : Prop := w_nextSeq w <= 2^64 /\ w_dropped w < 2^64.

Record Inv (wd : World) : Prop := mkInv {
  iv_disk : disk_ok (wd_disk wd) (g_removed (wd_g wd)) (g_durable (wd_g wd));
  iv_writer : writer_ok (wd_disk wd) (wd_w wd) (wd_pc wd);
  iv_sane : sane (wd_w wd) }.

(** ** A batch is written, or not *)
Lemma ascends_snoc n l m : ascends n l -> Forall (fun s => s < m) l -> n < m -> ascends n (l ++ [m])%list.
Proof.
  intros Ha Hl Hn. apply ascends_app. split; [done |]. cbn. split; [| done]. unfold lastZ. destruct (last l) as [x |] eqn:E; [| done].
  cbn. rewrite Forall_forall in Hl. apply Hl. by apply last_Some_elem_of.
Qed.

Record batch_out (quiet : Prop) (d : list Segment) (w : Writer) (batch q : list Entry) (rem dur : list string)
  (err : option string) (d1 : list Segment) (w1 : Writer) (added : list string) : Prop := mkBatchOut {
  bo_disk : disk_ok d1 rem (dur ++ match err with None => batchLines (w_lastHash w) batch | Some _ => [] end)%list;
  bo_grows : grows d added d1;
  bo_pend : ascends (headSeq d1) (e_seq <$> q);
  bo_head : headSeq d1 <= lastZ (headSeq d) (e_seq <$> batch);
  bo_firsts : exists e0, e0 ∈ batch /\ firstsTo (e_seq e0) d1 /\ head batch = Some e0;
  bo_same : fileOnly w w1;
  bo_ok : err = None -> added = batchLines (w_lastHash w) batch /\ w_f w1 <> None /\ clean d1 w1 /\ w_lastHash w1 = lastHashOf zeroHash (dirLines d1);
  bo_quiet : quiet -> err <> None -> added = [] /\ (w_f w <> None -> clean d1 w1 /\ w_lastHash w1 = lastHashOf zeroHash (dirLines d1)) /\
    (w_f w <> None -> w_f w1 <> None) }.

Lemma clean_open d w : clean d w -> w_f w <> None.
Proof. by intros (? & ? & _ & -> & _). Qed.

Lemma batch_write o rio wio d w batch q rem dur err d1 w1 : disk_ok d rem dur ->
  (w_f w <> None -> clean d w /\ w_lastHash w = lastHashOf zeroHash (dirLines d)) ->
  batch <> [] -> Forall okEntry batch -> Forall (fun e => firstsTo (e_seq e) d) batch ->
  ascends (headSeq d) (e_seq <$> (batch ++ q)%list) ->
  writeBatch o rio wio d w batch = (err, d1, w1) ->
  exists added, batch_out (leftNothing rio wio) d w batch q rem dur err d1 w1 added.
Proof.
  intros HD Hcl Hne Hok Hfi Ha Hw. destruct batch as [| e0 rest]; [done |]. rewrite fmap_app in Ha.
  pose proof (proj1 (proj1 (ascends_app _ _ _) Ha)) as Hab.
  assert (firstsTo (e_seq e0) d) as Hf0 by (by inversion Hfi).
  destruct (w_f w) as [f |] eqn:Ef.
  - destruct (Hcl ltac:(done)) as [Hc Hh]. pose proof HD as [_ _ D3 D4 _ _].
    destruct (writeBatch_spec o rio wio d w (e0 :: rest) e0 rest err d1 w1 eq_refl Hc D3 D4 Hf0 Hok) as (_ & added & [P1 P2 P3 P4 P5 P6 P7 P8]);
      [rewrite Hh; apply lastHashOf_hash, isHash_zero | done | done |].
    destruct (disk_grow d rem dur (w_lastHash w) (e0 :: rest) added d1 HD Hh Hok Hab P1 P2 P3 P4) as (G1 & G2 & G3 & G4).
    assert (Hbl : seqOf <$> batchLines (w_lastHash w) (e0 :: rest) = e_seq <$> (e0 :: rest))
      by (apply batchLines_ok; [done | rewrite Hh; apply lastHashOf_hash, isHash_zero]).
    assert (Hpre : (seqOf <$> added) `prefix_of` (e_seq <$> (e0 :: rest))) by (rewrite <- Hbl; destruct P1 as [k ->]; rewrite fmap_app; by eexists).
    exists added. split.
    + destruct err; [by rewrite app_nil_r |]. destruct (P7 eq_refl) as [<- _]. done.
    + done.
    + rewrite G3. by eapply ascends_after.
    + rewrite G3. by apply prefix_lastZ.
    + exists e0. split; [by left | done].
    + done.
    + intros He. destruct (P7 He) as (-> & K1 & K2). split; [done |]. split; [by eapply clean_open |]. split; [done |]. by rewrite K2, G4.
    + intros Hq He. destruct (P8 Hq He) as (-> & K1 & K2). split; [done |]. split; [| intros _; by eapply clean_open].
      intros _. split; [done |]. rewrite K2, G4. by rewrite lastHashOf_nil.
  - assert (writeBatch o rio wio d w (e0 :: rest) = (Some "auditlog: sink unavailable", d, w)) as Hx.
    { Transparent writeBatch. unfold writeBatch. Opaque writeBatch. by rewrite Ef. }
    rewrite Hx in Hw. simplify_eq. exists []. split; try done.
    + by rewrite app_nil_r.
    + apply grows_refl.
    + apply ascends_app in Ha as [_ Ha]. eapply ascends_le; [| exact Ha]. by apply ascends_last.
    + by apply ascends_last.
    + exists e0. split; [by left | done].
    + apply fileOnly_refl.
Qed.

(** * Every step of the writer keeps it *)

#[local] Opaque lineHash readHdr encode lineOf writeBatch planDetail removedDetail batchLines.

(** ** The start of the log *)
Lemma start_grows d ls d1 w w1 rem dur : disk_ok d1 rem dur -> (rem <> [] -> dirLines d <> []) -> grows d ls d1 ->
  w_unnamed w1 = w_unnamed w -> startOK d w -> startOK d1 w1.
Proof.
  intros [Hc _ _ _ _ _] Hr (_ & Hl & _) Hu H. destruct (dirLines d) as [| l r] eqn:Ed.
  - left. unfold startNamed. destruct rem as [| x rem]; [| by destruct Hr]. cbn [app] in Hc.
    destruct (dirLines d1) as [| k s]; [done |]. left. by apply chain_first in Hc.
  - cbn [app] in Hl. destruct H as [H | (u & l' & r' & H1 & H2 & H3 & H4)].
    + left. unfold startNamed in *. rewrite Ed in H. rewrite Hl. destruct H as [H | (k & H1 & H2)]; [by left |]. right. exists k. split; [| done].
      rewrite Hl. rewrite Ed in H1. change (l :: r ++ ls)%list with ((l :: r) ++ ls)%list. apply elem_of_app. by left.
    + right. rewrite Ed in H2. simplify_eq. exists u, l', (r' ++ ls)%list. by rewrite Hu, Hl.
Qed.

Lemma named_grows d ls d1 k st : named (drop k d) st -> grows d ls d1 -> (k < List.length d)%nat -> named (drop k d1) st.
Proof.
  intros (l & H1 & H2) (_ & _ & G) Hk. exists l. split; [| done]. rewrite (proj2 (G k Hk)). apply elem_of_app. by left.
Qed.

(** A batch with a retention record names a start. *)
Lemma added_named d d1 h batch e st k : grows d (batchLines h batch) d1 -> (k < List.length d)%nat -> e ∈ batch ->
  Forall okEntry batch -> announces e st -> isHash h -> named (drop k d1) st.
Proof.
  intros (_ & _ & G) Hk He Hok Ha Hh. destruct (batch_names e st batch h He Hok Ha Hh) as (l & H1 & H2).
  exists l. split; [| done]. rewrite (proj2 (G k Hk)). apply elem_of_app. by right.
Qed.

Lemma startOK_unnamed d w w1 : w_unnamed w1 = w_unnamed w -> startOK d w -> startOK d w1.
Proof. unfold startOK. intros ->. done. Qed.

Lemma okRecord_setSeqTS r seq ts : okRecord r -> is_u64 seq -> is_i64 ts -> okRecord (setSeqTS r seq ts).
Proof.
  intros (R1 & R2 & R3 & R4 & R5 & R6 & R7) Hs Ht. rewrite !Forall_cons in R1. rewrite !Forall_cons in R2. destruct_and!.
  unfold okRecord. change (entriesOf (setSeqTS r seq ts)) with (entriesOf r).
  cbn [a_Seq a_Unit a_Window a_Dropped a_StartSeq a_Inodes a_TS a_Omitted a_Projects a_Ops a_Rows a_Attrs setSeqTS].
  rewrite !Forall_cons, !Forall_nil. tauto.
Qed.

Lemma okEntry_dropped e : okEntry e -> 0 <= a_Dropped (e_rec e).
Proof. intros [(R1 & _) _]. rewrite !Forall_cons in R1. destruct R1 as (_ & _ & _ & R1 & _). unfold is_u64 in R1. lia. Qed.

Lemma pc_ok_mono d w w1 pc : w_queue w1 = w_queue w -> w_failed w1 = w_failed w -> w_f w1 = w_f w -> w_unnamed w1 = w_unnamed w ->
  w_dropped w <= w_dropped w1 -> pc_ok d w pc -> pc_ok d w1 pc.
Proof.
  intros Hq Hf Ho Hu Hd. unfold pc_ok, recovering, gapOK. rewrite Hq, Hf, Ho, Hu. repeat case_match; intuition lia.
Qed.

(** ** Steps that leave the files alone *)
Section quiet.
Context (o : Options).

Lemma step_append d w pc r now res w1 : okAppend r now -> sane w1 -> writer_ok d w pc -> Append o w r now = (res, w1) -> writer_ok d w1 pc.
Proof.
  intros (Hr & Hn & Ht & Ho) Hs [W1 W2 W3 W4 W5 W6 W7 W8] Ha.
  destruct (Append_cases _ _ _ _ _ _ Ha) as [(e & -> & Hseq & Hsrc & Hact & _ & Hnf & He & ->) | [(x & -> & _ & ->) | (x & -> & _ & _ & ->)]].
  - assert (pc <> PNew /\ opened d w) as [Hp Hop].
    { destruct W1 as [? | (_ & _ & _ & _ & _ & W1)]; [done |]. exfalso. repeat case_match; congruence. }
    destruct Hop as (Ho1 & Ho2 & Ho3). destruct Hs as [Hs _]. cbn in Hs. pose proof (headSeq_nonneg d).
    assert (okEntry e) as Hok.
    { split; [| unfold shortRecord; rewrite He; done]. rewrite He. apply okRecord_setSeqTS; [done | unfold is_u64; lia |].
      destruct Hr as (_ & R2 & _). rewrite Forall_cons in R2. destruct R2. by case_match. }
    split.
    + left. split; [done |]. split; [cbn; lia |]. split; [| done]. eapply Forall_impl; [exact Ho2 |]. intros sg Hsg. cbn in *. lia.
    + cbn. rewrite app_assoc, fmap_app. cbn [fmap list_fmap]. rewrite Hseq. apply ascends_snoc; [done | | lia].
      apply Forall_fmap. eapply Forall_impl; [exact W3 |]. intros x (_ & Hx & _). done.
    + cbn. rewrite app_assoc. apply Forall_app. split; [eapply Forall_impl; [exact W3 |]; intros x (? & ? & ?); split; [done |]; split; [lia | done] |].
      constructor; [| done]. rewrite Hseq. split; [done |]. split; [lia | done].
    + done.
    + cbn. destruct W5 as [W5 W5']. split; [done |]. rewrite app_assoc. apply Forall_app. split; [done |]. constructor; [| done].
      by apply okEntry_dropped.
    + done.
    + done.
    + destruct pc as [| | ? ? [] | | | | | | | | | | |]; cbn in *; unfold recovering in *; try done; destruct_and?; congruence.
  - split; try done.
    + cbn. destruct W5. split; [lia | done].
    + eapply pc_ok_mono; [.. | exact W8]; try done. cbn. lia.
  - done.
Qed.

(** The fields the invariant is about. *)
Definition agree (w w1 : Writer) : Prop :=
  w_nextSeq w1 = w_nextSeq w /\ w_queue w1 = w_queue w /\ w_failed w1 = w_failed w /\ w_dropped w1 = w_dropped w /\
  w_active w1 = w_active w /\ w_f w1 = w_f w /\ w_segSize w1 = w_segSize w /\ w_lastHash w1 = w_lastHash w /\ w_unnamed w1 = w_unnamed w.

Lemma writer_agree d w w1 pc : agree w w1 -> writer_ok d w pc -> writer_ok d w1 pc.
Proof.
  intros (A1 & A2 & A3 & A4 & A5 & A6 & A7 & A8 & A9) [W1 W2 W3 W4 W5 W6 W7 W8]. split.
  - unfold opened, unopened in *. by rewrite A1, A2, A3, A5, A6, A9.
  - by rewrite A2.
  - by rewrite A1, A2.
  - rewrite A6, A8. intros H1 H2. destruct (W4 H1 H2) as [(i & sg & K1 & K2 & K3 & K4 & K5) K6]. split; [| done].
    exists i, sg. by rewrite A6, A7.
  - by rewrite A2, A4.
  - by eapply startOK_unnamed.
  - by rewrite A9.
  - eapply pc_ok_mono; [.. | exact W8]; try done. rewrite A4. lia.
Qed.

Lemma step_close d w pc : writer_ok d w pc -> writer_ok d (Close w) pc.
Proof. apply writer_agree. unfold agree, Close. by repeat case_match. Qed.

(** The goroutine moves on with nothing in its hands. *)
Lemma writer_move d w pc pc' : writer_ok d w pc -> noFail pc -> opened d w -> pc' <> PNew ->
  todo pc = [] -> inflight pc' = [] -> todo pc' = [] -> pc_ok d w pc' -> writer_ok d w pc'.
Proof.
  intros [W1 W2 W3 W4 W5 W6 W7 W8] Hn Ho Hp Ht Hi Ht' Hk. split; try done.
  - by left.
  - by rewrite Ht' , <- Ht.
  - by rewrite Ht', <- Ht.
  - intros H _. by apply W4.
  - rewrite Hi. destruct W5 as [W5 W5']. apply Forall_app in W5' as [_ W5']. done.
Qed.

Lemma step_take d w batch w1 : writer_ok d w PIdle -> takeQueue w = (batch, w1) ->
  writer_ok d w1 (PTook batch (w_closed w) (bool_decide (is_Some (w_failed w)))).
Proof.
  unfold takeQueue. intros [W1 W2 W3 W4 W5 W6 W7 W8] [= <- <-]. cbn [todo inflight app] in *. split; cbn [w_queue set_queue todo inflight].
  - destruct W1 as [[_ W1] | (U1 & U2 & U3 & U4 & U5 & U6)]; [by left |]. right. rewrite U3, bool_decide_true by (by destruct (w_failed w)). done.
  - by rewrite app_nil_r.
  - by rewrite app_nil_r.
  - intros H _. by apply W4.
  - by rewrite app_nil_r.
  - done.
  - done.
  - cbn. destruct (w_failed w) eqn:E; [| rewrite bool_decide_false by (by intros [? ?]); done].
    rewrite bool_decide_true by done. split; [done |]. cbn. by rewrite E.
Qed.

Lemma step_idle d w (closing : bool) : writer_ok d w (PTook [] closing false) ->
  writer_ok d (if closing then set_life (closeFile w) (w_closed w) true (w_active w) else w) (if closing then PDone else PIdle).
Proof.
  intros W. assert (opened d w) as Ho by (destruct (wo_open _ _ _ W) as [[_ ?] | (_ & _ & _ & _ & _ & [])]; done).
  assert (forall pc', pc' = PDone \/ pc' = PIdle -> writer_ok d w pc') as Hm.
  { intros pc' Hp. apply (writer_move d w (PTook [] closing false)); try done; by destruct Hp as [-> | ->]. }
  destruct closing; [| by apply Hm; right]. destruct (Hm PDone (or_introl eq_refl)) as [W1 W2 W3 W4 W5 W6 W7 W8]. split; try done.
  by left.
Qed.

Lemma total_pos {A} (f : A -> Z) l : Forall (fun x => 0 <= f x) l -> 0 <= total f l.
Proof. induction 1; [done |]. rewrite total_cons. lia. Qed.

Lemma countLost_nonneg b w : 0 <= w_dropped w -> Forall (fun e => 0 <= a_Dropped (e_rec e)) b -> 0 <= w_dropped (countLost b w).
Proof.
  intros H Hb. rewrite countLost_dropped. assert (0 <= total carriedCount b) as H1.
  { apply total_pos. eapply Forall_impl; [exact Hb |]. intros e He. unfold carriedCount. by case_match. }
  assert (0 <= total lossCount b) as H2 by (apply total_pos, Forall_forall; intros e _; unfold lossCount; by case_match). lia.
Qed.

(** A batch that was not written is counted, and the file is closed. *)
Lemma writer_lose d w pc b w' pc' : writer_ok d w pc -> opened d w -> inflight pc = b -> todo pc = [] ->
  pc' = PIdle \/ pc' = PDone -> w_f w' = None -> w_queue w' = w_queue w -> w_nextSeq w' = w_nextSeq w -> w_unnamed w' = w_unnamed w ->
  w_dropped w' = w_dropped (countLost b w) -> writer_ok d w' pc'.
Proof.
  intros [W1 W2 W3 W4 W5 W6 W7 W8] Ho Hi Ht Hp Hf Hq Hn Hu Hd.
  destruct W5 as [W5 W5']. apply Forall_app in W5' as [B1 B2]. rewrite Hi in B1.
  assert (inflight pc' = [] /\ todo pc' = [] /\ pc' <> PNew /\ pc_ok d w' pc') as (P1 & P2 & P3 & P4) by (destruct Hp as [-> | ->]; done).
  rewrite Ht in *. split; [ | | | | | | | done].
  - left. split; [done |]. destruct Ho as (? & ? & ?). unfold opened. by rewrite Hn.
  - by rewrite P2, Hq.
  - by rewrite P2, Hq, Hn.
  - by rewrite Hf.
  - rewrite P1, Hq, Hd. split; [by apply countLost_nonneg | done].
  - by eapply startOK_unnamed.
  - by rewrite Hu.
Qed.
End quiet.

(** ** Writing *)
Lemma grows_nonempty d ls d1 : d <> [] -> grows d ls d1 -> d1 <> [].
Proof. intros Hd (H & _) ->. destruct d; [done |]. cbn in H. lia. Qed.

Lemma fileOnly_fields w w1 : fileOnly w w1 ->
  w_nextSeq w1 = w_nextSeq w /\ w_queue w1 = w_queue w /\ w_failed w1 = w_failed w /\ w_dropped w1 = w_dropped w /\ w_unnamed w1 = w_unnamed w.
Proof. by intros (f & s & h & t & -> & _). Qed.

Lemma lastZ_below n l m : n < m -> Forall (fun s => s < m) l -> lastZ n l < m.
Proof.
  intros Hn Hl. unfold lastZ. destruct (last l) as [x |] eqn:E; [| done]. cbn. rewrite Forall_forall in Hl. by apply Hl, last_Some_elem_of.
Qed.

Lemma head_ascends (n : Z) e0 batch q e : head batch = Some e0 -> ascends n (e_seq <$> (batch ++ q)%list) -> e ∈ q -> e_seq e0 < e_seq e.
Proof.
  destruct batch as [| b r]; [done |]. intros [= ->] Ha He. cbn [app] in Ha. rewrite fmap_cons in Ha. destruct Ha as [_ Ha].
  apply (ascends_elem _ _ _ Ha), list_elem_of_fmap. exists e. split; [done |]. apply elem_of_app. by right.
Qed.

(** What the writer has after a batch, with the pending [q]. *)
Lemma after_write quiet d w batch q rem dur err d1 w1 added n :
  batch_out quiet d w batch q rem dur err d1 w1 added -> headSeq d < n ->
  ascends (headSeq d) (e_seq <$> (batch ++ q)%list) ->
  Forall (fun e => okEntry e /\ e_seq e < n /\ firstsTo (e_seq e) d) (batch ++ q)%list ->
  headSeq d1 < n /\ firstsTo n d1 /\ Forall (fun e => okEntry e /\ e_seq e < n /\ firstsTo (e_seq e) d1) q.
Proof.
  intros [_ _ _ B4 (e0 & B5 & B6 & B7) _ _ _] Hn Ha Hf. apply Forall_app in Hf as [Hf1 Hf2].
  assert (firstsTo n d1 /\ e_seq e0 < n) as [F1 F2].
  { rewrite Forall_forall in Hf1. destruct (Hf1 e0 B5) as (_ & H & _). split; [| done].
    eapply Forall_impl; [exact B6 |]. intros sg Hsg. cbn in *. lia. }
  split; [| split; [done |]].
  - eapply Z.le_lt_trans; [exact B4 |]. apply lastZ_below; [done |]. apply Forall_fmap. eapply Forall_impl; [exact Hf1 |]. by intros e (_ & ? & _).
  - rewrite Forall_forall in *. intros e He. destruct (Hf2 e He) as (K1 & K2 & _). split; [done |]. split; [done |].
    pose proof (head_ascends _ e0 batch q e B7 Ha He). eapply Forall_impl; [exact B6 |]. intros sg Hsg. cbn in *. lia.
Qed.

Lemma writer_wrote quiet d w pc batch rem dur err d1 w1 added w' pc' :
  writer_ok d w pc -> opened d w -> todo pc = batch ->
  (rem <> [] -> dirLines d <> []) ->
  batch_out quiet d w batch (w_queue w) rem dur err d1 w1 added ->
  w' = w1 \/ w' = closeFile w1 ->
  todo pc' = [] -> (forall e, e ∈ inflight pc' -> e ∈ inflight pc) -> pc' <> PNew -> (w_f w' <> None -> noFail pc' -> err = None) ->
  pc_ok d1 w' pc' -> writer_ok d1 w' pc'.
Proof.
  intros [W1 W2 W3 W4 W5 W6 W7 W8] (Ho1 & Ho2 & Ho3) Ht Hr HB Hw' Ht' Hi' Hp He Hk. rewrite Ht in W2, W3.
  destruct (after_write _ _ _ _ _ _ _ _ _ _ _ _ HB Ho1 W2 W3) as (A1 & A2 & A3).
  destruct HB as [B1 B2 B3 B4 B5 B6 B7 B8]. destruct (fileOnly_fields _ _ B6) as (F1 & F2 & F3 & F4 & F5).
  assert (w_nextSeq w' = w_nextSeq w /\ w_queue w' = w_queue w /\ w_dropped w' = w_dropped w /\ w_unnamed w' = w_unnamed w) as (E1 & E2 & E3 & E4)
    by (destruct Hw' as [-> | ->]; done).
  split.
  - left. split; [done |]. split; [by rewrite E1 |]. split; [by rewrite E1 |]. by eapply grows_nonempty.
  - by rewrite Ht', E2.
  - rewrite Ht', E1, E2. done.
  - intros Hf Hn. destruct (B7 (He Hf Hn)) as (_ & _ & H). destruct Hw' as [-> | ->]; done.
  - rewrite E2, E3. destruct W5 as [W5 W5']. split; [done |]. apply Forall_app in W5' as [V1 V2]. apply Forall_app. split; [| done].
    rewrite Forall_forall in *. auto.
  - by eapply start_grows.
  - by rewrite E4.
  - done.
Qed.

(** ** Removing *)
Lemma clean_drop d w k : clean d w -> (k < List.length d)%nat -> clean (drop k d) w.
Proof.
  intros (i & sg & -> & H1 & H2 & H3 & H4) Hk. rewrite length_app in Hk. cbn in Hk. exists (drop k i), sg. rewrite drop_app_le by lia.
  repeat split; try done. by apply Forall_drop.
Qed.

Lemma named_start d p : planOK d p -> named (drop (p_k p) d) (p_start p) -> startNamed (drop (p_k p) d).
Proof. intros (_ & _ & l & r & H1 & H2) Hn. unfold startNamed. rewrite H1. right. by rewrite <- H2. Qed.

(** After a removal whose start is named, or is in [unnamed]. *)
Lemma writer_removed d w pc p w1 pc' rem dur : writer_ok d w pc -> disk_ok d rem dur -> opened d w -> noFail pc -> planOK d p ->
  w_nextSeq w1 = w_nextSeq w -> w_queue w1 = w_queue w -> w_dropped w1 = w_dropped w -> w_f w1 = w_f w -> w_segSize w1 = w_segSize w ->
  w_lastHash w1 = w_lastHash w -> startOK (drop (p_k p) d) w1 -> (forall u, w_unnamed w1 = Some u -> okUnnamed u) ->
  e_seq <$> todo pc' = e_seq <$> todo pc -> Forall okEntry (todo pc') -> Forall (fun e => 0 <= a_Dropped (e_rec e)) (inflight pc') ->
  pc' <> PNew -> pc_ok (drop (p_k p) d) w1 pc' ->
  writer_ok (drop (p_k p) d) w1 pc' /\ disk_ok (drop (p_k p) d) (rem ++ dirLines (take (p_k p) d))%list dur.
Proof.
  intros [W1 W2 W3 W4 W5 W6 W7 W8] HD (Ho1 & Ho2 & Ho3) Hn Hpl A1 A2 A3 A4 A5 A6 Hs Hu Ht Hto Hi Hp Hk.
  pose proof Hpl as (P1 & _ & l & r & P2 & _).
  destruct (disk_remove (p_k p) d rem dur HD) as (D1 & D2 & D3); [by rewrite P2 |]. split; [| done]. split.
  - left. split; [done |]. split; [by rewrite D2, A1 |]. rewrite A1. split; [by apply Forall_drop |].
    intros H0. rewrite H0 in P2. done.
  - by rewrite D2, fmap_app, Ht, <- fmap_app, A2.
  - rewrite A1, A2. apply Forall_app in W3 as [V1 V2]. apply Forall_app. split.
    + assert (Forall (fun s => s < w_nextSeq w /\ firstsTo s (drop (p_k p) d)) (e_seq <$> todo pc')) as H.
      { rewrite Ht. apply Forall_fmap. eapply Forall_impl; [exact V1 |]. intros e (_ & K2 & K3). split; [done | by apply Forall_drop]. }
      rewrite Forall_fmap in H. rewrite Forall_forall in *. intros e He. split; [by apply Hto | by apply H].
    + eapply Forall_impl; [exact V2 |]. intros e (K1 & K2 & K3). split; [done |]. split; [done | by apply Forall_drop].
  - rewrite A4, A6, D3. intros H1 _. destruct (W4 H1 Hn) as [H2 H3]. split; [| done].
    destruct (clean_drop d w (p_k p) H2 ltac:(lia)) as (i & sg & K1 & K2 & K3 & K4 & K5). exists i, sg. by rewrite A4, A5.
  - rewrite A2, A3. destruct W5 as [W5 W5']. apply Forall_app in W5' as [_ W5']. split; [done |]. by apply Forall_app.
  - done.
  - done.
  - done.
Qed.

(** ** Opening *)
Lemma newest_firsts d : tidy d -> numbered d -> newestHasLine d -> firstsTo (headSeq d) d.
Proof.
  intros [Hs _] Hn Hl. unfold newestHasLine in Hl. destruct d as [| sg d _] using rev_ind; [constructor |].
  specialize (Hl sg ltac:(by rewrite last_snoc)). unfold headSeq. rewrite dirLines_app, dirLines_one.
  unfold numbered in Hn. apply Forall_app in Hn as [_ Hn]. rewrite Forall_singleton in Hn.
  destruct (linesOf (sg_data sg)) as [| l ls _] using rev_ind; [done |]. rewrite !lastSeqOf_app, lastSeqOf_one.
  apply Forall_app in Hn as [_ Hn]. rewrite Forall_singleton in Hn.
  rewrite fmap_app, fmap_cons, fmap_nil in Hs. apply sorted_snoc in Hs as [_ Hs]. rewrite Forall_fmap in Hs.
  apply Forall_app. split; [| by constructor]. eapply Forall_impl; [exact Hs |]. intros x Hx. cbn in *. lia.
Qed.

Lemma firstsTo_le n m d : n <= m -> firstsTo n d -> firstsTo m d.
Proof. intros H Hd. eapply Forall_impl; [exact Hd |]. intros sg Hs. cbn in *. lia. Qed.

Lemma firstsTo_alt n d : firstsTo n d <-> Forall (fun x => x <= n) (sg_first <$> d).
Proof. unfold firstsTo. by rewrite Forall_fmap. Qed.

Lemma firstsTo_fmap n d d2 : sg_first <$> d2 = sg_first <$> d -> firstsTo n d -> firstsTo n d2.
Proof. intros H. by rewrite !firstsTo_alt, H. Qed.

(** The numbers after reopen are above what is on disk. *)
Lemma reopened_opened d w pc d2 w1 : (pc <> PNew /\ opened d w) \/ unopened d w pc -> tidy d -> numbered d ->
  reopened d w d2 w1 -> opened d2 w1.
Proof.
  intros Ho Ht Hn [R1 R2 R3 R4 R5 R6 R7 R8 _]. specialize (R1 0%nat). rewrite !drop_0 in R1. pose proof (headSeq_nonneg d) as Hz.
  unfold opened, headSeq in *. rewrite R1. split; [lia |]. split; [| destruct R5 as (i & sg & -> & _); by destruct i].
  destruct R8 as [R8 | [-> R8]].
  - apply (firstsTo_fmap _ _ _ R8). destruct Ho as [(_ & _ & Ho & _) | (Hl & _)].
    + eapply firstsTo_le; [| exact Ho]. lia.
    + eapply firstsTo_le; [| by apply newest_firsts]. unfold headSeq. lia.
  - rewrite firstsTo_alt, R8.
    constructor; [| done]. lia.
Qed.

Lemma startOK_lines d d2 w w1 : dirLines d2 = dirLines d -> w_unnamed w1 = w_unnamed w -> startOK d w -> startOK d2 w1.
Proof. unfold startOK, startNamed, named. by intros -> ->. Qed.

Lemma disk_lines d d2 rem dur : disk_ok d rem dur -> dirLines d2 = dirLines d -> tidy d2 -> numbered d2 -> disk_ok d2 rem dur.
Proof. intros [D1 D2 D3 D4 D5 D6] Hl Ht Hn. by split; rewrite ?Hl. Qed.

(** reopen that fails cuts at most the torn end. *)
Lemma reopen_fail io d w err d1 w1 t e rem dur : disk_ok d rem dur -> reopen io d w = (err, d1, w1, t) -> err = Some e ->
  w1 = closeFile w /\ disk_ok d1 rem dur /\ dirLines d1 = dirLines d /\ sg_first <$> d1 = sg_first <$> d /\ (newestHasLine d -> newestHasLine d1).
Proof.
  intros HD. unfold reopen. destruct (cutTorn d) as [dc tc] eqn:Ec. destruct io as [| e' cut]; [intros H ->; by repeat case_match; simplify_eq |].
  intros [= <- <- <- <-] _. split; [done |]. destruct cut; [| done].
  pose proof HD as [_ _ D3 D4 _ _]. destruct (cutTorn_spec d dc tc D3 D4 Ec) as ((_ & G2 & _) & Hf & Hn & _ & Hw).
  rewrite app_nil_r in G2. assert (tidy dc) as Ht.
  { split; [rewrite Hf; apply D3 |]. destruct Hw as [-> | (i & sg & -> & K1 & K2)]; [left; by cbn in Ec; simplify_eq |]. right. exists i, sg.
    rewrite K2. done. }
  split; [by eapply disk_lines |]. split; [done |]. split; [done |]. intros Hl sg Hsg.
  destruct d as [| s d _] using rev_ind; [cbn in Ec; simplify_eq; done |]. rewrite cutTorn_snoc in Ec. simplify_eq. rewrite last_snoc in Hsg. simplify_eq.
  rewrite (proj1 (cut_lines s)). apply Hl. by rewrite last_snoc.
Qed.

Lemma reopen_ok_io io d w d1 w1 t : reopen io d w = (None, d1, w1, t) -> io = ReopenOK.
Proof. unfold reopen. by repeat case_match; intros; simplify_eq. Qed.

Lemma step_reopen o d w batch closing pio now mods err d1 w1 torn rem dur : okOptions o ->
  disk_ok d rem dur -> writer_ok d w (PTook batch closing true) -> reopen pio d w = (err, d1, w1, torn) ->
  disk_ok d1 rem dur /\
  writer_ok d1 w1 (match err with None => PReopened batch closing (planRetention o now mods d1 w1) | Some _ => PLost batch closing end).
Proof.
  intros Hop HD [W1 W2 W3 W4 W5 W6 W7 W8] Hr. destruct W8 as [Q1 Q2]. cbn [todo inflight] in *.
  destruct err as [e |].
  - destruct (reopen_fail _ _ _ _ _ _ _ e rem dur HD Hr eq_refl) as (-> & D1 & D2 & D3 & D4). split; [done |].
    assert (headSeq d1 = headSeq d) as Hh by (unfold headSeq; by rewrite D2). split; cbn [todo inflight app].
    + destruct W1 as [[_ (O1 & O2 & O3)] | (U1 & U2 & U3 & U4 & U5 & U6)].
      * left. split; [done |]. split; [by rewrite Hh |]. split; [by apply (firstsTo_fmap _ _ _ D3) |]. intros ->. by destruct d.
      * right. split; [auto |]. destruct batch; done.
    + cbn. by rewrite Q1.
    + cbn. by rewrite Q1.
    + done.
    + done.
    + by eapply startOK_lines.
    + done.
    + done.
  - rewrite (reopen_ok_io _ _ _ _ _ _ Hr) in Hr. pose proof HD as [Hc _ D3 D4 _ _]. apply chain_app in Hc as [_ Hc].
    pose proof (reopen_spec _ d w d1 w1 torn D3 D4 (chain_weaken _ _ _ Hc) Hr) as HR.
    pose proof (reopened_opened d w _ d1 w1 W1 D3 D4 HR) as Hopen. destruct (disk_reopen _ _ _ _ _ _ HD HR) as [D1 D2]. split; [done |].
    destruct HR as [R1 R2 R3 R4 R5 R6 R7 R8 (f & s & h & n & ->)]. cbn in R6, R7.
    assert (headSeq d1 = headSeq d) as Hh by (unfold headSeq; by rewrite D2). split; cbn [todo inflight app].
    + left. done.
    + by rewrite Hh.
    + cbn. rewrite Q1, app_nil_r in *. destruct R8 as [R8 | [-> _]].
      * eapply Forall_impl; [exact W3 |]. intros e (E1 & E2 & E3). split; [done |]. split; [lia | by apply (firstsTo_fmap _ _ _ R8)].
      * destruct W1 as [[_ (_ & _ & W1)] | (_ & _ & _ & _ & _ & W1)]; [done |]. by destruct batch.
    + intros _ _. split; [done |]. by rewrite R6, D2.
    + done.
    + by eapply startOK_lines.
    + done.
    + split; [done |]. split; [by eapply clean_open |]. intros p Hp. by eapply planRetention_ok.
Qed.

(** The writer with an empty queue and nothing in its hands. *)
Lemma writer_empty d w pc : pc = PIdle -> opened d w -> w_queue w = [] -> 0 <= w_dropped w -> startOK d w -> w_unnamed w = None ->
  (w_f w <> None -> clean d w /\ w_lastHash w = lastHashOf zeroHash (dirLines d)) -> writer_ok d w pc.
Proof.
  intros -> Ho Hq Hd Hs Hu Hc. split; cbn [todo inflight app]; rewrite ?Hq; try done.
  - by left.
  - intros H _. by apply Hc.
  - by rewrite Hu.
Qed.

Lemma step_activate o pio rio wio now d w d1 w1 acked rem dur : is_i64 now -> sane w1 -> disk_ok d rem dur -> writer_ok d w PNew ->
  activate o pio rio wio now d w = (d1, w1, acked) ->
  let h := match reopen pio d w with (_, _, w0, _) => w_lastHash w0 end in
  disk_ok d1 rem (dur ++ batchLines h acked)%list /\ writer_ok d1 w1 PIdle.
Proof.
  intros Hnow Hs HD [W1 W2 W3 W4 [W5 _] W6 W7 W8]. destruct W1 as [[[] _] | U]; [done |].
  pose proof U as (U1 & U2 & U3 & U4 & U5 & _). unfold activate, start.
  destruct (reopen pio d w) as [[[err d2] w2] torn] eqn:Er. cbv zeta. destruct err as [e |].
  - destruct (reopen_fail _ _ _ _ _ _ _ e rem dur HD Er eq_refl) as (-> & D1 & D2 & D3 & D4). intros [= <- <- <-].
    change (batchLines _ []) with (@nil string). rewrite app_nil_r. split; [done |]. split; cbn [todo inflight app]; try done.
    + right. split; [by apply D4 |]. done.
    + cbn. by rewrite U3.
    + cbn. by rewrite U3.
    + cbn. by rewrite U3.
    + by eapply startOK_lines.
  - rewrite (reopen_ok_io _ _ _ _ _ _ Er) in Er. pose proof HD as [Hc _ D3 D4 _ _]. apply chain_app in Hc as [_ Hc].
    pose proof (reopen_spec _ d w d2 w2 torn D3 D4 (chain_weaken _ _ _ Hc) Er) as HR.
    pose proof (reopened_opened d w PNew d2 w2 (or_intror U) D3 D4 HR) as (O1 & O2 & O3).
    destruct (disk_reopen _ _ _ _ _ _ HD HR) as [D1 D2]. pose proof (headSeq_nonneg d2) as Hz.
    assert (startOK d2 w2) as Hst by (destruct HR as [_ _ _ _ _ _ _ _ (f & s & h & n & ->)]; by eapply startOK_lines).
    assert (w_queue w2 = [] /\ w_dropped w2 = w_dropped w /\ w_unnamed w2 = None) as (Q1 & Q2 & Q3)
      by (destruct HR as [_ _ _ _ _ _ _ _ (f & s & h & n & ->)]; by rewrite <- U3, <- U5).
    destruct (writeBatch _ _ _ _ _ _) as [[err d3] w3] eqn:Ew. set (open := mkEntry _ _) in *. set (w2' := set_nextSeq w2 (w_nextSeq w2 + 1)) in *.
    intros Ha. pose proof Ew as (S1 & S2 & S3 & _ & _ & S6 & _)%writeBatch_shared. cbn in S1, S2, S3, S6.
    assert (w_nextSeq w1 = w_nextSeq w3) as Hn by (destruct err; by simplify_eq). destruct Hs as [Hs _]. rewrite Hn, S3 in Hs.
    assert (okEntry open) as Hok by (apply ownRecord_ok; try done; unfold is_u64; lia).
    destruct (batch_write o rio wio d2 w2' [open] [] rem dur err d3 w3) as [added HB]; try done.
    + intros _. destruct HR as [_ _ _ _ R5 R6 _ _ _]. split; [exact R5 |]. by rewrite D2.
    + by constructor.
    + by constructor.
    + destruct (after_write _ _ _ _ _ _ _ _ _ _ _ (w_nextSeq w2 + 1) HB) as (A1 & A2 & _); [lia | done | |].
      { constructor; [| done]. split; [done |]. split; [cbn; lia | done]. }
      destruct HB as [B1 B2 _ _ _ _ B7 _]. pose proof (grows_nonempty _ _ _ O3 B2) as B3.
      assert (startOK d3 w3) as Hst3 by (eapply start_grows; [exact B1 | apply D1 | exact B2 | | exact Hst]; done).
      destruct err as [e |]; simplify_eq.
      * split; [done |]. apply writer_empty; cbn; try done; rewrite ?S1, ?S2, ?S6; try done; [| lia]. unfold opened. cbn. by rewrite S3.
      * destruct (B7 eq_refl) as (_ & _ & C1 & C2). split; [done |].
        apply writer_empty; cbn; try done; rewrite ?S1, ?S2, ?S6; try done; [| lia]. unfold opened. cbn. by rewrite S3.
Qed.

(** ** Records of the writer's own *)
Lemma plan_hash d p rem dur : disk_ok d rem dur -> planOK d p -> is_u64 (p_start p).1 /\ isHash (p_start p).2.
Proof.
  intros HD (_ & _ & l & r & H1 & ->). cbn [fst snd]. split; [apply u64_seqOf |]. destruct HD as [Hc _ _ _ _ _].
  eapply (chain_isHash zeroHash 0 _ l isHash_zero Hc). apply elem_of_app. right. rewrite (dirLines_split (p_k p) d), H1. apply elem_of_app.
  right. by left.
Qed.

Lemma planRecord_ok d p seq now rem dur : disk_ok d rem dur -> planOK d p -> is_u64 seq -> is_i64 now ->
  okEntry (planRecord p seq now) /\ announces (planRecord p seq now) (p_start p) /\ textLen (e_rec (planRecord p seq now)) <= 2^12.
Proof.
  intros HD Hp Hs Hn. destruct (plan_hash d p rem dur HD Hp) as [H1 H2]. destruct Hp as (_ & Hd & _). split; [by apply ownRecord_ok |].
  assert (textLen (e_rec (planRecord p seq now)) <= 2^12) as Ht.
  { unfold planRecord. cbn [e_rec]. rewrite ownRecord_text. destruct H2 as [_ ->]. change (slen TypeRetention) with 9. lia. }
  split; [| done]. split; [done |]. split; [done |]. split; [lia | done].
Qed.

Lemma unnamed_ok u seq now : okUnnamed u -> is_u64 seq -> is_i64 now ->
  okEntry (mkEntry (setSeqTS u seq now) Announced) /\ announces (mkEntry (setSeqTS u seq now) Announced) (a_StartSeq u, a_StartPrev u).
Proof.
  intros (p & st & e & -> & H1 & H2 & H3 & H4) Hs Hn. split.
  - split; [| done]. apply okRecord_setSeqTS; [| done | done]. by apply (ownRecord_ok 0 0 TypeRetention _ 0 st.1 st.2 Announced).
  - split; [done |]. split; [done |]. split; [| done]. cbn [e_rec]. change (textLen (setSeqTS ?u ?s ?t)) with (textLen u).
    unfold unnamedOf. rewrite ownRecord_text. pose proof (removedDetail_length p e H1 H2). destruct H4 as [_ ->].
    change (slen TypeRetention) with 9. lia.
Qed.

(** The record of a retention that removed segments first. *)
Lemma renamed_ok p st err e : okEntry e -> announces e st -> is_u64 st.1 -> slen (planDetail p) <= 2^10 -> slen err <= maxErrText ->
  textLen (e_rec e) <= 2^12 -> okEntry (renamed p st err e) /\ announces (renamed p st err e) st.
Proof.
  intros [Ho Hs] (A1 & A2 & A3 & A4 & A5 & A6) H1 H2 H3 H4. split.
  - split; [| done]. destruct Ho as (R1 & R2 & R3). rewrite !Forall_cons in R1. rewrite !Forall_cons in R2. unfold okRecord, renamed, setStart. cbn.
    rewrite !Forall_cons, !Forall_nil. unfold entriesOf in *. cbn. tauto.
  - split; [done |]. split; [done |]. split; [| done]. pose proof (removedDetail_length p err H2 H3). destruct A6 as [_ A6].
    unfold renamed, textLen, setStart in *. cbn in *. pose proof (slen_nonneg (a_Detail (e_rec e))). pose proof (slen_nonneg (a_StartPrev (e_rec e))). lia.
Qed.

(** ** Retention *)
Lemma opened_of d w pc : writer_ok d w pc -> (match pc with PNew | PIdle | PTook [] _ true | PLost [] _ | PDone => False | _ => True end) -> opened d w.
Proof. intros W Hp. destruct (wo_open _ _ _ W) as [[_ ?] | (_ & _ & _ & _ & _ & U)]; [done |]. by repeat case_match. Qed.

Lemma opened_file d w pc : writer_ok d w pc -> w_f w <> None -> opened d w.
Proof. intros W Hf. destruct (wo_open _ _ _ W) as [[_ ?] | (_ & _ & _ & U & _)]; [done |]. done. Qed.

Lemma plan_file o now mods d w p : planRetention o now mods d w = Some p -> w_f w <> None.
Proof. unfold planRetention. by destruct (w_f w). Qed.

Lemma step_plan o d w now mods p : okOptions o -> writer_ok d w PIdle -> planRetention o now mods d w = Some p -> writer_ok d w (PPlanned p).
Proof.
  intros Ho W Hp. pose proof (opened_file _ _ _ W (plan_file _ _ _ _ _ _ Hp)). apply (writer_move d w PIdle); try done. by eapply planRetention_ok.
Qed.

Lemma step_ack o d w batch (rotated : bool) now mods : okOptions o -> writer_ok d w (PWritten batch rotated) ->
  writer_ok d (ackBatch batch w) (if rotated then match planRetention o now mods d w with Some p => PPlanned p | None => PIdle end else PIdle).
Proof.
  intros Ho W. apply (writer_agree d w); [done |]. pose proof (opened_of _ _ _ W I) as Hop.
  apply (writer_move d w (PWritten batch rotated)); try done;
    (destruct rotated; [destruct (planRetention _ _ _ _ _) as [p |] eqn:Ep |]); try done. by eapply planRetention_ok.
Qed.

(** One more record at the end of what is to be written. *)
Lemma pend_snoc d l e n : ascends (headSeq d) (e_seq <$> l) -> headSeq d < n ->
  Forall (fun e => okEntry e /\ e_seq e < n /\ firstsTo (e_seq e) d) l -> okEntry e -> e_seq e = n -> firstsTo n d ->
  ascends (headSeq d) (e_seq <$> (l ++ [e])%list) /\
  Forall (fun e => okEntry e /\ e_seq e < n + 1 /\ firstsTo (e_seq e) d) (l ++ [e])%list.
Proof.
  intros Ha Hn Hl He Hs Hf. split.
  - rewrite fmap_app, fmap_cons, fmap_nil, Hs. apply ascends_snoc; [done | | done]. apply Forall_fmap. eapply Forall_impl; [exact Hl |].
    by intros x (_ & ? & _).
  - apply Forall_app. split.
    + eapply Forall_impl; [exact Hl |]. intros x (? & ? & ?). split; [done |]. split; [lia | done].
    + constructor; [| done]. rewrite Hs. split; [done |]. split; [lia | done].
Qed.

Lemma step_retain_take d w p now all w1 rem dur : disk_ok d rem dur -> is_i64 now -> sane w1 -> writer_ok d w (PPlanned p) ->
  takeRetain p now w = (all, w1) -> writer_ok d w1 (PRetain p all).
Proof.
  intros HD Hnow [Hs _] W. pose proof (opened_of _ _ _ W I) as (O1 & O2 & O3). destruct W as [W1 W2 W3 W4 W5 W6 W7 W8].
  unfold takeRetain, takeQueue. intros [= <- <-]. cbn in Hs. cbn [todo inflight app] in *. pose proof (headSeq_nonneg d).
  destruct (planRecord_ok d p (w_nextSeq w) now rem dur HD W8) as (K1 & K2 & _); [unfold is_u64; lia | done |].
  destruct (pend_snoc d (w_queue w) (planRecord p (w_nextSeq w) now) (w_nextSeq w) W2 O1 W3 K1 eq_refl O2) as [N1 N2].
  split; cbn [w_queue set_queue set_nextSeq w_nextSeq todo inflight]; rewrite ?app_nil_r; try done.
  - left. split; [done |]. split; [cbn; lia |]. split; [| done]. cbn. eapply firstsTo_le; [| exact O2]. lia.
  - destruct W5 as [W5 W5']. split; [done |]. apply Forall_app. split; [done |]. constructor; [| done]. by apply okEntry_dropped.
  - split; [done |]. exists (planRecord p (w_nextSeq w) now). split; [| done]. apply elem_of_app. right. by left.
Qed.

(** The ghost's lines after a write. *)
Lemma wb_inv o rio wio d w b g err d1 w1 g1 : wb o rio wio d w b g = (err, d1, w1, g1) ->
  writeBatch o rio wio d w b = (err, d1, w1) /\ g_removed g1 = g_removed g /\
  g_durable g1 = (g_durable g ++ match err with None => batchLines (w_lastHash w) b | Some _ => [] end)%list.
Proof.
  unfold wb. destruct (writeBatch _ _ _ _ _ _) as [[e d'] w'] eqn:E. intros [= <- <- <- <-]. destruct e; cbn; [by rewrite app_nil_r | done].
Qed.

Lemma write_todo o rio wio d w pc rem dur err d1 w1 : disk_ok d rem dur -> writer_ok d w pc -> noFail pc -> todo pc <> [] ->
  writeBatch o rio wio d w (todo pc) = (err, d1, w1) ->
  exists added, batch_out (leftNothing rio wio) d w (todo pc) (w_queue w) rem dur err d1 w1 added.
Proof.
  intros HD [W1 W2 W3 W4 W5 W6 W7 W8] Hn Ht Hw. apply Forall_app in W3 as [W3 _]. eapply batch_write; try done.
  - intros Hf. by apply W4.
  - eapply Forall_impl; [exact W3 |]. by intros e (? & _).
  - eapply Forall_impl; [exact W3 |]. by intros e (_ & _ & ?).
Qed.

Lemma batch_hash quiet d w batch q rem dur err d1 w1 added : batch_out quiet d w batch q rem dur err d1 w1 added ->
  (w_f w <> None -> clean d w /\ w_lastHash w = lastHashOf zeroHash (dirLines d)) -> w_f w <> None -> isHash (w_lastHash w).
Proof. intros _ H Hf. destruct (H Hf) as [_ ->]. apply lastHashOf_hash, isHash_zero. Qed.

Lemma writeBatch_file o rio wio d w b d1 w1 : writeBatch o rio wio d w b = (None, d1, w1) -> w_f w <> None.
Proof. Transparent writeBatch. unfold writeBatch. Opaque writeBatch. by destruct (w_f w). Qed.

Lemma step_write o rio wio d w batch closing rem dur err d1 w1 : disk_ok d rem dur -> writer_ok d w (PTook batch closing false) -> batch <> [] ->
  writeBatch o rio wio d w batch = (err, d1, w1) ->
  disk_ok d1 rem (dur ++ match err with None => batchLines (w_lastHash w) batch | Some _ => [] end)%list /\
  writer_ok d1 w1 (match err with None => PWritten batch (bool_decide (w_f w1 <> w_f w)) | Some e => PFailed e batch end).
Proof.
  intros HD W Hb Hw. destruct (write_todo o rio wio d w (PTook batch closing false) rem dur err d1 w1) as [added HB]; try done.
  split; [apply HB |]. eapply (writer_wrote _ _ _ (PTook batch closing false)); [done | | done | apply HD | exact HB | by left | ..];
    try (by destruct err). apply (opened_of _ _ _ W). by destruct batch.
Qed.

Lemma step_retain_write o rio wio d w p all rem dur err d1 w1 : disk_ok d rem dur -> writer_ok d w (PRetain p all) ->
  writeBatch o rio wio d w all = (err, d1, w1) ->
  disk_ok d1 rem (dur ++ match err with None => batchLines (w_lastHash w) all | Some _ => [] end)%list /\
  writer_ok d1 w1 (match err with None => PRetained p all | Some e => PFailed e all end).
Proof.
  intros HD W Hw. pose proof (wo_pc _ _ _ W) as [Hp (e & He & Hann)].
  destruct (write_todo o rio wio d w (PRetain p all) rem dur err d1 w1) as [added HB]; try done; [intros Hz; cbn in Hz; subst all; by apply not_elem_of_nil in He |].
  split; [apply HB |]. eapply (writer_wrote _ _ _ (PRetain p all)); [done | | done | apply HD | exact HB | by left | ..]; try (by destruct err).
  - by apply (opened_of _ _ _ W).
  - destruct err as [x |]; [done |]. pose proof HB as [_ B2 _ _ _ _ B7 _]. destruct (B7 eq_refl) as (-> & _). split; [by eapply planOK_grows |].
    eapply added_named; [exact B2 | apply Hp | exact He | | exact Hann |].
    + pose proof (wo_ents _ _ _ W) as H. apply Forall_app in H as [H _]. eapply Forall_impl; [exact H |]. by intros ? (? & _).
    + eapply batch_hash; [exact HB | | by eapply writeBatch_file]. intros Hf. by apply (wo_clean _ _ _ W).
Qed.

Lemma step_remove d w p n d1 w1 st rem dur : disk_ok d rem dur -> writer_ok d w (PRemove p) -> (p_k p <= n)%nat ->
  removeSegments n p d w = (d1, w1, st) ->
  disk_ok d1 (rem ++ dirLines (take (Nat.min n (p_k p)) d))%list dur /\ writer_ok d1 w1 PIdle.
Proof.
  intros HD W Hn. unfold removeSegments. rewrite Nat.min_r by done. intros [= <- <- _]. pose proof (wo_pc _ _ _ W) as [Hp Hnm].
  destruct (writer_removed d w (PRemove p) p (set_removed w (w_removed w + Z.of_nat (p_k p))) PIdle rem dur); try done.
  - by apply (opened_of _ _ _ W).
  - left. by apply named_start.
  - apply W.
Qed.

(** ** Recovery *)
Lemma step_records d w batch closing plan now ret gap w1 rem dur : disk_ok d rem dur -> is_i64 now -> sane w1 -> sane w ->
  writer_ok d w (PReopened batch closing plan) -> recoverRecords plan now w = (ret, gap, w1) -> writer_ok d w1 (PRecover batch closing plan ret gap).
Proof.
  intros HD Hnow [Hs _] [_ Hdr] W. pose proof (opened_of _ _ _ W I) as (O1 & O2 & O3). destruct W as [W1 W2 W3 W4 [W5 W5'] W6 W7 [[Q1 Q2] [Q3 Q4]]].
  cbn [todo inflight] in *. rewrite Q1, app_nil_r in *. pose proof (headSeq_nonneg d).
  assert (Hgap : forall n, is_u64 n -> okEntry (mkEntry (ownRecord n now TypeGap ("sink failed: " +:+ default "" (w_failed w)) (w_dropped w) 0 "") Gap))
    by (intros n Hn; apply ownRecord_ok; try done; unfold is_u64 in *; lia).
  assert (Hfin : forall b r n, ascends (headSeq d) (e_seq <$> b) -> Forall (fun e => okEntry e /\ e_seq e < n /\ firstsTo (e_seq e) d) b ->
    Forall (fun e => 0 <= a_Dropped (e_rec e)) b -> w_nextSeq w <= n < 2^64 -> b = (batch ++ option_list r)%list ->
    (match plan with
     | Some p => planOK d p /\ exists e, r = Some e /\ announces e (p_start p) /\ textLen (e_rec e) <= 2^12
     | None => match w_unnamed w with Some u => exists e, r = Some e /\ announces e (a_StartSeq u, a_StartPrev u) | None => r = None end
     end) ->
    let g := mkEntry (ownRecord n now TypeGap ("sink failed: " +:+ default "" (w_failed w)) (w_dropped w) 0 "") Gap in
    writer_ok d (set_nextSeq w (n + 1)) (PRecover batch closing plan r g)).
  { intros b r n B1 B2 B3 B4 B5 B6 g. assert (okEntry g) as Hg by (apply Hgap; unfold is_u64; lia).
    destruct (pend_snoc d b g n B1 ltac:(lia) B2 Hg eq_refl (firstsTo_le _ _ _ (proj1 B4) O2)) as [N1 N2].
    assert (allOf batch r g = (b ++ [g])%list) as Hall by (rewrite B5; unfold allOf; by rewrite app_assoc).
    split; cbn [w_queue set_nextSeq w_nextSeq todo inflight]; rewrite ?Hall, ?Q1, ?app_nil_r; try done.
    - left. split; [done |]. split; [cbn; lia |]. split; [| done]. cbn. eapply firstsTo_le; [| exact O2]. lia.
    - split; [done |]. apply Forall_app. split; [done |]. constructor; [| done]. by apply okEntry_dropped. }
  unfold recoverRecords. destruct plan as [p |]; [| destruct (w_unnamed w) as [u |] eqn:Eu]; intros [= <- <- <-]; cbn in Hs.
  - specialize (Q4 p eq_refl). destruct (planRecord_ok d p (w_nextSeq w) now rem dur HD Q4) as (K1 & K2 & K3); [unfold is_u64; lia | done |].
    destruct (pend_snoc d batch (planRecord p (w_nextSeq w) now) (w_nextSeq w) W2 O1 W3 K1 eq_refl O2) as [N1 N2].
    apply (Hfin _ (Some (planRecord p (w_nextSeq w) now)) (w_nextSeq w + 1) N1 N2); [| lia | done |].
    + apply Forall_app. split; [done |]. constructor; [| done]. by apply okEntry_dropped.
    + split; [done |]. by eexists.
  - destruct (unnamed_ok u (w_nextSeq w) now (W7 u eq_refl)) as (K1 & K2); [unfold is_u64; lia | done |].
    destruct (pend_snoc d batch (mkEntry (setSeqTS u (w_nextSeq w) now) Announced) (w_nextSeq w) W2 O1 W3 K1 eq_refl O2) as [N1 N2].
    apply (Hfin _ (Some (mkEntry (setSeqTS u (w_nextSeq w) now) Announced)) (w_nextSeq w + 1) N1 N2); [| lia | done |].
    + apply Forall_app. split; [done |]. constructor; [| done]. by apply okEntry_dropped.
    + by eexists.
  - apply (Hfin batch None (w_nextSeq w) W2 W3 W5'); [lia | by rewrite app_nil_r | done].
Qed.

Lemma todo_recover d w batch closing plan ret gap : writer_ok d w (PRecover batch closing plan ret gap) -> Forall okEntry (allOf batch ret gap).
Proof. intros W. pose proof (wo_ents _ _ _ W) as H. apply Forall_app in H as [H _]. eapply Forall_impl; [exact H |]. by intros ? (? & _). Qed.

Lemma allOf_nonempty batch ret gap : allOf batch ret gap <> [].
Proof. unfold allOf. destruct batch; [| done]. by destruct ret. Qed.

Lemma startNamed_of d w : w_unnamed w = None -> startOK d w -> startNamed d.
Proof. intros Hu [H | (u & l & r & H & _)]; [done |]. congruence. Qed.

(** The batch of recover is written: the start is named from then on, or the
    plan that will name it is still to be carried out. *)
Lemma step_recover_write o rio wio d w batch closing plan ret gap rem dur d1 w1 : disk_ok d rem dur ->
  writer_ok d w (PRecover batch closing plan ret gap) -> writeBatch o rio wio d w (allOf batch ret gap) = (None, d1, w1) ->
  disk_ok d1 rem (dur ++ batchLines (w_lastHash w) (allOf batch ret gap))%list /\ writer_ok d1 w1 (PRecovered plan (allOf batch ret gap) gap).
Proof.
  intros HD W Hw. pose proof (opened_of _ _ _ W I) as Ho. pose proof (wo_pc _ _ _ W) as (Q1 & Q2 & Q3 & Q4).
  destruct (write_todo o rio wio d w (PRecover batch closing plan ret gap) rem dur None d1 w1) as [added HB]; try done; [apply allOf_nonempty |].
  pose proof HB as [B1 B2 _ _ _ B6 B7 _]. destruct (B7 eq_refl) as (-> & _). split; [done |].
  destruct (fileOnly_fields _ _ B6) as (F1 & F2 & F3 & F4 & F5).
  assert (Hh : isHash (w_lastHash w)) by (eapply batch_hash; [exact HB | | done]; intros Hf; by apply (wo_clean _ _ _ W)).
  assert (Hname : forall e st k, ret = Some e -> announces e st -> (k < List.length d)%nat -> named (drop k d1) st).
  { intros e st k -> Ha Hk. eapply added_named; [exact B2 | done | | by eapply todo_recover | exact Ha | done].
    unfold allOf. apply elem_of_app. right. by left. }
  eapply (writer_wrote _ _ _ (PRecover batch closing plan ret gap)); [done | done | done | apply HD | exact HB | by left | done | done | done | done |].
  split; [unfold recovering in *; by rewrite F2, F3 |]. split; [unfold gapOK in *; by rewrite F4 |].
  destruct plan as [p |].
  - destruct Q4 as (P1 & e & He & Ha & _). split; [by eapply planOK_grows |]. apply (Hname e); [done | done | apply P1].
  - destruct Ho as (_ & _ & Hne). assert (0 < List.length d)%nat as Hl by (destruct d; [done | cbn; lia]).
    destruct (wo_start _ _ _ W) as [Hs | (u & l & r & U1 & U2 & U3 & U4)].
    + apply (startNamed_of d1 newWriter eq_refl). eapply (start_grows d _ d1 newWriter); [exact B1 | apply HD | exact B2 | done | by left].
    + rewrite U1 in Q4. destruct Q4 as (e & He & Ha). pose proof (Hname e _ 0%nat He Ha Hl) as Hn. rewrite drop_0 in Hn.
      destruct B2 as (_ & B2 & _). unfold startNamed. rewrite B2, U2. cbn [app]. right. by rewrite <- U3, <- U4.
Qed.

Lemma step_recover_stuck o rio wio d w batch closing plan ret gap rem dur e d1 w1 : disk_ok d rem dur ->
  writer_ok d w (PRecover batch closing plan ret gap) -> writeBatch o rio wio d w (allOf batch ret gap) = (Some e, d1, w1) ->
  disk_ok d1 rem dur /\ writer_ok d1 (closeFile w1) (PLost batch closing).
Proof.
  intros HD W Hw. pose proof (opened_of _ _ _ W I) as Ho. pose proof (wo_pc _ _ _ W) as (Q1 & Q2 & Q3 & Q4).
  destruct (write_todo o rio wio d w (PRecover batch closing plan ret gap) rem dur (Some e) d1 w1) as [added HB]; try done; [apply allOf_nonempty |].
  pose proof HB as [B1 B2 _ _ _ B6 _ _]. rewrite app_nil_r in B1. split; [done |].
  destruct (fileOnly_fields _ _ B6) as (F1 & F2 & F3 & F4 & F5).
  eapply (writer_wrote _ _ _ (PRecover batch closing plan ret gap)); [done | done | done | apply HD | exact HB | by right | done | | done | done |].
  - intros x Hx. cbn in *. unfold allOf. apply elem_of_app. by left.
  - cbn. unfold recovering in *. cbn. by rewrite F2, F3.
Qed.

(** A write of recover that left nothing behind changes nothing. *)
Lemma step_nothing o rio wio d w batch closing plan ret gap rem dur e d1 w1 : disk_ok d rem dur -> leftNothing rio wio ->
  writer_ok d w (PRecover batch closing plan ret gap) -> writeBatch o rio wio d w (allOf batch ret gap) = (Some e, d1, w1) ->
  disk_ok d1 rem dur /\ writer_ok d1 w1 (PRecover batch closing plan ret gap).
Proof.
  intros HD Hq W Hw. pose proof (opened_of _ _ _ W I) as (O1 & O2 & O3). pose proof (wo_pc _ _ _ W) as (Q1 & Q2 & Q3 & Q4).
  destruct (write_todo o rio wio d w (PRecover batch closing plan ret gap) rem dur (Some e) d1 w1) as [added HB]; try done; [apply allOf_nonempty |].
  pose proof HB as [B1 B2 _ _ (e0 & E1 & E2 & E3) B6 _ B8]. rewrite app_nil_r in B1. split; [done |].
  destruct (B8 Hq ltac:(done)) as (-> & B9 & B10). destruct (fileOnly_fields _ _ B6) as (F1 & F2 & F3 & F4 & F5).
  assert (dirLines d1 = dirLines d) as Hl by (destruct B2 as (_ & B2 & _); by rewrite B2, app_nil_r).
  assert (headSeq d1 = headSeq d) as Hh by (unfold headSeq; by rewrite Hl).
  destruct W as [W1 W2 W3 W4 W5 W6 W7 W8]. destruct Q1 as [Q1 Q1']. split.
  - left. split; [done |]. split; [by rewrite Hh, F1 |]. split; [| by eapply grows_nonempty].
    rewrite F1. apply Forall_app in W3 as [W3 _]. rewrite Forall_forall in W3. destruct (W3 e0 E1) as (_ & ? & _). eapply firstsTo_le; [| exact E2]. lia.
  - by rewrite Hh, F2.
  - rewrite F1, F2, Q1, app_nil_r in *. cbn [todo] in *.
    assert (Forall (fun x => e_seq e0 <= e_seq x) (allOf batch ret gap)) as Hmin.
    { destruct (allOf batch ret gap) as [| x l]; [done |]. cbn in E3. simplify_eq. rewrite fmap_cons in W2. destruct W2 as [_ W2].
      constructor; [lia |]. apply Forall_forall. intros y Hy. pose proof (ascends_elem _ _ (e_seq y) W2 ltac:(apply list_elem_of_fmap; by exists y)). lia. }
    rewrite Forall_forall in *. intros x Hx. destruct (W3 x Hx) as (K1 & K2 & _). split; [done |]. split; [done |].
    specialize (Hmin x Hx). by eapply firstsTo_le.
  - intros _ _. by apply B9.
  - by rewrite F2, F4.
  - by eapply startOK_lines.
  - by rewrite F5.
  - split; [unfold recovering; by rewrite F2, F3 |]. split; [auto |]. split; [unfold gapOK in *; by rewrite F4 |]. rewrite F5.
    destruct plan as [p |]; [| done]. destruct Q4 as [P1 P2]. split; [by eapply planOK_grows | done].
Qed.

Lemma step_recover_remove o rio wio rio2 wio2 d w batch closing p ret gap rem dur e d1 w1 n d2 w2 st err2 d3 w3 :
  disk_ok d rem dur -> leftNothing rio wio -> (p_k p <= n)%nat -> slen e <= maxErrText ->
  writer_ok d w (PRecover batch closing (Some p) (Some ret) gap) ->
  writeBatch o rio wio d w (allOf batch (Some ret) gap) = (Some e, d1, w1) ->
  removeSegments n p d1 w1 = (d2, w2, Some st) ->
  let all := allOf batch (Some (renamed p st e ret)) gap in
  let w2' := set_unnamed w2 (Some (unnamedOf p st e)) in
  writeBatch o rio2 wio2 d2 w2' all = (err2, d3, w3) ->
  disk_ok d3 (rem ++ dirLines (take (Nat.min n (p_k p)) d1))%list (dur ++ match err2 with None => batchLines (w_lastHash w2') all | Some _ => [] end)%list /\
  match err2 with
  | None => writer_ok d3 w3 (PRecovered None all gap)
  | Some _ => writer_ok d3 (closeFile w3) (PLost batch closing)
  end.
Proof.
  intros HD Hq Hn Hlen W Hw1 Hrm all w2' Hw2. destruct (step_nothing _ _ _ _ _ _ _ _ _ _ _ _ _ _ _ HD Hq W Hw1) as [D1 W1].
  unfold removeSegments in Hrm. rewrite Nat.min_r in Hrm by done. rewrite Nat.ltb_irrefl in Hrm.
  pose proof (wo_pc _ _ _ W1) as (Q1 & Q2 & Q3 & Hp & x & Hx & Ha & Ht). injection Hx as <-. pose proof Hp as (Hk & Hdet & l & r & Hl & Hst).
  destruct (0 <? p_k p)%nat eqn:Ek; [| apply Nat.ltb_ge in Ek; lia]. simplify_eq.
  destruct (plan_hash d1 p rem dur D1 Hp) as [U1 U2]. pose proof (todo_recover _ _ _ _ _ _ _ W1) as Hok.
  assert (okEntry ret) as Hret by (rewrite Forall_forall in Hok; apply Hok; unfold allOf; apply elem_of_app; right; by left).
  destruct (renamed_ok p (p_start p) e ret Hret Ha U1 Hdet Hlen Ht) as [K1 K2].
  assert (Hall : Forall okEntry all).
  { unfold all, allOf in *. cbn [option_list] in *. apply Forall_app in Hok as [Hok1 Hok2]. apply Forall_app. split; [done |].
    apply Forall_cons in Hok2 as [_ Hok2]. by constructor. }
  destruct (writer_removed d1 w1 (PRecover batch closing (Some p) (Some ret) gap) p w2'
    (PRecover batch closing None (Some (renamed p (p_start p) e ret)) gap) rem dur) as [W2 D2]; try done.
  - by apply (opened_of _ _ _ W1).
  - right. exists (unnamedOf p (p_start p) e), l, r. split; [done |]. split; [done |]. unfold unnamedOf. cbn. by rewrite Hst.
  - intros u [= <-]. by exists p, (p_start p), e.
  - cbn [todo]. unfold allOf. by rewrite !fmap_app.
  - cbn [inflight]. eapply Forall_impl; [exact Hall |]. apply okEntry_dropped.
  - cbn. split; [done |]. split; [done |]. split; [done |]. by eexists.
  - rewrite Nat.min_r by done. destruct err2 as [e2 |].
    + rewrite app_nil_r. by eapply step_recover_stuck.
    + by eapply step_recover_write.
Qed.

Lemma step_recover_retain d w p all gap n d1 w1 st rem dur : disk_ok d rem dur -> writer_ok d w (PRecovered (Some p) all gap) -> (p_k p <= n)%nat ->
  removeSegments n p d w = (d1, w1, st) ->
  disk_ok d1 (rem ++ dirLines (take (Nat.min n (p_k p)) d))%list dur /\ writer_ok d1 w1 (PRecovered None all gap).
Proof.
  intros HD W Hn. unfold removeSegments. rewrite Nat.min_r by done. intros [= <- <- _]. pose proof (wo_pc _ _ _ W) as (Q1 & Q2 & Hp & Hnm).
  pose proof (wo_counts _ _ _ W) as [_ Hc]. apply Forall_app in Hc as [Hc _].
  destruct (writer_removed d w (PRecovered (Some p) all gap) p (set_removed w (w_removed w + Z.of_nat (p_k p))) (PRecovered None all gap) rem dur); try done.
  - by apply (opened_of _ _ _ W).
  - left. by apply named_start.
  - apply W.
  - cbn. split; [done |]. split; [done |]. by apply named_start.
Qed.

Lemma step_done d w all gap now : is_i64 now -> sane w -> sane (recoverDone all gap now w) -> writer_ok d w (PRecovered None all gap) ->
  writer_ok d (recoverDone all gap now w) PIdle.
Proof.
  intros Hnow [_ Hdr] [Hs _] W. pose proof (opened_of _ _ _ W I) as (O1 & O2 & O3). destruct W as [W1 W2 W3 W4 [W5 W5'] W6 W7 [[Q1 Q2] [Q3 Q4]]].
  unfold gapOK in Q3. pose proof (headSeq_nonneg d). unfold recoverDone in *. cbv zeta in *. cbn [w_dropped set_durable set_dropped set_unnamed] in *.
  destruct (Z.ltb_spec 0 (w_dropped w - a_Dropped (e_rec gap))).
  - cbn in Hs. set (c := mkEntry _ _). assert (okEntry c) as Hc by (apply ownRecord_ok; try done; cbn; unfold is_u64; lia).
    destruct (pend_snoc d [] c (w_nextSeq w) I O1 (Forall_nil_2 _) Hc eq_refl O2) as [N1 N2]. cbn [app] in *.
    split; cbn [todo inflight app]; cbn [w_queue w_nextSeq w_f w_lastHash w_dropped w_unnamed set_failed set_dropped set_nextSeq set_queue set_durable set_unnamed]; rewrite ?Q1; try done.
    + left. split; [done |]. split; [cbn; lia |]. split; [| done]. cbn. eapply firstsTo_le; [| exact O2]. lia.
    + split; [done |]. constructor; [| done]. by apply okEntry_dropped.
    + by left.
  - split; cbn [todo inflight app]; cbn [w_queue w_nextSeq w_f w_lastHash w_dropped w_unnamed set_failed set_dropped set_nextSeq set_queue set_durable set_unnamed]; rewrite ?Q1; try done.
    + by left.
    + split; [lia | done].
    + by left.
Qed.

Lemma step_lose d w batch (closing : bool) : writer_ok d w (PLost batch closing) ->
  writer_ok d (let w1 := countLost batch w in if closing then set_life (closeFile w1) (w_closed w1) true (w_active w1) else w1)
    (if closing then PDone else PIdle).
Proof.
  intros W. pose proof (wo_pc _ _ _ W) as [Q1 Q2]. destruct (wo_open _ _ _ W) as [[_ Ho] | U].
  - eapply (writer_lose _ _ _ batch _ _ W Ho); try done; destruct closing; auto.
  - destruct batch as [| b l]; [| by destruct U as (_ & _ & _ & _ & _ & [])]. destruct U as (U1 & U2 & U3 & U4 & U5 & U6).
    destruct W as [W1 W2 W3 W4 W5 W6 W7 W8]. cbv zeta. split; destruct closing; try done; try (by right; repeat split).
Qed.

Lemma step_fail d w err batch : writer_ok d w (PFailed err batch) -> writer_ok d (fail err batch w) PIdle.
Proof. intros W. pose proof (opened_of _ _ _ W I) as Ho. eapply (writer_lose _ _ _ batch _ _ W Ho); try done. by left. Qed.

Lemma step_restart d w pc : writer_ok d w pc -> w_unnamed w = None -> newestHasLine d -> writer_ok d newWriter PNew.
Proof.
  intros W Hu Hl. split; cbn [todo inflight app]; try done.
  - right. by repeat split.
  - left. eapply startNamed_of; [exact Hu | apply W].
Qed.

(** ** Every run *)
(** Numbers do not run out: fewer than 2^64 records, and fewer losses. *)
Definition sstep (o : Options) (c : Calm) (x y : World) : Prop := astep o c x y /\ sane (wd_w y).

Lemma both_Inv y : disk_ok (wd_disk y) (g_removed (wd_g y)) (g_durable (wd_g y)) /\ writer_ok (wd_disk y) (wd_w y) (wd_pc y) -> sane (wd_w y) -> Inv y.
Proof. intros [? ?] ?. by split. Qed.

Lemma Inv_step o x y : okOptions o -> sstep o calm x y -> Inv x -> Inv y.
Proof.
  intros Ho [Hs Hsane] [HD W Hx]. apply both_Inv; [| done].
  destruct Hs; cbn [wd_disk wd_w wd_pc wd_g] in *;
    repeat match goal with H : wb _ _ _ _ _ _ _ = _ |- _ => apply wb_inv in H as (? & HR & HU); rewrite ?HR, ?HU end.
  - split; [| by eapply step_append]. unfold g_append. by repeat case_match.
  - split; [done | by apply step_close].
  - by eapply step_activate.
  - split; [done | by apply step_take].
  - split; [done | by apply step_idle].
  - by eapply step_write.
  - split; [done | by apply step_ack].
  - split; [done | by apply step_fail].
  - split; [done | by eapply step_plan].
  - split; [done | by eapply step_retain_take].
  - by eapply step_retain_write.
  - split; [done |]. apply (writer_agree d w); [done |]. pose proof (opened_of _ _ _ W I).
    apply (writer_move d w (PRetained p all)); try done. apply W.
  - eapply step_remove; [done | done | | done]. auto.
  - by eapply step_reopen.
  - split; [done | by eapply step_records].
  - by eapply step_recover_write.
  - rewrite app_nil_r. by eapply step_recover_stuck.
  - match goal with H : wb _ _ _ _ _ _ _ = _ |- _ => apply wb_inv in H as (Hw & HR1 & HU1) end. cbn [g_removed g_durable g_remove] in *.
    rewrite HR1, HU1, app_nil_r in *.
    destruct (step_recover_remove o rio wio rio2 wio2 d w batch closing p ret gap _ _ e d1 w1 n d2 w2 st err2 d3 w3 HD) as [K1 K2]; auto.
    destruct err2; cbn [wd_disk wd_w wd_pc wd_g] in *; by rewrite HR, HU.
  - split; [done | by eapply step_done].
  - eapply step_recover_retain; [done | done | | done]. auto.
  - split; [done | by apply step_lose].
  - split; [done |]. destruct H as [H1 H2]; [done |]. by eapply step_restart.
Qed.

Lemma Inv_fresh : Inv freshWorld.
Proof.
  split; cbn [wd_disk wd_w wd_pc wd_g freshWorld g_removed g_durable].
  - split; try done; by repeat constructor.
  - split; cbn [todo inflight app]; try done.
    + right. by repeat split.
    + by left.
  - done.
Qed.

Lemma Inv_reach o wd : okOptions o -> rtc (sstep o calm) freshWorld wd -> Inv wd.
Proof.
  intros Ho Hr. revert wd Hr. apply (rtc_ind_r (fun wd => Inv wd) freshWorld); [apply Inv_fresh |].
  intros y z _ Hyz H. by eapply Inv_step.
Qed.
