(* ===== verification/AuditLog.v ===== *)
(** * What the audit log promises

    The theorems on every run of the writer, from [Inv_reach], [counted_reach]
    and [recorded_reach]; an interpreter of the steps, so that runs can be
    evaluated; and two runs that show why [calm] is assumed. *)

From S2P Require Import Prelude GoLib Json AuditRecord AuditRead AuditWriter AuditChain AuditAccount AuditInv.
From Stdlib Require Import String.
Local Open Scope string_scope.
Local Open Scope Z_scope.
Local Open Scope go_scope.
#[local] Opaque lineHash readHdr encode lineOf writeBatch planDetail removedDetail batchLines.

(** The lines of the log, removed ones first. *)
Definition history (wd : World) : list string := (g_removed (wd_g wd) ++ dirLines (wd_disk wd))%list.

Lemma sstep_runs o c x y : rtc (sstep o c) x y -> rtc (astep o c) x y.
Proof. induction 1 as [| x y z [H _] _ IH]; [done |]. by eapply rtc_l. Qed.

Lemma tidy_ends d : tidy d -> wholeEnds d.
Proof.
  intros [_ [-> | (i & sg & -> & Hi & Hs)]]; [constructor |]. apply Forall_app. split.
  - eapply Forall_impl; [exact Hi |]. intros s Hw. unfold whole in Hw. rewrite Hw. done.
  - apply Forall_singleton. unfold tooLong. unfold MaxRecordBytes, maxLine in *. lia.
Qed.

Lemma chain_from prev last l ls : chain prev last (l :: ls) -> chain (prevOf l) 0 (l :: ls).
Proof. cbn. intros (H1 & H2 & H3 & H4 & H5). split; [done |]. split; [done |]. split; [by left | done]. Qed.


Definition noCollision (a b : list string) : Prop := forall x y, x ∈ a -> y ∈ b -> lineHash x = lineHash y -> x = y.

Lemma countAnchors_none anchors a : okAnchors anchors -> a ∈ anchors -> countAnchors 0 0 0 anchors = Ok 0 -> False.
Proof.
  intros [_ Hp] Ha Hc%countAnchors_ok. assert (a ∈ filter (fun a => 0 <= an_Seq a) anchors) as H.
  { apply list_elem_of_filter. split; [| done]. rewrite Forall_forall in Hp. pose proof (Hp a Ha). cbn in *. lia. }
  destruct (filter _ anchors); [by apply not_elem_of_nil in H | cbn in Hc; lia].
Qed.


(** C13: Every record Append took since the process started is written, lost
    or in the writer's hands, once; and the records refused or lost are
    exactly those that written gap records count, that [dropped] counts for
    the next one, and that a carried gap record counts.  This needs no
    assumption on the file system. *)
Theorem losses_are_counted o c wd : rtc (astep o c) freshWorld wd ->
  let g := wd_g wd in let hands := (inflight (wd_pc wd) ++ w_queue (wd_w wd))%list in
  filter fromAppend (g_acked g ++ g_lost g ++ hands)%list ≡ₚ g_taken g /\
  g_refused g + total lossCount (g_lost g) = total gapCount (g_acked g) + w_dropped (wd_w wd) + total carriedCount hands.
Proof. intros Hr. destruct (counted_reach o c wd Hr) as [_ _ H1 H2]. by split. Qed.

(** Of the records the writer holds or held, a sequence number names one. *)
Lemma held_once wd e e' : recorded wd -> e ∈ inHands wd -> e' ∈ inHands wd -> e_seq e = e_seq e' -> e = e'.
Proof.
  intros [[Hn _] _ _ _] He He' Hs. apply list_elem_of_lookup in He as [i Hi]. apply list_elem_of_lookup in He' as [j Hj].
  assert (i = j) as ->; [| congruence]. apply (NoDup_lookup (e_seq <$> inHands wd) i j (e_seq e) Hn); rewrite list_lookup_fmap.
  - by rewrite Hi.
  - by rewrite Hj, Hs.
Qed.

Lemma taken_held wd e : counted wd -> e ∈ g_taken (wd_g wd) -> e ∈ inHands wd.
Proof. intros [_ _ _ H] He. rewrite <- H in He. by apply list_elem_of_filter in He as [_ He]. Qed.


(** ** Runs that can be evaluated *)
Inductive auditAct :=
  | AActivate (pio : reopenIO) (rio : rotateIO) (wio : writeIO) (now : Z)
  | AAppend (r : ARecord) (now : Z)
  | ATake
  | AWrite (rio : rotateIO) (wio : writeIO)
  | AAck (now : Z) (mods : option (list Z))
  | AFail
  | APlan (now : Z) (mods : option (list Z))
  | ARetainTake (now : Z)
  | ARetainAck
  | ARemove (n : nat)
  | AReopen (pio : reopenIO) (now : Z) (mods : option (list Z))
  | ARecords (now : Z)
  | ARecover (rio : rotateIO) (wio : writeIO)
  | ADone (now : Z)
  | ALose
  | ARestart.

Definition okAction (a : auditAct) : Prop :=
  match a with
  | AActivate _ _ _ now | ARetainTake now | ARecords now | ADone now => is_i64 now
  | AAppend r now => okAppend r now
  | _ => True
  end.

Definition newestLine (d : list Segment) : bool :=
  match last d with Some sg => match linesOf (sg_data sg) with [] => false | _ => true end | None => true end.

Lemma newestLine_ok d : newestLine d = true -> newestHasLine d.
Proof. unfold newestLine, newestHasLine. intros H sg Hs. rewrite Hs in H. by destruct (linesOf (sg_data sg)). Qed.

Section run.
Context (o : Options) (c : Calm).

Definition perform (a : auditAct) (x : World) : option World :=
  let '(mkWorld d w pc g) := x in
  match a, pc with
  | AActivate pio rio wio now, PNew =>
    if w_closed w || w_active w then None else
    let '(d1, w1, acked) := activate o pio rio wio now d w in
    let h := match reopen pio d w with (_, _, w0, _) => w_lastHash w0 end in
    Some (mkWorld d1 w1 PIdle (g_ack (g_write g (batchLines h acked)) acked))
  | AAppend r now, _ => let '(res, w1) := Append o w r now in Some (mkWorld d w1 pc (g_append g w w1 res))
  | ATake, PIdle =>
    let '(batch, w1) := takeQueue w in Some (mkWorld d w1 (PTook batch (w_closed w) (bool_decide (is_Some (w_failed w)))) g)
  | AWrite rio wio, PTook (e :: l) closing false =>
    let '(err, d1, w1, g1) := wb o rio wio d w (e :: l) g in
    Some (mkWorld d1 w1 (match err with None => PWritten (e :: l) (bool_decide (w_f w1 <> w_f w)) | Some x => PFailed x (e :: l) end) g1)
  | AWrite rio wio, PRetain p all =>
    let '(err, d1, w1, g1) := wb o rio wio d w all g in
    Some (mkWorld d1 w1 (match err with None => PRetained p all | Some x => PFailed x all end) g1)
  | AAck now mods, PWritten batch rotated =>
    Some (mkWorld d (ackBatch batch w)
      (if rotated then match planRetention o now mods d w with Some p => PPlanned p | None => PIdle end else PIdle) (g_ack g batch))
  | AFail, PFailed err batch => Some (mkWorld d (fail err batch w) PIdle (g_lose g batch))
  | APlan now mods, PIdle => p ← planRetention o now mods d w; Some (mkWorld d w (PPlanned p) g)
  | ARetainTake now, PPlanned p => let '(all, w1) := takeRetain p now w in Some (mkWorld d w1 (PRetain p all) g)
  | ARetainAck, PRetained p all => Some (mkWorld d (ackBatch all w) (PRemove p) (g_ack g all))
  | ARemove n, PRemove p =>
    if calm_remove c && negb (p_k p <=? n)%nat then None else
    let '(d1, w1, _) := removeSegments n p d w in Some (mkWorld d1 w1 PIdle (g_remove g d (Nat.min n (p_k p))))
  | AReopen pio now mods, PTook batch closing true =>
    let '(err, d1, w1, _) := reopen pio d w in
    Some (mkWorld d1 w1 (match err with None => PReopened batch closing (planRetention o now mods d1 w1) | Some _ => PLost batch closing end) g)
  | ARecords now, PReopened batch closing plan =>
    let '(ret, gap, w1) := recoverRecords plan now w in Some (mkWorld d w1 (PRecover batch closing plan ret gap) g)
  | ARecover rio wio, PRecover batch closing None ret gap =>
    match wio, wb o rio wio d w (allOf batch ret gap) g with
    | WriteOK, (None, d1, w1, g1) => Some (mkWorld d1 w1 (PRecovered None (allOf batch ret gap) gap) g1)
    | _, (Some _, d1, w1, g1) => Some (mkWorld d1 (closeFile w1) (PLost batch closing) g1)
    | _, _ => None
    end
  | ADone now, PRecovered None all gap => Some (mkWorld d (recoverDone all gap now w) PIdle (g_ack g all))
  | ALose, PLost batch closing =>
    Some (mkWorld d (let w1 := countLost batch w in if closing then set_life (closeFile w1) (w_closed w1) true (w_active w1) else w1)
      (if closing then PDone else PIdle) (g_lose g batch))
  | ARestart, _ =>
    if calm_exit c && negb (bool_decide (w_unnamed w = None) && newestLine d) then None else Some (mkWorld d newWriter PNew (g_restart g))
  | _, _ => None
  end.

Lemma exec_step a x y : okAction a -> perform a x = Some y -> astep o c x y.
Proof.
  destruct x as [d w pc g]. intros Ha Hx. destruct a; cbn [perform okAction] in *; try (destruct pc; try discriminate Hx; []).
  - destruct (w_closed w) eqn:E1, (w_active w) eqn:E2; try discriminate Hx. cbn [orb] in Hx.
    destruct (activate o pio rio wio now d w) as [[d1 w1] acked] eqn:E. injection Hx as <-. by eapply S_activate.
  - destruct (Append o w r now) as [res w1] eqn:E. injection Hx as <-. by eapply S_append.
  - injection Hx as <-. by eapply S_take.
  - destruct pc as [| | [| e l] closing [] | | | | | | | | | | |]; try discriminate Hx.
    + destruct (wb o rio wio d w (e :: l) g) as [[[err d1] w1] g1] eqn:E. injection Hx as <-. by eapply S_write.
    + destruct (wb o rio wio d w all g) as [[[err d1] w1] g1] eqn:E. injection Hx as <-. by eapply S_retain_write.
  - injection Hx as <-. apply S_ack.
  - injection Hx as <-. apply S_fail.
  - destruct (planRetention o now mods d w) as [p |] eqn:E; [| discriminate Hx]. injection Hx as <-. by eapply S_plan.
  - destruct (takeRetain p now w) as [all w1] eqn:E. injection Hx as <-. by eapply S_retain_take.
  - injection Hx as <-. apply S_retain_ack.
  - destruct (calm_remove c && negb (p_k p <=? n)%nat) eqn:E; [discriminate Hx |].
    destruct (removeSegments n p d w) as [[d1 w1] st] eqn:Er. injection Hx as <-. eapply S_remove; [| done]. intros Hc.
    rewrite Hc in E. apply negb_false_iff, Nat.leb_le in E. done.
  - destruct failed; [| discriminate Hx].
    destruct (reopen pio d w) as [[[err d1] w1] torn] eqn:E. injection Hx as <-. by eapply S_reopen.
  - destruct (recoverRecords plan now w) as [[ret gap] w1] eqn:E. injection Hx as <-. by eapply S_recover_records.
  - destruct plan as [p |]; [discriminate Hx |].
    destruct wio;
      (match type of Hx with context [wb ?a1 ?a2 ?a3 ?a4 ?a5 ?a6 ?a7] => destruct (wb a1 a2 a3 a4 a5 a6 a7) as [[[[e |] d1] w1] g1] eqn:E end);
      try discriminate Hx; injection Hx as <-;
      first [by eapply S_recover_write | by eapply (S_recover_stuck o c d w g batch closing None ret gap rio _ e d1 w1 g1 0)].
  - destruct plan as [p |]; [discriminate Hx |]. injection Hx as <-. by apply S_recover_done.
  - injection Hx as <-. apply S_lose.
  - destruct (calm_exit c && negb (bool_decide (w_unnamed w = None) && newestLine d)) eqn:E; [discriminate Hx |]. injection Hx as <-.
    apply S_restart. intros Hc. rewrite Hc in E. apply negb_false_iff, andb_prop in E as [E1%bool_decide_eq_true E2%newestLine_ok]. done.
Qed.

Definition saneb (w : Writer) : bool := (w_nextSeq w <=? 2^64) && (w_dropped w <? 2^64).

(** A run in which every state is sane. *)
Fixpoint runs (l : list auditAct) (x : World) : option World :=
  match l with
  | [] => Some x
  | a :: l' => y ← perform a x; if saneb (wd_w y) then runs l' y else None
  end.

Lemma runs_sound l : forall x y, Forall okAction l -> runs l x = Some y -> rtc (sstep o c) x y.
Proof.
  induction l as [| a l IH]; intros x y Hl; cbn [runs]; [by intros [= ->] |]. apply Forall_cons in Hl as [Ha Hl].
  destruct (perform a x) as [z |] eqn:E; [| done]. cbn [mbind option_bind]. destruct (saneb (wd_w z)) eqn:Es; [| done]. intros H.
  eapply rtc_l; [| by eapply IH]. split; [by eapply exec_step |]. unfold saneb in Es. apply andb_prop in Es as [E1 E2].
  split; [by apply Z.leb_le | by apply Z.ltb_lt].
Qed.
End run.

Definition demoRecord : ARecord := ownRecord 0 0 "commit" "demo" 0 0 "".
Lemma demo_append now : is_i64 now -> okAppend demoRecord now.
Proof.
  intros Hn. split; [by apply (ownRecord_ok 0 0 "commit" "demo" 0 0 "" Appended) |]. split; [exact Hn |]. by split.
Qed.

(** A run that has a property a bool decides. *)
Lemma runs_show o c l f : Forall okAction l -> match runs o c l freshWorld with Some wd => f wd | None => false end = true ->
  exists wd, rtc (sstep o c) freshWorld wd /\ f wd = true.
Proof. intros Hl Hr. destruct (runs o c l freshWorld) as [wd |] eqn:E; [| discriminate Hr]. exists wd. split; [by eapply runs_sound | done]. Qed.

(** The disk is full when a batch is written, and again after recover made a
    segment for its gap record; then the process restarts. *)
Definition restartRun : list auditAct :=
  [AActivate ReopenOK RotateOK WriteOK 5; AAppend demoRecord 7; AAppend demoRecord 7; ATake; AWrite (RotateFail "ENOSPC" false) WriteOK; AFail;
   ATake; AReopen ReopenOK 8 None; ARecords 8; ARecover RotateOK (WriteFail "ENOSPC" 0); ALose; ARestart;
   AActivate ReopenOK RotateOK WriteOK 9; AAppend demoRecord 10; ATake; AWrite RotateOK WriteOK; AAck 11 None].

(** A batch is lost, recover writes a gap record, and a record is written. *)
Definition demoOptions : Options := mkOptions 100000 100 0 0 "".
Definition demoRun : list auditAct :=
  [AActivate ReopenOK RotateOK WriteOK 5; AAppend demoRecord 7; ATake; AWrite RotateOK (WriteFail "ENOSPC" 10); AFail;
   ATake; AReopen ReopenOK 8 None; ARecords 8; ARecover RotateOK WriteOK; ADone 9;
   AAppend demoRecord 10; ATake; AWrite RotateOK WriteOK; AAck 11 None].

(** Retention removes one of its two segments. *)
Definition removeRun : list auditAct :=
  [AActivate ReopenOK RotateOK WriteOK 5; AAppend demoRecord 7; ATake; AWrite RotateOK WriteOK; AAck 8 None;
   AAppend demoRecord 9; ATake; AWrite RotateOK WriteOK; AAck 10 (Some [0; 0; 0]); ARetainTake 11; AWrite RotateOK WriteOK; ARetainAck; ARemove 1].

Definition failing (wd : World) : bool :=
  Healthy (wd_w wd) && bool_decide (w_unnamed (wd_w wd) = None) && negb (rp_OK (Verify (wd_disk wd)).1).
Lemma failing_spec wd : failing wd = true -> Healthy (wd_w wd) = true /\ w_unnamed (wd_w wd) = None /\ rp_OK (Verify (wd_disk wd)).1 = false.
Proof. unfold failing. intros [[H1 H2%bool_decide_eq_true]%andb_prop H3%negb_true_iff]%andb_prop. done. Qed.

Ltac okActions := match goal with |- Forall _ ?l => let l' := eval cbv delta [restartRun removeRun demoRun] in l in change l with l' end;
  repeat (apply Forall_cons; split; [first [exact I | apply demo_append; unfold is_i64; lia | cbn; unfold is_i64; lia] |]); apply Forall_nil_2.


Definition demoWorld : World := Eval vm_compute in default freshWorld (runs demoOptions calm demoRun freshWorld).
Lemma demo_runs : rtc (sstep demoOptions calm) freshWorld demoWorld.
Proof. apply (runs_sound _ _ demoRun); [okActions | vm_compute; reflexivity]. Qed.
Lemma demo_ok : okOptions demoOptions.
Proof. done. Qed.


Definition demoEntry : Entry := mkEntry (setSeqTS demoRecord 4 10) Appended.

Lemma losses_are_counted_witness :
  g_refused (wd_g demoWorld) + total lossCount (g_lost (wd_g demoWorld)) =
  total gapCount (g_acked (wd_g demoWorld)) + w_dropped (wd_w demoWorld) +
  total carriedCount (inflight (wd_pc demoWorld) ++ w_queue (wd_w demoWorld))%list.
Proof. apply (losses_are_counted demoOptions calm demoWorld). apply sstep_runs, demo_runs. Defined.

Lemma noCollision_sub a b : (forall y, y ∈ b -> y ∈ a) -> NoDup (lineHash <$> a) -> noCollision a b.
Proof.
  intros Hb Hn x y Hx Hy Hh. apply Hb in Hy. apply list_elem_of_lookup in Hx as [i Hi]. apply list_elem_of_lookup in Hy as [j Hj].
  assert (i = j) as ->; [| congruence]. apply (NoDup_lookup (lineHash <$> a) i j (lineHash x) Hn); rewrite list_lookup_fmap.
  - by rewrite Hi.
  - by rewrite Hj, Hh.
Qed.

(** The log without its last line, against an anchor of the line before it. *)
Definition demoLines : list string := Eval vm_compute in dirLines (wd_disk demoWorld).
Definition demoGap : string := Eval vm_compute in default "" (demoLines !! 1%nat).
Definition demoDisk : list Segment := Eval vm_compute in [mkSegment 1 (joinLines (take 2 demoLines))].
Definition demoAnchor : Anchor := Eval vm_compute in mkAnchor 3 (lineHash demoGap) 0 0 0 0.
Definition demoHashes : list string := Eval vm_compute in lineHash <$> demoLines.
Lemma demo_hashes : lineHash <$> demoLines = demoHashes.
Proof. vm_compute. reflexivity. Qed.
Definition demoReport : Report * Anchor * bool := Eval vm_compute in VerifyAnchors demoDisk [demoAnchor].

